(* ===== verification/_CoqProject ===== *)
-Q . S2P
Prelude.v
GoBytes.v
GoTime.v
GoCrypto.v
VaultCrypto.v
GoJson.v
JsonText.v
Jcs.v
A9Schema.v
Gate8Header.v
Gate8Replay.v
Gate8Wrapper.v
A9Reference.v
Topics.v
Interfaces.v
PushPolicy.v
Authority.v
A9Types.v
A9Trust.v
A9Keyset.v
A9Verify.v
A9Sample.v
ServiceAuth.v
Sql.v
A9VaultDb.v
ReplayReceipts.v
A9Vault.v
Aggregates.v
A9VaultSpec.v
A9VaultInv.v
A9Accept.v
A9Current.v
DeliveryJob.v
DeliveryQueue.v
DeliveryOps.v
DeliveryAttempt.v
Tombstones.v
RouteKeys.v
DeliveryErase.v
Refresh.v
Policy.v
Routing.v
Retention.v
ReplaceRequest.v
A9Replace.v
A9Handler.v
Moves.v
ReplaceMoves.v
Lineage.v
LineageMoves.v
LineageRefresh.v
LineageRoutes.v
LineageReplace.v
DeliveryInv.v
DeliveryMoves.v
ErasureMoves.v
DeliveryCalls.v
A9VaultProps.v
AggregateProps.v
Finalization.v
TombstoneProps.v
RetentionProps.v
NonceProps.v
ReplaceProps.v
A9HandlerProps.v
A9Api.v
EnqueueProps.v
DeliveryProps.v
QueueSample.v
RetentionSample.v
NonceSample.v
ReplaceSample.v
A9ApiSample.v
KeysetStore.v
KeysetProps.v
KeysetSample.v
NotificationQueue.v
NotificationProps.v
NotificationSample.v
