(* ===== verification/Prelude.v ===== *)
(** * A verification of the XMTP push bridge

    This library models the decision core of the notification bridge (Go, under src/) and
    proves it correct: which sealed envelopes are opened, which signed objects are accepted,
    which deliveries are authorized, and how the authority a delivery rests on changes and
    is checked in the vault. The executable definitions follow the Go functions one by one;
    the theorems are stated about those definitions.

    ** The program and its parts

    Gate 8 (src/pkg/gate8wrapper) wraps a push payload: the sender derives a route alias and
    a day key from a route key, frames capability, message and padding, and seals the frame
    with AES-GCM under a nonce made of a route's prefix and a delivery sequence; the receiver
    checks the expectation, recomputes the alias, authenticates, and only then advances a
    replay window.

    The authority objects (src/pkg/authority) are the signed receive capabilities, policy
    controls and welcome authorizations; the push policy (src/pkg/pushpolicy) turns a
    delivery request (src/pkg/interfaces) into a one-use authorization.

    On the path without a vault, received envelopes enter a durable notification queue
    (src/pkg/notificationqueue): workers claim them under leases and dispatch them to each
    recipient of a snapshot, with a receipt per recipient (src/pkg/xmtp/common.go,
    durable_worker.go).

    A9 is the control plane of the vault. A sequencer sends, per installation, a stream of
    signed control events (UPSERT or REVOKE of a binding version) and a stream of signed
    watermarks that say how far the control stream is committed. The schema parser
    (src/pkg/a9schema) and the trust layer (src/pkg/a9trust) read and verify them against
    keysets and topic schedules; the vault (src/pkg/vault/a9_store.go) applies each in one
    serializable database transaction; a replacement (src/pkg/vault/a9_replace.go) puts the
    routes of an installation in place under a watermark. The keysets live in
    src/pkg/db/a9_store.go, which lets a keyset follow another only by an eligible rotation
    and latches an environment uncertain otherwise. The API (src/pkg/a9api) checks the service
    token of a request (src/pkg/a9trust/jwt.go, src/pkg/a9auth), verifies its object, calls
    the vault and answers with a result and an HTTP status. Before a delivery, src/pkg/vault/a9_current.go decides whether the
    delivery's route snapshot is still current. src/internal/a9conformance/state/state.go is
    the small reference model of the same rules that the conformance suite runs.

    Installations refresh their leases and route keys (store.go), advance their policy
    (policy.go) and are routed messages to (routing.go, a9_routing.go), each message under a
    nonce of its route key that is never given twice. A background worker sweeps what has
    expired (retention.go).

    The delivery queue (src/pkg/vault/delivery_jobs.go) holds encrypted jobs in a table: a
    job is enqueued under the authority of its lease, claimed by a worker, attempted under
    a last check of that authority, and ends delivered, final or as an erasure of its
    device token. Final markers are counted in coarse aggregates (aggregates.go) and
    removed. Erasures and revocations leave deletion tombstones (tombstones.go), fences
    below which restored rows may not come back. Values at rest are sealed by the keyring
    of crypto.go.

    ** The files

    Foundations:
    - [Prelude]: results and their early returns, tactics, hint databases, lists, machine
      integers.
    - [GoBytes], [GoTime], [GoCrypto], [GoJson]: what the source uses of Go's standard
      library: byte strings, big-endian integers, decimal, hexadecimal and base64 codecs;
      instants, durations, RFC 3339 and date parsing and printing, [MarshalBinary];
      SHA-256 and HMAC as executable functions, Ed25519 and AES-GCM as type classes with
      their documented laws (and sample instances for the witnesses); the JSON texts the
      source builds.
    - [VaultCrypto] (crypto.go, nonce_state.go and the contexts of store.go): the keyring,
      its envelopes, lookup digests.
    - [Sql] (sql_retry.go and database/sql): a transaction is a state-and-error monad over a
      database state; an [Attempt] supplies the two clocks and the failure of any statement,
      of the begin or of the commit, and a [schedule] supplies the attempts of a retried
      call with what other transactions do between them.

    Wrapper, authority and policy:
    - [Gate8Header] (header.go), [Gate8Replay] (replay.go), [Gate8Wrapper] (wrapper.go).
      The mutex of the replay window makes each of its calls one step. The protector of
      [Gate8Wrapper.Open] is the type class [ReplayProtector], which the window implements.
    - [Topics] (pkg/topics), with the external topic package as a type class.
    - [Interfaces] (interfaces.go), [PushPolicy] (policy.go): authorizations are cells of an
      explicit store, because a context can be shared and used twice.
    - [Authority] (pkg/authority): signing bytes, shapes and verification.

    - [NotificationQueue] (notificationqueue/queue.go, db/sqlc/notification_queue.sql, and of
      pkg/xmtp the durable paths of common.go and durable_worker.go). Each statement is one
      step with its own clock and may fail with or without its effect. [NotificationProps]:
      any interleaving of calls; [NotificationSample]: a run.

    A9 objects:
    - [JsonText] and [Jcs] (a9schema/strictjson.go, a9trust/jcs.go): JSON values, the two
      strict parsers and the canonical form. [A9Schema] (a9schema/validate.go): the closed
      objects and their validators; the iteration order of a Go map is a class parameter.
    - [A9Trust] (signed.go, primitives.go): transcripts, signatures, commitments.
      [A9Keyset] (keyset.go): keysets, rotation, topic key schedules. [A9Verify]
      (control.go, watermark.go): verification of control events and watermarks.
      [A9Sample]: a signed keyset, assertion, control and watermark. [A9Accept]: what an
      accepted object satisfies, with runs on the sample.
    - [A9Reference] (state.go): the control, watermark, route replacement, pre-egress and
      restart machines as functions on their state records.
    - [A9Types]: the verified projections, topic key epochs, API results.

    The vault:
    - [A9VaultDb]: the tables of migrations 00006 and 00012 that the modelled code uses, for
      the one environment a store serves, the statements on them and the constraints these
      check: primary and unique keys, the foreign keys between routes, bindings and jobs, and
      for control events, assertions and watermarks all column checks and foreign keys (to
      receipts, control events, accepted keysets and listed keys).
    - [A9Vault] (a9_store.go and the guards it calls): one definition per method, composed
      as the Go code composes them. [A9VaultSpec]: the same as a transition system,
      [control_step] and [watermark_step], and the proof that every committed attempt is one
      of its steps. [A9VaultInv]: the invariant [vault_inv], its preservation, append-only
      histories, the uncertainty latch, and the lifting of step properties to retried
      calls. [A9Current] (a9_current.go): when a route is current. [A9VaultProps]: the
      theorems about the vault, and concrete runs of it.
    - [Aggregates] (aggregates.go); [AggregateProps].
    - [RouteKeys] (store.go: lookups, identities, the key history), [Refresh] (store.go and
      control_digest.go: the refresh of an installation, its leases and its route key),
      [Policy] (policy.go), [Routing] (routing.go, a9_routing.go: the snapshot of a message's
      recipients and the allocation of nonces), [Retention] (retention.go: options, sweep,
      worker, readiness, health).
    - [Moves]: what transactions do to the database, as relations closed under the monad;
      [Lineage]: a lease's key is in the history, and a key's nonces only go up;
      [LineageMoves], [LineageRefresh], [LineageRoutes], [LineageReplace]: every modelled
      transaction keeps that.
    - [RetentionProps], [NonceProps]: the theorems; [RetentionSample], [NonceSample]: runs.

    Replacement, authentication and the API:
    - [ReplaceRequest] (a9api/replace.go: decoding and validation of a body), [A9Replace]
      (vault/a9_replace.go); [ReplaceMoves], [ReplaceProps], [ReplaceSample].
    - [ServiceAuth] (a9trust/jwt.go, a9auth/auth.go), [ReplayReceipts] (the replay store of
      db/a9_store.go).
    - [A9Handler] (a9api/handler.go and the canonical JSON of result.go), over any trust
      manager, replay store and vault; [A9HandlerProps]: what it lets through and answers;
      [A9Api]: the same with the replay store and the vault of this library in their places;
      [A9ApiSample]: a signed request served.
    - [KeysetStore] (the keyset store of db/a9_store.go): validation of a keyset, the tables
      of migration 00012 and one transaction monad whose errors keep code and constraint, as
      the retries of this store look at both. [KeysetProps]: its transactions as moves and
      the theorems; [KeysetSample]: a rotation accepted and a conflict latched.

    The delivery queue:
    - [DeliveryJob] (the payload and its validation), [DeliveryQueue] (final markers,
      safety, recovery and the finalization loop), [DeliveryOps] (enqueue and claim),
      [DeliveryAttempt] (the attempt guard, reschedule, release), [Tombstones]
      (tombstones.go), [DeliveryErase] (the erasure lane).
    - [DeliveryInv]: the job state machine [job_move], well-formed rows [jobs_ok];
      [DeliveryMoves], [ErasureMoves]: every transaction moves jobs along it;
      [DeliveryCalls]: the calls of the queue as one interface and their composition with
      other transactions.
    - [DeliveryProps], [Finalization], [TombstoneProps], [EnqueueProps]: the theorems;
      [QueueSample]: a concrete store on which each of them is run.

    ** What the theorems show

    Gate 8: opening returns what was sealed; the replay window moves only for an
    authenticated envelope, and after any sequence of calls it still refuses every envelope
    at or below one it opened; frames and snapshots round-trip;
    headers, derivation inputs and nonces are unambiguous; sizes are as estimated.

    A9 objects: canonical JSON round-trips and the two parsers agree on it; strict parsing
    terminates; an accepted control was signed by a key the keyset lists for that use and
    instant and satisfies every check the vault repeats; rotations lose no key.

    A9 reference model: applied events are the contiguous prefix of the stream, a denial
    is never undone by an equal or older version, receipts make repeats harmless, a
    watermark never ends uncertainty, a replacement applies whole or not at all.

    The vault, for all schedules of failures, retries and other transactions that keep the
    constraints: each call commits at most one step of the transition system; the invariant
    holds throughout; an applied revocation leaves no route and no live job and is never
    undone; uncertainty is never ended by control events or watermarks, and nothing is
    current under it; a repeated event changes nothing and repeats its answer; an epoch is
    entered once; answers are valid results. The fault-free run of an UPSERT is given in
    full, including that a row the tables refuse or a live route of the binding makes it fail.

    The queue, for all rounds of clocks, random bytes, failures and other transactions:
    jobs stay well formed and move only along the state machine; an attempt is granted only
    for the claimed row under matching, live authority; composed with the vault, a revoked
    binding is never delivered again; finalization terminates and removes exactly the final
    markers; accepted jobs are bounded in time and number and a source event is accepted
    once; a live deletion fence holds, and what expired fences and live routes do to
    deletion and erasure is stated as it is.

    Retention: a completed sweep leaves nothing that expired in any of the tables it cleans,
    and no delivery that is live past its end; an expired lease whose key has
    no live history stops every sweep, as the code has it; the worker's delays are bounded.

    Nonces, for all interleavings of the modelled transactions: a pair of prefix and sequence
    is allocated at most once for a route key whose history is kept. The allocation of
    welcome.go advances the same counters and is outside this statement.

    Replacement: it is applied only for a current watermark, current bindings and assertions
    the watermark covers; the routes it publishes are current at that instant; a refused one
    changes no route.

    The API: the vault is reached only by requests whose token and object verified; a token
    comes to the vault at most once; no request breaks the vault's invariant; a response
    carries the vault's own answer about the request's installation.

    The notification queue, for all interleavings, clocks and failures: it stays within its
    quota and keeps no payload of an envelope that is over; a recipient whose outcome is on
    record is not sent to again; a worker that lost its lease changes nothing, gets no ticket
    and calls no provider, as long as leases (UUIDs) are fresh (the preparation of recipients
    does not tell it); a frame the listener goes past is on record or inadmissible.

    Keysets, for all replicas and failures: the accepted keysets of an environment are
    append-only and linked by eligible rotations; a rejected one latches the environment for
    good; an accepted one is on record when the call answers.

    Authority and policy: the exact conditions of acceptance, and that signing bytes,
    fingerprints and commitments determine what they cover. An allowed delivery consumes
    an authorization that was issued for a request with the same fingerprint, which is the
    same request up to the registration version of its delivery mechanism.

    ** Conventions and bounds

    Go integers are [Z] with their wrap-around written out ([w64] and the like) where it can
    occur; fields are known to be in range by explicit typing predicates. Instants are
    nanoseconds since 1970 in [Z]; [time.Duration] saturates as in Go, and columns hold
    instants at the precision of the database ([pg_timestamp]). Strings and byte slices are
    lists of bytes (nil is the empty slice); a Go map is a [gmap]. Nil receivers and nil
    databases, which the constructors exclude, are not values of the model.

    A serializable transaction, or one that locks the rows it decides on, is one atomic body
    on the tables of one environment; before it, any other transactions may run (a schedule
    or the [rdOthers] of a [Round]). Clocks, random bytes and the failure of each statement
    are arguments. Welcome traffic reaches only [stWelcomeEnabled], which [NewStore] leaves
    false.

    Fuel: the retry bounds (four attempts of a vault call, three of an enqueue) are the
    program's own, as are five of the keyset store. [finalize_markers] loops until no marker is left; more fuel than there
    are markers is enough ([Finalization.finalization_terminates]). The parsers of [Jcs] and
    [JsonText] take fuel twice the length of their input plus one, which is enough
    ([Jcs.strict_json_terminates]).

    External behaviour enters as type classes only: Ed25519, AES-GCM, the topic package, the
    JSON encodings of a queued payload ([JobJson]), of stored snapshots ([VaultJson]) and of
    the objects of a refresh ([Gate6Json]), the topic parser ([TopicParser]), the order in
    which a Go map is ranged over ([MapRange]) and the conversions of PostgreSQL
    ([Postgres]). Their laws are used as hypotheses of the theorems that need them and hold
    for the sample instances. [A9TrustSurface] is what the queue uses of the trust manager.

    ** Not modelled

    Welcome authorizations and the activation of installations (welcome.go), incident access
    and the audit of accesses: of their tables only the deletions of the sweep appear. The
    trust manager (manager.go: refresh timers, caches and
    the configuration file) enters as the argument of the handler and as [A9TrustSurface];
    of it the store's side, [KeysetStore], is modelled. A10 registration, A3 directory trust
    and the registration service are separate subsystems. Timers, heartbeats and goroutines
    of the workers appear only as the order of calls. Decoding of
    JSON into Go structs by encoding/json (ParseCanonicalAAD, ParsePublicKeyring,
    ParseKeyring) is left out with that package. The wiping of keys in memory and nil
    receivers are not values of a pure model. Network clients and listeners, the client
    transport of the API, servers and process wiring, the text of SQL, logging and
    generated code contain no decisions of their own and stay out. *)

From Stdlib Require Export ZArith Lia List Bool Sorting.Sorted Strings.Byte Ascii String.
From stdpp Require Export base tactics option list gmap strings.

(** ** Results

    Go functions that return [(T, error)] are modelled by [result E T]; early
    returns are written with [reject]. *)

Inductive result (E A : Type) : Type :=
| Ok (a : A)
| Err (e : E).
Arguments Ok {E A} _.
Arguments Err {E A} _.

#[export] Instance result_ret (E : Type) : MRet (result E) := fun _ a => Ok a.
#[export] Instance result_bind (E : Type) : MBind (result E) :=
  fun _ _ k m => match m with Ok a => k a | Err e => Err e end.

#[export] Instance result_eq_dec (E A : Type) `{EqDecision E, EqDecision A} :
  EqDecision (result E A).
Proof. solve_decision. Defined.

Definition is_ok {E A : Type} (r : result E A) : bool :=
  match r with Ok _ => true | Err _ => false end.

(** Turns an optional value into a result with a fixed error. *)
Definition or_err {E A : Type} (e : E) (o : option A) : result E A :=
  match o with Some a => Ok a | None => Err e end.

Declare Scope go_scope.
Delimit Scope go_scope with go.

Notation "'reject' c 'with' e ';;' k" := (if c then Err e else k)
  (at level 10, c at level 99, e at level 99, k at level 200,
   format "'[v' 'reject'  c  'with'  e ';;' '/' k ']'") : go_scope.

Notation "'bail' c 'with' e ';;' k" := (if c then e else k)
  (at level 10, c at level 99, e at level 99, k at level 200,
   format "'[v' 'bail'  c  'with'  e ';;' '/' k ']'") : go_scope.


(** ** Tactics and hint databases *)

Create HintDb go discriminated.
Create Rewrite HintDb go.

(** Case analysis on the discriminee of a [match] or [if] in a hypothesis. *)
Ltac case_in H :=
  match type of H with
  | context [match ?x with _ => _ end] =>
      lazymatch x with
      | context [match _ with _ => _ end] => fail
      | _ => let E := fresh "E" in destruct x eqn:E; try discriminate H
      end
  end.

(** Repeats [case_in] until the hypothesis has no branch left, then simplifies. *)
Ltac cases_in H := repeat (case_in H; simplify_eq/=).

(** Case analysis on a branch of the goal. *)
Ltac case_goal :=
  match goal with
  | |- context [match ?x with _ => _ end] =>
      lazymatch x with
      | context [match _ with _ => _ end] => fail
      | _ => let E := fresh "E" in destruct x eqn:E; try discriminate
      end
  end.

(** Turns boolean facts of the context into propositions. *)
Ltac boolprop :=
  repeat match goal with
  | H : _ && _ = true |- _ => apply andb_true_iff in H as [? ?]
  | H : _ || _ = false |- _ => apply orb_false_iff in H as [? ?]
  | H : negb _ = true |- _ => apply negb_true_iff in H
  | H : negb _ = false |- _ => apply negb_false_iff in H
  | H : bool_decide _ = true |- _ => apply bool_decide_eq_true_1 in H
  | H : bool_decide _ = false |- _ => apply bool_decide_eq_false_1 in H
  | H : Z.eqb _ _ = true |- _ => apply Z.eqb_eq in H
  | H : Z.eqb _ _ = false |- _ => apply Z.eqb_neq in H
  | H : Z.leb _ _ = true |- _ => apply Z.leb_le in H
  | H : Z.leb _ _ = false |- _ => apply Z.leb_gt in H
  | H : Z.ltb _ _ = true |- _ => apply Z.ltb_lt in H
  | H : Z.ltb _ _ = false |- _ => apply Z.ltb_ge in H
  | H : Nat.eqb _ _ = true |- _ => apply Nat.eqb_eq in H
  | H : Nat.eqb _ _ = false |- _ => apply Nat.eqb_neq in H
  | H : Nat.leb _ _ = true |- _ => apply Nat.leb_le in H
  | H : Nat.leb _ _ = false |- _ => apply Nat.leb_gt in H
  | H : Nat.ltb _ _ = true |- _ => apply Nat.ltb_lt in H
  | H : Nat.ltb _ _ = false |- _ => apply Nat.ltb_ge in H
  end.

(** Decides the integer comparisons of the goal. *)
Ltac compare_lia :=
  repeat match goal with
  | |- context [Z.ltb ?a ?b] => first [rewrite (proj2 (Z.ltb_lt a b)) by lia | rewrite (proj2 (Z.ltb_ge a b)) by lia]
  | |- context [Z.leb ?a ?b] => first [rewrite (proj2 (Z.leb_le a b)) by lia | rewrite (proj2 (Z.leb_gt a b)) by lia]
  | |- context [Z.eqb ?a ?b] => first [rewrite (proj2 (Z.eqb_eq a b)) by lia | rewrite (proj2 (Z.eqb_neq a b)) by lia]
  end.

(** ** Generic lemmas on lists *)

(** Two equal concatenations whose first parts have the same length split. *)
Lemma app_inj_length {A : Type} (a b c d : list A) :
  length a = length b -> a ++ c = b ++ d -> a = b /\ c = d.
Proof. intros Hl H. apply app_inj_1 in H; naive_solver. Qed.

Lemma take_app_exact {A : Type} (a b : list A) (n : nat) :
  length a = n -> take n (a ++ b) = a.
Proof. intros <-. by rewrite take_app_length. Qed.

Lemma drop_app_exact {A : Type} (a b : list A) (n : nat) :
  length a = n -> drop n (a ++ b) = b.
Proof. intros <-. by rewrite drop_app_length. Qed.

Lemma forallb_seq (f : nat -> bool) (n i : nat) :
  forallb f (List.seq 0 n) = true -> (i < n)%nat -> f i = true.
Proof. intros H Hi. eapply forallb_forall in H; [exact H|]. apply in_seq. lia. Qed.

(** A prefix of elements satisfying [P] followed by one that does not is determined. *)
Lemma app_span_inj {A : Type} (P : A -> bool) (a b : list A) (c d : A) (x y : list A) :
  forallb P a = true -> forallb P b = true -> P c = false -> P d = false ->
  a ++ c :: x = b ++ d :: y -> a = b /\ c = d /\ x = y.
Proof.
  revert b. induction a as [|h a IH]; intros [|h' b] Ha Hb Hc Hd H; simplify_eq/=; boolprop.
  - done.
  - congruence.
  - congruence.
  - destruct (IH b) as (-> & -> & ->); done.
Qed.

Lemma forallb_impl {A : Type} (P Q : A -> bool) l :
  (forall x, P x = true -> Q x = true) -> forallb P l = true -> forallb Q l = true.
Proof. intros HPQ H. apply forallb_forall. intros x Hx. eapply forallb_forall in H; eauto. Qed.

(** ** Machine integers *)

(** [uint64] values and wrap-around; [int64] values. *)
Definition w64 (z : Z) : Z := (z mod 2 ^ 64)%Z.
Definition u64 (z : Z) : Prop := (0 <= z < 2 ^ 64)%Z.
Definition i64 (z : Z) : Prop := (- 2 ^ 63 <= z < 2 ^ 63)%Z.

Lemma w64_succ z : u64 z -> w64 (z + 1) = (if z =? 2 ^ 64 - 1 then 0 else z + 1)%Z.
Proof.
  unfold u64, w64. intros Hz. destruct (Z.eqb_spec z (2 ^ 64 - 1)) as [->|]; [done|].
  apply Z.mod_small. lia.
Qed.

(** ** Chains of checks *)

(** A rejecting guard succeeds when its condition is false and the rest succeeds. *)
Lemma reject_ok {E A : Type} (c : bool) (e : E) (k : result E A) (x : A) :
  (if c then Err e else k) = Ok x <-> c = false /\ k = Ok x.
Proof. destruct c; naive_solver. Qed.

Lemma bail_some {A : Type} (c : bool) (o : option A) (a : A) :
  (if c then None else o) = Some a <-> c = false /\ o = Some a.
Proof. destruct c; naive_solver. Qed.

Lemma bind_ok {E A B : Type} (m : result E A) (k : A -> result E B) (y : B) :
  (m ≫= k) = Ok y <-> exists a, m = Ok a /\ k a = Ok y.
Proof. destruct m; cbn; naive_solver. Qed.

(** Goes through the steps of a successful chain [H]: each bound result is [Ok], each
    guard holds. *)
Ltac step_in H :=
  match type of H with
  | (_ ≫= _) = Ok _ =>
      let x := fresh "x" in let E := fresh "E" in
      apply bind_ok in H as (x & E & H); try (repeat match type of x with (_ * _)%type => destruct x as [x ?] end);
      cbn beta iota in H
  | (if _ then Err _ else _) = Ok _ => let E := fresh "E" in apply reject_ok in H as [E H]
  end.
Ltac steps_in H := repeat step_in H.
