(* ===== verification/GoBytes.v ===== *)
(** * Go byte slices and strings

    Go's [string] and [[]byte] are both byte sequences; both are modelled by
    [bytes := list byte]. The file models what the sources use of the packages
    [encoding/binary], [encoding/hex], [encoding/base64], [strconv] and
    [strings], with their inverse laws. *)

From S2P Require Import Prelude.
From Stdlib Require Import DecimalN.

Abbreviation bytes := (list byte).

(** The bytes of a Go string literal. *)
Definition str (s : string) : bytes := list_byte_of_string s.

(** ** Bytes as 8-bit integers *)

Definition b2z (b : byte) : Z := Z.of_N (Byte.to_N b).
Definition z2b (z : Z) : byte :=
  match Byte.of_N (Z.to_N (z mod 256)) with Some b => b | None => x00 end.

#[export] Instance byte_eq_dec : EqDecision byte := Byte.byte_eq_dec.
#[export] Instance byte_countable : Countable byte :=
  inj_countable Byte.to_N Byte.of_N Byte.of_to_N.

(** Go's [==] on byte sequences ([bytes.Equal], [hmac.Equal] and
    [subtle.ConstantTimeCompare] decide the same relation). *)
Definition beq (a b : bytes) : bool := bool_decide (a = b).

Lemma str_inj a b : str a = str b -> a = b.
Proof.
  unfold str. intros H. apply (f_equal string_of_list_byte) in H.
  by rewrite !string_of_list_byte_of_string in H.
Qed.

Lemma b2z_range b : (0 <= b2z b < 256)%Z.
Proof. unfold b2z. pose proof (Byte.to_N_bounded b). lia. Qed.

Lemma z2b_b2z b : z2b (b2z b) = b.
Proof.
  unfold z2b. rewrite Z.mod_small by apply b2z_range.
  unfold b2z. by rewrite N2Z.id, Byte.of_to_N.
Qed.

Lemma b2z_z2b z : b2z (z2b z) = (z mod 256)%Z.
Proof.
  unfold z2b. pose proof (Z.mod_pos_bound z 256 ltac:(lia)).
  destruct (Byte.of_N (Z.to_N (z mod 256))) eqn:E.
  - unfold b2z. apply Byte.to_of_N in E. rewrite E. lia.
  - apply Byte.of_N_None_iff in E. lia.
Qed.

Lemma b2z_inj a b : b2z a = b2z b -> a = b.
Proof. intros H. rewrite <- (z2b_b2z a), <- (z2b_b2z b). congruence. Qed.

Lemma beq_true a b : beq a b = true <-> a = b.
Proof. apply bool_decide_eq_true. Qed.

(** Turns the tests of equality among the hypotheses into equations. *)
Ltac beqs := repeat match goal with H : beq _ _ = true |- _ => apply beq_true in H end.

Lemma beq_false a b : beq a b = false <-> a <> b.
Proof. apply bool_decide_eq_false. Qed.

Lemma beq_refl a : beq a a = true.
Proof. by apply beq_true. Qed.

#[export] Hint Resolve b2z_range beq_refl : go.
#[export] Hint Rewrite z2b_b2z : go.

(** ** [encoding/binary]: big-endian unsigned integers

    [be n z] is the [n]-byte big-endian encoding of [z mod 256^n], which is what
    [PutUint32], [AppendUint64] and the like write. *)
Fixpoint be (n : nat) (z : Z) : bytes :=
  match n with
  | O => []
  | S m => be m (z / 256) ++ [z2b z]
  end.

Definition be_decode (l : bytes) : Z :=
  fold_left (fun acc b => (acc * 256 + b2z b)%Z) l 0%Z.

Lemma length_be n z : length (be n z) = n.
Proof. revert z. induction n; intros; simpl; [done|]. rewrite length_app, IHn. simpl. lia. Qed.

Lemma be_decode_app l b : be_decode (l ++ [b]) = (be_decode l * 256 + b2z b)%Z.
Proof. unfold be_decode. by rewrite fold_left_app. Qed.

Lemma be_decode_be n z : be_decode (be n z) = (z mod 256 ^ Z.of_nat n)%Z.
Proof.
  revert z. induction n as [|n IH]; intros z.
  - simpl. by rewrite Z.mod_1_r.
  - simpl be. rewrite be_decode_app, IH, b2z_z2b.
    rewrite Nat2Z.inj_succ, Z.pow_succ_r by lia.
    rewrite (Z.mul_comm 256 (256 ^ Z.of_nat n)).
    rewrite (Z.mul_comm (256 ^ _) 256), Z.rem_mul_r by (try apply Z.pow_nonzero; lia).
    lia.
Qed.

Lemma be_inj n a b :
  (0 <= a < 256 ^ Z.of_nat n)%Z -> (0 <= b < 256 ^ Z.of_nat n)%Z -> be n a = be n b -> a = b.
Proof.
  intros Ha Hb H. apply (f_equal be_decode) in H.
  rewrite !be_decode_be, !Z.mod_small in H by done. done.
Qed.

Lemma be_decode_range v : (0 <= be_decode v < 256 ^ Z.of_nat (length v))%Z.
Proof.
  induction v as [|b v IH] using rev_ind; [done|].
  rewrite be_decode_app, length_app, Nat.add_comm. change (length [b] + length v)%nat with (S (length v)).
  rewrite Nat2Z.inj_succ, Z.pow_succ_r by lia. pose proof (b2z_range b). lia.
Qed.

Lemma be_be_decode n v : length v = n -> be n (be_decode v) = v.
Proof.
  intros <-. induction v as [|b v IH] using rev_ind; [done|].
  rewrite be_decode_app, length_app, Nat.add_comm. simpl be.
  pose proof (b2z_range b). rewrite Z.div_add_l, Z.div_small, Z.add_0_r, IH by lia.
  f_equal. f_equal. apply b2z_inj. rewrite b2z_z2b, Z.add_comm, Z.mod_add by lia.
  by apply Z.mod_small.
Qed.

(** A field preceded by its length as an unsigned 64-bit integer. *)
Definition len_field (v : bytes) : bytes := be 8 (Z.of_nat (length v)) ++ v.

(** Go slices and strings are shorter than [2^63] bytes (their length is an [int]). *)
Definition go_len (v : bytes) : Prop := (Z.of_nat (length v) < 2 ^ 63)%Z.

Lemma len_field_inj a b x y :
  go_len a -> go_len b -> len_field a ++ x = len_field b ++ y -> a = b /\ x = y.
Proof.
  unfold len_field, go_len. intros Ha Hb H. rewrite <- !app_assoc in H.
  apply app_inj_length in H as [Hl H]; [|by rewrite !length_be].
  apply be_inj in Hl; [|lia..].
  apply app_inj_length in H; [done|lia].
Qed.

(** ** [strconv]: decimal unsigned integers *)

Fixpoint uint_bytes (d : Decimal.uint) : bytes :=
  match d with
  | Decimal.Nil => []
  | Decimal.D0 d => x30 :: uint_bytes d
  | Decimal.D1 d => x31 :: uint_bytes d
  | Decimal.D2 d => x32 :: uint_bytes d
  | Decimal.D3 d => x33 :: uint_bytes d
  | Decimal.D4 d => x34 :: uint_bytes d
  | Decimal.D5 d => x35 :: uint_bytes d
  | Decimal.D6 d => x36 :: uint_bytes d
  | Decimal.D7 d => x37 :: uint_bytes d
  | Decimal.D8 d => x38 :: uint_bytes d
  | Decimal.D9 d => x39 :: uint_bytes d
  end.

Fixpoint bytes_uint (s : bytes) : option Decimal.uint :=
  match s with
  | [] => Some Decimal.Nil
  | c :: s =>
      match bytes_uint s with
      | None => None
      | Some d =>
          match c with
          | x30 => Some (Decimal.D0 d)
          | x31 => Some (Decimal.D1 d)
          | x32 => Some (Decimal.D2 d)
          | x33 => Some (Decimal.D3 d)
          | x34 => Some (Decimal.D4 d)
          | x35 => Some (Decimal.D5 d)
          | x36 => Some (Decimal.D6 d)
          | x37 => Some (Decimal.D7 d)
          | x38 => Some (Decimal.D8 d)
          | x39 => Some (Decimal.D9 d)
          | _ => None
          end
      end
  end.

(** [strconv.FormatUint(z, 10)] and [strconv.AppendUint]. *)
Definition format_uint (z : Z) : bytes := uint_bytes (N.to_uint (Z.to_N z)).

(** The value of a non-empty sequence of decimal digits. *)
Definition parse_digits (s : bytes) : option Z :=
  match s with
  | [] => None
  | _ => match bytes_uint s with
         | Some d => Some (Z.of_N (N.of_uint d))
         | None => None
         end
  end.

(** [strconv.ParseUint(s, 10, 64)]; [None] is any error. *)
Definition parse_uint64 (s : bytes) : option Z :=
  match parse_digits s with
  | Some z => if (z <? 2 ^ 64)%Z then Some z else None
  | None => None
  end.

(** [strconv.ParseInt(s, 10, 64)], which accepts one leading sign. *)
Definition parse_int64 (s : bytes) : option Z :=
  let '(neg, digits) :=
    match s with
    | x2d :: r => (true, r)
    | x2b :: r => (false, r)
    | _ => (false, s)
    end in
  match parse_digits digits with
  | None => None
  | Some z =>
      let v := if neg : bool then (- z)%Z else z in
      if ((- 2 ^ 63 <=? v) && (v <? 2 ^ 63))%Z then Some v else None
  end.

Definition is_digit (b : byte) : bool := ((48 <=? b2z b) && (b2z b <=? 57))%Z.

Lemma bytes_uint_uint_bytes d : bytes_uint (uint_bytes d) = Some d.
Proof. induction d; simpl; rewrite ?IHd; done. Qed.

Lemma uint_bytes_bytes_uint s d : bytes_uint s = Some d -> uint_bytes d = s.
Proof.
  revert d. induction s as [|c s IH]; simpl; intros d H; [by simplify_eq|].
  destruct (bytes_uint s) as [d'|]; [|done].
  destruct c; try discriminate H; injection H as <-; simpl; f_equal; by apply IH.
Qed.

Lemma uint_bytes_digits d : forallb is_digit (uint_bytes d) = true.
Proof. induction d; simpl; done. Qed.

Lemma to_uint_nonnil n : N.to_uint n <> Decimal.Nil.
Proof.
  intros H. pose proof (DecimalN.Unsigned.to_of (N.to_uint n)) as E.
  rewrite DecimalN.Unsigned.of_to, H in E. done.
Qed.

Lemma format_uint_nonempty z : format_uint z <> [].
Proof.
  unfold format_uint. destruct (N.to_uint (Z.to_N z)) eqn:E; try done.
  by apply to_uint_nonnil in E.
Qed.

Lemma format_uint_digits z : forallb is_digit (format_uint z) = true.
Proof. apply uint_bytes_digits. Qed.

Lemma format_uint_zero z r : format_uint z = x30 :: r -> r = [].
Proof.
  unfold format_uint. set (n := Z.to_N z). pose proof (DecimalN.Unsigned.to_of (N.to_uint n)) as E.
  rewrite DecimalN.Unsigned.of_to in E. destruct (N.to_uint n) as [|d|d|d|d|d|d|d|d|d|d]; try done.
  intros [= <-]. unfold Decimal.unorm in E. destruct (Decimal.nzhead (Decimal.D0 d)) as [|d'| | | | | | | | |] eqn:En; try done.
  - by injection E as ->.
  - by apply DecimalFacts.nzhead_nonzero in En.
Qed.

Lemma parse_format_uint z : (0 <= z)%Z -> parse_digits (format_uint z) = Some z.
Proof.
  intros Hz. unfold parse_digits.
  pose proof (format_uint_nonempty z). destruct (format_uint z) eqn:E; [done|].
  rewrite <- E. unfold format_uint. rewrite bytes_uint_uint_bytes, DecimalN.Unsigned.of_to.
  by rewrite Z2N.id.
Qed.

Lemma parse_uint64_format z :
  (0 <= z < 2 ^ 64)%Z -> parse_uint64 (format_uint z) = Some z.
Proof.
  intros Hz. unfold parse_uint64. rewrite parse_format_uint by lia.
  by rewrite (proj2 (Z.ltb_lt _ _)) by lia.
Qed.

Lemma format_uint_inj a b :
  (0 <= a)%Z -> (0 <= b)%Z -> format_uint a = format_uint b -> a = b.
Proof.
  intros Ha Hb H. apply (f_equal parse_digits) in H.
  rewrite !parse_format_uint in H by done. congruence.
Qed.

Lemma unorm_no_leading_zero d :
  match d with Decimal.Nil | Decimal.D0 _ => d = Decimal.D0 Decimal.Nil | _ => True end ->
  Decimal.unorm d = d.
Proof. destruct d; simpl; try done. intros H. by simplify_eq. Qed.

(** Formatting a parsed spelling gives it back unless it has a superfluous zero. *)
Lemma format_parse_digits s z :
  parse_digits s = Some z -> (hd_error s = Some x30 -> s = [x30]) -> format_uint z = s.
Proof.
  intros H Hz. unfold parse_digits in H. destruct s as [|c s]; [done|].
  destruct (bytes_uint (c :: s)) as [d|] eqn:E; [|done]. simplify_eq.
  unfold format_uint. rewrite N2Z.id, DecimalN.Unsigned.to_of.
  apply uint_bytes_bytes_uint in E as E'. rewrite unorm_no_leading_zero; [done|].
  destruct d; try done; simpl in E'; simplify_eq.
  specialize (Hz eq_refl). simplify_eq. destruct d; try done.
Qed.

Lemma parse_digits_nonneg s z : parse_digits s = Some z -> (0 <= z)%Z.
Proof. unfold parse_digits. intros H. cases_in H; lia. Qed.

Lemma parse_uint64_range s z : parse_uint64 s = Some z -> (0 <= z < 2 ^ 64)%Z.
Proof.
  unfold parse_uint64. intros H. cases_in H. boolprop.
  split; [|done]. by eapply parse_digits_nonneg.
Qed.

Lemma parse_digits_is_digits s z : parse_digits s = Some z -> forallb is_digit s = true.
Proof.
  unfold parse_digits. intros H. destruct s as [|c s]; [done|].
  destruct (bytes_uint (c :: s)) as [d|] eqn:E; [|done].
  apply uint_bytes_bytes_uint in E as <-. apply uint_bytes_digits.
Qed.

(** ** [encoding/hex] *)

Definition hex_char (n : Z) : byte := z2b (if (n <? 10)%Z then 48 + n else 87 + n).

Definition hex_val (b : byte) : option Z :=
  let z := b2z b in
  if ((48 <=? z) && (z <=? 57))%Z then Some (z - 48)%Z
  else if ((97 <=? z) && (z <=? 102))%Z then Some (z - 87)%Z
  else if ((65 <=? z) && (z <=? 70))%Z then Some (z - 55)%Z
  else None.

(** [hex.EncodeToString]. *)
Definition hex_encode (l : bytes) : bytes :=
  flat_map (fun b => [hex_char (b2z b / 16); hex_char (b2z b mod 16)]) l.

(** [hex.DecodeString]; [None] is any error (odd length or invalid byte). *)
Fixpoint hex_decode (s : bytes) : option bytes :=
  match s with
  | [] => Some []
  | [_] => None
  | a :: b :: r =>
      match hex_val a, hex_val b, hex_decode r with
      | Some x, Some y, Some l => Some (z2b (x * 16 + y) :: l)
      | _, _, _ => None
      end
  end.

Definition is_lower_hex (b : byte) : bool :=
  let z := b2z b in ((48 <=? z) && (z <=? 57) || (97 <=? z) && (z <=? 102))%Z.

Lemma hex_val_char n : (0 <= n < 16)%Z -> hex_val (hex_char n) = Some n.
Proof.
  intros H. assert (Hn : n = Z.of_nat (Z.to_nat n)) by lia. rewrite Hn.
  pose proof (forallb_seq (fun i => bool_decide (hex_val (hex_char (Z.of_nat i)) = Some (Z.of_nat i)))
                16 (Z.to_nat n) eq_refl ltac:(lia)) as E.
  by apply bool_decide_eq_true_1 in E.
Qed.

Lemma hex_val_lower c n : hex_val c = Some n -> is_lower_hex c = true -> hex_char n = c.
Proof. destruct c; intros H Hl; vm_compute in Hl; try discriminate; vm_compute in H; by simplify_eq. Qed.

Lemma hex_val_range c n : hex_val c = Some n -> (0 <= n < 16)%Z.
Proof. unfold hex_val. pose proof (b2z_range c). intros E. cases_in E; boolprop; lia. Qed.

Lemma hex_char_lower n : (0 <= n < 16)%Z -> is_lower_hex (hex_char n) = true.
Proof.
  intros H. assert (Hn : n = Z.of_nat (Z.to_nat n)) by lia. rewrite Hn.
  apply (forallb_seq (fun i => is_lower_hex (hex_char (Z.of_nat i))) 16); [reflexivity|lia].
Qed.

Lemma hex_decode_encode l : hex_decode (hex_encode l) = Some l.
Proof.
  induction l as [|b l IH]; [done|].
  change (hex_encode (b :: l)) with
    (hex_char (b2z b / 16) :: hex_char (b2z b mod 16) :: hex_encode l).
  pose proof (b2z_range b). simpl.
  rewrite !hex_val_char by (split; [apply Z.div_pos || apply Z.mod_pos_bound|
    apply Z.div_lt_upper_bound || apply Z.mod_pos_bound]; lia).
  rewrite IH. do 2 f_equal. rewrite <- (z2b_b2z b) at 3. f_equal.
  pose proof (Z.div_mod (b2z b) 16). lia.
Qed.

Lemma hex_encode_inj a b : hex_encode a = hex_encode b -> a = b.
Proof. intros H. apply (f_equal hex_decode) in H. rewrite !hex_decode_encode in H. congruence. Qed.

Lemma length_hex_encode l : length (hex_encode l) = (2 * length l)%nat.
Proof. induction l; simpl; [done|]. rewrite IHl. lia. Qed.

Lemma hex_encode_lower l : forallb is_lower_hex (hex_encode l) = true.
Proof.
  induction l as [|b l IH]; [done|]. simpl. pose proof (b2z_range b).
  rewrite IH, !hex_char_lower; [done|..].
  - split; [apply Z.mod_pos_bound; lia|apply Z.mod_pos_bound; lia].
  - split; [apply Z.div_pos; lia|apply Z.div_lt_upper_bound; lia].
Qed.

(** Induction two elements at a time. *)
Lemma list_ind2 {A : Type} (P : list A -> Prop) :
  P [] -> (forall a, P [a]) -> (forall a b l, P l -> P (a :: b :: l)) -> forall l, P l.
Proof.
  intros H0 H1 H2 l. enough (P l /\ forall a, P (a :: l)) by tauto.
  induction l as [|x l [IHl IHc]]; split; auto.
Qed.

Lemma hex_encode_decode s l :
  hex_decode s = Some l -> forallb is_lower_hex s = true -> hex_encode l = s.
Proof.
  revert l. induction s as [| |a b s IH] using list_ind2; intros l H Hl; simpl in H; simplify_eq; [done|].
  destruct (hex_val a) as [x|] eqn:Ea; [|done].
  destruct (hex_val b) as [y|] eqn:Eb; [|done].
  destruct (hex_decode s) as [r|] eqn:Er; [|done]. simplify_eq/=. boolprop.
  pose proof (hex_val_range _ _ Ea). pose proof (hex_val_range _ _ Eb).
  rewrite b2z_z2b, (Z.mod_small _ 256) by lia.
  replace ((x * 16 + y) / 16)%Z with x by (apply Z.div_unique with y; lia).
  replace ((x * 16 + y) mod 16)%Z with y by (apply Z.mod_unique with x; lia).
  rewrite (hex_val_lower a x), (hex_val_lower b y) by done. f_equal. f_equal. by apply IH.
Qed.

Lemma length_hex_decode s l : hex_decode s = Some l -> length s = (2 * length l)%nat.
Proof.
  revert l. induction s as [| |a b s IH] using list_ind2; intros l H; simpl in H; simplify_eq; [done|].
  cases_in H. rewrite (IH _ eq_refl). lia.
Qed.

Lemma hex_decode_lower s :
  forallb is_lower_hex s = true -> Nat.even (length s) = true -> is_Some (hex_decode s).
Proof.
  induction s as [| |a b s IH] using list_ind2; intros H He; simpl in *; [done..|]. boolprop.
  destruct IH as [l ->]; [done..|].
  assert (forall c, is_lower_hex c = true -> is_Some (hex_val c)) as Hv
    by (intros c; destruct c; vm_compute; eauto; discriminate).
  destruct (Hv a) as [x Hx]; [done|]. destruct (Hv b) as [y Hy]; [done|].
  rewrite Hx, Hy. eauto.
Qed.

(** The text form of a UUID of 32 hexadecimal digits. *)
Definition uuid_text (h : bytes) : bytes :=
  take 8 h ++ [x2d] ++ take 4 (drop 8 h) ++ [x2d] ++ take 4 (drop 12 h) ++ [x2d] ++
  take 4 (drop 16 h) ++ [x2d] ++ drop 20 h.

(** ** [encoding/base64]: [RawURLEncoding] *)

Definition b64_char (n : Z) : byte :=
  z2b (if (n <? 26)%Z then 65 + n
       else if (n <? 52)%Z then 71 + n
       else if (n <? 62)%Z then n - 4
       else if (n =? 62)%Z then 45 else 95).

Definition b64_val (b : byte) : option Z :=
  let z := b2z b in
  if ((65 <=? z) && (z <=? 90))%Z then Some (z - 65)%Z
  else if ((97 <=? z) && (z <=? 122))%Z then Some (z - 71)%Z
  else if ((48 <=? z) && (z <=? 57))%Z then Some (z + 4)%Z
  else if (z =? 45)%Z then Some 62%Z
  else if (z =? 95)%Z then Some 63%Z
  else None.

(** [base64.RawURLEncoding.EncodeToString]. *)
Fixpoint b64_encode (l : bytes) : bytes :=
  match l with
  | [] => []
  | [a] =>
      let v := (b2z a * 65536)%Z in
      [b64_char (v / 262144); b64_char (v / 4096 mod 64)]
  | [a; b] =>
      let v := (b2z a * 65536 + b2z b * 256)%Z in
      [b64_char (v / 262144); b64_char (v / 4096 mod 64); b64_char (v / 64 mod 64)]
  | a :: b :: c :: r =>
      let v := (b2z a * 65536 + b2z b * 256 + b2z c)%Z in
      b64_char (v / 262144) :: b64_char (v / 4096 mod 64) :: b64_char (v / 64 mod 64) ::
      b64_char (v mod 64) :: b64_encode r
  end.

Fixpoint b64_quads (strict : bool) (s : bytes) : option bytes :=
  match s with
  | [] => Some []
  | [_] => None
  | [a; b] =>
      match b64_val a, b64_val b with
      | Some x, Some y =>
          if strict && negb (y mod 16 =? 0)%Z then None
          else Some [z2b (x * 4 + y / 16)]
      | _, _ => None
      end
  | [a; b; c] =>
      match b64_val a, b64_val b, b64_val c with
      | Some x, Some y, Some z =>
          if strict && negb (z mod 4 =? 0)%Z then None
          else Some [z2b (x * 4 + y / 16); z2b (y mod 16 * 16 + z / 4)]
      | _, _, _ => None
      end
  | a :: b :: c :: d :: r =>
      match b64_val a, b64_val b, b64_val c, b64_val d, b64_quads strict r with
      | Some x, Some y, Some z, Some w, Some l =>
          Some (z2b (x * 4 + y / 16) :: z2b (y mod 16 * 16 + z / 4) :: z2b (z mod 4 * 64 + w) :: l)
      | _, _, _, _, _ => None
      end
  end.

Definition is_newline (b : byte) : bool := bool_decide (b = x0a) || bool_decide (b = x0d).

(** [base64.RawURLEncoding.DecodeString] ([strict]: of [RawURLEncoding.Strict()]).
    The decoder skips carriage returns and line feeds; strict mode also refuses
    non-zero trailing bits. *)
Definition b64_decode (strict : bool) (s : bytes) : option bytes :=
  b64_quads strict (List.filter (fun b => negb (is_newline b)) s).

Lemma b64_val_char n : (0 <= n < 64)%Z -> b64_val (b64_char n) = Some n.
Proof.
  intros H. assert (Hn : n = Z.of_nat (Z.to_nat n)) by lia. rewrite Hn.
  pose proof (forallb_seq (fun i => bool_decide (b64_val (b64_char (Z.of_nat i)) = Some (Z.of_nat i)))
                64 (Z.to_nat n) eq_refl ltac:(lia)) as E.
  by apply bool_decide_eq_true_1 in E.
Qed.

Lemma b64_char_val c n : b64_val c = Some n -> b64_char n = c.
Proof. destruct c; intros H; vm_compute in H; try discriminate; injection H as <-; reflexivity. Qed.

Lemma b64_val_range c n : b64_val c = Some n -> (0 <= n < 64)%Z.
Proof. unfold b64_val. pose proof (b2z_range c). intros E. cases_in E; boolprop; lia. Qed.

Lemma b64_val_not_newline c : is_newline c = true -> b64_val c = None.
Proof. destruct c; vm_compute; done. Qed.

(** Induction three or four elements at a time. *)
Lemma list_ind3 {A : Type} (P : list A -> Prop) :
  P [] -> (forall a, P [a]) -> (forall a b, P [a; b]) ->
  (forall a b c l, P l -> P (a :: b :: c :: l)) -> forall l, P l.
Proof.
  intros H0 H1 H2 H3 l.
  enough (P l /\ (forall a, P (a :: l)) /\ forall a b, P (a :: b :: l)) by tauto.
  induction l as [|x l (IH1 & IH2 & IH3)]; repeat split; auto.
Qed.

Lemma list_ind4 {A : Type} (P : list A -> Prop) :
  P [] -> (forall a, P [a]) -> (forall a b, P [a; b]) -> (forall a b c, P [a; b; c]) ->
  (forall a b c d l, P l -> P (a :: b :: c :: d :: l)) -> forall l, P l.
Proof.
  intros H0 H1 H2 H3 H4 l.
  enough (P l /\ (forall a, P (a :: l)) /\ (forall a b, P (a :: b :: l)) /\
          forall a b c, P (a :: b :: c :: l)) by tauto.
  induction l as [|x l (IH1 & IH2 & IH3 & IH4)]; repeat split; auto.
Qed.

Lemma b64_encode_cons3 a b c r :
  b64_encode (a :: b :: c :: r) =
  let v := (b2z a * 65536 + b2z b * 256 + b2z c)%Z in
  b64_char (v / 262144) :: b64_char (v / 4096 mod 64) :: b64_char (v / 64 mod 64) ::
  b64_char (v mod 64) :: b64_encode r.
Proof. done. Qed.

Lemma z2b_eq z b : z = b2z b -> z2b z = b.
Proof. intros ->. apply z2b_b2z. Qed.

Lemma b64_quads_encode strict l : b64_quads strict (b64_encode l) = Some l.
Proof.
  induction l as [|a|a b|a b c l IH] using list_ind3; [done|..].
  - pose proof (b2z_range a). simpl.
    rewrite !b64_val_char by (Z.div_mod_to_equations; lia).
    rewrite (proj2 (Z.eqb_eq _ _)) by (Z.div_mod_to_equations; lia).
    rewrite andb_false_r. do 2 f_equal. apply z2b_eq. Z.div_mod_to_equations; lia.
  - pose proof (b2z_range a). pose proof (b2z_range b). simpl.
    rewrite !b64_val_char by (Z.div_mod_to_equations; lia).
    rewrite (proj2 (Z.eqb_eq _ _)) by (Z.div_mod_to_equations; lia).
    rewrite andb_false_r. do 2 f_equal; [|f_equal]; apply z2b_eq; Z.div_mod_to_equations; lia.
  - pose proof (b2z_range a). pose proof (b2z_range b). pose proof (b2z_range c).
    rewrite b64_encode_cons3. simpl.
    rewrite !b64_val_char by (Z.div_mod_to_equations; lia).
    rewrite IH. f_equal. f_equal; [|f_equal; [|f_equal]];
      apply z2b_eq; Z.div_mod_to_equations; lia.
Qed.

Lemma b64_encode_quads s l : b64_quads true s = Some l -> b64_encode l = s.
Proof.
  revert l. induction s as [|a|a b|a b c|a b c d s IH] using list_ind4;
    intros l H; simpl in H; simplify_eq; [done|..];
    cases_in H; boolprop;
    repeat match goal with E : b64_val _ = Some _ |- _ =>
      pose proof (b64_val_range _ _ E); apply b64_char_val in E; subst end.
  - simpl. rewrite b2z_z2b. repeat f_equal; Z.div_mod_to_equations; lia.
  - simpl. rewrite !b2z_z2b. repeat f_equal; Z.div_mod_to_equations; lia.
  - simpl. rewrite !b2z_z2b, (IH _ eq_refl).
    f_equal; [|f_equal; [|f_equal; [|f_equal]]]; f_equal; Z.div_mod_to_equations; lia.
Qed.

Definition is_b64url (c : byte) : bool := bool_decide (is_Some (b64_val c)).

Lemma b64_char_alphabet n : (0 <= n < 64)%Z -> is_b64url (b64_char n) = true.
Proof. intros. apply bool_decide_eq_true. rewrite b64_val_char by done. eauto. Qed.

Lemma b64_encode_alphabet l : forallb is_b64url (b64_encode l) = true.
Proof.
  induction l as [|a|a b|a b c l IH] using list_ind3; [done|..].
  - pose proof (b2z_range a). simpl.
    rewrite !b64_char_alphabet by (Z.div_mod_to_equations; lia). done.
  - pose proof (b2z_range a). pose proof (b2z_range b). simpl.
    rewrite !b64_char_alphabet by (Z.div_mod_to_equations; lia). done.
  - pose proof (b2z_range a). pose proof (b2z_range b). pose proof (b2z_range c).
    rewrite b64_encode_cons3. simpl.
    rewrite !b64_char_alphabet by (Z.div_mod_to_equations; lia). done.
Qed.

Lemma filter_newline_alphabet s :
  forallb is_b64url s = true -> List.filter (fun b => negb (is_newline b)) s = s.
Proof.
  induction s as [|c s IH]; simpl; intros H; [done|]. boolprop.
  destruct (is_newline c) eqn:E; simpl; [|f_equal; auto].
  apply b64_val_not_newline in E. unfold is_b64url in *. rewrite E in *. boolprop.
  by apply is_Some_None in H.
Qed.

Lemma b64_decode_encode strict l : b64_decode strict (b64_encode l) = Some l.
Proof.
  unfold b64_decode. rewrite filter_newline_alphabet by apply b64_encode_alphabet.
  apply b64_quads_encode.
Qed.

Lemma b64_encode_inj a b : b64_encode a = b64_encode b -> a = b.
Proof.
  intros H. apply (f_equal (b64_decode true)) in H. rewrite !b64_decode_encode in H. congruence.
Qed.

(** On the bare alphabet the strict decoder accepts only canonical spellings. *)
Lemma b64_decode_canonical s l :
  forallb is_b64url s = true -> b64_decode true s = Some l -> b64_encode l = s.
Proof.
  intros Ha H. unfold b64_decode in H. rewrite filter_newline_alphabet in H by done.
  by apply b64_encode_quads.
Qed.

Lemma length_b64_encode l : length (b64_encode l) = ((length l * 8 + 5) / 6)%nat.
Proof.
  induction l as [|a|a b|a b c l IH] using list_ind3; [done..|].
  rewrite b64_encode_cons3. simpl length. rewrite IH.
  replace (S (S (S (length l))) * 8 + 5)%nat with (length l * 8 + 5 + 4 * 6)%nat by lia.
  rewrite Nat.div_add by lia. lia.
Qed.

(** ** [strings] and lexicographic comparison *)

Fixpoint has_prefix (s p : bytes) : bool :=
  match p, s with
  | [], _ => true
  | c :: p, d :: s => bool_decide (c = d) && has_prefix s p
  | _ :: _, [] => false
  end.

(** [strings.TrimPrefix(s, p)]. *)
Definition trim_prefix (s p : bytes) : bytes :=
  if has_prefix s p then drop (length p) s else s.

Definition has_suffix (s p : bytes) : bool :=
  bool_decide (length p <= length s)%nat && beq (drop (length s - length p) s) p.

Definition trim_suffix (s p : bytes) : bytes :=
  if has_suffix s p then take (length s - length p) s else s.

(** [strings.Cut(s, sep)] for a one-byte separator. *)
Fixpoint cut (s : bytes) (sep : byte) : option (bytes * bytes) :=
  match s with
  | [] => None
  | c :: r => if bool_decide (c = sep) then Some ([], r)
              else match cut r sep with Some (a, b) => Some (c :: a, b) | None => None end
  end.

(** [strings.Split(s, sep)] for a one-byte separator. *)
Fixpoint split_on (s : bytes) (sep : byte) : list bytes :=
  match s with
  | [] => [[]]
  | c :: r => if bool_decide (c = sep) then [] :: split_on r sep
              else match split_on r sep with h :: t => (c :: h) :: t | [] => [[c]] end
  end.

(** [strings.Contains(s, p)]. *)
Fixpoint contains (s p : bytes) : bool :=
  has_prefix s p || match s with [] => false | _ :: r => contains r p end.

(** [strings.ContainsAny(s, chars)] for ASCII [chars]. *)
Definition contains_any (s chars : bytes) : bool :=
  existsb (fun c => existsb (fun d => bool_decide (c = d)) chars) s.

(** The ASCII part of [strings.ToLower] and [strings.ToUpper]. *)
Definition lower_byte (b : byte) : byte :=
  if ((65 <=? b2z b) && (b2z b <=? 90))%Z then z2b (b2z b + 32) else b.
Definition upper_byte (b : byte) : byte :=
  if ((97 <=? b2z b) && (b2z b <=? 122))%Z then z2b (b2z b - 32) else b.
Definition to_lower (s : bytes) : bytes := map lower_byte s.
Definition to_upper (s : bytes) : bytes := map upper_byte s.

(** Go's [<] on strings and [bytes.Compare(a, b) < 0]. *)
Fixpoint bytes_lt (a b : bytes) : bool :=
  match a, b with
  | [], [] => false
  | [], _ :: _ => true
  | _ :: _, [] => false
  | x :: a, y :: b => (b2z x <? b2z y)%Z || ((b2z x =? b2z y)%Z && bytes_lt a b)
  end.

Lemma has_prefix_app s p : has_prefix (p ++ s) p = true.
Proof. induction p; simpl; [by destruct s|]. by rewrite bool_decide_true, IHp. Qed.

Lemma has_prefix_true s p : has_prefix s p = true -> exists r, s = p ++ r.
Proof.
  revert s. induction p as [|c p IH]; intros s H; simpl in H; [by exists s|].
  destruct s as [|d s]; [done|]. apply andb_true_iff in H as [Hc Hp].
  apply bool_decide_eq_true_1 in Hc as ->. destruct (IH _ Hp) as [r ->]. by exists r.
Qed.

Lemma trim_prefix_app s p : trim_prefix (p ++ s) p = s.
Proof. unfold trim_prefix. rewrite has_prefix_app. by rewrite drop_app_length. Qed.

Lemma has_suffix_app s p : has_suffix (s ++ p) p = true.
Proof.
  unfold has_suffix. rewrite length_app. rewrite bool_decide_true by lia.
  replace (length s + length p - length p)%nat with (length s) by lia.
  by rewrite drop_app_length, beq_refl.
Qed.

Lemma trim_suffix_app s p : trim_suffix (s ++ p) p = s.
Proof.
  unfold trim_suffix. rewrite has_suffix_app, length_app.
  replace (length s + length p - length p)%nat with (length s) by lia.
  by rewrite take_app_length.
Qed.

Lemma has_suffix_true s p : has_suffix s p = true -> exists r, s = r ++ p.
Proof.
  unfold has_suffix. intros H. apply andb_true_iff in H as [_ Hs]. apply beq_true in Hs.
  exists (take (length s - length p) s). rewrite <- Hs at 2. by rewrite take_drop.
Qed.

Lemma cut_app a b sep : sep ∉ a -> cut (a ++ sep :: b) sep = Some (a, b).
Proof.
  induction a as [|c a IH]; simpl; intros H; [by rewrite bool_decide_true|].
  rewrite bool_decide_false by set_solver. rewrite IH by set_solver. done.
Qed.

Lemma cut_some s sep a b : cut s sep = Some (a, b) -> s = a ++ sep :: b /\ sep ∉ a.
Proof.
  revert a. induction s as [|c s IH]; simpl; intros a H; [done|].
  case_bool_decide; simplify_eq/=; [split; [done|set_solver]|].
  destruct (cut s sep) as [[a' b']|] eqn:E; simplify_eq/=.
  destruct (IH _ eq_refl) as [-> ?]. split; [done|set_solver].
Qed.

Lemma split_on_nonempty s sep : split_on s sep <> [].
Proof. destruct s; cbn; [done|]. case_bool_decide; [done|]. by destruct (split_on s sep). Qed.

Lemma split_on_none s sep : sep ∉ s -> split_on s sep = [s].
Proof.
  induction s as [|c s IH]; intros Hs; [done|]. cbn. rewrite bool_decide_false by set_solver.
  by rewrite IH by set_solver.
Qed.

Lemma split_on_app h r sep : sep ∉ h -> split_on (h ++ sep :: r) sep = h :: split_on r sep.
Proof.
  induction h as [|c h IH]; intros Hs; cbn; [by rewrite bool_decide_true|].
  rewrite bool_decide_false by set_solver. by rewrite IH by set_solver.
Qed.

Lemma split_on_cons s sep h t :
  split_on s sep = h :: t -> sep ∉ h /\ ((t = [] /\ s = h) \/ exists r, s = h ++ sep :: r /\ split_on r sep = t).
Proof.
  revert h. induction s as [|c s IH]; cbn; intros h.
  { intros [= <- <-]. split; [set_solver|by left]. }
  case_bool_decide as Hc.
  { intros [= <- <-]. split; [set_solver|]. right. exists s. by rewrite Hc. }
  destruct (split_on s sep) as [|h' t'] eqn:E; intros [= <- <-].
  { by destruct s; cbn in E; repeat case_match. }
  destruct (IH _ eq_refl) as [Hh Ht]. split; [set_solver|].
  destruct Ht as [[-> ->]|(r & -> & Hr)]; [by left|right]. by exists r.
Qed.

Lemma bytes_lt_irrefl a : bytes_lt a a = false.
Proof. induction a; simpl; [done|]. by rewrite Z.ltb_irrefl, Z.eqb_refl, IHa. Qed.

Lemma bytes_lt_trans a b c : bytes_lt a b = true -> bytes_lt b c = true -> bytes_lt a c = true.
Proof.
  revert b c. induction a as [|x a IH]; intros [|y b] [|z c] H1 H2; simpl in *; try done.
  apply orb_true_iff in H1, H2. apply orb_true_iff.
  destruct H1 as [H1|H1], H2 as [H2|H2]; boolprop; try (left; apply Z.ltb_lt; lia).
  right. apply andb_true_iff. split; [apply Z.eqb_eq; lia|eauto].
Qed.

Lemma bytes_lt_total a b : bytes_lt a b = false -> bytes_lt b a = false -> a = b.
Proof.
  revert b. induction a as [|x a IH]; intros [|y b] H1 H2; simpl in *; try done. boolprop.
  assert (b2z x = b2z y) as Hxy by lia. apply b2z_inj in Hxy as ->. f_equal.
  rewrite Z.eqb_refl in *. by apply IH.
Qed.
