(* ===== verification/GoTime.v ===== *)
(** * Go package [time]

    An instant is a [Z] of nanoseconds since the Unix epoch. The file models the
    calendar, [time.Parse] and [Time.Format] for the three layouts the sources
    use ([time.DateOnly], the A9 wire layout and [time.RFC3339Nano]), the
    comparisons, the saturating [Time.Sub] and [Time.MarshalBinary]. *)

From S2P Require Import Prelude GoBytes.
Local Open Scope Z_scope.

Definition second : Z := 1000000000.
Definition minute : Z := 60 * second.
Definition hour : Z := 60 * minute.
Definition day : Z := 24 * hour.

(** [time.Time{}]: January 1 of year 1. *)
Definition zero_time : Z := -62135596800 * second.
Definition is_zero (t : Z) : bool := t =? zero_time.

Definition before (t u : Z) : bool := t <? u.
Definition after (t u : Z) : bool := u <? t.

(** [Time.Sub] saturates at the extreme [Duration]s. *)
Definition max_duration : Z := 2 ^ 63 - 1.
Definition min_duration : Z := - 2 ^ 63.
Definition time_sub (t u : Z) : Z := Z.max min_duration (Z.min max_duration (t - u)).

(** [Time.Unix]. *)
Definition unix_seconds (t : Z) : Z := t / second.

Lemma time_sub_gt t u d : 0 <= d < max_duration -> (d <? time_sub t u) = (d <? t - u).
Proof. unfold time_sub, min_duration, max_duration. intros. destruct (Z.ltb_spec d (t - u)); lia. Qed.

Lemma time_sub_le_0 t u : (time_sub t u <=? 0) = (t <=? u).
Proof. unfold time_sub, min_duration, max_duration. destruct (Z.leb_spec t u); lia. Qed.

(** ** Calendar *)

Definition is_leap (y : Z) : bool :=
  (y mod 4 =? 0) && (negb (y mod 100 =? 0) || (y mod 400 =? 0)).

Definition days_in (m y : Z) : Z :=
  if m =? 2 then (if is_leap y then 29 else 28)
  else if (m =? 4) || (m =? 6) || (m =? 9) || (m =? 11) then 30 else 31.

(** Days before year [y] of a 400-year era whose years start in March. *)
Definition year_start (y : Z) : Z := y * 365 + y / 4 - y / 100.
(** Days before month [mp] (0 = March) of such a year. *)
Definition month_start (mp : Z) : Z := (153 * mp + 2) / 5.

(** Days from the Unix epoch to a civil date. *)
Definition days_of_civil (y m d : Z) : Z :=
  let y' := if m <=? 2 then y - 1 else y in
  let mp := if m <=? 2 then m + 9 else m - 3 in
  let yoe := y' mod 400 in
  (y' / 400) * 146097 + year_start yoe + month_start mp + (d - 1) - 719468.

(** The civil date (year, month, day) of a day number. *)
Definition civil_of_days (n : Z) : Z * Z * Z :=
  let z := n + 719468 in
  let era := z / 146097 in
  let doe := z mod 146097 in
  let y0 := doe / 366 in
  let y1 := if (y0 <? 399) && (year_start (y0 + 1) <=? doe) then y0 + 1 else y0 in
  let yoe := if (y1 <? 399) && (year_start (y1 + 1) <=? doe) then y1 + 1 else y1 in
  let doy := doe - year_start yoe in
  let mp := (5 * doy + 2) / 153 in
  let d := doy - month_start mp + 1 in
  let m := if mp <? 10 then mp + 3 else mp - 9 in
  let y := yoe + era * 400 in
  (if m <=? 2 then y + 1 else y, m, d).

Definition valid_civil (y m d : Z) : bool :=
  (1 <=? m) && (m <=? 12) && (1 <=? d) && (d <=? days_in m y).

Lemma year_start_mono a b : 0 <= a -> a < b -> year_start a + 365 <= year_start b.
Proof. unfold year_start. intros. Z.div_mod_to_equations; lia. Qed.

Lemma month_start_inv mp e :
  0 <= mp <= 11 -> 0 <= e < (if mp =? 11 then 29 else month_start (mp + 1) - month_start mp) ->
  (5 * (month_start mp + e) + 2) / 153 = mp.
Proof.
  unfold month_start. intros Hm He. destruct (Z.eqb_spec mp 11); [subst|];
  Z.div_mod_to_equations; lia.
Qed.

(** The year search finds the unique year whose span holds the day. *)
Lemma year_search yoe doy :
  0 <= yoe < 400 -> 0 <= doy -> (yoe < 399 -> year_start yoe + doy < year_start (yoe + 1)) ->
  doy <= 365 ->
  let doe := year_start yoe + doy in
  let y0 := doe / 366 in
  let y1 := if (y0 <? 399) && (year_start (y0 + 1) <=? doe) then y0 + 1 else y0 in
  (if (y1 <? 399) && (year_start (y1 + 1) <=? doe) then y1 + 1 else y1) = yoe.
Proof.
  intros Hy Hd Hub Hd' doe y0 y1.
  assert (Hy0 : yoe - 2 <= y0 <= yoe).
  { unfold y0, doe, year_start. Z.div_mod_to_equations; lia. }
  assert (Hstep : forall y, y <= yoe -> 0 <= y ->
    (if (y <? 399) && (year_start (y + 1) <=? doe) then y + 1 else y) =
    (if y <? yoe then y + 1 else y)).
  { intros y Hle H0. destruct (Z.ltb_spec y yoe) as [Hlt|Hge].
    - rewrite (proj2 (Z.ltb_lt y 399)) by lia. simpl.
      rewrite (proj2 (Z.leb_le _ _)); [done|]. unfold doe.
      destruct (Z.eq_dec (y + 1) yoe) as [->|]; [lia|].
      pose proof (year_start_mono (y + 1) yoe). lia.
    - assert (y = yoe) as -> by lia. destruct (Z.ltb_spec yoe 399); simpl; [|done].
      rewrite (proj2 (Z.leb_gt _ _)); [done|]. unfold doe. auto. }
  assert (H0 : 0 <= y0) by (unfold y0, doe, year_start; Z.div_mod_to_equations; lia).
  assert (H1 : y1 = if y0 <? yoe then y0 + 1 else y0) by (apply Hstep; lia).
  assert (Hy1 : 0 <= y1 <= yoe) by (rewrite H1; destruct (Z.ltb_spec y0 yoe); lia).
  rewrite Hstep by lia. rewrite H1.
  destruct (Z.ltb_spec y0 yoe); [destruct (Z.ltb_spec (y0 + 1) yoe); lia|].
  destruct (Z.ltb_spec y0 yoe); lia.
Qed.

(** A valid day of month lies within its (March-based) month and year. *)
Lemma valid_civil_bounds y m d :
  valid_civil y m d = true ->
  let y' := if m <=? 2 then y - 1 else y in
  let mp := if m <=? 2 then m + 9 else m - 3 in
  let doy := month_start mp + (d - 1) in
  0 <= mp <= 11 /\
  0 <= d - 1 < (if mp =? 11 then 29 else month_start (mp + 1) - month_start mp) /\
  (y' mod 400 < 399 -> year_start (y' mod 400) + doy < year_start (y' mod 400 + 1)) /\
  doy <= 365 /\ year_start (y' mod 400) + doy < 146097.
Proof.
  unfold valid_civil, days_in, is_leap. intros H. boolprop.
  assert (Hm : m = 1 \/ m = 2 \/ m = 3 \/ m = 4 \/ m = 5 \/ m = 6 \/ m = 7 \/ m = 8 \/ m = 9 \/
          m = 10 \/ m = 11 \/ m = 12) by lia.
  destruct Hm as [->|[->|[->|[->|[->|[->|[->|[->|[->|[->|[->| ->]]]]]]]]]]]; simpl in *;
    unfold month_start, year_start; simpl;
    try (split; [lia|]); try (split; [lia|]);
    repeat match goal with H : context [if ?b then _ else _] |- _ => destruct b eqn:? end; boolprop;
    try match goal with H : (_ || _)%bool = true |- _ => apply orb_true_iff in H as [H|H]; boolprop end;
    repeat split; intros; Z.div_mod_to_equations; lia.
Qed.

Lemma civil_of_days_of_civil y m d :
  valid_civil y m d = true -> civil_of_days (days_of_civil y m d) = (y, m, d).
Proof.
  intros H. pose proof (valid_civil_bounds y m d H) as (Hmp & Hd & Hy & Hdoy & Hdoe).
  unfold civil_of_days, days_of_civil.
  set (y' := if m <=? 2 then y - 1 else y) in *.
  set (mp := if m <=? 2 then m + 9 else m - 3) in *.
  set (doy := month_start mp + (d - 1)) in *.
  assert (0 <= month_start mp) by (unfold month_start; Z.div_mod_to_equations; lia).
  assert (Hyoe : 0 <= y' mod 400 < 400) by (apply Z.mod_pos_bound; lia).
  assert (0 <= year_start (y' mod 400)) by (unfold year_start; Z.div_mod_to_equations; lia).
  replace (y' / 400 * 146097 + year_start (y' mod 400) + month_start mp + (d - 1) - 719468 + 719468)
    with ((year_start (y' mod 400) + doy) + y' / 400 * 146097) by (unfold doy; lia).
  rewrite Z.div_add, Z.mod_add by lia. 
  rewrite (Z.div_small (year_start _ + doy)), (Z.mod_small (year_start _ + doy)) by (unfold doy; lia).
  rewrite year_search by (try done; unfold doy; lia).
  replace (year_start (y' mod 400) + doy - year_start (y' mod 400)) with doy by lia.
  unfold doy. rewrite month_start_inv by done.
  replace (month_start mp + (d - 1) - month_start mp + 1) with d by lia.
  replace (y' mod 400 + (0 + y' / 400) * 400) with y' by (pose proof (Z.div_mod y' 400); lia).
  unfold valid_civil in H. boolprop. unfold y', mp in *.
  destruct (Z.leb_spec m 2).
  - rewrite (proj2 (Z.ltb_ge (m + 9) 10)) by lia.
    rewrite (proj2 (Z.leb_le (m + 9 - 9) 2)) by lia. do 2 f_equal; lia.
  - rewrite (proj2 (Z.ltb_lt (m - 3) 10)) by lia.
    rewrite (proj2 (Z.leb_gt (m - 3 + 3) 2)) by lia. do 2 f_equal; lia.
Qed.

(** ** Parsing *)

(** [getnum(s, fixed)]: one or two decimal digits, two when [fixed]. *)
Definition getnum (fixed : bool) (s : bytes) : option (Z * bytes) :=
  match s with
  | a :: b :: r =>
      if is_digit a then
        if is_digit b then Some ((b2z a - 48) * 10 + (b2z b - 48), r)
        else if fixed then None else Some (b2z a - 48, b :: r)
      else None
  | [a] => if is_digit a then if fixed then None else Some (b2z a - 48, []) else None
  | [] => None
  end.

(** A literal byte of the layout. *)
Definition expect (c : byte) (s : bytes) : option bytes :=
  match s with
  | d :: r => if bool_decide (c = d) then Some r else None
  | [] => None
  end.

(** The value of a sequence of decimal digits ([leadingInt]). *)
Definition dec_value (s : bytes) : Z := fold_left (fun acc c => acc * 10 + (b2z c - 48)) s 0.

Definition digits_value (s : bytes) : option Z :=
  if forallb is_digit s then Some (dec_value s) else None.

(** [atoi]: an optional sign and decimal digits. *)
Definition atoi (s : bytes) : option Z :=
  match s with
  | x2d :: r => Z.opp <$> digits_value r
  | x2b :: r => digits_value r
  | _ => digits_value s
  end.

Definition in_range (lo hi : Z) (n : Z * bytes) : option (Z * bytes) :=
  if (lo <=? n.1) && (n.1 <=? hi) then Some n else None.

(** The layout element "2006". *)
Definition parse_year (s : bytes) : option (Z * bytes) :=
  match s with
  | a :: b :: c :: d :: r =>
      if is_digit a then match atoi [a; b; c; d] with Some y => Some (y, r) | None => None end
      else None
  | _ => None
  end.

(** The layout elements "2006-01-02". *)
Definition parse_date (s : bytes) : option (Z * Z * Z * bytes) :=
  '(y, s) ← parse_year s;
  s ← expect x2d s;
  '(m, s) ← getnum true s ≫= in_range 1 12;
  s ← expect x2d s;
  '(d, s) ← getnum true s;
  Some (y, m, d, s).

(** The layout elements "T15:04:05". *)
Definition parse_clock (s : bytes) : option (Z * Z * Z * bytes) :=
  s ← expect x54 s;
  '(h, s) ← getnum false s ≫= in_range 0 23;
  s ← expect x3a s;
  '(mi, s) ← getnum true s ≫= in_range 0 59;
  s ← expect x3a s;
  '(se, s) ← getnum true s ≫= in_range 0 59;
  Some (h, mi, se, s).

(** [parseNanoseconds(value, nbytes)] for [1 < nbytes <= length value]. *)
Definition parse_nanoseconds (value : bytes) (nbytes : nat) : option Z :=
  match value with
  | c :: _ =>
      if bool_decide (c = x2e) || bool_decide (c = x2c) then
        let n := Nat.min nbytes 10 in
        ns ← atoi (take (n - 1) (drop 1 value));
        if ns <? 0 then None else Some (ns * 10 ^ Z.of_nat (10 - n))
      else None
  | [] => None
  end.

(** The instant of validated calendar and clock fields, in UTC. *)
Definition instant (y m d h mi se ns : Z) : Z :=
  days_of_civil y m d * day + h * hour + mi * minute + se * second + ns.

(** [time.Parse(time.DateOnly, s)]. *)
Definition parse_date_only (s : bytes) : option Z :=
  '(y, m, d, s) ← parse_date s;
  if negb (beq s []) then None
  else if (1 <=? d) && (d <=? days_in m y) then Some (instant y m d 0 0 0 0) else None.

(** [time.Parse("2006-01-02T15:04:05.000Z", s)]. *)
Definition parse_wire (s : bytes) : option Z :=
  '(y, m, d, s) ← parse_date s;
  '(h, mi, se, s) ← parse_clock s;
  if (length s <? 4)%nat then None else
  ns ← parse_nanoseconds s 4;
  s ← expect x5a (drop 4 s);
  if negb (beq s []) then None
  else if (1 <=? d) && (d <=? days_in m y) then Some (instant y m d h mi se ns) else None.

(** The optional fraction of the layout element ".999999999". *)
Definition parse_fraction (s : bytes) : option (Z * bytes) :=
  match s with
  | c :: e :: r =>
      if (bool_decide (c = x2e) || bool_decide (c = x2c)) && is_digit e then
        let fix count (l : bytes) : nat :=
          match l with b :: l => if is_digit b then S (count l) else O | [] => O end in
        let i := count (e :: r) in
        match parse_nanoseconds s (S i) with Some ns => Some (ns, drop (S i) s) | None => None end
      else Some (0, s)
  | _ => Some (0, s)
  end.

(** The layout element "Z07:00": seconds east of UTC. *)
Definition parse_zone (s : bytes) : option (Z * bytes) :=
  match s with
  | x5a :: r => Some (0, r)
  | sign :: h1 :: h2 :: colon :: m1 :: m2 :: r =>
      if negb (bool_decide (colon = x3a)) then None else
      '(hr, _) ← getnum true [h1; h2] ≫= in_range 0 24;
      '(mm, _) ← getnum true [m1; m2] ≫= in_range 0 60;
      let off := (hr * 60 + mm) * 60 in
      if bool_decide (sign = x2b) then Some (off, r)
      else if bool_decide (sign = x2d) then Some (- off, r)
      else None
  | _ => None
  end.

(** [time.Parse(time.RFC3339Nano, s)]. *)
Definition parse_rfc3339nano (s : bytes) : option Z :=
  '(y, m, d, s) ← parse_date s;
  '(h, mi, se, s) ← parse_clock s;
  '(ns, s) ← parse_fraction s;
  '(off, s) ← parse_zone s;
  if negb (beq s []) then None
  else if (1 <=? d) && (d <=? days_in m y)
  then Some (instant y m d h mi se ns - off * second) else None.

(** ** Formatting *)

(** A non-negative integer padded with zeros to [width]. *)
Fixpoint pad_digits (width : nat) (z : Z) : bytes :=
  match width with
  | O => []
  | S w => pad_digits w (z / 10) ++ [z2b (48 + z mod 10)]
  end.

Definition pad (width : nat) (z : Z) : bytes :=
  if z <? 10 ^ Z.of_nat width then pad_digits width z else format_uint z.

Definition format_year (y : Z) : bytes :=
  if y <? 0 then x2d :: pad 4 (- y) else pad 4 y.

Definition format_date (t : Z) : bytes :=
  let '(y, m, d) := civil_of_days (t / day) in
  format_year y ++ [x2d] ++ pad 2 m ++ [x2d] ++ pad 2 d.

(** [t.UTC().Format(time.DateOnly)]. *)
Definition format_date_only (t : Z) : bytes := format_date t.

(** [t.UTC().Format("2006-01-02T15:04:05.000Z")]. *)
Definition format_wire (t : Z) : bytes :=
  let r := t mod day in
  format_date t ++ [x54] ++ pad 2 (r / hour) ++ [x3a] ++ pad 2 (r / minute mod 60) ++ [x3a] ++
  pad 2 (r / second mod 60) ++ [x2e] ++ pad 3 (r mod second / 1000000) ++ [x5a].

Example parse_wire_ex :
  parse_wire (str "2024-02-29T23:59:59.123Z") = Some (1709251199 * second + 123000000).
Proof. reflexivity. Qed.

Example parse_rfc_ex :
  parse_rfc3339nano (str "2024-02-29T23:59:59.5+01:00") = Some (1709247599 * second + 500000000).
Proof. reflexivity. Qed.

Example format_wire_ex :
  format_wire (1709251199 * second + 123000000) = str "2024-02-29T23:59:59.123Z".
Proof. vm_compute. reflexivity. Qed.

(** ** Parsing a formatted instant *)

Lemma b2z_digit n : 0 <= n < 10 -> b2z (z2b (48 + n)) = 48 + n.
Proof. intros. rewrite b2z_z2b. apply Z.mod_small. lia. Qed.

Lemma is_digit_digit n : 0 <= n < 10 -> is_digit (z2b (48 + n)) = true.
Proof. intros. unfold is_digit. rewrite b2z_digit by done. lia. Qed.

Lemma pad_2 z : 0 <= z < 100 -> pad 2 z = [z2b (48 + z / 10); z2b (48 + z mod 10)].
Proof.
  intros. unfold pad. rewrite (proj2 (Z.ltb_lt _ _)) by (simpl; lia). simpl.
  rewrite (Z.mod_small (z / 10)) by (Z.div_mod_to_equations; lia). done.
Qed.

Lemma pad_3 z : 0 <= z < 1000 ->
  pad 3 z = [z2b (48 + z / 100); z2b (48 + z / 10 mod 10); z2b (48 + z mod 10)].
Proof.
  intros. unfold pad. rewrite (proj2 (Z.ltb_lt _ _)) by (simpl; lia). simpl.
  rewrite Z.div_div, (Z.mod_small (z / _)) by (Z.div_mod_to_equations; lia). done.
Qed.

Lemma pad_4 z : 0 <= z < 10000 ->
  pad 4 z = [z2b (48 + z / 1000); z2b (48 + z / 100 mod 10);
             z2b (48 + z / 10 mod 10); z2b (48 + z mod 10)].
Proof.
  intros. unfold pad. rewrite (proj2 (Z.ltb_lt _ _)) by (simpl; lia). simpl.
  rewrite !Z.div_div by lia.
  change (10 * (10 * 10)) with 1000. change (10 * 10) with 100.
  rewrite (Z.mod_small (z / 1000)) by (Z.div_mod_to_equations; lia). done.
Qed.

Lemma getnum_pad fixed z r : 0 <= z < 100 -> getnum fixed (pad 2 z ++ r) = Some (z, r).
Proof.
  intros. rewrite pad_2 by done. simpl.
  rewrite !is_digit_digit, !b2z_digit by (Z.div_mod_to_equations; lia).
  do 2 f_equal. Z.div_mod_to_equations; lia.
Qed.

Lemma atoi_digits s : forallb is_digit s = true -> atoi s = Some (dec_value s).
Proof.
  intros H. unfold atoi, digits_value. destruct s as [|c s]; [done|].
  destruct c; try (by rewrite H); simpl in H; discriminate.
Qed.

Lemma parse_year_pad z r : 0 <= z < 10000 -> parse_year (pad 4 z ++ r) = Some (z, r).
Proof.
  intros. rewrite pad_4 by done.
  cbn [app parse_year].
  rewrite is_digit_digit by (Z.div_mod_to_equations; lia).
  rewrite atoi_digits by (cbn [forallb]; rewrite !is_digit_digit by (Z.div_mod_to_equations; lia); done).
  unfold dec_value. cbn [fold_left]. rewrite !b2z_digit by (Z.div_mod_to_equations; lia).
  do 2 f_equal. Z.div_mod_to_equations; lia.
Qed.

Lemma in_range_ok lo hi z r : lo <= z <= hi -> in_range lo hi (z, r) = Some (z, r).
Proof. intros. unfold in_range. simpl. by rewrite !(proj2 (Z.leb_le _ _)) by lia. Qed.

Lemma expect_app c r : expect c ([c] ++ r) = Some r.
Proof. simpl. by rewrite bool_decide_true. Qed.

Lemma days_in_le_31 m y : days_in m y <= 31.
Proof. unfold days_in. repeat case_goal; lia. Qed.

Lemma parse_date_format y m d r :
  0 <= y < 10000 -> valid_civil y m d = true ->
  parse_date ((pad 4 y ++ [x2d] ++ pad 2 m ++ [x2d] ++ pad 2 d) ++ r) = Some (y, m, d, r).
Proof.
  intros Hy Hv. unfold valid_civil in Hv. boolprop. pose proof (days_in_le_31 m y).
  unfold parse_date. rewrite <- !app_assoc.
  rewrite parse_year_pad by done. cbn -[pad expect app getnum].
  rewrite expect_app. cbn -[pad expect app getnum]. rewrite getnum_pad by lia.
  cbn -[pad expect app getnum]. rewrite in_range_ok by lia. cbn -[pad expect app getnum].
  rewrite expect_app. cbn -[pad expect app getnum]. rewrite getnum_pad by lia. done.
Qed.

Lemma instant_split y m d h mi se ns :
  0 <= h < 24 -> 0 <= mi < 60 -> 0 <= se < 60 -> 0 <= ns < second ->
  instant y m d h mi se ns / day = days_of_civil y m d /\
  instant y m d h mi se ns mod day = h * hour + mi * minute + se * second + ns.
Proof.
  unfold instant, day, hour, minute, second. intros.
  set (D := days_of_civil y m d).
  split; [symmetry; apply Z.div_unique with (h * (60 * (60 * 1000000000)) + mi * (60 * 1000000000) + se * 1000000000 + ns)
         |symmetry; apply Z.mod_unique with D]; lia.
Qed.

Lemma format_date_instant y m d h mi se ns :
  0 <= y -> valid_civil y m d = true ->
  0 <= h < 24 -> 0 <= mi < 60 -> 0 <= se < 60 -> 0 <= ns < second ->
  format_date (instant y m d h mi se ns) =
  pad 4 y ++ [x2d] ++ pad 2 m ++ [x2d] ++ pad 2 d.
Proof.
  intros Hy Hv Hh Hmi Hse Hns. unfold format_date.
  destruct (instant_split y m d h mi se ns) as [-> _]; [done..|].
  rewrite civil_of_days_of_civil by done. unfold format_year.
  by rewrite (proj2 (Z.ltb_ge y 0)) by lia.
Qed.

Lemma parse_format_date_only y m d :
  0 <= y < 10000 -> valid_civil y m d = true ->
  parse_date_only (format_date_only (instant y m d 0 0 0 0)) = Some (instant y m d 0 0 0 0).
Proof.
  intros Hy Hv. unfold parse_date_only, format_date_only, second.
  rewrite format_date_instant by (unfold second; try done; lia).
  rewrite <- (app_nil_r (pad 4 y ++ _)), parse_date_format by done.
  unfold valid_civil in Hv. boolprop. simpl.
  by rewrite !(proj2 (Z.leb_le _ _)) by lia.
Qed.

Lemma length_pad_2 z : 0 <= z < 100 -> length (pad 2 z) = 2%nat.
Proof. intros. by rewrite pad_2. Qed.

Lemma length_format_date y m d :
  0 <= y < 10000 -> valid_civil y m d = true ->
  length (pad 4 y ++ [x2d] ++ pad 2 m ++ [x2d] ++ pad 2 d) = 10%nat.
Proof.
  intros Hy Hv. unfold valid_civil in Hv. boolprop. pose proof (days_in_le_31 m y).
  rewrite pad_4 by done. rewrite !pad_2 by lia. done.
Qed.

Lemma clock_fields h mi se ns :
  0 <= h < 24 -> 0 <= mi < 60 -> 0 <= se < 60 -> 0 <= ns < second ->
  let r := h * hour + mi * minute + se * second + ns in
  r / hour = h /\ r / minute mod 60 = mi /\ r / second mod 60 = se /\ r mod second = ns.
Proof.
  unfold hour, minute, second. intros Hh Hmi Hse Hns. cbv zeta.
  repeat split; Z.div_mod_to_equations; lia.
Qed.

Lemma parse_clock_format h mi se r :
  0 <= h < 24 -> 0 <= mi < 60 -> 0 <= se < 60 ->
  parse_clock ([x54] ++ pad 2 h ++ [x3a] ++ pad 2 mi ++ [x3a] ++ pad 2 se ++ r) = Some (h, mi, se, r).
Proof.
  intros. unfold parse_clock.
  rewrite expect_app. cbn -[pad expect app getnum]. rewrite getnum_pad by lia.
  cbn -[pad expect app getnum]. rewrite in_range_ok by lia. cbn -[pad expect app getnum].
  rewrite expect_app. cbn -[pad expect app getnum]. rewrite getnum_pad by lia.
  cbn -[pad expect app getnum]. rewrite in_range_ok by lia. cbn -[pad expect app getnum].
  rewrite expect_app. cbn -[pad expect app getnum]. rewrite getnum_pad by lia.
  cbn -[pad expect app getnum]. rewrite in_range_ok by lia. done.
Qed.

Lemma parse_nanoseconds_ms ms r :
  0 <= ms < 1000 -> parse_nanoseconds ([x2e] ++ pad 3 ms ++ r) 4 = Some (ms * 1000000).
Proof.
  intros. rewrite pad_3 by done. unfold parse_nanoseconds. cbn [app].
  rewrite bool_decide_true by done. cbn [orb].
  replace (take (Nat.min 4 10 - 1) (drop 1 _)) with
    [z2b (48 + ms / 100); z2b (48 + ms / 10 mod 10); z2b (48 + ms mod 10)] by done.
  rewrite atoi_digits by (cbn [forallb]; rewrite !is_digit_digit by (Z.div_mod_to_equations; lia); done).
  unfold dec_value. cbn [fold_left mbind option_bind].
  rewrite !b2z_digit by (Z.div_mod_to_equations; lia).
  rewrite (proj2 (Z.ltb_ge _ 0)) by (Z.div_mod_to_equations; lia).
  f_equal. change (10 ^ Z.of_nat (10 - Nat.min 4 10)) with 1000000.
  Z.div_mod_to_equations; lia.
Qed.

(** Every millisecond-aligned instant of the years 0 to 9999 is parsed back from its
    wire spelling, which has 24 bytes. *)
Lemma parse_format_wire y m d h mi se ms :
  0 <= y < 10000 -> valid_civil y m d = true ->
  0 <= h < 24 -> 0 <= mi < 60 -> 0 <= se < 60 -> 0 <= ms < 1000 ->
  let t := instant y m d h mi se (ms * 1000000) in
  parse_wire (format_wire t) = Some t /\ length (format_wire t) = 24%nat.
Proof.
  intros Hy Hv Hh Hmi Hse Hms t.
  assert (Hns : 0 <= ms * 1000000 < second) by (unfold second; lia).
  assert (Hf : format_wire t =
    (pad 4 y ++ [x2d] ++ pad 2 m ++ [x2d] ++ pad 2 d) ++
    ([x54] ++ pad 2 h ++ [x3a] ++ pad 2 mi ++ [x3a] ++ pad 2 se ++
     ([x2e] ++ pad 3 ms ++ [x5a]))).
  { unfold format_wire, t. rewrite format_date_instant by (try done; lia).
    destruct (instant_split y m d h mi se (ms * 1000000)) as [_ ->]; [done..|].
    destruct (clock_fields h mi se (ms * 1000000)) as (-> & -> & -> & ->); [done..|].
    by rewrite Z.div_mul. }
  rewrite Hf. split.
  - unfold parse_wire. rewrite parse_date_format by done. cbn [mbind option_bind].
    rewrite parse_clock_format by done. cbn [mbind option_bind].
    rewrite parse_nanoseconds_ms by done. rewrite pad_3 by done.
    cbn -[instant days_in Z.leb]. unfold valid_civil in Hv. boolprop.
    by rewrite !(proj2 (Z.leb_le _ _)) by lia.
  - rewrite length_app, length_format_date by done.
    rewrite pad_3 by done. rewrite !pad_2 by lia. done.
Qed.

Lemma dec_value_nonneg s z : forallb is_digit s = true -> 0 <= z ->
  0 <= fold_left (fun acc c => acc * 10 + (b2z c - 48)) s z
    < (z + 1) * 10 ^ Z.of_nat (length s).
Proof.
  revert z. induction s as [|c s IH]; intros z Hs Hz; simpl fold_left; [simpl; lia|].
  simpl in Hs. boolprop. unfold is_digit in *. boolprop.
  destruct (IH (z * 10 + (b2z c - 48))) as [Hlo Hhi]; [done|lia|]. split; [done|].
  eapply Z.lt_le_trans; [exact Hhi|]. simpl length. rewrite Nat2Z.inj_succ, Z.pow_succ_r by lia.
  rewrite Z.mul_assoc. apply Z.mul_le_mono_nonneg_r; [apply Z.pow_nonneg; lia|lia].
Qed.

Lemma parse_year_range s y r : parse_year s = Some (y, r) -> 0 <= y < 10000.
Proof.
  unfold parse_year. intros H. destruct s as [|a [|b [|c [|d s]]]]; try done.
  destruct (is_digit a) eqn:Ea; [|done].
  assert (Ha : atoi [a; b; c; d] = digits_value [a; b; c; d])
    by (destruct a; try reflexivity; vm_compute in Ea; discriminate).
  rewrite Ha in H. unfold digits_value in H.
  destruct (forallb is_digit [a; b; c; d]) eqn:E; [|done]. simplify_eq.
  pose proof (dec_value_nonneg _ 0 E). unfold dec_value. simpl length in *. lia.
Qed.

Lemma parse_date_range s y m d r :
  parse_date s = Some (y, m, d, r) -> 0 <= y < 10000 /\ 1 <= m <= 12.
Proof.
  unfold parse_date. intros H.
  destruct (parse_year s) as [[y' r1]|] eqn:E1; [|done]. cbn in H.
  destruct (expect x2d r1) as [r2|]; [|done]. cbn in H.
  destruct (getnum true r2) as [[m' r3]|]; [|done]. cbn in H.
  unfold in_range in H. cbn in H. destruct ((1 <=? m') && (m' <=? 12)) eqn:E2; [|done]. cbn in H.
  destruct (expect x2d r3) as [r4|]; [|done]. cbn in H.
  destruct (getnum true r4) as [[d' r5]|]; [|done]. cbn in H. simplify_eq.
  apply parse_year_range in E1. boolprop. lia.
Qed.

(** A parsed date-only string denotes a valid civil date of the years 0 to 9999. *)
Lemma parse_date_only_valid s t :
  parse_date_only s = Some t ->
  exists y m d, 0 <= y < 10000 /\ valid_civil y m d = true /\ t = instant y m d 0 0 0 0.
Proof.
  unfold parse_date_only. intros H.
  destruct (parse_date s) as [[[[y m] d] r]|] eqn:E; [|done]. cbn in H. cases_in H.
  apply parse_date_range in E as [? ?]. boolprop. exists y, m, d. split; [done|].
  split; [|done]. unfold valid_civil. by rewrite !(proj2 (Z.leb_le _ _)) by lia.
Qed.

(** ** [Time.MarshalBinary]

    A [time.Time] with its location: [None] is UTC, [Some o] a zone [o] seconds east. *)
Record GoTime := { gtInstant : Z; gtOffset : option Z }.

#[export] Instance go_time_eq_dec : EqDecision GoTime.
Proof. solve_decision. Defined.

(** Seconds since January 1 of year 1, and the nanosecond within the second. *)
Definition internal_sec (t : Z) : Z := t / second + 62135596800.
Definition nsec (t : Z) : Z := t mod second.

Definition MarshalBinary (t : GoTime) : option bytes :=
  let fixed version offsetMin :=
    [version] ++ be 8 (internal_sec (gtInstant t)) ++ be 4 (nsec (gtInstant t)) ++ be 2 offsetMin in
  match gtOffset t with
  | None => Some (fixed x01 (-1))
  | Some offset =>
      let offsetMin := Z.quot offset 60 in
      if (offsetMin <? -32768) || (offsetMin =? -1) || (32767 <? offsetMin) then None
      else if Z.rem offset 60 =? 0 then Some (fixed x01 offsetMin)
      else Some (fixed x02 offsetMin ++ [z2b (Z.rem offset 60)])
  end.

(** A UTC instant within the range of [time.Time]. *)
Definition utc_typed (t : GoTime) : Prop :=
  gtOffset t = None /\ - 2 ^ 63 <= internal_sec (gtInstant t) < 2 ^ 63.

Lemma be_inj_signed n a b :
  - 2 ^ (8 * Z.of_nat n - 1) <= a < 2 ^ (8 * Z.of_nat n - 1) ->
  - 2 ^ (8 * Z.of_nat n - 1) <= b < 2 ^ (8 * Z.of_nat n - 1) ->
  (0 < n)%nat -> be n a = be n b -> a = b.
Proof.
  intros Ha Hb Hn H. apply (f_equal be_decode) in H. rewrite !be_decode_be in H.
  assert (Hp : 256 ^ Z.of_nat n = 2 * 2 ^ (8 * Z.of_nat n - 1)).
  { rewrite <- Z.pow_succ_r by lia. change 256 with (2 ^ 8). rewrite <- Z.pow_mul_r by lia.
    f_equal. lia. }
  rewrite Hp in H. set (P := 2 ^ (8 * Z.of_nat n - 1)) in *.
  assert (HP : 0 < P) by (unfold P; apply Z.pow_pos_nonneg; lia).
  pose proof (Z.div_mod a (2 * P)) as Da. pose proof (Z.div_mod b (2 * P)) as Db.
  rewrite H in Da. set (q := a / (2 * P)) in *. set (q' := b / (2 * P)) in *.
  assert (Hq : q = q') by nia. rewrite <- Hq in Db. lia.
Qed.

Lemma MarshalBinary_inj t u :
  utc_typed t -> utc_typed u -> MarshalBinary t = MarshalBinary u -> t = u.
Proof.
  destruct t as [t ot], u as [u ou]. unfold utc_typed, MarshalBinary. simpl gtOffset. simpl gtInstant.
  intros [-> Ht] [-> Hu] H. apply (inj Some) in H. apply app_inv_head in H.
  apply app_inj_length in H as [Hs H]; [|by rewrite !length_be].
  apply app_inj_length in H as [Hn _]; [|by rewrite !length_be].
  apply (be_inj_signed 8) in Hs; [|exact Ht|exact Hu|lia].
  assert (Hr : forall x, 0 <= nsec x < 256 ^ Z.of_nat 4).
  { intros x. unfold nsec, second. pose proof (Z.mod_pos_bound x 1000000000 eq_refl) as Hb. destruct Hb. split; [done|].
    eapply Z.lt_trans; [eassumption|reflexivity]. }
  apply be_inj in Hn; [|apply Hr..]. unfold internal_sec, nsec, second in *.
  f_equal. pose proof (Z.div_mod t 1000000000). pose proof (Z.div_mod u 1000000000). lia.
Qed.
