(* ===== verification/GoCrypto.v ===== *)
(** * Go packages [crypto/sha256], [crypto/hmac], [crypto/ed25519], [crypto/cipher]

    SHA-256 and HMAC-SHA-256 are executable and checked against published test
    vectors. Ed25519 and AES-256-GCM are interfaces: the operations the sources
    call, with the documented laws their callers rely on. *)

From S2P Require Import Prelude GoBytes.
Local Open Scope Z_scope.

(** ** SHA-256 (FIPS 180-4) *)

(** Modulo 2^32. *)
Definition w32 (z : Z) : Z := Z.land z 4294967295.
Definition add32 (a b : Z) : Z := w32 (a + b).
Definition rotr (n x : Z) : Z := Z.lor (Z.shiftr x n) (w32 (Z.shiftl x (32 - n))).

Definition sha_k : list Z := Eval vm_compute in
  map (fun s => be_decode (match hex_decode (str s) with Some l => l | None => [] end))
  ["428a2f98"; "71374491"; "b5c0fbcf"; "e9b5dba5"; "3956c25b"; "59f111f1"; "923f82a4"; "ab1c5ed5";
   "d807aa98"; "12835b01"; "243185be"; "550c7dc3"; "72be5d74"; "80deb1fe"; "9bdc06a7"; "c19bf174";
   "e49b69c1"; "efbe4786"; "0fc19dc6"; "240ca1cc"; "2de92c6f"; "4a7484aa"; "5cb0a9dc"; "76f988da";
   "983e5152"; "a831c66d"; "b00327c8"; "bf597fc7"; "c6e00bf3"; "d5a79147"; "06ca6351"; "14292967";
   "27b70a85"; "2e1b2138"; "4d2c6dfc"; "53380d13"; "650a7354"; "766a0abb"; "81c2c92e"; "92722c85";
   "a2bfe8a1"; "a81a664b"; "c24b8b70"; "c76c51a3"; "d192e819"; "d6990624"; "f40e3585"; "106aa070";
   "19a4c116"; "1e376c08"; "2748774c"; "34b0bcb5"; "391c0cb3"; "4ed8aa4a"; "5b9cca4f"; "682e6ff3";
   "748f82ee"; "78a5636f"; "84c87814"; "8cc70208"; "90befffa"; "a4506ceb"; "bef9a3f7"; "c67178f2"]%string.

(** The eight working variables. *)
Record sha_state := ShaState { sa : Z; sb : Z; sc : Z; sd : Z; se : Z; sf : Z; sg : Z; sh : Z }.

Definition sha_init : sha_state :=
  ShaState 1779033703 3144134277 1013904242 2773480762 1359893119 2600822924 528734635 1541459225.

Definition big_sigma0 x := Z.lxor (Z.lxor (rotr 2 x) (rotr 13 x)) (rotr 22 x).
Definition big_sigma1 x := Z.lxor (Z.lxor (rotr 6 x) (rotr 11 x)) (rotr 25 x).
Definition small_sigma0 x := Z.lxor (Z.lxor (rotr 7 x) (rotr 18 x)) (Z.shiftr x 3).
Definition small_sigma1 x := Z.lxor (Z.lxor (rotr 17 x) (rotr 19 x)) (Z.shiftr x 10).

Definition sha_ch e f g := Z.lxor (Z.land e f) (Z.land (4294967295 - e) g).
Definition sha_maj a b c := Z.lxor (Z.lxor (Z.land a b) (Z.land a c)) (Z.land b c).

Definition sha_round (s : sha_state) (kw : Z * Z) : sha_state :=
  let t1 := w32 (sh s + big_sigma1 (se s) + sha_ch (se s) (sf s) (sg s) + kw.1 + kw.2) in
  let t2 := w32 (big_sigma0 (sa s) + sha_maj (sa s) (sb s) (sc s)) in
  ShaState (add32 t1 t2) (sa s) (sb s) (sc s) (add32 (sd s) t1) (se s) (sf s) (sg s).

(** The message schedule, extended [n] words at a time from the last 16 (reversed). *)
Fixpoint sha_extend (n : nat) (rev_w : list Z) : list Z :=
  match n with
  | O => rev_w
  | S n =>
      let w := w32 (small_sigma1 (nth 1 rev_w 0) + nth 6 rev_w 0 +
                    small_sigma0 (nth 14 rev_w 0) + nth 15 rev_w 0) in
      sha_extend n (w :: rev_w)
  end.

Fixpoint words (n : nat) (l : bytes) : list Z :=
  match n with O => [] | S n => be_decode (take 4 l) :: words n (drop 4 l) end.

Definition sha_block (s : sha_state) (block : bytes) : sha_state :=
  let w := rev (sha_extend 48 (rev (words 16 block))) in
  let r := fold_left sha_round (combine sha_k w) s in
  ShaState (add32 (sa s) (sa r)) (add32 (sb s) (sb r)) (add32 (sc s) (sc r)) (add32 (sd s) (sd r))
           (add32 (se s) (se r)) (add32 (sf s) (sf r)) (add32 (sg s) (sg r)) (add32 (sh s) (sh r)).

Fixpoint sha_blocks (n : nat) (s : sha_state) (l : bytes) : sha_state :=
  match n with O => s | S n => sha_blocks n (sha_block s (take 64 l)) (drop 64 l) end.

Definition sha_pad (l : bytes) : bytes :=
  let n := length l in
  let zeros := ((119 - n mod 64) mod 64)%nat in
  l ++ [x80] ++ repeat x00 zeros ++ be 8 (Z.of_nat n * 8).

(** [sha256.Sum256]. *)
Definition sha256 (l : bytes) : bytes :=
  let p := sha_pad l in
  let s := sha_blocks (length p / 64) sha_init p in
  be 4 (sa s) ++ be 4 (sb s) ++ be 4 (sc s) ++ be 4 (sd s) ++
  be 4 (se s) ++ be 4 (sf s) ++ be 4 (sg s) ++ be 4 (sh s).

(** ** HMAC-SHA-256 (RFC 2104) *)

Definition xor_bytes (k : Z) (l : bytes) : bytes := map (fun b => z2b (Z.lxor (b2z b) k)) l.

(** [hmac.New(sha256.New, key)], [Write(message)], [Sum(nil)]. *)
Definition hmac_sha256 (key message : bytes) : bytes :=
  let k0 := if (64 <? length key)%nat then sha256 key else key in
  let k := k0 ++ repeat x00 (64 - length k0) in
  sha256 (xor_bytes 92 k ++ sha256 (xor_bytes 54 k ++ message)).

Lemma length_sha256 l : length (sha256 l) = 32%nat.
Proof. unfold sha256. rewrite !length_app, !length_be. done. Qed.

Lemma length_hmac key m : length (hmac_sha256 key m) = 32%nat.
Proof. apply length_sha256. Qed.

#[export] Hint Rewrite length_sha256 length_hmac : go.

Example sha256_abc :
  hex_encode (sha256 (str "abc")) =
  str "ba7816bf8f01cfea414140de5dae2223b00361a396177a9cb410ff61f20015ad".
Proof. vm_compute. reflexivity. Qed.

Example hmac_rfc4231_2 :
  hex_encode (hmac_sha256 (str "Jefe") (str "what do ya want for nothing?")) =
  str "5bdcc146bf60754e6a042426089575c75a003f089d2739839dec58b964ec3843".
Proof. vm_compute. reflexivity. Qed.

(** ** Ed25519 *)

(** [ed25519.Verify], [ed25519.NewKeyFromSeed] and [ed25519.Sign] (RFC 8032). *)
Class Ed25519 := {
  ed25519_public : bytes -> bytes;
  ed25519_sign : bytes -> bytes -> bytes;
  ed25519_verify : bytes -> bytes -> bytes -> bool;
}.

(** Documented behaviour: a signature made from a 32-byte seed has 64 bytes and verifies
    under the seed's public key, which has 32 bytes. *)
Class Ed25519Laws `{Ed25519} : Prop := {
  ed25519_public_length seed : length seed = 32%nat -> length (ed25519_public seed) = 32%nat;
  ed25519_sign_length seed m : length seed = 32%nat -> length (ed25519_sign seed m) = 64%nat;
  ed25519_sign_verify seed m :
    length seed = 32%nat -> ed25519_verify (ed25519_public seed) m (ed25519_sign seed m) = true;
}.

(** ** AES-256-GCM *)

(** [cipher.AEAD] as built by [cipher.NewGCM]: key, nonce, text, additional data. *)
Class AesGcm := {
  gcm_seal : bytes -> bytes -> bytes -> bytes -> bytes;
  gcm_open : bytes -> bytes -> bytes -> bytes -> option bytes;
}.

(** Documented behaviour: the ciphertext carries a 16-byte tag, opening what was sealed
    under the same key, nonce and data gives the plaintext, and only such a ciphertext
    opens to a given plaintext. *)
Class AesGcmLaws `{AesGcm} : Prop := {
  gcm_seal_length k n p a : length (gcm_seal k n p a) = (length p + 16)%nat;
  gcm_open_seal k n p a : gcm_open k n (gcm_seal k n p a) a = Some p;
  gcm_open_sound k n c a p : gcm_open k n c a = Some p -> c = gcm_seal k n p a;
}.

#[global] Opaque sha256 hmac_sha256.

(** ** Concrete instances of the two interfaces

    Neither is secure; they show that the laws are satisfiable, and let statements
    about sealing and signing be evaluated. *)
Module Sample.

Definition tag (k n p a : bytes) : bytes :=
  take 16 (hmac_sha256 k (len_field n ++ len_field a ++ p)).

#[export] Instance gcm : AesGcm := {|
  gcm_seal k n p a := p ++ tag k n p a;
  gcm_open k n c a :=
    let p := take (length c - 16) c in
    if bool_decide (16 <= length c)%nat && beq (drop (length c - 16) c) (tag k n p a)
    then Some p else None;
|}.

Lemma length_tag k n p a : length (tag k n p a) = 16%nat.
Proof. unfold tag. by rewrite length_take, length_hmac. Qed.

#[export] Instance gcm_laws : AesGcmLaws.
Proof.
  constructor; simpl.
  - intros. rewrite length_app, length_tag. done.
  - intros k n p a. rewrite length_app, length_tag.
    replace (length p + 16 - 16)%nat with (length p) by lia.
    rewrite take_app_length, drop_app_length, beq_refl. by rewrite bool_decide_true by lia.
  - intros k n c a p H. cases_in H. boolprop.
    match goal with H : beq _ _ = true |- _ => apply beq_true in H; rewrite <- H end.
    by rewrite take_drop.
Qed.

#[export] Instance ed25519 : Ed25519 := {|
  ed25519_public seed := seed;
  ed25519_sign seed m := hmac_sha256 seed m ++ hmac_sha256 seed m;
  ed25519_verify key m s := beq s (hmac_sha256 key m ++ hmac_sha256 key m);
|}.

#[export] Instance ed25519_laws : Ed25519Laws.
Proof.
  constructor; simpl; intros; [done|by rewrite length_app, !length_hmac|apply beq_refl].
Qed.

End Sample.
