(* ===== verification/VaultCrypto.v ===== *)
(** * Vault cryptography

    src/pkg/vault/crypto.go and nonce_state.go, and the contexts of store.go: the keyring
    that seals every stored value under a fresh data key wrapped by a root key, the keyed
    lookup digests, and the nonce state of a route. What a sealing draws from the random
    source is an argument. Opening a value gives what was sealed for the same context, and
    only that; contexts and digest inputs are unambiguous. *)

From S2P Require Import Prelude GoBytes GoTime GoCrypto.
Local Open Scope Z_scope.
Local Open Scope go_scope.

Inductive crypto_error := ErrCryptoUnavailable | ErrCiphertextInvalid | ErrLookupUnavailable.

#[export] Instance crypto_error_eq_dec : EqDecision crypto_error.
Proof. solve_decision. Defined.

(** ** The keyring *)

Definition envelopeMagic : bytes := str "HV1" ++ [x00].
Definition envelopeHeaderBytes : nat := 4 + 4 + 12 + 12 + 48.

Record Keyring := { krActiveVersion : Z; krKeys : gmap Z bytes }.

Definition ActiveVersion (k : option Keyring) : Z :=
  match k with Some k => krActiveVersion k | None => 0 end.

Definition NewKeyring (activeVersion : Z) (keys : gmap Z bytes) : result crypto_error Keyring :=
  reject activeVersion =? 0 with ErrCryptoUnavailable;;
  reject negb (forallb (fun kv => negb (kv.1 =? 0) && (length kv.2 =? 32)%nat) (map_to_list keys))
    with ErrCryptoUnavailable;;
  match keys !! activeVersion with
  | None => Err ErrCryptoUnavailable
  | Some _ => Ok {| krActiveVersion := activeVersion; krKeys := keys |}
  end.

(** What the random source gives for the data key and the two nonces, in the order read;
    [None] is a failed read. *)
Record SealEntropy := {
  enDataKey : option bytes; enDataNonce : option bytes; enWrapNonce : option bytes }.

(** [io.ReadFull] into a buffer of [n] bytes. *)
Definition read_full (n : nat) (source : option bytes) : option bytes :=
  b ← source; if (length b =? n)%nat then Some b else None.

Definition vaultAAD (domain context : bytes) : bytes := domain ++ len_field context.

Definition dataDomain : bytes := str "hytch.vault.data.v1" ++ [x00].
Definition wrapDomain : bytes := str "hytch.vault.wrap.v1" ++ [x00].

Definition root_key (k : Keyring) (version : Z) : option bytes :=
  key ← krKeys k !! version; if (length key =? 32)%nat then Some key else None.

Section Keyring.
Context `{AesGcm}.

Definition Seal (k : Keyring) (entropy : SealEntropy) (context plaintext : bytes)
  : result crypto_error bytes :=
  reject (length context =? 0)%nat with ErrCryptoUnavailable;;
  match root_key k (krActiveVersion k) with
  | None => Err ErrCryptoUnavailable
  | Some rootKey =>
      match read_full 32 (enDataKey entropy), read_full 12 (enDataNonce entropy) with
      | Some dataKey, Some dataNonce =>
          let dataCiphertext := gcm_seal dataKey dataNonce plaintext (vaultAAD dataDomain context) in
          match read_full 12 (enWrapNonce entropy) with
          | Some wrapNonce =>
              let wrappedDataKey := gcm_seal rootKey wrapNonce dataKey (vaultAAD wrapDomain context) in
              reject negb (length wrapNonce =? 12)%nat || negb (length dataNonce =? 12)%nat ||
                     negb (length wrappedDataKey =? 48)%nat with ErrCryptoUnavailable;;
              Ok (envelopeMagic ++ be 4 (krActiveVersion k) ++ wrapNonce ++ dataNonce ++
                  wrappedDataKey ++ dataCiphertext)
          | None => Err ErrCryptoUnavailable
          end
      | _, _ => Err ErrCryptoUnavailable
      end
  end.

(** [sealed[from:from+n]]. *)
Definition slice (from n : nat) (sealed : bytes) : bytes := take n (drop from sealed).

Definition Open (k : Keyring) (context sealed : bytes) : result crypto_error bytes :=
  reject (length context =? 0)%nat || (length sealed <? envelopeHeaderBytes + 16)%nat ||
         negb (beq (slice 0 4 sealed) envelopeMagic) with ErrCiphertextInvalid;;
  match root_key k (be_decode (slice 4 4 sealed)) with
  | None => Err ErrCryptoUnavailable
  | Some rootKey =>
      match gcm_open rootKey (slice 8 12 sealed) (slice 32 48 sealed) (vaultAAD wrapDomain context) with
      | None => Err ErrCiphertextInvalid
      | Some dataKey =>
          reject negb (length dataKey =? 32)%nat with ErrCiphertextInvalid;;
          match gcm_open dataKey (slice 20 12 sealed) (drop 80 sealed) (vaultAAD dataDomain context) with
          | None => Err ErrCiphertextInvalid
          | Some plaintext => Ok plaintext
          end
      end
  end.

End Keyring.

(** ** Lookup digests *)

Definition ParseLookupKey (encoded : bytes) : result crypto_error bytes :=
  match b64_decode false encoded with
  | Some root => reject negb (length root =? 32)%nat with ErrLookupUnavailable;; Ok root
  | None => Err ErrLookupUnavailable
  end.

Definition NewLookupKey (root : bytes) : result crypto_error bytes :=
  reject negb (length root =? 32)%nat with ErrLookupUnavailable;; Ok root.

Definition lookupRotationSeconds : Z := 7 * 24 * 3600.

(** [uint64(at.Unix())] wraps for an instant before 1970. *)
Definition LookupEpoch (at_ : Z) : Z := w64 (at_ / second) / lookupRotationSeconds.

Definition CandidateEpochs (at_ : Z) : list Z :=
  let current := LookupEpoch at_ in
  if current =? 0 then [0] else [current; current - 1].

Definition digest_preimage (domain : bytes) (epoch : Z) (value : bytes) : bytes :=
  str "hytch.vault.lookup.v1" ++ [x00] ++ domain ++ [x00] ++ be 8 epoch ++ len_field value.

Definition Digest (root domain : bytes) (epoch : Z) (value : bytes) : result crypto_error bytes :=
  reject negb (length root =? 32)%nat || (length domain =? 0)%nat || (length value =? 0)%nat
    with ErrLookupUnavailable;;
  Ok (hmac_sha256 root (digest_preimage domain epoch value)).

Definition RootCommitment (root : bytes) : result crypto_error bytes :=
  Digest root (str "lookup-root-binding") 0 (str "hytch.push.vault.lookup-root.v1").

(** ** Contexts of stored values *)

Definition vaultContext (kind identifier field : bytes) : bytes :=
  str "hytch.push.vault.v1" ++ [x00] ++ kind ++ [x00] ++ len_field identifier ++ [x00] ++ field.

Definition installationContext (lookup field : bytes) : bytes :=
  vaultContext (str "installation") lookup field.

Definition leaseContext (leaseID field : bytes) : bytes := vaultContext (str "lease") leaseID field.

(** ** The nonce state of a route *)

Record nonceState := { nsPrefix : Z; nsNextSequence : Z }.

Definition encodeNonceState (state : nonceState) : bytes :=
  be 4 (nsPrefix state) ++ be 8 (nsNextSequence state).

Definition decodeNonceState (encoded : bytes) : option nonceState :=
  if negb (length encoded =? 12)%nat then None
  else Some {| nsPrefix := be_decode (take 4 encoded); nsNextSequence := be_decode (drop 4 encoded) |}.

(** ** Theorems *)

Lemma read_full_some n source b : read_full n source = Some b <-> source = Some b /\ length b = n.
Proof.
  unfold read_full. destruct source as [c|]; cbn; [|naive_solver].
  destruct (length c =? n)%nat eqn:E; [apply Nat.eqb_eq in E|apply Nat.eqb_neq in E]; naive_solver.
Qed.

Lemma root_key_some k v key : root_key k v = Some key <-> krKeys k !! v = Some key /\ length key = 32%nat.
Proof.
  unfold root_key. destruct (krKeys k !! v) as [c|]; cbn; [|naive_solver].
  destruct (length c =? 32)%nat eqn:E; [apply Nat.eqb_eq in E|apply Nat.eqb_neq in E]; naive_solver.
Qed.

Lemma len_field_length v : length (len_field v) = (8 + length v)%nat.
Proof. unfold len_field. by rewrite length_app, length_be. Qed.

Lemma slice_mid (a b c : bytes) i n : length a = i -> length b = n -> slice i n (a ++ b ++ c) = b.
Proof. intros <- <-. unfold slice. by rewrite drop_app_exact, take_app_exact. Qed.

Section Laws.
Context `{HG : AesGcm, HL : !AesGcmLaws}.

(** The exact shape of a sealed value. *)
Definition envelope (version : Z) (rootKey dataKey wrapNonce dataNonce context plaintext : bytes) : bytes :=
  envelopeMagic ++ be 4 version ++ wrapNonce ++ dataNonce ++
  gcm_seal rootKey wrapNonce dataKey (vaultAAD wrapDomain context) ++
  gcm_seal dataKey dataNonce plaintext (vaultAAD dataDomain context).

Lemma keyring_seal_ok k en context plaintext sealed :
  Seal k en context plaintext = Ok sealed <->
  context <> [] /\ exists rootKey dataKey dataNonce wrapNonce,
    root_key k (krActiveVersion k) = Some rootKey /\
    read_full 32 (enDataKey en) = Some dataKey /\ read_full 12 (enDataNonce en) = Some dataNonce /\
    read_full 12 (enWrapNonce en) = Some wrapNonce /\
    sealed = envelope (krActiveVersion k) rootKey dataKey wrapNonce dataNonce context plaintext.
Proof.
  unfold Seal. destruct context as [|c context]; [naive_solver|]. cbn [length Nat.eqb].
  destruct (root_key k _) as [rk|]; [|naive_solver].
  destruct (read_full 32 _) as [dk|] eqn:Ed; [|naive_solver].
  destruct (read_full 12 (enDataNonce en)) as [dn|] eqn:En; [|naive_solver].
  destruct (read_full 12 (enWrapNonce en)) as [wn|] eqn:Ew; [|naive_solver].
  pose proof Ed as [_ Ld]%read_full_some. pose proof En as [_ Ln]%read_full_some.
  pose proof Ew as [_ Lw]%read_full_some.
  cbv zeta. rewrite gcm_seal_length, Ld, Ln, Lw. cbn [Nat.add Nat.eqb negb orb]. unfold envelope. naive_solver.
Qed.

Lemma slices_of_envelope v rk dk wn dn context p :
  length wn = 12%nat -> length dn = 12%nat -> length dk = 32%nat ->
  let s := envelope v rk dk wn dn context p in
  (envelopeHeaderBytes + 16 <= length s)%nat /\
  slice 0 4 s = envelopeMagic /\ slice 4 4 s = be 4 v /\ slice 8 12 s = wn /\ slice 20 12 s = dn /\
  slice 32 48 s = gcm_seal rk wn dk (vaultAAD wrapDomain context) /\
  drop 80 s = gcm_seal dk dn p (vaultAAD dataDomain context).
Proof.
  intros Hw Hd Hk s. subst s. unfold envelope.
  assert (Hg : length (gcm_seal rk wn dk (vaultAAD wrapDomain context)) = 48%nat)
    by (rewrite gcm_seal_length, Hk; done).
  split. { rewrite !length_app, length_be, Hw, Hd, Hg, gcm_seal_length. unfold envelopeHeaderBytes. simpl. lia. }
  set (w := gcm_seal rk wn dk _) in *. set (d := gcm_seal dk dn p _).
  assert (Hm : length envelopeMagic = 4%nat) by done. pose proof (length_be 4 v) as Hb.
  split; [by apply (slice_mid [])|]. split; [by apply slice_mid|].
  split; [rewrite app_assoc; apply slice_mid; [rewrite length_app; lia|done]|].
  split; [rewrite !(app_assoc _ _ (dn ++ _)), <- app_assoc; rewrite !app_assoc, <- (app_assoc _ w d), <- app_assoc;
          apply slice_mid; [rewrite !length_app; lia|done]|].
  split; [rewrite !app_assoc, <- app_assoc; apply slice_mid; [rewrite !length_app; lia|done]|].
  rewrite !app_assoc. apply drop_app_exact. rewrite !length_app. lia.
Qed.

Lemma keyring_open_ok k context sealed plaintext :
  Open k context sealed = Ok plaintext <->
  context <> [] /\ exists v rootKey dataKey wrapNonce dataNonce,
    0 <= v < 2 ^ 32 /\ root_key k v = Some rootKey /\ length dataKey = 32%nat /\
    length wrapNonce = 12%nat /\ length dataNonce = 12%nat /\
    sealed = envelope v rootKey dataKey wrapNonce dataNonce context plaintext.
Proof.
  split.
  - unfold Open. destruct context as [|c context]; [done|]. cbn [length Nat.eqb orb].
    destruct (_ <? _)%nat eqn:El; [done|]. apply Nat.ltb_ge in El. cbn [orb].
    destruct (beq _ _) eqn:Em; [|done]. cbn [negb]. apply beq_true in Em.
    destruct (root_key k _) as [rk|] eqn:Er; [|done].
    destruct (gcm_open rk _ _ _) as [dk|] eqn:Ew; [|done].
    destruct (length dk =? 32)%nat eqn:Ek; [|done]. apply Nat.eqb_eq in Ek. cbn [negb].
    destruct (gcm_open dk _ _ _) as [p|] eqn:Ed; [|done]. intros [= ->].
    apply gcm_open_sound in Ew, Ed. split; [done|].
    unfold envelopeHeaderBytes in El.
    assert (Hs : forall i n, (i + n <= length sealed)%nat -> length (slice i n sealed) = n)
      by (intros; unfold slice; rewrite length_take, length_drop; lia).
    exists (be_decode (slice 4 4 sealed)), rk, dk, (slice 8 12 sealed), (slice 20 12 sealed).
    pose proof (be_decode_range (slice 4 4 sealed)) as Hr. rewrite (Hs 4%nat 4%nat) in Hr by lia.
    split; [exact Hr|]. repeat (split; [done || (apply Hs; lia)|]).
    unfold envelope. rewrite be_be_decode by (apply Hs; lia). rewrite <- Ew, <- Ed, <- Em. unfold slice.
    rewrite drop_0. rewrite <- (take_drop 4 sealed) at 1. f_equal.
    rewrite <- (take_drop 4 (drop 4 sealed)) at 1. f_equal. rewrite drop_drop.
    rewrite <- (take_drop 12 (drop (4 + 4) sealed)) at 1. f_equal. rewrite drop_drop.
    rewrite <- (take_drop 12 (drop (4 + 4 + 12) sealed)) at 1. f_equal. rewrite drop_drop.
    rewrite <- (take_drop 48 (drop (4 + 4 + 12 + 12) sealed)) at 1. f_equal. by rewrite drop_drop.
  - intros (Hc & v & rk & dk & wn & dn & Hv & Hr & Hk & Hw & Hd & ->).
    destruct (slices_of_envelope v rk dk wn dn context plaintext Hw Hd Hk) as (Hl & S1 & S2 & S3 & S4 & S5 & S6).
    unfold Open. rewrite S1, S2, S3, S4, S5, S6. destruct context; [done|]. cbn [length Nat.eqb orb].
    rewrite beq_refl. replace (_ <? _)%nat with false by (symmetry; apply Nat.ltb_ge; exact Hl).
    cbn [orb negb]. rewrite be_decode_be, Z.mod_small by exact Hv. rewrite Hr, gcm_open_seal, Hk.
    cbn [Nat.eqb negb]. by rewrite gcm_open_seal.
Qed.

(** A keyring that kept the active root key opens what was sealed. *)
Lemma seal_reopens (k k' : Keyring) entropy context plaintext sealed :
  0 <= krActiveVersion k < 2 ^ 32 -> krKeys k' !! krActiveVersion k = krKeys k !! krActiveVersion k ->
  Seal k entropy context plaintext = Ok sealed -> Open k' context sealed = Ok plaintext.
Proof.
  intros Hv Hkept (Hc & rk & dk & dn & wn & Hr & Hk & Hd & Hw & ->)%keyring_seal_ok. apply keyring_open_ok.
  apply read_full_some in Hk as [_ Hk], Hd as [_ Hd], Hw as [_ Hw]. split; [done|].
  exists (krActiveVersion k), rk, dk, wn, dn. repeat (split; [done|]).
  split; [unfold root_key in *; by rewrite Hkept|]. done.
Qed.

(** What a keyring sealed for a context it opens again to the same value, also after
    the active key was rotated, as long as the root key of the value is kept; and every
    value any keyring opens for a context is an envelope of the result for that context,
    under one of its root keys: no other bytes open. *)
Theorem keyring_open_seal (k k' : Keyring) (entropy : SealEntropy) (context plaintext sealed : bytes)
    (Hversion : 0 <= krActiveVersion k < 2 ^ 32)
    (Hseal : Seal k entropy context plaintext = Ok sealed)
    (Hkept : krKeys k' !! krActiveVersion k = krKeys k !! krActiveVersion k) :
  Open k' context sealed = Ok plaintext /\
  (forall k2 context2 sealed2 other, Open k2 context2 sealed2 = Ok other ->
     exists version rootKey dataKey wrapNonce dataNonce,
       root_key k2 version = Some rootKey /\ length dataKey = 32%nat /\
       sealed2 = envelope version rootKey dataKey wrapNonce dataNonce context2 other).
Proof.
  split; [by eapply seal_reopens|]. intros k2 context2 sealed2 other (_ & v & rk & dk & wn & dn & _ & Hr & Hk & _ & _ & ->)%keyring_open_ok.
  by exists v, rk, dk, wn, dn.
Qed.

End Laws.

(** The context of a stored value determines the kind of its owner, the owner and the
    field: no two fields of the vault share a context. *)
Theorem vault_context_injective (kind kind' identifier identifier' field field' : bytes)
    (Hk : forallb (fun b => negb (bool_decide (b = x00))) kind = true)
    (Hk' : forallb (fun b => negb (bool_decide (b = x00))) kind' = true)
    (Hi : go_len identifier) (Hi' : go_len identifier')
    (Heq : vaultContext kind identifier field = vaultContext kind' identifier' field') :
  kind = kind' /\ identifier = identifier' /\ field = field'.
Proof.
  unfold vaultContext in Heq. apply app_inv_head, app_inv_head in Heq. cbn [app] in Heq.
  apply (app_span_inj (fun b => negb (bool_decide (b = x00)))) in Heq as (-> & _ & Heq); try done.
  apply len_field_inj in Heq as [-> Heq]; [|done|done]. by injection Heq as ->.
Qed.

Lemma digest_preimage_inj domain domain' epoch epoch' value value' :
  forallb (fun b => negb (bool_decide (b = x00))) domain = true ->
  forallb (fun b => negb (bool_decide (b = x00))) domain' = true ->
  0 <= epoch < 2 ^ 64 -> 0 <= epoch' < 2 ^ 64 -> go_len value -> go_len value' ->
  digest_preimage domain epoch value = digest_preimage domain' epoch' value' ->
  domain = domain' /\ epoch = epoch' /\ value = value'.
Proof.
  intros Hd Hd' He He' Hv Hv' Heq. unfold digest_preimage in Heq.
  apply app_inv_head, app_inv_head in Heq. cbn [app] in Heq.
  apply (app_span_inj (fun b => negb (bool_decide (b = x00)))) in Heq as (-> & _ & Heq); try done.
  apply app_inj_length in Heq as [Hb Heq]; [|by rewrite !length_be].
  apply be_inj in Hb as ->; [|done|done].
  apply (f_equal (fun l => l ++ [])) in Heq. by apply len_field_inj in Heq as [-> _].
Qed.

Lemma decode_encode_nonce state :
  0 <= nsPrefix state < 2 ^ 32 -> 0 <= nsNextSequence state < 2 ^ 64 ->
  decodeNonceState (encodeNonceState state) = Some state.
Proof.
  intros Hp Hn. unfold decodeNonceState, encodeNonceState. rewrite length_app, !length_be. cbn [Nat.add Nat.eqb negb].
  rewrite take_app_exact, drop_app_exact by apply length_be. rewrite !be_decode_be, !Z.mod_small by done.
  by destruct state.
Qed.

Lemma decoded_nonce_range encoded state :
  decodeNonceState encoded = Some state -> 0 <= nsPrefix state < 2 ^ 32 /\ 0 <= nsNextSequence state < 2 ^ 64.
Proof.
  unfold decodeNonceState. destruct (length encoded =? 12)%nat eqn:E; [|done]. cbn [negb]. apply Nat.eqb_eq in E.
  intros [= <-]. cbn [nsPrefix nsNextSequence].
  pose proof (be_decode_range (take 4 encoded)) as H1. pose proof (be_decode_range (drop 4 encoded)) as H2.
  rewrite length_take in H1. rewrite length_drop in H2. rewrite E in *. cbn in *. lia.
Qed.

(** ** Concrete values *)

Module KeyringSample.
Definition old_key : bytes := repeat x01 32.
Definition keyring : Keyring := {| krActiveVersion := 1; krKeys := {[1 := old_key]} |}.
Definition rotated : Keyring := {| krActiveVersion := 2; krKeys := {[1 := old_key; 2 := repeat x02 32]} |}.
Definition entropy : SealEntropy := {|
  enDataKey := Some (repeat x03 32); enDataNonce := Some (repeat x04 12); enWrapNonce := Some (repeat x05 12) |}.
End KeyringSample.

Section Witnesses.
#[local] Existing Instance Sample.gcm.
#[local] Existing Instance Sample.gcm_laws.

Lemma keyring_open_seal_witness : exists sealed,
  Seal KeyringSample.keyring KeyringSample.entropy (str "context") (str "token") = Ok sealed /\
  Open KeyringSample.rotated (str "context") sealed = Ok (str "token").
Proof.
  destruct (Seal KeyringSample.keyring KeyringSample.entropy (str "context") (str "token")) as [sealed|e] eqn:Es.
  - exists sealed. split; [reflexivity|].
    apply (keyring_open_seal KeyringSample.keyring KeyringSample.rotated KeyringSample.entropy (str "context")
      (str "token") sealed); [cbn; lia|exact Es|reflexivity].
  - exfalso. vm_compute in Es. discriminate Es.
Defined.

Lemma vault_context_injective_witness :
  str "lease" = str "lease" /\ repeat x01 16 = repeat x01 16 /\ str "topic" = str "topic".
Proof.
  apply (vault_context_injective (str "lease") (str "lease") (repeat x01 16) (repeat x01 16) (str "topic") (str "topic"));
    [reflexivity|reflexivity|unfold go_len; cbn; lia|unfold go_len; cbn; lia|reflexivity].
Defined.

End Witnesses.
