(* ===== verification/GoJson.v ===== *)
(** * JSON as Go's encoding/json reads and writes it

    The spelling of members in the canonical objects the program writes. *)

From S2P Require Import Prelude GoBytes.
Local Open Scope Z_scope.

(** ** Members of a canonical object *)

(** A quoted string whose content needs no escape. *)
Definition jstring (s : bytes) : bytes := [x22] ++ s ++ [x22].
(** The member [name:value] of an object, in Go's compact spelling. *)
Definition member (name : string) (value : bytes) : bytes := jstring (str name) ++ str ":" ++ value.

Definition no_quote (b : byte) : bool := negb (bool_decide (b = x22)).

Lemma jstring_inj a b x y :
  forallb no_quote a = true -> forallb no_quote b = true ->
  jstring a ++ x = jstring b ++ y -> a = b /\ x = y.
Proof.
  intros Ha Hb H. unfold jstring in H. rewrite <- !app_assoc in H. apply app_inv_head in H.
  simpl in H. apply (app_span_inj no_quote) in H as (-> & _ & ->); done.
Qed.

Lemma member_inj n a b x y :
  forallb no_quote a = true -> forallb no_quote b = true ->
  member n (jstring a) ++ x = member n (jstring b) ++ y -> a = b /\ x = y.
Proof.
  intros Ha Hb H. unfold member in H. rewrite <- !app_assoc in H.
  do 2 apply app_inv_head in H. by apply jstring_inj in H.
Qed.

(** A decimal followed by a byte that is no digit. *)
Lemma uint_field_inj a b c d x y :
  0 <= a -> 0 <= b -> is_digit c = false -> is_digit d = false ->
  format_uint a ++ c :: x = format_uint b ++ d :: y -> a = b /\ c = d /\ x = y.
Proof.
  intros Ha Hb Hc Hd H.
  apply (app_span_inj is_digit) in H as (He & -> & ->); try done; try apply format_uint_digits.
  apply format_uint_inj in He; done.
Qed.

Lemma member_uint_inj n a b c d x y :
  0 <= a -> 0 <= b -> is_digit c = false -> is_digit d = false ->
  member n (format_uint a) ++ c :: x = member n (format_uint b) ++ d :: y ->
  a = b /\ x = y.
Proof.
  intros Ha Hb Hc Hd H. unfold member in H. rewrite <- !app_assoc in H.
  do 2 apply app_inv_head in H. apply uint_field_inj in H as (-> & -> & ->); done.
Qed.

Lemma hex_no_quote l : forallb no_quote (hex_encode l) = true.
Proof.
  eapply forallb_impl; [|apply hex_encode_lower].
  intros b. unfold is_lower_hex, no_quote. by destruct b.
Qed.

(** ** [json.Marshal] of a struct of strings and unsigned integers

    Members are written in declaration order. Strings are escaped as [encoding/json] does
    by default (with HTML escaping) for ASCII text; the program marshals no other text
    through this function. *)

Definition escape_byte (c : byte) : bytes :=
  if bool_decide (c = x22) || bool_decide (c = x5c) then [x5c; c]
  else match c with
  | x08 => str "\b" | x0c => str "\f" | x0a => str "\n" | x0d => str "\r" | x09 => str "\t"
  | x3c => str "\u003c" | x3e => str "\u003e" | x26 => str "\u0026"
  | _ => if b2z c <? 32 then str "\u00" ++ hex_encode [c] else [c]
  end.

Definition jquote (s : bytes) : bytes := [x22] ++ flat_map escape_byte s ++ [x22].

Inductive jfield :=
| FStr (s : bytes)
| FUint (z : Z).

Definition jfield_text (f : jfield) : bytes :=
  match f with FStr s => jquote s | FUint z => format_uint z end.

Definition jmember_text (m : string * jfield) : bytes :=
  jstring (str (fst m)) ++ str ":" ++ jfield_text (snd m).

Fixpoint jmembers_text (l : list (string * jfield)) : bytes :=
  match l with
  | [] => []
  | m :: l' => jmember_text m ++ match l' with [] => [] | _ => str "," ++ jmembers_text l' end
  end.

Definition marshal_struct (l : list (string * jfield)) : bytes :=
  str "{" ++ jmembers_text l ++ str "}".

(** Printable ASCII without the three characters HTML escaping touches. *)
Definition is_field_byte (c : byte) : bool :=
  (32 <=? b2z c) && (b2z c <=? 126) && negb (bool_decide (c = x3c)) &&
  negb (bool_decide (c = x3e)) && negb (bool_decide (c = x26)).

Lemma escape_field_byte c :
  is_field_byte c = true ->
  escape_byte c = if bool_decide (c = x22) || bool_decide (c = x5c) then [x5c; c] else [c].
Proof. destruct c; try discriminate; reflexivity. Qed.

Lemma escaped_inj a b x y :
  forallb is_field_byte a = true -> forallb is_field_byte b = true ->
  flat_map escape_byte a ++ x22 :: x = flat_map escape_byte b ++ x22 :: y -> a = b /\ x = y.
Proof.
  revert b. induction a as [|c a IH]; intros [|d b] Ha Hb H; cbn [forallb flat_map] in *; boolprop.
  - by injection H as ->.
  - exfalso. rewrite escape_field_byte in H by done. destruct (bool_decide_reflect (d = x22)); simpl in H; [done|].
    destruct (bool_decide_reflect (d = x5c)); simpl in H; congruence.
  - exfalso. rewrite escape_field_byte in H by done. destruct (bool_decide_reflect (c = x22)); simpl in H; [done|].
    destruct (bool_decide_reflect (c = x5c)); simpl in H; congruence.
  - rewrite <- !app_assoc, !escape_field_byte in H by done.
    destruct (bool_decide_reflect (c = x22)), (bool_decide_reflect (c = x5c)),
      (bool_decide_reflect (d = x22)), (bool_decide_reflect (d = x5c)); simpl in H; try congruence;
      injection H; intros; subst; (edestruct IH as [-> ->]; [..|eassumption|]; done) || congruence.
Qed.

Lemma jquote_inj a b x y :
  forallb is_field_byte a = true -> forallb is_field_byte b = true ->
  jquote a ++ x = jquote b ++ y -> a = b /\ x = y.
Proof.
  intros Ha Hb H. unfold jquote in H. rewrite <- !app_assoc in H. apply app_inv_head in H.
  by apply escaped_inj in H.
Qed.

(** Two structs have the same shape: names and kinds agree, values are valid. *)
Definition same_shape (m m' : string * jfield) : Prop :=
  fst m = fst m' /\
  match snd m, snd m' with
  | FStr a, FStr b => forallb is_field_byte a = true /\ forallb is_field_byte b = true
  | FUint a, FUint b => 0 <= a /\ 0 <= b
  | _, _ => False
  end.

Lemma jmember_inj m m' c d x y :
  same_shape m m' -> is_digit c = false -> is_digit d = false ->
  jmember_text m ++ c :: x = jmember_text m' ++ d :: y -> m = m' /\ x = y.
Proof.
  destruct m as [n f], m' as [n' f']. intros [Hn Hf] Hc Hd H. simpl in Hn, Hf. subst n'.
  unfold jmember_text in H. cbn [fst snd] in H. rewrite <- !app_assoc in H.
  do 2 apply app_inv_head in H.
  destruct f as [a|a], f' as [b|b]; try done; destruct Hf as [Ha Hb]; cbn [jfield_text] in H.
  - apply jquote_inj in H as [-> H]; [|done..]. by injection H as -> ->.
  - by apply uint_field_inj in H as (-> & -> & ->).
Qed.

Lemma marshal_struct_inj l l' :
  Forall2 same_shape l l' -> marshal_struct l = marshal_struct l' -> l = l'.
Proof.
  unfold marshal_struct. intros Hs H. apply app_inv_head in H. revert H.
  induction Hs as [|m m' l l' Hm Hs IH]; [done|]. intros H. cbn [jmembers_text] in H.
  destruct Hs as [|n n' l l' Hn Hs].
  - rewrite !app_nil_r in H. apply jmember_inj in H as [-> _]; done.
  - rewrite <- !app_assoc in H. change (str ",") with [x2c] in H. cbn [app] in H.
    apply jmember_inj in H as [-> H]; [|done..]. f_equal. apply IH. exact H.
Qed.

(** Values that survive marshalling. *)
Definition field_ok (f : jfield) : Prop :=
  match f with FStr s => forallb is_field_byte s = true | FUint z => 0 <= z end.
Definition field_kind (m : string * jfield) : string * bool :=
  (fst m, match snd m with FStr _ => true | FUint _ => false end).

Lemma same_shapes l l' :
  map field_kind l = map field_kind l' ->
  Forall (fun m => field_ok (snd m)) l -> Forall (fun m => field_ok (snd m)) l' ->
  Forall2 same_shape l l'.
Proof.
  revert l'. induction l as [|[n f] l IH]; intros [|[n' f'] l'] Hk Hl Hl'; [constructor|discriminate Hk|discriminate Hk|].
  cbn [map] in Hk. apply Forall_cons in Hl as [Hf Hl], Hl' as [Hf' Hl'].
  injection Hk as -> Hb Hk. constructor; [|by apply IH]. split; [done|].
  simpl in *. destruct f, f'; done.
Qed.
