(* ===== verification/JsonText.v ===== *)
(** * JSON texts

    The grammar that Go's encoding/json scanner accepts, and the two ways the program reads
    it: token by token with duplicate names refused ([ParseStrictJSON] of
    src/pkg/a9trust/jcs.go), and as a whole ([json.Unmarshal]). Both are one recursive
    descent over the bytes, whose fuel is shown never to run out. Go's [map[string]any] is
    a list of members sorted by name. *)

From S2P Require Import Prelude GoBytes.
Local Open Scope Z_scope.
Local Open Scope go_scope.

(** ** UTF-8 *)

Definition is_cont (b : byte) : bool := (128 <=? b2z b) && (b2z b <=? 191).

Definition between (lo b hi : Z) : bool := (lo <=? b) && (b <=? hi).

Definition two_bytes (a b : byte) : bool := between 194 (b2z a) 223 && is_cont b.

Definition three_bytes (a b c : byte) : bool :=
  is_cont c &&
  (((b2z a =? 224) && between 160 (b2z b) 191) || ((b2z a =? 237) && between 128 (b2z b) 159) ||
   ((between 225 (b2z a) 236 || between 238 (b2z a) 239) && is_cont b)).

Definition four_bytes (a b c d : byte) : bool :=
  is_cont c && is_cont d &&
  (((b2z a =? 240) && between 144 (b2z b) 191) || ((b2z a =? 244) && between 128 (b2z b) 143) ||
   (between 241 (b2z a) 243 && is_cont b)).

(** [utf8.Valid]. *)
Fixpoint utf8_valid (s : bytes) : bool :=
  match s with
  | [] => true
  | a :: r =>
      if b2z a <? 128 then utf8_valid r else
      match r with
      | [] => false
      | b :: r1 =>
          if two_bytes a b then utf8_valid r1 else
          match r1 with
          | [] => false
          | c :: r2 =>
              if three_bytes a b c then utf8_valid r2 else
              match r2 with
              | [] => false
              | d :: r3 => if four_bytes a b c d then utf8_valid r3 else false
              end
          end
      end
  end.

(** [utf8.AppendRune] of a code point below 2^16 that is no surrogate, or above. *)
Definition encode_rune (z : Z) : bytes :=
  if z <? 128 then [z2b z]
  else if z <? 2048 then [z2b (192 + z / 64); z2b (128 + z mod 64)]
  else if z <? 65536 then [z2b (224 + z / 4096); z2b (128 + z / 64 mod 64); z2b (128 + z mod 64)]
  else [z2b (240 + z / 262144); z2b (128 + z / 4096 mod 64); z2b (128 + z / 64 mod 64); z2b (128 + z mod 64)].

Definition rune_error : bytes := [xef; xbf; xbd].

(** ** Values *)

(** The dynamic types of the values the program parses and canonicalizes: what the decoder
    makes (with [UseNumber]), and the Go integers, floats and other values it puts into
    objects itself. *)
Inductive json :=
| JNull
| JBool (b : bool)
| JNumber (raw : bytes)
| JString (s : bytes)
| JArray (l : list json)
| JObject (m : list (bytes * json))
| JInt (z : Z)    (** int, int64 *)
| JUint (z : Z)   (** uint, uint32, uint64 *)
| JFloat
| JOther.

Section JsonInd.
Context (P : json -> Prop).
Hypothesis Hnull : P JNull.
Hypothesis Hbool : forall b, P (JBool b).
Hypothesis Hnumber : forall r, P (JNumber r).
Hypothesis Hstring : forall s, P (JString s).
Hypothesis Harray : forall l, Forall P l -> P (JArray l).
Hypothesis Hobject : forall m, Forall (fun kv => P kv.2) m -> P (JObject m).
Hypothesis Hint : forall z, P (JInt z).
Hypothesis Huint : forall z, P (JUint z).
Hypothesis Hfloat : P JFloat.
Hypothesis Hother : P JOther.

Fixpoint json_rect_nested (v : json) : P v :=
  match v with
  | JNull => Hnull
  | JBool b => Hbool b
  | JNumber r => Hnumber r
  | JString s => Hstring s
  | JArray l =>
      Harray l ((fix go l := match l return Forall P l with
                 | [] => @List.Forall_nil _ _
                 | x :: l => @List.Forall_cons _ _ x l (json_rect_nested x) (go l)
                 end) l)
  | JObject m =>
      Hobject m ((fix go m := match m return Forall (fun kv => P kv.2) m with
                  | [] => @List.Forall_nil _ _
                  | kv :: m => @List.Forall_cons _ _ kv m (json_rect_nested kv.2) (go m)
                  end) m)
  | JInt z => Hint z
  | JUint z => Huint z
  | JFloat => Hfloat
  | JOther => Hother
  end.
End JsonInd.

(** Go's map of members: sorted by name, each name once. *)
Fixpoint put (k : bytes) (v : json) (m : list (bytes * json)) : list (bytes * json) :=
  match m with
  | [] => [(k, v)]
  | (k', v') :: m' =>
      if beq k k' then (k, v) :: m'
      else if bytes_lt k k' then (k, v) :: m else (k', v') :: put k v m'
  end.

Fixpoint get (m : list (bytes * json)) (k : bytes) : option json :=
  match m with
  | [] => None
  | (k', v) :: m' => if beq k k' then Some v else get m' k
  end.

Definition drop_member (k : bytes) (m : list (bytes * json)) : list (bytes * json) :=
  List.filter (fun kv => negb (beq kv.1 k)) m.

(** ** Lexical elements *)

Definition is_space (b : byte) : bool :=
  bool_decide (b = x20) || bool_decide (b = x09) || bool_decide (b = x0a) || bool_decide (b = x0d).

Fixpoint skip_space (s : bytes) : bytes :=
  match s with
  | [] => []
  | b :: r => if is_space b then skip_space r else s
  end.

(** Four hexadecimal digits. *)
Definition hex_quad (a b c d : byte) : option Z :=
  a ← hex_val a; b ← hex_val b; c ← hex_val c; d ← hex_val d;
  Some (a * 4096 + b * 256 + c * 16 + d).

Definition simple_escape (c : byte) : option byte :=
  match c with
  | x22 | x5c | x2f => Some c
  | x62 => Some x08 | x66 => Some x0c | x6e => Some x0a | x72 => Some x0d | x74 => Some x09
  | _ => None
  end.

Definition is_surrogate (z : Z) : bool := between 55296 z 57343.
Definition surrogate_pair (hi lo : Z) : option Z :=
  if between 55296 hi 56319 && between 56320 lo 57343
  then Some ((hi - 55296) * 1024 + (lo - 56320) + 65536) else None.

Definition cons_to (a : bytes) (o : option (bytes * bytes)) : option (bytes * bytes) :=
  match o with Some (b, r) => Some (a ++ b, r) | None => None end.

(** The rest of a string after its opening quote: the decoded content, and what follows the
    closing quote. Unpaired surrogates and invalid UTF-8 become U+FFFD. *)
Fixpoint string_body (s : bytes) : option (bytes * bytes) :=
  match s with
  | [] => None
  | c :: r =>
      if bool_decide (c = x22) then Some ([], r)
      else if bool_decide (c = x5c) then
        match r with
        | [] => None
        | e :: r1 =>
            if bool_decide (e = x75) then
              match r1 with
              | a :: b :: c :: d :: r2 =>
                  match hex_quad a b c d with
                  | None => None
                  | Some u =>
                      if is_surrogate u then
                        match r2 with
                        | q :: t :: a' :: b' :: c' :: d' :: r3 =>
                            match (if bool_decide (q = x5c) && bool_decide (t = x75)
                                   then lo ← hex_quad a' b' c' d'; surrogate_pair u lo else None) with
                            | Some rune => cons_to (encode_rune rune) (string_body r3)
                            | None => cons_to rune_error (string_body r2)
                            end
                        | _ => cons_to rune_error (string_body r2)
                        end
                      else cons_to (encode_rune u) (string_body r2)
                  end
              | _ => None
              end
            else match simple_escape e with
                 | Some b => cons_to [b] (string_body r1)
                 | None => None
                 end
        end
      else if b2z c <? 32 then None
      else if b2z c <? 128 then cons_to [c] (string_body r)
      else
        match r with
        | b :: r1 =>
            if two_bytes c b then cons_to [c; b] (string_body r1) else
            match r1 with
            | d :: r2 =>
                if three_bytes c b d then cons_to [c; b; d] (string_body r2) else
                match r2 with
                | e :: r3 =>
                    if four_bytes c b d e then cons_to [c; b; d; e] (string_body r3)
                    else cons_to rune_error (string_body r)
                | [] => cons_to rune_error (string_body r)
                end
            | [] => cons_to rune_error (string_body r)
            end
        | [] => cons_to rune_error (string_body r)
        end
  end.

Fixpoint span_digits (s : bytes) : bytes * bytes :=
  match s with
  | [] => ([], [])
  | c :: r => if is_digit c then let '(d, r') := span_digits r in (c :: d, r') else ([], s)
  end.

(** At least one digit. *)
Definition digits1 (s : bytes) : option (bytes * bytes) :=
  match span_digits s with ([], _) => None | p => Some p end.

Definition integer_part (s : bytes) : option (bytes * bytes) :=
  match s with
  | x30 :: r => Some ([x30], r)
  | _ => digits1 s
  end.

Definition fraction_part (s : bytes) : option (bytes * bytes) :=
  match s with
  | x2e :: r => cons_to [x2e] (digits1 r)
  | _ => Some ([], s)
  end.

Definition exponent_part (s : bytes) : option (bytes * bytes) :=
  match s with
  | c :: r =>
      if bool_decide (c = x65) || bool_decide (c = x45) then
        match r with
        | sign :: r' =>
            if bool_decide (sign = x2b) || bool_decide (sign = x2d)
            then cons_to [c; sign] (digits1 r') else cons_to [c] (digits1 r)
        | [] => None
        end
      else Some ([], s)
  | [] => Some ([], s)
  end.

(** A number: its spelling, and what follows. *)
Definition number (s : bytes) : option (bytes * bytes) :=
  let '(sign, r) := match s with x2d :: r => ([x2d], r) | _ => ([], s) end in
  '(i, r) ← integer_part r;
  '(f, r) ← fraction_part r;
  '(e, r) ← exponent_part r;
  Some (sign ++ i ++ f ++ e, r).

(** ** Texts *)

Inductive json_error := ErrSyntax | ErrDuplicateKey | ErrNumberSpelling | ErrNumberRange | ErrOutOfFuel.

#[export] Instance json_error_eq_dec : EqDecision json_error.
Proof. solve_decision. Defined.

Abbreviation parsed A := (result json_error (A * bytes)).

Definition literal (word : string) (v : json) (s : bytes) : parsed json :=
  if has_prefix s (str word) then Ok (v, trim_prefix s (str word)) else Err ErrSyntax.

(** What follows the byte [b], if [s] starts with it. *)
Definition next_is (b : byte) (s : bytes) : option bytes :=
  match s with c :: r => if bool_decide (c = b) then Some r else None | [] => None end.

Section Parser.
(** Whether a repeated name is refused, and what is refused of a number (never for lack of
    fuel). *)
Context (strict : bool) (check_number : bytes -> option json_error).

(** A value that is no container: [c] is its first byte. *)
Definition parse_scalar (c : byte) (r : bytes) : parsed json :=
  if bool_decide (c = x22) then '(v, r') ← or_err ErrSyntax (string_body r); Ok (JString v, r')
  else if bool_decide (c = x6e) then literal "null" JNull (c :: r)
  else if bool_decide (c = x74) then literal "true" (JBool true) (c :: r)
  else if bool_decide (c = x66) then literal "false" (JBool false) (c :: r)
  else
    '(n, r') ← or_err ErrSyntax (number (c :: r));
    match check_number n with Some e => Err e | None => Ok (JNumber n, r') end.

(** One value; the elements of an array after [\[] or a comma; the members of an object
    after [{] or a comma, given those already read. *)
Fixpoint parse_value (fuel : nat) (s : bytes) : parsed json :=
  match fuel with
  | O => Err ErrOutOfFuel
  | S fuel =>
      match skip_space s with
      | [] => Err ErrSyntax
      | c :: r =>
          if bool_decide (c = x7b) then
            match next_is x7d (skip_space r) with
            | Some r' => Ok (JObject [], r')
            | None => parse_members fuel [] r
            end
          else if bool_decide (c = x5b) then
            match next_is x5d (skip_space r) with
            | Some r' => Ok (JArray [], r')
            | None => parse_elements fuel [] r
            end
          else parse_scalar c r
      end
  end
with parse_elements (fuel : nat) (acc : list json) (s : bytes) : parsed json :=
  match fuel with
  | O => Err ErrOutOfFuel
  | S fuel =>
      '(v, r) ← parse_value fuel s;
      let r := skip_space r in
      match next_is x2c r, next_is x5d r with
      | Some r', _ => parse_elements fuel (acc ++ [v]) r'
      | None, Some r' => Ok (JArray (acc ++ [v]), r')
      | None, None => Err ErrSyntax
      end
  end
with parse_members (fuel : nat) (acc : list (bytes * json)) (s : bytes) : parsed json :=
  match fuel with
  | O => Err ErrOutOfFuel
  | S fuel =>
      match next_is x22 (skip_space s) with
      | None => Err ErrSyntax
      | Some r =>
          '(name, r) ← or_err ErrSyntax (string_body r);
          reject strict && bool_decide (is_Some (get acc name)) with ErrDuplicateKey;;
          match next_is x3a (skip_space r) with
          | None => Err ErrSyntax
          | Some r =>
              '(v, r) ← parse_value fuel r;
              let acc := put name v acc in
              let r := skip_space r in
              match next_is x2c r, next_is x7d r with
              | Some r', _ => parse_members fuel acc r'
              | None, Some r' => Ok (JObject acc, r')
              | None, None => Err ErrSyntax
              end
          end
      end
  end.

(** One value and nothing but white space after it. *)
Definition parse_text (s : bytes) : result json_error json :=
  '(v, r) ← parse_value (2 * length s + 1) s;
  match skip_space r with [] => Ok v | _ => Err ErrSyntax end.

End Parser.

Definition any_number (raw : bytes) : option json_error := None.

Definition ParseStrictJSON (raw : bytes) : result json_error json :=
  reject negb (utf8_valid raw) with ErrSyntax;;
  parse_text true any_number raw.

(** ** Every element consumes input, so the fuel suffices *)

Lemma skip_space_length s : (length (skip_space s) <= length s)%nat.
Proof. induction s as [|b s IH]; simpl; [done|]. destruct (is_space b); simpl; lia. Qed.

Lemma cons_to_some a o b r : cons_to a o = Some (b, r) <-> exists b', o = Some (b', r) /\ b = a ++ b'.
Proof. destruct o as [[b' r']|]; naive_solver. Qed.

Lemma string_body_length s a r : string_body s = Some (a, r) -> (length r < length s)%nat.
Proof.
  revert a. induction s as [s IH] using (induction_ltof1 _ length). unfold ltof in IH. intros a H.
  destruct s as [|c s]; [done|]. cbn [string_body] in H.
  repeat match type of H with
  | match ?x with _ => _ end = _ => destruct x
  | None = _ => discriminate H
  | Some _ = _ => injection H as _ <-
  | cons_to _ _ = _ => apply cons_to_some in H as (? & H & _); apply IH in H
  end; cbn [length] in *; lia.
Qed.

Lemma span_digits_length s d r : span_digits s = (d, r) -> length s = (length d + length r)%nat.
Proof.
  revert d. induction s as [|c s IH]; intros d H; simpl in H; [by simplify_eq|].
  destruct (is_digit c); [|by simplify_eq]. destruct (span_digits s) as [d' r'].
  simplify_eq. simpl. by rewrite (IH d').
Qed.

Lemma digits1_length s d r : digits1 s = Some (d, r) -> (length r < length s)%nat.
Proof.
  unfold digits1. destruct (span_digits s) as [d' r'] eqn:E. intros H.
  apply span_digits_length in E. destruct d'; simplify_eq/=. lia.
Qed.

Lemma fraction_part_length s d r : fraction_part s = Some (d, r) -> (length r <= length s)%nat.
Proof.
  unfold fraction_part. intros H. repeat (case_in H; simplify_eq/=); try lia.
  apply cons_to_some in H as (? & H%digits1_length & _). lia.
Qed.

Lemma exponent_part_length s d r : exponent_part s = Some (d, r) -> (length r <= length s)%nat.
Proof.
  unfold exponent_part. intros H. repeat (case_in H; simplify_eq/=); try lia;
    apply cons_to_some in H as (? & H%digits1_length & _); simpl in *; lia.
Qed.

Lemma integer_part_length s d r : integer_part s = Some (d, r) -> (length r < length s)%nat.
Proof.
  unfold integer_part. intros H. repeat (case_in H; simplify_eq/=); try lia;
    apply digits1_length in H; done.
Qed.

Lemma number_length s n r : number s = Some (n, r) -> (length r < length s)%nat.
Proof.
  unfold number.
  assert (Hs : (length (match s with x2d :: r => ([x2d], r) | _ => ([], s) end).2 <= length s)%nat)
    by (destruct s as [|[]]; simpl; lia).
  destruct (match s with x2d :: r => ([x2d], r) | _ => ([], s) end) as [sign t]. cbn [snd] in Hs.
  destruct (integer_part t) as [[i r1]|] eqn:E1; cbn; [|done]. apply integer_part_length in E1.
  destruct (fraction_part r1) as [[f r2]|] eqn:E2; cbn; [|done]. apply fraction_part_length in E2.
  destruct (exponent_part r2) as [[e r3]|] eqn:E3; cbn; [|done]. apply exponent_part_length in E3.
  intros [= <- <-]. lia.
Qed.

Lemma trim_prefix_length s p : p <> [] -> has_prefix s p = true -> (length (trim_prefix s p) < length s)%nat.
Proof.
  intros Hp (r & ->)%has_prefix_true. rewrite trim_prefix_app, length_app. destruct p; simpl; [done|lia].
Qed.

(** The result of reading [s]: input is left over, or an error other than lack of fuel. *)
Definition advances {A : Type} (s : bytes) (p : parsed A) : Prop :=
  match p with Ok (_, r) => (length r < length s)%nat | Err e => e <> ErrOutOfFuel end.

Lemma advances_le {A : Type} (s s' : bytes) (p : parsed A) :
  (length s' <= length s)%nat -> advances s' p -> advances s p.
Proof. unfold advances. destruct p as [[v r]|e]; [lia|done]. Qed.

Lemma literal_advances word v s : word <> ""%string -> advances s (literal word v s).
Proof.
  intros Hw. unfold literal. destruct (has_prefix s (str word)) eqn:E; [|done]. simpl.
  apply trim_prefix_length; [|done]. by destruct word.
Qed.

Lemma bind_advances {A B : Type} (s : bytes) (p : parsed A) (k : A * bytes -> parsed B) :
  advances s p -> (forall a r, p = Ok (a, r) -> (length r < length s)%nat -> advances s (k (a, r))) ->
  advances s (p ≫= k).
Proof. unfold mbind, result_bind. destruct p as [[a r]|e]; [|done]. intros Hp Hk. by apply Hk. Qed.

Lemma or_err_advances (s : bytes) (o : option (bytes * bytes)) :
  (forall a r, o = Some (a, r) -> (length r < length s)%nat) -> advances s (or_err ErrSyntax o).
Proof. destruct o as [[a r]|]; simpl; [|done]. intros Ho. by apply (Ho a). Qed.

Lemma skip_cons s c r : skip_space s = c :: r -> (length r < length s)%nat.
Proof. intros E. pose proof (skip_space_length s) as Hl. rewrite E in Hl. simpl in Hl. lia. Qed.

Lemma next_is_length b s r : next_is b (skip_space s) = Some r -> (length r < length s)%nat.
Proof.
  destruct (skip_space s) as [|c t] eqn:E; simpl; [done|]. destruct (bool_decide _); [|done].
  intros [= <-]. by apply skip_cons in E.
Qed.

Section Totality.
Context (strict : bool) (check_number : bytes -> option json_error).
Hypothesis Hcheck : forall n, check_number n <> Some ErrOutOfFuel.

Lemma scalar_advances c r : advances (c :: r) (parse_scalar check_number c r).
Proof.
  unfold parse_scalar. repeat destruct (bool_decide _).
  - apply bind_advances; [|done]. apply or_err_advances. intros a r' H%string_body_length. simpl. lia.
  - by apply literal_advances.
  - by apply literal_advances.
  - by apply literal_advances.
  - apply bind_advances; [apply or_err_advances, number_length|].
    intros n r' _ Hl. destruct (check_number n) eqn:En; [|done]. simpl. intros ->. by apply (Hcheck n).
Qed.

Lemma parse_advances fuel :
  (forall s, (2 * length s + 1 <= fuel)%nat -> advances s (parse_value strict check_number fuel s)) /\
  (forall acc s, (2 * length s + 2 <= fuel)%nat -> advances s (parse_elements strict check_number fuel acc s)) /\
  (forall acc s, (2 * length s + 2 <= fuel)%nat -> advances s (parse_members strict check_number fuel acc s)).
Proof.
  induction fuel as [|fuel (IHv & IHe & IHm)]; [repeat split; intros; lia|]. split_and!.
  - intros s Hs. cbn [parse_value].
    destruct (skip_space s) as [|c r] eqn:E; [done|]. pose proof (skip_cons _ _ _ E) as Hr.
    pose proof (skip_space_length s) as Hsl. rewrite E in Hsl.
    destruct (bool_decide (c = x7b)); [|destruct (bool_decide (c = x5b))].
    + destruct (next_is _ _) as [r'|] eqn:En; [apply next_is_length in En; simpl; lia|].
      apply (advances_le _ r); [|apply IHm]; lia.
    + destruct (next_is _ _) as [r'|] eqn:En; [apply next_is_length in En; simpl; lia|].
      apply (advances_le _ r); [|apply IHe]; lia.
    + by apply (advances_le _ (c :: r)), scalar_advances.
  - intros acc s Hs. cbn [parse_elements]. apply bind_advances; [apply IHv; lia|].
    intros v r _ Hr. cbn beta iota zeta. destruct (next_is x2c _) as [r'|] eqn:E1.
    { apply next_is_length in E1. apply (advances_le _ r'); [|apply IHe]; lia. }
    destruct (next_is x5d _) as [r'|] eqn:E2; [|done]. apply next_is_length in E2. simpl. lia.
  - intros acc s Hs. cbn [parse_members]. destruct (next_is x22 _) as [r|] eqn:E; [|done].
    apply next_is_length in E.
    apply bind_advances; [apply or_err_advances; intros a r' H%string_body_length; lia|].
    intros name r1 _ Hr1. cbn beta iota. destruct (strict && _); [done|].
    destruct (next_is x3a _) as [r2|] eqn:E1; [|done]. apply next_is_length in E1.
    apply bind_advances; [apply (advances_le _ r2); [lia|apply IHv; lia]|].
    intros v r3 _ Hr3. cbn beta iota zeta. destruct (next_is x2c _) as [r4|] eqn:E3.
    { apply next_is_length in E3. apply (advances_le _ r4); [|apply IHm]; lia. }
    destruct (next_is x7d _) as [r4|] eqn:E4; [|done]. apply next_is_length in E4. simpl. lia.
Qed.

Lemma parse_text_total s : parse_text strict check_number s <> Err ErrOutOfFuel.
Proof.
  unfold parse_text. pose proof (proj1 (parse_advances (2 * length s + 1)) s) as Ha.
  destruct (parse_value _ _ _ s) as [[v r]|e]; cbn; [|intros [= ->]; by apply Ha; [lia|]].
  by destruct (skip_space r).
Qed.

End Totality.
