(* ===== verification/Jcs.v ===== *)
(** * The canonical form of JSON objects

    [Canonicalize] of src/pkg/a9trust/jcs.go: the narrow JCS profile (ASCII text, integers
    from 0 to 2^53 - 1, members sorted by name) every A9 signature and hash is taken over,
    and its relation to [ParseStrictJSON]. *)

From S2P Require Import Prelude GoBytes GoJson JsonText.
Local Open Scope Z_scope.
Local Open Scope go_scope.

Definition maxIJSONInteger : Z := 9007199254740991.

Inductive jcs_error := ErrNonIJSON.

Definition isASCII (s : bytes) : bool := forallb (fun c => b2z c <? 128) s.

Definition starts_with_zero (raw : bytes) : bool :=
  match raw with x30 :: _ => true | _ => false end.

Definition canonicalInteger (raw : bytes) : result jcs_error bytes :=
  reject beq raw [] || beq raw (str "-0") || contains_any raw (str ".eE+-") with ErrNonIJSON;;
  reject negb (beq raw (str "0")) && starts_with_zero raw with ErrNonIJSON;;
  reject negb (forallb is_digit raw) with ErrNonIJSON;;
  match parse_uint64 raw with
  | None => Err ErrNonIJSON
  | Some n => reject maxIJSONInteger <? n with ErrNonIJSON;; Ok (format_uint n)
  end.

Definition ascii_escape (c : byte) : bytes :=
  match c with
  | x22 | x5c => [x5c; c]
  | x08 => str "\b" | x0c => str "\f" | x0a => str "\n" | x0d => str "\r" | x09 => str "\t"
  | _ => if b2z c <? 32 then str "\u00" ++ hex_encode [c] else [c]
  end.

Definition appendASCIIString (value : bytes) : result jcs_error bytes :=
  reject negb (isASCII value) with ErrNonIJSON;;
  Ok ([x22] ++ flat_map ascii_escape value ++ [x22]).

Fixpoint join (l : list bytes) : bytes :=
  match l with
  | [] => []
  | t :: l' => t ++ match l' with [] => [] | _ => str "," ++ join l' end
  end.

Fixpoint appendCanonical (value : json) : result jcs_error bytes :=
  match value with
  | JNull => Ok (str "null")
  | JBool b => Ok (if b then str "true" else str "false")
  | JString s => appendASCIIString s
  | JNumber raw => canonicalInteger raw
  | JInt z => reject z <? 0 with ErrNonIJSON;; canonicalInteger (format_uint z)
  | JUint z => canonicalInteger (format_uint z)
  | JFloat | JOther => Err ErrNonIJSON
  | JArray l =>
      texts ← mapM appendCanonical l;
      Ok (str "[" ++ join texts ++ str "]")
  | JObject m =>
      reject negb (forallb (fun kv => isASCII kv.1) m) with ErrNonIJSON;;
      texts ← mapM (fun kv => name ← appendASCIIString kv.1; t ← appendCanonical kv.2;
                              Ok (name ++ str ":" ++ t)) m;
      Ok (str "{" ++ join texts ++ str "}")
  end.

Definition Canonicalize (value : json) : result jcs_error bytes := appendCanonical value.

(** ** What a value becomes when its canonical form is read *)

Fixpoint as_parsed (v : json) : json :=
  match v with
  | JInt z | JUint z => JNumber (format_uint z)
  | JArray l => JArray (map as_parsed l)
  | JObject m => JObject (map (fun kv => (kv.1, as_parsed kv.2)) m)
  | v => v
  end.

(** Objects are maps: their names are sorted and distinct. *)
Definition sorted_names (m : list (bytes * json)) : Prop :=
  StronglySorted (fun a b => bytes_lt a b = true) (map fst m).

Fixpoint well_formed (v : json) : Prop :=
  match v with
  | JArray l => foldr (fun x P => well_formed x /\ P) True l
  | JObject m => sorted_names m /\ foldr (fun kv P => well_formed kv.2 /\ P) True m
  | JInt z => - 2 ^ 63 <= z < 2 ^ 63
  | JUint z => 0 <= z < 2 ^ 64
  | _ => True
  end.

(** ** Reading the canonical form *)

Lemma foldr_and {A : Type} (P : A -> Prop) l : foldr (fun x Q => P x /\ Q) True l <-> Forall P l.
Proof. induction l as [|x l IH]; simpl; [by split|]. by rewrite IH, Forall_cons. Qed.

Lemma mapM_ok {E A B : Type} (f : A -> result E B) l k :
  mapM f l = Ok k <-> Forall2 (fun x y => f x = Ok y) l k.
Proof.
  revert k. induction l as [|x l IH]; intros k; simpl.
  { split; [intros [= <-]; constructor|by inversion 1]. }
  destruct (f x) as [y|e] eqn:Ef; cbn.
  - destruct (mapM f l) as [k'|e'] eqn:Em; cbn.
    + split; [intros [= <-]; constructor; [done|by apply IH]|].
      inversion 1 as [|? y' ? k'' Hy Hk]; subst. apply IH in Hk. unfold mret, result_ret. congruence.
    + split; [done|]. inversion 1 as [|? y' ? k'' Hy Hk]; subst. by apply IH in Hk.
  - split; [done|]. inversion 1; congruence.
Qed.

Lemma isASCII_cons c s : isASCII (c :: s) = true <-> b2z c < 128 /\ isASCII s = true.
Proof. unfold isASCII. cbn [forallb]. rewrite andb_true_iff, Z.ltb_lt. done. Qed.

Lemma string_body_escape c r : b2z c < 128 ->
  string_body (ascii_escape c ++ r) = cons_to [c] (string_body r).
Proof. destruct c; try (intros H; by exfalso; compute in H); reflexivity. Qed.

Lemma string_body_ascii s r : isASCII s = true ->
  string_body (flat_map ascii_escape s ++ x22 :: r) = Some (s, r).
Proof.
  induction s as [|c s IH]; intros Hs; [done|]. apply isASCII_cons in Hs as [Hc Hs].
  cbn [flat_map]. rewrite <- app_assoc, string_body_escape, IH by done. done.
Qed.

(** What may follow a value: the end, or a byte that continues no number. *)
Definition ends_number (r : bytes) : Prop :=
  match r with [] => True | c :: _ => c = x2c \/ c = x5d \/ c = x7d end.

Lemma span_digits_app s r : forallb is_digit s = true -> ends_number r -> span_digits (s ++ r) = (s, r).
Proof.
  induction s as [|c s IH]; intros Hs Hr; cbn [app] in *.
  { destruct r as [|c r]; [done|]. by destruct Hr as [->|[->| ->]]. }
  cbn [forallb] in Hs. boolprop. cbn [span_digits]. rewrite H. by rewrite IH.
Qed.

Lemma no_fraction r : ends_number r -> fraction_part r = Some ([], r).
Proof. destruct r as [|c r]; [done|]. by intros [->|[->| ->]]. Qed.

Lemma no_exponent r : ends_number r -> exponent_part r = Some ([], r).
Proof. destruct r as [|c r]; [done|]. by intros [->|[->| ->]]. Qed.

Lemma canonicalInteger_ok raw t :
  canonicalInteger raw = Ok t ->
  t = raw /\ forallb is_digit raw = true /\ raw <> [] /\ (starts_with_zero raw = true -> raw = [x30]).
Proof.
  unfold canonicalInteger. intros [H0 H]%reject_ok. apply reject_ok in H as [H1 H].
  apply reject_ok in H as [H2 H]. boolprop. unfold parse_uint64 in H.
  destruct (parse_digits raw) as [z|] eqn:Ep; [|done]. destruct (z <? 2 ^ 64); [|done].
  apply reject_ok in H as [_ [= <-]].
  assert (Hz : starts_with_zero raw = true -> raw = [x30]).
  { intros Hs. rewrite Hs, andb_true_r in H1. boolprop. by apply beq_true in H1. }
  split; [|split; [done|split; [by intros ->|done]]].
  apply format_parse_digits; [done|]. intros Hd. apply Hz. destruct raw as [|c raw]; [done|]. by injection Hd as ->.
Qed.

Lemma integer_part_app s r :
  forallb is_digit s = true -> s <> [] -> (starts_with_zero s = true -> s = [x30]) -> ends_number r ->
  integer_part (s ++ r) = Some (s, r).
Proof.
  intros Hs Hn Hz Hr. destruct (starts_with_zero s) eqn:E; [by rewrite (Hz eq_refl)|].
  assert (Hi : integer_part (s ++ r) = digits1 (s ++ r)) by (destruct s as [|[] s]; done).
  rewrite Hi. unfold digits1. rewrite span_digits_app by done. by destruct s.
Qed.

Lemma number_app s r :
  forallb is_digit s = true -> s <> [] -> (starts_with_zero s = true -> s = [x30]) -> ends_number r ->
  number (s ++ r) = Some (s, r).
Proof.
  intros Hs Hn Hz Hr. unfold number.
  assert (Hm : match s ++ r with x2d :: r => ([x2d], r) | _ => ([], s ++ r) end = ([] : bytes, s ++ r))
    by (destruct s as [|[] s]; done).
  rewrite Hm, integer_part_app by done. cbn. rewrite no_fraction by done. cbn.
  rewrite no_exponent by done. cbn. by rewrite app_nil_r.
Qed.

(** What starts a number, and so is neither space nor the start of anything else. *)
Lemma parse_number strict check_number fuel s r :
  check_number s = None -> forallb is_digit s = true -> s <> [] -> (starts_with_zero s = true -> s = [x30]) -> ends_number r ->
  parse_value strict check_number (S fuel) (s ++ r) = Ok (JNumber s, r).
Proof.
  intros Hk Hs Hn Hz Hr. pose proof (number_app s r Hs Hn Hz Hr) as Hnum.
  destruct s as [|c s]; [done|]. cbn [app] in *. cbn [parse_value].
  cbn [forallb] in Hs. boolprop.
  assert (E : skip_space (c :: s ++ r) = c :: s ++ r) by (by destruct c). rewrite E.
  assert (Hc : forall b, is_digit b = false -> bool_decide (c = b) = false).
  { intros b Hb. apply bool_decide_eq_false. congruence. }
  unfold parse_scalar. rewrite !Hc by done. rewrite Hnum. cbn. by rewrite Hk.
Qed.

Lemma put_last k v m :
  Forall (fun kv => bytes_lt kv.1 k = true) m -> put k v m = m ++ [(k, v)].
Proof.
  induction m as [|[k' v'] m IH]; [done|]. rewrite Forall_cons. cbn [fst]. intros [Hk Hm]. cbn [put].
  destruct (beq k k') eqn:E; [apply beq_true in E as ->; by rewrite bytes_lt_irrefl in Hk|].
  destruct (bytes_lt k k') eqn:E'.
  { pose proof (bytes_lt_trans _ _ _ Hk E') as Hx. by rewrite bytes_lt_irrefl in Hx. }
  by rewrite IH.
Qed.

Lemma get_last k m : Forall (fun kv => bytes_lt kv.1 k = true) m -> get m k = None.
Proof.
  induction m as [|[k' v'] m IH]; [done|]. rewrite Forall_cons. cbn [fst]. intros [Hk Hm]. cbn [get].
  destruct (beq k k') eqn:E; [apply beq_true in E as ->; by rewrite bytes_lt_irrefl in Hk|]. auto.
Qed.

Lemma put_sorted_snoc k m :
  sorted_names (m ++ k) -> forall kv k', k = kv :: k' -> Forall (fun kv' => bytes_lt kv'.1 kv.1 = true) m.
Proof.
  unfold sorted_names. intros Hs kv k' ->. rewrite map_app in Hs. induction m as [|x m IH]; [constructor|].
  cbn [map app] in Hs. apply StronglySorted_inv in Hs as [Hs Hx]. constructor; [|by apply IH].
  rewrite Forall_forall in Hx. apply Hx. apply elem_of_app. right. cbn [map]. by left.
Qed.

Lemma skip_head c s : is_space c = false -> skip_space (c :: s) = c :: s.
Proof. intros H. simpl. by rewrite H. Qed.

Ltac len := repeat (rewrite ?length_app in *; cbn [length app join] in * ); lia.

Section RoundTrip.
Context (strict : bool) (check_number : bytes -> option json_error).
Hypothesis Hcheck : forall raw t, canonicalInteger raw = Ok t -> check_number raw = None.

(** Reading a canonical text gives back its value, whatever follows it. *)
Definition reads_back (v : json) : Prop := forall t fuel rest,
  appendCanonical v = Ok t -> well_formed v -> ends_number rest ->
  (2 * length (t ++ rest) + 1 <= fuel)%nat -> parse_value strict check_number fuel (t ++ rest) = Ok (as_parsed v, rest).

Lemma next_is_eq b r : next_is b (b :: r) = Some r.
Proof. unfold next_is. by rewrite bool_decide_true. Qed.

Lemma next_is_ne b c r : c <> b -> next_is b (c :: r) = None.
Proof. intros H. unfold next_is. by rewrite bool_decide_false. Qed.

(** The first byte of a value decides how the rest is read. *)
Lemma parse_string_start fuel r :
  parse_value strict check_number (S fuel) (x22 :: r) =
  ('(v, r') ← or_err ErrSyntax (string_body r); Ok (JString v, r')).
Proof. reflexivity. Qed.

Lemma parse_array_start fuel r :
  parse_value strict check_number (S fuel) (x5b :: r) =
  match next_is x5d (skip_space r) with
  | Some r' => Ok (JArray [], r')
  | None => parse_elements strict check_number fuel [] r
  end.
Proof. reflexivity. Qed.

Lemma parse_object_start fuel r :
  parse_value strict check_number (S fuel) (x7b :: r) =
  match next_is x7d (skip_space r) with
  | Some r' => Ok (JObject [], r')
  | None => parse_members strict check_number fuel [] r
  end.
Proof. reflexivity. Qed.

Lemma string_reads_back s t r fuel :
  appendASCIIString s = Ok t -> parse_value strict check_number (S fuel) (t ++ r) = Ok (JString s, r).
Proof.
  unfold appendASCIIString. intros [Hs [= <-]]%reject_ok. boolprop.
  cbn [app]. rewrite <- app_assoc. cbn [app]. rewrite parse_string_start. by rewrite string_body_ascii.
Qed.

Lemma integer_reads_back raw t r fuel :
  canonicalInteger raw = Ok t -> ends_number r -> parse_value strict check_number (S fuel) (t ++ r) = Ok (JNumber raw, r).
Proof. intros Hi Hr. pose proof (Hcheck _ _ Hi). apply canonicalInteger_ok in Hi as (-> & Hd & Hn & Hz). by apply parse_number. Qed.

Lemma canonical_head v t :
  appendCanonical v = Ok t -> exists c t', t = c :: t' /\ is_space c = false /\ c <> x5d.
Proof.
  assert (Hint : forall raw, canonicalInteger raw = Ok t -> exists c t', t = c :: t' /\ is_space c = false /\ c <> x5d).
  { intros raw (-> & Hd & Hn & _)%canonicalInteger_ok. destruct raw as [|c raw]; [done|].
    cbn [forallb] in Hd. boolprop. exists c, raw. split; [done|]. by destruct c. }
  destruct v; simpl; try discriminate.
  - intros [= <-]. by eexists _, _.
  - destruct b; intros [= <-]; by eexists _, _.
  - apply Hint.
  - unfold appendASCIIString. intros [_ [= <-]]%reject_ok. by eexists _, _.
  - destruct (mapM _ l); cbn; [|done]. intros [= <-]. by eexists _, _.
  - intros [_ H]%reject_ok. revert H. destruct (mapM _ m); cbn; [|done]. intros [= <-]. by eexists _, _.
  - intros [_ H]%reject_ok. by apply Hint in H.
  - apply Hint.
Qed.

Lemma elements_read_back l : Forall reads_back l -> Forall well_formed l ->
  forall texts acc fuel rest, Forall2 (fun v t => appendCanonical v = Ok t) l texts -> l <> [] ->
  (2 * length (join texts ++ x5d :: rest) + 2 <= fuel)%nat ->
  parse_elements strict check_number fuel acc (join texts ++ x5d :: rest) = Ok (JArray (acc ++ map as_parsed l), rest).
Proof.
  induction 1 as [|v l Hv Hl IH]; intros Hwf texts acc fuel rest Ht Hne Hf; [done|].
  apply Forall_cons in Hwf as [Hw Hwf]. inversion Ht as [|? t ? texts' Et Hts]; subst.
  destruct fuel as [|fuel]; [lia|]. cbn [parse_elements join] in *.
  destruct Hts as [|v' t' l texts Ev' Hts]; rewrite <- app_assoc in Hf |- *; cbn [app] in Hf |- *.
  - rewrite Hv; [|done|done|by right; left|cbn in *; lia]. cbn [mbind result_bind].
    rewrite skip_head, next_is_ne, next_is_eq by done. done.
  - cbn [join] in *. change (str ",") with [x2c] in *. rewrite <- app_assoc in Hf |- *. cbn [app] in Hf |- *.
    rewrite Hv; [|done|done|by left|cbn in *; lia]. cbn [mbind result_bind].
    rewrite skip_head, next_is_eq by done.
    pose proof (IH Hwf (t' :: texts) (acc ++ [as_parsed v]) fuel rest) as Hx. cbn [join] in Hx.
    change (str ",") with [x2c] in Hx. cbn [app] in Hx.
    cbn. cbn in Hx. rewrite Hx; [|by constructor|done|len].
    by rewrite <- app_assoc.
Qed.

Lemma members_read_back m : Forall (fun kv => reads_back kv.2) m -> Forall (fun kv => well_formed kv.2) m ->
  forall texts acc fuel rest,
  Forall2 (fun kv t => (name ← appendASCIIString kv.1; x ← appendCanonical kv.2; Ok (name ++ str ":" ++ x)) = Ok t)
    m texts ->
  m <> [] -> sorted_names (acc ++ m) ->
  (2 * length (join texts ++ x7d :: rest) + 2 <= fuel)%nat ->
  parse_members strict check_number fuel acc (join texts ++ x7d :: rest) =
    Ok (JObject (acc ++ map (fun kv => (kv.1, as_parsed kv.2)) m), rest).
Proof.
  induction 1 as [|[k v] m Hv Hm IH]; intros Hwf texts acc fuel rest Ht Hne Hs Hf; [done|].
  apply Forall_cons in Hwf as [Hw Hwf]. inversion Ht as [|? t ? texts' Et Hts]; subst. cbn [fst snd] in *.
  destruct (appendASCIIString k) as [name|] eqn:En; cbn in Et; [|done].
  destruct (appendCanonical v) as [x|] eqn:Ex; cbn in Et; [|done]. injection Et as <-.
  unfold appendASCIIString in En. apply reject_ok in En as [Hk [= <-]]. boolprop.
  pose proof (put_sorted_snoc _ _ Hs _ _ eq_refl) as Hlt. cbn [fst] in Hlt.
  destruct fuel as [|fuel]; [lia|]. cbn [parse_members join] in *.
  change (str ":") with [x3a] in *. change (str ",") with [x2c] in *.
  repeat (rewrite <- app_assoc in Hf |- *; cbn [app] in Hf |- *).
  rewrite skip_head, next_is_eq by done. rewrite string_body_ascii by done. cbn [or_err mbind result_bind].
  rewrite get_last by done. rewrite (bool_decide_false (is_Some None)) by (by intros [? [=]]).
  rewrite andb_false_r. rewrite skip_head, next_is_eq by done.
  destruct Hts as [|v' t' m texts Ev' Hts]; cbn [app] in *.
  - rewrite Hv; [|done|done|by right; right|len]. cbn [mbind result_bind].
    rewrite skip_head, next_is_ne, next_is_eq by done. by rewrite put_last.
  - repeat (rewrite <- app_assoc in Hf |- *; cbn [app] in Hf |- *).
    rewrite Hv; [|done|done|by left|len].
    cbn [mbind result_bind]. rewrite skip_head, next_is_eq by done. cbn beta iota. rewrite put_last by done.
    rewrite (IH Hwf (t' :: texts) (acc ++ [(k, as_parsed v)]) fuel rest); [|by constructor|done| |].
    + cbn [map fst snd]. by rewrite <- !app_assoc.
    + unfold sorted_names in *. rewrite !map_app in *. cbn [map fst] in *. by rewrite <- app_assoc.
    + len.
Qed.

Lemma literals_read_back fuel r :
  parse_value strict check_number (S fuel) (str "null" ++ r) = Ok (JNull, r) /\
  parse_value strict check_number (S fuel) (str "true" ++ r) = Ok (JBool true, r) /\
  parse_value strict check_number (S fuel) (str "false" ++ r) = Ok (JBool false, r).
Proof.
  assert (Hlit : forall word v, literal word v (str word ++ r) = Ok (v, r)).
  { intros. unfold literal. by rewrite has_prefix_app, trim_prefix_app. }
  repeat split; cbn [parse_value]; cbn [str list_byte_of_string app]; apply Hlit.
Qed.

Lemma canonical_reads_back v : reads_back v.
Proof.
  induction v as [|b|raw|s|l IH|m IH|z|z| |] using json_rect_nested; intros t fuel rest Ht Hw Hr Hf;
    (destruct fuel as [|fuel]; [lia|]); cbn [appendCanonical as_parsed] in *.
  - injection Ht as <-. apply literals_read_back.
  - destruct b; injection Ht as <-; apply literals_read_back.
  - by apply (integer_reads_back raw).
  - by apply string_reads_back.
  - destruct (mapM appendCanonical l) as [texts|] eqn:Em; cbn in Ht; [|done]. injection Ht as <-.
    apply mapM_ok in Em. cbn [well_formed] in Hw. rewrite foldr_and in Hw.
    change (str "[") with [x5b] in *. change (str "]") with [x5d] in *.
    cbn [app] in Hf |- *. rewrite <- app_assoc in Hf |- *. cbn [app] in Hf |- *.
    rewrite ?parse_array_start, ?parse_object_start.
    destruct Em as [|v t l texts Ev Em]; [done|].
    destruct (canonical_head v t Ev) as (c & t' & -> & Hc & Hnb).
    assert (Hel : parse_elements strict check_number fuel [] (join ((c :: t') :: texts) ++ x5d :: rest) =
      Ok (JArray ([] ++ map as_parsed (v :: l)), rest)).
    { apply elements_read_back; [done|done|by constructor|done|len]. }
    cbn [join app] in Hel |- *. rewrite skip_head, next_is_ne by done. exact Hel.
  - apply reject_ok in Ht as [_ Ht]. cbn [well_formed] in Hw. destruct Hw as [Hs Hw].
    rewrite foldr_and in Hw. set (text := fun kv : bytes * json => _) in Ht.
    destruct (mapM text m) as [texts|] eqn:Em; cbn in Ht; [|done]. injection Ht as <-.
    apply mapM_ok in Em. change (str "{") with [x7b] in *. change (str "}") with [x7d] in *.
    cbn [app] in Hf |- *. rewrite <- app_assoc in Hf |- *. cbn [app] in Hf |- *.
    rewrite ?parse_array_start, ?parse_object_start.
    destruct Em as [|kv t m texts Ev Em]; [done|].
    assert (Hel : parse_members strict check_number fuel [] (join (t :: texts) ++ x7d :: rest) =
      Ok (JObject ([] ++ map (fun kv => (kv.1, as_parsed kv.2)) (kv :: m)), rest)).
    { apply members_read_back; [done|done|by constructor|done|done|len]. }
    assert (Hq : exists t', t = x22 :: t').
    { subst text. cbn in Ev. unfold appendASCIIString in Ev. destruct (negb (isASCII kv.1)); [done|].
      cbn in Ev. destruct (appendCanonical kv.2); cbn in Ev; [|done]. injection Ev as <-. by eexists. }
    destruct Hq as [t' ->].
    cbn [join app] in Hel |- *. rewrite skip_head, next_is_ne by done. exact Hel.
  - apply reject_ok in Ht as [_ Ht]. by apply (integer_reads_back (format_uint z)).
  - by apply (integer_reads_back (format_uint z)).
  - done.
  - done.
Qed.

Lemma parse_canonical v t : Canonicalize v = Ok t -> well_formed v -> parse_text strict check_number t = Ok (as_parsed v).
Proof.
  intros Ht Hw. unfold parse_text. pose proof (canonical_reads_back v t (2 * length t + 1)%nat []) as Hr.
  rewrite app_nil_r in Hr. rewrite Hr; [done|done|done|exact I|lia].
Qed.

End RoundTrip.

Lemma ascii_valid s : isASCII s = true -> utf8_valid s = true.
Proof.
  induction s as [|c s IH]; [done|]. intros [Hc Hs]%isASCII_cons. cbn [utf8_valid].
  apply Z.ltb_lt in Hc. rewrite Hc. auto.
Qed.

Lemma isASCII_app a b : isASCII (a ++ b) = isASCII a && isASCII b.
Proof. apply forallb_app. Qed.

Lemma escape_ascii c : b2z c < 128 -> isASCII (ascii_escape c) = true.
Proof. destruct c; try (intros H; by exfalso; compute in H); reflexivity. Qed.

Lemma digits_ascii s : forallb is_digit s = true -> isASCII s = true.
Proof. apply forallb_impl. intros c. by destruct c. Qed.

Lemma string_ascii s t : appendASCIIString s = Ok t -> isASCII t = true.
Proof.
  unfold appendASCIIString. intros [Hs [= <-]]%reject_ok. boolprop. cbn [app]. rewrite isASCII_cons.
  split; [done|]. rewrite isASCII_app. apply andb_true_iff. split; [|done].
  induction s as [|c s IH]; [done|]. apply isASCII_cons in Hs as [Hc Hs]. cbn [flat_map].
  by rewrite isASCII_app, escape_ascii, IH.
Qed.

Lemma join_ascii texts : Forall (fun t => isASCII t = true) texts -> isASCII (join texts) = true.
Proof.
  induction 1 as [|t texts Ht Hts IH]; [done|]. cbn [join]. rewrite isASCII_app, Ht.
  destruct texts; [done|]. by rewrite isASCII_app, IH.
Qed.

Lemma canonical_ascii v : forall t, appendCanonical v = Ok t -> isASCII t = true.
Proof.
  assert (Hint : forall raw t, canonicalInteger raw = Ok t -> isASCII t = true).
  { intros raw t (-> & Hd & _)%canonicalInteger_ok. by apply digits_ascii. }
  induction v as [|b|raw|s|l IH|m IH|z|z| |] using json_rect_nested; intros t; cbn [appendCanonical].
  - by intros [= <-].
  - destruct b; by intros [= <-].
  - apply Hint.
  - apply string_ascii.
  - destruct (mapM appendCanonical l) as [texts|] eqn:Em; cbn; [|done]. intros [= <-].
    apply mapM_ok in Em. cbn [app]. apply isASCII_cons. split; [done|]. rewrite isASCII_app.
    rewrite join_ascii; [done|]. clear -IH Em. induction Em; [constructor|].
    apply Forall_cons in IH as [Hx IH]. constructor; auto.
  - intros [_ H]%reject_ok. revert H. destruct (mapM _ m) as [texts|] eqn:Em; cbn; [|done].
    intros [= <-]. apply mapM_ok in Em. cbn [app]. apply isASCII_cons. split; [done|]. rewrite isASCII_app.
    rewrite join_ascii; [done|]. clear -IH Em. induction Em as [|kv t m texts Ev Em IH']; [constructor|].
    apply Forall_cons in IH as [Hx IH]. constructor; [|by apply IH'].
    destruct (appendASCIIString kv.1) as [name|] eqn:En; cbn in Ev; [|done].
    destruct (appendCanonical kv.2) as [x|] eqn:Ex; cbn in Ev; [|done]. injection Ev as <-.
    rewrite isASCII_app, (string_ascii _ _ En). cbn [andb app]. apply isASCII_cons.
    split; [done|by apply Hx].
  - intros [_ H]%reject_ok. by apply Hint in H.
  - apply Hint.
  - done.
  - done.
Qed.

Lemma as_parsed_canonical v t : Canonicalize v = Ok t -> Canonicalize (as_parsed v) = Ok t.
Proof.
  unfold Canonicalize. revert t.
  induction v as [|b|raw|s|l IH|m IH|z|z| |] using json_rect_nested; intros t; cbn [appendCanonical as_parsed];
    try done.
  - destruct (mapM appendCanonical l) as [texts|] eqn:Em; cbn; [|done]. intros [= <-].
    assert (E : mapM appendCanonical (map as_parsed l) = Ok texts).
    { apply mapM_ok. apply mapM_ok in Em. clear -IH Em. induction Em; [constructor|].
      apply Forall_cons in IH as [Hx IH]. constructor; auto. }
    by rewrite E.
  - intros [Ha H]%reject_ok. revert H. set (text := fun kv : bytes * json => _).
    destruct (mapM text m) as [texts|] eqn:Em; cbn; [|done]. intros [= <-].
    assert (E : mapM text (map (fun kv => (kv.1, as_parsed kv.2)) m) = Ok texts).
    { apply mapM_ok. apply mapM_ok in Em. clear -IH Em. induction Em as [|kv t m texts Ev Em IH']; [constructor|].
      apply Forall_cons in IH as [Hx IH]. constructor; [|by apply IH']. subst text. cbn in Ev |- *.
      destruct (appendASCIIString kv.1); cbn in Ev |- *; [|done].
      destruct (appendCanonical kv.2) as [x|]; cbn in Ev; [|done]. by rewrite (Hx x). }
    assert (Hm : forallb (fun kv => isASCII kv.1) (map (fun kv => (kv.1, as_parsed kv.2)) m) =
      forallb (fun kv => isASCII kv.1) m).
    { clear. induction m as [|kv m IH]; [done|]. cbn [map forallb fst]. by rewrite IH. }
    rewrite Hm, Ha, E. done.
  - by intros [_ H]%reject_ok.
Qed.

Lemma jcs_parsed_same a b t :
  Canonicalize a = Ok t -> Canonicalize b = Ok t -> well_formed a -> well_formed b -> as_parsed a = as_parsed b.
Proof.
  intros Ha Hb Hwa Hwb.
  pose proof (parse_canonical true any_number (fun _ _ _ => eq_refl) a t Ha Hwa) as Ea.
  pose proof (parse_canonical true any_number (fun _ _ _ => eq_refl) b t Hb Hwb) as Eb. congruence.
Qed.

(** ** What the parser makes *)

(** A value made of parsed members only, its objects sorted by name. *)
Fixpoint wire (v : json) : Prop :=
  match v with
  | JArray l => foldr (fun x P => wire x /\ P) True l
  | JObject m => sorted_names m /\ foldr (fun kv P => wire kv.2 /\ P) True m
  | JInt _ | JUint _ | JFloat | JOther => False
  | _ => True
  end.

Lemma wire_array l : wire (JArray l) <-> Forall wire l.
Proof. apply foldr_and. Qed.

Lemma wire_object m : wire (JObject m) <-> sorted_names m /\ Forall (fun kv => wire kv.2) m.
Proof. cbn [wire]. by rewrite (foldr_and (fun kv : bytes * json => wire kv.2)). Qed.

Lemma wire_well_formed v : wire v -> well_formed v /\ as_parsed v = v.
Proof.
  induction v as [|b|raw|s|l IH|m IH|z|z| |] using json_rect_nested; try done.
  - rewrite wire_array. intros Hl. cbn [well_formed as_parsed]. rewrite foldr_and.
    rewrite !Forall_forall in *. split; [naive_solver|]. f_equal.
    rewrite <- (map_id l) at 2. apply map_ext_in. intros x Hx%list_elem_of_In. naive_solver.
  - rewrite wire_object. intros [Hs Hm]. cbn [well_formed as_parsed].
    rewrite (foldr_and (fun kv : bytes * json => well_formed kv.2)).
    rewrite !Forall_forall in *. split; [naive_solver|]. f_equal.
    rewrite <- (map_id m) at 2. apply map_ext_in. intros [k x] Hx%list_elem_of_In. cbn [fst snd]. f_equal.
    apply (IH (k, x)); [done|]. by apply (Hm (k, x)).
Qed.

Lemma Forall_put (P : bytes * json -> Prop) k v m : P (k, v) -> Forall P m -> Forall P (put k v m).
Proof.
  intros Hk Hm. induction Hm as [|[k' v'] m Hx Hm IH]; cbn [put]; [by repeat constructor|].
  destruct (beq k k'); [by constructor|]. destruct (bytes_lt k k'); repeat (constructor; try done).
Qed.

Lemma put_sorted k v m : sorted_names m -> sorted_names (put k v m).
Proof.
  unfold sorted_names. induction m as [|[k' v'] m IH]; cbn [put map fst]; intros Hs; [repeat constructor|].
  apply StronglySorted_inv in Hs as [Hs Hx].
  destruct (beq k k') eqn:E; [apply beq_true in E as ->; by constructor|].
  destruct (bytes_lt k k') eqn:E'; cbn [map fst].
  - constructor; [by constructor|]. constructor; [done|].
    eapply Forall_impl; [exact Hx|]. intros a Ha. by eapply bytes_lt_trans.
  - constructor; [by apply IH|]. apply Forall_map. apply Forall_map in Hx.
    apply (Forall_put (fun kv => bytes_lt k' kv.1 = true)); [|done]. cbn.
    destruct (bytes_lt k' k) eqn:E2; [done|]. apply beq_false in E. by destruct E; apply bytes_lt_total.
Qed.

(** The equations of the two loops. *)
Lemma parse_elements_S strict check fuel acc s :
  parse_elements strict check (S fuel) acc s =
  ('(v, r) ← parse_value strict check fuel s;
   match next_is x2c (skip_space r), next_is x5d (skip_space r) with
   | Some r', _ => parse_elements strict check fuel (acc ++ [v]) r'
   | None, Some r' => Ok (JArray (acc ++ [v]), r')
   | None, None => Err ErrSyntax
   end).
Proof. reflexivity. Qed.

Lemma parse_members_S strict check fuel acc s :
  parse_members strict check (S fuel) acc s =
  match next_is x22 (skip_space s) with
  | None => Err ErrSyntax
  | Some r =>
      '(name, r) ← or_err ErrSyntax (string_body r);
      reject strict && bool_decide (is_Some (get acc name)) with ErrDuplicateKey;;
      match next_is x3a (skip_space r) with
      | None => Err ErrSyntax
      | Some r =>
          '(v, r) ← parse_value strict check fuel r;
          match next_is x2c (skip_space r), next_is x7d (skip_space r) with
          | Some r', _ => parse_members strict check fuel (put name v acc) r'
          | None, Some r' => Ok (JObject (put name v acc), r')
          | None, None => Err ErrSyntax
          end
      end
  end.
Proof. reflexivity. Qed.

Section ParserMakes.
Context (strict : bool) (check check' : bytes -> option json_error).
Hypothesis Hweaker : forall n, check n = None -> check' n = None.

Lemma parse_scalar_makes c r x : parse_scalar check c r = Ok x ->
  wire x.1 /\ parse_scalar check' c r = Ok x.
Proof.
  unfold parse_scalar, literal. intros H. repeat destruct (bool_decide _).
  - destruct (string_body r) as [[b r']|]; [|done]. cbn in *. by injection H as <-.
  - destruct (has_prefix _ _); [|done]. by injection H as <-.
  - destruct (has_prefix _ _); [|done]. by injection H as <-.
  - destruct (has_prefix _ _); [|done]. by injection H as <-.
  - destruct (number (c :: r)) as [[n r']|]; [|done]. cbn in *.
    destruct (check n) eqn:En; [done|]. rewrite (Hweaker n En). by injection H as <-.
Qed.

(** A parser that refuses less gives the same value, and the value is a wire value. *)
Lemma parse_makes fuel :
  (forall s x, parse_value strict check fuel s = Ok x -> wire x.1 /\ parse_value strict check' fuel s = Ok x) /\
  (forall acc s x, Forall wire acc -> parse_elements strict check fuel acc s = Ok x ->
     wire x.1 /\ parse_elements strict check' fuel acc s = Ok x) /\
  (forall acc s x, wire (JObject acc) -> parse_members strict check fuel acc s = Ok x ->
     wire x.1 /\ parse_members strict check' fuel acc s = Ok x).
Proof.
  induction fuel as [|fuel (IHv & IHe & IHm)]; [done|]. split_and!.
  - intros s x. cbn [parse_value]. destruct (skip_space s) as [|c r]; [done|].
    destruct (bool_decide _); [|destruct (bool_decide _)].
    + destruct (next_is _ _); [intros [= <-]; split; [by repeat constructor|done]|].
      apply IHm. by repeat constructor.
    + destruct (next_is _ _); [by intros [= <-]|]. apply IHe. constructor.
    + apply parse_scalar_makes.
  - intros acc s x Hacc. rewrite !parse_elements_S. intros ([v r] & Ev & H)%bind_ok.
    apply IHv in Ev as [Hv Ev]. rewrite Ev. cbn [mbind result_bind]. cbn beta iota zeta in H |- *. cbn [fst] in Hv.
    assert (Forall wire (acc ++ [v])) by (apply Forall_app; by repeat constructor).
    destruct (next_is x2c _); [by apply IHe|]. destruct (next_is x5d _); [|done].
    injection H as <-. split; [by apply wire_array|done].
  - intros acc s x Hacc. rewrite !parse_members_S. destruct (next_is x22 _) as [r|]; [|done].
    intros ([name r1] & En & H)%bind_ok. rewrite En. cbn [mbind result_bind]. cbn beta iota in H |- *.
    destruct (strict && _); [done|]. destruct (next_is x3a _) as [r2|]; [|done].
    apply bind_ok in H as ([v r3] & Ev & H). apply IHv in Ev as [Hv Ev]. rewrite Ev.
    cbn [mbind result_bind]. cbn beta iota zeta in H |- *. cbn [fst] in Hv.
    assert (wire (JObject (put name v acc))).
    { apply wire_object. apply wire_object in Hacc as [Hs Hacc]. split; [by apply put_sorted|by apply Forall_put]. }
    destruct (next_is x2c _); [by apply IHm|]. destruct (next_is x7d _); [|done].
    by injection H as <-.
Qed.

End ParserMakes.

Lemma ParseStrictJSON_wire raw v : ParseStrictJSON raw = Ok v -> wire v.
Proof.
  unfold ParseStrictJSON, parse_text. destruct (negb _); [done|].
  destruct (parse_value _ _ _ raw) as [[w r]|] eqn:E; [|done]. cbn.
  apply (proj1 (parse_makes true any_number any_number (fun _ H => H) _)) in E as [Hw _].
  destruct (skip_space r); [|done]. by intros [= <-].
Qed.

(** ** Claims *)

(** C37: reading the canonical form of a value gives that value back (with its integers in
    their decimal spelling), and the value read has the same canonical form. *)
Theorem jcs_roundtrip (v : json) (t : bytes) (Ht : Canonicalize v = Ok t) (Hw : well_formed v) :
  ParseStrictJSON t = Ok (as_parsed v) /\ Canonicalize (as_parsed v) = Ok t.
Proof.
  split; [|by apply as_parsed_canonical]. unfold ParseStrictJSON.
  rewrite (ascii_valid t) by (by apply (canonical_ascii v)). by apply parse_canonical.
Qed.

(** the canonical form determines the value: two values with the same canonical form
    read as the same value, member by member, so a signature over the canonical form covers
    every member and nothing else. *)
Theorem jcs_injective (a b : json) (t : bytes) (Ha : Canonicalize a = Ok t) (Hb : Canonicalize b = Ok t)
    (Hwa : well_formed a) (Hwb : well_formed b) : as_parsed a = as_parsed b.
Proof. by apply (jcs_parsed_same a b t). Qed.

(** The strict parser always ends with a value or an error of the input: its recursion
    never outruns the bound that stands for the decoder's loop. *)
Theorem strict_json_terminates (raw : bytes) : ParseStrictJSON raw <> Err ErrOutOfFuel.
Proof. unfold ParseStrictJSON. destruct (negb (utf8_valid raw)); [done|]. by apply parse_text_total. Qed.

(** ** A sample *)

Definition sample_object : json :=
  JObject [(str "a", JArray [JInt 1; JNull; JBool true]); (str "b", JString (str "x\y" ++ [x0a]));
           (str "c", JObject [(str "n", JUint 9007199254740991)])].

Definition sample_text : bytes :=
  str "{" ++ [x22] ++ str "a" ++ [x22] ++ str ":[1,null,true]," ++ [x22] ++ str "b" ++ [x22] ++ str ":" ++
  [x22] ++ str "x\\y\n" ++ [x22] ++ str "," ++ [x22] ++ str "c" ++ [x22] ++ str ":{" ++ [x22] ++ str "n" ++
  [x22] ++ str ":9007199254740991}}".

Example sample_canonical : Canonicalize sample_object = Ok sample_text.
Proof. vm_compute. reflexivity. Qed.

Example duplicate_refused :
  ParseStrictJSON (str "{" ++ jstring (str "a") ++ str ":1," ++ jstring (str "a") ++ str ":2}") = Err ErrDuplicateKey.
Proof. vm_compute. reflexivity. Qed.

Lemma sample_well_formed : well_formed sample_object.
Proof.
  assert (Hs : forall m, (fix sorted (l : list bytes) : bool := match l with
      | [] => true | a :: l => forallb (bytes_lt a) l && sorted l end) (map fst m) = true -> sorted_names m).
  { unfold sorted_names. intros m. generalize (map fst m). induction l as [|a l IH]; intros H; [constructor|].
    apply andb_true_iff in H as [Ha H]. constructor; [by apply IH|]. apply Forall_forall.
    intros x Hx. rewrite forallb_forall in Ha. apply Ha. by apply list_elem_of_In. }
  repeat split; try (apply Hs; vm_compute; reflexivity); cbn; lia.
Qed.

Lemma jcs_roundtrip_witness :
  ParseStrictJSON sample_text = Ok (as_parsed sample_object) /\ Canonicalize (as_parsed sample_object) = Ok sample_text.
Proof. exact (jcs_roundtrip sample_object sample_text sample_canonical sample_well_formed). Defined.

Lemma jcs_injective_witness : as_parsed sample_object = as_parsed (as_parsed sample_object).
Proof.
  apply (jcs_injective sample_object (as_parsed sample_object) sample_text sample_canonical).
  - exact (as_parsed_canonical _ _ sample_canonical).
  - exact sample_well_formed.
  - repeat split; try exact (proj1 sample_well_formed); vm_compute; repeat constructor.
Defined.
