(* ===== verification/A9Schema.v ===== *)
(** * The closed schemas of A9 objects

    src/pkg/a9schema: the strict parser (strictjson.go) and the validation of assertions,
    controls, keysets, results, subscription replacements and watermarks (validate.go). A
    failure is its reason; its terminal is always INVALID, and its path, which only the
    error text shows, is not modelled. *)

From S2P Require Import Prelude GoBytes GoTime GoJson JsonText Jcs.
Local Open Scope Z_scope.
Local Open Scope go_scope.

(** ** Failures *)

Inductive Reason :=
| ReasonFieldDomain | ReasonDuplicateKey | ReasonUnknownFieldRawRosterForbidden
| ReasonNoncanonicalBase64URL | ReasonNoncanonicalTime | ReasonNonIJSONNumber
| ReasonIntegerRange | ReasonWrongAudience | ReasonWelcomeClosed | ReasonTopicResolver
| ReasonDuplicateSubscription.

#[export] Instance reason_eq_dec : EqDecision Reason.
Proof. solve_decision. Defined.

Inductive Kind :=
| AssertionKind | ControlEventKind | KeysetKind | ResultKind | SubscriptionsReplaceKind
| WatermarkKind.

(** ** The strict parser *)

Definition maxSafeInteger : Z := 9007199254740991.

Definition validateJSONNumber (value : bytes) : option json_error :=
  let digits := trim_prefix value [x2d] in
  bail beq value [] || beq value (str "-0") with Some ErrNumberSpelling;;
  bail has_prefix value [x2d] && beq digits [] with Some ErrNumberSpelling;;
  bail starts_with_zero digits && negb (length digits =? 1)%nat with Some ErrNumberSpelling;;
  bail negb (forallb is_digit digits) with Some ErrNumberSpelling;;
  match parse_int64 value with
  | None => Some ErrNumberRange
  | Some integer =>
      if (integer <? - maxSafeInteger) || (maxSafeInteger <? integer) then Some ErrNumberRange else None
  end.

(** The escape after a backslash, as [consumeJSONEscape] measures it: how much follows, or
    [None] for a malformed escape or an unpaired surrogate. *)
Definition consumeJSONEscape (s : bytes) : option bytes :=
  match s with
  | [] => None
  | e :: r =>
      if bool_decide (e = x75) then
        match r with
        | a :: b :: c :: d :: r1 =>
            u ← hex_quad a b c d;
            if between 55296 u 56319 then
              match r1 with
              | q :: t :: a' :: b' :: c' :: d' :: r2 =>
                  if bool_decide (q = x5c) && bool_decide (t = x75) then
                    lo ← hex_quad a' b' c' d';
                    if between 56320 lo 57343 then Some r2 else None
                  else None
              | _ => None
              end
            else if between 56320 u 57343 then None else Some r1
        | _ => None
        end
      else if bool_decide (is_Some (simple_escape e)) then Some r else None
  end.

(** [validateJSONStringEncoding], given [true] inside a string. The text is valid UTF-8, so
    skipping a rune is skipping bytes above 127. *)
Fixpoint string_encoding (fuel : nat) (inside : bool) (s : bytes) : bool :=
  match fuel with
  | O => false
  | S fuel =>
      match s with
      | [] => negb inside
      | c :: r =>
          if bool_decide (c = x22) then string_encoding fuel (negb inside) r
          else if negb inside then string_encoding fuel false r
          else if bool_decide (c = x5c) then
            match consumeJSONEscape r with
            | Some r' => string_encoding fuel true r'
            | None => false
            end
          else if b2z c <? 32 then false else string_encoding fuel true r
      end
  end.

Definition validateJSONStringEncoding (raw : bytes) : bool :=
  string_encoding (length raw + 1) false raw.

Definition parse_reason (e : json_error) : Reason :=
  match e with
  | ErrDuplicateKey => ReasonDuplicateKey
  | ErrNumberSpelling => ReasonNonIJSONNumber
  | ErrNumberRange => ReasonIntegerRange
  | ErrSyntax | ErrOutOfFuel => ReasonFieldDomain
  end.

(** The next value of the text, and what follows it. *)
Definition decodeValue (raw : bytes) : parsed json :=
  parse_value true validateJSONNumber (2 * length raw + 1)%nat raw.

Definition Parse (raw : bytes) : result Reason json :=
  reject has_prefix raw [xef; xbb; xbf] with ReasonFieldDomain;;
  reject negb (utf8_valid raw) with ReasonFieldDomain;;
  reject negb (validateJSONStringEncoding raw) with ReasonFieldDomain;;
  match decodeValue raw with
  | Err e => Err (parse_reason e)
  | Ok (value, rest) => reject negb (beq rest []) with ReasonFieldDomain;; Ok value
  end.

(** The reason as the published vocabulary spells it. *)
Definition reason_text (r : Reason) : string :=
  match r with
  | ReasonFieldDomain => "FIELD_DOMAIN"
  | ReasonDuplicateKey => "DUPLICATE_KEY"
  | ReasonUnknownFieldRawRosterForbidden => "UNKNOWN_FIELD_RAW_ROSTER_FORBIDDEN"
  | ReasonNoncanonicalBase64URL => "NONCANONICAL_BASE64URL"
  | ReasonNoncanonicalTime => "NONCANONICAL_TIME"
  | ReasonNonIJSONNumber => "NON_IJSON_NUMBER"
  | ReasonIntegerRange => "INTEGER_RANGE"
  | ReasonWrongAudience => "WRONG_AUDIENCE"
  | ReasonWelcomeClosed => "WELCOME_CLOSED"
  | ReasonTopicResolver => "TOPIC_RESOLVER"
  | ReasonDuplicateSubscription => "DUPLICATE_SUBSCRIPTION"
  end.

Definition KindForProtocol (protocol : bytes) : option Kind :=
  if beq protocol (str "hytch.a9-bridge-assertion") then Some AssertionKind
  else if beq protocol (str "hytch.a9-bridge-control") then Some ControlEventKind
  else if beq protocol (str "hytch.a9-bridge-keyset") then Some KeysetKind
  else if beq protocol (str "hytch.a9-vault-cas-result") then Some ResultKind
  else if beq protocol (str "hytch.a9-subscription-replace") then Some SubscriptionsReplaceKind
  else if beq protocol (str "hytch.a9-control-watermark") then Some WatermarkKind
  else None.

(** ** Fields *)

(** [object\[field\]]: nil when the member is absent. *)
Definition field (object : list (bytes * json)) (name : string) : json :=
  match get object (str name) with Some v => v | None => JNull end.

Definition is_null (v : json) : bool := match v with JNull => true | _ => false end.

Abbreviation checked_value A := (result Reason A).

Definition stringField (object : list (bytes * json)) (name : string) : checked_value bytes :=
  match field object name with JString s => Ok s | _ => Err ReasonFieldDomain end.

Definition fixedString (object : list (bytes * json)) (name expected : string) (reason : Reason)
  : checked_value unit :=
  value ← stringField object name;
  reject negb (beq value (str expected)) with reason;; Ok tt.

Definition enumStringField (object : list (bytes * json)) (name : string) (allowed : list string)
  : checked_value bytes :=
  value ← stringField object name;
  reject negb (existsb (fun candidate => beq value (str candidate)) allowed) with ReasonFieldDomain;;
  Ok value.

Definition integerField (object : list (bytes * json)) (name : string) (minimum maximum : Z)
  : checked_value Z :=
  match field object name with
  | JNumber number =>
      match parse_int64 number with
      | Some value =>
          reject (value <? minimum) || (maximum <? value) with ReasonIntegerRange;; Ok value
      | None => Err ReasonIntegerRange
      end
  | _ => Err ReasonFieldDomain
  end.

Definition fixedInteger (object : list (bytes * json)) (name : string) (expected : Z) : checked_value unit :=
  value ← integerField object name expected expected;
  reject negb (value =? expected) with ReasonFieldDomain;; Ok tt.

Definition environmentField (object : list (bytes * json)) (name : string) : checked_value unit :=
  _ ← enumStringField object name ["dev"; "production"]%string; Ok tt.

Definition base64URLField (object : list (bytes * json)) (name : string) (byteLength : nat)
    (reason : Reason) : checked_value bytes :=
  value ← stringField object name;
  reject negb (length value =? (byteLength * 8 + 5) / 6)%nat with reason;;
  match b64_decode true value with
  | None => Err reason
  | Some decoded =>
      reject negb (length decoded =? byteLength)%nat || negb (beq (b64_encode decoded) value) with reason;;
      Ok decoded
  end.

Definition boundedBase64URLField (object : list (bytes * json)) (name : string) : checked_value bytes :=
  value ← stringField object name;
  reject (length value <? 2)%nat || (4096 <? length value)%nat with ReasonNoncanonicalBase64URL;;
  match b64_decode true value with
  | None => Err ReasonNoncanonicalBase64URL
  | Some decoded =>
      reject negb (beq (b64_encode decoded) value) with ReasonNoncanonicalBase64URL;; Ok decoded
  end.

(** Whether byte [index] of a UUID text is right. *)
Definition uuid_byte (index : nat) (c : byte) : bool :=
  if existsb (Nat.eqb index) [8; 13; 18; 23]%nat then bool_decide (c = x2d) else is_lower_hex c.

Fixpoint uuid_bytes (index : nat) (value : bytes) : bool :=
  match value with
  | [] => true
  | c :: r => uuid_byte index c && uuid_bytes (S index) r
  end.

Definition uuidField (object : list (bytes * json)) (name : string) : checked_value unit :=
  value ← stringField object name;
  reject negb (length value =? 36)%nat with ReasonFieldDomain;;
  reject negb (uuid_bytes 0 value) with ReasonFieldDomain;; Ok tt.

Definition timestampField (object : list (bytes * json)) (name : string) : checked_value unit :=
  value ← stringField object name;
  reject negb (length value =? 24)%nat with ReasonNoncanonicalTime;;
  match parse_wire value with
  | None => Err ReasonNoncanonicalTime
  | Some parsed => reject negb (beq (format_wire parsed) value) with ReasonNoncanonicalTime;; Ok tt
  end.

Definition keyIDField (object : list (bytes * json)) (name prefix : string) : checked_value unit :=
  value ← stringField object name;
  reject negb (length value =? length (str prefix) + 64)%nat || negb (has_prefix value (str prefix))
    with ReasonFieldDomain;;
  reject negb (forallb is_lower_hex (drop (length (str prefix)) value)) with ReasonFieldDomain;; Ok tt.

Definition lowerHexField (object : list (bytes * json)) (name : string) (size : nat) (reason : Reason)
  : checked_value unit :=
  value ← stringField object name;
  reject negb (length value =? size)%nat with reason;;
  reject negb (forallb is_lower_hex value) with reason;; Ok tt.

Definition arrayField (object : list (bytes * json)) (name : string) (minimum maximum : nat)
  : checked_value (list json) :=
  match field object name with
  | JArray value =>
      reject (length value <? minimum)%nat || (maximum <? length value)%nat with ReasonFieldDomain;; Ok value
  | _ => Err ReasonFieldDomain
  end.

(** ** Unique items *)

(** [reflect.DeepEqual] on the values the parser makes. *)
Fixpoint deep_equal (v w : json) : bool :=
  match v, w with
  | JNull, JNull => true
  | JBool a, JBool b => Bool.eqb a b
  | JNumber a, JNumber b => beq a b
  | JString a, JString b => beq a b
  | JArray l, JArray k =>
      (fix go l k := match l, k with
       | [], [] => true
       | x :: l, y :: k => deep_equal x y && go l k
       | _, _ => false
       end) l k
  | JObject l, JObject k =>
      (fix go l k := match l, k with
       | [], [] => true
       | (n, x) :: l, (n', y) :: k => beq n n' && deep_equal x y && go l k
       | _, _ => false
       end) l k
  | _, _ => false
  end.

Fixpoint uniqueItems (seen values : list json) (reason : Reason) : checked_value unit :=
  match values with
  | [] => Ok tt
  | v :: values =>
      reject existsb (deep_equal v) seen with reason;; uniqueItems (seen ++ [v]) values reason
  end.

(** A string as [json.Marshal] writes it: ASCII escapes, HTML escapes, and the two line
    separators; the text is valid UTF-8. *)
Fixpoint marshal_string_body (s : bytes) : bytes :=
  match s with
  | [] => []
  | c :: r =>
      match s with
      | xe2 :: x80 :: xa8 :: r' => str "\u2028" ++ marshal_string_body r'
      | xe2 :: x80 :: xa9 :: r' => str "\u2029" ++ marshal_string_body r'
      | _ => escape_byte c ++ marshal_string_body r
      end
  end.

Definition marshal_string (s : bytes) : bytes := [x22] ++ marshal_string_body s ++ [x22].

(** [json.Marshal] on the values the parser makes. *)
Fixpoint marshal_json (v : json) : bytes :=
  match v with
  | JNull => str "null"
  | JBool b => if b then str "true" else str "false"
  | JNumber raw => raw
  | JString s => marshal_string s
  | JArray l => str "[" ++ join (map marshal_json l) ++ str "]"
  | JObject m => str "{" ++ join (map (fun kv => marshal_string kv.1 ++ str ":" ++ marshal_json kv.2) m) ++ str "}"
  | JInt z | JUint z => format_uint z
  | JFloat | JOther => []
  end.

Fixpoint uniqueCanonicalItems (seen : list bytes) (values : list json) (reason : Reason) : checked_value unit :=
  match values with
  | [] => Ok tt
  | v :: values =>
      let key := marshal_json v in
      reject existsb (beq key) seen with reason;; uniqueCanonicalItems (key :: seen) values reason
  end.

(** ** Schemas *)

Definition assertionFields : list string := [
  "protocol"; "schema_version"; "audience"; "purpose"; "environment"; "binding_id";
  "installation_binding_id"; "lease_id"; "binding_version"; "stream_sequence"; "tuple_commitment";
  "tuple_commitment_key_id"; "roster_commitment"; "roster_commitment_key_id"; "topic_binding";
  "topic_key_epoch"; "conversation_generation"; "roster_version"; "state"; "issued_at"; "expires_at";
  "signing_key_id"; "signature_algorithm"; "signature_base64url"]%string.

Definition controlFields : list string := [
  "protocol"; "schema_version"; "audience"; "environment"; "idempotency_key";
  "installation_binding_id"; "sequencer_epoch"; "stream_sequence"; "expected_previous_sequence";
  "binding_id"; "binding_version"; "expected_binding_version"; "action"; "assertion"; "assertion_hash";
  "reason_code"; "issued_at"; "expires_at"; "signing_key_id"; "signature_algorithm";
  "signature_base64url"]%string.

Definition keysetFields : list string := [
  "protocol"; "schema_version"; "environment"; "keyset_sequence"; "issued_at"; "expires_at"; "keys";
  "commitment_keys"; "root_signing_key_id"; "root_signature_algorithm"; "root_signature_base64url"]%string.

Definition publicKeyFields : list string := [
  "key_id"; "use"; "public_key_base64url"; "not_before"; "not_after"; "state"]%string.

Definition commitmentKeyFields : list string := [
  "purpose"; "key_id"; "topic_key_epoch"; "not_before"; "not_after"]%string.

Definition resultFields : list string := [
  "protocol"; "schema_version"; "environment"; "installation_binding_id"; "sequencer_epoch";
  "subscription_generation"; "state"; "outcome"; "accepted_stream_sequence"; "idempotent_replay"]%string.

Definition subscriptionsReplaceFields : list string := [
  "protocol"; "schema_version"; "environment"; "installation_binding_id"; "sequencer_epoch";
  "subscription_generation"; "expected_subscription_generation"; "idempotency_key";
  "legacy_installation_id"; "account_incarnation_id"; "apns_token_base64url"; "payload_schema";
  "policy_control_base64url"; "subscriptions"]%string.

Definition subscriptionFields : list string := [
  "binding_id"; "binding_version"; "assertion_hash"; "topic_binding"; "topic_key_epoch";
  "route_key_epoch"; "topic_base64url"; "transport_conversation_id"; "route_key_base64url"; "hmac_keys";
  "receive_capability_base64url"]%string.

Definition hmacKeyFields : list string := ["thirty_day_periods_since_epoch"; "key_base64url"]%string.

Definition watermarkFields : list string := [
  "protocol"; "schema_version"; "audience"; "environment"; "installation_binding_id"; "sequencer_epoch";
  "watermark_sequence"; "committed_through_stream_sequence"; "status"; "uncertainty_reason"; "issued_at";
  "expires_at"; "signing_key_id"; "signature_algorithm"; "signature_base64url"]%string.

(** The order in which [range] visits a map, which Go leaves open. *)
Class MapRange := { map_range : list (bytes * json) -> list (bytes * json) }.
Class MapRangeLaws `{MapRange} : Prop := { map_range_perm m : Permutation (map_range m) m }.

(** Runs a check for each element, stopping at the first that fails. *)
Fixpoint for_each {A : Type} (l : list A) (check : A -> checked_value unit) : checked_value unit :=
  match l with
  | [] => Ok tt
  | x :: l => _ ← check x; for_each l check
  end.

Definition count_of {A : Type} (p : A -> bool) (l : list A) : nat := length (List.filter p l).

Section Schemas.
Context `{MapRange}.

Definition closedObject (value : json) (required : list string) : checked_value (list (bytes * json)) :=
  match value with
  | JObject object =>
      _ ← for_each (map_range object) (fun kv =>
            if existsb (fun name => beq kv.1 (str name)) required then Ok tt
            else if beq kv.1 (str "roster_digest") then Err ReasonUnknownFieldRawRosterForbidden
            else Err ReasonFieldDomain);
      _ ← for_each required (fun name =>
            if bool_decide (is_Some (get object (str name))) then Ok tt else Err ReasonFieldDomain);
      Ok object
  | _ => Err ReasonFieldDomain
  end.

Definition base64URLFields (object : list (bytes * json)) (names : list string) (size : nat) : checked_value unit :=
  for_each names (fun name => _ ← base64URLField object name size ReasonNoncanonicalBase64URL; Ok tt).

Definition integerFields (object : list (bytes * json)) (names : list string) (minimum maximum : Z)
  : checked_value unit := for_each names (fun name => _ ← integerField object name minimum maximum; Ok tt).

Definition timestampFields (object : list (bytes * json)) : checked_value unit :=
  for_each ["issued_at"; "expires_at"]%string (timestampField object).

(** The last three members of every signed object. *)
Definition signatureFields (object : list (bytes * json)) (key algorithm signature : string) : checked_value unit :=
  _ ← keyIDField object key "ed25519-sha256:";
  _ ← fixedString object algorithm "Ed25519" ReasonFieldDomain;
  _ ← base64URLField object signature 64 ReasonNoncanonicalBase64URL; Ok tt.

Definition purposeField (object : list (bytes * json)) : checked_value unit :=
  purpose ← stringField object "purpose";
  if beq purpose (str "conversation_message_push") then Ok tt
  else if contains (to_lower purpose) (str "welcome") then Err ReasonWelcomeClosed else Err ReasonFieldDomain.

Definition validateAssertion (value : json) : checked_value unit :=
  object ← closedObject value assertionFields;
  _ ← fixedString object "protocol" "hytch.a9-bridge-assertion" ReasonFieldDomain;
  _ ← fixedInteger object "schema_version" 1;
  _ ← fixedString object "audience" "hytch.xmtp-push-bridge.a9-control" ReasonWrongAudience;
  _ ← purposeField object;
  _ ← environmentField object "environment";
  _ ← base64URLFields object ["binding_id"; "installation_binding_id"; "lease_id"]%string 16;
  _ ← integerFields object ["binding_version"; "stream_sequence"]%string 1 maxSafeInteger;
  _ ← base64URLFields object ["tuple_commitment"; "roster_commitment"; "topic_binding"]%string 32;
  _ ← keyIDField object "tuple_commitment_key_id" "hmac-sha256:";
  _ ← keyIDField object "roster_commitment_key_id" "hmac-sha256:";
  _ ← integerField object "topic_key_epoch" 1 4294967295;
  _ ← integerFields object ["conversation_generation"; "roster_version"]%string 1 2147483647;
  _ ← fixedString object "state" "ACTIVE" ReasonFieldDomain;
  _ ← timestampFields object;
  signatureFields object "signing_key_id" "signature_algorithm" "signature_base64url".

Definition controlReasonCodes : list string := ["authority_revoked"; "authority_expired"; "authority_replaced"]%string.

(** What the action of a control says about its assertion and reason. *)
Definition actionFields (object : list (bytes * json)) (action : bytes) : checked_value unit :=
  if beq action (str "UPSERT") then
    reject is_null (field object "assertion") with ReasonFieldDomain;;
    _ ← validateAssertion (field object "assertion");
    reject negb (is_null (field object "reason_code")) with ReasonFieldDomain;; Ok tt
  else
    reject negb (is_null (field object "assertion")) with ReasonFieldDomain;;
    _ ← enumStringField object "reason_code" controlReasonCodes; Ok tt.

Definition validateControl (value : json) : checked_value unit :=
  object ← closedObject value controlFields;
  _ ← fixedString object "protocol" "hytch.a9-bridge-control" ReasonFieldDomain;
  _ ← fixedInteger object "schema_version" 1;
  _ ← fixedString object "audience" "hytch.xmtp-push-bridge.a9-control" ReasonWrongAudience;
  _ ← environmentField object "environment";
  _ ← uuidField object "idempotency_key";
  _ ← base64URLFields object ["installation_binding_id"; "sequencer_epoch"; "binding_id"]%string 16;
  _ ← integerFields object ["stream_sequence"; "binding_version"]%string 1 maxSafeInteger;
  _ ← integerFields object ["expected_previous_sequence"; "expected_binding_version"]%string 0 maxSafeInteger;
  action ← enumStringField object "action" ["UPSERT"; "REVOKE"]%string;
  _ ← base64URLField object "assertion_hash" 32 ReasonNoncanonicalBase64URL;
  _ ← actionFields object action;
  _ ← timestampFields object;
  signatureFields object "signing_key_id" "signature_algorithm" "signature_base64url".

(** One descriptor of a keyset: its use and state. *)
Definition validateOnlineDescriptor (entry : json) : checked_value (bytes * bytes) :=
  key ← closedObject entry publicKeyFields;
  _ ← keyIDField key "key_id" "ed25519-sha256:";
  use ← enumStringField key "use" ["A9_CONTROL"; "SERVICE_AUTH"]%string;
  _ ← base64URLField key "public_key_base64url" 32 ReasonNoncanonicalBase64URL;
  _ ← for_each ["not_before"; "not_after"]%string (timestampField key);
  state ← enumStringField key "state" ["SIGN"; "VERIFY_ONLY"]%string;
  Ok (use, state).

(** One commitment descriptor: its purpose. *)
Definition validateCommitmentDescriptor (entry : json) : checked_value bytes :=
  key ← closedObject entry commitmentKeyFields;
  purpose ← enumStringField key "purpose" ["ROSTER"; "TUPLE"; "TOPIC"]%string;
  _ ← keyIDField key "key_id" "hmac-sha256:";
  _ ← (if beq purpose (str "TOPIC") then _ ← integerField key "topic_key_epoch" 1 4294967295; Ok tt
       else reject negb (is_null (field key "topic_key_epoch")) with ReasonFieldDomain;; Ok tt);
  _ ← for_each ["not_before"; "not_after"]%string (timestampField key);
  Ok purpose.

Definition validateKeyset (value : json) : checked_value unit :=
  object ← closedObject value keysetFields;
  _ ← fixedString object "protocol" "hytch.a9-bridge-keyset" ReasonFieldDomain;
  _ ← fixedInteger object "schema_version" 1;
  _ ← environmentField object "environment";
  _ ← integerField object "keyset_sequence" 1 maxSafeInteger;
  _ ← timestampFields object;
  keys ← arrayField object "keys" 2 4;
  _ ← uniqueItems [] keys ReasonFieldDomain;
  online ← mapM validateOnlineDescriptor keys;
  _ ← for_each ["A9_CONTROL"; "SERVICE_AUTH"]%string (fun use =>
        if (count_of (fun d => beq d.1 (str use) && beq d.2 (str "SIGN")) online =? 1)%nat
        then Ok tt else Err ReasonFieldDomain);
  commitmentKeys ← arrayField object "commitment_keys" 3 6;
  _ ← uniqueItems [] commitmentKeys ReasonFieldDomain;
  purposes ← mapM validateCommitmentDescriptor commitmentKeys;
  _ ← for_each ["ROSTER"; "TUPLE"; "TOPIC"]%string (fun purpose =>
        let count := count_of (fun p => beq p (str purpose)) purposes in
        if (count <? 1)%nat || (2 <? count)%nat then Err ReasonFieldDomain else Ok tt);
  signatureFields object "root_signing_key_id" "root_signature_algorithm" "root_signature_base64url".

Definition validateResult (value : json) : checked_value unit :=
  object ← closedObject value resultFields;
  _ ← fixedString object "protocol" "hytch.a9-vault-cas-result" ReasonFieldDomain;
  _ ← fixedInteger object "schema_version" 1;
  _ ← environmentField object "environment";
  _ ← base64URLFields object ["installation_binding_id"; "sequencer_epoch"]%string 16;
  _ ← integerFields object ["subscription_generation"; "accepted_stream_sequence"]%string 0 maxSafeInteger;
  _ ← enumStringField object "state" ["ACTIVE"; "REVOKED"; "UNCERTAIN"]%string;
  outcome ← enumStringField object "outcome"
              ["APPLIED"; "REPLAY"; "STALE"; "GAP"; "CONFLICT"; "INCONCLUSIVE"]%string;
  match field object "idempotent_replay" with
  | JBool replay => reject negb (Bool.eqb replay (beq outcome (str "REPLAY"))) with ReasonFieldDomain;; Ok tt
  | _ => Err ReasonFieldDomain
  end.

Definition validateHMACKey (entry : json) : checked_value unit :=
  key ← closedObject entry hmacKeyFields;
  _ ← integerField key "thirty_day_periods_since_epoch" 0 2147483647;
  _ ← base64URLField key "key_base64url" 32 ReasonNoncanonicalBase64URL; Ok tt.

Definition topicField (object : list (bytes * json)) : checked_value unit :=
  topicBytes ← base64URLField object "topic_base64url" 33 ReasonTopicResolver;
  match topicBytes with
  | x00 :: _ => Ok tt
  | _ => Err ReasonWelcomeClosed
  end.

Definition validateSubscription (entry : json) : checked_value unit :=
  subscription ← closedObject entry subscriptionFields;
  _ ← base64URLField subscription "binding_id" 16 ReasonNoncanonicalBase64URL;
  _ ← integerField subscription "binding_version" 1 maxSafeInteger;
  _ ← base64URLFields subscription ["assertion_hash"; "topic_binding"; "route_key_base64url"]%string 32;
  _ ← integerFields subscription ["topic_key_epoch"; "route_key_epoch"]%string 1 4294967295;
  _ ← topicField subscription;
  _ ← lowerHexField subscription "transport_conversation_id" 64 ReasonTopicResolver;
  hmacKeys ← arrayField subscription "hmac_keys" 1 3;
  _ ← uniqueItems [] hmacKeys ReasonFieldDomain;
  _ ← for_each hmacKeys validateHMACKey;
  _ ← boundedBase64URLField subscription "receive_capability_base64url"; Ok tt.

Definition validateSubscriptionsReplace (value : json) : checked_value unit :=
  object ← closedObject value subscriptionsReplaceFields;
  _ ← fixedString object "protocol" "hytch.a9-subscription-replace" ReasonFieldDomain;
  _ ← fixedInteger object "schema_version" 1;
  _ ← environmentField object "environment";
  _ ← base64URLFields object ["installation_binding_id"; "sequencer_epoch"]%string 16;
  _ ← integerField object "subscription_generation" 1 maxSafeInteger;
  _ ← integerField object "expected_subscription_generation" 0 maxSafeInteger;
  _ ← uuidField object "idempotency_key";
  _ ← lowerHexField object "legacy_installation_id" 64 ReasonFieldDomain;
  _ ← uuidField object "account_incarnation_id";
  _ ← base64URLField object "apns_token_base64url" 32 ReasonNoncanonicalBase64URL;
  _ ← fixedString object "payload_schema" "hytch_push_wrapper_v1" ReasonFieldDomain;
  _ ← boundedBase64URLField object "policy_control_base64url";
  subscriptions ← arrayField object "subscriptions" 0 2048;
  _ ← uniqueCanonicalItems [] subscriptions ReasonDuplicateSubscription;
  for_each subscriptions validateSubscription.

Definition watermarkReasons : list string := [
  "SOURCE_UNAVAILABLE"; "OUTBOX_GAP"; "REPLICA_AMBIGUITY"; "OVERFLOW"; "CLOCK_UNCERTAIN"]%string.

Definition validateWatermark (value : json) : checked_value unit :=
  object ← closedObject value watermarkFields;
  _ ← fixedString object "protocol" "hytch.a9-control-watermark" ReasonFieldDomain;
  _ ← fixedInteger object "schema_version" 1;
  _ ← fixedString object "audience" "hytch.xmtp-push-bridge.a9-control" ReasonWrongAudience;
  _ ← environmentField object "environment";
  _ ← base64URLFields object ["installation_binding_id"; "sequencer_epoch"]%string 16;
  _ ← integerField object "watermark_sequence" 1 maxSafeInteger;
  _ ← integerField object "committed_through_stream_sequence" 0 maxSafeInteger;
  status ← enumStringField object "status" ["CURRENT"; "UNCERTAIN"]%string;
  _ ← (if beq status (str "CURRENT")
       then fixedString object "uncertainty_reason" "NONE" ReasonFieldDomain
       else _ ← enumStringField object "uncertainty_reason" watermarkReasons; Ok tt);
  _ ← timestampFields object;
  signatureFields object "signing_key_id" "signature_algorithm" "signature_base64url".

Definition Validate (kind : Kind) (value : json) : checked_value unit :=
  match kind with
  | AssertionKind => validateAssertion value
  | ControlEventKind => validateControl value
  | KeysetKind => validateKeyset value
  | ResultKind => validateResult value
  | SubscriptionsReplaceKind => validateSubscriptionsReplace value
  | WatermarkKind => validateWatermark value
  end.

(** [value.(Object)] after [Validate]; another value has failed before. *)
Definition Decode (kind : Kind) (raw : bytes) : checked_value (list (bytes * json)) :=
  value ← Parse raw;
  _ ← Validate kind value;
  match value with JObject object => Ok object | _ => Err ReasonFieldDomain end.

End Schemas.

(** ** The two parsers *)

Lemma escape_length s r : consumeJSONEscape s = Some r -> (length r < length s)%nat.
Proof.
  unfold consumeJSONEscape. intros H. destruct s as [|e s]; [done|].
  destruct (bool_decide (e = x75)).
  - do 4 (destruct s as [|? s]; [done|]). destruct (hex_quad _ _ _ _); [|done]. cbn [mbind option_bind] in H.
    destruct (between 55296 _ 56319).
    + do 6 (destruct s as [|? s]; [done|]). destruct (_ && _) in H; [|done].
      destruct (hex_quad _ _ _ _); [|done]. cbn [mbind option_bind] in H. destruct (between _ _ _); [|done].
      injection H as <-. cbn. lia.
    + destruct (between _ _ _); [done|]. injection H as <-. cbn. lia.
  - destruct (bool_decide _); [|done]. injection H as <-. cbn. lia.
Qed.

(** More fuel than the text has bytes changes nothing. *)
Lemma string_encoding_fuel n m inside s :
  (length s < n)%nat -> (length s < m)%nat -> string_encoding n inside s = string_encoding m inside s.
Proof.
  revert m inside s. induction n as [|n IH]; intros m inside s Hn Hm; [lia|]. destruct m as [|m]; [lia|].
  cbn [string_encoding]. destruct s as [|c r]; [done|]. cbn [length] in *.
  destruct (bool_decide (c = x22)); [apply IH; lia|]. destruct (negb inside); [apply IH; lia|].
  destruct (bool_decide (c = x5c)).
  - destruct (consumeJSONEscape r) as [r'|] eqn:E; [|done]. apply escape_length in E. apply IH; lia.
  - destruct (b2z c <? 32); [done|]. apply IH; lia.
Qed.

(** With enough fuel. *)
Definition encoded (inside : bool) (s : bytes) : bool := string_encoding (length s + 1) inside s.

Lemma encoded_cons inside c r :
  encoded inside (c :: r) =
  if bool_decide (c = x22) then encoded (negb inside) r
  else if negb inside then encoded false r
  else if bool_decide (c = x5c) then
    match consumeJSONEscape r with Some r' => encoded true r' | None => false end
  else if b2z c <? 32 then false else encoded true r.
Proof.
  unfold encoded. cbn [length Nat.add string_encoding].
  destruct (bool_decide (c = x22)); [done|]. destruct (negb inside); [done|].
  destruct (bool_decide (c = x5c)); [|done]. destruct (consumeJSONEscape r) as [r'|] eqn:E; [|done].
  apply escape_length in E. apply string_encoding_fuel; lia.
Qed.

(** A text the check passes over, ending as it began: outside strings. *)
Definition passes (t : bytes) : Prop := forall r, encoded false (t ++ r) = encoded false r.

Lemma passes_nil : passes [].
Proof. done. Qed.

Lemma passes_app a b : passes a -> passes b -> passes (a ++ b).
Proof. intros Ha Hb r. by rewrite <- app_assoc, Ha, Hb. Qed.

Lemma passes_plain t : forallb (fun c => negb (bool_decide (c = x22))) t = true -> passes t.
Proof.
  induction t as [|c t IH]; intros H r; [done|]. cbn [forallb] in H. apply andb_true_iff in H as [Hc H].
  apply negb_true_iff in Hc. cbn [app]. rewrite encoded_cons, Hc. cbn [negb]. by apply IH.
Qed.

Lemma encoded_escape c r : b2z c < 128 -> encoded true (ascii_escape c ++ r) = encoded true r.
Proof.
  intros Hc. pose proof (b2z_range c) as Hr.
  destruct (decide (c = x22)) as [->|H1]; [cbn [ascii_escape app]; by rewrite !encoded_cons|].
  destruct (decide (c = x5c)) as [->|H2]; [cbn [ascii_escape app]; by rewrite !encoded_cons|].
  destruct (b2z c <? 32) eqn:E; boolprop.
  - assert (Hq : exists q, ascii_escape c = x5c :: q /\ consumeJSONEscape (q ++ r) = Some r).
    { clear -E. destruct c; try (exfalso; vm_compute in E; discriminate E); (eexists; split; [reflexivity|]); reflexivity. }
    destruct Hq as (q & -> & Hq). cbn [app]. rewrite encoded_cons. cbn [negb].
    rewrite bool_decide_false, bool_decide_true by done. by rewrite Hq.
  - assert (ascii_escape c = [c]) as ->.
    { clear -E Hc H1 H2. destruct c; try reflexivity; exfalso; first [by apply H1|by apply H2|vm_compute in E; by apply E|vm_compute in Hc; discriminate Hc]. }
    cbn [app]. rewrite encoded_cons. cbn [negb]. rewrite !bool_decide_false by done.
    by rewrite (proj2 (Z.ltb_ge _ _)).
Qed.

Lemma string_passes s t : appendASCIIString s = Ok t -> passes t.
Proof.
  unfold appendASCIIString. intros [Ha [= <-]]%reject_ok r. apply negb_false_iff in Ha.
  cbn [app]. rewrite encoded_cons. cbn [negb]. rewrite bool_decide_true by done.
  rewrite <- app_assoc. cbn [app]. induction s as [|c s IH].
  - cbn [flat_map app]. rewrite encoded_cons. by rewrite bool_decide_true.
  - apply isASCII_cons in Ha as [Hc Ha]. cbn [flat_map]. rewrite <- app_assoc, encoded_escape by done. by apply IH.
Qed.

Lemma digits_pass t : forallb is_digit t = true -> passes t.
Proof. intros H. apply passes_plain. eapply forallb_impl; [|exact H]. intros c Hc. by destruct c. Qed.

Lemma join_passes texts : Forall passes texts -> passes (join texts).
Proof.
  induction 1 as [|t texts Ht _ IH]; [apply passes_nil|]. cbn [join]. apply passes_app; [done|].
  destruct texts; [apply passes_nil|]. apply passes_app; [by apply passes_plain|done].
Qed.

Lemma canonical_passes v : forall t, appendCanonical v = Ok t -> passes t.
Proof.
  induction v as [|b|raw|s|l IH|m IH|z|z| |] using json_rect_nested; intros t; cbn [appendCanonical].
  - intros [= <-]. by apply passes_plain.
  - intros [= <-]. by destruct b; apply passes_plain.
  - intros H. apply canonicalInteger_ok in H. apply digits_pass. naive_solver.
  - apply string_passes.
  - intros (texts & Em & H)%bind_ok. injection H as <-. apply mapM_ok in Em.
    repeat apply passes_app; try by apply passes_plain. apply join_passes.
    clear -IH Em. induction Em; constructor; apply Forall_cons in IH as [Hx IH]; auto.
  - intros [_ H]%reject_ok. apply bind_ok in H as (texts & Em & H). injection H as <-. apply mapM_ok in Em.
    repeat apply passes_app; try by apply passes_plain. apply join_passes.
    clear -IH Em. induction Em as [|kv t m texts Ev Em IH']; constructor; apply Forall_cons in IH as [Hx IH]; [|auto].
    apply bind_ok in Ev as (name & En & Ev). apply bind_ok in Ev as (x & Ex & Ev). assert (t = name ++ str ":" ++ x) as -> by congruence.
    repeat apply passes_app; [by eapply string_passes|by apply passes_plain|by apply Hx].
  - intros [_ H]%reject_ok. apply canonicalInteger_ok in H. apply digits_pass. naive_solver.
  - intros H. apply canonicalInteger_ok in H. apply digits_pass. naive_solver.
  - done.
  - done.
Qed.

(** A canonical integer is one the schema parser takes. *)
Lemma canonical_number raw t : canonicalInteger raw = Ok t -> validateJSONNumber raw = None.
Proof.
  intros H. pose proof (canonicalInteger_ok _ _ H) as (_ & Hd & Hne & Hz).
  unfold canonicalInteger in H. apply reject_ok in H as [H0 H]. apply reject_ok in H as [_ H].
  apply reject_ok in H as [_ H]. destruct (parse_uint64 raw) as [n|] eqn:Ep; [|done].
  apply reject_ok in H as [Hn _]. boolprop. unfold maxIJSONInteger in *.
  destruct raw as [|c raw]; [done|]. cbn [forallb] in Hd. apply andb_true_iff in Hd as [Hc Hd].
  assert (c <> x2d) as Hnm by (by intros ->).
  assert (Htrim : trim_prefix (c :: raw) [x2d] = c :: raw).
  { unfold trim_prefix, has_prefix. by destruct c. }
  unfold validateJSONNumber. rewrite Htrim.
  assert (has_prefix (c :: raw) [x2d] = false) as -> by (by destruct c).
  rewrite (proj2 (beq_false (c :: raw) []) ltac:(done)).
  destruct (beq (c :: raw) (str "-0")) eqn:E0; [apply beq_true in E0; by injection E0 as -> _|]. cbn [orb andb].
  destruct (starts_with_zero (c :: raw)) eqn:Es; cbn [andb].
  { rewrite (Hz eq_refl). done. }
  cbn [forallb]. rewrite Hc, Hd. cbn [andb negb].
  unfold parse_uint64 in Ep. destruct (parse_digits (c :: raw)) as [z|] eqn:Ez; [|done].
  pose proof (parse_digits_nonneg _ _ Ez). destruct (z <? 2 ^ 64) eqn:El; [|done]. injection Ep as ->.
  assert (parse_int64 (c :: raw) = Some n) as ->.
  { assert (Hr : (- 2 ^ 63 <=? n) && (n <? 2 ^ 63) = true) by (by compare_lia).
    unfold parse_int64. clear -Hc Ez Hr. destruct c; try discriminate Hc; cbn beta iota zeta; by rewrite Ez, Hr. }
  unfold maxSafeInteger. by compare_lia.
Qed.

Lemma Parse_canonical v raw : Canonicalize v = Ok raw -> well_formed v -> Parse raw = Ok (as_parsed v).
Proof.
  intros Hc Hw. pose proof (canonical_ascii v raw Hc) as Ha. unfold Parse.
  assert (has_prefix raw [xef; xbb; xbf] = false) as ->.
  { destruct raw as [|c raw]; [done|]. apply isASCII_cons in Ha as [Hc' _]. cbn [has_prefix].
    rewrite bool_decide_false; [done|]. by intros <-. }
  rewrite (ascii_valid raw Ha). cbn [negb].
  pose proof (canonical_passes v raw Hc []) as Hp. rewrite app_nil_r in Hp.
  assert (validateJSONStringEncoding raw = true) as -> by exact Hp. cbn [negb]. unfold decodeValue.
  pose proof (canonical_reads_back true validateJSONNumber canonical_number v raw (2 * length raw + 1)%nat []) as Hr.
  rewrite app_nil_r in Hr. rewrite Hr; [done|done|done|exact I|lia].
Qed.

Lemma Parse_strict raw v : Parse raw = Ok v -> ParseStrictJSON raw = Ok v.
Proof.
  unfold Parse. intros H. apply reject_ok in H as [_ H]. apply reject_ok in H as [Hu H]. apply reject_ok in H as [_ H].
  destruct (decodeValue raw) as [[w rest]|] eqn:E; [|done]. apply reject_ok in H as [Hr [= ->]].
  apply negb_false_iff, beq_true in Hr as ->. unfold decodeValue in E.
  apply (proj1 (parse_makes true validateJSONNumber any_number (fun _ _ => eq_refl) _)) in E as [_ E].
  unfold ParseStrictJSON, parse_text. by rewrite Hu, E.
Qed.

(** C38: on a canonical text the schema parser and the trust parser agree: a text that is the
    canonical form of the value one of them reads is read as the same value by the other. *)
Theorem parsers_agree_on_canonical (raw : bytes) (v : json) (Hc : Canonicalize v = Ok raw) :
  Parse raw = Ok v <-> ParseStrictJSON raw = Ok v.
Proof.
  split; [apply Parse_strict|]. intros [Hw Hp]%ParseStrictJSON_wire%wire_well_formed.
  rewrite <- Hp. by apply Parse_canonical.
Qed.

(** ** The order of map iteration *)

Lemma for_each_ok {A : Type} (l : list A) check u :
  for_each l check = Ok u <-> Forall (fun x => check x = Ok tt) l.
Proof.
  destruct u. induction l as [|x l IH]; cbn [for_each]; [by split; [constructor|]|].
  rewrite Forall_cons, <- IH, bind_ok. split; [intros ([] & ? & ?); done|intros [? ?]; by exists tt].
Qed.

Lemma closedObject_ok `{MapRangeLaws} value required o :
  closedObject value required = Ok o <->
  value = JObject o /\ Forall (fun kv => existsb (fun name => beq kv.1 (str name)) required = true) o /\
  Forall (fun name => is_Some (get o (str name))) required.
Proof.
  unfold closedObject. destruct value as [| | | | |m| | | |]; try (split; [done|by intros [? _]]).
  rewrite bind_ok. setoid_rewrite bind_ok. setoid_rewrite for_each_ok.
  assert (Hm : forall P, Forall P (map_range m) <-> Forall P m).
  { intros P. by rewrite map_range_perm. }
  setoid_rewrite Hm. split.
  - intros (_ & Hk & _ & Hr & [= ->]). split; [done|]. split.
    + eapply Forall_impl; [exact Hk|]. intros kv. cbn. destruct (existsb _ _); [done|]. by destruct (beq _ _).
    + eapply Forall_impl; [exact Hr|]. intros name. cbn. destruct (bool_decide _) eqn:E; [|done]. by boolprop.
  - intros ([= ->] & Hk & Hr). exists tt. split.
    + eapply Forall_impl; [exact Hk|]. intros kv. cbn. by intros ->.
    + exists tt. split; [|done]. eapply Forall_impl; [exact Hr|]. intros name Hn. cbn. by rewrite bool_decide_true.
Qed.

Section Order.
Context (R R' : MapRange) (HR : @MapRangeLaws R) (HR' : @MapRangeLaws R').

Lemma closedObject_order value required o :
  @closedObject R value required = Ok o -> @closedObject R' value required = Ok o.
Proof. by rewrite !closedObject_ok. Qed.

Lemma after_closed {A : Type} value required (k k' : list (bytes * json) -> checked_value A) a :
  (forall o, k o = Ok a -> k' o = Ok a) ->
  (@closedObject R value required ≫= k) = Ok a -> (@closedObject R' value required ≫= k') = Ok a.
Proof. intros Hk. rewrite !bind_ok. intros (o & Ho & H). exists o. split; [by apply closedObject_order|by apply Hk]. Qed.

Lemma bind_mono {A B : Type} (m m' : checked_value A) (k k' : A -> checked_value B) b :
  (forall a, m = Ok a -> m' = Ok a) -> (forall a, k a = Ok b -> k' a = Ok b) ->
  (m ≫= k) = Ok b -> (m' ≫= k') = Ok b.
Proof. intros Hm Hk. rewrite !bind_ok. intros (a & Ha & H). exists a. split; auto. Qed.

Lemma mapM_mono {A B : Type} (f f' : A -> checked_value B) l k :
  (forall x y, f x = Ok y -> f' x = Ok y) -> mapM f l = Ok k -> mapM f' l = Ok k.
Proof. intros Hf. rewrite !mapM_ok. intros H. induction H; constructor; auto. Qed.

Lemma for_each_mono {A : Type} (l : list A) f f' u :
  (forall x, f x = Ok tt -> f' x = Ok tt) -> for_each l f = Ok u -> for_each l f' = Ok u.
Proof. intros Hf. rewrite !for_each_ok. intros H. by eapply Forall_impl. Qed.

Lemma validateAssertion_order v : @validateAssertion R v = Ok tt -> @validateAssertion R' v = Ok tt.
Proof. by apply after_closed. Qed.

Lemma validateControl_order v : @validateControl R v = Ok tt -> @validateControl R' v = Ok tt.
Proof.
  apply after_closed. intros o. do 9 (apply bind_mono; [by intros|intros ?]).
  apply bind_mono; [by intros|intros ?]. apply bind_mono; [|by intros].
  intros []. unfold actionFields. destruct (beq _ _); [|by intros].
  intros [Hn H]%reject_ok. apply reject_ok. split; [done|]. revert H.
  apply bind_mono; [|by intros]. intros []. apply validateAssertion_order.
Qed.

Lemma validateOnlineDescriptor_order v d : @validateOnlineDescriptor R v = Ok d -> @validateOnlineDescriptor R' v = Ok d.
Proof. by apply after_closed. Qed.

Lemma validateCommitmentDescriptor_order v d :
  @validateCommitmentDescriptor R v = Ok d -> @validateCommitmentDescriptor R' v = Ok d.
Proof. by apply after_closed. Qed.

Lemma validateKeyset_order v : @validateKeyset R v = Ok tt -> @validateKeyset R' v = Ok tt.
Proof.
  apply after_closed. intros o. do 7 (apply bind_mono; [by intros|intros ?]).
  apply bind_mono; [intros ?; apply mapM_mono, validateOnlineDescriptor_order|intros ?].
  do 3 (apply bind_mono; [by intros|intros ?]).
  apply bind_mono; [intros ?; apply mapM_mono, validateCommitmentDescriptor_order|by intros].
Qed.

Lemma validateSubscription_order v : @validateSubscription R v = Ok tt -> @validateSubscription R' v = Ok tt.
Proof.
  apply after_closed. intros o. do 8 (apply bind_mono; [by intros|intros ?]).
  apply bind_mono; [|by intros]. intros ?. apply for_each_mono. intros x. by apply after_closed.
Qed.

Lemma validateSubscriptionsReplace_order v :
  @validateSubscriptionsReplace R v = Ok tt -> @validateSubscriptionsReplace R' v = Ok tt.
Proof.
  apply after_closed. intros o. do 14 (apply bind_mono; [by intros|intros ?]).
  apply for_each_mono, validateSubscription_order.
Qed.

Lemma Validate_order kind v : @Validate R kind v = Ok tt -> @Validate R' kind v = Ok tt.
Proof.
  destruct kind; cbn [Validate].
  - apply validateAssertion_order.
  - apply validateControl_order.
  - apply validateKeyset_order.
  - by apply after_closed.
  - apply validateSubscriptionsReplace_order.
  - by apply after_closed.
Qed.

End Order.

Lemma Decode_ok `{MapRange} kind raw o : Decode kind raw = Ok o <->
  Parse raw = Ok (JObject o) /\ Validate kind (JObject o) = Ok tt.
Proof.
  unfold Decode. rewrite bind_ok. setoid_rewrite bind_ok. split.
  - intros (v & Hp & [] & Hv & Ho). destruct v; try done. injection Ho as ->. done.
  - intros [Hp Hv]. exists (JObject o). split; [done|]. by exists tt.
Qed.

(** What is accepted, and as which object, does not depend on the order in which Go
    iterates over maps. *)
Theorem acceptance_is_deterministic (R R' : MapRange) (HR : @MapRangeLaws R) (HR' : @MapRangeLaws R')
    (kind : Kind) (raw : bytes) (o : list (bytes * json)) :
  @Decode R kind raw = Ok o <-> @Decode R' kind raw = Ok o.
Proof.
  assert (H : forall A B, @MapRangeLaws A -> @MapRangeLaws B -> @Decode A kind raw = Ok o -> @Decode B kind raw = Ok o).
  { intros A B HA HB. unfold Decode. apply bind_mono; [done|]. intros v. apply bind_mono; [|done].
    intros []. by apply (Validate_order A B HA HB). }
  split; by apply H.
Qed.

Definition in_order : MapRange := {| map_range m := m |}.
Definition reversed : MapRange := {| map_range m := rev m |}.

#[export] Instance in_order_laws : @MapRangeLaws in_order.
Proof. by constructor. Qed.
#[export] Instance reversed_laws : @MapRangeLaws reversed.
Proof. constructor. intros m. cbn. symmetry. apply Permutation_rev. Qed.

(** The reason of a refusal does depend on it: an object with the forbidden raw roster
    and another unknown member is refused for either, whichever is visited first. *)
Theorem refusal_depends_on_order (kind : Kind) :
  let raw := str "{" ++ jstring (str "a") ++ str ":1," ++ jstring (str "roster_digest") ++ str ":1}" in
  @Decode in_order kind raw = Err ReasonFieldDomain /\
  @Decode reversed kind raw = Err ReasonUnknownFieldRawRosterForbidden.
Proof. by destruct kind; split; vm_compute. Qed.

Lemma parsers_agree_on_canonical_witness :
  Parse sample_text = Ok (as_parsed sample_object) /\
  (Parse sample_text = Ok (as_parsed sample_object) <-> ParseStrictJSON sample_text = Ok (as_parsed sample_object)).
Proof.
  split; [vm_compute; reflexivity|].
  apply (parsers_agree_on_canonical sample_text (as_parsed sample_object)). vm_compute. reflexivity.
Defined.

Lemma acceptance_is_deterministic_witness :
  @Decode in_order ResultKind sample_text = Ok [] <-> @Decode reversed ResultKind sample_text = Ok [].
Proof. exact (acceptance_is_deterministic in_order reversed in_order_laws reversed_laws ResultKind sample_text []). Defined.
