(* ===== verification/Gate8Header.v ===== *)
(** * Gate 8 wrapper header (pkg/gate8wrapper/header.go)

    The authenticated header, its validation, the daily route alias, the HKDF day
    key, the AES-GCM nonce and the canonical JSON used as additional data. *)

From S2P Require Import Prelude GoBytes GoTime GoCrypto GoJson.
Local Open Scope Z_scope.
Local Open Scope go_scope.

Inductive gate8_error :=
| ErrInvalidRouteKey | ErrInvalidTopic | ErrInvalidEnvironment | ErrInvalidDay
| ErrInvalidSequence | ErrInvalidHeader | ErrInvalidCapability | ErrInvalidPayload
| ErrSizeLimit | ErrBudgetRequired | ErrPayloadTooLarge | ErrAuthentication
| ErrRouteMismatch | ErrReplay | ErrReplayState.

#[export] Instance gate8_error_eq_dec : EqDecision gate8_error.
Proof. solve_decision. Defined.

Definition SchemaVersion : Z := 1.
Definition RouteKeySize : nat := 32.
Definition RouteAliasSize : nat := 16.
Definition NoncePrefixSize : nat := 4.
Definition MaxTopicBytes : Z := 4 * 1024.
Definition MaxCanonicalInteger : Z := 2 ^ 53 - 1.

Definition routeAliasDomain : bytes := str "hytch.push.route-alias.v1" ++ [x00].
Definition wrapperSaltDomain : bytes := str "hytch.push.wrapper.salt.v1" ++ [x00].
Definition wrapperInfoDomain : bytes := str "hytch.push.wrapper.aes-gcm.v1" ++ [x00].

Definition EnvironmentDev : bytes := str "dev".
Definition EnvironmentProduction : bytes := str "production".

(** [Header]; arrays are byte sequences whose length [header_typed] fixes. *)
Record Header := {
  hSchemaVersion : Z;
  hEnvironment : bytes;
  hAliasDay : bytes;
  hRouteAlias : bytes;
  hRouteKeyEpoch : Z;
  hNoncePrefix : bytes;
  hDeliverySequence : Z;
}.

#[export] Instance header_eq_dec : EqDecision Header.
Proof. solve_decision. Defined.

(** What Go's static types say of a [Header]. *)
Definition header_typed (h : Header) : Prop :=
  0 <= hSchemaVersion h < 2 ^ 32 /\ length (hRouteAlias h) = RouteAliasSize /\
  0 <= hRouteKeyEpoch h < 2 ^ 32 /\ length (hNoncePrefix h) = NoncePrefixSize /\
  0 <= hDeliverySequence h < 2 ^ 64.

Definition UTCDay (t : Z) : bytes := format_date_only t.

Definition validateEnvironment (environment : bytes) : result gate8_error unit :=
  if beq environment EnvironmentDev || beq environment EnvironmentProduction then Ok tt
  else Err ErrInvalidEnvironment.

Definition validateAliasDay (aliasDay : bytes) : result gate8_error unit :=
  reject negb (length aliasDay =? 10)%nat with ErrInvalidDay;;
  match parse_date_only aliasDay with
  | None => Err ErrInvalidDay
  | Some parsed =>
      reject negb (beq (format_date_only parsed) aliasDay) with ErrInvalidDay;; Ok tt
  end.

Definition validateRouteInputs (routeKey topic environment aliasDay : bytes)
  : result gate8_error unit :=
  reject negb (length routeKey =? RouteKeySize)%nat with ErrInvalidRouteKey;;
  reject (Z.of_nat (length topic) =? 0) || (MaxTopicBytes <? Z.of_nat (length topic))
    with ErrInvalidTopic;;
  _ ← validateEnvironment environment;
  validateAliasDay aliasDay.

(** [Header.validate]: every failure is [ErrInvalidHeader]. *)
Definition header_validate (h : Header) : result gate8_error unit :=
  reject negb (hSchemaVersion h =? SchemaVersion) with ErrInvalidHeader;;
  reject hRouteKeyEpoch h =? 0 with ErrInvalidHeader;;
  reject negb (is_ok (validateEnvironment (hEnvironment h))) with ErrInvalidHeader;;
  reject negb (is_ok (validateAliasDay (hAliasDay h))) with ErrInvalidHeader;;
  reject MaxCanonicalInteger <? hDeliverySequence h with ErrInvalidHeader;;
  Ok tt.

(** The bytes the route-alias HMAC reads. *)
Definition route_alias_input (topic environment aliasDay : bytes) : bytes :=
  routeAliasDomain ++ be 4 (Z.of_nat (length topic)) ++ topic ++ [x00] ++ environment ++
  [x00] ++ aliasDay.

(** The bytes hashed into the HKDF salt, and the HKDF info string. *)
Definition day_key_salt_input (environment aliasDay : bytes) : bytes :=
  wrapperSaltDomain ++ environment ++ [x00] ++ aliasDay.
Definition day_key_info (routeAlias : bytes) (routeKeyEpoch : Z) : bytes :=
  wrapperInfoDomain ++ routeAlias ++ be 4 routeKeyEpoch.

Definition DeriveRouteAlias (routeKey topic environment aliasDay : bytes)
  : result gate8_error bytes :=
  _ ← validateRouteInputs routeKey topic environment aliasDay;
  Ok (take RouteAliasSize (hmac_sha256 routeKey (route_alias_input topic environment aliasDay))).

(** RFC 5869 extract and one expand step, inputs [salt], [routeKey] and [info]. *)
Definition DeriveDayKey (routeKey environment aliasDay routeAlias : bytes) (routeKeyEpoch : Z)
  : result gate8_error bytes :=
  reject negb (length routeKey =? RouteKeySize)%nat with ErrInvalidRouteKey;;
  _ ← validateEnvironment environment;
  _ ← validateAliasDay aliasDay;
  reject routeKeyEpoch =? 0 with ErrInvalidHeader;;
  let salt := sha256 (day_key_salt_input environment aliasDay) in
  let info := day_key_info routeAlias routeKeyEpoch in
  let pseudorandomKey := hmac_sha256 salt routeKey in
  Ok (hmac_sha256 pseudorandomKey (info ++ [x01])).

Definition BuildNonce (noncePrefix : bytes) (deliverySequence : Z) : result gate8_error bytes :=
  reject MaxCanonicalInteger <? deliverySequence with ErrInvalidSequence;;
  Ok (noncePrefix ++ be 8 deliverySequence).

(** The text written by [Header.CanonicalAAD]: no field needs escaping. *)
Definition aad_text (h : Header) : bytes :=
  str "{" ++ member "alias_day" (jstring (hAliasDay h)) ++
  str "," ++ member "delivery_sequence" (format_uint (hDeliverySequence h)) ++
  str "," ++ member "environment" (jstring (hEnvironment h)) ++
  str "," ++ member "nonce_prefix" (jstring (hex_encode (hNoncePrefix h))) ++
  str "," ++ member "route_alias" (jstring (hex_encode (hRouteAlias h))) ++
  str "," ++ member "route_key_epoch" (format_uint (hRouteKeyEpoch h)) ++
  str "," ++ member "schema_version" (format_uint (hSchemaVersion h)) ++ str "}".

Definition CanonicalAAD (h : Header) : result gate8_error bytes :=
  _ ← header_validate h;
  Ok (aad_text h).

(** ** Validation *)

Lemma validateEnvironment_ok e :
  validateEnvironment e = Ok tt <-> e = EnvironmentDev \/ e = EnvironmentProduction.
Proof.
  unfold validateEnvironment. rewrite <- !beq_true, <- orb_true_iff.
  case_goal; split; intros; try done; congruence.
Qed.

Lemma validateEnvironment_err e x : validateEnvironment e = Err x -> x = ErrInvalidEnvironment.
Proof. unfold validateEnvironment. case_goal; congruence. Qed.

(** The spelling of a civil date in the layout YYYY-MM-DD. *)
Definition date_text (y m d : Z) : bytes := pad 4 y ++ [x2d] ++ pad 2 m ++ [x2d] ++ pad 2 d.

Lemma format_date_only_instant y m d :
  0 <= y -> valid_civil y m d = true -> format_date_only (instant y m d 0 0 0 0) = date_text y m d.
Proof. intros. apply format_date_instant; try done; unfold second; lia. Qed.

Lemma validateAliasDay_ok s :
  validateAliasDay s = Ok tt <->
  exists y m d, 0 <= y < 10000 /\ valid_civil y m d = true /\ s = date_text y m d.
Proof.
  unfold validateAliasDay. split.
  - intros H. destruct (negb _) in H; [done|]. destruct (parse_date_only s) eqn:Ep; [|done].
    destruct (negb _) eqn:Ef in H; [done|]. boolprop. apply beq_true in Ef.
    apply parse_date_only_valid in Ep as (y & m & d & Hy & Hv & ->).
    exists y, m, d. split; [done|]. split; [done|].
    rewrite <- Ef. apply format_date_only_instant; [lia|done].
  - intros (y & m & d & Hy & Hv & ->). rewrite <- format_date_only_instant by (try done; lia).
    rewrite parse_format_date_only by done. rewrite beq_refl.
    rewrite format_date_only_instant by (try done; lia).
    unfold date_text. by rewrite length_format_date.
Qed.

Lemma validateAliasDay_err s x : validateAliasDay s = Err x -> x = ErrInvalidDay.
Proof. unfold validateAliasDay. intros H. cases_in H; congruence. Qed.

Definition is_date_byte (b : byte) : bool := is_digit b || bool_decide (b = x2d).

Lemma pad_digits_digits w z : forallb is_digit (pad_digits w z) = true.
Proof.
  revert z. induction w as [|w IH]; intros z; [done|]. simpl.
  rewrite forallb_app, IH. simpl. rewrite is_digit_digit; [done|]. apply Z.mod_pos_bound. lia.
Qed.

Lemma pad_all_digits w z : forallb is_digit (pad w z) = true.
Proof. unfold pad. case_goal; [apply pad_digits_digits|apply format_uint_digits]. Qed.

Lemma aliasDay_bytes s : validateAliasDay s = Ok tt -> forallb is_date_byte s = true.
Proof.
  rewrite validateAliasDay_ok. intros (y & m & d & _ & _ & ->). unfold date_text.
  assert (Hp : forall w z, forallb is_date_byte (pad w z) = true).
  { intros w z. eapply forallb_impl; [|apply pad_all_digits].
    unfold is_date_byte. by intros x ->. }
  by rewrite !forallb_app, !Hp.
Qed.

Lemma aliasDay_length s : validateAliasDay s = Ok tt -> length s = 10%nat.
Proof.
  unfold validateAliasDay. destruct (Nat.eqb_spec (length s) 10); [done|]. done.
Qed.

(** The conditions under which a header is accepted. *)
Lemma header_validate_ok h :
  header_validate h = Ok tt <->
  hSchemaVersion h = SchemaVersion /\ hRouteKeyEpoch h <> 0 /\
  validateEnvironment (hEnvironment h) = Ok tt /\ validateAliasDay (hAliasDay h) = Ok tt /\
  hDeliverySequence h <= MaxCanonicalInteger.
Proof.
  unfold header_validate.
  destruct (Z.eqb_spec (hSchemaVersion h) SchemaVersion); simpl; [|by split; [|intros (? & _)]].
  destruct (Z.eqb_spec (hRouteKeyEpoch h) 0); simpl; [by split; [|intros (_ & ? & _)]|].
  destruct (validateEnvironment _) as [[]|] eqn:E1; simpl; [|by split; [|intros (_ & _ & ? & _)]].
  destruct (validateAliasDay _) as [[]|] eqn:E2; simpl; [|by split; [|intros (_ & _ & _ & ? & _)]].
  destruct (Z.ltb_spec MaxCanonicalInteger (hDeliverySequence h)); split; intros; try done; lia.
Qed.

Lemma header_validate_err h x : header_validate h = Err x -> x = ErrInvalidHeader.
Proof. unfold header_validate. intros H. cases_in H; congruence. Qed.

(** ** Injectivity of the derivation inputs and of the additional data *)

Lemma environment_no_nul e : validateEnvironment e = Ok tt -> forallb (fun b => negb (bool_decide (b = x00))) e = true.
Proof. rewrite validateEnvironment_ok. by intros [-> | ->]. Qed.

Lemma environment_plain e : validateEnvironment e = Ok tt -> forallb no_quote e = true.
Proof. rewrite validateEnvironment_ok. by intros [-> | ->]. Qed.

Lemma date_byte_no_quote b : is_date_byte b = true -> no_quote b = true.
Proof. by destruct b. Qed.

Lemma aliasDay_plain s : validateAliasDay s = Ok tt -> forallb no_quote s = true.
Proof. intros H. eapply forallb_impl; [apply date_byte_no_quote|by apply aliasDay_bytes]. Qed.

Lemma aad_text_inj a b :
  header_typed a -> header_typed b -> header_validate a = Ok tt -> header_validate b = Ok tt ->
  aad_text a = aad_text b -> a = b.
Proof.
  intros (Ts & Tr & Te & Tn & Td) (Ts' & Tr' & Te' & Tn' & Td').
  rewrite !header_validate_ok. intros (Hs & _ & He & Ha & _) (Hs' & _ & He' & Ha' & _) H.
  unfold aad_text in H. apply app_inv_head in H.
  apply member_inj in H as [? H]; try (by apply aliasDay_plain).
  apply app_inv_head in H.
  apply member_uint_inj in H as [? H]; try (try done; lia).
  apply member_inj in H as [? H]; try (by apply environment_plain).
  apply app_inv_head in H.
  apply member_inj in H as [Hp H]; try apply hex_no_quote.
  apply app_inv_head in H.
  apply member_inj in H as [Hr H]; try apply hex_no_quote.
  apply app_inv_head in H.
  apply member_uint_inj in H as [? H]; try (try done; lia).
  apply hex_encode_inj in Hp, Hr.
  destruct a, b; simpl in *; congruence.
Qed.

Lemma route_alias_input_inj t e d t' e' d' :
  Z.of_nat (length t) <= MaxTopicBytes -> Z.of_nat (length t') <= MaxTopicBytes ->
  validateEnvironment e = Ok tt -> validateEnvironment e' = Ok tt ->
  route_alias_input t e d = route_alias_input t' e' d' -> t = t' /\ e = e' /\ d = d'.
Proof.
  unfold route_alias_input, MaxTopicBytes. intros Ht Ht' He He' H.
  apply app_inv_head in H. apply app_inj_length in H as [Hl H]; [|by rewrite !length_be].
  apply be_inj in Hl; [|lia..]. apply app_inj_length in H as [-> H]; [|lia].
  apply app_inv_head in H. apply (app_span_inj (fun b => negb (bool_decide (b = x00)))) in H;
    [destruct H as (-> & _ & ->); done|by apply environment_no_nul..|done|done].
Qed.

Lemma day_key_salt_input_inj e d e' d' :
  validateEnvironment e = Ok tt -> validateEnvironment e' = Ok tt ->
  day_key_salt_input e d = day_key_salt_input e' d' -> e = e' /\ d = d'.
Proof.
  unfold day_key_salt_input. intros He He' H. apply app_inv_head in H.
  apply (app_span_inj (fun b => negb (bool_decide (b = x00)))) in H;
    [destruct H as (-> & _ & ->); done|by apply environment_no_nul..|done|done].
Qed.

Lemma day_key_info_inj r n r' n' :
  length r = length r' -> 0 <= n < 2 ^ 32 -> 0 <= n' < 2 ^ 32 ->
  day_key_info r n = day_key_info r' n' -> r = r' /\ n = n'.
Proof.
  unfold day_key_info. intros Hl Hn Hn' H. apply app_inv_head in H.
  apply app_inj_length in H as [-> H]; [|done]. apply be_inj in H; [done|lia..].
Qed.

Lemma validateRouteInputs_ok k t e d :
  validateRouteInputs k t e d = Ok tt <->
  length k = RouteKeySize /\ t <> [] /\ Z.of_nat (length t) <= MaxTopicBytes /\
  validateEnvironment e = Ok tt /\ validateAliasDay d = Ok tt.
Proof.
  unfold validateRouteInputs.
  destruct (Nat.eqb_spec (length k) RouteKeySize) as [Hk|Hk]; cbn [negb];
    [|by split; [|intros (? & _)]].
  destruct t as [|b t]; [by split; [|intros (_ & ? & _)]|].
  rewrite (proj2 (Z.eqb_neq (Z.of_nat (length (b :: t))) 0)) by (simpl; lia). cbn [orb].
  destruct (Z.ltb_spec MaxTopicBytes (Z.of_nat (length (b :: t))));
    [split; [done|]; intros (_ & _ & Hle & _); lia|].
  destruct (validateEnvironment e) as [[]|]; simpl; [|by split; [|intros (_ & _ & _ & Hv & _)]].
  split; [|by intros (_ & _ & _ & _ & Hv)]. intros Hv. repeat split; done.
Qed.

Lemma BuildNonce_inj p s n p' s' :
  length p = length p' -> 0 <= s -> 0 <= s' ->
  BuildNonce p s = Ok n -> BuildNonce p' s' = Ok n -> p = p' /\ s = s'.
Proof.
  unfold BuildNonce. intros Hl Hs Hs' H H'.
  destruct (Z.ltb_spec MaxCanonicalInteger s) as [|Hm]; [done|].
  destruct (Z.ltb_spec MaxCanonicalInteger s') as [|Hm']; [done|].
  unfold MaxCanonicalInteger in *. assert (Heq : p ++ be 8 s = p' ++ be 8 s') by congruence.
  apply app_inj_length in Heq as [-> Heq]; [|done]. apply be_inj in Heq; [done|lia..].
Qed.

(** ** Properties *)

(** two headers Go's types allow that have the same canonical additional data are the
    same header, and a nonce that [BuildNonce] returns determines the nonce prefix and the
    delivery sequence: a sealed envelope is bound to every header field, and no nonce is
    shared by two positions of the delivery stream. *)
Theorem gate8_header_binding (h h' : Header) (aad nonce : bytes) :
  header_typed h -> header_typed h' ->
  (CanonicalAAD h = Ok aad -> CanonicalAAD h' = Ok aad -> h = h') /\
  (BuildNonce (hNoncePrefix h) (hDeliverySequence h) = Ok nonce ->
   BuildNonce (hNoncePrefix h') (hDeliverySequence h') = Ok nonce ->
   hNoncePrefix h = hNoncePrefix h' /\ hDeliverySequence h = hDeliverySequence h').
Proof.
  intros T T'. split.
  - unfold CanonicalAAD. intros H H'.
    destruct (header_validate h) as [[]|] eqn:E; [|done].
    destruct (header_validate h') as [[]|] eqn:E'; [|done].
    apply aad_text_inj; try done. cbn [mbind result_bind] in H, H'. congruence.
  - destruct T as (_ & _ & _ & Tn & Td), T' as (_ & _ & _ & Tn' & Td').
    apply BuildNonce_inj; [congruence|lia..].
Qed.

(** For accepted inputs the byte strings fed to the route-alias HMAC, to the HKDF salt
    hash and to the HKDF expansion each determine the values they were built from, so no
    two topics, environments, days, aliases or key epochs share a derivation input. *)
Theorem gate8_derivation_inputs_injective (k k' t t' e e' d d' r r' : bytes) (n n' : Z) :
  validateRouteInputs k t e d = Ok tt -> validateRouteInputs k' t' e' d' = Ok tt ->
  length r = RouteAliasSize -> length r' = RouteAliasSize ->
  0 <= n < 2 ^ 32 -> 0 <= n' < 2 ^ 32 ->
  (route_alias_input t e d = route_alias_input t' e' d' -> t = t' /\ e = e' /\ d = d') /\
  (day_key_salt_input e d = day_key_salt_input e' d' -> e = e' /\ d = d') /\
  (day_key_info r n = day_key_info r' n' -> r = r' /\ n = n').
Proof.
  rewrite !validateRouteInputs_ok. intros (_ & _ & Ht & He & _) (_ & _ & Ht' & He' & _) Hr Hr' Hn Hn'.
  split; [by apply route_alias_input_inj|]. split; [by apply day_key_salt_input_inj|].
  apply day_key_info_inj; congruence.
Qed.

(** An alias day is accepted exactly when it spells a civil date of the years 0000 to
    9999 as YYYY-MM-DD, and the route alias and day key are derived exactly for the inputs
    the checks accept: [DeriveRouteAlias] then returns 16 bytes and [DeriveDayKey], for a
    non-zero epoch, 32 bytes. *)
Theorem gate8_derivation_domain (k t e d r : bytes) (n : Z) :
  (validateAliasDay d = Ok tt <->
   exists y m dd, 0 <= y < 10000 /\ valid_civil y m dd = true /\ d = date_text y m dd) /\
  ((exists a, DeriveRouteAlias k t e d = Ok a /\ length a = RouteAliasSize) <->
   validateRouteInputs k t e d = Ok tt) /\
  ((exists key, DeriveDayKey k e d r n = Ok key /\ length key = 32%nat) <->
   length k = RouteKeySize /\ validateEnvironment e = Ok tt /\
   validateAliasDay d = Ok tt /\ n <> 0).
Proof.
  split; [apply validateAliasDay_ok|]. split.
  - unfold DeriveRouteAlias. destruct (validateRouteInputs k t e d) as [[]|] eqn:E; simpl.
    + split; [done|]. intros _. eexists. split; [done|]. by rewrite length_take, length_hmac.
    + split; [by intros (? & ? & _)|done].
  - unfold DeriveDayKey. destruct (Nat.eqb_spec (length k) RouteKeySize); cbn [negb].
    2: by split; [intros (? & ? & _)|intros (? & _)].
    destruct (validateEnvironment e) as [[]|]; simpl.
    2: by split; [intros (? & ? & _)|intros (_ & ? & _)].
    destruct (validateAliasDay d) as [[]|]; simpl.
    2: by split; [intros (? & ? & _)|intros (_ & _ & ? & _)].
    destruct (Z.eqb_spec n 0).
    + by split; [intros (? & ? & _)|intros (_ & _ & _ & ?)].
    + split; [done|]. intros _. eexists. split; [done|]. by rewrite length_hmac.
Qed.

(** ** Witnesses *)

Definition sample_header : Header := {|
  hSchemaVersion := 1; hEnvironment := EnvironmentDev; hAliasDay := str "2024-02-29";
  hRouteAlias := repeat x07 16; hRouteKeyEpoch := 3; hNoncePrefix := [x01; x02; x03; x04];
  hDeliverySequence := 41;
|}.

Lemma sample_header_typed : header_typed sample_header.
Proof. unfold header_typed. simpl. repeat split; done || lia. Qed.

Lemma gate8_header_binding_witness :
  CanonicalAAD sample_header = Ok (aad_text sample_header) /\
  (CanonicalAAD sample_header = Ok (aad_text sample_header) ->
   CanonicalAAD sample_header = Ok (aad_text sample_header) -> sample_header = sample_header) /\
  (BuildNonce [x01; x02; x03; x04] 41 = Ok [x01; x02; x03; x04; x00; x00; x00; x00; x00; x00; x00; x29] ->
   BuildNonce [x01; x02; x03; x04] 41 = Ok [x01; x02; x03; x04; x00; x00; x00; x00; x00; x00; x00; x29] ->
   [x01; x02; x03; x04] = [x01; x02; x03; x04] /\ 41 = 41).
Proof.
  split; [reflexivity|].
  apply (gate8_header_binding sample_header sample_header); apply sample_header_typed.
Defined.

Lemma gate8_derivation_inputs_injective_witness :
  route_alias_input (str "t") EnvironmentDev (str "2024-02-29") <>
    route_alias_input (str "t") EnvironmentProduction (str "2024-02-29") /\
  day_key_salt_input EnvironmentDev (str "2024-02-29") <>
    day_key_salt_input EnvironmentProduction (str "2024-02-29").
Proof.
  destruct (gate8_derivation_inputs_injective (repeat x01 32) (repeat x01 32) (str "t") (str "t")
    EnvironmentDev EnvironmentProduction (str "2024-02-29") (str "2024-02-29")
    (repeat x07 16) (repeat x07 16) 1 2) as (Ha & Hs & _); try reflexivity; try (split; [lia|reflexivity]).
  split; intros H; [destruct (Ha H) as (_ & He & _)|destruct (Hs H) as (He & _)];
    vm_compute in He; discriminate.
Defined.
