(* ===== verification/Gate8Replay.v ===== *)
(** * Gate 8 replay window (pkg/gate8wrapper/replay.go)

    A window is a state the method [CompareAndAdvanceAuthenticated] threads through a
    stream of authenticated headers. A nil window is [None]; the mutex makes every call
    one step, so a run of concurrent calls is a list of headers. *)

From S2P Require Import Prelude GoBytes GoTime GoCrypto GoJson Gate8Header.
Local Open Scope Z_scope.
Local Open Scope go_scope.

Record ReplayState := {
  rsEnvironment : bytes;
  rsAliasDay : bytes;
  rsRouteAlias : bytes;
  rsRouteKeyEpoch : Z;
  rsNoncePrefix : bytes;
  rsHighestSequence : Z;
}.

#[export] Instance replay_state_eq_dec : EqDecision ReplayState.
Proof. solve_decision. Defined.

(** [ReplayWindow]; the zero value is the uninitialized window. *)
Record ReplayWindow := {
  rwInitialized : bool;
  rwEnvironment : bytes;
  rwAliasDay : bytes;
  rwRouteAlias : bytes;
  rwRouteEpoch : Z;
  rwNoncePrefix : bytes;
  rwHighest : Z;
}.

#[export] Instance replay_window_eq_dec : EqDecision ReplayWindow.
Proof. solve_decision. Defined.

Definition zero_window : ReplayWindow := {|
  rwInitialized := false; rwEnvironment := []; rwAliasDay := [];
  rwRouteAlias := repeat x00 RouteAliasSize; rwRouteEpoch := 0;
  rwNoncePrefix := repeat x00 NoncePrefixSize; rwHighest := 0;
|}.

Definition replay_header (state : ReplayState) : Header := {|
  hSchemaVersion := SchemaVersion; hEnvironment := rsEnvironment state;
  hAliasDay := rsAliasDay state; hRouteAlias := rsRouteAlias state;
  hRouteKeyEpoch := rsRouteKeyEpoch state; hNoncePrefix := rsNoncePrefix state;
  hDeliverySequence := rsHighestSequence state;
|}.

Definition RestoreReplayWindow (state : ReplayState) : result gate8_error ReplayWindow :=
  reject negb (is_ok (header_validate (replay_header state))) with ErrReplayState;;
  Ok {| rwInitialized := true; rwEnvironment := rsEnvironment state;
        rwAliasDay := rsAliasDay state; rwRouteAlias := rsRouteAlias state;
        rwRouteEpoch := rsRouteKeyEpoch state; rwNoncePrefix := rsNoncePrefix state;
        rwHighest := rsHighestSequence state |}.

(** The second result of the Go method is the [option]'s tag. *)
Definition Snapshot (window : option ReplayWindow) : option ReplayState :=
  match window with
  | None => None
  | Some w =>
      bail negb (rwInitialized w) with None;;
      Some {| rsEnvironment := rwEnvironment w; rsAliasDay := rwAliasDay w;
              rsRouteAlias := rwRouteAlias w; rsRouteKeyEpoch := rwRouteEpoch w;
              rsNoncePrefix := rwNoncePrefix w; rsHighestSequence := rwHighest w |}
  end.

Definition same_scope (w : ReplayWindow) (h : Header) : bool :=
  beq (rwEnvironment w) (hEnvironment h) && beq (rwAliasDay w) (hAliasDay h) &&
  beq (rwRouteAlias w) (hRouteAlias h) && (rwRouteEpoch w =? hRouteKeyEpoch h) &&
  beq (rwNoncePrefix w) (hNoncePrefix h).

(** One call: the window after it, and its error. *)
Definition CompareAndAdvanceAuthenticated (window : option ReplayWindow) (header : Header)
  : option ReplayWindow * result gate8_error unit :=
  match window with
  | None => (None, Err ErrReplayState)
  | Some w =>
      bail negb (rwInitialized w) with
        (Some {| rwInitialized := true; rwEnvironment := hEnvironment header;
                 rwAliasDay := hAliasDay header; rwRouteAlias := hRouteAlias header;
                 rwRouteEpoch := hRouteKeyEpoch header; rwNoncePrefix := hNoncePrefix header;
                 rwHighest := hDeliverySequence header |}, Ok tt);;
      bail negb (same_scope w header) with (Some w, Err ErrReplayState);;
      bail hDeliverySequence header <=? rwHighest w with (Some w, Err ErrReplay);;
      (Some {| rwInitialized := rwInitialized w; rwEnvironment := rwEnvironment w;
               rwAliasDay := rwAliasDay w; rwRouteAlias := rwRouteAlias w;
               rwRouteEpoch := rwRouteEpoch w; rwNoncePrefix := rwNoncePrefix w;
               rwHighest := hDeliverySequence header |}, Ok tt)
  end.

(** A run of calls: the final window and the headers accepted, in order. *)
Fixpoint replay_run (window : option ReplayWindow) (headers : list Header)
  : option ReplayWindow * list Header :=
  match headers with
  | [] => (window, [])
  | h :: hs =>
      let '(window', r) := CompareAndAdvanceAuthenticated window h in
      let '(final, accepted) := replay_run window' hs in
      (final, if is_ok r then h :: accepted else accepted)
  end.

(** ** Lemmas *)

(** What a window that has seen [h] last says. *)
Definition window_at (w : ReplayWindow) (h : Header) : Prop :=
  rwInitialized w = true /\ same_scope w h = true /\ rwHighest w = hDeliverySequence h.

Lemma same_scope_refl h :
  window_at {| rwInitialized := true; rwEnvironment := hEnvironment h;
    rwAliasDay := hAliasDay h; rwRouteAlias := hRouteAlias h;
    rwRouteEpoch := hRouteKeyEpoch h; rwNoncePrefix := hNoncePrefix h;
    rwHighest := hDeliverySequence h |} h.
Proof. unfold window_at, same_scope. simpl. by rewrite !beq_refl, Z.eqb_refl. Qed.

(** Two headers of one scope: they differ at most in version and sequence. *)
Definition header_scope (h : Header) : bytes * bytes * bytes * Z * bytes :=
  (hEnvironment h, hAliasDay h, hRouteAlias h, hRouteKeyEpoch h, hNoncePrefix h).

Definition window_scope (w : ReplayWindow) : bytes * bytes * bytes * Z * bytes :=
  (rwEnvironment w, rwAliasDay w, rwRouteAlias w, rwRouteEpoch w, rwNoncePrefix w).

Lemma same_scope_true w h : same_scope w h = true <-> window_scope w = header_scope h.
Proof.
  unfold same_scope, window_scope, header_scope. rewrite !andb_true_iff, !beq_true, Z.eqb_eq.
  split; [intros [[[[-> ->] ->] ->] ->]; done|by intros [= -> -> -> -> ->]].
Qed.

(** The accepting calls, in one statement. *)
Lemma compare_ok w h w' :
  CompareAndAdvanceAuthenticated w h = (w', Ok tt) ->
  exists w0 w1, w = Some w0 /\ w' = Some w1 /\ window_at w1 h /\
    (rwInitialized w0 = true ->
     window_scope w0 = header_scope h /\ rwHighest w0 < hDeliverySequence h).
Proof.
  unfold CompareAndAdvanceAuthenticated. destruct w as [w0|]; [|done]. intros H.
  destruct (rwInitialized w0) eqn:Ei; simpl in H.
  - destruct (same_scope w0 h) eqn:Es; simpl in H; [|done].
    destruct (Z.leb_spec (hDeliverySequence h) (rwHighest w0)); [done|]. simplify_eq.
    eexists _, _. split; [done|]. split; [done|]. split.
    + by unfold window_at, same_scope in *.
    + intros _. split; [by apply same_scope_true|done].
  - simplify_eq. eexists _, _. split; [done|]. split; [done|]. split; [apply same_scope_refl|congruence].
Qed.

(** A refusing call leaves the window as it was. *)
Lemma compare_err w h w' e :
  CompareAndAdvanceAuthenticated w h = (w', Err e) -> w' = w.
Proof.
  unfold CompareAndAdvanceAuthenticated. destruct w as [w0|]; [|congruence].
  intros H. cases_in H; congruence.
Qed.

(** The accepted headers continue a window: one scope, strictly rising sequences. *)
Definition continues (w : ReplayWindow) (accepted : list Header) : Prop :=
  StronglySorted (fun a b => hDeliverySequence a < hDeliverySequence b) accepted /\
  Forall (fun h => header_scope h = window_scope w /\ rwHighest w < hDeliverySequence h) accepted.

Lemma replay_run_cons w h hs :
  replay_run w (h :: hs) =
  let '(w', r) := CompareAndAdvanceAuthenticated w h in
  let '(final, accepted) := replay_run w' hs in
  (final, if is_ok r then h :: accepted else accepted).
Proof. done. Qed.

Lemma replay_run_continues hs w final accepted :
  rwInitialized w = true -> replay_run (Some w) hs = (final, accepted) -> continues w accepted.
Proof.
  revert w final accepted. induction hs as [|h hs IH]; intros w final accepted Hi H.
  { simpl in H. simplify_eq. split; constructor. }
  rewrite replay_run_cons in H.
  destruct (CompareAndAdvanceAuthenticated (Some w) h) as [w' r] eqn:Ec.
  destruct (replay_run w' hs) as [f acc] eqn:Er. simplify_eq.
  destruct r as [[]|e]; simpl.
  - apply compare_ok in Ec as (w0 & w1 & [= <-] & -> & (Hi1 & Hs1 & Hh1) & Hw).
    destruct (Hw Hi) as [Hsc Hlt]. apply same_scope_true in Hs1.
    destruct (IH _ _ _ Hi1 Er) as [Hsort Hall]. split.
    + constructor; [done|]. eapply Forall_impl; [exact Hall|].
      simpl. intros x [_ Hx]. lia.
    + constructor; [done|]. eapply Forall_impl; [exact Hall|]. simpl. intros x [Hx Hx'].
      split; [congruence|lia].
  - apply compare_err in Ec. subst w'. by eapply IH.
Qed.

Lemma replay_run_none hs : replay_run None hs = (None, []).
Proof. induction hs as [|h hs IH]; [done|]. simpl. by rewrite IH. Qed.

Lemma continues_scope w acc a b :
  continues w acc -> a ∈ acc -> b ∈ acc -> header_scope a = header_scope b.
Proof.
  intros [_ Hall] Ha Hb. rewrite Forall_forall in Hall.
  destruct (Hall _ Ha) as [-> _], (Hall _ Hb) as [-> _]. done.
Qed.

(** An uninitialized window accepts its first header and then continues from it. *)
Lemma replay_run_fresh w h hs final acc :
  rwInitialized w = false -> replay_run (Some w) (h :: hs) = (final, acc) ->
  exists w1 acc', acc = h :: acc' /\ window_at w1 h /\ continues w1 acc'.
Proof.
  intros Hi H. simpl in H. rewrite Hi in H. simpl in H.
  match type of H with context [replay_run (Some ?w') hs] => set (w1 := w') in * end.
  destruct (replay_run (Some w1) hs) as [f acc'] eqn:Er. simplify_eq.
  exists w1, acc'. split; [done|]. split; [apply same_scope_refl|].
  by eapply replay_run_continues in Er.
Qed.

Lemma continues_cons w h acc :
  window_at w h -> continues w acc ->
  StronglySorted (fun a b => hDeliverySequence a < hDeliverySequence b) (h :: acc) /\
  Forall (fun x => header_scope x = header_scope h) (h :: acc).
Proof.
  intros (_ & Hs & Hh) [Hsort Hall]. apply same_scope_true in Hs. split.
  - constructor; [done|]. eapply Forall_impl; [exact Hall|]. simpl. intros x [_ Hx]. lia.
  - constructor; [done|]. eapply Forall_impl; [exact Hall|]. simpl. intros x [Hx _]. congruence.
Qed.

(** ** Properties *)

(** Whatever stream of authenticated headers a replay window sees, from any starting
    window, the headers it accepts have strictly increasing delivery sequences and all
    belong to one scope (environment, day, alias, key epoch and nonce prefix): no header
    is ever accepted twice, and a scope change never resets the high-water mark. *)
Theorem replay_window_no_replay (w : option ReplayWindow) (hs : list Header) :
  let accepted := snd (replay_run w hs) in
  StronglySorted (fun a b => hDeliverySequence a < hDeliverySequence b) accepted /\
  (forall a b, a ∈ accepted -> b ∈ accepted -> header_scope a = header_scope b) /\
  (w = None -> accepted = []).
Proof.
  intros accepted. unfold accepted. destruct w as [w|].
  2: { rewrite replay_run_none. split; [constructor|]. split; [set_solver|done]. }
  destruct (rwInitialized w) eqn:Hi.
  - destruct (replay_run (Some w) hs) as [f acc] eqn:E. simpl.
    apply replay_run_continues in E; [|done]. split; [apply E|].
    split; [intros a b; by eapply continues_scope|done].
  - destruct hs as [|h hs]; [split; [constructor|split; [set_solver|done]]|].
    destruct (replay_run (Some w) (h :: hs)) as [f acc] eqn:E. cbn [snd].
    apply replay_run_fresh in E as (w1 & acc' & -> & Hw & Hc); [|done].
    destruct (continues_cons w1 h acc' Hw Hc) as [Hsort Hall]. split; [done|].
    split; [|done]. rewrite Forall_forall in Hall. intros a b Ha Hb.
    by rewrite (Hall a Ha), (Hall b Hb).
Qed.

(** A snapshot of an initialized window whose fields are valid restores to the same
    window, so a transferred replay state accepts exactly what the original accepts; the
    restored state snapshots back to itself, and a state whose fields are not a valid
    header is refused with [ErrReplayState]. *)
Theorem replay_snapshot_restore (w : ReplayWindow) (s : ReplayState) :
  (Snapshot (Some w) = Some s -> header_validate (replay_header s) = Ok tt ->
   RestoreReplayWindow s = Ok w) /\
  (forall w', RestoreReplayWindow s = Ok w' -> Snapshot (Some w') = Some s) /\
  (header_validate (replay_header s) <> Ok tt -> RestoreReplayWindow s = Err ErrReplayState).
Proof.
  unfold Snapshot, RestoreReplayWindow. split; [|split].
  - intros H Hv. rewrite Hv. simpl. destruct w as [i e d a n p q]; simpl in *.
    destruct i; [|done]. simpl in H. by simplify_eq/=.
  - intros w' H. case_in H. simplify_eq/=. by destruct s.
  - intros Hv. destruct (header_validate (replay_header s)) as [[]|]; [done|]. done.
Qed.

(** ** Witnesses *)

Definition sample_window : ReplayWindow := {|
  rwInitialized := true; rwEnvironment := EnvironmentDev; rwAliasDay := str "2024-02-29";
  rwRouteAlias := repeat x07 16; rwRouteEpoch := 3; rwNoncePrefix := [x01; x02; x03; x04];
  rwHighest := 41;
|}.

(** A replayed header, a lower one, a new one and one of another day. *)
Example replay_run_ex :
  replay_run (Some zero_window)
    [sample_header; sample_header;
     {| hSchemaVersion := 1; hEnvironment := EnvironmentDev; hAliasDay := str "2024-02-29";
        hRouteAlias := repeat x07 16; hRouteKeyEpoch := 3; hNoncePrefix := [x01; x02; x03; x04];
        hDeliverySequence := 44 |};
     {| hSchemaVersion := 1; hEnvironment := EnvironmentDev; hAliasDay := str "2024-03-01";
        hRouteAlias := repeat x07 16; hRouteKeyEpoch := 3; hNoncePrefix := [x01; x02; x03; x04];
        hDeliverySequence := 45 |}]
  = (Some {| rwInitialized := true; rwEnvironment := EnvironmentDev;
             rwAliasDay := str "2024-02-29"; rwRouteAlias := repeat x07 16; rwRouteEpoch := 3;
             rwNoncePrefix := [x01; x02; x03; x04]; rwHighest := 44 |},
     [sample_header;
      {| hSchemaVersion := 1; hEnvironment := EnvironmentDev; hAliasDay := str "2024-02-29";
         hRouteAlias := repeat x07 16; hRouteKeyEpoch := 3; hNoncePrefix := [x01; x02; x03; x04];
         hDeliverySequence := 44 |}]).
Proof. reflexivity. Qed.

Lemma replay_window_no_replay_witness :
  snd (replay_run (Some zero_window) [sample_header; sample_header]) = [sample_header] /\
  StronglySorted (fun a b => hDeliverySequence a < hDeliverySequence b)
    (snd (replay_run (Some zero_window) [sample_header; sample_header])).
Proof.
  split; [reflexivity|].
  apply (replay_window_no_replay (Some zero_window) [sample_header; sample_header]).
Defined.

Definition sample_state : ReplayState := {|
  rsEnvironment := EnvironmentDev; rsAliasDay := str "2024-02-29";
  rsRouteAlias := repeat x07 16; rsRouteKeyEpoch := 3; rsNoncePrefix := [x01; x02; x03; x04];
  rsHighestSequence := 41;
|}.

Lemma replay_snapshot_restore_witness :
  Snapshot (Some sample_window) = Some sample_state /\
  RestoreReplayWindow sample_state = Ok sample_window.
Proof.
  split; [reflexivity|]. apply (replay_snapshot_restore sample_window sample_state); reflexivity.
Defined.
