(* ===== verification/Gate8Wrapper.v ===== *)
(** * Gate 8 wrapper (pkg/gate8wrapper/wrapper.go)

    The bounded inner frame, the size estimate, and the two operations [Seal] and [Open].
    AES-GCM is the interface [AesGcm]; the replay protector a caller injects is the
    interface [ReplayProtector], which the in-memory window implements. *)

From S2P Require Import Prelude GoBytes GoTime GoCrypto GoJson Gate8Header Gate8Replay.
Local Open Scope Z_scope.
Local Open Scope go_scope.

Definition MaxCapabilityBytes : Z := 64 * 1024.
Definition MaxXMTPCiphertextBytes : Z := 1024 * 1024.
Definition MaxPaddingBytes : Z := 4 * 1024.
Definition innerFrameVersion : byte := x01.
Definition innerFrameFixedBytes : Z := 14.
Definition gcmTagBytes : Z := 16.

(** [len] of a slice or string. *)
Definition len (v : bytes) : Z := Z.of_nat (length v).

(** [DeliveryMode] is a Go string: a value may be neither of the two constants. *)
Definition ModeCiphertextInline : bytes := str "ciphertext_inline".
Definition ModeForegroundSync : bytes := str "foreground_sync".

Record Plaintext := {
  ptCapability : bytes;
  ptDeliveryMode : bytes;
  ptXMTPEnvelope : bytes;
  ptRandomPadding : bytes;
}.

#[export] Instance plaintext_eq_dec : EqDecision Plaintext.
Proof. solve_decision. Defined.

Record Envelope := { envHeader : Header; envCiphertext : bytes }.

#[export] Instance envelope_eq_dec : EqDecision Envelope.
Proof. solve_decision. Defined.

Record SizeEstimate := {
  seMode : bytes;
  seHeaderAADBytes : Z;
  seInnerPlaintextBytes : Z;
  seSealedCiphertextBytes : Z;
  seStandardBase64CiphertextBytes : Z;
}.

(** [SealRequest]; a nil callback is [None], and [srOnForegroundSync] tells whether the
    optional hook is set. *)
Record SealRequest := {
  srRouteKey : bytes;
  srTopic : bytes;
  srEnvironment : bytes;
  srAliasDay : bytes;
  srRouteKeyEpoch : Z;
  srNoncePrefix : bytes;
  srDeliverySequence : Z;
  srCapability : bytes;
  srXMTPEnvelope : bytes;
  srInlinePadding : bytes;
  srForegroundPadding : bytes;
  srFitsWrapper : option (SizeEstimate -> bool);
  srOnForegroundSync : bool;
}.

(** [OpenRequest] without its replay protector, whose state [Open] threads. *)
Record OpenRequest := {
  orRouteKey : bytes;
  orTopic : bytes;
  orExpectedEnvironment : bytes;
  orExpectedAliasDay : bytes;
  orExpectedRouteKeyEpoch : Z;
  orEnvelope : Envelope;
}.

(** ** The replay protector interface *)

(** [ReplayProtector]: [protector_unavailable] is the nil test of
    [replayProtectorUnavailable], [compare_and_advance] the method. *)
Class ReplayProtector (S : Type) := {
  protector_unavailable : S -> bool;
  compare_and_advance : S -> Header -> S * result gate8_error unit;
}.

(** What the interface's comment asks of an implementation, an accepted header is never
    accepted again and a refused one leaves the state as it was, as an invariant of its
    states: [spent s h] holds once [h] has been accepted, no later call of any header
    ends it, and while it holds [h] is refused. *)
Class ReplayProtectorLaws (S : Type) `{ReplayProtector S} := {
  spent : S -> Header -> Prop;
  advance_spends s s' h : compare_and_advance s h = (s', Ok tt) -> spent s' h;
  spent_kept s x h : spent s h -> spent (fst (compare_and_advance s x)) h;
  spent_refused s h : spent s h -> exists e, compare_and_advance s h = (s, Err e);
  advance_available s s' h :
    compare_and_advance s h = (s', Ok tt) -> protector_unavailable s' = protector_unavailable s;
  advance_refused s s' h e : compare_and_advance s h = (s', Err e) -> s' = s;
}.

#[export] Instance window_protector : ReplayProtector (option ReplayWindow) := {|
  protector_unavailable w := match w with None => true | Some _ => false end;
  compare_and_advance := CompareAndAdvanceAuthenticated;
|}.

(** ** The inner frame *)

Definition validatePlaintextParts (capability message padding : bytes) (messageRequired : bool)
  : result gate8_error unit :=
  reject len capability =? 0 with ErrInvalidCapability;;
  reject (MaxCapabilityBytes <? len capability) || (MaxXMTPCiphertextBytes <? len message) ||
         (MaxPaddingBytes <? len padding) with ErrSizeLimit;;
  reject messageRequired && (len message =? 0) with ErrInvalidPayload;;
  Ok tt.

Definition validatePlaintextLengths (mode : bytes) (capabilityBytes messageBytes paddingBytes : Z)
  : result gate8_error unit :=
  reject capabilityBytes <=? 0 with ErrInvalidCapability;;
  reject (MaxCapabilityBytes <? capabilityBytes) || (messageBytes <? 0) ||
         (MaxXMTPCiphertextBytes <? messageBytes) || (paddingBytes <? 0) ||
         (MaxPaddingBytes <? paddingBytes) with ErrSizeLimit;;
  if beq mode ModeCiphertextInline then
    reject messageBytes =? 0 with ErrInvalidPayload;; Ok tt
  else if beq mode ModeForegroundSync then
    reject negb (messageBytes =? 0) with ErrInvalidPayload;; Ok tt
  else Err ErrInvalidPayload.

Definition encodeMode (mode : bytes) : result gate8_error byte :=
  if beq mode ModeCiphertextInline then Ok x01
  else if beq mode ModeForegroundSync then Ok x02
  else Err ErrInvalidPayload.

Definition decodeMode (value : byte) : result gate8_error bytes :=
  match value with
  | x01 => Ok ModeCiphertextInline
  | x02 => Ok ModeForegroundSync
  | _ => Err ErrInvalidPayload
  end.

(** [base64.StdEncoding.EncodedLen]. *)
Definition std_encoded_len (n : Z) : Z := (n + 2) / 3 * 4.

Definition estimateSize (mode : bytes) (aadBytes capabilityBytes messageBytes paddingBytes : Z)
  : result gate8_error SizeEstimate :=
  _ ← validatePlaintextLengths mode capabilityBytes messageBytes paddingBytes;
  let plaintextBytes := innerFrameFixedBytes + capabilityBytes + messageBytes + paddingBytes in
  let sealedBytes := plaintextBytes + gcmTagBytes in
  Ok {| seMode := mode; seHeaderAADBytes := aadBytes; seInnerPlaintextBytes := plaintextBytes;
        seSealedCiphertextBytes := sealedBytes;
        seStandardBase64CiphertextBytes := std_encoded_len sealedBytes |}.

(** [uint32] of a length that [validatePlaintextParts] bounded. *)
Definition encodePlaintext (plaintext : Plaintext) : result gate8_error bytes :=
  let messageRequired := beq (ptDeliveryMode plaintext) ModeCiphertextInline in
  _ ← validatePlaintextParts (ptCapability plaintext) (ptXMTPEnvelope plaintext)
        (ptRandomPadding plaintext) messageRequired;
  reject beq (ptDeliveryMode plaintext) ModeForegroundSync &&
         negb (len (ptXMTPEnvelope plaintext) =? 0) with ErrInvalidPayload;;
  modeCode ← encodeMode (ptDeliveryMode plaintext);
  Ok ([innerFrameVersion; modeCode] ++
      be 4 (len (ptCapability plaintext)) ++
      be 4 (len (ptXMTPEnvelope plaintext)) ++
      be 4 (len (ptRandomPadding plaintext)) ++
      ptCapability plaintext ++ ptXMTPEnvelope plaintext ++ ptRandomPadding plaintext).

(** [encoded[lo:hi]] for bounds within the slice. *)
Definition slice (v : bytes) (lo hi : Z) : bytes :=
  take (Z.to_nat (hi - lo)) (drop (Z.to_nat lo) v).

Definition byte_at (v : bytes) (i : Z) : byte := nth (Z.to_nat i) v x00.

Definition decodePlaintext (encoded : bytes) : result gate8_error Plaintext :=
  reject (len encoded <? innerFrameFixedBytes) ||
         negb (bool_decide (byte_at encoded 0 = innerFrameVersion)) with ErrInvalidPayload;;
  mode ← decodeMode (byte_at encoded 1);
  let capabilityLength := be_decode (slice encoded 2 6) in
  let messageLength := be_decode (slice encoded 6 10) in
  let paddingLength := be_decode (slice encoded 10 14) in
  _ ← validatePlaintextLengths mode capabilityLength messageLength paddingLength;
  let expectedLength := innerFrameFixedBytes + capabilityLength + messageLength + paddingLength in
  reject negb (expectedLength =? len encoded) with ErrInvalidPayload;;
  let o1 := innerFrameFixedBytes + capabilityLength in
  let o2 := o1 + messageLength in
  Ok {| ptCapability := slice encoded innerFrameFixedBytes o1;
        ptDeliveryMode := mode;
        ptXMTPEnvelope := slice encoded o1 o2;
        ptRandomPadding := slice encoded o2 (o2 + paddingLength) |}.

Definition maxSealedCiphertextBytes : Z :=
  innerFrameFixedBytes + MaxCapabilityBytes + MaxXMTPCiphertextBytes + MaxPaddingBytes +
  gcmTagBytes.

(** [newGCM] fails only for a key that is not 16, 24 or 32 bytes long. *)
Definition newGCM (key : bytes) : bool :=
  (len key =? 16) || (len key =? 24) || (len key =? 32).

(** ** Seal and Open *)

Section Wrapper.
Context `{AesGcm}.

(** The header [Seal] builds. *)
Definition seal_header (request : SealRequest) (alias : bytes) : Header := {|
  hSchemaVersion := SchemaVersion; hEnvironment := srEnvironment request;
  hAliasDay := srAliasDay request; hRouteAlias := alias;
  hRouteKeyEpoch := srRouteKeyEpoch request; hNoncePrefix := srNoncePrefix request;
  hDeliverySequence := srDeliverySequence request;
|}.

(** The choice of mode, message and padding, made before the nonce is used. *)
Definition choose_mode (request : SealRequest) (fits : SizeEstimate -> bool) (aadBytes : Z)
  : result gate8_error (bytes * bytes * bytes) :=
  inlineSize ← estimateSize ModeCiphertextInline aadBytes (len (srCapability request))
    (len (srXMTPEnvelope request)) (len (srInlinePadding request));
  if (len (srXMTPEnvelope request) =? 0) || negb (fits inlineSize) then
    foregroundSize ← estimateSize ModeForegroundSync aadBytes (len (srCapability request)) 0
      (len (srForegroundPadding request));
    reject negb (fits foregroundSize) with ErrPayloadTooLarge;;
    Ok (ModeForegroundSync, [], srForegroundPadding request)
  else Ok (ModeCiphertextInline, srXMTPEnvelope request, srInlinePadding request).

(** The envelope, and whether the foreground hook was called. *)
Definition Seal (request : SealRequest) : result gate8_error (Envelope * bool) :=
  match srFitsWrapper request with
  | None => Err ErrBudgetRequired
  | Some fits =>
      _ ← validateRouteInputs (srRouteKey request) (srTopic request) (srEnvironment request)
            (srAliasDay request);
      reject MaxCanonicalInteger <? srDeliverySequence request with ErrInvalidSequence;;
      _ ← validatePlaintextParts (srCapability request) (srXMTPEnvelope request)
            (srInlinePadding request) false;
      reject MaxPaddingBytes <? len (srForegroundPadding request) with ErrSizeLimit;;
      alias ← DeriveRouteAlias (srRouteKey request) (srTopic request) (srEnvironment request)
                (srAliasDay request);
      let header := seal_header request alias in
      aad ← CanonicalAAD header;
      '(mode, message, padding) ← choose_mode request fits (len aad);
      plaintext ← encodePlaintext {| ptCapability := srCapability request;
                    ptDeliveryMode := mode; ptXMTPEnvelope := message;
                    ptRandomPadding := padding |};
      dayKey ← DeriveDayKey (srRouteKey request) (srEnvironment request) (srAliasDay request)
                 alias (srRouteKeyEpoch request);
      reject negb (newGCM dayKey) with ErrAuthentication;;
      nonce ← BuildNonce (srNoncePrefix request) (srDeliverySequence request);
      let ciphertext := gcm_seal dayKey nonce plaintext aad in
      reject maxSealedCiphertextBytes <? len ciphertext with ErrSizeLimit;;
      Ok ({| envHeader := header; envCiphertext := ciphertext |},
          beq mode ModeForegroundSync && srOnForegroundSync request)
  end.

Context {S : Type} `{ReplayProtector S}.

(** Route checks, key derivation and authentication: the opened plaintext. *)
Definition open_authenticated (request : OpenRequest) : result gate8_error bytes :=
  let header := envHeader (orEnvelope request) in
  let ciphertext := envCiphertext (orEnvelope request) in
  _ ← validateRouteInputs (orRouteKey request) (orTopic request) (hEnvironment header)
        (hAliasDay header);
  _ ← header_validate header;
  reject beq (orExpectedEnvironment request) [] || beq (orExpectedAliasDay request) [] ||
         (orExpectedRouteKeyEpoch request =? 0) ||
         negb (beq (hEnvironment header) (orExpectedEnvironment request)) ||
         negb (beq (hAliasDay header) (orExpectedAliasDay request)) ||
         negb (hRouteKeyEpoch header =? orExpectedRouteKeyEpoch request) with ErrRouteMismatch;;
  reject (len ciphertext <? gcmTagBytes) || (maxSealedCiphertextBytes <? len ciphertext)
    with ErrSizeLimit;;
  expectedAlias ← DeriveRouteAlias (orRouteKey request) (orTopic request) (hEnvironment header)
                    (hAliasDay header);
  reject negb (beq expectedAlias (hRouteAlias header)) with ErrRouteMismatch;;
  aad ← CanonicalAAD header;
  dayKey ← DeriveDayKey (orRouteKey request) (hEnvironment header) (hAliasDay header)
             (hRouteAlias header) (hRouteKeyEpoch header);
  reject negb (newGCM dayKey) with ErrAuthentication;;
  nonce ← BuildNonce (hNoncePrefix header) (hDeliverySequence header);
  or_err ErrAuthentication (gcm_open dayKey nonce ciphertext aad).

(** [Open]: the protector's state after the call, and the result. *)
Definition Open (request : OpenRequest) (replay : S) : S * result gate8_error Plaintext :=
  bail protector_unavailable replay with (replay, Err ErrReplayState);;
  match open_authenticated request with
  | Err e => (replay, Err e)
  | Ok opened =>
      match compare_and_advance replay (envHeader (orEnvelope request)) with
      | (replay', Err e) => (replay', Err e)
      | (replay', Ok _) => (replay', decodePlaintext opened)
      end
  end.

(** The calls callers make on one protector, in the order its mutex gives them: the
    state after the last. *)
Fixpoint open_run (requests : list OpenRequest) (replay : S) : S :=
  match requests with
  | [] => replay
  | request :: rest => open_run rest (fst (Open request replay))
  end.

End Wrapper.

(** ** Slices *)

Lemma len_nonneg v : 0 <= len v.
Proof. unfold len. lia. Qed.

Lemma len_app a b : len (a ++ b) = len a + len b.
Proof. unfold len. rewrite length_app. lia. Qed.

Lemma len_nil v : len v = 0 -> v = [].
Proof. unfold len. destruct v; [done|simpl; lia]. Qed.

Lemma slice_app a b c lo hi :
  lo = len a -> hi = len a + len b -> slice (a ++ b ++ c) lo hi = b.
Proof.
  intros -> ->. unfold slice, len. rewrite Nat2Z.id, drop_app_length.
  replace (Z.to_nat _) with (length b) by lia. apply take_app_length.
Qed.

Lemma len_slice v lo hi : 0 <= lo <= hi -> hi <= len v -> len (slice v lo hi) = hi - lo.
Proof. unfold slice, len. intros. rewrite length_take, length_drop. lia. Qed.

Lemma slice_split v lo mid hi :
  0 <= lo <= mid -> mid <= hi -> slice v lo mid ++ slice v mid hi = slice v lo hi.
Proof.
  intros Hl Hm. unfold slice.
  replace (Z.to_nat (hi - lo)) with (Z.to_nat (mid - lo) + Z.to_nat (hi - mid))%nat by lia.
  replace (Z.to_nat mid) with (Z.to_nat lo + Z.to_nat (mid - lo))%nat at 1 by lia.
  rewrite <- drop_drop. rewrite <- (take_drop (Z.to_nat (mid - lo)) (drop (Z.to_nat lo) v)) at 3.
  rewrite take_app. rewrite length_take, length_drop.
  destruct (decide (Z.to_nat (mid - lo) <= length v - Z.to_nat lo)%nat).
  - rewrite Nat.min_l by lia. rewrite (take_take _ (_ + _)). f_equal; [f_equal; lia|]. f_equal. lia.
  - rewrite (drop_ge (drop _ _)) by (rewrite length_drop; lia).
    rewrite !take_nil, !app_nil_r, take_take. f_equal. lia.
Qed.

Lemma slice_full v : slice v 0 (len v) = v.
Proof. unfold slice, len. rewrite Z.sub_0_r, Nat2Z.id. apply take_ge. simpl. lia. Qed.

(** ** The inner frame *)

Lemma validatePlaintextParts_ok c m p r :
  validatePlaintextParts c m p r = Ok tt <->
  c <> [] /\ len c <= MaxCapabilityBytes /\ len m <= MaxXMTPCiphertextBytes /\
  len p <= MaxPaddingBytes /\ (r = true -> m <> []).
Proof.
  unfold validatePlaintextParts. pose proof (len_nonneg c) as Hc.
  destruct (Z.eqb_spec (len c) 0) as [E|E].
  { split; [done|]. intros (Hn & _). by apply len_nil in E. }
  assert (c <> []) by (intros ->; done).
  destruct (Z.ltb_spec MaxCapabilityBytes (len c)); cbn [orb];
    [split; [done|]; intros (_ & Hl & _); lia|].
  destruct (Z.ltb_spec MaxXMTPCiphertextBytes (len m)); cbn [orb];
    [split; [done|]; intros (_ & _ & Hl & _); lia|].
  destruct (Z.ltb_spec MaxPaddingBytes (len p)); cbn [orb];
    [split; [done|]; intros (_ & _ & _ & Hl & _); lia|].
  destruct r; cbn [andb]; [|by split].
  destruct (Z.eqb_spec (len m) 0) as [E'|E'].
  - split; [done|]. intros (_ & _ & _ & _ & Hm). apply len_nil in E'. by destruct Hm.
  - split; [|done]. intros _. do 4 (split; [done|]). intros _ ->. done.
Qed.

Lemma validatePlaintextLengths_ok mode c m p :
  validatePlaintextLengths mode c m p = Ok tt <->
  0 < c <= MaxCapabilityBytes /\ 0 <= m <= MaxXMTPCiphertextBytes /\
  0 <= p <= MaxPaddingBytes /\
  ((mode = ModeCiphertextInline /\ m <> 0) \/ (mode = ModeForegroundSync /\ m = 0)).
Proof.
  unfold validatePlaintextLengths.
  destruct (Z.leb_spec c 0); [split; [done|lia]|].
  destruct (Z.ltb_spec MaxCapabilityBytes c); cbn [orb]; [split; [done|lia]|].
  destruct (Z.ltb_spec m 0); cbn [orb]; [split; [done|lia]|].
  destruct (Z.ltb_spec MaxXMTPCiphertextBytes m); cbn [orb]; [split; [done|lia]|].
  destruct (Z.ltb_spec p 0); cbn [orb]; [split; [done|lia]|].
  destruct (Z.ltb_spec MaxPaddingBytes p); cbn [orb]; [split; [done|lia]|].
  assert (Hd : ModeCiphertextInline <> ModeForegroundSync) by done.
  destruct (beq mode ModeCiphertextInline) eqn:E1;
    [apply beq_true in E1 as ->|apply beq_false in E1].
  { destruct (Z.eqb_spec m 0); split; try done;
    try solve [intros _; repeat split; try lia; auto]; intros (_ & _ & _ & [[? ?]|[? ?]]); congruence. }
  destruct (beq mode ModeForegroundSync) eqn:E2;
    [apply beq_true in E2 as ->|apply beq_false in E2].
  { destruct (Z.eqb_spec m 0); split; try done;
    try solve [intros _; repeat split; try lia; auto]; intros (_ & _ & _ & [[? ?]|[? ?]]); congruence. }
  split; [done|]. intros (_ & _ & _ & [[? ?]|[? ?]]); congruence.
Qed.

Lemma decode_encode_mode mode b : encodeMode mode = Ok b -> decodeMode b = Ok mode.
Proof.
  unfold encodeMode. destruct (beq mode ModeCiphertextInline) eqn:E1;
    [apply beq_true in E1 as ->; by intros [= <-]|].
  destruct (beq mode ModeForegroundSync) eqn:E2; [|done].
  apply beq_true in E2 as ->. by intros [= <-].
Qed.

Lemma encode_decode_mode mode b : decodeMode b = Ok mode -> encodeMode mode = Ok b.
Proof. destruct b; try done; by intros [= <-]. Qed.

(** The layout of an encoded frame. *)
Definition frame (code : byte) (c m p : bytes) : bytes :=
  [innerFrameVersion; code] ++ be 4 (len c) ++ be 4 (len m) ++ be 4 (len p) ++ c ++ m ++ p.

Lemma len_be n z : len (be n z) = Z.of_nat n.
Proof. unfold len. by rewrite length_be. Qed.

Lemma len_frame code c m p : len (frame code c m p) = innerFrameFixedBytes + len c + len m + len p.
Proof. unfold frame, innerFrameFixedBytes. rewrite !len_app, !len_be. simpl. unfold len at 1. simpl. lia. Qed.

Lemma frame_fields code c m p :
  len c < 2 ^ 32 -> len m < 2 ^ 32 -> len p < 2 ^ 32 ->
  let f := frame code c m p in
  be_decode (slice f 2 6) = len c /\ be_decode (slice f 6 10) = len m /\
  be_decode (slice f 10 14) = len p /\ slice f 14 (14 + len c) = c /\
  slice f (14 + len c) (14 + len c + len m) = m /\
  slice f (14 + len c + len m) (14 + len c + len m + len p) = p.
Proof.
  intros Hc Hm Hp. cbv zeta.
  pose proof (len_nonneg c). pose proof (len_nonneg m). pose proof (len_nonneg p).
  set (h := [innerFrameVersion; code]).
  assert (Hh : len h = 2) by done.
  assert (Hdec : forall z, 0 <= z < 2 ^ 32 -> be_decode (be 4 z) = z).
  { intros. rewrite be_decode_be. by apply Z.mod_small. }
  set (bc := be 4 (len c)). set (bm := be 4 (len m)). set (bp := be 4 (len p)).
  assert (Hbc : len bc = 4) by apply len_be. assert (Hbm : len bm = 4) by apply len_be.
  assert (Hbp : len bp = 4) by apply len_be.
  split; [|split; [|split; [|split; [|split]]]].
  - unfold frame. fold h bc bm bp. rewrite (slice_app h bc) by lia. apply Hdec. lia.
  - replace (frame code c m p) with ((h ++ bc) ++ bm ++ bp ++ c ++ m ++ p)
      by (unfold frame; fold h bc bm bp; by rewrite <- !app_assoc).
    rewrite slice_app by (rewrite len_app; lia). apply Hdec. lia.
  - replace (frame code c m p) with ((h ++ bc ++ bm) ++ bp ++ c ++ m ++ p)
      by (unfold frame; fold h bc bm bp; by rewrite <- !app_assoc).
    rewrite slice_app by (rewrite !len_app; lia). apply Hdec. lia.
  - replace (frame code c m p) with ((h ++ bc ++ bm ++ bp) ++ c ++ m ++ p)
      by (unfold frame; fold h bc bm bp; by rewrite <- !app_assoc).
    apply slice_app; rewrite !len_app; lia.
  - replace (frame code c m p) with ((h ++ bc ++ bm ++ bp ++ c) ++ m ++ p)
      by (unfold frame; fold h bc bm bp; by rewrite <- !app_assoc).
    apply slice_app; rewrite !len_app; lia.
  - replace (frame code c m p) with ((h ++ bc ++ bm ++ bp ++ c ++ m) ++ p ++ [])
      by (unfold frame; fold h bc bm bp; by rewrite app_nil_r, <- !app_assoc).
    apply slice_app; rewrite !len_app; lia.
Qed.

Lemma encodePlaintext_ok pt b :
  encodePlaintext pt = Ok b <->
  validatePlaintextLengths (ptDeliveryMode pt) (len (ptCapability pt)) (len (ptXMTPEnvelope pt))
    (len (ptRandomPadding pt)) = Ok tt /\
  exists code, encodeMode (ptDeliveryMode pt) = Ok code /\
    b = frame code (ptCapability pt) (ptXMTPEnvelope pt) (ptRandomPadding pt).
Proof.
  destruct pt as [c mode m p]. unfold encodePlaintext. simpl ptCapability. simpl ptDeliveryMode.
  simpl ptXMTPEnvelope. simpl ptRandomPadding. rewrite validatePlaintextLengths_ok.
  pose proof (len_nonneg c). pose proof (len_nonneg m). pose proof (len_nonneg p).
  assert (Hcl : c <> [] <-> 0 < len c).
  { split; [intros Hc|intros Hl ->; done]. destruct (decide (len c = 0)) as [E|]; [|lia].
    by apply len_nil in E. }
  assert (Hml : m <> [] <-> len m <> 0).
  { split; [intros Hm E; by apply len_nil in E|intros Hl ->; done]. }
  destruct (validatePlaintextParts c m p _) as [[]|e] eqn:Ev.
  - rewrite validatePlaintextParts_ok in Ev. destruct Ev as (Hc & Hc' & Hm & Hp & Hr).
    cbn [mbind result_bind].
    destruct (beq mode ModeForegroundSync) eqn:Ef; cbn [andb].
    + apply beq_true in Ef as ->. destruct (Z.eqb_spec (len m) 0) as [E|E]; cbn [negb].
      * split; [intros [= <-]|intros (_ & code & [= <-] & ->); done].
        split; [|by exists x02]. repeat split; try lia. by apply Hcl. by right.
      * split; [done|]. intros ((_ & _ & _ & [[Hd _]|[_ ?]]) & _); [done|lia].
    + destruct (encodeMode mode) as [code|] eqn:Ee; cbn [mbind result_bind].
      2: by split; [|intros (_ & code & ? & _)].
      assert (Hi : mode = ModeCiphertextInline).
      { unfold encodeMode in Ee. rewrite Ef in Ee.
        destruct (beq mode ModeCiphertextInline) eqn:E; [by apply beq_true in E|done]. }
      rewrite Hi, beq_refl in Hr. specialize (Hr eq_refl).
      split; [intros [= <-]|intros (_ & code' & [= <-] & ->); done].
      split; [|by exists code]. repeat split; try lia; [by apply Hcl|]. left. split; [done|by apply Hml].
  - split; [done|]. intros ((Hc & Hm & Hp & Hmode) & _). exfalso.
    assert (Hok : validatePlaintextParts c m p (beq mode ModeCiphertextInline) = Ok tt).
    { apply validatePlaintextParts_ok. repeat split; try lia; [apply Hcl; lia|].
      intros E. apply beq_true in E. apply Hml. destruct Hmode as [[_ ?]|[? _]]; [done|].
      by subst. }
    congruence.
Qed.

Lemma decodePlaintext_frame code mode c m p :
  decodeMode code = Ok mode -> validatePlaintextLengths mode (len c) (len m) (len p) = Ok tt ->
  decodePlaintext (frame code c m p) =
  Ok {| ptCapability := c; ptDeliveryMode := mode; ptXMTPEnvelope := m; ptRandomPadding := p |}.
Proof.
  intros Hd Hv. pose proof Hv as Hb. apply validatePlaintextLengths_ok in Hb as (Hc & Hm & Hp & _).
  unfold MaxCapabilityBytes, MaxXMTPCiphertextBytes, MaxPaddingBytes in *.
  destruct (frame_fields code c m p) as (E1 & E2 & E3 & E4 & E5 & E6); [lia..|].
  unfold decodePlaintext. rewrite len_frame. unfold innerFrameFixedBytes in *.
  destruct (Z.ltb_spec (14 + len c + len m + len p) 14); [lia|].
  change (byte_at (frame code c m p) 0) with x01. change (byte_at (frame code c m p) 1) with code.
  cbn [orb negb]. rewrite bool_decide_true by done. cbn [negb]. rewrite Hd. cbn [mbind result_bind].
  rewrite E1, E2, E3, Hv. cbn [mbind result_bind]. rewrite Z.eqb_refl. cbn [negb].
  by rewrite E4, E5, E6.
Qed.

Lemma decodePlaintext_ok b pt :
  decodePlaintext b = Ok pt ->
  exists code, decodeMode code = Ok (ptDeliveryMode pt) /\
    validatePlaintextLengths (ptDeliveryMode pt) (len (ptCapability pt))
      (len (ptXMTPEnvelope pt)) (len (ptRandomPadding pt)) = Ok tt /\
    b = frame code (ptCapability pt) (ptXMTPEnvelope pt) (ptRandomPadding pt).
Proof.
  unfold decodePlaintext. intros H.
  destruct (Z.ltb_spec (len b) innerFrameFixedBytes) as [|Hlen]; [done|]. cbn [orb] in H.
  destruct (bool_decide_reflect (byte_at b 0 = innerFrameVersion)) as [Hver|]; [|done].
  cbn [negb] in H. destruct (decodeMode (byte_at b 1)) as [mode|] eqn:Em; [|done].
  cbn [mbind result_bind] in H. unfold innerFrameFixedBytes in *.
  set (lc := be_decode (slice b 2 6)) in *. set (lm := be_decode (slice b 6 10)) in *.
  set (lp := be_decode (slice b 10 14)) in *.
  destruct (validatePlaintextLengths mode lc lm lp) as [[]|] eqn:Ev; [|done].
  cbn [mbind result_bind] in H.
  destruct (Z.eqb_spec (14 + lc + lm + lp) (len b)) as [Hl|]; [|done]. cbn [negb] in H.
  injection H as <-. exists (byte_at b 1). cbn [ptCapability ptDeliveryMode ptXMTPEnvelope ptRandomPadding].
  pose proof Ev as Hb. apply validatePlaintextLengths_ok in Hb as (Hc & Hm & Hp & _).
  rewrite !len_slice by lia.
  replace (14 + lc - 14) with lc by lia. replace (14 + lc + lm - (14 + lc)) with lm by lia.
  replace (14 + lc + lm + lp - (14 + lc + lm)) with lp by lia.
  split; [done|]. split; [done|]. unfold frame. rewrite !len_slice by lia.
  replace (14 + lc - 14) with lc by lia. replace (14 + lc + lm - (14 + lc)) with lm by lia.
  replace (14 + lc + lm + lp - (14 + lc + lm)) with lp by lia.
  assert (Hbe : forall lo hi, 0 <= lo -> hi = lo + 4 -> hi <= 14 ->
    be 4 (be_decode (slice b lo hi)) = slice b lo hi).
  { intros lo hi Hlo -> Hhi. apply be_be_decode. pose proof (len_slice b lo (lo + 4)) as E.
    unfold len in E. unfold len in Hlen. lia. }
  unfold lc at 1, lm at 1, lp at 1. rewrite !Hbe by lia.
  rewrite (slice_split b (14 + lc) _ _), (slice_split b 14 _ _) by lia.
  rewrite (slice_split b 10 _ _), (slice_split b 6 _ _), (slice_split b 2 _ _) by lia.
  rewrite Hl. rewrite <- (slice_full b) at 1. rewrite <- (slice_split b 0 2 (len b)) by lia.
  f_equal. rewrite <- Hver. unfold byte_at, slice. simpl.
  destruct b as [|x [|y b]]; [unfold len in Hlen; simpl in Hlen; lia..|]. done.
Qed.

(** ** Inversion of a successful [Seal] *)

Section Proofs.
Context `{AesGcm}.

(** The plaintext a request is sealed with, once its mode is chosen. *)
Definition sealed_plaintext (request : SealRequest) (choice : bytes * bytes * bytes) : Plaintext :=
  let '(mode, message, padding) := choice in
  {| ptCapability := srCapability request; ptDeliveryMode := mode; ptXMTPEnvelope := message;
     ptRandomPadding := padding |}.

Lemma Seal_ok request env hook :
  Seal request = Ok (env, hook) ->
  exists fits alias aad choice frame_bytes key nonce,
    srFitsWrapper request = Some fits /\
    validateRouteInputs (srRouteKey request) (srTopic request) (srEnvironment request)
      (srAliasDay request) = Ok tt /\
    DeriveRouteAlias (srRouteKey request) (srTopic request) (srEnvironment request)
      (srAliasDay request) = Ok alias /\
    envHeader env = seal_header request alias /\
    CanonicalAAD (envHeader env) = Ok aad /\
    choose_mode request fits (len aad) = Ok choice /\
    encodePlaintext (sealed_plaintext request choice) = Ok frame_bytes /\
    DeriveDayKey (srRouteKey request) (srEnvironment request) (srAliasDay request) alias
      (srRouteKeyEpoch request) = Ok key /\ newGCM key = true /\
    BuildNonce (srNoncePrefix request) (srDeliverySequence request) = Ok nonce /\
    envCiphertext env = gcm_seal key nonce frame_bytes aad /\
    len (envCiphertext env) <= maxSealedCiphertextBytes /\
    hook = beq (choice.1.1) ModeForegroundSync && srOnForegroundSync request.
Proof.
  unfold Seal. intros HS.
  destruct (srFitsWrapper request) as [fits|] eqn:Ef; [|done].
  destruct (validateRouteInputs _ _ _ _) as [[]|] eqn:Ev; [|done]. cbn [mbind result_bind] in HS.
  destruct (MaxCanonicalInteger <? srDeliverySequence request); [done|].
  destruct (validatePlaintextParts _ _ _ _) as [[]|]; [|done]. cbn [mbind result_bind] in HS.
  destruct (MaxPaddingBytes <? _); [done|].
  destruct (DeriveRouteAlias _ _ _ _) as [alias|] eqn:Ea; [|done]. cbn [mbind result_bind] in HS.
  destruct (CanonicalAAD _) as [aad|] eqn:Eaad; [|done]. cbn [mbind result_bind] in HS.
  destruct (choose_mode _ _ _) as [[[mode message] padding]|] eqn:Ec; [|done].
  cbn [mbind result_bind] in HS.
  destruct (encodePlaintext _) as [fb|] eqn:Ee; [|done]. cbn [mbind result_bind] in HS.
  destruct (DeriveDayKey _ _ _ _ _) as [key|] eqn:Ek; [|done]. cbn [mbind result_bind] in HS.
  destruct (newGCM key) eqn:Eg; [|done]. cbn [negb] in HS.
  destruct (BuildNonce _ _) as [nonce|] eqn:En; [|done]. cbn [mbind result_bind] in HS.
  destruct (Z.ltb_spec maxSealedCiphertextBytes (len (gcm_seal key nonce fb aad))) as [|Hle]; [done|].
  injection HS as <- <-.
  exists fits, alias, aad, (mode, message, padding), fb, key, nonce.
  by repeat split.
Qed.

Lemma choose_mode_ok request fits n mode message padding :
  choose_mode request fits n = Ok (mode, message, padding) ->
  exists inline est,
    estimateSize ModeCiphertextInline n (len (srCapability request))
      (len (srXMTPEnvelope request)) (len (srInlinePadding request)) = Ok inline /\
    estimateSize mode n (len (srCapability request)) (len message) (len padding) = Ok est /\
    fits est = true /\ srXMTPEnvelope request <> [] /\
    ((fits inline = true /\ mode = ModeCiphertextInline /\ message = srXMTPEnvelope request /\
      padding = srInlinePadding request) \/
     (fits inline = false /\ mode = ModeForegroundSync /\ message = [] /\
      padding = srForegroundPadding request)).
Proof.
  unfold choose_mode. intros HC.
  destruct (estimateSize ModeCiphertextInline _ _ _ _) as [inline|] eqn:Ei; [|done].
  cbn [mbind result_bind] in HC.
  assert (Hne : len (srXMTPEnvelope request) <> 0).
  { unfold estimateSize in Ei. destruct (validatePlaintextLengths _ _ _ _) as [[]|] eqn:E; [|done].
    apply validatePlaintextLengths_ok in E as (_ & _ & _ & [[_ ?]|[? _]]); done. }
  rewrite (proj2 (Z.eqb_neq _ _) Hne) in HC. cbn [orb] in HC.
  assert (Hnn : srXMTPEnvelope request <> []) by (intros E; by rewrite E in Hne).
  destruct (fits inline) eqn:Efi; cbn [negb] in HC.
  - injection HC as <- <- <-. exists inline, inline. repeat split; try done. by left.
  - destruct (estimateSize ModeForegroundSync _ _ _ _) as [est|] eqn:Es; [|done].
    cbn [mbind result_bind] in HC. destruct (fits est) eqn:Efe; [|done]. cbn [negb] in HC.
    injection HC as <- <- <-. exists inline, est. repeat split; try done. by right.
Qed.

Lemma choose_mode_total request fits n :
  0 < len (srXMTPEnvelope request) ->
  validatePlaintextLengths ModeCiphertextInline (len (srCapability request))
    (len (srXMTPEnvelope request)) (len (srInlinePadding request)) = Ok tt ->
  validatePlaintextLengths ModeForegroundSync (len (srCapability request)) 0
    (len (srForegroundPadding request)) = Ok tt ->
  (forall inline foreground,
    estimateSize ModeCiphertextInline n (len (srCapability request))
      (len (srXMTPEnvelope request)) (len (srInlinePadding request)) = Ok inline ->
    estimateSize ModeForegroundSync n (len (srCapability request)) 0
      (len (srForegroundPadding request)) = Ok foreground ->
    fits inline = true \/ fits foreground = true) ->
  exists mode message padding code,
    choose_mode request fits n = Ok (mode, message, padding) /\ encodeMode mode = Ok code /\
    validatePlaintextLengths mode (len (srCapability request)) (len message) (len padding) = Ok tt.
Proof.
  intros Hml Hvi Hvf Hfits. unfold choose_mode, estimateSize in *. rewrite Hvi, Hvf in *.
  cbn [mbind result_bind] in *. rewrite (proj2 (Z.eqb_neq (len (srXMTPEnvelope request)) 0)) by lia.
  cbn [orb]. destruct (fits _) eqn:Ef1; cbn [negb]; [by exists ModeCiphertextInline; do 3 eexists|].
  destruct (Hfits _ _ eq_refl eq_refl) as [Hx|Hx]; [congruence|]. rewrite Hx. cbn [negb].
  by exists ModeForegroundSync, [], (srForegroundPadding request), x02.
Qed.

(** A request whose parts are within bounds is sealed. *)
Lemma Seal_total `{!AesGcmLaws} request fits :
  srFitsWrapper request = Some fits ->
  validateRouteInputs (srRouteKey request) (srTopic request) (srEnvironment request)
    (srAliasDay request) = Ok tt ->
  srRouteKeyEpoch request <> 0 -> srDeliverySequence request <= MaxCanonicalInteger ->
  validatePlaintextParts (srCapability request) (srXMTPEnvelope request)
    (srInlinePadding request) true = Ok tt ->
  len (srForegroundPadding request) <= MaxPaddingBytes ->
  (forall n inline foreground,
    estimateSize ModeCiphertextInline n (len (srCapability request))
      (len (srXMTPEnvelope request)) (len (srInlinePadding request)) = Ok inline ->
    estimateSize ModeForegroundSync n (len (srCapability request)) 0
      (len (srForegroundPadding request)) = Ok foreground ->
    fits inline = true \/ fits foreground = true) ->
  exists env hook, Seal request = Ok (env, hook).
Proof.
  intros Hf Hv Hep Hseq Hp Hfp Hfits. pose proof Hv as Hr.
  apply validateRouteInputs_ok in Hr as (Hk & _ & _ & He & Hd).
  pose proof Hp as Hb. apply validatePlaintextParts_ok in Hb as (Hc & Hc' & Hm & Hip & Hmr).
  specialize (Hmr eq_refl). pose proof (len_nonneg (srInlinePadding request)).
  pose proof (len_nonneg (srForegroundPadding request)).
  assert (Hcl : 0 < len (srCapability request)).
  { destruct (srCapability request); [done|]. unfold len. simpl. lia. }
  assert (Hml : 0 < len (srXMTPEnvelope request)).
  { destruct (srXMTPEnvelope request); [done|]. unfold len. simpl. lia. }
  unfold Seal. rewrite Hf, Hv. cbn [mbind result_bind].
  rewrite (proj2 (Z.ltb_ge _ _) Hseq).
  rewrite (proj2 (validatePlaintextParts_ok _ _ _ false)) by (repeat split; done).
  cbn [mbind result_bind]. rewrite (proj2 (Z.ltb_ge _ _) Hfp).
  unfold DeriveRouteAlias. rewrite Hv. cbn [mbind result_bind].
  set (alias := take _ _). unfold CanonicalAAD.
  rewrite (proj2 (header_validate_ok (seal_header request alias))) by (repeat split; done).
  cbn [mbind result_bind]. set (n := len (aad_text _)).
  assert (Hvi : validatePlaintextLengths ModeCiphertextInline (len (srCapability request))
      (len (srXMTPEnvelope request)) (len (srInlinePadding request)) = Ok tt).
  { apply validatePlaintextLengths_ok. repeat split; try lia. left. split; [done|lia]. }
  assert (Hvf : validatePlaintextLengths ModeForegroundSync (len (srCapability request))
      0 (len (srForegroundPadding request)) = Ok tt).
  { apply validatePlaintextLengths_ok. unfold MaxXMTPCiphertextBytes.
    repeat split; try lia. by right. }
  destruct (choose_mode_total request fits n Hml Hvi Hvf (Hfits n)) as (mode & message & padding & code & Hch & Hcode & Hvm).
  rewrite Hch.
  cbn [mbind result_bind].
  rewrite (proj2 (encodePlaintext_ok _ (frame code (srCapability request) message padding)))
    by (split; [done|by exists code]).
  cbn [mbind result_bind]. unfold DeriveDayKey. rewrite Hk, He, Hd. cbn [negb Nat.eqb RouteKeySize].
  cbn [mbind result_bind]. rewrite (proj2 (Z.eqb_neq _ _) Hep). cbn [mbind result_bind].
  unfold newGCM, len. rewrite length_hmac. cbn [orb negb Z.eqb Z.of_nat]. 
  unfold BuildNonce. rewrite (proj2 (Z.ltb_ge _ _) Hseq). cbn [mbind result_bind].
  match goal with |- context [maxSealedCiphertextBytes <? ?l] =>
    destruct (Z.ltb_spec maxSealedCiphertextBytes l) as [Hbad|] end; [exfalso|by do 2 eexists].
  rewrite gcm_seal_length in Hbad. apply validatePlaintextLengths_ok in Hvm as (? & ? & ? & _).
  pose proof (len_frame code (srCapability request) message padding) as Hlf. unfold len at 1 in Hlf.
  unfold maxSealedCiphertextBytes, gcmTagBytes in Hbad. lia.
Qed.

(** The request that opens what [request] sealed. *)
Definition matching_open (request : SealRequest) (env : Envelope) : OpenRequest := {|
  orRouteKey := srRouteKey request; orTopic := srTopic request;
  orExpectedEnvironment := srEnvironment request; orExpectedAliasDay := srAliasDay request;
  orExpectedRouteKeyEpoch := srRouteKeyEpoch request; orEnvelope := env;
|}.

Lemma CanonicalAAD_ok h aad : CanonicalAAD h = Ok aad -> header_validate h = Ok tt.
Proof. unfold CanonicalAAD. by destruct (header_validate h) as [[]|]. Qed.

Lemma environment_nonempty e : validateEnvironment e = Ok tt -> beq e [] = false.
Proof. rewrite validateEnvironment_ok. by intros [-> | ->]. Qed.

Lemma aliasDay_nonempty s : validateAliasDay s = Ok tt -> beq s [] = false.
Proof. intros E. apply aliasDay_length in E. apply beq_false. by intros ->. Qed.

Lemma open_authenticated_sealed `{!AesGcmLaws} request env hook :
  Seal request = Ok (env, hook) ->
  exists choice fits aad opened,
    open_authenticated (matching_open request env) = Ok opened /\
    srFitsWrapper request = Some fits /\ CanonicalAAD (envHeader env) = Ok aad /\
    choose_mode request fits (len aad) = Ok choice /\
    hook = beq (choice.1.1) ModeForegroundSync && srOnForegroundSync request /\
    encodePlaintext (sealed_plaintext request choice) = Ok opened.
Proof.
  intros HS. apply Seal_ok in HS as
    (fits & alias & aad & choice & fb & key & nonce & Hf & Hv & Ha & Hh & Haad & Hc & He & Hk & Hg
     & Hn & Hct & Hle & Hhook).
  exists choice, fits, aad, fb. split; [|done].
  pose proof (CanonicalAAD_ok _ _ Haad) as Hval. pose proof Hval as Hok.
  rewrite header_validate_ok in Hok. destruct Hok as (_ & Hep & Hen & Hday & _).
  rewrite Hh in Hep, Hen, Hday. simpl in Hep, Hen, Hday.
  unfold open_authenticated, matching_open. simpl orEnvelope. simpl orRouteKey. simpl orTopic.
  simpl orExpectedEnvironment. simpl orExpectedAliasDay. simpl orExpectedRouteKeyEpoch.
  rewrite Haad. rewrite Hval. rewrite Hh. cbn [seal_header hEnvironment hAliasDay hRouteAlias
    hRouteKeyEpoch hNoncePrefix hDeliverySequence]. rewrite Hv. cbn [mbind result_bind].
  rewrite (environment_nonempty _ Hen), (aliasDay_nonempty _ Hday), !beq_refl, Z.eqb_refl.
  rewrite (proj2 (Z.eqb_neq _ _) Hep). cbn [orb negb].
  assert (Hmin : (len (envCiphertext env) <? gcmTagBytes) = false).
  { apply Z.ltb_ge. rewrite Hct. unfold len, gcmTagBytes. rewrite gcm_seal_length. lia. }
  rewrite Hmin, (proj2 (Z.ltb_ge maxSealedCiphertextBytes _) Hle). cbn [orb].
  rewrite Ha. cbn [mbind result_bind]. rewrite beq_refl. cbn [negb]. rewrite Hk. cbn [mbind result_bind].
  rewrite Hg. cbn [negb]. rewrite Hn. cbn [mbind result_bind].
  by rewrite Hct, gcm_open_seal.
Qed.

(** What an authenticated envelope is bound to. *)
Lemma open_authenticated_ok `{!AesGcmLaws} request opened :
  open_authenticated request = Ok opened ->
  let h := envHeader (orEnvelope request) in
  hEnvironment h = orExpectedEnvironment request /\ hAliasDay h = orExpectedAliasDay request /\
  hRouteKeyEpoch h = orExpectedRouteKeyEpoch request /\
  DeriveRouteAlias (orRouteKey request) (orTopic request) (hEnvironment h) (hAliasDay h)
    = Ok (hRouteAlias h) /\
  exists aad key nonce,
    CanonicalAAD h = Ok aad /\
    DeriveDayKey (orRouteKey request) (hEnvironment h) (hAliasDay h) (hRouteAlias h)
      (hRouteKeyEpoch h) = Ok key /\
    BuildNonce (hNoncePrefix h) (hDeliverySequence h) = Ok nonce /\
    envCiphertext (orEnvelope request) = gcm_seal key nonce opened aad.
Proof.
  unfold open_authenticated. cbv zeta. set (h := envHeader (orEnvelope request)). intros HO.
  destruct (validateRouteInputs _ _ _ _) as [[]|]; [|done]. cbn [mbind result_bind] in HO.
  destruct (header_validate h) as [[]|] eqn:Hv; [|done]. cbn [mbind result_bind] in HO.
  match type of HO with (if ?c then _ else _) = _ => destruct c eqn:Em; [done|] end.
  match type of HO with (if ?c then _ else _) = _ => destruct c; [done|] end.
  destruct (DeriveRouteAlias _ _ _ _) as [alias|] eqn:Ea; [|done]. cbn [mbind result_bind] in HO.
  destruct (beq alias (hRouteAlias h)) eqn:Eb; [|done]. cbn [negb] in HO. apply beq_true in Eb as ->.
  destruct (CanonicalAAD h) as [aad|]; [|done]. cbn [mbind result_bind] in HO.
  destruct (DeriveDayKey _ _ _ _ _) as [key|] eqn:Ek; [|done]. cbn [mbind result_bind] in HO.
  destruct (newGCM key); [|done]. cbn [negb] in HO.
  destruct (BuildNonce _ _) as [nonce|]; [|done]. cbn [mbind result_bind] in HO.
  destruct (gcm_open key nonce _ aad) as [p|] eqn:Eo; [|done]. injection HO as ->.
  apply gcm_open_sound in Eo. boolprop.
  beqs.
  repeat split; try done. by exists aad, key, nonce.
Qed.

End Proofs.

(** A window that has started spends every header outside its scope and every header at
    or below its highest sequence. *)
Definition window_spent (window : option ReplayWindow) (h : Header) : Prop :=
  exists w, window = Some w /\ rwInitialized w = true /\
    (window_scope w <> header_scope h \/ hDeliverySequence h <= rwHighest w).

Lemma window_spent_refused w h :
  window_spent w h -> exists e, CompareAndAdvanceAuthenticated w h = (w, Err e).
Proof.
  intros (w0 & -> & Hi & Hs). unfold CompareAndAdvanceAuthenticated. rewrite Hi. cbn [negb].
  destruct (same_scope w0 h) eqn:Es; cbn [negb]; [|by eexists].
  apply same_scope_true in Es. destruct Hs as [Hs|Hs]; [done|].
  rewrite (proj2 (Z.leb_le _ _) Hs). by eexists.
Qed.

(** A started window keeps its scope, and its highest sequence never falls. *)
Lemma window_spent_kept w x h :
  window_spent w h -> window_spent (fst (CompareAndAdvanceAuthenticated w x)) h.
Proof.
  intros (w0 & -> & Hi & Hs).
  destruct (CompareAndAdvanceAuthenticated (Some w0) x) as [w' [[]|e]] eqn:Ec; cbn [fst].
  - apply compare_ok in Ec as (? & w1 & [= <-] & -> & (Hi1 & Hs1 & Hh) & Hw).
    destruct (Hw Hi) as [Hsc Hlt]. apply same_scope_true in Hs1. exists w1.
    do 2 (split; [done|]). destruct Hs as [Hs|Hs]; [left; congruence|right; lia].
  - apply compare_err in Ec as ->. by exists w0.
Qed.

Lemma window_accepts_spends w w' h h' :
  CompareAndAdvanceAuthenticated w h = (w', Ok tt) ->
  header_scope h' <> header_scope h \/ hDeliverySequence h' <= hDeliverySequence h ->
  window_spent w' h'.
Proof.
  intros Hc Hh. apply compare_ok in Hc as (w0 & w1 & -> & -> & (Hi & Hs & Hq) & _).
  apply same_scope_true in Hs. exists w1. do 2 (split; [done|]).
  destruct Hh; [left; congruence|right; lia].
Qed.

(** The in-memory window implements the interface. *)
#[export] Instance window_protector_laws : ReplayProtectorLaws (option ReplayWindow).
Proof.
  refine {| spent := window_spent |}; simpl.
  - intros s s' h Hc. eapply window_accepts_spends; [exact Hc|]. right. lia.
  - intros s x h. apply window_spent_kept.
  - intros s h. apply window_spent_refused.
  - intros s s' h Hc. by apply compare_ok in Hc as (w0 & w1 & -> & -> & _).
  - intros s s' h e. apply compare_err.
Defined.

(** ** Properties *)

Section Properties.
Context `{AesGcmLaws} {S : Type} `{ReplayProtectorLaws S}.

Lemma Open_sealed (request : SealRequest) (env : Envelope) (hook : bool) (s s' : S) :
  Seal request = Ok (env, hook) ->
  protector_unavailable s = false ->
  compare_and_advance s (envHeader env) = (s', Ok tt) ->
  exists choice fits aad,
    CanonicalAAD (envHeader env) = Ok aad /\ choose_mode request fits (len aad) = Ok choice /\
    hook = beq (choice.1.1) ModeForegroundSync && srOnForegroundSync request /\
    Open (matching_open request env) s = (s', Ok (sealed_plaintext request choice)).
Proof.
  intros HS Hu Hc.
  destruct (open_authenticated_sealed _ _ _ HS) as
    ([[mode message] padding] & fits & aad & opened & Ho & _ & Haad & Hm & Hh & He).
  apply encodePlaintext_ok in He as (Hv & code & Hcode & ->). apply decode_encode_mode in Hcode.
  exists (mode, message, padding), fits, aad. repeat (split; [done|]).
  unfold Open. rewrite Hu, Ho. simpl envHeader. rewrite Hc.
  by rewrite (decodePlaintext_frame _ _ _ _ _ Hcode Hv).
Qed.

(** C33: what [Seal] produces, [Open] returns. For the matching route, epoch and day and a
    protector that accepts the header, [Open] yields the sealed capability with either the
    inline message and inline padding, or, when the foreground mode was chosen, no message
    and the foreground padding; the hook was called exactly in the second case, when set. *)
Theorem gate8_open_seal (request : SealRequest) (env : Envelope) (hook : bool) (s s' : S) :
  Seal request = Ok (env, hook) ->
  protector_unavailable s = false ->
  compare_and_advance s (envHeader env) = (s', Ok tt) ->
  exists pt,
    Open (matching_open request env) s = (s', Ok pt) /\ ptCapability pt = srCapability request /\
    ((ptDeliveryMode pt = ModeCiphertextInline /\ ptXMTPEnvelope pt = srXMTPEnvelope request /\
      ptRandomPadding pt = srInlinePadding request /\ hook = false) \/
     (ptDeliveryMode pt = ModeForegroundSync /\ ptXMTPEnvelope pt = [] /\
      ptRandomPadding pt = srForegroundPadding request /\ hook = srOnForegroundSync request)).
Proof.
  intros HS Hu Hc.
  destruct (Open_sealed _ _ _ _ _ HS Hu Hc) as
    ([[mode message] padding] & fits & aad & _ & Hm & -> & Ho).
  exists (sealed_plaintext request (mode, message, padding)). split; [done|]. split; [done|].
  apply choose_mode_ok in Hm as (_ & _ & _ & _ & _ & _ & [(_ & -> & -> & ->)|(_ & -> & -> & ->)]);
    simpl; auto.
Qed.

(** [Open] changes the replay state only for an authenticated envelope: when the state
    differs after the call, the header names the expected environment, day and epoch, its
    alias is the one derived from the caller's route key and topic, and the ciphertext is
    an AES-GCM sealing, under the day key of that route, the nonce of the header's
    sequence and the header's canonical text. A successful call always is such a call. *)
Theorem gate8_open_authenticates_first (request : OpenRequest) (s s' : S) (r : result gate8_error Plaintext) :
  Open request s = (s', r) -> s' <> s \/ is_ok r = true ->
  let h := envHeader (orEnvelope request) in
  hEnvironment h = orExpectedEnvironment request /\ hAliasDay h = orExpectedAliasDay request /\
  hRouteKeyEpoch h = orExpectedRouteKeyEpoch request /\
  DeriveRouteAlias (orRouteKey request) (orTopic request) (hEnvironment h) (hAliasDay h)
    = Ok (hRouteAlias h) /\
  compare_and_advance s h = (s', Ok tt) /\
  exists aad key nonce opened,
    CanonicalAAD h = Ok aad /\
    DeriveDayKey (orRouteKey request) (hEnvironment h) (hAliasDay h) (hRouteAlias h)
      (hRouteKeyEpoch h) = Ok key /\
    BuildNonce (hNoncePrefix h) (hDeliverySequence h) = Ok nonce /\
    envCiphertext (orEnvelope request) = gcm_seal key nonce opened aad /\
    r = decodePlaintext opened.
Proof.
  unfold Open. intros HO Hd. destruct (protector_unavailable s); [injection HO as <- <-; by destruct Hd|].
  destruct (open_authenticated request) as [opened|e] eqn:Ea; [|injection HO as <- <-; by destruct Hd].
  destruct (compare_and_advance s _) as [s1 [[]|e]] eqn:Ec; injection HO as <- <-.
  2: { apply advance_refused in Ec as ->. by destruct Hd. }
  apply open_authenticated_ok in Ea as (He & Hday & Hep & Hal & aad & key & nonce & Haad & Hk & Hn & Hct).
  cbv zeta. do 4 (split; [done|]). split; [done|]. by exists aad, key, nonce, opened.
Qed.

(** While its header is spent, an envelope is refused whatever the caller expects of it. *)
Lemma Open_spent (request : OpenRequest) (s : S) :
  spent s (envHeader (orEnvelope request)) -> exists e, Open request s = (s, Err e).
Proof.
  intros Hs. unfold Open. destruct (protector_unavailable s); [by eexists|].
  destruct (open_authenticated request) as [opened|e]; [|by eexists].
  destruct (spent_refused _ _ Hs) as [e ->]. by eexists.
Qed.

(** One call makes at most one call of the protector. *)
Lemma Open_keeps_spent (request : OpenRequest) (s : S) (h : Header) :
  spent s h -> spent (fst (Open request s)) h.
Proof.
  intros Hs. unfold Open. destruct (protector_unavailable s); [done|].
  destruct (open_authenticated request) as [opened|e]; [|done].
  pose proof (spent_kept s (envHeader (orEnvelope request)) h Hs) as Hk.
  by destruct (compare_and_advance s _) as [s1 [[]|e]].
Qed.

Lemma open_run_keeps_spent (requests : list OpenRequest) (s : S) (h : Header) :
  spent s h -> spent (open_run requests s) h.
Proof.
  revert s. induction requests as [|r rest IH]; intros s Hs; [done|].
  apply IH. by apply Open_keeps_spent.
Qed.

(** Of any protector: a successful call spends its header for good. *)
Lemma Open_spends (request : OpenRequest) (s s' : S) (pt : Plaintext) :
  Open request s = (s', Ok pt) ->
  compare_and_advance s (envHeader (orEnvelope request)) = (s', Ok tt).
Proof.
  unfold Open. intros HO. destruct (protector_unavailable s); [done|].
  destruct (open_authenticated request) as [opened|e]; [|done].
  destruct (compare_and_advance s _) as [s1 [[]|e]]; [|done]. by injection HO as -> _.
Qed.

(** The size the caller's budget callback approved is the size that is sent. A sealed
    envelope has an estimate the callback accepted whose mode is the sealed mode and whose
    additional-data and ciphertext sizes are exactly those produced, and the foreground
    mode is used only after the callback refused the inline one. *)
Theorem gate8_estimate_exact (request : SealRequest) (env : Envelope) (hook : bool) :
  Seal request = Ok (env, hook) ->
  exists fits est aad,
    srFitsWrapper request = Some fits /\ fits est = true /\
    CanonicalAAD (envHeader env) = Ok aad /\ seHeaderAADBytes est = len aad /\
    seSealedCiphertextBytes est = len (envCiphertext env) /\
    seInnerPlaintextBytes est + gcmTagBytes = len (envCiphertext env) /\
    (seMode est = ModeCiphertextInline \/
     (seMode est = ModeForegroundSync /\
      exists inline, seMode inline = ModeCiphertextInline /\ fits inline = false)).
Proof.
  intros HS. apply Seal_ok in HS as
    (fits & alias & aad & [[mode message] padding] & fb & key & nonce & Hf & _ & _ & _ & Haad & Hc & He
     & _ & _ & _ & Hct & _ & _).
  apply choose_mode_ok in Hc as (inline & est & Hi & Hest & Hfit & _ & Hcase).
  apply encodePlaintext_ok in He as (_ & code & _ & ->).
  assert (Hsize : forall m a c n p e, estimateSize m a c n p = Ok e ->
    seMode e = m /\ seHeaderAADBytes e = a /\
    seInnerPlaintextBytes e = innerFrameFixedBytes + c + n + p /\
    seSealedCiphertextBytes e = innerFrameFixedBytes + c + n + p + gcmTagBytes).
  { unfold estimateSize. intros m a c n p e E. destruct (validatePlaintextLengths m c n p); [|done].
    by injection E as <-. }
  apply Hsize in Hi as (Him & _), Hest as (Hm & Ha & Hin & Hs).
  exists fits, est, aad. do 4 (split; [done|]). rewrite Hct.
  assert (Hl : len (gcm_seal key nonce (frame code (srCapability request) message padding) aad)
    = innerFrameFixedBytes + len (srCapability request) + len message + len padding + gcmTagBytes).
  { rewrite <- (len_frame code). unfold len at 1, gcmTagBytes. rewrite gcm_seal_length.
    rewrite Nat2Z.inj_add. done. }
  simpl sealed_plaintext. cbn [ptCapability ptXMTPEnvelope ptRandomPadding].
  split; [congruence|]. split; [congruence|].
  destruct Hcase as [(_ & -> & _)|(Hno & -> & _)]; [by left|right]. split; [done|]. by exists inline.
Qed.

End Properties.

(** C26: an envelope opens at most once, ever. After a successful [Open], whatever calls
    follow on the same window, of any envelopes and in any order, a call whose envelope
    has the opened one's sequence or a lower one, or belongs to another scope
    (environment, day, alias, key epoch, nonce prefix), is refused and leaves the window
    as it is: the opened envelope itself, and every older one, whether or not it was
    opened before. *)
Theorem gate8_open_once `{AesGcm} (request again : OpenRequest) (later : list OpenRequest)
    (w w' : option ReplayWindow) (pt : Plaintext) :
  Open request w = (w', Ok pt) ->
  let h := envHeader (orEnvelope request) in
  let h' := envHeader (orEnvelope again) in
  header_scope h' <> header_scope h \/ hDeliverySequence h' <= hDeliverySequence h ->
  let w'' := open_run later w' in
  exists e, Open again w'' = (w'', Err e).
Proof.
  intros HO h h' Hh. apply Open_spent, open_run_keeps_spent. apply Open_spends in HO.
  by apply (window_accepts_spends w w' h).
Qed.

(** The inner frame is read back and is canonical: a byte string decodes to a plaintext
    exactly when the plaintext encodes to that byte string. *)
Theorem gate8_frame_roundtrip (pt : Plaintext) (b : bytes) :
  encodePlaintext pt = Ok b <-> decodePlaintext b = Ok pt.
Proof.
  rewrite encodePlaintext_ok. split.
  - intros (Hv & code & Hc & ->). apply decode_encode_mode in Hc.
    rewrite (decodePlaintext_frame _ _ _ _ _ Hc Hv). by destruct pt.
  - intros Hd. apply decodePlaintext_ok in Hd as (code & Hc & Hv & ->).
    split; [done|]. exists code. split; [by apply encode_decode_mode|done].
Qed.

(** A request without an XMTP envelope is never sealed, in any mode: the inline size
    estimate refuses the empty message before the foreground mode is considered. *)
Theorem gate8_seal_requires_envelope `{AesGcm} (request : SealRequest) :
  srXMTPEnvelope request = [] -> exists e, Seal request = Err e.
Proof.
  intros He. destruct (Seal request) as [[env hook]|e] eqn:HS; [|by exists e].
  apply Seal_ok in HS as (fits & alias & aad & [[m msg] p] & fb & key & nonce & _ & _ & _ & _ & _ & Hc & _).
  by apply choose_mode_ok in Hc as (_ & _ & _ & _ & _ & Hne & _).
Qed.

(** ** Witnesses *)

#[local] Existing Instances Sample.gcm Sample.gcm_laws.
#[local] Opaque Seal open_authenticated.

Definition sample_request : SealRequest := {|
  srRouteKey := repeat x09 32; srTopic := str "topic"; srEnvironment := EnvironmentDev;
  srAliasDay := str "2024-02-29"; srRouteKeyEpoch := 3; srNoncePrefix := [x01; x02; x03; x04];
  srDeliverySequence := 41; srCapability := str "cap"; srXMTPEnvelope := str "envelope";
  srInlinePadding := str "pp"; srForegroundPadding := str "p";
  srFitsWrapper := Some (fun e => seInnerPlaintextBytes e <? 20); srOnForegroundSync := true;
|}.

Lemma sample_sealed : exists env hook, Seal sample_request = Ok (env, hook).
Proof.
  eapply Seal_total; try reflexivity; try done.
  intros n inline foreground _ Hf. injection Hf as <-. by right.
Qed.

Lemma gate8_open_seal_witness :
  exists env hook s' pt, Seal sample_request = Ok (env, hook) /\
    Open (matching_open sample_request env) (Some zero_window) = (s', Ok pt) /\
    ptCapability pt = str "cap".
Proof.
  destruct sample_sealed as (env & hook & HS).
  edestruct (gate8_open_seal (S := option ReplayWindow) sample_request env hook (Some zero_window))
    as (pt & Ho & Hc & _); [exact HS|reflexivity|reflexivity|].
  exists env, hook. eexists. exists pt. split; [exact HS|split; [exact Ho|exact Hc]].
Defined.

Lemma sample_opened :
  exists env s' pt, Open (matching_open sample_request env) (Some zero_window) = (s', Ok pt).
Proof.
  destruct sample_sealed as (env & hook & HS).
  edestruct (Open_sealed (S := option ReplayWindow) sample_request env hook (Some zero_window))
    as (choice & _ & _ & _ & _ & _ & Ho); [exact HS|reflexivity|reflexivity|].
  exists env. eexists. eexists. exact Ho.
Qed.

(** The next envelope of the route. *)
Definition next_request : SealRequest := {|
  srRouteKey := repeat x09 32; srTopic := str "topic"; srEnvironment := EnvironmentDev;
  srAliasDay := str "2024-02-29"; srRouteKeyEpoch := 3; srNoncePrefix := [x01; x02; x03; x04];
  srDeliverySequence := 42; srCapability := str "cap"; srXMTPEnvelope := str "envelope";
  srInlinePadding := str "pp"; srForegroundPadding := str "p";
  srFitsWrapper := Some (fun e => seInnerPlaintextBytes e <? 20); srOnForegroundSync := true;
|}.

Lemma next_sealed : exists env hook, Seal next_request = Ok (env, hook).
Proof.
  eapply Seal_total; try reflexivity; try done.
  intros n inline foreground _ Hf. injection Hf as <-. by right.
Qed.

(** The first envelope, the next one, then the first one again. *)
Lemma gate8_open_once_witness :
  exists env next s' pt e,
    Open (matching_open sample_request env) (Some zero_window) = (s', Ok pt) /\
    let s'' := open_run [matching_open next_request next] s' in
    Open (matching_open sample_request env) s'' = (s'', Err e).
Proof.
  destruct sample_opened as (env & s' & pt & Ho). destruct next_sealed as (next & hook & _).
  destruct (gate8_open_once _ (matching_open sample_request env) [matching_open next_request next]
              _ _ _ Ho (or_intror (Z.le_refl _))) as [e He].
  exists env, next, s', pt, e. split; [exact Ho|exact He].
Defined.

Lemma gate8_open_authenticates_first_witness :
  exists env s' pt,
    Open (matching_open sample_request env) (Some zero_window) = (s', Ok pt) /\
    compare_and_advance (Some zero_window) (envHeader env) = (s', Ok tt).
Proof.
  destruct sample_opened as (env & s' & pt & Ho).
  destruct (gate8_open_authenticates_first _ _ _ _ Ho (or_intror eq_refl))
    as (_ & _ & _ & _ & Hc & _).
  exists env, s', pt. split; [exact Ho|exact Hc].
Defined.

Lemma gate8_estimate_exact_witness :
  exists env hook est, Seal sample_request = Ok (env, hook) /\
    seSealedCiphertextBytes est = len (envCiphertext env).
Proof.
  destruct sample_sealed as (env & hook & HS).
  destruct (gate8_estimate_exact _ _ _ HS) as (_ & est & _ & _ & _ & _ & _ & He & _).
  exists env, hook, est. split; [exact HS|exact He].
Defined.

Definition empty_envelope_request : SealRequest := {|
  srRouteKey := repeat x09 32; srTopic := str "topic"; srEnvironment := EnvironmentDev;
  srAliasDay := str "2024-02-29"; srRouteKeyEpoch := 3; srNoncePrefix := [x01; x02; x03; x04];
  srDeliverySequence := 41; srCapability := str "cap"; srXMTPEnvelope := [];
  srInlinePadding := str "pp"; srForegroundPadding := str "p";
  srFitsWrapper := Some (fun _ => true); srOnForegroundSync := true;
|}.

Lemma gate8_seal_requires_envelope_witness :
  srXMTPEnvelope empty_envelope_request = [] /\ exists e, Seal empty_envelope_request = Err e.
Proof. split; [reflexivity|]. apply (gate8_seal_requires_envelope empty_envelope_request). reflexivity. Defined.
