(* ===== verification/A9Reference.v ===== *)
(** * A9 reference state machine (internal/a9conformance/state/state.go)

    The side-effect-free model the conformance artifact is checked against: the ordered
    control stream with its tombstones, the sequencer watermark with its uncertainty
    latch, the atomic replacement of a vault's routes, the pre-egress gate and restart.
    A method with a pointer receiver is a function from the state to the new state and
    the verdict. *)

From S2P Require Import Prelude GoBytes GoTime GoCrypto.
Local Open Scope Z_scope.
Local Open Scope go_scope.

Definition TerminalApplied : bytes := str "APPLIED".
Definition TerminalReplay : bytes := str "REPLAY".
Definition TerminalEligible : bytes := str "ELIGIBLE".
Definition TerminalInvalid : bytes := str "INVALID".
Definition TerminalInconclusive : bytes := str "INCONCLUSIVE".
Definition TerminalStale : bytes := str "STALE".
Definition TerminalRevoked : bytes := str "REVOKED".

Record Verdict := { vTerminal : bytes; vReason : bytes }.
#[export] Instance verdict_eq_dec : EqDecision Verdict.
Proof. solve_decision. Defined.

Definition verdict (terminal : bytes) (reason : string) : Verdict :=
  {| vTerminal := terminal; vReason := str reason |}.

Definition hash (value : bytes) : bytes := hex_encode (sha256 value).

(** ** The control stream *)

Record receipt := { rcBodyHash : bytes; rcVerdict : Verdict }.

(** A nil receipts map and an empty one behave alike. *)
Record ControlState := {
  csAppliedSequence : Z;
  csHighestBindingVersion : Z;
  csUncertain : bool;
  csTombstoned : bool;
  csReceipts : gmap bytes receipt;
}.

Record ControlEvent := {
  ceIdempotencyKey : bytes;
  ceSignedBody : bytes;
  ceStreamSequence : Z;
  ceExpectedPreviousSequence : Z;
  ceBindingVersion : Z;
  ceExpectedBindingVersion : Z;
  ceAction : bytes;
}.

Definition UPSERT : bytes := str "UPSERT".
Definition REVOKE : bytes := str "REVOKE".

Definition cs_uncertain (s : ControlState) : ControlState := {|
  csAppliedSequence := csAppliedSequence s; csHighestBindingVersion := csHighestBindingVersion s;
  csUncertain := true; csTombstoned := csTombstoned s; csReceipts := csReceipts s |}.

Definition control_malformed (event : ControlEvent) : bool :=
  (ceStreamSequence event =? 0) || (ceBindingVersion event =? 0) ||
  negb (ceStreamSequence event =? w64 (ceExpectedPreviousSequence event + 1)) ||
  negb (ceBindingVersion event =? w64 (ceExpectedBindingVersion event + 1)) ||
  (negb (beq (ceAction event) UPSERT) && negb (beq (ceAction event) REVOKE)).

Definition ControlState_Apply (s : ControlState) (event : ControlEvent) : ControlState * Verdict :=
  let bodyHash := hash (ceSignedBody event) in
  match csReceipts s !! ceIdempotencyKey event with
  | Some prior =>
      bail beq (rcBodyHash prior) bodyHash with
        (s, {| vTerminal := TerminalReplay; vReason := vReason (rcVerdict prior) |});;
      (cs_uncertain s, verdict TerminalInconclusive "IDEMPOTENCY_CONFLICT")
  | None =>
      bail control_malformed event with (s, verdict TerminalInvalid "FIELD_DOMAIN");;
      bail csTombstoned s && beq (ceAction event) UPSERT &&
           (ceBindingVersion event <=? csHighestBindingVersion s)
        with (s, verdict TerminalRevoked "TOMBSTONE_WINS");;
      bail ceStreamSequence event <=? csAppliedSequence s
        with (s, verdict TerminalStale "CONTROL_SEQUENCE_REGRESSION");;
      bail w64 (csAppliedSequence s + 1) <? ceStreamSequence event with
        (bail beq (ceAction event) REVOKE &&
              (csHighestBindingVersion s <? ceBindingVersion event) with
           (let result := verdict TerminalRevoked "DENY_APPLIES_AND_UNCERTAINTY_LATCHES" in
            ({| csAppliedSequence := csAppliedSequence s;
                csHighestBindingVersion := ceBindingVersion event;
                csUncertain := true; csTombstoned := true;
                csReceipts := <[ceIdempotencyKey event :=
                  {| rcBodyHash := bodyHash; rcVerdict := result |}]> (csReceipts s) |}, result));;
         (cs_uncertain s, verdict TerminalInconclusive "CONTROL_GAP"));;
      bail negb (ceExpectedPreviousSequence event =? csAppliedSequence s) ||
           negb (ceExpectedBindingVersion event =? csHighestBindingVersion s)
        with (cs_uncertain s, verdict TerminalInconclusive "CONTROL_GAP");;
      let revoke := beq (ceAction event) REVOKE in
      let result := if revoke then verdict TerminalRevoked "AUTHORITY_REVOKED"
                    else verdict TerminalApplied "" in
      ({| csAppliedSequence := ceStreamSequence event;
          csHighestBindingVersion := ceBindingVersion event;
          csUncertain := csUncertain s; csTombstoned := csTombstoned s || revoke;
          csReceipts := <[ceIdempotencyKey event :=
            {| rcBodyHash := bodyHash; rcVerdict := result |}]> (csReceipts s) |}, result)
  end.

(** ** The watermark *)

Record WatermarkState := {
  wsSequencerEpoch : bytes;
  wsAppliedSequences : gmap Z bool;
  wsContiguousSequence : Z;
  wsWatermarkSequence : Z;
  wsWatermarkHash : bytes;
  wsUncertain : bool;
  wsUncertaintyReason : bytes;
}.

Record Watermark := {
  wmSequencerEpoch : bytes;
  wmWatermarkSequence : Z;
  wmCommittedThroughStreamSequence : Z;
  wmStatus : bytes;
  wmUncertaintyReason : bytes;
  wmExpiresAt : Z;
  wmSignedBody : bytes;
}.

Definition latchUncertainty (s : WatermarkState) (reason : bytes) : WatermarkState * Verdict :=
  ({| wsSequencerEpoch := wsSequencerEpoch s; wsAppliedSequences := wsAppliedSequences s;
      wsContiguousSequence := wsContiguousSequence s;
      wsWatermarkSequence := wsWatermarkSequence s; wsWatermarkHash := wsWatermarkHash s;
      wsUncertain := true; wsUncertaintyReason := reason |},
   {| vTerminal := TerminalInconclusive; vReason := reason |}).

Definition uncertaintyReason (s : WatermarkState) : bytes :=
  if beq (wsUncertaintyReason s) [] then str "SOURCE_UNAVAILABLE" else wsUncertaintyReason s.

(** The loop [for sequence := 1; sequence <= through; sequence++]. *)
Fixpoint contains_from (n : nat) (sequence : Z) (applied : gmap Z bool) : bool :=
  match n with
  | O => true
  | S n => if negb (default false (applied !! sequence)) then false
           else contains_from n (sequence + 1) applied
  end.

Definition containsContiguous (applied : gmap Z bool) (through : Z) : bool :=
  contains_from (Z.to_nat through) 1 applied.

Definition ws_mark (s : WatermarkState) (mark : Watermark) (bodyHash : bytes) : WatermarkState := {|
  wsSequencerEpoch := wsSequencerEpoch s; wsAppliedSequences := wsAppliedSequences s;
  wsContiguousSequence := wsContiguousSequence s;
  wsWatermarkSequence := wmWatermarkSequence mark; wsWatermarkHash := bodyHash;
  wsUncertain := wsUncertain s; wsUncertaintyReason := wsUncertaintyReason s |}.

Definition CURRENT : bytes := str "CURRENT".
Definition UNCERTAIN : bytes := str "UNCERTAIN".
Definition NONE : bytes := str "NONE".

Definition WatermarkState_Apply (s : WatermarkState) (mark : Watermark) (now : Z)
  : WatermarkState * Verdict :=
  bail negb (beq (wmStatus mark) CURRENT) && negb (beq (wmStatus mark) UNCERTAIN)
    with (s, verdict TerminalInvalid "FIELD_DOMAIN");;
  bail beq (wmStatus mark) CURRENT && negb (beq (wmUncertaintyReason mark) NONE)
    with (s, verdict TerminalInvalid "FIELD_DOMAIN");;
  bail beq (wmStatus mark) UNCERTAIN &&
       (beq (wmUncertaintyReason mark) [] || beq (wmUncertaintyReason mark) NONE)
    with (s, verdict TerminalInvalid "FIELD_DOMAIN");;
  bail negb (beq (wmSequencerEpoch mark) (wsSequencerEpoch s))
    with latchUncertainty s (str "EPOCH_MISMATCH");;
  bail negb (before now (wmExpiresAt mark)) with latchUncertainty s (str "WATERMARK_EXPIRED");;
  let bodyHash := hash (wmSignedBody mark) in
  bail wmWatermarkSequence mark <? wsWatermarkSequence s
    with latchUncertainty s (str "WATERMARK_ROLLBACK");;
  bail wmWatermarkSequence mark =? wsWatermarkSequence s with
    (bail beq bodyHash (wsWatermarkHash s) with
       (bail wsUncertain s with
          (s, {| vTerminal := TerminalInconclusive; vReason := uncertaintyReason s |});;
        (s, verdict TerminalReplay ""));;
     latchUncertainty s (str "WATERMARK_ROLLBACK"));;
  bail negb (wsWatermarkSequence s =? 0) &&
       negb (wmWatermarkSequence mark =? w64 (wsWatermarkSequence s + 1))
    with latchUncertainty s (str "WATERMARK_GAP");;
  bail beq (wmStatus mark) UNCERTAIN
    with latchUncertainty (ws_mark s mark bodyHash) (wmUncertaintyReason mark);;
  bail wsUncertain s with
    (s, {| vTerminal := TerminalInconclusive; vReason := uncertaintyReason s |});;
  bail (wsContiguousSequence s <? wmCommittedThroughStreamSequence mark) ||
       negb (containsContiguous (wsAppliedSequences s) (wmCommittedThroughStreamSequence mark))
    with latchUncertainty s (str "WATERMARK_GAP");;
  (ws_mark s mark bodyHash, verdict TerminalApplied "").

(** ** Replacement of a vault's routes *)

Record Route := {
  rtTopicBinding : bytes;
  rtTopicKeyEpoch : Z;
  rtRouteKeyEpoch : Z;
  rtBindingID : bytes;
  rtHMACPeriods : list Z;
}.
#[export] Instance route_eq_dec : EqDecision Route.
Proof. solve_decision. Defined.

Record VaultState := {
  vsInstallationBindingID : bytes;
  vsSubscriptionGeneration : Z;
  vsSequencerEpoch : bytes;
  vsRoutes : list Route;
  vsTombstonedBindings : gmap bytes bool;
}.

Record ReplaceRequest := {
  rrInstallationBindingID : bytes;
  rrSequencerEpoch : bytes;
  rrExpectedSubscriptionGeneration : Z;
  rrSubscriptionGeneration : Z;
  rrRoutes : list Route;
  rrFailAfterValidatingEntry : option Z;
  rrCommitAmbiguous : bool;
  rrConcurrentRevokedBinding : bytes;
}.

Definition uint64Bytes (value : Z) : bytes := be 8 value.

Definition routeCASKey (installationBindingID : bytes) (route : Route) : bytes :=
  installationBindingID ++ [x00] ++ hex_encode (uint64Bytes (rtTopicKeyEpoch route)) ++ [x00] ++
  rtTopicBinding route.

Definition subscriptionLess (left right : Route) : bool :=
  match b64_decode false (rtTopicBinding left), b64_decode false (rtTopicBinding right) with
  | Some leftTopic, Some rightTopic =>
      if negb (beq leftTopic rightTopic) then bytes_lt leftTopic rightTopic else
      match b64_decode false (rtBindingID left), b64_decode false (rtBindingID right) with
      | Some leftBinding, Some rightBinding => bytes_lt leftBinding rightBinding
      | _, _ => bytes_lt (rtBindingID left) (rtBindingID right)
      end
  | _, _ => bytes_lt (rtTopicBinding left) (rtTopicBinding right)
  end.

(** [sort.SliceIsSorted]: no element is less than its predecessor. *)
Fixpoint slice_is_sorted {A : Type} (less : A -> A -> bool) (l : list A) : bool :=
  match l with
  | a :: l' => match l' with b :: _ => negb (less b a) && slice_is_sorted less l' | [] => true end
  | [] => true
  end.

Fixpoint strictly_increasing (l : list Z) : bool :=
  match l with
  | a :: l' => match l' with b :: _ => negb (b <=? a) && strictly_increasing l' | [] => true end
  | [] => true
  end.

(** The validation loop over the candidate; [None] when every entry passes. *)
Fixpoint replace_loop (s : VaultState) (request : ReplaceRequest) (index : Z)
  (seenCAS seenBindings : gset bytes) (candidate : list Route) : option Verdict :=
  match candidate with
  | [] => None
  | route :: rest =>
      bail beq (rrConcurrentRevokedBinding request) (rtBindingID route) ||
           default false (vsTombstonedBindings s !! rtBindingID route)
        with Some (verdict TerminalRevoked "TOMBSTONE_WINS");;
      let key := routeCASKey (rrInstallationBindingID request) route in
      bail bool_decide (key ∈ seenCAS) || bool_decide (rtBindingID route ∈ seenBindings)
        with Some (verdict TerminalInvalid "DUPLICATE_SUBSCRIPTION");;
      bail negb (strictly_increasing (rtHMACPeriods route))
        with Some (verdict TerminalInvalid "HMAC_PERIOD_DUPLICATE");;
      bail match rrFailAfterValidatingEntry request with Some n => index =? n | None => false end
        with Some (verdict TerminalInconclusive "ATOMIC_ROLLBACK_NO_CHANGE");;
      replace_loop s request (index + 1) ({[key]} ∪ seenCAS) ({[rtBindingID route]} ∪ seenBindings)
        rest
  end.

(** Some candidate route has an older route key than the stored route of the same key. *)
Definition route_key_regresses (s : VaultState) (request : ReplaceRequest) : bool :=
  existsb (fun route => existsb (fun stored =>
    beq (routeCASKey (rrInstallationBindingID request) route)
        (routeCASKey (rrInstallationBindingID request) stored) &&
    (rtRouteKeyEpoch route <? rtRouteKeyEpoch stored)) (vsRoutes s)) (rrRoutes request).

Definition Replace (s : VaultState) (request : ReplaceRequest) : VaultState * Verdict :=
  bail negb (beq (rrInstallationBindingID request) (vsInstallationBindingID s)) ||
       negb (beq (rrSequencerEpoch request) (vsSequencerEpoch s))
    with (s, verdict TerminalInvalid "INSTALLATION_MISMATCH");;
  bail negb (rrExpectedSubscriptionGeneration request =? vsSubscriptionGeneration s) ||
       negb (rrSubscriptionGeneration request =? w64 (vsSubscriptionGeneration s + 1))
    with (s, verdict TerminalStale "SUBSCRIPTION_GENERATION");;
  match replace_loop s request 0 ∅ ∅ (rrRoutes request) with
  | Some v => (s, v)
  | None =>
      bail negb (slice_is_sorted subscriptionLess (rrRoutes request))
        with (s, verdict TerminalInvalid "SUBSCRIPTION_ORDER");;
      bail route_key_regresses s request with (s, verdict TerminalStale "ROUTE_KEY_EPOCH");;
      bail rrCommitAmbiguous request
        with (s, verdict TerminalInconclusive "VAULT_COMMIT_AMBIGUOUS");;
      ({| vsInstallationBindingID := vsInstallationBindingID s;
          vsSubscriptionGeneration := rrSubscriptionGeneration request;
          vsSequencerEpoch := vsSequencerEpoch s; vsRoutes := rrRoutes request;
          vsTombstonedBindings := vsTombstonedBindings s |}, verdict TerminalApplied "")
  end.

(** ** Egress and restart *)

Record EgressSnapshot := {
  esGate6Allowed : bool;
  esA9Current : bool;
  esWelcomeAuthorized : bool;
  esAuthorityAvailable : bool;
}.

Definition PreEgress (snapshot : EgressSnapshot) : Verdict :=
  bail esWelcomeAuthorized snapshot with verdict TerminalInvalid "WELCOME_CLOSED";;
  bail negb (esGate6Allowed snapshot) with verdict TerminalInconclusive "GATE6_DENY";;
  bail negb (esA9Current snapshot) || negb (esAuthorityAvailable snapshot)
    with verdict TerminalInconclusive "A9_NOT_CURRENT";;
  verdict TerminalEligible "".

Definition Restart (durableAppliedCursorAvailable : bool) : Verdict :=
  bail negb durableAppliedCursorAvailable with verdict TerminalInconclusive "REPLICA_AMBIGUITY";;
  verdict TerminalApplied "".

(** ** Runs of the control stream *)

(** The final state, and every event with its verdict. *)
Fixpoint control_run (s : ControlState) (events : list ControlEvent)
  : ControlState * list (ControlEvent * Verdict) :=
  match events with
  | [] => (s, [])
  | e :: es =>
      let '(s1, v) := ControlState_Apply s e in
      let '(s2, log) := control_run s1 es in
      (s2, (e, v) :: log)
  end.

Definition AUTHORITY_REVOKED : Verdict := verdict TerminalRevoked "AUTHORITY_REVOKED".
Definition DENY_APPLIES : Verdict := verdict TerminalRevoked "DENY_APPLIES_AND_UNCERTAINTY_LATCHES".

(** The event moved the cursor, or (second) it was accepted at all. *)
Definition in_order (p : ControlEvent * Verdict) : bool :=
  bool_decide (snd p = verdict TerminalApplied "") || bool_decide (snd p = AUTHORITY_REVOKED).
Definition accepted (p : ControlEvent * Verdict) : bool :=
  in_order p || bool_decide (snd p = DENY_APPLIES).

Definition event_typed (e : ControlEvent) : Prop :=
  u64 (ceStreamSequence e) /\ u64 (ceExpectedPreviousSequence e) /\
  u64 (ceBindingVersion e) /\ u64 (ceExpectedBindingVersion e).

Definition zero_control : ControlState := {|
  csAppliedSequence := 0; csHighestBindingVersion := 0; csUncertain := false;
  csTombstoned := false; csReceipts := ∅ |}.

Definition control_typed (s : ControlState) : Prop :=
  u64 (csAppliedSequence s) /\ u64 (csHighestBindingVersion s).

(** The receipt an accepted event leaves. *)
Definition has_receipt (s : ControlState) (e : ControlEvent) (v : Verdict) : Prop :=
  csReceipts s !! ceIdempotencyKey e =
    Some {| rcBodyHash := hash (ceSignedBody e); rcVerdict := v |}.

(** The five outcomes of one call. *)
Inductive control_step (s : ControlState) (e : ControlEvent) (s' : ControlState) (v : Verdict) : Prop :=
| step_in_order :
    csReceipts s !! ceIdempotencyKey e = None ->
    v = (if beq (ceAction e) REVOKE then AUTHORITY_REVOKED else verdict TerminalApplied "") ->
    ceStreamSequence e = csAppliedSequence s + 1 ->
    ceBindingVersion e = csHighestBindingVersion s + 1 ->
    csAppliedSequence s' = ceStreamSequence e -> csHighestBindingVersion s' = ceBindingVersion e ->
    csUncertain s' = csUncertain s ->
    csTombstoned s' = csTombstoned s || beq (ceAction e) REVOKE ->
    has_receipt s' e v ->
    (forall k, k <> ceIdempotencyKey e -> csReceipts s' !! k = csReceipts s !! k) ->
    control_step s e s' v
| step_gap_revoke :
    csReceipts s !! ceIdempotencyKey e = None ->
    v = DENY_APPLIES -> ceAction e = REVOKE -> csAppliedSequence s + 1 < ceStreamSequence e ->
    csHighestBindingVersion s < ceBindingVersion e ->
    csAppliedSequence s' = csAppliedSequence s -> csHighestBindingVersion s' = ceBindingVersion e ->
    csUncertain s' = true -> csTombstoned s' = true -> has_receipt s' e v ->
    (forall k, k <> ceIdempotencyKey e -> csReceipts s' !! k = csReceipts s !! k) ->
    control_step s e s' v
| step_refused :
    accepted (e, v) = false -> (s' = s \/ s' = cs_uncertain s) -> control_step s e s' v.

Lemma wrapped_succ a b : u64 a -> u64 b -> a <> 0 -> a = w64 (b + 1) -> a = b + 1 /\ b + 1 < 2 ^ 64.
Proof.
  unfold u64. intros Ha Hb Hn E. rewrite (w64_succ b Hb) in E.
  destruct (Z.eqb_spec b (2 ^ 64 - 1)); lia.
Qed.

(** ControlState_Apply case by case. *)
Lemma control_apply_step s e s' v :
  control_typed s -> event_typed e -> ControlState_Apply s e = (s', v) -> control_step s e s' v.
Proof.
  intros [Hs1 Hs2] (He1 & He2 & He3 & He4) H. unfold ControlState_Apply in H.
  destruct (csReceipts s !! ceIdempotencyKey e) as [prior|] eqn:Er.
  { case_in H; simplify_eq; apply step_refused; try done; auto. }
  destruct (control_malformed e) eqn:Em; [simplify_eq; apply step_refused; auto|].
  unfold control_malformed in Em. apply orb_false_iff in Em as [Em _].
  apply orb_false_iff in Em as [Em Eb]. apply orb_false_iff in Em as [Em Es].
  apply orb_false_iff in Em as [Es0 Eb0]. boolprop.
  destruct (wrapped_succ _ _ He1 He2 Es0 Es) as [Hseq _].
  destruct (wrapped_succ _ _ He3 He4 Eb0 Eb) as [Hbind _].
  case_in H; [simplify_eq; apply step_refused; auto|].
  case_in H; [simplify_eq; apply step_refused; auto|]. boolprop. unfold u64 in *.
  assert (Hw : w64 (csAppliedSequence s + 1) = csAppliedSequence s + 1)
    by (apply Z.mod_small; lia). rewrite Hw in H.
  case_in H; [case_in H|].
  - boolprop. simplify_eq. apply step_gap_revoke; try done; simpl; try lia.
    + by apply beq_true.
    + unfold has_receipt. simpl. by rewrite lookup_insert_eq.
    + intros k Hk. simpl. by rewrite lookup_insert_ne.
  - simplify_eq; apply step_refused; auto.
  - case_in H; [simplify_eq; apply step_refused; auto|]. boolprop. simplify_eq.
    apply step_in_order; try done; simpl; try lia.
    + unfold has_receipt. simpl. by rewrite lookup_insert_eq.
    + intros k Hk. simpl. by rewrite lookup_insert_ne.
Qed.

Lemma refused_not_in_order p : accepted p = false -> in_order p = false.
Proof. unfold accepted. intros H. by apply orb_false_iff in H as [? _]. Qed.

Lemma in_order_accepted p : in_order p = true -> accepted p = true.
Proof. unfold accepted. by intros ->. Qed.

Lemma in_order_verdict e :
  in_order (e, if beq (ceAction e) REVOKE then AUTHORITY_REVOKED else verdict TerminalApplied "") = true.
Proof. by case_goal. Qed.

Lemma control_step_typed s e s' v :
  control_typed s -> event_typed e -> control_step s e s' v -> control_typed s'.
Proof.
  intros [H1 H2] (He & _ & Hb & _) [] ; unfold control_typed.
  - split; congruence.
  - split; congruence.
  - destruct H0 as [-> | ->]; done.
Qed.

Lemma control_run_cons s e es :
  control_run s (e :: es) =
  let '(s1, v) := ControlState_Apply s e in
  let '(s2, log) := control_run s1 es in (s2, (e, v) :: log).
Proof. done. Qed.

(** Induction over a run, with the step of its first event. *)
Lemma control_run_ind (P : ControlState -> ControlState -> list (ControlEvent * Verdict) -> Prop) :
  (forall s, control_typed s -> P s s []) ->
  (forall s e s1 v s2 log, control_typed s -> event_typed e -> control_step s e s1 v ->
     control_typed s1 -> P s1 s2 log -> P s s2 ((e, v) :: log)) ->
  forall es s s' log, control_typed s -> Forall event_typed es ->
    control_run s es = (s', log) -> P s s' log.
Proof.
  intros Hnil Hcons es. induction es as [|e es IH]; intros s s' log Hs Hes H.
  { simpl in H. simplify_eq. by apply Hnil. }
  rewrite control_run_cons in H.
  destruct (ControlState_Apply s e) as [s1 v] eqn:Ea.
  destruct (control_run s1 es) as [s2 l] eqn:Er. simplify_eq.
  apply Forall_cons in Hes as [He Hes]. apply control_apply_step in Ea; try done.
  pose proof (control_step_typed _ _ _ _ Hs He Ea). eapply Hcons; eauto.
Qed.

(** The cursor counts the in-order events, whose sequences are consecutive. *)
Lemma control_run_sequences es s s' log :
  control_typed s -> Forall event_typed es -> control_run s es = (s', log) ->
  csAppliedSequence s <= csAppliedSequence s' /\
  map (fun p => ceStreamSequence (fst p)) (List.filter in_order log) =
  seqZ (csAppliedSequence s + 1) (csAppliedSequence s' - csAppliedSequence s).
Proof.
  revert es s s' log. apply control_run_ind.
  - intros s _. split; [lia|]. by rewrite Z.sub_diag.
  - intros s e s1 v s2 log _ _ Hstep _ [Hle IH]. destruct Hstep as
      [_ -> Hseq _ Ha _ _ _ _ _|_ -> _ _ _ Ha _ _ _ _ _|Hr Hs].
    + simpl List.filter. rewrite in_order_verdict. simpl map. rewrite IH, Ha, Hseq.
      rewrite Ha in Hle. split; [lia|].
      rewrite (seqZ_cons (_ + 1) (csAppliedSequence s2 - csAppliedSequence s)) by lia.
      f_equal. f_equal; lia.
    + simpl List.filter. by rewrite Ha in *.
    + simpl List.filter. rewrite (refused_not_in_order _ Hr).
      by destruct Hs as [-> | ->].
Qed.

(** Accepted events have binding versions above every earlier one. *)
Lemma control_run_versions es s s' log :
  control_typed s -> Forall event_typed es -> control_run s es = (s', log) ->
  csHighestBindingVersion s <= csHighestBindingVersion s' /\
  StronglySorted (fun p q => ceBindingVersion (fst p) < ceBindingVersion (fst q))
    (List.filter accepted log) /\
  Forall (fun p => csHighestBindingVersion s < ceBindingVersion (fst p) <= csHighestBindingVersion s')
    (List.filter accepted log).
Proof.
  revert es s s' log. apply control_run_ind.
  - intros s _. split; [lia|]. split; constructor.
  - intros s e s1 v s2 log _ _ Hstep _ (Hle & Hsort & Hall).
    assert (Hacc : accepted (e, v) = true -> csHighestBindingVersion s < ceBindingVersion e ->
      csHighestBindingVersion s1 = ceBindingVersion e ->
      csHighestBindingVersion s <= csHighestBindingVersion s2 /\
      StronglySorted (fun p q => ceBindingVersion (fst p) < ceBindingVersion (fst q))
        (List.filter accepted ((e, v) :: log)) /\
      Forall (fun p => csHighestBindingVersion s < ceBindingVersion (fst p) <= csHighestBindingVersion s2)
        (List.filter accepted ((e, v) :: log))).
    { intros Ha Hlt Heq. simpl List.filter. rewrite Ha. split; [lia|]. split.
      - constructor; [done|]. eapply Forall_impl; [exact Hall|]. intros p Hp. simpl in *. lia.
      - constructor; [simpl; lia|]. eapply Forall_impl; [exact Hall|]. intros p Hp. simpl in *. lia. }
    destruct Hstep as [_ -> _ Hb _ Hh _ _ _ _|_ -> _ _ Hb _ Hh _ _ _ _|Hr Hs].
    + apply Hacc; [apply in_order_accepted, in_order_verdict|lia|done].
    + apply Hacc; [done|lia|done].
    + simpl List.filter. rewrite Hr. by destruct Hs as [-> | ->].
Qed.

(** Receipts are kept, and tombstone and uncertainty are never cleared. *)
Lemma control_run_keeps es s s' log :
  control_typed s -> Forall event_typed es -> control_run s es = (s', log) ->
  (forall k r, csReceipts s !! k = Some r -> csReceipts s' !! k = Some r) /\
  (csTombstoned s = true -> csTombstoned s' = true) /\
  (csUncertain s = true -> csUncertain s' = true).
Proof.
  revert es s s' log. apply control_run_ind; [done|].
  intros s e s1 v s2 log _ _ Hstep _ (Hr & Ht & Hu).
  destruct Hstep as [Hn _ _ _ _ _ Hun Htb _ Hk|Hn _ _ _ _ _ _ Hun Htb _ Hk|_ [-> | ->]]; [| |done|].
  - split; [|split; [intros E; apply Ht; by rewrite Htb, E|intros E; apply Hu; congruence]].
    intros k r E. apply Hr. rewrite Hk; [done|]. intros ->. congruence.
  - split; [|split; intros _; auto]. intros k r E. apply Hr. rewrite Hk; [done|]. intros ->. congruence.
  - split; [exact Hr|]. split; [exact Ht|]. intros _. by apply Hu.
Qed.

(** ** Properties of the control stream *)

(** from an empty state, whatever events arrive, those applied in order have the
    stream sequences 1, 2, ..., n with n the applied cursor; gap, stale, replayed and
    malformed events never move it. *)
Theorem control_stream_contiguous (es : list ControlEvent) (s' : ControlState)
  (log : list (ControlEvent * Verdict)) :
  Forall event_typed es -> control_run zero_control es = (s', log) ->
  map (fun p => ceStreamSequence (fst p)) (List.filter in_order log) =
  seqZ 1 (csAppliedSequence s').
Proof.
  intros Hes H. destruct (control_run_sequences es zero_control s' log) as [_ ->]; try done.
  simpl. by rewrite Z.sub_0_r.
Qed.

(** denial wins. The events a run accepts, the revocations taken across a gap
    included, have strictly increasing binding versions: once a revocation of some version
    was accepted, no upsert of that or an older version is ever applied. The tombstone and
    the uncertainty latch are never cleared. *)
Theorem control_denial_wins (es : list ControlEvent) (s s' : ControlState)
  (log : list (ControlEvent * Verdict)) :
  control_typed s -> Forall event_typed es -> control_run s es = (s', log) ->
  StronglySorted (fun p q => ceBindingVersion (fst p) < ceBindingVersion (fst q))
    (List.filter accepted log) /\
  (csTombstoned s = true -> csTombstoned s' = true) /\
  (csUncertain s = true -> csUncertain s' = true).
Proof.
  intros Hs Hes H. destruct (control_run_versions _ _ _ _ Hs Hes H) as (_ & ? & _).
  by destruct (control_run_keeps _ _ _ _ Hs Hes H) as (_ & ? & ?).
Qed.

(** An accepted event is idempotent for ever: after any later events, delivering it
    again returns REPLAY with the reason of the first verdict and changes nothing, and its
    idempotency key with a body of another hash is INCONCLUSIVE and latches uncertainty. *)
Theorem control_replay_idempotent (e e' : ControlEvent) (es : list ControlEvent)
  (s s1 s2 : ControlState) (v : Verdict) (log : list (ControlEvent * Verdict)) :
  control_typed s -> event_typed e -> Forall event_typed es ->
  ControlState_Apply s e = (s1, v) -> accepted (e, v) = true ->
  control_run s1 es = (s2, log) -> ceIdempotencyKey e' = ceIdempotencyKey e ->
  (hash (ceSignedBody e') = hash (ceSignedBody e) ->
   ControlState_Apply s2 e' = (s2, {| vTerminal := TerminalReplay; vReason := vReason v |})) /\
  (hash (ceSignedBody e') <> hash (ceSignedBody e) ->
   ControlState_Apply s2 e' = (cs_uncertain s2, verdict TerminalInconclusive "IDEMPOTENCY_CONFLICT")).
Proof.
  intros Hs He Hes Ha Hacc Hrun Hk. apply control_apply_step in Ha; try done.
  pose proof (control_step_typed _ _ _ _ Hs He Ha) as Hs1.
  destruct (control_run_keeps _ _ _ _ Hs1 Hes Hrun) as (Hkeep & _).
  assert (Hrec : has_receipt s1 e v) by (destruct Ha; [done|done|congruence]).
  apply Hkeep in Hrec. unfold ControlState_Apply. rewrite Hk, Hrec. cbn [rcBodyHash rcVerdict].
  split; intros Hh.
  - by rewrite Hh, beq_refl.
  - rewrite (proj2 (beq_false _ _)); [done|congruence].
Qed.

(** ** Runs of the watermark *)

Fixpoint watermark_run (s : WatermarkState) (marks : list (Watermark * Z))
  : WatermarkState * list Verdict :=
  match marks with
  | [] => (s, [])
  | (m, now) :: ms =>
      let '(s1, v) := WatermarkState_Apply s m now in
      let '(s2, vs) := watermark_run s1 ms in (s2, v :: vs)
  end.

Lemma contains_from_true n i applied :
  contains_from n i applied = true <->
  forall k, i <= k < i + Z.of_nat n -> applied !! k = Some true.
Proof.
  revert i. induction n as [|n IH]; intros i; cbn [contains_from].
  - split; [intros _ k Hk; lia|done].
  - destruct (applied !! i) as [[]|] eqn:E; cbn [default negb from_option].
    + change (negb (id true)) with false. cbv iota. rewrite IH. split; intros H k Hk.
      * destruct (decide (k = i)) as [->|]; [done|]. apply H. lia.
      * apply H. lia.
    + change (negb (id false)) with true. cbv iota. split; [done|]. intros H. exfalso.
      assert (applied !! i = Some true) by (apply H; lia). congruence.
    + split; [done|]. intros H. exfalso.
      assert (applied !! i = Some true) by (apply H; lia). congruence.
Qed.

Lemma containsContiguous_true applied through :
  containsContiguous applied through = true <->
  forall k, 1 <= k <= through -> applied !! k = Some true.
Proof.
  unfold containsContiguous. rewrite contains_from_true. split; intros H k Hk; apply H; lia.
Qed.

(** What one call does to the state and when it says APPLIED. *)
Record watermark_facts (s : WatermarkState) (m : Watermark) (now : Z) (s' : WatermarkState)
  (v : Verdict) : Prop := {
  wf_epoch : wsSequencerEpoch s' = wsSequencerEpoch s;
  wf_sequence : wsWatermarkSequence s <= wsWatermarkSequence s';
  wf_latch : wsUncertain s = true -> wsUncertain s' = true /\
    (vTerminal v = TerminalInvalid \/ vTerminal v = TerminalInconclusive);
  wf_inconclusive : vTerminal v = TerminalInconclusive -> wsUncertain s' = true;
  wf_applied : vTerminal v = TerminalApplied ->
    wsUncertain s = false /\ wmStatus m = CURRENT /\ now < wmExpiresAt m /\
    wmSequencerEpoch m = wsSequencerEpoch s /\
    (wsWatermarkSequence s = 0 \/ wmWatermarkSequence m = wsWatermarkSequence s + 1) /\
    wsWatermarkSequence s < wmWatermarkSequence m /\
    wsWatermarkSequence s' = wmWatermarkSequence m /\
    wsWatermarkHash s' = hash (wmSignedBody m) /\
    wmCommittedThroughStreamSequence m <= wsContiguousSequence s /\
    (forall k, 1 <= k <= wmCommittedThroughStreamSequence m -> wsAppliedSequences s !! k = Some true);
}.

Lemma watermark_apply_facts s m now s' v :
  u64 (wsWatermarkSequence s) -> u64 (wmWatermarkSequence m) ->
  WatermarkState_Apply s m now = (s', v) -> watermark_facts s m now s' v.
Proof.
  intros Hs Hm H.
  assert (Hlatch : forall s0 reason, latchUncertainty s0 reason = (s', v) ->
    wsSequencerEpoch s0 = wsSequencerEpoch s -> wsWatermarkSequence s <= wsWatermarkSequence s0 ->
    watermark_facts s m now s' v).
  { unfold latchUncertainty. intros s0 reason E He Hq. injection E as <- <-. constructor; simpl; auto. done. }
  assert (Hsame : forall v0, (s, v0) = (s', v) ->
    vTerminal v0 = TerminalInvalid \/ (vTerminal v0 = TerminalInconclusive /\ wsUncertain s = true) \/
    (vTerminal v0 = TerminalReplay /\ wsUncertain s = false) -> watermark_facts s m now s' v).
  { intros v0 E Hc. injection E as <- <-. constructor; try done.
    - intros Hu. split; [done|]. destruct Hc as [?|[[? _]|[_ ?]]]; auto. congruence.
    - intros Hv. destruct Hc as [Hi|[[_ ?]|[Hi _]]]; [|done|]; by rewrite Hi in Hv.
    - intros Hv. destruct Hc as [Hi|[[Hi _]|[Hi _]]]; by rewrite Hi in Hv. }
  unfold WatermarkState_Apply in H.
  do 3 (case_in H; [eapply Hsame; [exact H|by left]|]).
  case_in H; [by eapply Hlatch; [exact H|done|lia]|].
  case_in H; [by eapply Hlatch; [exact H|done|lia]|].
  case_in H; [by eapply Hlatch; [exact H|done|lia]|].
  case_in H.
  { case_in H; [|by eapply Hlatch; [exact H|done|lia]]. boolprop.
    case_in H; (eapply Hsame; [exact H|right; auto]). }
  case_in H; [by eapply Hlatch; [exact H|done|lia]|]. boolprop.
  case_in H; [eapply Hlatch; [exact H|done|simpl; lia]|].
  case_in H; [eapply Hsame; [exact H|right; auto]|].
  case_in H; [by eapply Hlatch; [exact H|done|lia]|].
  simplify_eq. boolprop. unfold before in *. boolprop.
  constructor; simpl; try done; try lia; try congruence. intros _.
  assert (Hcur : wmStatus m = CURRENT).
  { apply beq_true. destruct (beq (wmStatus m) CURRENT); [done|].
    destruct (beq (wmStatus m) UNCERTAIN); done. }
  beqs.
  repeat split; try done; try lia.
  - match goal with E : negb (wsWatermarkSequence s =? 0) && _ = false |- _ => rename E into Eg end.
    destruct (Z.eqb_spec (wsWatermarkSequence s) 0) as [|Hn]; [by left|right].
    cbn [negb andb] in Eg. boolprop. rewrite Eg, w64_succ by done. unfold u64 in *.
    destruct (Z.eqb_spec (wsWatermarkSequence s) (2 ^ 64 - 1)); lia.
  - by apply containsContiguous_true.
Qed.

(** The watermark's uncertainty latch. Once uncertain, every later mark is refused as
    INVALID or INCONCLUSIVE and the state stays uncertain, and the watermark sequence
    never decreases over a run. *)
Theorem watermark_latch (marks : list (Watermark * Z)) (s s' : WatermarkState) (vs : list Verdict) :
  u64 (wsWatermarkSequence s) -> Forall (fun p => u64 (wmWatermarkSequence (fst p))) marks ->
  watermark_run s marks = (s', vs) ->
  wsWatermarkSequence s <= wsWatermarkSequence s' /\
  (wsUncertain s = true -> wsUncertain s' = true /\
   Forall (fun v => vTerminal v = TerminalInvalid \/ vTerminal v = TerminalInconclusive) vs).
Proof.
  revert s s' vs. induction marks as [|[m now] ms IH]; intros s s' vs Hs Hms H.
  { simpl in H. simplify_eq. split; [lia|]. intros Hu. by split; [|constructor]. }
  cbn [watermark_run] in H. apply Forall_cons in Hms as [Hm Hms].
  destruct (WatermarkState_Apply s m now) as [s1 v] eqn:Ea.
  destruct (watermark_run s1 ms) as [s2 vs2] eqn:Er. simplify_eq.
  pose proof (watermark_apply_facts _ _ _ _ _ Hs Hm Ea) as [_ Hq Hl _ _].
  assert (Hs1 : u64 (wsWatermarkSequence s1)).
  { unfold WatermarkState_Apply, latchUncertainty in Ea. cases_in Ea; simplify_eq; done. }
  destruct (IH _ _ _ Hs1 Hms Er) as [Hq2 Hl2]. split; [lia|].
  intros Hu. destruct (Hl Hu) as [Hu1 Hv]. destruct (Hl2 Hu1) as [Hu2 Hvs].
  split; [done|by constructor].
Qed.

(** a watermark is APPLIED only when the state was certain, the mark is CURRENT, of
    the state's sequencer epoch and unexpired, its sequence directly follows the recorded
    one (or is the first), and every stream sequence up to its committed position has been
    applied; the state then records exactly this mark. Every other well-formed outcome
    leaves the state uncertain or is a replay of the recorded mark. *)
Theorem watermark_applied_sound (s s' : WatermarkState) (m : Watermark) (now : Z) (v : Verdict) :
  u64 (wsWatermarkSequence s) -> u64 (wmWatermarkSequence m) ->
  WatermarkState_Apply s m now = (s', v) ->
  (vTerminal v = TerminalApplied ->
    wsUncertain s = false /\ wmStatus m = CURRENT /\ now < wmExpiresAt m /\
    wmSequencerEpoch m = wsSequencerEpoch s /\
    (wsWatermarkSequence s = 0 \/ wmWatermarkSequence m = wsWatermarkSequence s + 1) /\
    (forall k, 1 <= k <= wmCommittedThroughStreamSequence m ->
       wsAppliedSequences s !! k = Some true) /\
    wsWatermarkSequence s' = wmWatermarkSequence m /\
    wsWatermarkHash s' = hash (wmSignedBody m)) /\
  (vTerminal v = TerminalInconclusive -> wsUncertain s' = true) /\
  (vTerminal v = TerminalReplay -> s' = s).
Proof.
  intros Hs Hm H. pose proof (watermark_apply_facts _ _ _ _ _ Hs Hm H) as [_ _ _ Hi Ha].
  split; [|split; [done|]].
  - intros Hv. destruct (Ha Hv) as (? & ? & ? & ? & ? & _ & ? & ? & _ & ?). repeat split; done.
  - intros Hv. unfold WatermarkState_Apply, latchUncertainty in H. cases_in H; simplify_eq; done.
Qed.

(** ** Properties of the replacement *)

Definition route_key (r : Route) : Z * bytes := (rtTopicKeyEpoch r, rtTopicBinding r).

(** The CAS key of a route, for one installation, is its topic key epoch and topic. *)
Lemma routeCASKey_inj i a b :
  u64 (rtTopicKeyEpoch a) -> u64 (rtTopicKeyEpoch b) ->
  routeCASKey i a = routeCASKey i b <-> route_key a = route_key b.
Proof.
  unfold u64, routeCASKey, route_key. intros Ha Hb. split; [|by intros [= -> ->]].
  intros H. do 2 apply app_inv_head in H.
  apply app_inj_length in H as [He H]; [|by rewrite !length_hex_encode; unfold uint64Bytes; rewrite !length_be].
  apply hex_encode_inj, be_inj in He; [|done..]. apply app_inv_head in H. congruence.
Qed.

(** What the validation loop establishes for the entries it saw. *)
Definition entry_ok (s : VaultState) (request : ReplaceRequest) (r : Route) : Prop :=
  rrConcurrentRevokedBinding request <> rtBindingID r /\
  vsTombstonedBindings s !! rtBindingID r <> Some true /\
  strictly_increasing (rtHMACPeriods r) = true.

Lemma entry_live_iff s request r :
  beq (rrConcurrentRevokedBinding request) (rtBindingID r) ||
  default false (vsTombstonedBindings s !! rtBindingID r) = false <->
  rrConcurrentRevokedBinding request <> rtBindingID r /\
  vsTombstonedBindings s !! rtBindingID r <> Some true.
Proof.
  rewrite orb_false_iff, beq_false. destruct (vsTombstonedBindings s !! rtBindingID r) as [[]|]; naive_solver.
Qed.

Lemma replace_loop_none s request l : forall i cas bindings,
  rrFailAfterValidatingEntry request = None ->
  (replace_loop s request i cas bindings l = None <->
   Forall (entry_ok s request) l /\
   NoDup (map (routeCASKey (rrInstallationBindingID request)) l) /\
   NoDup (map rtBindingID l) /\
   Forall (fun r => routeCASKey (rrInstallationBindingID request) r ∉ cas /\
                    rtBindingID r ∉ bindings) l).
Proof.
  induction l as [|r l IH]; intros i cas bindings Hf.
  { split; [intros _; repeat constructor|done]. }
  cbn [replace_loop map]. rewrite Hf, Forall_cons, Forall_cons, !NoDup_cons.
  set (key := routeCASKey (rrInstallationBindingID request) r).
  destruct (beq _ _ || default false _) eqn:El.
  { split; [done|]. intros [[(Hc & Ht & _) _] _]. by rewrite (proj2 (entry_live_iff s request r)) in El. }
  apply entry_live_iff in El as [Hc Ht].
  destruct (bool_decide_reflect (key ∈ cas)) as [Hk|Hk]; cbn [orb].
  { split; [done|]. intros (_ & _ & _ & [[? _] _]). done. }
  destruct (bool_decide_reflect (rtBindingID r ∈ bindings)) as [Hb|Hb].
  { split; [done|]. intros (_ & _ & _ & [[_ ?] _]). done. }
  destruct (strictly_increasing (rtHMACPeriods r)) eqn:Ep; cbn [negb].
  2: { split; [done|]. intros [[(_ & _ & ?) _] _]. congruence. }
  rewrite IH by done. split.
  - intros (Ha & Hn1 & Hn2 & Hfresh). rewrite Forall_forall in Hfresh.
    repeat split; try done.
    + rewrite list_elem_of_fmap. intros (r' & Hr' & Hin). destruct (Hfresh _ Hin) as [Hx _]. set_solver.
    + rewrite list_elem_of_fmap. intros (r' & Hr' & Hin). destruct (Hfresh _ Hin) as [_ Hx]. set_solver.
    + apply Forall_forall. intros r' Hin. destruct (Hfresh _ Hin). set_solver.
  - intros ([_ Ha] & [Hk1 Hn1] & [Hb1 Hn2] & [_ Hfresh]). rewrite Forall_forall in Hfresh.
    repeat split; try done. apply Forall_forall. intros r' Hin. destruct (Hfresh _ Hin) as [Hx Hy].
    rewrite list_elem_of_fmap in Hk1, Hb1. split.
    + rewrite not_elem_of_union, not_elem_of_singleton. split; [|done]. intros E. apply Hk1. by exists r'.
    + rewrite not_elem_of_union, not_elem_of_singleton. split; [|done]. intros E. apply Hb1. by exists r'.
Qed.

(** The conditions under which a replacement is published. *)
Record admissible (s : VaultState) (request : ReplaceRequest) : Prop := {
  ad_installation : rrInstallationBindingID request = vsInstallationBindingID s;
  ad_epoch : rrSequencerEpoch request = vsSequencerEpoch s;
  ad_expected : rrExpectedSubscriptionGeneration request = vsSubscriptionGeneration s;
  ad_generation : rrSubscriptionGeneration request = w64 (vsSubscriptionGeneration s + 1);
  ad_entries : Forall (entry_ok s request) (rrRoutes request);
  ad_keys : NoDup (map (routeCASKey (rrInstallationBindingID request)) (rrRoutes request));
  ad_bindings : NoDup (map rtBindingID (rrRoutes request));
  ad_sorted : slice_is_sorted subscriptionLess (rrRoutes request) = true;
  ad_route_keys : forall r stored, r ∈ rrRoutes request -> stored ∈ vsRoutes s ->
    routeCASKey (rrInstallationBindingID request) r =
      routeCASKey (rrInstallationBindingID request) stored ->
    rtRouteKeyEpoch stored <= rtRouteKeyEpoch r;
  ad_commit : rrCommitAmbiguous request = false;
}.

Lemma route_key_regresses_false s request :
  route_key_regresses s request = false <->
  forall r stored, r ∈ rrRoutes request -> stored ∈ vsRoutes s ->
    routeCASKey (rrInstallationBindingID request) r =
      routeCASKey (rrInstallationBindingID request) stored ->
    rtRouteKeyEpoch stored <= rtRouteKeyEpoch r.
Proof.
  unfold route_key_regresses. split.
  - intros H r st Hr Hst Hk. destruct (Z.ltb_spec (rtRouteKeyEpoch r) (rtRouteKeyEpoch st)); [|done].
    assert (existsb (fun route => existsb (fun stored =>
      beq (routeCASKey (rrInstallationBindingID request) route)
        (routeCASKey (rrInstallationBindingID request) stored) &&
      (rtRouteKeyEpoch route <? rtRouteKeyEpoch stored)) (vsRoutes s)) (rrRoutes request) = true);
      [|congruence].
    apply existsb_exists. exists r. split; [by apply list_elem_of_In|].
    apply existsb_exists. exists st. split; [by apply list_elem_of_In|].
    rewrite (proj2 (beq_true _ _) Hk). by apply Z.ltb_lt.
  - intros H. apply not_true_is_false. intros E. apply existsb_exists in E as (r & Hr & E).
    apply existsb_exists in E as (st & Hst & E). boolprop. apply beq_true in H0.
    apply list_elem_of_In in Hr, Hst. specialize (H _ _ Hr Hst H0). lia.
Qed.

Lemma replace_loop_refuses s request l : forall i cas bs v,
  replace_loop s request i cas bs l = Some v -> vTerminal v <> TerminalApplied.
Proof.
  induction l as [|r l IH]; intros i cas bs v H; [done|].
  cbn [replace_loop] in H.
  repeat (match type of H with (if ?c then _ else _) = _ => destruct c; [by simplify_eq|] end).
  by eapply IH.
Qed.

(** The shape of every refusing case. *)
Lemma replace_refused s request v :
  Replace s request = (s, v) -> vTerminal v <> TerminalApplied ->
  (rrFailAfterValidatingEntry request = None -> ~ admissible s request) ->
  (rrFailAfterValidatingEntry request = None ->
   (vTerminal (snd (Replace s request)) = TerminalApplied <-> admissible s request)) /\
  (vTerminal (snd (Replace s request)) = TerminalApplied ->
   vsRoutes (fst (Replace s request)) = rrRoutes request /\
   vsSubscriptionGeneration (fst (Replace s request)) = w64 (vsSubscriptionGeneration s + 1)) /\
  (vTerminal (snd (Replace s request)) <> TerminalApplied -> fst (Replace s request) = s).
Proof.
  intros -> Hv Hn. cbn [fst snd]. split; [|by split]. intros Hf. specialize (Hn Hf). tauto.
Qed.

(** The atomic replacement. A request that injects no fault publishes its routes
    exactly when it names the installation and sequencer epoch, carries the next
    generation, lists no revoked binding, no duplicate key or binding, strictly increasing
    HMAC periods, in subscription order, without an older route key than the stored one.
    In every other case, faults included, the vault is unchanged. *)
Theorem vault_replace_atomic (s : VaultState) (request : ReplaceRequest) :
  (rrFailAfterValidatingEntry request = None ->
   (vTerminal (snd (Replace s request)) = TerminalApplied <-> admissible s request)) /\
  (vTerminal (snd (Replace s request)) = TerminalApplied ->
   vsRoutes (fst (Replace s request)) = rrRoutes request /\
   vsSubscriptionGeneration (fst (Replace s request)) = w64 (vsSubscriptionGeneration s + 1)) /\
  (vTerminal (snd (Replace s request)) <> TerminalApplied -> fst (Replace s request) = s).
Proof.
  destruct (beq (rrInstallationBindingID request) (vsInstallationBindingID s)) eqn:E1.
  2: { eapply replace_refused; [unfold Replace; rewrite E1; reflexivity|done|].
       intros _ [Hx _ _ _ _ _ _ _ _ _]. by apply beq_true in Hx; rewrite Hx in E1. }
  destruct (beq (rrSequencerEpoch request) (vsSequencerEpoch s)) eqn:E2.
  2: { eapply replace_refused; [unfold Replace; rewrite E1, E2; reflexivity|done|].
       intros _ [_ Hx _ _ _ _ _ _ _ _]. by apply beq_true in Hx; rewrite Hx in E2. }
  destruct (Z.eqb (rrExpectedSubscriptionGeneration request) (vsSubscriptionGeneration s)) eqn:E3.
  2: { eapply replace_refused; [unfold Replace; rewrite E1, E2, E3; reflexivity|done|].
       intros _ [_ _ Hx _ _ _ _ _ _ _]. boolprop. done. }
  destruct (Z.eqb (rrSubscriptionGeneration request) (w64 (vsSubscriptionGeneration s + 1))) eqn:E4.
  2: { eapply replace_refused; [unfold Replace; rewrite E1, E2, E3, E4; reflexivity|done|].
       intros _ [_ _ _ Hx _ _ _ _ _ _]. boolprop. done. }
  destruct (replace_loop s request 0 ∅ ∅ (rrRoutes request)) as [v|] eqn:E5.
  { eapply replace_refused; [unfold Replace; rewrite E1, E2, E3, E4, E5; reflexivity|by eapply replace_loop_refuses|].
    intros Hf [_ _ _ _ He Hk Hb _ _ _].
    assert (Hl : replace_loop s request 0 ∅ ∅ (rrRoutes request) = None); [|congruence].
    apply replace_loop_none; [done|]. split; [done|]. split; [done|]. split; [done|].
    apply Forall_forall. intros r _. split; apply not_elem_of_empty. }
  destruct (slice_is_sorted subscriptionLess (rrRoutes request)) eqn:E6.
  2: { eapply replace_refused; [unfold Replace; rewrite E1, E2, E3, E4, E5, E6; reflexivity|done|].
       intros _ [_ _ _ _ _ _ _ Hx _ _]. congruence. }
  destruct (route_key_regresses s request) eqn:E7.
  { eapply replace_refused; [unfold Replace; rewrite E1, E2, E3, E4, E5, E6, E7; reflexivity|done|].
    intros _ [_ _ _ _ _ _ _ _ Hx _]. apply route_key_regresses_false in Hx. congruence. }
  destruct (rrCommitAmbiguous request) eqn:E8.
  { eapply replace_refused; [unfold Replace; rewrite E1, E2, E3, E4, E5, E6, E7, E8; reflexivity|done|].
    intros _ [_ _ _ _ _ _ _ _ _ Hx]. congruence. }
  unfold Replace. rewrite E1, E2, E3, E4, E5, E6, E7, E8. cbn [negb orb fst snd vsRoutes vsSubscriptionGeneration].
  boolprop. apply beq_true in E1, E2. split; [|by split].
  intros Hf. split; [|done]. intros _. apply replace_loop_none in E5 as (? & ? & ? & _); [|done].
  by constructor; try (apply route_key_regresses_false).
Qed.

(** ** Witnesses *)

Definition upsert (k : string) (seq v : Z) : ControlEvent := {|
  ceIdempotencyKey := str k; ceSignedBody := str k; ceStreamSequence := seq;
  ceExpectedPreviousSequence := seq - 1; ceBindingVersion := v; ceExpectedBindingVersion := v - 1;
  ceAction := UPSERT |}.
Definition revoke (k : string) (seq v : Z) : ControlEvent := {|
  ceIdempotencyKey := str k; ceSignedBody := str k; ceStreamSequence := seq;
  ceExpectedPreviousSequence := seq - 1; ceBindingVersion := v; ceExpectedBindingVersion := v - 1;
  ceAction := REVOKE |}.

(** An upsert, a revocation across a gap, and an upsert the tombstone refuses. *)
Definition sample_events : list ControlEvent := [upsert "a" 1 1; revoke "b" 5 4; upsert "c" 2 2].

Lemma sample_events_typed : Forall event_typed sample_events.
Proof. repeat constructor; simpl; lia. Qed.

Lemma zero_control_typed : control_typed zero_control.
Proof. unfold control_typed, u64. simpl. lia. Qed.

Lemma control_stream_contiguous_witness :
  Forall event_typed sample_events /\
  map (fun p => ceStreamSequence (fst p)) (List.filter in_order (snd (control_run zero_control sample_events)))
  = seqZ 1 (csAppliedSequence (fst (control_run zero_control sample_events))).
Proof.
  split; [apply sample_events_typed|].
  apply (control_stream_contiguous sample_events); [apply sample_events_typed|].
  apply surjective_pairing.
Defined.

Lemma control_denial_wins_witness :
  Forall event_typed sample_events /\
  StronglySorted (fun p q => ceBindingVersion (fst p) < ceBindingVersion (fst q))
    (List.filter accepted (snd (control_run zero_control sample_events))).
Proof.
  split; [apply sample_events_typed|].
  apply (control_denial_wins sample_events zero_control (fst (control_run zero_control sample_events)));
    [apply zero_control_typed|apply sample_events_typed|apply surjective_pairing].
Defined.

Definition state_after (es : list ControlEvent) : ControlState := fst (control_run zero_control es).

Lemma control_replay_idempotent_witness :
  ControlState_Apply (state_after sample_events) (upsert "a" 1 1) =
  (state_after sample_events, {| vTerminal := TerminalReplay; vReason := [] |}).
Proof.
  apply (control_replay_idempotent (upsert "a" 1 1) (upsert "a" 1 1) [revoke "b" 5 4; upsert "c" 2 2]
    zero_control (state_after [upsert "a" 1 1]) (state_after sample_events) (verdict TerminalApplied "")
    (snd (control_run (state_after [upsert "a" 1 1]) [revoke "b" 5 4; upsert "c" 2 2])));
    try reflexivity.
  - apply zero_control_typed.
  - apply (Forall_inv sample_events_typed).
  - apply (Forall_inv_tail sample_events_typed).
Defined.

Definition sample_watermark_state : WatermarkState := {|
  wsSequencerEpoch := str "e"; wsAppliedSequences := {[1 := true; 2 := true]};
  wsContiguousSequence := 2; wsWatermarkSequence := 4; wsWatermarkHash := [];
  wsUncertain := false; wsUncertaintyReason := [] |}.

Definition sample_mark (seq through : Z) : Watermark := {|
  wmSequencerEpoch := str "e"; wmWatermarkSequence := seq;
  wmCommittedThroughStreamSequence := through; wmStatus := CURRENT; wmUncertaintyReason := NONE;
  wmExpiresAt := 10; wmSignedBody := str "m" |}.

(** A mark beyond the contiguous cursor latches; the next correct one is refused. *)
Lemma watermark_latch_witness :
  wsUncertain (fst (WatermarkState_Apply sample_watermark_state (sample_mark 5 3) 0)) = true /\
  Forall (fun v => vTerminal v = TerminalInvalid \/ vTerminal v = TerminalInconclusive)
    (snd (watermark_run (fst (WatermarkState_Apply sample_watermark_state (sample_mark 5 3) 0))
       [(sample_mark 5 2, 0)])).
Proof.
  split; [reflexivity|].
  apply (watermark_latch [(sample_mark 5 2, 0)]
    (fst (WatermarkState_Apply sample_watermark_state (sample_mark 5 3) 0))
    (fst (watermark_run (fst (WatermarkState_Apply sample_watermark_state (sample_mark 5 3) 0))
       [(sample_mark 5 2, 0)]))); [..|apply surjective_pairing|reflexivity].
  - vm_compute. split; [intros E; discriminate E|reflexivity].
  - repeat constructor; simpl; lia.
Defined.

Lemma watermark_applied_sound_witness :
  vTerminal (snd (WatermarkState_Apply sample_watermark_state (sample_mark 5 2) 0)) = TerminalApplied /\
  forall k, 1 <= k <= 2 -> wsAppliedSequences sample_watermark_state !! k = Some true.
Proof.
  split; [reflexivity|].
  apply (watermark_applied_sound sample_watermark_state
    (fst (WatermarkState_Apply sample_watermark_state (sample_mark 5 2) 0))
    (sample_mark 5 2) 0 (verdict TerminalApplied "")); [unfold u64; simpl; lia..|reflexivity|reflexivity].
Defined.

Definition sample_vault : VaultState := {|
  vsInstallationBindingID := str "i"; vsSubscriptionGeneration := 7; vsSequencerEpoch := str "e";
  vsRoutes := []; vsTombstonedBindings := {[str "dead" := true]} |}.

Definition sample_replace : ReplaceRequest := {|
  rrInstallationBindingID := str "i"; rrSequencerEpoch := str "e";
  rrExpectedSubscriptionGeneration := 7; rrSubscriptionGeneration := 8;
  rrRoutes := [{| rtTopicBinding := str "AAAA"; rtTopicKeyEpoch := 1; rtRouteKeyEpoch := 1;
                  rtBindingID := str "BBBB"; rtHMACPeriods := [1; 2] |}];
  rrFailAfterValidatingEntry := None; rrCommitAmbiguous := false;
  rrConcurrentRevokedBinding := [] |}.

Lemma vault_replace_atomic_witness :
  vTerminal (snd (Replace sample_vault sample_replace)) = TerminalApplied /\
  admissible sample_vault sample_replace.
Proof. split; [reflexivity|]. apply vault_replace_atomic; reflexivity. Defined.
