(* ===== verification/Topics.v ===== *)
(** * XMTP topics (pkg/topics/topics.go, constants.go)

    The V3 string form of a topic and its parser. The topic type itself belongs to the
    xmtpd library and is the interface [XmtpTopic]. *)

From S2P Require Import Prelude GoBytes.
Local Open Scope Z_scope.
Local Open Scope go_scope.

(** ** The xmtpd topic *)

(** [topic.Topic] with its kind, identifier and binary form, and [topic.NewTopic]. *)
Class XmtpTopic := {
  Topic : Type;
  topic_kind : Topic -> Z;
  topic_identifier : Topic -> bytes;
  topic_bytes : Topic -> bytes;
  NewTopic : Z -> bytes -> Topic;
  TopicKindGroupMessagesV1 : Z;
  TopicKindWelcomeMessagesV1 : Z;
}.

(** Documented behaviour: a topic is its kind and identifier, and its binary form
    determines it. *)
Class XmtpTopicLaws `{XmtpTopic} : Prop := {
  new_topic_kind k i : topic_kind (NewTopic k i) = k;
  new_topic_identifier k i : topic_identifier (NewTopic k i) = i;
  new_topic_eta t : NewTopic (topic_kind t) (topic_identifier t) = t;
  topic_bytes_inj t u : topic_bytes t = topic_bytes u -> t = u;
  topic_kinds_distinct : TopicKindGroupMessagesV1 <> TopicKindWelcomeMessagesV1;
}.

(** ** Message types *)

Definition Test : bytes := str "test".
Definition V3Welcome : bytes := str "v3-welcome".
Definition V3Conversation : bytes := str "v3-conversation".
Definition Unknown : bytes := str "unknown".

Definition V3_PREFIX : bytes := str "/xmtp/mls/1/".
Definition PROTO : bytes := str "/proto".

Inductive topic_error := ErrTopicInvalid.

Section Topics.
Context `{XmtpTopic}.

(** [strings.ToLower] only matters for the ASCII letters: no other character lowers to a
    hexadecimal digit. *)
Definition ParseV3Topic (topicStr : bytes) : result topic_error Topic :=
  let topicStr := trim_prefix topicStr V3_PREFIX in
  reject negb (has_suffix topicStr PROTO) with ErrTopicInvalid;;
  let topicStr := trim_suffix topicStr PROTO in
  match cut topicStr x2d with
  | None => Err ErrTopicInvalid
  | Some (prefix, identifier) =>
      reject beq identifier [] with ErrTopicInvalid;;
      kind ← (if beq prefix (str "g") then Ok TopicKindGroupMessagesV1
              else if beq prefix (str "w") then Ok TopicKindWelcomeMessagesV1
              else Err ErrTopicInvalid);
      match hex_decode (to_lower identifier) with
      | None => Err ErrTopicInvalid
      | Some identifierBytes => Ok (NewTopic kind identifierBytes)
      end
  end.

Definition TopicToString (t : option Topic) : bytes :=
  match t with
  | None => []
  | Some t =>
      let render prefix := V3_PREFIX ++ str prefix ++ [x2d] ++ hex_encode (topic_identifier t) ++ PROTO in
      if topic_kind t =? TopicKindGroupMessagesV1 then render "g"
      else if topic_kind t =? TopicKindWelcomeMessagesV1 then render "w"
      else []
  end.

(** [base64.StdEncoding.EncodeToString]. *)
Definition std_char (b : byte) : byte := match b with x2d => x2b | x5f => x2f | b => b end.
Definition b64std_encode (l : bytes) : bytes :=
  let body := map std_char (b64_encode l) in
  body ++ repeat x3d ((4 - length body mod 4) mod 4)%nat.

Definition TopicToBase64 (t : option Topic) : bytes :=
  match t with None => [] | Some t => b64std_encode (topic_bytes t) end.

Definition TopicToLegacy (t : option Topic) : bytes := TopicToString t.

Definition GetMessageTypeFromTopic (t : option Topic) : bytes :=
  match t with
  | None => Unknown
  | Some t =>
      if topic_kind t =? TopicKindGroupMessagesV1 then V3Conversation
      else if topic_kind t =? TopicKindWelcomeMessagesV1 then V3Welcome
      else Unknown
  end.

(** ** Lemmas *)

Lemma lower_hex_byte b : is_lower_hex b = true -> lower_byte b = b.
Proof. by destruct b. Qed.

Lemma to_lower_hex l : to_lower (hex_encode l) = hex_encode l.
Proof.
  unfold to_lower. rewrite <- (map_id (hex_encode l)) at 2. apply map_ext_in. intros b Hb.
  apply lower_hex_byte. pose proof (hex_encode_lower l) as Hl. rewrite forallb_forall in Hl. auto.
Qed.

Lemma no_dash (p : string) : forallb (fun b => negb (bool_decide (b = x2d))) (str p) = true -> x2d ∉ str p.
Proof.
  intros Hf Hin. rewrite forallb_forall in Hf. apply list_elem_of_In in Hin. apply Hf in Hin.
  by rewrite bool_decide_true in Hin.
Qed.

Lemma parse_rendered prefix i :
  i <> [] -> x2d ∉ str prefix ->
  ParseV3Topic (V3_PREFIX ++ str prefix ++ [x2d] ++ hex_encode i ++ PROTO) =
  (kind ← (if beq (str prefix) (str "g") then Ok TopicKindGroupMessagesV1
           else if beq (str prefix) (str "w") then Ok TopicKindWelcomeMessagesV1
           else Err ErrTopicInvalid); Ok (NewTopic kind i)).
Proof.
  intros Hi Hp. unfold ParseV3Topic. rewrite trim_prefix_app.
  assert (Hf : str prefix ++ [x2d] ++ hex_encode i ++ PROTO =
    (str prefix ++ x2d :: hex_encode i) ++ PROTO) by (rewrite <- !app_assoc; done).
  rewrite Hf. rewrite has_suffix_app, trim_suffix_app. cbn [negb]. rewrite cut_app by done.
  assert (Hn : beq (hex_encode i) [] = false).
  { apply beq_false. intros E. apply (f_equal length) in E. rewrite length_hex_encode in E.
    destruct i; [done|]. simpl in E. lia. }
  by rewrite Hn, to_lower_hex, hex_decode_encode.
Qed.

End Topics.

(** Topic strings round trip. A topic whose string form is not empty and whose
    identifier is not empty is parsed back from that form, and its message type is that of
    its kind; every topic the parser returns is a group or welcome topic with a non-empty
    identifier, so its own form parses to it. *)
Theorem topic_string_roundtrip `{XmtpTopicLaws} (t : Topic) (s : bytes) :
  (TopicToString (Some t) <> [] -> topic_identifier t <> [] ->
   ParseV3Topic (TopicToString (Some t)) = Ok t /\
   (GetMessageTypeFromTopic (Some t) = V3Conversation <-> topic_kind t = TopicKindGroupMessagesV1) /\
   (GetMessageTypeFromTopic (Some t) = V3Welcome <-> topic_kind t = TopicKindWelcomeMessagesV1)) /\
  (ParseV3Topic s = Ok t ->
   topic_identifier t <> [] /\ GetMessageTypeFromTopic (Some t) <> Unknown /\
   ParseV3Topic (TopicToString (Some t)) = Ok t).
Proof.
  assert (Hround : TopicToString (Some t) <> [] -> topic_identifier t <> [] ->
    ParseV3Topic (TopicToString (Some t)) = Ok t).
  { intros Hs Hi. unfold TopicToString in *.
    destruct (Z.eqb_spec (topic_kind t) TopicKindGroupMessagesV1) as [Hk|Hk].
    - rewrite parse_rendered by (try done; by apply no_dash).
      change (beq (str "g") (str "g")) with true. cbn [mbind result_bind].
      by rewrite <- Hk, new_topic_eta.
    - destruct (Z.eqb_spec (topic_kind t) TopicKindWelcomeMessagesV1) as [Hk'|Hk']; [|done].
      rewrite parse_rendered by (try done; by apply no_dash).
      change (beq (str "w") (str "g")) with false. change (beq (str "w") (str "w")) with true.
      cbn [mbind result_bind]. by rewrite <- Hk', new_topic_eta. }
  pose proof topic_kinds_distinct as Hd. split.
  - intros Hs Hi. split; [by apply Hround|]. unfold GetMessageTypeFromTopic.
    destruct (Z.eqb_spec (topic_kind t) TopicKindGroupMessagesV1);
      destruct (Z.eqb_spec (topic_kind t) TopicKindWelcomeMessagesV1); split; split; intros; try done; congruence.
  - unfold ParseV3Topic at 1. intros Hp.
    destruct (has_suffix _ _); [|done]. cbn [negb] in Hp.
    destruct (cut _ _) as [[prefix i]|]; [|done].
    destruct (beq i []) eqn:Ei; [done|]. apply beq_false in Ei.
    assert (Hcase : exists k b, (k = TopicKindGroupMessagesV1 \/ k = TopicKindWelcomeMessagesV1) /\
      hex_decode (to_lower i) = Some b /\ t = NewTopic k b).
    { destruct (beq prefix (str "g")); [|destruct (beq prefix (str "w")); [|done]];
        cbn [mbind result_bind] in Hp; destruct (hex_decode _) as [b|]; try done;
        injection Hp as <-; eexists _, b; eauto. }
    destruct Hcase as (k & b & Hk & Hb & Ht).
    assert (Hne : topic_identifier t <> []).
    { rewrite Ht, new_topic_identifier. intros ->. apply length_hex_decode in Hb.
      unfold to_lower in Hb. rewrite length_map in Hb. by destruct i. }
    assert (Hkt : topic_kind t = k) by (by rewrite Ht, new_topic_kind).
    split; [done|]. split.
    + unfold GetMessageTypeFromTopic. rewrite Hkt.
      destruct Hk as [-> | ->]; rewrite ?Z.eqb_refl; [done|]. by case_goal.
    + apply Hround; [|done]. unfold TopicToString. rewrite Hkt.
      destruct Hk as [-> | ->]; rewrite ?Z.eqb_refl; [done|]. by case_goal.
Qed.

(** ** Witness *)

Module Sample.

(** A topic as its kind and identifier. *)
#[export] Instance topic_lib : XmtpTopic := {|
  Topic := Z * bytes; topic_kind := fst; topic_identifier := snd;
  topic_bytes t := format_uint (Z.abs (fst t)) ++ [if fst t <? 0 then x2d else x2b] ++ snd t;
  NewTopic k i := (k, i); TopicKindGroupMessagesV1 := 0; TopicKindWelcomeMessagesV1 := 1;
|}.

#[export] Instance topic_laws : XmtpTopicLaws.
Proof.
  constructor; simpl; try done.
  - by intros [].
  - intros [a x] [b y] He. simpl in He.
    assert (Hsg : forall z, is_digit (if z <? 0 then x2d else x2b) = false) by (intros z; by case_goal).
    apply (app_span_inj is_digit) in He as (Ha & Hs & ->);
      [|apply format_uint_digits..|apply Hsg|apply Hsg].
    apply format_uint_inj in Ha; [|lia..].
    destruct (Z.ltb_spec a 0), (Z.ltb_spec b 0); try done; f_equal; lia.
Qed.

End Sample.

#[local] Existing Instances Sample.topic_lib Sample.topic_laws.

Definition sample_topic : @Topic Sample.topic_lib := (0, [x0a; xff]).

Lemma topic_string_roundtrip_witness :
  ParseV3Topic (str "/xmtp/mls/1/g-0AfF/proto") = Ok sample_topic /\
  TopicToString (Some sample_topic) = str "/xmtp/mls/1/g-0aff/proto" /\
  ParseV3Topic (TopicToString (Some sample_topic)) = Ok sample_topic.
Proof.
  split; [reflexivity|]. split; [reflexivity|].
  apply (topic_string_roundtrip sample_topic (str "/xmtp/mls/1/g-0AfF/proto")). reflexivity.
Defined.
