(* ===== verification/Interfaces.v ===== *)
(** * Shared data of the push bridge (pkg/interfaces/interfaces.go)

    The records a delivery request is made of, the payload formats and the sender HMAC. *)

From S2P Require Import Prelude GoBytes GoTime GoCrypto Topics.
Local Open Scope Z_scope.
Local Open Scope go_scope.

Definition APNS : bytes := str "apns".
Definition FCM : bytes := str "fcm".

(** ** Payload formats: a Go [int], of which three values are named *)

Definition PayloadFormatUnspecified : Z := 0.
Definition PayloadFormatV3 : Z := 1.
Definition PayloadFormatV4 : Z := 2.

(** The generated enum of the notification API has the same three numbers. *)
Definition PayloadFormatFromProto (p : Z) : Z :=
  if p =? 1 then PayloadFormatV3 else if p =? 2 then PayloadFormatV4 else PayloadFormatUnspecified.

Definition ToProto (p : Z) : Z :=
  if p =? PayloadFormatV3 then 1 else if p =? PayloadFormatV4 then 2 else 0.

Definition PayloadFormat_String (p : Z) : bytes :=
  if p =? PayloadFormatV3 then str "v3" else if p =? PayloadFormatV4 then str "v4"
  else str "unspecified".

Definition ListenerTypeV3 : bytes := str "v3".
Definition ListenerTypeV4 : bytes := str "v4".

Definition NormalizePayloadFormat (format : Z) : Z :=
  if format =? PayloadFormatUnspecified then PayloadFormatV3 else format.

(** [true] when the Go method returns a nil error. *)
Definition ValidateForListener (p : Z) (listenerType : bytes) : bool :=
  let normalized := NormalizePayloadFormat p in
  negb (beq listenerType ListenerTypeV3 && (normalized =? PayloadFormatV4)).

(** ** Requests *)

Record DeliveryMechanism := {
  dmKind : bytes;
  dmToken : bytes;
  dmUpdatedAt : GoTime;
  dmRegistrationVersion : Z;
}.

Record Installation := {
  inId : bytes;
  inDeliveryMechanism : DeliveryMechanism;
  inPayloadFormat : Z;
}.

Record HmacKey := {
  hkThirtyDayPeriodsSinceEpoch : Z;
  hkKey : bytes;
}.

Record A9RouteSnapshot := {
  a9InstallationBindingID : bytes;
  a9SequencerEpoch : bytes;
  a9SubscriptionGeneration : Z;
  a9BindingID : bytes;
  a9BindingVersion : Z;
  a9AssertionHash : bytes;
  a9AssertionStreamSequence : Z;
  a9AssertionExpiresAt : GoTime;
  a9TopicKeyEpoch : Z;
  a9TopicBinding : bytes;
  a9RouteKeyEpoch : Z;
  a9KeysetSequence : Z;
  a9KeysetHash : bytes;
  a9WatermarkSequence : Z;
}.

Record SecureRoute := {
  srLeaseID : bytes;
  srRouteKey : bytes;
  srRouteKeyEpoch : Z;
  srNoncePrefix : Z;
  srDeliverySequence : Z;
  srAliasDay : bytes;
  srRouteAlias : bytes;
  srReceiveCapability : bytes;
  srLeaseExpiresAt : GoTime;
  srControlExpiresAt : GoTime;
  srPolicyEpoch : Z;
  srWelcomeAuthorized : bool;
  srWelcomeAuthorizationID : bytes;
  srWelcomeEnvelopeDigest : bytes;
  srA9 : option A9RouteSnapshot;
}.

Record MessageContext := {
  mcMessageType : bytes;
  mcShouldPush : option bool;
  mcHmacInputs : option bytes;
  mcSenderHmac : option bytes;
}.

Section Requests.
Context `{XmtpTopic}.

Record Subscription := {
  suId : Z;
  suCreatedAt : GoTime;
  suInstallationId : bytes;
  suTopic : bytes;
  suTopicV4 : option Topic;
  suIsActive : bool;
  suIsSilent : bool;
  suExpectedHmacKeyPeriod : option Z;
  suHmacKey : option HmacKey;
  suSecureRoute : option SecureRoute;
}.

Record SendRequest := {
  rqIdempotencyKey : bytes;
  rqTopic : bytes;
  rqTopicBytesB64 : bytes;
  rqEncryptedMessage : bytes;
  rqPayloadFormat : Z;
  rqMessageContext : MessageContext;
  rqInstallation : Installation;
  rqSubscription : Subscription;
}.

End Requests.

(** ** The sender HMAC *)

Definition LibXMTPSenderHmacKeySize : Z := 42.

Definition validSenderHmacKeyLength (size : Z) : bool :=
  (size =? 32) || (size =? LibXMTPSenderHmacKeySize).

Definition HasValidSenderHmac (m : MessageContext) : bool :=
  match mcSenderHmac m, mcHmacInputs m with
  | Some sender, Some _ => Z.of_nat (length sender) =? 32
  | _, _ => false
  end.

Definition IsSender (m : MessageContext) (hmacKey : bytes) : bool :=
  bail negb (HasValidSenderHmac m) ||
       negb (validSenderHmacKeyLength (Z.of_nat (length hmacKey))) with false;;
  match mcSenderHmac m, mcHmacInputs m with
  | Some sender, Some inputs => beq sender (hmac_sha256 hmacKey inputs)
  | _, _ => false
  end.

Definition HmacKey_IsValid (k : HmacKey) : bool :=
  let maxDatabasePeriod := 2 ^ 31 - 1 in
  (0 <=? hkThirtyDayPeriodsSinceEpoch k) &&
  (hkThirtyDayPeriodsSinceEpoch k <=? maxDatabasePeriod) &&
  validSenderHmacKeyLength (Z.of_nat (length (hkKey k))).
