(* ===== verification/PushPolicy.v ===== *)
(** * Push policy (pkg/pushpolicy/policy.go)

    Which requests may be pushed, and the one-use authorization that carries a request
    from the policy to a delivery implementation. An authorization is a cell of a shared
    store, as the Go context carries a pointer to it. *)

From S2P Require Import Prelude GoBytes GoTime GoCrypto Topics Interfaces.
Local Open Scope Z_scope.
Local Open Scope go_scope.

(** ** Fingerprint fields

    [writeFingerprintField] writes the length of a value and the value, so the digest
    reads the concatenation of [len_field]s of a list of values. *)

Definition fp_uint64 (value : Z) : list bytes := [be 8 value].
Definition fp_int64 (value : Z) : list bytes := fp_uint64 value.
Definition fp_bool (value : bool) : list bytes := [[if value then x01 else x00]].
Definition fp_field (value : bytes) : list bytes := [value].

Definition fp_time (value : GoTime) : list bytes :=
  match MarshalBinary value with Some encoded => [encoded] | None => [[]] end.

(** A nil test followed by the fields of the value. *)
Definition fp_option {A : Type} (fields : A -> list bytes) (value : option A) : list bytes :=
  match value with
  | None => fp_bool false
  | Some v => fp_bool true ++ fields v
  end.

Definition fp_mechanism (m : DeliveryMechanism) : list bytes :=
  fp_field (dmKind m) ++ fp_field (dmToken m) ++ fp_time (dmUpdatedAt m).

Definition fp_installation (i : Installation) : list bytes :=
  fp_field (inId i) ++ fp_mechanism (inDeliveryMechanism i) ++ fp_uint64 (inPayloadFormat i).

Definition fp_hmac_key (k : HmacKey) : list bytes :=
  fp_int64 (hkThirtyDayPeriodsSinceEpoch k) ++ fp_field (hkKey k).

Definition fp_a9 (a : A9RouteSnapshot) : list bytes :=
  fp_field (a9InstallationBindingID a) ++ fp_field (a9SequencerEpoch a) ++
  fp_uint64 (a9SubscriptionGeneration a) ++ fp_field (a9BindingID a) ++
  fp_uint64 (a9BindingVersion a) ++ fp_field (a9AssertionHash a) ++
  fp_uint64 (a9AssertionStreamSequence a) ++ fp_time (a9AssertionExpiresAt a) ++
  fp_uint64 (a9TopicKeyEpoch a) ++ fp_field (a9TopicBinding a) ++
  fp_uint64 (a9RouteKeyEpoch a) ++ fp_uint64 (a9KeysetSequence a) ++
  fp_field (a9KeysetHash a) ++ fp_uint64 (a9WatermarkSequence a).

Definition fp_route (r : SecureRoute) : list bytes :=
  fp_field (srLeaseID r) ++ fp_field (srRouteKey r) ++ fp_uint64 (srRouteKeyEpoch r) ++
  fp_uint64 (srNoncePrefix r) ++ fp_uint64 (srDeliverySequence r) ++ fp_field (srAliasDay r) ++
  fp_field (srRouteAlias r) ++ fp_field (srReceiveCapability r) ++ fp_time (srLeaseExpiresAt r) ++
  fp_time (srControlExpiresAt r) ++ fp_uint64 (srPolicyEpoch r) ++
  fp_bool (srWelcomeAuthorized r) ++ fp_field (srWelcomeAuthorizationID r) ++
  fp_field (srWelcomeEnvelopeDigest r) ++ fp_option fp_a9 (srA9 r).

Definition fp_context (m : MessageContext) : list bytes :=
  fp_field (mcMessageType m) ++ fp_option fp_bool (mcShouldPush m) ++
  fp_option fp_field (mcHmacInputs m) ++ fp_option fp_field (mcSenderHmac m).

(** ** The authorization store *)

Record deliveryAuthorization := { daFingerprint : bytes; daConsumed : bool }.

(** The cells allocated so far; a context holds the index of its innermost cell. *)
Abbreviation Store := (list deliveryAuthorization).
Abbreviation Ctx := (option nat).

Section Policy.
Context `{XmtpTopic}.

Definition fp_subscription (s : Subscription) : list bytes :=
  fp_int64 (suId s) ++ fp_time (suCreatedAt s) ++ fp_field (suInstallationId s) ++
  fp_field (suTopic s) ++ fp_option (fun t => fp_field (topic_bytes t)) (suTopicV4 s) ++
  fp_bool (suIsActive s) ++ fp_bool (suIsSilent s) ++ fp_option fp_hmac_key (suHmacKey s) ++
  fp_option fp_int64 (suExpectedHmacKeyPeriod s) ++ fp_option fp_route (suSecureRoute s).

Definition request_fields (r : SendRequest) : list bytes :=
  fp_field (rqIdempotencyKey r) ++ fp_field (rqTopic r) ++ fp_field (rqTopicBytesB64 r) ++
  fp_field (rqEncryptedMessage r) ++ fp_uint64 (rqPayloadFormat r) ++
  fp_installation (rqInstallation r) ++ fp_subscription (rqSubscription r) ++
  fp_context (rqMessageContext r).

(** The bytes the digest reads, and the digest. *)
Definition fingerprint_preimage (r : SendRequest) : bytes := concat (map len_field (request_fields r)).
Definition requestFingerprint (r : SendRequest) : bytes := sha256 (fingerprint_preimage r).

(** ** Eligibility *)

Definition exactPeriodHmacKey (req : SendRequest) : option bytes :=
  match suHmacKey (rqSubscription req), suExpectedHmacKeyPeriod (rqSubscription req) with
  | Some hmacKey, Some expectedPeriod =>
      bail negb (HmacKey_IsValid hmacKey) ||
           negb (hkThirtyDayPeriodsSinceEpoch hmacKey =? expectedPeriod) with None;;
      bail bool_decide (is_Some (suSecureRoute (rqSubscription req))) &&
           negb (Z.of_nat (length (hkKey hmacKey)) =? 32) with None;;
      Some (hkKey hmacKey)
  | _, _ => None
  end.

Definition eligible (req : SendRequest) : bool :=
  let sub := rqSubscription req in
  let mc := rqMessageContext req in
  if beq (mcMessageType mc) V3Welcome then
    match suSecureRoute sub with
    | None => false
    | Some route =>
        srWelcomeAuthorized route && suIsActive sub && suIsSilent sub &&
        match mcShouldPush mc with None => true | Some _ => false end &&
        match mcHmacInputs mc with None => true | Some _ => false end &&
        match mcSenderHmac mc with None => true | Some _ => false end
    end
  else if beq (mcMessageType mc) V3Conversation then
    bail match mcShouldPush mc with Some true => false | _ => true end with false;;
    bail negb (suIsActive sub) || suIsSilent sub with false;;
    match exactPeriodHmacKey req with
    | None => false
    | Some hmacKey =>
        bail negb (HasValidSenderHmac mc) with false;;
        negb (IsSender mc hmacKey)
    end
  else false.

(** ** Authorizations *)

Definition authorize (st : Store) (req : SendRequest) : Store * Ctx :=
  (st ++ [{| daFingerprint := requestFingerprint req; daConsumed := false |}], Some (length st)).

Definition AuthorizeDelivery (st : Store) (ctx : Ctx) (req : SendRequest) : Store * (Ctx * bool) :=
  bail negb (eligible req) with (st, (ctx, false));;
  let '(st', ctx') := authorize st req in (st', (ctx', true)).

Definition consumeAuthorization (st : Store) (ctx : Ctx) (req : SendRequest) : Store * bool :=
  match ctx ≫= (st !!.) with
  | None => (st, false)
  | Some authorization =>
      bail negb (beq (daFingerprint authorization) (requestFingerprint req)) with (st, false);;
      bail daConsumed authorization with (st, false);;
      (match ctx with
       | Some l => <[l := {| daFingerprint := daFingerprint authorization; daConsumed := true |}]> st
       | None => st
       end, true)
  end.

Definition AllowsDelivery (st : Store) (ctx : Ctx) (req : SendRequest) : Store * bool :=
  bail negb (eligible req) with (st, false);;
  consumeAuthorization st ctx req.



End Policy.

(** ** The fingerprint determines the request *)

Lemma len_fields_inj l l' :
  Forall go_len l -> Forall go_len l' ->
  concat (map len_field l) = concat (map len_field l') -> l = l'.
Proof.
  revert l'. induction l as [|a l IH]; intros [|b l'] Hl Hl' H; [done| | |].
  - discriminate H.
  - discriminate H.
  - apply Forall_cons in Hl as [Ha Hl], Hl' as [Hb Hl']. cbn [map concat] in H.
    apply len_field_inj in H as [-> H]; [|done..]. f_equal. by apply IH.
Qed.

Lemma fp_field_inj a b x y : fp_field a ++ x = fp_field b ++ y -> a = b /\ x = y.
Proof. by intros [= -> ->]. Qed.

Lemma fp_uint64_inj a b x y :
  u64 a -> u64 b -> fp_uint64 a ++ x = fp_uint64 b ++ y -> a = b /\ x = y.
Proof.
  intros Ha Hb H. apply fp_field_inj in H as [H ->]. split; [|done].
  apply be_inj in H; [done|exact Ha|exact Hb].
Qed.

Lemma fp_int64_inj a b x y :
  i64 a -> i64 b -> fp_int64 a ++ x = fp_int64 b ++ y -> a = b /\ x = y.
Proof.
  intros Ha Hb H. apply fp_field_inj in H as [H ->]. split; [|done].
  apply (be_inj_signed 8) in H; [done|exact Ha|exact Hb|lia].
Qed.

Lemma fp_bool_inj a b x y : fp_bool a ++ x = fp_bool b ++ y -> a = b /\ x = y.
Proof. destruct a, b; by intros [= ->]. Qed.

Lemma fp_time_inj a b x y :
  utc_typed a -> utc_typed b -> fp_time a ++ x = fp_time b ++ y -> a = b /\ x = y.
Proof.
  unfold fp_time. intros Ha Hb H.
  assert (Hs : forall t, utc_typed t -> exists v, MarshalBinary t = Some v)
    by (intros [t o] [Ho _]; simpl in Ho; subst o; by eexists).
  destruct (Hs a Ha) as [va Ea], (Hs b Hb) as [vb Eb]. rewrite Ea, Eb in H.
  injection H as -> ->. split; [|done]. apply MarshalBinary_inj; congruence.
Qed.

Lemma fp_option_inj {A : Type} (fields : A -> list bytes) (P : A -> Prop) a b x y :
  (forall v w x y, P v -> P w -> fields v ++ x = fields w ++ y -> v = w /\ x = y) ->
  (forall v, a = Some v -> P v) -> (forall v, b = Some v -> P v) ->
  fp_option fields a ++ x = fp_option fields b ++ y -> a = b /\ x = y.
Proof.
  intros Hf Ha Hb H. destruct a as [v|], b as [w|]; cbn [fp_option] in H.
  - rewrite <- !app_assoc in H. apply fp_bool_inj in H as [_ H].
    apply Hf in H as [-> ->]; auto.
  - rewrite <- app_assoc in H. by apply fp_bool_inj in H as [? _].
  - rewrite <- app_assoc in H. by apply fp_bool_inj in H as [? _].
  - by apply fp_bool_inj in H as [_ ->].
Qed.

(** What Go's static types say of a request's numbers, and that its times are in UTC. *)
Definition hmac_key_typed (k : HmacKey) : Prop := i64 (hkThirtyDayPeriodsSinceEpoch k).
Definition a9_typed (a : A9RouteSnapshot) : Prop :=
  u64 (a9SubscriptionGeneration a) /\ u64 (a9BindingVersion a) /\
  u64 (a9AssertionStreamSequence a) /\ utc_typed (a9AssertionExpiresAt a) /\
  u64 (a9TopicKeyEpoch a) /\ u64 (a9RouteKeyEpoch a) /\ u64 (a9KeysetSequence a) /\
  u64 (a9WatermarkSequence a).
Definition route_typed (r : SecureRoute) : Prop :=
  u64 (srRouteKeyEpoch r) /\ u64 (srNoncePrefix r) /\ u64 (srDeliverySequence r) /\
  utc_typed (srLeaseExpiresAt r) /\ utc_typed (srControlExpiresAt r) /\ u64 (srPolicyEpoch r) /\
  (forall a, srA9 r = Some a -> a9_typed a).

(** One field after the other. *)
Ltac peel H :=
  rewrite <- ?app_assoc in H;
  repeat match type of H with
  | fp_field _ ++ _ = _ => apply fp_field_inj in H as [? H]
  | fp_bool _ ++ _ = _ => apply fp_bool_inj in H as [? H]
  | fp_uint64 _ ++ _ = _ => apply fp_uint64_inj in H as [? H]; [|done..]
  | fp_int64 _ ++ _ = _ => apply fp_int64_inj in H as [? H]; [|done..]
  | fp_time _ ++ _ = _ => apply fp_time_inj in H as [? H]; [|done..]
  end.

Lemma fp_hmac_key_inj k k' x y :
  hmac_key_typed k -> hmac_key_typed k' -> fp_hmac_key k ++ x = fp_hmac_key k' ++ y -> k = k' /\ x = y.
Proof.
  unfold hmac_key_typed. intros Hk Hk' E. unfold fp_hmac_key in E. peel E.
  destruct k, k'; simpl in *. subst. by split.
Qed.

Lemma fp_a9_inj a b x y :
  a9_typed a -> a9_typed b -> fp_a9 a ++ x = fp_a9 b ++ y -> a = b /\ x = y.
Proof.
  intros (? & ? & ? & ? & ? & ? & ? & ?) (? & ? & ? & ? & ? & ? & ? & ?) E. unfold fp_a9 in E. peel E.
  destruct a, b; simpl in *. subst. by split.
Qed.

Lemma fp_route_inj r r' x y :
  route_typed r -> route_typed r' -> fp_route r ++ x = fp_route r' ++ y -> r = r' /\ x = y.
Proof.
  intros (? & ? & ? & ? & ? & ? & Ha) (? & ? & ? & ? & ? & ? & Ha') E. unfold fp_route in E. peel E.
  apply (fp_option_inj _ a9_typed) in E as [? E]; [|intros *; apply fp_a9_inj|done|done].
  destruct r, r'; simpl in *. subst. by split.
Qed.

(** Requests alike but for the registration version of the delivery token. *)
Definition forget_version (m : DeliveryMechanism) : DeliveryMechanism :=
  {| dmKind := dmKind m; dmToken := dmToken m; dmUpdatedAt := dmUpdatedAt m;
     dmRegistrationVersion := 0 |}.
Definition forget_version_installation (i : Installation) : Installation :=
  {| inId := inId i; inDeliveryMechanism := forget_version (inDeliveryMechanism i);
     inPayloadFormat := inPayloadFormat i |}.

Definition installation_typed (i : Installation) : Prop :=
  utc_typed (dmUpdatedAt (inDeliveryMechanism i)) /\ u64 (inPayloadFormat i).

Lemma fp_installation_inj i i' x y :
  installation_typed i -> installation_typed i' ->
  fp_installation i ++ x = fp_installation i' ++ y ->
  forget_version_installation i = forget_version_installation i' /\ x = y.
Proof.
  intros [? ?] [? ?] E. unfold fp_installation, fp_mechanism in E. peel E.
  destruct i as [? [] ?], i' as [? [] ?]; simpl in *. unfold forget_version_installation, forget_version.
  simpl. subst. by split.
Qed.

Lemma fp_context_inj m m' x y : fp_context m ++ x = fp_context m' ++ y -> m = m' /\ x = y.
Proof.
  intros E. unfold fp_context in E. peel E.
  apply (fp_option_inj _ (fun _ => True)) in E as [? E]; [|intros *; intros _ _; apply fp_bool_inj|done|done].
  apply (fp_option_inj _ (fun _ => True)) in E as [? E]; [|intros *; intros _ _; apply fp_field_inj|done|done].
  apply (fp_option_inj _ (fun _ => True)) in E as [? E]; [|intros *; intros _ _; apply fp_field_inj|done|done].
  destruct m, m'; simpl in *. subst. by split.
Qed.

Section Proofs.
Context `{XmtpTopicLaws}.

Definition subscription_typed (s : Subscription) : Prop :=
  i64 (suId s) /\ utc_typed (suCreatedAt s) /\
  (forall k, suHmacKey s = Some k -> hmac_key_typed k) /\
  (forall p, suExpectedHmacKeyPeriod s = Some p -> i64 p) /\
  (forall r, suSecureRoute s = Some r -> route_typed r).

Lemma fp_subscription_inj s s' x y :
  subscription_typed s -> subscription_typed s' ->
  fp_subscription s ++ x = fp_subscription s' ++ y -> s = s' /\ x = y.
Proof.
  intros (? & ? & ? & ? & ?) (? & ? & ? & ? & ?) E. unfold fp_subscription in E. peel E.
  apply (fp_option_inj _ (fun _ => True)) in E as [? E]; [|..|done|done].
  2: { intros v w x' y' _ _ Ht. apply fp_field_inj in Ht as [Ht ->]. by apply topic_bytes_inj in Ht. }
  peel E.
  apply (fp_option_inj _ hmac_key_typed) in E as [? E]; [|intros *; apply fp_hmac_key_inj|done|done].
  apply (fp_option_inj _ i64) in E as [? E]; [|intros *; apply fp_int64_inj|done|done].
  apply (fp_option_inj _ route_typed) in E as [? E]; [|intros *; apply fp_route_inj|done|done].
  destruct s, s'; simpl in *. subst. by split.
Qed.

Definition request_typed (r : SendRequest) : Prop :=
  u64 (rqPayloadFormat r) /\ installation_typed (rqInstallation r) /\
  subscription_typed (rqSubscription r) /\ Forall go_len (request_fields r).

(** Two requests agree in every field but the registration version of the installation's
    delivery mechanism. *)
Definition same_but_version (r r' : SendRequest) : Prop :=
  rqIdempotencyKey r = rqIdempotencyKey r' /\ rqTopic r = rqTopic r' /\
  rqTopicBytesB64 r = rqTopicBytesB64 r' /\ rqEncryptedMessage r = rqEncryptedMessage r' /\
  rqPayloadFormat r = rqPayloadFormat r' /\ rqMessageContext r = rqMessageContext r' /\
  rqSubscription r = rqSubscription r' /\
  forget_version_installation (rqInstallation r) = forget_version_installation (rqInstallation r').

(** The fingerprint preimage determines the request. Two requests with the numbers
    Go's types allow, and times in UTC, that write the same bytes into the digest agree in
    every field, except that the registration version of the delivery token is not
    written at all. *)
Theorem fingerprint_preimage_injective (r r' : SendRequest) :
  request_typed r -> request_typed r' -> fingerprint_preimage r = fingerprint_preimage r' ->
  same_but_version r r'.
Proof.
  intros (Hp & Hi & Hs & Hl) (Hp' & Hi' & Hs' & Hl') E. apply len_fields_inj in E; [|done..].
  unfold request_fields in E. peel E.
  apply fp_installation_inj in E as [? E]; [|done..].
  apply fp_subscription_inj in E as [? E]; [|done..].
  rewrite <- (app_nil_r (fp_context (rqMessageContext r))) in E.
  rewrite <- (app_nil_r (fp_context (rqMessageContext r'))) in E.
  apply fp_context_inj in E as [? _]. done.
Qed.

End Proofs.

(** ** The registration version *)

Section Version.
Context `{XmtpTopic}.

Definition with_version (v : Z) (r : SendRequest) : SendRequest := {|
  rqIdempotencyKey := rqIdempotencyKey r; rqTopic := rqTopic r;
  rqTopicBytesB64 := rqTopicBytesB64 r; rqEncryptedMessage := rqEncryptedMessage r;
  rqPayloadFormat := rqPayloadFormat r; rqMessageContext := rqMessageContext r;
  rqInstallation := {|
    inId := inId (rqInstallation r);
    inDeliveryMechanism := {|
      dmKind := dmKind (inDeliveryMechanism (rqInstallation r));
      dmToken := dmToken (inDeliveryMechanism (rqInstallation r));
      dmUpdatedAt := dmUpdatedAt (inDeliveryMechanism (rqInstallation r));
      dmRegistrationVersion := v |};
    inPayloadFormat := inPayloadFormat (rqInstallation r) |};
  rqSubscription := rqSubscription r |}.


End Version.

(** ** One use *)

Section OneUse.
Context `{XmtpTopicLaws}.












Lemma key_length_ok n : validSenderHmacKeyLength (Z.of_nat n) = true <-> n = 32%nat \/ n = 42%nat.
Proof.
  unfold validSenderHmacKeyLength, LibXMTPSenderHmacKeySize. rewrite orb_true_iff, !Z.eqb_eq. lia.
Qed.

Lemma exactPeriodHmacKey_some req k :
  exactPeriodHmacKey req = Some k <->
  exists key, hkKey key = k /\ suHmacKey (rqSubscription req) = Some key /\
    suExpectedHmacKeyPeriod (rqSubscription req) = Some (hkThirtyDayPeriodsSinceEpoch key) /\
    0 <= hkThirtyDayPeriodsSinceEpoch key < 2 ^ 31 /\
    (length k = 32%nat \/ (length k = 42%nat /\ suSecureRoute (rqSubscription req) = None)).
Proof.
  unfold exactPeriodHmacKey.
  destruct (suHmacKey _) as [key|]; [|by split; [|intros (? & _ & ? & _)]].
  destruct (suExpectedHmacKeyPeriod _) as [p|]; [|by split; [|intros (? & _ & _ & ? & _)]].
  destruct (HmacKey_IsValid key) eqn:Ev; cbn [negb orb].
  2: { split; [done|]. intros (key' & Hk & [= <-] & _ & Hr & Hlen). exfalso.
       assert (HmacKey_IsValid key = true); [|congruence]. unfold HmacKey_IsValid.
       rewrite !andb_true_iff, !Z.leb_le, key_length_ok, Hk. repeat split; try lia; naive_solver. }
  unfold HmacKey_IsValid in Ev. rewrite !andb_true_iff, !Z.leb_le, key_length_ok in Ev.
  destruct Ev as [[Hlo Hhi] Hlen].
  destruct (Z.eqb_spec (hkThirtyDayPeriodsSinceEpoch key) p) as [Hp|Hp]; cbn [negb].
  2: { split; [done|]. intros (key' & _ & [= <-] & [= ->] & _). done. }
  destruct (suSecureRoute _) as [route|] eqn:Er.
  - rewrite bool_decide_true by done. cbn [andb].
    destruct (Z.eqb_spec (Z.of_nat (length (hkKey key))) 32) as [H32|H32]; cbn [negb].
    + split; [intros [= <-]; exists key; repeat split; try congruence; lia|].
      by intros (key' & <- & [= <-] & _).
    + split; [done|]. intros (key' & <- & [= <-] & _ & _ & [Hl|[_ ?]]); [lia|done].
  - rewrite bool_decide_false by (by intros [? ?]). cbn [andb].
    split; [intros [= <-]; exists key; repeat split; try congruence; try lia; naive_solver|].
    by intros (key' & <- & [= <-] & _).
Qed.

(** exactly which requests are eligible. A welcome needs an active, silent
    subscription with an authorized secure route and no push decision or sender data; a
    conversation message needs an explicit decision to push, an active and audible
    subscription, the key of the expected period (of 32 bytes on a secure route), and a
    32-byte sender HMAC that is not the installation's own; nothing else is eligible. *)
Theorem eligible_iff (req : SendRequest) :
  let sub := rqSubscription req in
  let mc := rqMessageContext req in
  eligible req = true <->
  (mcMessageType mc = V3Welcome /\ suIsActive sub = true /\ suIsSilent sub = true /\
   (exists route, suSecureRoute sub = Some route /\ srWelcomeAuthorized route = true) /\
   mcShouldPush mc = None /\ mcHmacInputs mc = None /\ mcSenderHmac mc = None) \/
  (mcMessageType mc = V3Conversation /\ mcShouldPush mc = Some true /\
   suIsActive sub = true /\ suIsSilent sub = false /\
   exists key sender inputs,
     suHmacKey sub = Some key /\
     suExpectedHmacKeyPeriod sub = Some (hkThirtyDayPeriodsSinceEpoch key) /\
     0 <= hkThirtyDayPeriodsSinceEpoch key < 2 ^ 31 /\
     (length (hkKey key) = 32%nat \/ (length (hkKey key) = 42%nat /\ suSecureRoute sub = None)) /\
     mcSenderHmac mc = Some sender /\ length sender = 32%nat /\ mcHmacInputs mc = Some inputs /\
     sender <> hmac_sha256 (hkKey key) inputs).
Proof.
  cbv zeta. unfold eligible.
  destruct (beq (mcMessageType _) V3Welcome) eqn:Ew; [apply beq_true in Ew|apply beq_false in Ew].
  { destruct (suSecureRoute _) as [route|].
    2: { split; [done|]. intros [(_ & _ & _ & (? & ? & _) & _)|(Hc & _)]; [done|]. by rewrite Ew in Hc. }
    rewrite !andb_true_iff. destruct (mcShouldPush _), (mcHmacInputs _), (mcSenderHmac _);
      (split; [intros [[[[[? ?] ?] ?] ?] ?]; try done; left; repeat split; try done; by exists route|]);
      (intros [(_ & ? & ? & (r & [= <-] & ?) & ? & ? & ?)|(Hc & _)]; [done|by rewrite Ew in Hc]). }
  destruct (beq (mcMessageType _) V3Conversation) eqn:Ec; [apply beq_true in Ec|apply beq_false in Ec].
  2: { split; [done|]. by intros [(? & _)|(? & _)]. }
  destruct (mcShouldPush _) as [[]|];
    [|by split; [|intros [(? & _)|(_ & ? & _)]]..].
  destruct (suIsActive _); cbn [negb orb]; [|by split; [|intros [(? & _)|(_ & _ & ? & _)]]].
  destruct (suIsSilent _); cbn [negb orb]; [by split; [|intros [(? & _)|(_ & _ & _ & ? & _)]]|].
  destruct (exactPeriodHmacKey req) as [k|] eqn:Ek.
  2: { split; [done|]. intros [(? & _)|(_ & _ & _ & _ & key & s & i & H1 & H2 & H3 & H4 & _)]; [done|].
       assert (exactPeriodHmacKey req = Some (hkKey key)); [|congruence].
       apply exactPeriodHmacKey_some. by exists key. }
  pose proof Ek as Hk. apply exactPeriodHmacKey_some in Hk as (key & <- & H1 & H2 & H3 & H4).
  unfold IsSender, HasValidSenderHmac.
  destruct (mcSenderHmac _) as [sender|];
    [|by split; [|intros [(? & _)|(_ & _ & _ & _ & ? & ? & ? & _ & _ & _ & _ & ? & _)]]].
  destruct (mcHmacInputs _) as [inputs|];
    [|by split; [|intros [(? & _)|(_ & _ & _ & _ & ? & ? & ? & _ & _ & _ & _ & _ & _ & ? & _)]]].
  destruct (Z.eqb_spec (Z.of_nat (length sender)) 32) as [Hs|Hs]; cbn [negb orb].
  2: { split; [done|].
       intros [(? & _)|(_ & _ & _ & _ & ? & ? & ? & _ & _ & _ & _ & [= <-] & ? & _)]; [done|lia]. }
  rewrite (proj2 (key_length_ok (length (hkKey key)))) by naive_solver. cbn [negb].
  rewrite negb_true_iff, beq_false. split.
  - intros Hne. right. do 4 (split; [done|]). exists key, sender, inputs.
    repeat split; try done; lia.
  - intros [(? & _)|(_ & _ & _ & _ & key' & ? & ? & Hk' & _ & _ & _ & [= <-] & _ & [= <-] & Hne)]; [done|].
    congruence.
Qed.

(** An authorization is not bound to the registration version of the delivery token:
    the context issued for a request also allows the request that differs from it in that
    field alone. *)
Theorem authorization_ignores_registration_version (st : Store) (ctx : Ctx) (r : SendRequest) (v : Z) :
  eligible r = true ->
  let '(st1, (ctx1, _)) := AuthorizeDelivery st ctx r in
  snd (AllowsDelivery st1 ctx1 (with_version v r)) = true.
Proof.
  intros He. unfold AuthorizeDelivery. rewrite He. cbn [negb authorize].
  unfold AllowsDelivery. change (eligible (with_version v r)) with (eligible r). rewrite He.
  cbn [negb]. unfold consumeAuthorization. cbn [mbind option_bind].
  rewrite lookup_app_r, Nat.sub_diag by lia. cbn.
  change (requestFingerprint (with_version v r)) with (requestFingerprint r). by rewrite beq_refl.
Qed.

End OneUse.

(** ** Witnesses *)

#[local] Existing Instances Topics.Sample.topic_lib Topics.Sample.topic_laws.

Definition sample_time : GoTime := {| gtInstant := 1700000000 * second; gtOffset := None |}.

Definition sample_send : SendRequest := {|
  rqIdempotencyKey := str "k"; rqTopic := str "t"; rqTopicBytesB64 := [];
  rqEncryptedMessage := str "m"; rqPayloadFormat := PayloadFormatV3;
  rqMessageContext := {| mcMessageType := V3Conversation; mcShouldPush := Some true;
    mcHmacInputs := Some (str "inputs"); mcSenderHmac := Some (repeat x00 32) |};
  rqInstallation := {| inId := str "i";
    inDeliveryMechanism := {| dmKind := APNS; dmToken := str "tok"; dmUpdatedAt := sample_time;
      dmRegistrationVersion := 3 |}; inPayloadFormat := PayloadFormatV3 |};
  rqSubscription := {| suId := 5; suCreatedAt := sample_time; suInstallationId := str "i";
    suTopic := str "t"; suTopicV4 := None; suIsActive := true; suIsSilent := false;
    suExpectedHmacKeyPeriod := Some 600;
    suHmacKey := Some {| hkThirtyDayPeriodsSinceEpoch := 600; hkKey := repeat x01 32 |};
    suSecureRoute := None |};
|}.

Lemma sample_send_typed : request_typed sample_send.
Proof.
  unfold request_typed, installation_typed, subscription_typed, utc_typed, u64, i64. simpl.
  repeat match goal with |- _ /\ _ => split end; try done; try lia.
  - intros key [= <-]. unfold hmac_key_typed, i64. simpl. lia.
  - intros p [= <-]. lia.
  - repeat constructor.
Qed.

Lemma sample_send_eligible : eligible sample_send = true.
Proof. vm_compute. reflexivity. Qed.

Lemma fingerprint_preimage_injective_witness :
  request_typed sample_send /\ rqSubscription sample_send = rqSubscription (with_version 9 sample_send).
Proof.
  split; [apply sample_send_typed|].
  apply (fingerprint_preimage_injective sample_send (with_version 9 sample_send));
    [apply sample_send_typed|apply sample_send_typed|reflexivity].
Defined.


Lemma authorization_ignores_registration_version_witness :
  eligible sample_send = true /\
  snd (AllowsDelivery (fst (AuthorizeDelivery [] None sample_send))
    (fst (snd (AuthorizeDelivery [] None sample_send))) (with_version 9 sample_send)) = true.
Proof.
  pose proof sample_send_eligible as He. split; [exact He|].
  pose proof (authorization_ignores_registration_version [] None sample_send 9 He) as Ha.
  destruct (AuthorizeDelivery [] None sample_send) as [st1 [c ok]]. exact Ha.
Defined.
