(* ===== verification/Authority.v ===== *)
(** * Signed safety authority (pkg/authority)

    Identifiers, the conversation commitment, and the three Ed25519-signed objects:
    receive capabilities, policy controls and welcome authorizations, with their canonical
    signing bytes and their verifiers. *)

From S2P Require Import Prelude GoBytes GoTime GoCrypto GoJson.
Local Open Scope Z_scope.
Local Open Scope go_scope.

(** ** base64.go and identifiers.go *)

Definition decodeCanonicalRawURLBase64 (value : bytes) : option bytes :=
  match b64_decode true value with
  | None => None
  | Some decoded => bail negb (beq (b64_encode decoded) value) with None;; Some decoded
  end.

Definition EnvironmentDev : bytes := str "dev".
Definition EnvironmentProduction : bytes := str "production".

Definition ValidEnvironment (value : bytes) : bool :=
  beq value EnvironmentDev || beq value EnvironmentProduction.

(** [hex.DecodeString] succeeds with [n] bytes whose lower-case spelling is the input. *)
Definition canonical_hex (n : nat) (value : bytes) : bool :=
  match hex_decode value with
  | None => false
  | Some decoded => (length decoded =? n)%nat && beq (hex_encode decoded) value
  end.

Definition ValidInstallationID (value : bytes) : bool :=
  bail negb (length value =? 64)%nat with false;; canonical_hex 32 value.

(** The loop that skips the four hyphen positions. *)
Fixpoint compact_from (index : nat) (value : bytes) : bytes :=
  match value with
  | [] => []
  | c :: rest =>
      if (index =? 8)%nat || (index =? 13)%nat || (index =? 18)%nat || (index =? 23)%nat
      then compact_from (S index) rest
      else c :: compact_from (S index) rest
  end.

Definition is_hyphen (value : bytes) (i : nat) : bool := bool_decide (nth i value x00 = x2d).

Definition ValidAccountIncarnationID (value : bytes) : bool :=
  bail negb (length value =? 36)%nat || negb (is_hyphen value 8) || negb (is_hyphen value 13) ||
       negb (is_hyphen value 18) || negb (is_hyphen value 23) with false;;
  canonical_hex 16 (compact_from 0 value).

Definition maxCapabilityFieldBytes : nat := 256.
Definition maxIJSONSafeInteger : Z := 2 ^ 53 - 1.

Definition validASCIIField (value : bytes) (minLength maxLength : nat) : bool :=
  bail (length value <? minLength)%nat || (maxLength <? length value)%nat with false;;
  forallb is_field_byte value.

Definition validLowerHexDigest (value : bytes) : bool := canonical_hex 32 value.

(** ** conversation_commitment.go *)

Inductive authority_error := Invalid | Expired | KeyState.
#[export] Instance authority_error_eq_dec : EqDecision authority_error.
Proof. solve_decision. Defined.

Definition expectedConversationCommitmentDomain : bytes :=
  str "Hytch expected conversation commitment v1" ++ [x00].

Definition commitment_preimage (environment installationID accountIncarnationID
    expectedConversationID : bytes) : bytes :=
  expectedConversationCommitmentDomain ++
  concat (map len_field [environment; installationID; accountIncarnationID; expectedConversationID]).

Definition ExpectedConversationCommitment (environment installationID accountIncarnationID
    expectedConversationID : bytes) : result authority_error bytes :=
  reject negb (ValidEnvironment environment) || negb (ValidInstallationID installationID) ||
         negb (ValidAccountIncarnationID accountIncarnationID) ||
         negb (validASCIIField expectedConversationID 1 maxCapabilityFieldBytes) with Invalid;;
  Ok (sha256 (commitment_preimage environment installationID accountIncarnationID
        expectedConversationID)).

(** ** capability.go *)

Definition receiveCapabilityDomain : bytes := str "Hytch safety receive capability v1" ++ [x00].

Definition PushModeAlertAllowed : bytes := str "alert_allowed".
Definition PushModeSuppressed : bytes := str "suppressed".
Definition Ed25519Name : bytes := str "Ed25519".

Record ReceiveCapabilityV1 := {
  rcSchemaVersion : Z;
  rcEnvironment : bytes;
  rcInstallationID : bytes;
  rcAccountIncarnationID : bytes;
  rcPolicyEpoch : Z;
  rcTopicDigest : bytes;
  rcAliasDay : bytes;
  rcRouteAlias : bytes;
  rcConversationGrantVersion : Z;
  rcRosterVersion : Z;
  rcPushMode : bytes;
  rcIssuedAt : bytes;
  rcExpiresAt : bytes;
  rcNonce : bytes;
  rcSigningKeyID : bytes;
  rcAlgorithm : bytes;
  rcSignature : bytes;
}.

Record VerifyOptions := {
  voNow : Z;
  voMaxTTL : Z;
  voExpectedEnvironment : bytes;
  voExpectedInstallationID : bytes;
  voExpectedAccountIncarnationID : bytes;
  voExpectedTopicDigest : bytes;
}.

Definition EffectivePushMode (c : ReceiveCapabilityV1) : bytes :=
  if beq (rcPushMode c) PushModeAlertAllowed then PushModeAlertAllowed else PushModeSuppressed.

Definition validCapabilityCanonicalIntegers (c : ReceiveCapabilityV1) : bool :=
  (rcSchemaVersion c =? 1) && (0 <? rcPolicyEpoch c) && (rcPolicyEpoch c <=? maxIJSONSafeInteger) &&
  (0 <? rcConversationGrantVersion c) && (rcConversationGrantVersion c <=? maxIJSONSafeInteger) &&
  (0 <? rcRosterVersion c) && (rcRosterVersion c <=? maxIJSONSafeInteger).

(** A nonce of 16 to 64 bytes in canonical base64. *)
Definition valid_nonce (value : bytes) : bool :=
  match decodeCanonicalRawURLBase64 value with
  | None => false
  | Some nonce => (16 <=? length nonce)%nat && (length nonce <=? 64)%nat
  end.

Definition validCapabilitySigningShape (c : ReceiveCapabilityV1) : bool :=
  bail negb (validCapabilityCanonicalIntegers c) || negb (ValidEnvironment (rcEnvironment c)) ||
       negb (ValidInstallationID (rcInstallationID c)) ||
       negb (ValidAccountIncarnationID (rcAccountIncarnationID c)) with false;;
  bail negb (forallb (fun field => validASCIIField field 1 maxCapabilityFieldBytes)
    [rcTopicDigest c; rcAliasDay c; rcRouteAlias c; rcIssuedAt c; rcExpiresAt c; rcNonce c;
     rcSigningKeyID c; rcAlgorithm c]) with false;;
  bail negb (beq (rcPushMode c) PushModeAlertAllowed) && negb (beq (rcPushMode c) PushModeSuppressed) &&
       negb (validASCIIField (rcPushMode c) 0 32) with false;;
  bail negb (canonical_hex 32 (rcTopicDigest c)) with false;;
  match decodeCanonicalRawURLBase64 (rcRouteAlias c) with
  | None => false
  | Some routeAlias =>
      bail negb (length routeAlias =? 16)%nat with false;; valid_nonce (rcNonce c)
  end.

Definition validCapabilityShape (c : ReceiveCapabilityV1) : bool :=
  validCapabilitySigningShape c && validASCIIField (rcSignature c) 1 maxCapabilityFieldBytes.

Definition capability_members (c : ReceiveCapabilityV1) : list (string * jfield) :=
  [("account_incarnation_id", FStr (rcAccountIncarnationID c));
   ("algorithm", FStr (rcAlgorithm c));
   ("alias_day", FStr (rcAliasDay c));
   ("conversation_grant_version", FUint (rcConversationGrantVersion c));
   ("environment", FStr (rcEnvironment c));
   ("expires_at", FStr (rcExpiresAt c));
   ("installation_id", FStr (rcInstallationID c));
   ("issued_at", FStr (rcIssuedAt c));
   ("nonce", FStr (rcNonce c));
   ("policy_epoch", FUint (rcPolicyEpoch c));
   ("push_mode", FStr (rcPushMode c));
   ("roster_version", FUint (rcRosterVersion c));
   ("route_alias", FStr (rcRouteAlias c));
   ("schema_version", FUint (rcSchemaVersion c));
   ("signing_key_id", FStr (rcSigningKeyID c));
   ("topic_digest", FStr (rcTopicDigest c))]%string.

Definition capability_SigningBytes (c : ReceiveCapabilityV1) : result authority_error bytes :=
  reject negb (validCapabilitySigningShape c) with Invalid;;
  Ok (receiveCapabilityDomain ++ marshal_struct (capability_members c)).

Definition parse_times (issued expires : bytes) : option (Z * Z) :=
  issuedAt ← parse_rfc3339nano issued;
  expiresAt ← parse_rfc3339nano expires;
  Some (issuedAt, expiresAt).

Definition capabilityTimes (c : ReceiveCapabilityV1) : option (Z * Z) :=
  parse_times (rcIssuedAt c) (rcExpiresAt c).

(** An expectation that is set and not met, and one that is set and malformed. *)
Definition mismatch (expected actual : bytes) : bool :=
  negb (beq expected []) && negb (beq actual expected).
Definition bad_expectation (valid : bytes -> bool) (expected : bytes) : bool :=
  negb (beq expected []) && negb (valid expected).

(** The zero time stands for the clock. *)
Definition effective_now (now clock : Z) : Z := if is_zero now then clock else now.

Section Verify.
Context `{Ed25519}.

(** [clock] is the value [time.Now] returns. *)
Definition VerifyReceiveCapability (c : ReceiveCapabilityV1) (keys : gmap bytes bytes)
  (opts : VerifyOptions) (clock : Z) : result authority_error unit :=
  reject negb (validCapabilityShape c) ||
         bad_expectation ValidEnvironment (voExpectedEnvironment opts) ||
         bad_expectation ValidInstallationID (voExpectedInstallationID opts) ||
         bad_expectation ValidAccountIncarnationID (voExpectedAccountIncarnationID opts)
    with Invalid;;
  reject negb (beq (rcAlgorithm c) Ed25519Name) with KeyState;;
  match keys !! rcSigningKeyID c with
  | None => Err KeyState
  | Some publicKey =>
      reject negb (length publicKey =? 32)%nat with KeyState;;
      match decodeCanonicalRawURLBase64 (rcSignature c) with
      | None => Err Invalid
      | Some signature =>
          reject negb (length signature =? 64)%nat with Invalid;;
          match capability_SigningBytes c with
          | Err _ => Err Invalid
          | Ok signingBytes =>
              reject negb (ed25519_verify publicKey signingBytes signature) with Invalid;;
              match capabilityTimes c with
              | None => Err Invalid
              | Some (issuedAt, expiresAt) =>
                  let now := effective_now (voNow opts) clock in
                  reject negb (before now expiresAt) with Expired;;
                  let maxTTL := if (voMaxTTL opts <=? 0) || (minute <? voMaxTTL opts)
                                then minute else voMaxTTL opts in
                  reject (time_sub expiresAt issuedAt <=? 0) || (maxTTL <? time_sub expiresAt issuedAt)
                    with Expired;;
                  reject after issuedAt (now + 5 * second) with Invalid;;
                  reject mismatch (voExpectedEnvironment opts) (rcEnvironment c) with Invalid;;
                  reject mismatch (voExpectedInstallationID opts) (rcInstallationID c) with Invalid;;
                  reject mismatch (voExpectedAccountIncarnationID opts) (rcAccountIncarnationID c)
                    with Invalid;;
                  reject mismatch (voExpectedTopicDigest opts) (rcTopicDigest c) with Invalid;;
                  Ok tt
              end
          end
      end
  end.

End Verify.

(** ** control.go *)

Definition policyControlDomain : bytes := str "Hytch safety policy control v1" ++ [x00].
Definition PolicyStateActive : bytes := str "active".
Definition PolicyStateRevoked : bytes := str "revoked".
Definition AgePolicyAdult : bytes := str "adult".
Definition AgePolicyTeen : bytes := str "teen".

Record PolicyControlV1 := {
  pcSchemaVersion : Z;
  pcEnvironment : bytes;
  pcInstallationID : bytes;
  pcAccountIncarnationID : bytes;
  pcPolicyEpoch : Z;
  pcState : bytes;
  pcAgePolicy : bytes;
  pcIssuedAt : bytes;
  pcExpiresAt : bytes;
  pcSigningKeyID : bytes;
  pcAlgorithm : bytes;
  pcSignature : bytes;
}.

Record PolicyVerifyOptions := {
  poNow : Z;
  poExpectedEnvironment : bytes;
  poExpectedInstallationID : bytes;
  poExpectedAccountIncarnationID : bytes;
}.

Definition validPolicyControlSigningShape (c : PolicyControlV1) : bool :=
  bail negb (pcSchemaVersion c =? 1) || (pcPolicyEpoch c =? 0) ||
       (maxIJSONSafeInteger <? pcPolicyEpoch c) || negb (ValidEnvironment (pcEnvironment c)) ||
       negb (ValidInstallationID (pcInstallationID c)) ||
       negb (ValidAccountIncarnationID (pcAccountIncarnationID c)) with false;;
  bail negb (beq (pcState c) PolicyStateActive) && negb (beq (pcState c) PolicyStateRevoked) with false;;
  bail negb (beq (pcAgePolicy c) AgePolicyAdult) && negb (beq (pcAgePolicy c) AgePolicyTeen) with false;;
  forallb (fun value => validASCIIField value 1 maxCapabilityFieldBytes)
    [pcIssuedAt c; pcExpiresAt c; pcSigningKeyID c; pcAlgorithm c].

Definition validPolicyControlShape (c : PolicyControlV1) : bool :=
  validPolicyControlSigningShape c && validASCIIField (pcSignature c) 1 maxCapabilityFieldBytes.

Definition control_members (c : PolicyControlV1) : list (string * jfield) :=
  [("account_incarnation_id", FStr (pcAccountIncarnationID c));
   ("age_policy", FStr (pcAgePolicy c));
   ("algorithm", FStr (pcAlgorithm c));
   ("environment", FStr (pcEnvironment c));
   ("expires_at", FStr (pcExpiresAt c));
   ("installation_id", FStr (pcInstallationID c));
   ("issued_at", FStr (pcIssuedAt c));
   ("policy_epoch", FUint (pcPolicyEpoch c));
   ("schema_version", FUint (pcSchemaVersion c));
   ("signing_key_id", FStr (pcSigningKeyID c));
   ("state", FStr (pcState c))]%string.

Definition control_SigningBytes (c : PolicyControlV1) : result authority_error bytes :=
  reject negb (validPolicyControlSigningShape c) with Invalid;;
  Ok (policyControlDomain ++ marshal_struct (control_members c)).

Section VerifyControl.
Context `{Ed25519}.

Definition VerifyPolicyControl (control : PolicyControlV1) (keys : gmap bytes bytes)
  (opts : PolicyVerifyOptions) (clock : Z) : result authority_error unit :=
  reject negb (validPolicyControlShape control) ||
         bad_expectation ValidEnvironment (poExpectedEnvironment opts) ||
         bad_expectation ValidInstallationID (poExpectedInstallationID opts) ||
         bad_expectation ValidAccountIncarnationID (poExpectedAccountIncarnationID opts)
    with Invalid;;
  reject negb (beq (pcAlgorithm control) Ed25519Name) with KeyState;;
  match keys !! pcSigningKeyID control with
  | None => Err KeyState
  | Some publicKey =>
      reject negb (length publicKey =? 32)%nat with KeyState;;
      match decodeCanonicalRawURLBase64 (pcSignature control) with
      | None => Err Invalid
      | Some signature =>
          reject negb (length signature =? 64)%nat with Invalid;;
          match control_SigningBytes control with
          | Err _ => Err Invalid
          | Ok signingBytes =>
              reject negb (ed25519_verify publicKey signingBytes signature) with Invalid;;
              match parse_times (pcIssuedAt control) (pcExpiresAt control) with
              | None => Err Invalid
              | Some (issuedAt, expiresAt) =>
                  let now := effective_now (poNow opts) clock in
                  reject negb (before now expiresAt) with Expired;;
                  let maxTTL := if beq (pcAgePolicy control) AgePolicyTeen
                                then 30 * second else minute in
                  reject (time_sub expiresAt issuedAt <=? 0) || (maxTTL <? time_sub expiresAt issuedAt)
                    with Expired;;
                  reject after issuedAt (now + 5 * second) with Invalid;;
                  reject mismatch (poExpectedEnvironment opts) (pcEnvironment control) with Invalid;;
                  reject mismatch (poExpectedInstallationID opts) (pcInstallationID control)
                    with Invalid;;
                  reject mismatch (poExpectedAccountIncarnationID opts)
                    (pcAccountIncarnationID control) with Invalid;;
                  Ok tt
              end
          end
      end
  end.

End VerifyControl.

(** ** welcome.go *)

Definition welcomeAuthorizationDomain : bytes :=
  str "Hytch safety welcome authorization v1" ++ [x00].

Record WelcomeAuthorizationV1 := {
  waSchemaVersion : Z;
  waEnvironment : bytes;
  waInstallationID : bytes;
  waAccountIncarnationID : bytes;
  waPolicyEpoch : Z;
  waTopicDigest : bytes;
  waOuterEnvelopeDigest : bytes;
  waExpectedConversationCommitment : bytes;
  waGrantVersion : Z;
  waNonce : bytes;
  waIssuedAt : bytes;
  waExpiresAt : bytes;
  waSigningKeyID : bytes;
  waAlgorithm : bytes;
  waSignature : bytes;
}.

Record WelcomeVerifyOptions := {
  woNow : Z;
  woExpectedEnvironment : bytes;
  woExpectedInstallationID : bytes;
  woExpectedAccountIncarnationID : bytes;
  woExpectedTopicDigest : bytes;
  woExpectedOuterEnvelopeDigest : bytes;
  woExpectedConversationCommitment : bytes;
  woExpectedPolicyEpoch : Z;
}.

Definition validWelcomeCanonicalIntegers (a : WelcomeAuthorizationV1) : bool :=
  (waSchemaVersion a =? 1) && (0 <? waPolicyEpoch a) && (waPolicyEpoch a <=? maxIJSONSafeInteger) &&
  (0 <? waGrantVersion a) && (waGrantVersion a <=? maxIJSONSafeInteger).

Definition validWelcomeAuthorizationSigningShape (a : WelcomeAuthorizationV1) : bool :=
  bail negb (validWelcomeCanonicalIntegers a) || negb (ValidEnvironment (waEnvironment a)) ||
       negb (ValidInstallationID (waInstallationID a)) ||
       negb (ValidAccountIncarnationID (waAccountIncarnationID a)) with false;;
  bail negb (forallb (fun value => validASCIIField value 1 maxCapabilityFieldBytes)
    [waTopicDigest a; waOuterEnvelopeDigest a; waExpectedConversationCommitment a; waNonce a;
     waIssuedAt a; waExpiresAt a; waSigningKeyID a; waAlgorithm a]) with false;;
  bail negb (validLowerHexDigest (waTopicDigest a)) ||
       negb (validLowerHexDigest (waOuterEnvelopeDigest a)) ||
       negb (validLowerHexDigest (waExpectedConversationCommitment a)) with false;;
  valid_nonce (waNonce a).

Definition validWelcomeAuthorizationShape (a : WelcomeAuthorizationV1) : bool :=
  validWelcomeAuthorizationSigningShape a && validASCIIField (waSignature a) 1 maxCapabilityFieldBytes.

Definition welcome_members (a : WelcomeAuthorizationV1) : list (string * jfield) :=
  [("account_incarnation_id", FStr (waAccountIncarnationID a));
   ("algorithm", FStr (waAlgorithm a));
   ("environment", FStr (waEnvironment a));
   ("expected_conversation_commitment", FStr (waExpectedConversationCommitment a));
   ("expires_at", FStr (waExpiresAt a));
   ("grant_version", FUint (waGrantVersion a));
   ("installation_id", FStr (waInstallationID a));
   ("issued_at", FStr (waIssuedAt a));
   ("nonce", FStr (waNonce a));
   ("outer_envelope_digest", FStr (waOuterEnvelopeDigest a));
   ("policy_epoch", FUint (waPolicyEpoch a));
   ("schema_version", FUint (waSchemaVersion a));
   ("signing_key_id", FStr (waSigningKeyID a));
   ("topic_digest", FStr (waTopicDigest a))]%string.

Definition welcome_SigningBytes (a : WelcomeAuthorizationV1) : result authority_error bytes :=
  reject negb (validWelcomeAuthorizationSigningShape a) with Invalid;;
  Ok (welcomeAuthorizationDomain ++ marshal_struct (welcome_members a)).

Definition welcomeAuthorizationTimes (a : WelcomeAuthorizationV1) : option (Z * Z) :=
  parse_times (waIssuedAt a) (waExpiresAt a).

Section VerifyWelcome.
Context `{Ed25519}.

Definition VerifyWelcomeAuthorization (a : WelcomeAuthorizationV1) (keys : gmap bytes bytes)
  (opts : WelcomeVerifyOptions) (clock : Z) : result authority_error unit :=
  reject negb (validWelcomeAuthorizationShape a) ||
         bad_expectation ValidEnvironment (woExpectedEnvironment opts) ||
         bad_expectation ValidInstallationID (woExpectedInstallationID opts) ||
         bad_expectation ValidAccountIncarnationID (woExpectedAccountIncarnationID opts)
    with Invalid;;
  reject negb (beq (waAlgorithm a) Ed25519Name) with KeyState;;
  match keys !! waSigningKeyID a with
  | None => Err KeyState
  | Some publicKey =>
      reject negb (length publicKey =? 32)%nat with KeyState;;
      match decodeCanonicalRawURLBase64 (waSignature a) with
      | None => Err Invalid
      | Some signature =>
          reject negb (length signature =? 64)%nat with Invalid;;
          match welcome_SigningBytes a with
          | Err _ => Err Invalid
          | Ok signingBytes =>
              reject negb (ed25519_verify publicKey signingBytes signature) with Invalid;;
              match welcomeAuthorizationTimes a with
              | None => Err Invalid
              | Some (issuedAt, expiresAt) =>
                  let now := effective_now (woNow opts) clock in
                  reject negb (before now expiresAt) || (time_sub expiresAt issuedAt <=? 0) ||
                         (minute <? time_sub expiresAt issuedAt) with Expired;;
                  reject after issuedAt (now + 5 * second) with Invalid;;
                  reject mismatch (woExpectedEnvironment opts) (waEnvironment a) with Invalid;;
                  reject mismatch (woExpectedInstallationID opts) (waInstallationID a) with Invalid;;
                  reject mismatch (woExpectedAccountIncarnationID opts) (waAccountIncarnationID a)
                    with Invalid;;
                  reject mismatch (woExpectedTopicDigest opts) (waTopicDigest a) with Invalid;;
                  reject mismatch (woExpectedOuterEnvelopeDigest opts) (waOuterEnvelopeDigest a)
                    with Invalid;;
                  reject mismatch (woExpectedConversationCommitment opts)
                    (waExpectedConversationCommitment a) with Invalid;;
                  reject negb (woExpectedPolicyEpoch opts =? 0) &&
                         negb (waPolicyEpoch a =? woExpectedPolicyEpoch opts) with Invalid;;
                  Ok tt
              end
          end
      end
  end.

End VerifyWelcome.

(** ** Canonical encodings *)

Lemma canonical_hex_true n v : canonical_hex n v = true <-> exists b, length b = n /\ v = hex_encode b.
Proof.
  unfold canonical_hex. split.
  - intros H. destruct (hex_decode v) as [b|]; [|done]. boolprop. exists b.
    split; [done|]. symmetry. by apply beq_true.
  - intros (b & <- & ->). by rewrite hex_decode_encode, Nat.eqb_refl, beq_refl.
Qed.

Lemma decodeCanonical_some v b : decodeCanonicalRawURLBase64 v = Some b <-> v = b64_encode b.
Proof.
  unfold decodeCanonicalRawURLBase64. split.
  - intros H. destruct (b64_decode true v) as [d|]; [|done].
    destruct (beq (b64_encode d) v) eqn:E; [|done]. apply beq_true in E. cbn in H. congruence.
  - intros ->. by rewrite b64_decode_encode, beq_refl.
Qed.

Lemma ValidEnvironment_true v : ValidEnvironment v = true <-> v = EnvironmentDev \/ v = EnvironmentProduction.
Proof. unfold ValidEnvironment. by rewrite orb_true_iff, !beq_true. Qed.

Lemma ValidInstallationID_true v :
  ValidInstallationID v = true <-> exists b, length b = 32%nat /\ v = hex_encode b.
Proof.
  unfold ValidInstallationID. rewrite <- canonical_hex_true.
  destruct (Nat.eqb_spec (length v) 64) as [|Hn]; cbn [negb]; [done|]. split; [done|].
  rewrite canonical_hex_true. intros (b & Hb & ->). rewrite length_hex_encode in Hn. lia.
Qed.

Lemma compact_uuid v :
  length v = 36%nat -> is_hyphen v 8 = true -> is_hyphen v 13 = true -> is_hyphen v 18 = true ->
  is_hyphen v 23 = true -> uuid_text (compact_from 0 v) = v.
Proof.
  unfold is_hyphen. intros Hl H1 H2 H3 H4. do 36 (destruct v as [|? v]; [discriminate Hl|]).
  destruct v; [|discriminate Hl]. cbn [nth] in *.
  apply bool_decide_eq_true_1 in H1, H2, H3, H4. subst. reflexivity.
Qed.

Lemma compact_uuid_text h :
  length h = 32%nat ->
  compact_from 0 (uuid_text h) = h /\ length (uuid_text h) = 36%nat /\
  is_hyphen (uuid_text h) 8 = true /\ is_hyphen (uuid_text h) 13 = true /\
  is_hyphen (uuid_text h) 18 = true /\ is_hyphen (uuid_text h) 23 = true.
Proof.
  intros Hl. do 32 (destruct h as [|? h]; [discriminate Hl|]). destruct h; [|discriminate Hl].
  by repeat split.
Qed.

Lemma ValidAccountIncarnationID_true v :
  ValidAccountIncarnationID v = true <-> exists b, length b = 16%nat /\ v = uuid_text (hex_encode b).
Proof.
  unfold ValidAccountIncarnationID. split.
  - intros H. destruct (Nat.eqb_spec (length v) 36) as [Hl|]; [|done]. cbn [negb orb] in H.
    destruct (is_hyphen v 8) eqn:E1; [|done]. destruct (is_hyphen v 13) eqn:E2; [|done].
    destruct (is_hyphen v 18) eqn:E3; [|done]. destruct (is_hyphen v 23) eqn:E4; [|done].
    apply canonical_hex_true in H as (b & Hb & Hc). exists b. split; [done|].
    rewrite <- Hc. symmetry. by apply compact_uuid.
  - intros (b & Hb & ->).
    destruct (compact_uuid_text (hex_encode b)) as (Hc & Hl & -> & -> & -> & ->);
      [rewrite length_hex_encode; lia|].
    rewrite Hl, Hc. cbn [negb orb Nat.eqb]. apply canonical_hex_true. by exists b.
Qed.

(** ** Field bytes of accepted values *)

Lemma validASCIIField_bytes v lo hi : validASCIIField v lo hi = true -> forallb is_field_byte v = true.
Proof. unfold validASCIIField. by destruct (_ || _). Qed.

Lemma lower_hex_field b : is_lower_hex b = true -> is_field_byte b = true.
Proof. by destruct b. Qed.

Lemma hex_field l : forallb is_field_byte (hex_encode l) = true.
Proof. eapply forallb_impl; [apply lower_hex_field|apply hex_encode_lower]. Qed.

Lemma environment_field v : ValidEnvironment v = true -> forallb is_field_byte v = true.
Proof. rewrite ValidEnvironment_true. by intros [-> | ->]. Qed.

Lemma installation_field v : ValidInstallationID v = true -> forallb is_field_byte v = true.
Proof. rewrite ValidInstallationID_true. intros (b & _ & ->). apply hex_field. Qed.

Lemma forallb_take {A : Type} (P : A -> bool) n l : forallb P l = true -> forallb P (take n l) = true.
Proof.
  intros H. rewrite <- (take_drop n l), forallb_app in H. by apply andb_true_iff in H as [? _].
Qed.

Lemma forallb_drop {A : Type} (P : A -> bool) n l : forallb P l = true -> forallb P (drop n l) = true.
Proof.
  intros H. rewrite <- (take_drop n l), forallb_app in H. by apply andb_true_iff in H as [_ ?].
Qed.

Lemma incarnation_field v : ValidAccountIncarnationID v = true -> forallb is_field_byte v = true.
Proof.
  rewrite ValidAccountIncarnationID_true. intros (b & _ & ->). unfold uuid_text.
  rewrite !forallb_app. pose proof (hex_field b) as Hh.
  rewrite !(forallb_take is_field_byte), !(forallb_drop is_field_byte) by
    (repeat apply (forallb_drop is_field_byte); done). done.
Qed.

(** ** Signing bytes *)

Lemma push_mode_field v :
  negb (beq v PushModeAlertAllowed) && negb (beq v PushModeSuppressed) &&
  negb (validASCIIField v 0 32) = false -> forallb is_field_byte v = true.
Proof.
  destruct (beq v PushModeAlertAllowed) eqn:E1; [apply beq_true in E1 as ->; done|].
  destruct (beq v PushModeSuppressed) eqn:E2; [apply beq_true in E2 as ->; done|].
  cbn [negb andb]. intros H. boolprop. by eapply validASCIIField_bytes.
Qed.

Lemma fields_bytes l :
  forallb (fun v => validASCIIField v 1 maxCapabilityFieldBytes) l = true ->
  Forall (fun v => forallb is_field_byte v = true) l.
Proof.
  intros H. apply Forall_forall. intros v Hv. rewrite forallb_forall in H.
  eapply validASCIIField_bytes. apply H. by apply list_elem_of_In.
Qed.

Ltac split_fields H :=
  apply fields_bytes in H;
  repeat match type of H with
  | Forall _ (_ :: _) => apply Forall_cons in H as [? H]
  end.

Lemma capability_fields_ok c :
  validCapabilitySigningShape c = true -> Forall (fun m => field_ok (snd m)) (capability_members c).
Proof.
  unfold validCapabilitySigningShape. intros H.
  repeat match type of H with (if ?b then false else _) = true => destruct b eqn:?; [discriminate H|] end.
  destruct (decodeCanonicalRawURLBase64 _); [|done].
  unfold validCapabilityCanonicalIntegers in *. boolprop.
  repeat match goal with E : _ && _ = true |- _ => apply andb_true_iff in E as [? ?] end. boolprop.
  match goal with E : forallb _ _ = true |- _ => split_fields E end.
  match goal with E : ValidEnvironment _ = true |- _ => apply environment_field in E end.
  match goal with E : ValidInstallationID _ = true |- _ => apply installation_field in E end.
  match goal with E : ValidAccountIncarnationID _ = true |- _ => apply incarnation_field in E end.
  match goal with E : negb (beq _ _) && _ && _ = false |- _ => apply push_mode_field in E end.
  repeat constructor; simpl; try done; lia.
Qed.

Lemma control_fields_ok c :
  u64 (pcPolicyEpoch c) -> validPolicyControlSigningShape c = true -> Forall (fun m => field_ok (snd m)) (control_members c).
Proof.
  unfold validPolicyControlSigningShape. intros [Hu _] H.
  repeat match type of H with (if ?b then false else _) = true => destruct b eqn:?; [discriminate H|] end.
  split_fields H. boolprop.
  match goal with E : ValidEnvironment _ = true |- _ => apply environment_field in E end.
  match goal with E : ValidInstallationID _ = true |- _ => apply installation_field in E end.
  match goal with E : ValidAccountIncarnationID _ = true |- _ => apply incarnation_field in E end.
  assert (Hs : forallb is_field_byte (pcState c) = true).
  { destruct (beq (pcState c) PolicyStateActive) eqn:E1; [apply beq_true in E1 as ->; done|].
    destruct (beq (pcState c) PolicyStateRevoked) eqn:E2; [apply beq_true in E2 as ->; done|done]. }
  assert (Ha : forallb is_field_byte (pcAgePolicy c) = true).
  { destruct (beq (pcAgePolicy c) AgePolicyAdult) eqn:E1; [apply beq_true in E1 as ->; done|].
    destruct (beq (pcAgePolicy c) AgePolicyTeen) eqn:E2; [apply beq_true in E2 as ->; done|done]. }
  repeat constructor; simpl; try done; lia.
Qed.

Lemma welcome_fields_ok c :
  validWelcomeAuthorizationSigningShape c = true -> Forall (fun m => field_ok (snd m)) (welcome_members c).
Proof.
  unfold validWelcomeAuthorizationSigningShape. intros H.
  repeat match type of H with (if ?b then false else _) = true => destruct b eqn:?; [discriminate H|] end.
  unfold validWelcomeCanonicalIntegers in *. boolprop.
  match goal with E : forallb _ _ = true |- _ => split_fields E end.
  match goal with E : ValidEnvironment _ = true |- _ => apply environment_field in E end.
  match goal with E : ValidInstallationID _ = true |- _ => apply installation_field in E end.
  match goal with E : ValidAccountIncarnationID _ = true |- _ => apply incarnation_field in E end.
  repeat constructor; simpl; try done; lia.
Qed.

(** The three signed objects, their signing bytes, and the object without its signature. *)
Inductive signed :=
| SCapability (c : ReceiveCapabilityV1)
| SControl (c : PolicyControlV1)
| SWelcome (a : WelcomeAuthorizationV1).

Definition signing_bytes (s : signed) : result authority_error bytes :=
  match s with
  | SCapability c => capability_SigningBytes c
  | SControl c => control_SigningBytes c
  | SWelcome a => welcome_SigningBytes a
  end.

Definition unsigned (s : signed) : signed :=
  match s with
  | SCapability c => SCapability {|
      rcSchemaVersion := rcSchemaVersion c; rcEnvironment := rcEnvironment c;
      rcInstallationID := rcInstallationID c; rcAccountIncarnationID := rcAccountIncarnationID c;
      rcPolicyEpoch := rcPolicyEpoch c; rcTopicDigest := rcTopicDigest c;
      rcAliasDay := rcAliasDay c; rcRouteAlias := rcRouteAlias c;
      rcConversationGrantVersion := rcConversationGrantVersion c;
      rcRosterVersion := rcRosterVersion c; rcPushMode := rcPushMode c;
      rcIssuedAt := rcIssuedAt c; rcExpiresAt := rcExpiresAt c; rcNonce := rcNonce c;
      rcSigningKeyID := rcSigningKeyID c; rcAlgorithm := rcAlgorithm c; rcSignature := [] |}
  | SControl c => SControl {|
      pcSchemaVersion := pcSchemaVersion c; pcEnvironment := pcEnvironment c;
      pcInstallationID := pcInstallationID c; pcAccountIncarnationID := pcAccountIncarnationID c;
      pcPolicyEpoch := pcPolicyEpoch c; pcState := pcState c; pcAgePolicy := pcAgePolicy c;
      pcIssuedAt := pcIssuedAt c; pcExpiresAt := pcExpiresAt c;
      pcSigningKeyID := pcSigningKeyID c; pcAlgorithm := pcAlgorithm c; pcSignature := [] |}
  | SWelcome a => SWelcome {|
      waSchemaVersion := waSchemaVersion a; waEnvironment := waEnvironment a;
      waInstallationID := waInstallationID a; waAccountIncarnationID := waAccountIncarnationID a;
      waPolicyEpoch := waPolicyEpoch a; waTopicDigest := waTopicDigest a;
      waOuterEnvelopeDigest := waOuterEnvelopeDigest a;
      waExpectedConversationCommitment := waExpectedConversationCommitment a;
      waGrantVersion := waGrantVersion a; waNonce := waNonce a; waIssuedAt := waIssuedAt a;
      waExpiresAt := waExpiresAt a; waSigningKeyID := waSigningKeyID a;
      waAlgorithm := waAlgorithm a; waSignature := [] |}
  end.

(** What Go's types say of the one integer the shape check only tests for zero. *)
Definition signed_typed (s : signed) : Prop :=
  match s with SControl c => u64 (pcPolicyEpoch c) | _ => True end.

Lemma marshal_members_inj {A : Type} (members : A -> list (string * jfield)) (a b : A) :
  map field_kind (members a) = map field_kind (members b) ->
  Forall (fun m => field_ok (snd m)) (members a) -> Forall (fun m => field_ok (snd m)) (members b) ->
  marshal_struct (members a) = marshal_struct (members b) -> members a = members b.
Proof. intros Hk Ha Hb H. apply marshal_struct_inj in H; [done|]. by apply same_shapes. Qed.

(** ** Properties *)

(** The bytes an authority signs determine what it authorizes. Two accepted objects
    with the same signing bytes are of the same kind and agree in every field but the
    signature, so a signature for one object never verifies another, within a kind or
    across the three kinds. *)
Theorem authority_signing_bytes_injective (s s' : signed) (b : bytes) :
  signed_typed s -> signed_typed s' ->
  signing_bytes s = Ok b -> signing_bytes s' = Ok b -> unsigned s = unsigned s'.
Proof.
  intros T T' H H'. destruct s as [c|c|c], s' as [c'|c'|c']; cbn [signing_bytes] in H, H';
    unfold capability_SigningBytes, control_SigningBytes, welcome_SigningBytes in H, H';
    apply reject_ok in H as [V H], H' as [V' H']; apply negb_false_iff in V, V'; rewrite <- H in H'; clear H;
    apply (f_equal (fun r => match r with Ok x => x | Err _ => [] end)) in H'; cbv beta iota in H';
    try discriminate H'; apply app_inv_head in H'.
  - apply marshal_members_inj in H'; [|done|by apply capability_fields_ok..].
    unfold capability_members in H'. destruct c, c'. cbn in *. injection H'. intros; subst. done.
  - apply marshal_members_inj in H'; [|done|by apply control_fields_ok..].
    unfold control_members in H'. destruct c, c'. cbn in *. injection H'. intros; subst. done.
  - apply marshal_members_inj in H'; [|done|by apply welcome_fields_ok..].
    unfold welcome_members in H'. destruct c, c'. cbn in *. injection H'. intros; subst. done.
Qed.

(** ** What a verifier accepts *)

Section Accepts.
Context `{Ed25519}.

(** Signed by a known key under the one algorithm. *)
Definition signed_by (keys : gmap bytes bytes) (kid alg signature b : bytes) : Prop :=
  alg = Ed25519Name /\ exists pk s, keys !! kid = Some pk /\ length pk = 32%nat /\
    signature = b64_encode s /\ length s = 64%nat /\ ed25519_verify pk b s = true.

(** Within its life, of at most [ttl], and issued at most five seconds in the future. *)
Definition timely (now ttl : Z) (issued expires : bytes) : Prop :=
  exists i e, parse_rfc3339nano issued = Some i /\ parse_rfc3339nano expires = Some e /\
    now < e /\ i < e <= i + ttl /\ i <= now + 5 * second.

Definition met (expected actual : bytes) : Prop := expected = [] \/ expected = actual.
Definition well_formed (valid : bytes -> bool) (expected : bytes) : Prop :=
  expected = [] \/ valid expected = true.

Lemma mismatch_false e a : mismatch e a = false <-> met e a.
Proof.
  unfold mismatch, met. rewrite andb_false_iff, !negb_false_iff, !beq_true.
  split; intros [?|?]; auto.
Qed.

Lemma bad_expectation_false valid e : bad_expectation valid e = false <-> well_formed valid e.
Proof. unfold bad_expectation, well_formed. by rewrite andb_false_iff, !negb_false_iff, beq_true. Qed.

(** The part the three verifiers share: key, signature, signing bytes. *)
Lemma signature_chain {B : Type} keys kid alg signature (sb : result authority_error bytes)
    (k : result authority_error B) (x : B) b :
  sb = Ok b ->
  (if negb (beq alg Ed25519Name) then Err KeyState else
   match keys !! kid with
   | None => Err KeyState
   | Some publicKey =>
       if negb (length publicKey =? 32)%nat then Err KeyState else
       match decodeCanonicalRawURLBase64 signature with
       | None => Err Invalid
       | Some s =>
           if negb (length s =? 64)%nat then Err Invalid else
           match sb with
           | Err _ => Err Invalid
           | Ok b => if negb (ed25519_verify publicKey b s) then Err Invalid else k
           end
       end
   end) = Ok x <-> signed_by keys kid alg signature b /\ k = Ok x.
Proof.
  intros ->. rewrite reject_ok, negb_false_iff, beq_true. unfold signed_by.
  destruct (keys !! kid) as [pk|]; [|split; [by intros [_ ?]|by intros [(_ & ? & ? & ? & _) _]]].
  rewrite reject_ok, negb_false_iff, Nat.eqb_eq.
  destruct (decodeCanonicalRawURLBase64 signature) as [s|] eqn:Es.
  - rewrite !reject_ok, !negb_false_iff, Nat.eqb_eq. apply decodeCanonical_some in Es as ->.
    split.
    + intros (Ha & Hpk & Hs & Hv & Hk). split; [|done]. split; [done|]. by exists pk, s.
    + intros [[Ha (pk' & s' & [= <-] & Hpk & Hs & Hl & Hv)] Hk]. apply b64_encode_inj in Hs as <-. done.
  - split; [by intros (_ & _ & ?)|]. intros [[_ (pk' & s' & _ & _ & Hs & _)] _].
    apply decodeCanonical_some in Hs. congruence.
Qed.

(** The time checks. *)
Lemma time_chain (issued expires : bytes) now ttl (k : result authority_error unit) :
  0 <= ttl < max_duration ->
  match parse_times issued expires with
  | None => Err Invalid
  | Some (issuedAt, expiresAt) =>
      if negb (before now expiresAt) then Err Expired else
      if (time_sub expiresAt issuedAt <=? 0) || (ttl <? time_sub expiresAt issuedAt) then Err Expired else
      if after issuedAt (now + 5 * second) then Err Invalid else k
  end = Ok tt <-> timely now ttl issued expires /\ k = Ok tt.
Proof.
  intros Httl. unfold parse_times, timely.
  destruct (parse_rfc3339nano issued) as [i|]; cbn [mbind option_bind];
    [|split; [done|by intros [(? & ? & ? & _) _]]].
  destruct (parse_rfc3339nano expires) as [e|]; cbn [mbind option_bind];
    [|split; [done|by intros [(? & ? & _ & ? & _) _]]].
  rewrite !reject_ok, negb_false_iff, orb_false_iff, time_sub_le_0, time_sub_gt by done.
  unfold before, after. rewrite Z.ltb_lt, Z.leb_gt, !Z.ltb_ge. split.
  - intros (H1 & (H2 & H3) & H4 & Hk). split; [|done]. exists i, e. repeat split; try done; lia.
  - intros [(i' & e' & [= <-] & [= <-] & H1 & H2 & H3) Hk]. repeat split; try done; lia.
Qed.

(** The same with the two expiry checks in one guard. *)
Lemma time_chain_merged (issued expires : bytes) now ttl (k : result authority_error unit) :
  0 <= ttl < max_duration ->
  match parse_times issued expires with
  | None => Err Invalid
  | Some (issuedAt, expiresAt) =>
      if negb (before now expiresAt) || (time_sub expiresAt issuedAt <=? 0) ||
         (ttl <? time_sub expiresAt issuedAt) then Err Expired else
      if after issuedAt (now + 5 * second) then Err Invalid else k
  end = Ok tt <-> timely now ttl issued expires /\ k = Ok tt.
Proof.
  intros Httl. rewrite <- (time_chain _ _ _ _ _ Httl).
  destruct (parse_times issued expires) as [[i e]|]; [|done].
  by destruct (negb (before now e)), (time_sub e i <=? 0), (ttl <? time_sub e i).
Qed.

(** what the capability verifier accepts: exactly a well-shaped capability whose set
    expectations are well formed and met, signed over its canonical bytes by a known
    32-byte key, unexpired, living at most the requested time to live (one minute when
    none, or more, is requested) and issued at most five seconds ahead. *)
Theorem receive_capability_accepted (c : ReceiveCapabilityV1) (keys : gmap bytes bytes)
    (opts : VerifyOptions) (clock : Z) :
  let ttl := if (voMaxTTL opts <=? 0) || (minute <? voMaxTTL opts) then minute else voMaxTTL opts in
  VerifyReceiveCapability c keys opts clock = Ok tt <->
  validCapabilityShape c = true /\
  well_formed ValidEnvironment (voExpectedEnvironment opts) /\
  well_formed ValidInstallationID (voExpectedInstallationID opts) /\
  well_formed ValidAccountIncarnationID (voExpectedAccountIncarnationID opts) /\
  signed_by keys (rcSigningKeyID c) (rcAlgorithm c) (rcSignature c)
    (receiveCapabilityDomain ++ marshal_struct (capability_members c)) /\
  timely (effective_now (voNow opts) clock) ttl (rcIssuedAt c) (rcExpiresAt c) /\
  met (voExpectedEnvironment opts) (rcEnvironment c) /\
  met (voExpectedInstallationID opts) (rcInstallationID c) /\
  met (voExpectedAccountIncarnationID opts) (rcAccountIncarnationID c) /\
  met (voExpectedTopicDigest opts) (rcTopicDigest c).
Proof.
  unfold VerifyReceiveCapability. cbv zeta.
  rewrite reject_ok, !orb_false_iff, negb_false_iff, !bad_expectation_false.
  destruct (validCapabilityShape c) eqn:Es.
  2: { split; [by intros [(((? & _) & _) & _) _]|by intros [? _]]. }
  assert (Hsb : capability_SigningBytes c =
    Ok (receiveCapabilityDomain ++ marshal_struct (capability_members c))).
  { unfold capability_SigningBytes. unfold validCapabilityShape in Es. boolprop.
    by match goal with E : validCapabilitySigningShape c = true |- _ => rewrite E end. }
  rewrite (signature_chain _ _ _ _ _ _ _ _ Hsb).
  unfold capabilityTimes. rewrite time_chain.
  2: { unfold max_duration. destruct (Z.leb_spec (voMaxTTL opts) 0); cbn [orb];
       [unfold minute, second; lia|].
       destruct (Z.ltb_spec minute (voMaxTTL opts)); unfold minute, second in *; lia. }
  rewrite !reject_ok, !mismatch_false. tauto.
Qed.

(** what the policy-control verifier accepts; a teen's control lives at most thirty
    seconds, an adult's at most a minute. *)
Theorem policy_control_accepted (c : PolicyControlV1) (keys : gmap bytes bytes)
    (opts : PolicyVerifyOptions) (clock : Z) :
  let ttl := if beq (pcAgePolicy c) AgePolicyTeen then 30 * second else minute in
  VerifyPolicyControl c keys opts clock = Ok tt <->
  validPolicyControlShape c = true /\
  well_formed ValidEnvironment (poExpectedEnvironment opts) /\
  well_formed ValidInstallationID (poExpectedInstallationID opts) /\
  well_formed ValidAccountIncarnationID (poExpectedAccountIncarnationID opts) /\
  signed_by keys (pcSigningKeyID c) (pcAlgorithm c) (pcSignature c)
    (policyControlDomain ++ marshal_struct (control_members c)) /\
  timely (effective_now (poNow opts) clock) ttl (pcIssuedAt c) (pcExpiresAt c) /\
  met (poExpectedEnvironment opts) (pcEnvironment c) /\
  met (poExpectedInstallationID opts) (pcInstallationID c) /\
  met (poExpectedAccountIncarnationID opts) (pcAccountIncarnationID c).
Proof.
  unfold VerifyPolicyControl. cbv zeta.
  rewrite reject_ok, !orb_false_iff, negb_false_iff, !bad_expectation_false.
  destruct (validPolicyControlShape c) eqn:Es.
  2: { split; [by intros [(((? & _) & _) & _) _]|by intros [? _]]. }
  assert (Hsb : control_SigningBytes c = Ok (policyControlDomain ++ marshal_struct (control_members c))).
  { unfold control_SigningBytes. unfold validPolicyControlShape in Es. boolprop.
    by match goal with E : validPolicyControlSigningShape c = true |- _ => rewrite E end. }
  rewrite (signature_chain _ _ _ _ _ _ _ _ Hsb).
  rewrite time_chain by (unfold max_duration; case_goal; unfold minute, second; lia).
  rewrite !reject_ok, !mismatch_false. tauto.
Qed.

(** what the welcome verifier accepts: in addition, the exact outer envelope, the
    conversation commitment and the policy epoch the caller expects. *)
Theorem welcome_authorization_accepted (a : WelcomeAuthorizationV1) (keys : gmap bytes bytes)
    (opts : WelcomeVerifyOptions) (clock : Z) :
  VerifyWelcomeAuthorization a keys opts clock = Ok tt <->
  validWelcomeAuthorizationShape a = true /\
  well_formed ValidEnvironment (woExpectedEnvironment opts) /\
  well_formed ValidInstallationID (woExpectedInstallationID opts) /\
  well_formed ValidAccountIncarnationID (woExpectedAccountIncarnationID opts) /\
  signed_by keys (waSigningKeyID a) (waAlgorithm a) (waSignature a)
    (welcomeAuthorizationDomain ++ marshal_struct (welcome_members a)) /\
  timely (effective_now (woNow opts) clock) minute (waIssuedAt a) (waExpiresAt a) /\
  met (woExpectedEnvironment opts) (waEnvironment a) /\
  met (woExpectedInstallationID opts) (waInstallationID a) /\
  met (woExpectedAccountIncarnationID opts) (waAccountIncarnationID a) /\
  met (woExpectedTopicDigest opts) (waTopicDigest a) /\
  met (woExpectedOuterEnvelopeDigest opts) (waOuterEnvelopeDigest a) /\
  met (woExpectedConversationCommitment opts) (waExpectedConversationCommitment a) /\
  (woExpectedPolicyEpoch opts = 0 \/ woExpectedPolicyEpoch opts = waPolicyEpoch a).
Proof.
  unfold VerifyWelcomeAuthorization. cbv zeta.
  rewrite reject_ok, !orb_false_iff, negb_false_iff, !bad_expectation_false.
  destruct (validWelcomeAuthorizationShape a) eqn:Es.
  2: { split; [by intros [(((? & _) & _) & _) _]|by intros [? _]]. }
  assert (Hsb : welcome_SigningBytes a =
    Ok (welcomeAuthorizationDomain ++ marshal_struct (welcome_members a))).
  { unfold welcome_SigningBytes. unfold validWelcomeAuthorizationShape in Es. boolprop.
    by match goal with E : validWelcomeAuthorizationSigningShape a = true |- _ => rewrite E end. }
  rewrite (signature_chain _ _ _ _ _ _ _ _ Hsb).
  unfold welcomeAuthorizationTimes.
  rewrite time_chain_merged by (unfold max_duration, minute, second; lia).
  rewrite !reject_ok, !mismatch_false, andb_false_iff, !negb_false_iff, !Z.eqb_eq.
  assert (Hep : forall x y : Z, x = 0 \/ y = x <-> x = 0 \/ x = y) by (intros; split; intros [?|?]; auto).
  rewrite Hep. tauto.
Qed.
(** A capability signed with a seed. *)
Definition sign_capability (seed : bytes) (c : ReceiveCapabilityV1) : ReceiveCapabilityV1 := {|
  rcSchemaVersion := rcSchemaVersion c; rcEnvironment := rcEnvironment c;
  rcInstallationID := rcInstallationID c; rcAccountIncarnationID := rcAccountIncarnationID c;
  rcPolicyEpoch := rcPolicyEpoch c; rcTopicDigest := rcTopicDigest c;
  rcAliasDay := rcAliasDay c; rcRouteAlias := rcRouteAlias c;
  rcConversationGrantVersion := rcConversationGrantVersion c;
  rcRosterVersion := rcRosterVersion c; rcPushMode := rcPushMode c;
  rcIssuedAt := rcIssuedAt c; rcExpiresAt := rcExpiresAt c; rcNonce := rcNonce c;
  rcSigningKeyID := rcSigningKeyID c; rcAlgorithm := rcAlgorithm c;
  rcSignature := b64_encode (ed25519_sign seed
    (receiveCapabilityDomain ++ marshal_struct (capability_members c))) |}.

Lemma b64_field b : is_b64url b = true -> is_field_byte b = true.
Proof. by destruct b. Qed.

Lemma signature_field s : length s = 64%nat -> validASCIIField (b64_encode s) 1 maxCapabilityFieldBytes = true.
Proof.
  intros Hs. unfold validASCIIField. rewrite length_b64_encode, Hs. cbn [Nat.ltb orb].
  change (maxCapabilityFieldBytes <? (64 * 8 + 5) / 6)%nat with false.
  change ((64 * 8 + 5) / 6 <? 1)%nat with false. cbn [orb].
  eapply forallb_impl; [apply b64_field|apply b64_encode_alphabet].
Qed.

Definition no_expectations (now : Z) : VerifyOptions := {|
  voNow := now; voMaxTTL := 0; voExpectedEnvironment := []; voExpectedInstallationID := [];
  voExpectedAccountIncarnationID := []; voExpectedTopicDigest := [] |}.

(** A capability of the accepted shape that an issuer signs with the seed of a key in
    the keyring, and whose times are in order, is accepted. *)
Theorem signed_capability_verifies `{!Ed25519Laws} (seed : bytes) (c : ReceiveCapabilityV1)
    (keys : gmap bytes bytes) (now clock : Z) :
  length seed = 32%nat -> validCapabilitySigningShape c = true -> rcAlgorithm c = Ed25519Name ->
  keys !! rcSigningKeyID c = Some (ed25519_public seed) ->
  timely (effective_now now clock) minute (rcIssuedAt c) (rcExpiresAt c) ->
  VerifyReceiveCapability (sign_capability seed c) keys (no_expectations now) clock = Ok tt.
Proof.
  intros Hseed Hshape Halg Hkey Htime.
  set (m := receiveCapabilityDomain ++ marshal_struct (capability_members c)).
  assert (Hlen : length (ed25519_sign seed m) = 64%nat) by (by apply ed25519_sign_length).
  unfold VerifyReceiveCapability. cbv zeta.
  assert (Hsb : capability_SigningBytes (sign_capability seed c) = Ok m).
  { unfold capability_SigningBytes. change (validCapabilitySigningShape (sign_capability seed c))
      with (validCapabilitySigningShape c). by rewrite Hshape. }
  rewrite reject_ok. split.
  { unfold validCapabilityShape. change (validCapabilitySigningShape (sign_capability seed c))
      with (validCapabilitySigningShape c). rewrite Hshape. cbn [andb sign_capability rcSignature].
    fold m. by rewrite signature_field. }
  rewrite (signature_chain _ _ _ _ _ _ _ _ Hsb). split.
  { split; [done|]. exists (ed25519_public seed), (ed25519_sign seed m).
    split; [done|]. split; [by apply ed25519_public_length|]. split; [done|]. split; [done|].
    by apply ed25519_sign_verify. }
  unfold capabilityTimes. rewrite time_chain by (unfold max_duration; simpl; unfold minute, second; lia).
  split; [exact Htime|]. reflexivity.
Qed.

End Accepts.

(** The identifiers and encodings accepted are exactly the canonical spellings:
    installation ids are the lower-case hexadecimal of 32 bytes, incarnation ids the
    8-4-4-4-12 lower-case text of 16 bytes, digests the hexadecimal of 32 bytes, and a
    base64url value is accepted exactly as the encoding of what it decodes to; so each
    accepted value has one spelling. *)
Theorem authority_identifiers_canonical (v b : bytes) :
  (ValidInstallationID v = true <-> exists d, length d = 32%nat /\ v = hex_encode d) /\
  (ValidAccountIncarnationID v = true <-> exists d, length d = 16%nat /\ v = uuid_text (hex_encode d)) /\
  (validLowerHexDigest v = true <-> exists d, length d = 32%nat /\ v = hex_encode d) /\
  (decodeCanonicalRawURLBase64 v = Some b <-> v = b64_encode b).
Proof.
  split; [apply ValidInstallationID_true|]. split; [apply ValidAccountIncarnationID_true|].
  split; [apply canonical_hex_true|apply decodeCanonical_some].
Qed.

Lemma ascii_go_len v : validASCIIField v 1 maxCapabilityFieldBytes = true -> go_len v.
Proof.
  unfold validASCIIField, go_len. intros H. destruct (_ || _) eqn:E; [done|]. boolprop.
  assert (Z.of_nat (length v) <= 256) by (unfold maxCapabilityFieldBytes in *; lia). lia.
Qed.

Lemma short_go_len v n : (length v <= n)%nat -> (n <= 64)%nat -> go_len v.
Proof. unfold go_len. lia. Qed.

Lemma identifier_go_len e i a :
  ValidEnvironment e = true -> ValidInstallationID i = true -> ValidAccountIncarnationID a = true ->
  go_len e /\ go_len i /\ go_len a.
Proof.
  intros He Hi Ha. repeat split.
  - apply ValidEnvironment_true in He as [-> | ->]; apply (short_go_len _ 10); simpl; lia.
  - apply ValidInstallationID_true in Hi as (d & Hd & ->). apply (short_go_len _ 64); [|lia].
    rewrite length_hex_encode. lia.
  - unfold ValidAccountIncarnationID in Ha. destruct (Nat.eqb_spec (length a) 36); [|done].
    apply (short_go_len _ 36); lia.
Qed.

(** The conversation commitment is issued exactly for canonical inputs, and the bytes
    it hashes determine the environment, installation, incarnation and conversation. *)
Theorem conversation_commitment_binding (e i a v e' i' a' v' c c' : bytes) :
  ExpectedConversationCommitment e i a v = Ok c -> ExpectedConversationCommitment e' i' a' v' = Ok c' ->
  c = sha256 (commitment_preimage e i a v) /\
  (commitment_preimage e i a v = commitment_preimage e' i' a' v' ->
   e = e' /\ i = i' /\ a = a' /\ v = v').
Proof.
  unfold ExpectedConversationCommitment. rewrite !reject_ok, !orb_false_iff, !negb_false_iff.
  intros [[[[He Hi] Ha] Hv] H1] [[[[He' Hi'] Ha'] Hv'] _]. split.
  { apply (f_equal (fun r => match r with Ok x => x | Err _ => [] end)) in H1. symmetry. exact H1. }
  destruct (identifier_go_len _ _ _ He Hi Ha) as (? & ? & ?).
  destruct (identifier_go_len _ _ _ He' Hi' Ha') as (? & ? & ?).
  apply ascii_go_len in Hv, Hv'. unfold commitment_preimage. intros Heq. apply app_inv_head in Heq.
  cbn [map concat] in Heq. do 4 (apply len_field_inj in Heq as [? Heq]; [|done..]). done.
Qed.

(** ** Witnesses *)

#[local] Existing Instances Sample.ed25519 Sample.ed25519_laws.

Definition sample_uuid : bytes := str "00112233-4455-6677-8899-aabbccddeeff".
Definition sample_id : bytes := hex_encode (repeat x11 32).

Definition sample_capability : ReceiveCapabilityV1 := {|
  rcSchemaVersion := 1; rcEnvironment := EnvironmentDev; rcInstallationID := sample_id;
  rcAccountIncarnationID := sample_uuid; rcPolicyEpoch := 4; rcTopicDigest := sample_id;
  rcAliasDay := str "2024-02-29"; rcRouteAlias := b64_encode (repeat x05 16);
  rcConversationGrantVersion := 2; rcRosterVersion := 3; rcPushMode := PushModeAlertAllowed;
  rcIssuedAt := str "2024-02-29T00:00:00Z"; rcExpiresAt := str "2024-02-29T00:00:30Z";
  rcNonce := b64_encode (repeat x06 16); rcSigningKeyID := str "k1"; rcAlgorithm := Ed25519Name;
  rcSignature := [] |}.

Definition sample_control : PolicyControlV1 := {|
  pcSchemaVersion := 1; pcEnvironment := EnvironmentDev; pcInstallationID := sample_id;
  pcAccountIncarnationID := sample_uuid; pcPolicyEpoch := 4; pcState := PolicyStateActive;
  pcAgePolicy := AgePolicyTeen; pcIssuedAt := str "2024-02-29T00:00:00Z";
  pcExpiresAt := str "2024-02-29T00:00:30Z"; pcSigningKeyID := str "k1";
  pcAlgorithm := Ed25519Name; pcSignature := [] |}.

Lemma authority_signing_bytes_injective_witness :
  (exists b, signing_bytes (SControl sample_control) = Ok b) /\
  unsigned (SControl sample_control) = unsigned (SControl sample_control).
Proof.
  split; [eexists; vm_compute; reflexivity|].
  eapply (authority_signing_bytes_injective (SControl sample_control) (SControl sample_control));
    [unfold signed_typed, u64; simpl; lia|unfold signed_typed, u64; simpl; lia|reflexivity|reflexivity].
Defined.

Definition sample_seed : bytes := repeat x0a 32.

Lemma signed_capability_verifies_witness :
  VerifyReceiveCapability (sign_capability sample_seed sample_capability)
    {[str "k1" := ed25519_public sample_seed]}
    (no_expectations (1709164810 * second)) 0 = Ok tt.
Proof.
  apply (signed_capability_verifies sample_seed sample_capability); try reflexivity.
  exists (1709164800 * second), (1709164830 * second).
  split; [vm_compute; reflexivity|]. split; [vm_compute; reflexivity|].
  unfold effective_now, is_zero, zero_time, minute, second. simpl. lia.
Defined.

Lemma conversation_commitment_binding_witness :
  commitment_preimage EnvironmentDev sample_id sample_uuid (str "c1") <>
  commitment_preimage EnvironmentDev sample_id sample_uuid (str "c2").
Proof.
  intros H.
  destruct (conversation_commitment_binding EnvironmentDev sample_id sample_uuid (str "c1")
    EnvironmentDev sample_id sample_uuid (str "c2") _ _ eq_refl eq_refl) as [_ Hinj].
  destruct (Hinj H) as (_ & _ & _ & Hc). discriminate Hc.
Defined.
