(* ===== verification/A9Types.v ===== *)
(** * A9 control objects, watermarks and results

    The verified projections the trust layer hands to the vault
    (src/pkg/a9trust/control.go, src/pkg/a9trust/watermark.go), the topic key epochs
    (src/pkg/a9trust/primitives.go) and the API result with its HTTP status
    (src/pkg/a9api/result.go). Byte arrays are byte lists; their fixed lengths are the
    typing predicates. *)

From S2P Require Import Prelude GoBytes GoTime.
Local Open Scope Z_scope.
Local Open Scope go_scope.

Definition a9MaxSafeInteger : Z := 2 ^ 53 - 1.

(** ** Verified controls *)

Definition ControlActionUpsert : Z := 1.
Definition ControlActionRevoke : Z := 2.
Definition ControlReasonNone : Z := 0.
Definition ControlReasonAuthorityRevoked : Z := 1.
Definition ControlReasonAuthorityReplaced : Z := 3.

Record VerifiedAssertion := {
  vaHash : bytes;
  vaInstallationBindingID : bytes;
  vaSequencerEpoch : bytes;
  vaStreamSequence : Z;
  vaBindingID : bytes;
  vaBindingVersion : Z;
  vaLeaseID : bytes;
  vaTupleCommitment : bytes;
  vaTupleCommitmentKeyID : bytes;
  vaRosterCommitment : bytes;
  vaRosterCommitmentKeyID : bytes;
  vaTopicBinding : bytes;
  vaTopicKeyEpoch : Z;
  vaTopicCommitmentKeyID : bytes;
  vaConversationGeneration : Z;
  vaRosterVersion : Z;
  vaIssuedAt : Z;
  vaExpiresAt : Z;
  vaSigningKeyID : bytes;
  vaKeysetSequence : Z;
  vaKeysetHash : bytes;
}.

Record VerifiedControl := {
  vcEnvironment : bytes;
  vcIdempotencyKey : bytes;
  vcInstallationBindingID : bytes;
  vcSequencerEpoch : bytes;
  vcStreamSequence : Z;
  vcExpectedPreviousSequence : Z;
  vcBindingID : bytes;
  vcBindingVersion : Z;
  vcExpectedBindingVersion : Z;
  vcAction : Z;
  vcAssertionHash : bytes;
  vcReason : Z;
  vcIssuedAt : Z;
  vcExpiresAt : Z;
  vcSigningKeyID : bytes;
  vcSignedObjectHash : bytes;
  vcKeysetSequence : Z;
  vcKeysetHash : bytes;
  vcAssertion : option VerifiedAssertion;
}.

(** ** Verified watermarks *)

Definition WatermarkStatusCurrent : Z := 1.
Definition WatermarkStatusUncertain : Z := 2.
Definition WatermarkUncertaintyNone : Z := 0.
Definition WatermarkUncertaintySourceUnavailable : Z := 1.
Definition WatermarkUncertaintyClock : Z := 5.

Record VerifiedWatermark := {
  vwEnvironment : bytes;
  vwInstallationBindingID : bytes;
  vwSequencerEpoch : bytes;
  vwWatermarkSequence : Z;
  vwCommittedThroughStreamSequence : Z;
  vwStatus : Z;
  vwUncertaintyReason : Z;
  vwIssuedAt : Z;
  vwExpiresAt : Z;
  vwSigningKeyID : bytes;
  vwSignedObjectHash : bytes;
  vwKeysetSequence : Z;
  vwKeysetHash : bytes;
}.

(** ** Topic key epochs *)

Definition topicPeriodSeconds : Z := 30 * 24 * 60 * 60.

Definition TopicEpoch (at_ : Z) : Z :=
  if unix_seconds at_ <? 0 then 0 else (unix_seconds at_ / topicPeriodSeconds) mod 2 ^ 32.

Definition TopicEpochBoundary (epoch : Z) : Z := epoch * topicPeriodSeconds * second.

Definition TopicEpochUsable (epoch at_ : Z) (forIssuance : bool) : bool :=
  let current := TopicEpoch at_ in
  bail epoch =? current with true;;
  bail forIssuance || (current =? 0) || negb (epoch =? (current - 1) mod 2 ^ 32) with false;;
  before at_ (TopicEpochBoundary current + 60 * second).

Definition PreviousTopicEpochVerificationUsable (epoch at_ assertionExpiry : Z) (alreadyAccepted : bool) : bool :=
  alreadyAccepted && before at_ assertionExpiry && TopicEpochUsable epoch at_ false.

(** ** Results *)

Definition ResultStateActive : bytes := str "ACTIVE".
Definition ResultStateRevoked : bytes := str "REVOKED".
Definition ResultStateUncertain : bytes := str "UNCERTAIN".

Definition ResultOutcomeApplied : bytes := str "APPLIED".
Definition ResultOutcomeReplay : bytes := str "REPLAY".
Definition ResultOutcomeStale : bytes := str "STALE".
Definition ResultOutcomeGap : bytes := str "GAP".
Definition ResultOutcomeConflict : bytes := str "CONFLICT".
Definition ResultOutcomeInconclusive : bytes := str "INCONCLUSIVE".

Record Result := {
  reEnvironment : bytes;
  reInstallationBindingID : bytes;
  reSequencerEpoch : bytes;
  reSubscriptionGeneration : Z;
  reState : bytes;
  reOutcome : bytes;
  reAcceptedStreamSequence : Z;
}.

#[export] Instance result_record_eq_dec : EqDecision Result.
Proof. solve_decision. Defined.

Inductive result_error := ErrInvalidResult.

Definition one_of (v : bytes) (l : list bytes) : bool := existsb (beq v) l.

Definition result_valid (result : Result) : bool :=
  bail negb (one_of (reEnvironment result) [str "dev"; str "production"]) with false;;
  bail (a9MaxSafeInteger <? reSubscriptionGeneration result) ||
       (a9MaxSafeInteger <? reAcceptedStreamSequence result) with false;;
  bail negb (one_of (reState result) [ResultStateActive; ResultStateRevoked; ResultStateUncertain])
    with false;;
  bail one_of (reOutcome result) [ResultOutcomeApplied; ResultOutcomeReplay; ResultOutcomeStale]
    with true;;
  bail one_of (reOutcome result) [ResultOutcomeGap; ResultOutcomeConflict; ResultOutcomeInconclusive]
    with beq (reState result) ResultStateUncertain;;
  false.

Definition HTTPStatus (result : Result) : Prelude.result result_error Z :=
  reject negb (result_valid result) with ErrInvalidResult;;
  bail one_of (reOutcome result) [ResultOutcomeApplied; ResultOutcomeReplay] with Ok 200;;
  bail one_of (reOutcome result) [ResultOutcomeStale; ResultOutcomeGap; ResultOutcomeConflict]
    with Ok 409;;
  bail beq (reOutcome result) ResultOutcomeInconclusive with Ok 503;;
  Err ErrInvalidResult.
