(* ===== verification/A9Trust.v ===== *)
(** * The trust material of A9

    src/pkg/a9trust/verdict.go, primitives.go, signed.go (signing and verifying objects) and
    keyset.go: verdicts, key identifiers, commitments, signatures over canonical objects,
    and what a keyset says about keys at an instant. A keyset and every other signed object
    is a parsed JSON object. *)

From S2P Require Import Prelude GoBytes GoTime GoCrypto JsonText Jcs A9Schema A9Types.
Local Open Scope Z_scope.
Local Open Scope go_scope.

(** ** Verdicts *)

Record Verdict := { Terminal : string; VerdictReason : string }.

#[export] Instance verdict_eq_dec : EqDecision Verdict.
Proof. solve_decision. Defined.

Definition Eligible : Verdict := {| Terminal := "ELIGIBLE"; VerdictReason := "" |}.
Definition Invalid (reason : string) : Verdict := {| Terminal := "INVALID"; VerdictReason := reason |}.
Definition Inconclusive (reason : string) : Verdict :=
  {| Terminal := "INCONCLUSIVE"; VerdictReason := reason |}.

Definition IsEligible (v : Verdict) : bool := String.eqb (Terminal v) "ELIGIBLE".

Definition RequiresKeysetUncertainty (v : Verdict) : bool :=
  String.eqb (VerdictReason v) "KEY_STATE" || String.eqb (VerdictReason v) "KEYSET_ROLLBACK".

(** A function that returns a value and a verdict: the value counts when the verdict is
    [Eligible]. *)
Abbreviation judged A := (result Verdict A).

Definition verdict_of {A : Type} (r : judged A) : Verdict :=
  match r with Ok _ => Eligible | Err v => v end.

Definition judge {A : Type} (v : Verdict) (o : option A) : judged A :=
  match o with Some a => Ok a | None => Err v end.

(** ** Encodings *)

Definition DecodeBase64URL (value : bytes) (expectedLength : nat) : option bytes :=
  bail beq value [] || existsb (fun c => bool_decide (c = x3d)) value with None;;
  bail negb (forallb is_b64url value) with None;;
  decoded ← b64_decode true value;
  bail negb (length decoded =? expectedLength)%nat with None;;
  bail negb (beq (b64_encode decoded) value) with None;;
  Some decoded.

Definition EncodeBase64URL (value : bytes) : bytes := b64_encode value.

Definition SHA256LowerHex (value : bytes) : bytes := hex_encode (sha256 value).

Definition Ed25519KeyID (publicKey : bytes) : option bytes :=
  bail negb (length publicKey =? 32)%nat with None;;
  Some (str "ed25519-sha256:" ++ SHA256LowerHex publicKey).

Definition HMACKeyID (secret : bytes) : option bytes :=
  bail negb (length secret =? 32)%nat with None;;
  Some (str "hmac-sha256:" ++ SHA256LowerHex secret).

(** The pattern of 64 lower-case hexadecimal digits. *)
Definition lowerHex64 (value : bytes) : bool := (length value =? 64)%nat && forallb is_lower_hex value.

Record ResolvedTopic := { GroupID : bytes; TopicBytes : bytes }.

Definition ResolveTopic (transportConversationID : bytes) : option ResolvedTopic :=
  bail negb (lowerHex64 transportConversationID) with None;;
  groupID ← hex_decode transportConversationID;
  bail negb (length groupID =? 32)%nat with None;;
  Some {| GroupID := groupID; TopicBytes := x00 :: groupID |}.

Definition VerifyResolvedTopic (transportConversationID topicBase64URL : bytes) : Verdict :=
  match ResolveTopic transportConversationID with
  | None => Invalid "TOPIC_RESOLVER"
  | Some resolved =>
      match DecodeBase64URL topicBase64URL 33 with
      | None => Invalid "TOPIC_RESOLVER"
      | Some topic =>
          bail negb (beq (take 1 topic) [x00]) with Invalid "WELCOME_CLOSED";;
          bail negb (beq topic (TopicBytes resolved)) with Invalid "TOPIC_RESOLVER";;
          Eligible
      end
  end.

(** [strings.ReplaceAll(value, "-", "")]. *)
Definition without_hyphens (value : bytes) : bytes := List.filter (fun c => negb (bool_decide (c = x2d))) value.

Definition ParseCanonicalUUID (value : bytes) : option bytes :=
  bail negb ((length value =? 36)%nat && uuid_bytes 0 value) with None;;
  decoded ← hex_decode (without_hyphens value);
  bail negb (length decoded =? 16)%nat with None;;
  Some decoded.

Definition IsLowerHexSHA256 (value : bytes) : bool := lowerHex64 value.

(** ** Commitments *)

Definition rosterDomain : bytes := str "Hytch A9 bridge roster v1" ++ [x00].
Definition topicDomain : bytes := str "Hytch A9 bridge topic v1" ++ [x00].
Definition tupleDomain : bytes := str "Hytch A9 push tuple v1" ++ [x00].

Definition roster_message (environment rosterDigest : bytes) : bytes :=
  rosterDomain ++ be 1 (Z.of_nat (length environment)) ++ environment ++ rosterDigest.

Definition RosterCommitment (key environment rosterDigest : bytes) : option bytes :=
  bail negb (length key =? 32)%nat || negb (length rosterDigest =? 32)%nat ||
       (255 <? length environment)%nat || negb (isASCII environment) with None;;
  Some (hmac_sha256 key (roster_message environment rosterDigest)).

Definition topic_message (topic : bytes) : bytes := topicDomain ++ be 4 (Z.of_nat (length topic)) ++ topic.

Definition TopicBinding (key topic : bytes) : option bytes :=
  bail negb (length key =? 32)%nat || negb (length topic =? 33)%nat || negb (beq (take 1 topic) [x00])
    with None;;
  Some (hmac_sha256 key (topic_message topic)).

Record TupleInput := {
  tiEnvironment : bytes;
  tiAccountIncarnationID : bytes;
  tiHytchConversationID : bytes;
  tiConversationGeneration : Z;
  tiRosterVersion : Z;
  tiRosterCommitment : bytes;
  tiTransportConversationID : bytes;
}.

Definition tuple_message (i : TupleInput) (account conversation : bytes) : bytes :=
  let state := str "ACTIVE" in
  tupleDomain ++ be 1 (Z.of_nat (length (tiEnvironment i))) ++ tiEnvironment i ++ account ++ conversation ++
  be 4 (tiConversationGeneration i) ++ be 4 (tiRosterVersion i) ++ tiRosterCommitment i ++
  be 1 (Z.of_nat (length state)) ++ state ++
  be 2 (Z.of_nat (length (tiTransportConversationID i))) ++ tiTransportConversationID i.

(** The checks of [TupleCommitment] and the message it authenticates. *)
Definition tuple_preimage (i : TupleInput) : option bytes :=
  bail negb (length (tiRosterCommitment i) =? 32)%nat || (255 <? length (tiEnvironment i))%nat ||
       negb (isASCII (tiEnvironment i)) || (tiConversationGeneration i =? 0) || (tiRosterVersion i =? 0) ||
       negb (lowerHex64 (tiTransportConversationID i)) with None;;
  account ← ParseCanonicalUUID (tiAccountIncarnationID i);
  conversation ← ParseCanonicalUUID (tiHytchConversationID i);
  Some (tuple_message i account conversation).

Definition TupleCommitment (key : bytes) (i : TupleInput) : option bytes :=
  bail negb (length key =? 32)%nat with None;;
  message ← tuple_preimage i;
  Some (hmac_sha256 key message).

(** ** Signed objects *)

Abbreviation object := (list (bytes * json)).

Definition AssertionSignatureDomain : bytes := str "Hytch A9 bridge assertion v1" ++ [x00].
Definition ControlSignatureDomain : bytes := str "Hytch A9 bridge control v1" ++ [x00].
Definition WatermarkSignatureDomain : bytes := str "Hytch A9 bridge control watermark v1" ++ [x00].
Definition KeysetSignatureDomain : bytes := str "Hytch A9 bridge keyset v1" ++ [x00].

(** The canonical unsigned object and the input of the signature. *)
Definition SignedTranscript (o : object) (signatureField : string) (domain : bytes) : option (bytes * bytes) :=
  _ ← get o (str signatureField);
  match Canonicalize (JObject (drop_member (str signatureField) o)) with
  | Err _ => None
  | Ok canonical => Some (canonical, domain ++ canonical)
  end.

Definition objectString (o : object) (name : string) : bytes :=
  match get o (str name) with Some (JString s) => s | _ => [] end.

Section Signing.
Context `{Ed25519}.

Definition SignObject (o : object) (signatureField : string) (domain seed : bytes) : option bytes :=
  '(_, input) ← SignedTranscript o signatureField domain;
  bail negb (length seed =? 32)%nat with None;;
  Some (EncodeBase64URL (ed25519_sign seed input)).

Definition VerifyObject (o : object) (signatureField : string) (domain publicKey : bytes) : Verdict :=
  bail negb (length publicKey =? 32)%nat with Invalid "KEY_STATE";;
  match get o (str signatureField) with
  | Some (JString encoded) =>
      match DecodeBase64URL encoded 64 with
      | None => Invalid "NONCANONICAL_BASE64URL"
      | Some signature =>
          match SignedTranscript o signatureField domain with
          | None => Invalid "FIELD_DOMAIN"
          | Some (_, input) =>
              bail negb (ed25519_verify publicKey input signature) with Invalid "BAD_SIGNATURE";; Eligible
          end
      end
  | _ => Invalid "FIELD_DOMAIN"
  end.

End Signing.

Definition canonicalDigest (o : object) : option bytes :=
  match Canonicalize (JObject o) with Ok canonical => Some (sha256 canonical) | Err _ => None end.

Definition CanonicalObjectHash (o : object) : option bytes :=
  match Canonicalize (JObject o) with Ok canonical => Some (SHA256LowerHex canonical) | Err _ => None end.

Definition AssertionHash (o : object) : option bytes :=
  match Canonicalize (JObject o) with Ok canonical => Some (EncodeBase64URL (sha256 canonical)) | Err _ => None end.

(** ** Members *)

(** The value is what the parser made or a Go integer; [JUint] is uint32 or uint64. *)
Definition nonnegativeInteger (value : json) : judged Z :=
  match value with
  | JNumber raw =>
      reject contains_any raw (str ".eE+-") || beq raw (str "-0") with Invalid "NON_IJSON_NUMBER";;
      match parse_uint64 raw with
      | None => Err (Invalid "INTEGER_RANGE")
      | Some n => reject maxIJSONInteger <? n with Invalid "INTEGER_RANGE";; Ok n
      end
  | JUint n => reject maxIJSONInteger <? n with Invalid "INTEGER_RANGE";; Ok n
  | JInt n => reject (n <? 0) || (maxIJSONInteger <? n) with Invalid "INTEGER_RANGE";; Ok n
  | JFloat => Err (Invalid "NON_IJSON_NUMBER")
  | _ => Err (Invalid "FIELD_DOMAIN")
  end.

Definition positiveInteger (value : json) : judged Z :=
  n ← nonnegativeInteger value;
  reject n =? 0 with Invalid "INTEGER_RANGE";; Ok n.

Definition objectIntegerEquals (o : object) (name : string) (expected : Z) : bool :=
  match nonnegativeInteger (field o name) with Ok value => value =? expected | Err _ => false end.

Definition parseWireTime (value : bytes) : option Z :=
  bail negb (length value =? 24)%nat with None;;
  parsed ← parse_wire value;
  bail negb (beq (format_wire parsed) value) with None;;
  Some parsed.

(** ** Number profile *)

Fixpoint containsNonIntegerNumber (value : json) : bool :=
  match value with
  | JNumber raw => contains_any raw (str ".eE+-") || beq raw (str "-0")
  | JArray l => existsb containsNonIntegerNumber l
  | JObject m => existsb (fun kv => containsNonIntegerNumber kv.2) m
  | _ => false
  end.

Fixpoint containsOutOfRangeInteger (value : json) : bool :=
  match value with
  | JNumber raw =>
      bail contains_any raw (str ".eE+-") with false;;
      match parse_uint64 raw with None => true | Some n => maxIJSONInteger <? n end
  | JArray l => existsb containsOutOfRangeInteger l
  | JObject m => existsb (fun kv => containsOutOfRangeInteger kv.2) m
  | _ => false
  end.

Definition ValidateStrictJSON (raw : bytes) : judged json :=
  match ParseStrictJSON raw with
  | Err ErrDuplicateKey => Err (Invalid "DUPLICATE_KEY")
  | Err _ => Err (Invalid "FIELD_DOMAIN")
  | Ok value =>
      match Canonicalize value with
      | Ok _ => Ok value
      | Err _ =>
          reject containsNonIntegerNumber value with Invalid "NON_IJSON_NUMBER";;
          reject containsOutOfRangeInteger value with Invalid "INTEGER_RANGE";;
          Err (Invalid "FIELD_DOMAIN")
      end
  end.

(** ** Facts about encodings *)

Lemma DecodeBase64URL_some value n decoded :
  DecodeBase64URL value n = Some decoded <-> value = b64_encode decoded /\ length decoded = n /\ value <> [].
Proof.
  unfold DecodeBase64URL. split.
  - destruct (beq value [] || _) eqn:E0; [done|]. apply orb_false_iff in E0 as [E0 _]. apply beq_false in E0.
    destruct (negb (forallb is_b64url value)); [done|].
    destruct (b64_decode true value) as [d|]; [|done]. cbn [mbind option_bind].
    destruct (negb (length d =? n)%nat) eqn:El; [done|]. apply negb_false_iff, Nat.eqb_eq in El.
    destruct (negb (beq (b64_encode d) value)) eqn:Eb; [done|]. apply negb_false_iff, beq_true in Eb.
    intros [= <-]. done.
  - intros (-> & <- & Hne). pose proof (b64_encode_alphabet decoded) as Ha.
    rewrite (proj2 (beq_false _ _) Hne).
    assert (existsb (fun c => bool_decide (c = x3d)) (b64_encode decoded) = false) as ->.
    { apply not_true_is_false. intros (c & Hin & Hc)%existsb_exists. apply bool_decide_eq_true_1 in Hc as ->.
      rewrite forallb_forall in Ha. by specialize (Ha _ Hin). }
    rewrite Ha, b64_decode_encode. cbn. by rewrite Nat.eqb_refl, beq_refl.
Qed.

Lemma DecodeBase64URL_encode decoded : decoded <> [] ->
  DecodeBase64URL (b64_encode decoded) (length decoded) = Some decoded.
Proof.
  intros Hd. apply DecodeBase64URL_some. split_and!; [done..|]. intros He.
  by apply Hd, b64_encode_inj.
Qed.

Lemma get_put_same m k v : get (put k v m) k = Some v.
Proof.
  induction m as [|[k' v'] m IH]; cbn [put get]; [by rewrite beq_refl|].
  destruct (beq k k') eqn:E; cbn [get]; [by rewrite beq_refl|].
  destruct (bytes_lt k k'); cbn [get]; [by rewrite beq_refl|by rewrite E].
Qed.

Lemma drop_put_same m k v : drop_member k (put k v m) = drop_member k m.
Proof.
  unfold drop_member. induction m as [|[k' v'] m IH]; cbn [put List.filter fst]; [by rewrite beq_refl|].
  destruct (beq k k') eqn:E; cbn [List.filter fst].
  { rewrite beq_refl. apply beq_true in E as ->. by rewrite beq_refl. }
  destruct (bytes_lt k k'); cbn [List.filter fst]; [by rewrite beq_refl|]. by rewrite IH.
Qed.

Lemma Eligible_eligible : IsEligible Eligible = true.
Proof. done. Qed.

Lemma judge_ok {A : Type} v (o : option A) (a : A) : judge v o = Ok a <-> o = Some a.
Proof. destruct o; cbn; naive_solver. Qed.

(** ** Signatures *)

Section SigningFacts.
Context `{Ed25519}.

(** What an eligible signature is: 64 canonical bytes the key verifies over the domain and
    the canonical object without its signature. *)
Lemma VerifyObject_eligible o name domain publicKey :
  VerifyObject o name domain publicKey = Eligible <->
  exists signature canonical,
    length publicKey = 32%nat /\ length signature = 64%nat /\
    get o (str name) = Some (JString (b64_encode signature)) /\
    Canonicalize (JObject (drop_member (str name) o)) = Ok canonical /\
    ed25519_verify publicKey (domain ++ canonical) signature = true.
Proof.
  unfold VerifyObject, SignedTranscript. split.
  - destruct (negb (length publicKey =? 32)%nat) eqn:Ek; [done|]. apply negb_false_iff, Nat.eqb_eq in Ek.
    destruct (get o (str name)) as [[]|] eqn:Eg; try done.
    destruct (DecodeBase64URL s 64) as [signature|] eqn:Ed; [|done].
    apply DecodeBase64URL_some in Ed as (-> & Hl & _). cbn [mbind option_bind].
    destruct (Canonicalize _) as [canonical|] eqn:Ec; [|done].
    destruct (ed25519_verify _ _ _) eqn:Ev; [|done]. intros _. by exists signature, canonical.
  - intros (signature & canonical & Hk & Hl & Hg & Hc & Hv). rewrite Hk, Hg. cbn [Nat.eqb negb].
    pose proof (DecodeBase64URL_encode signature ltac:(by intros ->)) as He. rewrite Hl in He. rewrite He. cbn [mbind option_bind]. by rewrite Hc, Hv.
Qed.

End SigningFacts.

(** An object signed with a seed verifies under the seed's public key once the
    signature is stored in it, whatever the signature member held before. *)
Theorem signed_object_verifies `{Ed25519Laws} (o : object) (name : string) (domain seed signature : bytes)
    (Hs : SignObject o name domain seed = Some signature) :
  VerifyObject (put (str name) (JString signature) o) name domain (ed25519_public seed) = Eligible.
Proof.
  unfold SignObject, SignedTranscript in Hs.
  destruct (get o (str name)) as [?|]; [|done]. cbn [mbind option_bind] in Hs.
  destruct (Canonicalize _) as [canonical|] eqn:Ec; [|done].
  destruct (negb (length seed =? 32)%nat) eqn:El; [done|]. apply negb_false_iff, Nat.eqb_eq in El.
  injection Hs as <-. apply VerifyObject_eligible.
  exists (ed25519_sign seed (domain ++ canonical)), canonical.
  rewrite get_put_same, drop_put_same, Ec. split_and!; try done.
  - by apply ed25519_public_length.
  - by apply ed25519_sign_length.
  - by apply ed25519_sign_verify.
Qed.

(** The four protocols of signed objects. *)
Definition signature_domains : list bytes :=
  [AssertionSignatureDomain; ControlSignatureDomain; WatermarkSignatureDomain; KeysetSignatureDomain].

Lemma domain_nul d : d ∈ signature_domains -> exists p, d = p ++ [x00] /\ x00 ∉ p.
Proof.
  unfold signature_domains. rewrite !elem_of_cons, elem_of_nil.
  intros [->|[->|[->|[->|[]]]]]; unfold AssertionSignatureDomain, ControlSignatureDomain,
    WatermarkSignatureDomain, KeysetSignatureDomain; eexists; (split; [reflexivity|]);
    apply (bool_decide_eq_true_1 _); vm_compute; reflexivity.
Qed.

(** A signing input determines its protocol and the signed object: under the four
    domains, two objects with the same input have the same domain and, signature members
    aside, the same members. No signature of one protocol counts in another. *)
Theorem signing_input_injective (o o' : object) (name name' : string) (d d' c c' input : bytes)
    (Hd : d ∈ signature_domains) (Hd' : d' ∈ signature_domains)
    (Ho : SignedTranscript o name d = Some (c, input)) (Ho' : SignedTranscript o' name' d' = Some (c', input))
    (Hw : well_formed (JObject (drop_member (str name) o)))
    (Hw' : well_formed (JObject (drop_member (str name') o'))) :
  d = d' /\ c = c' /\
  as_parsed (JObject (drop_member (str name) o)) = as_parsed (JObject (drop_member (str name') o')).
Proof.
  unfold SignedTranscript in Ho, Ho'.
  destruct (get o (str name)) as [?|]; [|done]. destruct (get o' (str name')) as [?|]; [|done].
  cbn [mbind option_bind] in Ho, Ho'.
  destruct (Canonicalize (JObject (drop_member (str name) o))) as [t|] eqn:Ec; [|done].
  destruct (Canonicalize (JObject (drop_member (str name') o'))) as [t'|] eqn:Ec'; [|done].
  injection Ho as <- <-. injection Ho' as <- Hin.
  apply domain_nul in Hd as (p & -> & Hp). apply domain_nul in Hd' as (q & -> & Hq).
  rewrite <- !app_assoc in Hin. cbn [app] in Hin.
  assert (q = p /\ t' = t) as [-> ->].
  { assert (cut (q ++ x00 :: t') x00 = cut (p ++ x00 :: t) x00) as E by (by rewrite Hin).
    rewrite !cut_app in E by done. by injection E as -> ->. }
  split_and!; try done. eapply jcs_parsed_same; [exact Ec|exact Ec'|exact Hw|exact Hw'].
Qed.

(** ** Commitments *)

Lemma keep_lower c r : is_lower_hex c = true -> without_hyphens (c :: r) = c :: without_hyphens r.
Proof.
  intros Hc. unfold without_hyphens. cbn [List.filter]. rewrite bool_decide_false by (by intros ->). done.
Qed.

Lemma drop_hyphen r : without_hyphens (x2d :: r) = without_hyphens r.
Proof. done. Qed.

(** A canonical identifier is the text form of its bytes. *)
Lemma ParseCanonicalUUID_some value b :
  ParseCanonicalUUID value = Some b -> value = uuid_text (hex_encode b) /\ length b = 16%nat.
Proof.
  unfold ParseCanonicalUUID. destruct (_ && _) eqn:E; [|done]. cbn [negb].
  apply andb_true_iff in E as [El Eu]. apply Nat.eqb_eq in El.
  destruct (hex_decode _) as [d|] eqn:Ed; [|done]. cbn [mbind option_bind].
  destruct (length d =? 16)%nat eqn:Eld; [|done]. apply Nat.eqb_eq in Eld. intros [= <-]. split; [|done].
  do 36 (destruct value as [|? value]; [discriminate El|]). destruct value; [|discriminate El].
  unfold uuid_bytes, uuid_byte in Eu. cbn [existsb Nat.eqb orb] in Eu.
  repeat match type of Eu with _ && _ = true => let E := fresh "E" in apply andb_true_iff in Eu as [E Eu] end.
  repeat match goal with
  | H : bool_decide (_ = x2d) = true |- _ => apply bool_decide_eq_true_1 in H; subst
  end.
  repeat first [rewrite drop_hyphen in Ed | rewrite keep_lower in Ed by assumption].
  change (without_hyphens []) with (@nil byte) in Ed.
  apply hex_encode_decode in Ed; [rewrite Ed; reflexivity|].
  cbn [forallb].
  repeat match goal with H : is_lower_hex _ = true |- _ => rewrite H; clear H end. done.
Qed.

Lemma ParseCanonicalUUID_inj v v' b :
  ParseCanonicalUUID v = Some b -> ParseCanonicalUUID v' = Some b -> v = v'.
Proof. intros [-> _]%ParseCanonicalUUID_some [-> _]%ParseCanonicalUUID_some. done. Qed.

(** The widths of the Go types. *)
Definition tuple_typed (i : TupleInput) : Prop :=
  0 <= tiConversationGeneration i < 2 ^ 32 /\ 0 <= tiRosterVersion i < 2 ^ 32.

(** the message a tuple commitment authenticates determines every committed value, so
    two tuples with one commitment differ only by a collision of HMAC. *)
Theorem tuple_preimage_injective (i j : TupleInput) (message : bytes)
    (Hi : tuple_preimage i = Some message) (Hj : tuple_preimage j = Some message)
    (Hti : tuple_typed i) (Htj : tuple_typed j) : i = j.
Proof.
  unfold tuple_preimage in Hi, Hj.
  destruct (_ || _) eqn:Ei in Hi; [done|]. destruct (_ || _) eqn:Ej in Hj; [done|]. boolprop.
  destruct (ParseCanonicalUUID (tiAccountIncarnationID i)) as [a|] eqn:Ea; [|done].
  destruct (ParseCanonicalUUID (tiHytchConversationID i)) as [c|] eqn:Ec; [|done].
  destruct (ParseCanonicalUUID (tiAccountIncarnationID j)) as [a'|] eqn:Ea'; [|done].
  destruct (ParseCanonicalUUID (tiHytchConversationID j)) as [c'|] eqn:Ec'; [|done].
  cbn [mbind option_bind] in Hi, Hj. apply (inj Some) in Hi as <-. apply (inj Some) in Hj as Hm.
  pose proof (ParseCanonicalUUID_some _ _ Ea) as [_ Hla]. pose proof (ParseCanonicalUUID_some _ _ Ec) as [_ Hlc].
  pose proof (ParseCanonicalUUID_some _ _ Ea') as [_ Hla']. pose proof (ParseCanonicalUUID_some _ _ Ec') as [_ Hlc'].
  destruct Hti as [Hg Hr], Htj as [Hg' Hr']. unfold tuple_message in Hm. symmetry in Hm.
  apply app_inj_length in Hm as [_ Hm]; [|done].
  apply app_inj_length in Hm as [He Hm]; [|by rewrite !length_be]. apply be_inj in He; [|cbn; lia..].
  apply app_inj_length in Hm as [Henv Hm]; [|lia].
  apply app_inj_length in Hm as [<- Hm]; [|lia]. apply app_inj_length in Hm as [<- Hm]; [|lia].
  apply app_inj_length in Hm as [Hgen Hm]; [|by rewrite !length_be]. apply be_inj in Hgen; [|cbn; lia..].
  apply app_inj_length in Hm as [Hver Hm]; [|by rewrite !length_be]. apply be_inj in Hver; [|cbn; lia..].
  apply app_inj_length in Hm as [Hros Hm]; [|lia].
  do 2 (apply app_inj_length in Hm as [_ Hm]; [|done]).
  apply app_inj_length in Hm as [_ Htr]; [|by rewrite !length_be].
  pose proof (ParseCanonicalUUID_inj _ _ _ Ea Ea'). pose proof (ParseCanonicalUUID_inj _ _ _ Ec Ec').
  destruct i, j; cbn in *; congruence.
Qed.
