(* ===== verification/A9Keyset.v ===== *)
(** * A9 keysets

    src/pkg/a9trust/keyset.go: the online and commitment keys of a keyset, which of them
    counts at an instant, and when a keyset, a sequence of keysets, a rotation of signing
    keys and a topic key schedule are valid. A loop that keeps a pointer to the selected
    descriptor and refuses a second one is a match on the descriptors selected. *)

From S2P Require Import Prelude GoBytes GoTime GoCrypto JsonText Jcs A9Schema A9Types A9Trust.
Local Open Scope Z_scope.
Local Open Scope go_scope.

Record OnlineKey := {
  onKeyID : bytes;
  onUse : bytes;
  onPublicKey : bytes;
  onNotBefore : Z;
  onNotAfter : Z;
  onState : bytes;
}.

Record CommitmentKey := {
  cmPurpose : bytes;
  cmKeyID : bytes;
  cmTopicKeyEpoch : option Z;
  cmNotBefore : Z;
  cmNotAfter : Z;
}.

#[export] Instance online_key_eq_dec : EqDecision OnlineKey.
Proof. solve_decision. Defined.
#[export] Instance commitment_key_eq_dec : EqDecision CommitmentKey.
Proof. solve_decision. Defined.

(** ** Reading descriptors *)

Definition parseOnlineKey (item : json) : option OnlineKey :=
  match item with
  | JObject o =>
      bail negb (length o =? 6)%nat with None;;
      publicKey ← DecodeBase64URL (objectString o "public_key_base64url") 32;
      notBefore ← parseWireTime (objectString o "not_before");
      notAfter ← parseWireTime (objectString o "not_after");
      Some {| onKeyID := objectString o "key_id"; onUse := objectString o "use"; onPublicKey := publicKey;
              onNotBefore := notBefore; onNotAfter := notAfter; onState := objectString o "state" |}
  | _ => None
  end.

Definition parseOnlineKeys (value : json) : option (list OnlineKey) :=
  match value with JArray items => mapM parseOnlineKey items | _ => None end.

Definition parse_epoch (value : json) : option (option Z) :=
  match value with
  | JNull => Some None
  | _ =>
      match positiveInteger value with
      | Err _ => None
      | Ok n => bail 4294967295 <? n with None;; Some (Some n)
      end
  end.

Definition parseCommitmentKey (item : json) : option CommitmentKey :=
  match item with
  | JObject o =>
      bail negb (length o =? 5)%nat with None;;
      epoch ← parse_epoch (field o "topic_key_epoch");
      notBefore ← parseWireTime (objectString o "not_before");
      notAfter ← parseWireTime (objectString o "not_after");
      Some {| cmPurpose := objectString o "purpose"; cmKeyID := objectString o "key_id";
              cmTopicKeyEpoch := epoch; cmNotBefore := notBefore; cmNotAfter := notAfter |}
  | _ => None
  end.

Definition parseCommitmentKeys (value : json) : option (list CommitmentKey) :=
  match value with JArray items => mapM parseCommitmentKey items | _ => None end.

(** ** Keys at an instant *)

(** The half-open validity window. *)
Definition within (at_ notBefore notAfter : Z) : bool := negb (before at_ notBefore) && before at_ notAfter.

(** The sole element that satisfies [p]. *)
Definition sole {A : Type} (p : A -> bool) (l : list A) : option A :=
  match List.filter p l with [x] => Some x | _ => None end.

Definition OnlineKeyAt (keyset : object) (keyID : bytes) (use : string) (at_ : Z) : judged bytes :=
  keys ← judge (Invalid "KEY_STATE") (parseOnlineKeys (field keyset "keys"));
  match List.find (fun key => beq (onKeyID key) keyID && beq (onUse key) (str use)) keys with
  | None => Err (Invalid "KEY_STATE")
  | Some key =>
      reject negb (within at_ (onNotBefore key) (onNotAfter key)) with Invalid "KEY_STATE";;
      Ok (onPublicKey key)
  end.

Definition SigningKeyAt (keyset : object) (use : string) (at_ : Z) : judged OnlineKey :=
  keys ← judge (Invalid "KEY_STATE") (parseOnlineKeys (field keyset "keys"));
  judge (Invalid "KEY_STATE")
    (sole (fun key => beq (onUse key) (str use) && beq (onState key) (str "SIGN") &&
                      within at_ (onNotBefore key) (onNotAfter key)) keys).

Definition sameEpoch (a b : option Z) : bool := bool_decide (a = b).

Definition CommitmentKeyAt (keyset : object) (purpose : string) (topicEpoch : option Z) (at_ : Z)
    (forIssuance : bool) : judged CommitmentKey :=
  keys ← judge (Invalid "KEY_STATE") (parseCommitmentKeys (field keyset "commitment_keys"));
  let topic := String.eqb purpose "TOPIC" in
  match List.filter (fun key =>
          beq (cmPurpose key) (str purpose) && sameEpoch (cmTopicKeyEpoch key) topicEpoch &&
          within at_ (cmNotBefore key) (cmNotAfter key) &&
          (negb topic || match topicEpoch with
                         | Some epoch => TopicEpochUsable epoch at_ forIssuance
                         | None => false
                         end)) keys with
  | [key] => Ok key
  | [] => Err (Invalid (if topic then "TOPIC_KEY_EPOCH" else "KEY_STATE"))
  | _ => Err (Invalid "KEY_STATE")
  end.

(** From control.go: by identifier. *)
Definition commitmentKeyByIDAt (keyset : object) (purpose : string) (keyID : bytes) (topicEpoch : option Z)
    (at_ : Z) : judged CommitmentKey :=
  keys ← judge (Invalid "KEY_STATE") (parseCommitmentKeys (field keyset "commitment_keys"));
  match sole (fun key => beq (cmPurpose key) (str purpose) && beq (cmKeyID key) keyID &&
                         sameEpoch (cmTopicKeyEpoch key) topicEpoch) keys with
  | Some key =>
      reject negb (within at_ (cmNotBefore key) (cmNotAfter key)) with Invalid "KEY_STATE";; Ok key
  | None => Err (Invalid "KEY_STATE")
  end.

(** ** Valid keysets *)

(** [sort.SliceIsSorted]: no key is below its predecessor. *)
Fixpoint keys_sorted (keys : list bytes) : bool :=
  match keys with
  | a :: (b :: _) as rest => negb (bytes_lt b a) && keys_sorted rest
  | _ => true
  end.

Definition online_sort_key (key : OnlineKey) : bytes := onUse key ++ [x00] ++ onState key ++ [x00] ++ onKeyID key.

Definition onlineKeysOrdered (keys : list OnlineKey) : bool := keys_sorted (map online_sort_key keys).

(** [leftPadUint(epoch, 10)]. *)
Definition leftPadUint (value : Z) (width : nat) : bytes :=
  let digits := format_uint value in
  repeat x30 (width - length digits) ++ digits.

Definition commitmentSortKey (key : CommitmentKey) : bytes :=
  let epoch := match cmTopicKeyEpoch key with Some e => leftPadUint e 10 | None => [] end in
  cmPurpose key ++ [x00] ++ epoch ++ [x00] ++ format_wire (cmNotBefore key) ++ [x00] ++ cmKeyID key.

Definition commitmentKeysOrdered (keys : list CommitmentKey) : bool := keys_sorted (map commitmentSortKey keys).

Definition distinct (ids : list bytes) : bool := bool_decide (NoDup ids).

Definition valid_online_key (key : OnlineKey) : bool :=
  (beq (onUse key) (str "A9_CONTROL") || beq (onUse key) (str "SERVICE_AUTH")) &&
  (beq (onState key) (str "SIGN") || beq (onState key) (str "VERIFY_ONLY")) &&
  after (onNotAfter key) (onNotBefore key) &&
  match Ed25519KeyID (onPublicKey key) with Some id => beq id (onKeyID key) | None => beq [] (onKeyID key) end.

Definition key_id_shape (prefix : string) (id : bytes) : bool :=
  has_prefix id (str prefix) && lowerHex64 (trim_prefix id (str prefix)).

Definition valid_commitment_key (key : CommitmentKey) : bool :=
  after (cmNotAfter key) (cmNotBefore key) && key_id_shape "hmac-sha256:" (cmKeyID key) &&
  if beq (cmPurpose key) (str "TOPIC") then
    match cmTopicKeyEpoch key with Some epoch => negb (epoch =? 0) | None => false end
  else if beq (cmPurpose key) (str "ROSTER") || beq (cmPurpose key) (str "TUPLE") then
    bool_decide (cmTopicKeyEpoch key = None)
  else false.

Definition online_keys_valid (online : list OnlineKey) : bool :=
  bail (length online <? 2)%nat || (4 <? length online)%nat || negb (onlineKeysOrdered online) with false;;
  bail negb (distinct (map onKeyID online)) || negb (forallb valid_online_key online) with false;;
  forallb (fun use => (count_of (fun key => beq (onUse key) (str use) && beq (onState key) (str "SIGN")) online =? 1)%nat)
    ["A9_CONTROL"; "SERVICE_AUTH"]%string.

Definition commitment_keys_valid (commitments : list CommitmentKey) : bool :=
  bail (length commitments <? 3)%nat || (6 <? length commitments)%nat || negb (commitmentKeysOrdered commitments)
    with false;;
  bail negb (distinct (map cmKeyID commitments)) || negb (forallb valid_commitment_key commitments) with false;;
  forallb (fun purpose => let n := count_of (fun key => beq (cmPurpose key) (str purpose)) commitments in
                          (1 <=? n)%nat && (n <=? 2)%nat) ["ROSTER"; "TOPIC"; "TUPLE"]%string.

(** The window of a keyset, live at [now] unless [now] is the zero time. *)
Definition keyset_window (o : object) (now : Z) : option Z :=
  issued ← parseWireTime (objectString o "issued_at");
  expires ← parseWireTime (objectString o "expires_at");
  bail negb (after expires issued) || (24 * hour <? time_sub expires issued) ||
       (negb (is_zero now) && (before now issued || negb (before now expires))) with None;;
  Some issued.

Section Keysets.
Context `{Ed25519}.

(** Every failure has the same verdict. *)
Definition keyset_valid (o : object) (pinnedRootPublic pinnedRootKeyID environment : bytes) (now : Z) : bool :=
  bail negb (beq (objectString o "protocol") (str "hytch.a9-bridge-keyset")) ||
       negb (objectIntegerEquals o "schema_version" 1) || negb (beq (objectString o "environment") environment) ||
       negb (beq (objectString o "root_signature_algorithm") (str "Ed25519")) with false;;
  bail negb (bool_decide (Ed25519KeyID pinnedRootPublic = Some pinnedRootKeyID)) ||
       negb (beq (objectString o "root_signing_key_id") pinnedRootKeyID) with false;;
  match keyset_window o now, positiveInteger (field o "keyset_sequence"), parseOnlineKeys (field o "keys"),
        parseCommitmentKeys (field o "commitment_keys") with
  | Some issued, Ok _, Some online, Some commitments =>
      bail negb (online_keys_valid online) with false;;
      bail negb (forallb (fun use => is_ok (SigningKeyAt o use issued)) ["A9_CONTROL"; "SERVICE_AUTH"]%string)
        with false;;
      bail negb (commitment_keys_valid commitments) with false;;
      IsEligible (VerifyObject o "root_signature_base64url" KeysetSignatureDomain pinnedRootPublic)
  | _, _, _, _ => false
  end.

Definition ValidateKeyset (o : object) (pinnedRootPublic pinnedRootKeyID environment : bytes) (now : Z) : Verdict :=
  if keyset_valid o pinnedRootPublic pinnedRootKeyID environment now then Eligible else Inconclusive "KEY_STATE".

End Keysets.

Definition ValidateKeysetSequence (incoming : object) (storedSequence : Z) (storedObjectHash : bytes) : Verdict :=
  match positiveInteger (field incoming "keyset_sequence") with
  | Err _ => Inconclusive "KEYSET_ROLLBACK"
  | Ok sequence =>
      bail sequence <? storedSequence with Inconclusive "KEYSET_ROLLBACK";;
      bail (sequence =? storedSequence) && negb (beq storedObjectHash []) &&
           negb (bool_decide (CanonicalObjectHash incoming = Some storedObjectHash))
        with Inconclusive "KEYSET_ROLLBACK";;
      Eligible
  end.

(** ** Rotation of the signing keys *)

Definition sameOnlineKeyMaterial (left right : OnlineKey) : bool :=
  beq (onKeyID left) (onKeyID right) && beq (onPublicKey left) (onPublicKey right) &&
  (onNotBefore left =? onNotBefore right) && (onNotAfter left =? onNotAfter right).

Definition soleSigningKeyForUse (keys : list OnlineKey) (use : string) : option OnlineKey :=
  sole (fun key => beq (onUse key) (str use) && beq (onState key) (str "SIGN")) keys.

Definition findOnlineKey (keys : list OnlineKey) (use : string) (excludedKeyID keyID : bytes) : option OnlineKey :=
  sole (fun key => beq (onUse key) (str use) && negb (beq (onKeyID key) excludedKeyID) && beq (onKeyID key) keyID)
    keys.

Definition onlineKeyByID (keys : list OnlineKey) (use : string) (keyID : bytes) : option OnlineKey :=
  sole (fun key => beq (onUse key) (str use) && beq (onKeyID key) keyID) keys.

(** Whether an earlier verify-only key is treated rightly by the later keyset. *)
Definition verify_only_kept (after_ : list OnlineKey) (use : string) (transitionIssued cutoverIssued : Z)
    (key : OnlineKey) : bool :=
  bail after (onNotBefore key) transitionIssued && negb (before cutoverIssued (onNotBefore key)) with false;;
  let next := onlineKeyByID after_ use (onKeyID key) in
  if before cutoverIssued (onNotAfter key) then
    match next with
    | None => false
    | Some next => beq (onState next) (str "VERIFY_ONLY") && sameOnlineKeyMaterial key next
    end
  else match next with None => true | Some next => sameOnlineKeyMaterial key next end.

Definition verify_only_other (use : string) (excluded : bytes) (key : OnlineKey) : bool :=
  beq (onUse key) (str use) && beq (onState key) (str "VERIFY_ONLY") && negb (beq (onKeyID key) excluded).

Definition validateVerifyOnlyContinuity (before_ after_ : list OnlineKey) (use : string)
    (transitionIssued cutoverIssued : Z) (promotedKeyID retiredKeyID : bytes) : Verdict :=
  bail negb (forallb (fun key => negb (verify_only_other use promotedKeyID key) ||
                                 verify_only_kept after_ use transitionIssued cutoverIssued key) before_)
    with Inconclusive "KEY_STATE";;
  bail negb (forallb (fun key => negb (verify_only_other use retiredKeyID key) ||
                                 bool_decide (is_Some (onlineKeyByID before_ use (onKeyID key))) ||
                                 negb (time_sub (onNotBefore key) cutoverIssued <? 24 * hour)) after_)
    with Inconclusive "KEY_STATE";;
  Eligible.

(** How long the old key must stay published after the cutover. *)
Definition rotation_retention (use : string) : Z := if String.eqb use "SERVICE_AUTH" then 125 * second else 90 * second.

Definition validateOnlineRotationForUse (before_ after_ : list OnlineKey) (use : string)
    (transitionIssued cutoverIssued : Z) : Verdict :=
  match soleSigningKeyForUse before_ use, soleSigningKeyForUse after_ use with
  | Some oldSign, Some newSign =>
      if beq (onKeyID oldSign) (onKeyID newSign) then
        bail negb (sameOnlineKeyMaterial oldSign newSign) with Inconclusive "KEY_STATE";;
        validateVerifyOnlyContinuity before_ after_ use transitionIssued cutoverIssued [] []
      else
        match findOnlineKey before_ use (onKeyID oldSign) (onKeyID newSign) with
        | None => Inconclusive "KEY_STATE"
        | Some staged =>
            bail negb (beq (onState staged) (str "VERIFY_ONLY")) ||
                 (time_sub (onNotBefore staged) transitionIssued <? 24 * hour) ||
                 before cutoverIssued (onNotBefore staged) || negb (sameOnlineKeyMaterial staged newSign)
              with Inconclusive "KEY_STATE";;
            match findOnlineKey after_ use (onKeyID newSign) (onKeyID oldSign) with
            | None => Inconclusive "KEY_STATE"
            | Some oldVerify =>
                bail negb (beq (onState oldVerify) (str "VERIFY_ONLY")) ||
                     negb (sameOnlineKeyMaterial oldSign oldVerify) with Inconclusive "KEY_STATE";;
                bail before (onNotAfter oldVerify) (cutoverIssued + rotation_retention use)
                  with Inconclusive "KEY_STATE";;
                validateVerifyOnlyContinuity before_ after_ use transitionIssued cutoverIssued
                  (onKeyID staged) (onKeyID oldVerify)
            end
        end
  | _, _ => Inconclusive "KEY_STATE"
  end.

Definition ValidateOnlineRotation (transition cutover : object) : Verdict :=
  match positiveInteger (field transition "keyset_sequence"), positiveInteger (field cutover "keyset_sequence"),
        parseWireTime (objectString transition "issued_at"), parseWireTime (objectString cutover "issued_at"),
        parseOnlineKeys (field transition "keys"), parseOnlineKeys (field cutover "keys") with
  | Ok transitionSequence, Ok cutoverSequence, Some transitionIssued, Some cutoverIssued,
    Some before_, Some after_ =>
      bail cutoverSequence <=? transitionSequence with Inconclusive "KEY_STATE";;
      bail before cutoverIssued transitionIssued with Inconclusive "KEY_STATE";;
      let control := validateOnlineRotationForUse before_ after_ "A9_CONTROL" transitionIssued cutoverIssued in
      bail negb (IsEligible control) with control;;
      let service := validateOnlineRotationForUse before_ after_ "SERVICE_AUTH" transitionIssued cutoverIssued in
      bail negb (IsEligible service) with service;;
      Eligible
  | _, _, _, _, _, _ => Inconclusive "KEY_STATE"
  end.

(** ** Topic keys *)

Definition next_epoch (epoch : Z) : Z := (epoch + 1) mod 2 ^ 32.

(** The last topic descriptor of an epoch. *)
Definition last_topic (descriptors : list CommitmentKey) (epoch : Z) : option CommitmentKey :=
  last (List.filter (fun d => beq (cmPurpose d) (str "TOPIC") && bool_decide (cmTopicKeyEpoch d = Some epoch)) descriptors).

Definition ValidateTopicTransition (keyset : object) : Verdict :=
  match parseWireTime (objectString keyset "issued_at"), parseCommitmentKeys (field keyset "commitment_keys") with
  | Some issued, Some descriptors =>
      let currentEpoch := TopicEpoch issued in
      let nextEpoch := next_epoch currentEpoch in
      let boundary := TopicEpochBoundary nextEpoch in
      match last_topic descriptors currentEpoch, last_topic descriptors nextEpoch with
      | Some current, Some next =>
          bail negb (cmNotBefore next =? boundary) || before (cmNotAfter current) (boundary + 60 * second)
            with Inconclusive "KEY_STATE";;
          Eligible
      | _, _ => Inconclusive "KEY_STATE"
      end
  | _, _ => Inconclusive "KEY_STATE"
  end.

(** How the one other topic key must fit the current one at the issue time. *)
Definition adjacent_ok (issued currentEpoch : Z) (current adjacent : CommitmentKey) (adjacentEpoch : Z) : bool :=
  if adjacentEpoch =? next_epoch currentEpoch then
    let boundary := TopicEpochBoundary adjacentEpoch in
    (cmNotBefore adjacent =? boundary) && negb (before (cmNotAfter current) (boundary + 60 * second))
  else if (0 <? currentEpoch) && (adjacentEpoch =? currentEpoch - 1) then
    let boundary := TopicEpochBoundary currentEpoch in
    (cmNotBefore current =? boundary) && negb (before (cmNotAfter adjacent) (boundary + 60 * second)) &&
    before issued (boundary + 60 * second)
  else false.

Definition topic_schedule_ok (issued : Z) (topic : list CommitmentKey) : bool :=
  let currentEpoch := TopicEpoch issued in
  bail negb (forallb (fun d => bool_decide (is_Some (cmTopicKeyEpoch d))) topic) with false;;
  let is_current d := bool_decide (cmTopicKeyEpoch d = Some currentEpoch) in
  match List.filter is_current topic, List.filter (fun d => negb (is_current d)) topic with
  | [current], others =>
      bail negb (within issued (cmNotBefore current) (cmNotAfter current)) with false;;
      match others with
      | [] => true
      | [adjacent] => adjacent_ok issued currentEpoch current adjacent (default 0 (cmTopicKeyEpoch adjacent))
      | _ => false
      end
  | _, _ => false
  end.

Definition ValidateTopicKeySchedule (keyset : object) : Verdict :=
  match parseWireTime (objectString keyset "issued_at"), parseCommitmentKeys (field keyset "commitment_keys") with
  | Some issued, Some descriptors =>
      let topic := List.filter (fun d => beq (cmPurpose d) (str "TOPIC")) descriptors in
      bail (length topic <? 1)%nat || (2 <? length topic)%nat with Inconclusive "KEY_STATE";;
      if topic_schedule_ok issued topic then Eligible else Inconclusive "KEY_STATE"
  | _, _ => Inconclusive "KEY_STATE"
  end.

(** ** Selecting keys *)

Lemma sole_some {A : Type} (p : A -> bool) l x : sole p l = Some x -> x ∈ l /\ p x = true.
Proof.
  unfold sole. destruct (List.filter p l) as [|y [|]] eqn:E; try done. intros [= ->].
  assert (In x (List.filter p l)) as Hx by (rewrite E; by left). apply filter_In in Hx.
  by rewrite list_elem_of_In.
Qed.

Lemma sole_only {A : Type} (p : A -> bool) l x y : sole p l = Some x -> y ∈ l -> p y = true -> y = x.
Proof.
  unfold sole. destruct (List.filter p l) as [|z [|]] eqn:E; try done. intros [= ->] Hy Hp.
  assert (In y (List.filter p l)) as Hin by (apply filter_In; by rewrite <- list_elem_of_In).
  rewrite E in Hin. by destruct Hin as [->|[]].
Qed.

Lemma find_distinct {A B : Type} (f : A -> B) (p : A -> bool) l x :
  NoDup (map f l) -> x ∈ l -> p x = true -> (forall y, p y = true -> f y = f x) -> List.find p l = Some x.
Proof.
  intros Hnd Hx Hp Hf. induction l as [|y l IH]; [by apply elem_of_nil in Hx|].
  cbn [map] in Hnd. apply NoDup_cons in Hnd as [Hy Hnd]. cbn [List.find].
  apply elem_of_cons in Hx as [<-|Hx]; [by rewrite Hp|].
  destruct (p y) eqn:E; [|by apply IH]. exfalso. apply Hy. rewrite (Hf y E). apply list_elem_of_In.
  apply in_map. by apply list_elem_of_In.
Qed.

(** What [keyset_valid] says of the online keys. *)
Lemma keyset_valid_online `{Ed25519} o root rootID environment now :
  ValidateKeyset o root rootID environment now = Eligible ->
  exists issued online,
    parseWireTime (objectString o "issued_at") = Some issued /\
    parseOnlineKeys (field o "keys") = Some online /\ NoDup (map onKeyID online) /\
    Forall (fun key => valid_online_key key = true) online.
Proof.
  unfold ValidateKeyset. destruct (keyset_valid _ _ _ _ _) eqn:E; [intros _|done]. unfold keyset_valid in E.
  destruct (_ || _) in E; [done|]. destruct (_ || _) in E; [done|].
  destruct (keyset_window o now) as [issued|] eqn:Ew; [|done]. destruct (positiveInteger _); [|done].
  destruct (parseOnlineKeys _) as [online|]; [|done]. destruct (parseCommitmentKeys _); [|done].
  destruct (negb (online_keys_valid online)) eqn:Eo; [done|]. apply negb_false_iff in Eo.
  unfold online_keys_valid in Eo. destruct (_ || _) in Eo; [done|].
  destruct (negb (distinct _) || _) eqn:Ed in Eo; [done|]. unfold distinct in Ed. boolprop.
  unfold keyset_window in Ew. destruct (parseWireTime (objectString o "issued_at")) as [i|]; [|done].
  clear Ew. exists i, online. split_and!; try done.
  apply Forall_forall. intros key Hkey.
  match goal with H : forallb _ _ = true |- _ => rewrite forallb_forall in H; apply H end.
  by apply list_elem_of_In.
Qed.

Lemma valid_key_use key : valid_online_key key = true -> onUse key = str "A9_CONTROL" \/ onUse key = str "SERVICE_AUTH".
Proof. unfold valid_online_key. intros H. boolprop. rewrite orb_true_iff, !beq_true in *. done. Qed.

Lemma valid_key_state key : valid_online_key key = true -> onState key = str "SIGN" \/ onState key = str "VERIFY_ONLY".
Proof. unfold valid_online_key. intros H. boolprop. rewrite orb_true_iff, !beq_true in *. done. Qed.

Lemma parsed_key_length value keys : parseOnlineKeys value = Some keys ->
  Forall (fun key => length (onPublicKey key) = 32%nat) keys.
Proof.
  destruct value; try done. cbn. intros Hm. apply mapM_Some in Hm.
  induction Hm as [|item key l keys Hkey _ IH]; constructor; [|done].
  destruct item as [| | | | |o| | | |]; try done. unfold parseOnlineKey in Hkey.
  destruct (negb (length o =? 6)%nat); [done|].
  destruct (DecodeBase64URL _ 32) as [pk|] eqn:Ed; [|done]. cbn in Hkey.
  destruct (parseWireTime (objectString o "not_before")); [|done]. cbn in Hkey.
  destruct (parseWireTime (objectString o "not_after")); [|done]. injection Hkey as <-.
  by apply DecodeBase64URL_some in Ed as (_ & ? & _).
Qed.

Lemma valid_key_id key : valid_online_key key = true -> length (onPublicKey key) = 32%nat ->
  onKeyID key = str "ed25519-sha256:" ++ SHA256LowerHex (onPublicKey key).
Proof.
  unfold valid_online_key, Ed25519KeyID. intros H Hl. rewrite Hl in H. cbn [Nat.eqb negb] in H. boolprop.
  symmetry. by apply beq_true.
Qed.

(** Looking a key of a valid keyset up gives that key, within its window. *)
Lemma OnlineKeyAt_listed o keys key use at_ :
  parseOnlineKeys (field o "keys") = Some keys -> NoDup (map onKeyID keys) -> key ∈ keys ->
  onUse key = str use ->
  OnlineKeyAt o (onKeyID key) use at_ =
  if within at_ (onNotBefore key) (onNotAfter key) then Ok (onPublicKey key) else Err (Invalid "KEY_STATE").
Proof.
  intros Hk Hnd Hin Hu. unfold OnlineKeyAt. rewrite Hk. cbn.
  rewrite (find_distinct onKeyID _ keys key Hnd Hin).
  - by destruct (within _ _ _).
  - by rewrite Hu, !beq_refl.
  - intros y Hy. boolprop. by apply beq_true.
Qed.

(** in a valid keyset a key identifier and a use give a public key at an instant
    exactly when the keyset lists that key for that use with the instant in its half-open
    window; the identifier is then the digest of the key. *)
Theorem online_key_at_exact `{Ed25519} (o : object) (root rootID environment : bytes) (now : Z)
    (keyID : bytes) (use : string) (at_ : Z) (publicKey : bytes)
    (Hvalid : ValidateKeyset o root rootID environment now = Eligible) :
  OnlineKeyAt o keyID use at_ = Ok publicKey <->
  exists keys key,
    parseOnlineKeys (field o "keys") = Some keys /\ key ∈ keys /\ onUse key = str use /\
    onKeyID key = keyID /\ onPublicKey key = publicKey /\ onNotBefore key <= at_ < onNotAfter key /\
    Ed25519KeyID publicKey = Some keyID.
Proof.
  apply keyset_valid_online in Hvalid as (issued & keys & _ & Hk & Hnd & Hv). split.
  - intros Hat. unfold OnlineKeyAt in Hat. rewrite Hk in Hat. cbn in Hat.
    destruct (List.find _ keys) as [key|] eqn:Ef; [|done]. apply find_some in Ef as [Hin Hp].
    apply list_elem_of_In in Hin. boolprop. rewrite !beq_true in *. subst keyID.
    destruct (negb (within _ _ _)) eqn:Ew; [done|]. injection Hat as <-. unfold within, before in Ew. boolprop.
    pose proof (proj1 (Forall_forall _ _) Hv _ Hin) as Hvk.
    pose proof (proj1 (Forall_forall _ _) (parsed_key_length _ _ Hk) _ Hin) as Hl. cbn in Hvk, Hl.
    exists keys, key. split_and!; try done. unfold Ed25519KeyID. rewrite Hl. cbn.
    by rewrite (valid_key_id key Hvk Hl).
  - intros (keys' & key & Hk' & Hin & Hu & <- & <- & Hw & _). rewrite Hk in Hk'. injection Hk' as <-.
    rewrite (OnlineKeyAt_listed o keys key use at_ Hk Hnd Hin Hu). unfold within, before.
    by compare_lia.
Qed.

(** ** Rotation *)

Lemma same_material left right : sameOnlineKeyMaterial left right = true ->
  onKeyID left = onKeyID right /\ onPublicKey left = onPublicKey right /\
  onNotBefore left = onNotBefore right /\ onNotAfter left = onNotAfter right.
Proof. unfold sameOnlineKeyMaterial. intros H. boolprop. by rewrite !beq_true in *. Qed.

Lemma continuity_keeps before_ after_ use transitionIssued cutoverIssued promoted retired key :
  IsEligible (validateVerifyOnlyContinuity before_ after_ use transitionIssued cutoverIssued promoted retired) = true ->
  key ∈ before_ -> onUse key = str use -> onState key = str "VERIFY_ONLY" -> onKeyID key <> promoted ->
  cutoverIssued < onNotAfter key ->
  exists next, next ∈ after_ /\ onUse next = str use /\ sameOnlineKeyMaterial key next = true.
Proof.
  unfold validateVerifyOnlyContinuity. intros H Hin Hu Hs Hid Hlive.
  destruct (negb (forallb _ before_)) eqn:E; [done|]. apply negb_false_iff in E.
  rewrite forallb_forall in E. specialize (E key (proj1 (list_elem_of_In _ _) Hin)). cbn beta in E.
  unfold verify_only_other in E. rewrite Hu, Hs, !beq_refl in E.
  rewrite (proj2 (beq_false _ _) Hid) in E. cbn [negb andb orb] in E. unfold verify_only_kept in E.
  destruct (_ && _) in E; [done|]. unfold before in E. rewrite (proj2 (Z.ltb_lt _ _) Hlive) in E.
  destruct (onlineKeyByID after_ use (onKeyID key)) as [next|] eqn:En; [|done].
  apply sole_some in En as [Hn Hp]. boolprop. exists next. by rewrite !beq_true in *.
Qed.

(** What happens to the signing key of a use. *)
Lemma rotation_old_signer before_ after_ use transitionIssued cutoverIssued oldSign :
  IsEligible (validateOnlineRotationForUse before_ after_ use transitionIssued cutoverIssued) = true ->
  soleSigningKeyForUse before_ use = Some oldSign ->
  exists next newSign, next ∈ after_ /\ onUse next = str use /\ sameOnlineKeyMaterial oldSign next = true /\
    soleSigningKeyForUse after_ use = Some newSign /\
    (onKeyID newSign <> onKeyID oldSign -> cutoverIssued + rotation_retention use <= onNotAfter oldSign).
Proof.
  unfold validateOnlineRotationForUse. intros H Hold. rewrite Hold in H.
  destruct (soleSigningKeyForUse after_ use) as [newSign|] eqn:Hnew; [|done].
  destruct (beq (onKeyID oldSign) (onKeyID newSign)) eqn:Eid.
  - apply beq_true in Eid. destruct (negb (sameOnlineKeyMaterial oldSign newSign)) eqn:Em; [done|].
    apply negb_false_iff in Em. apply sole_some in Hnew as Hn. destruct Hn as [Hn Hp]. boolprop.
    exists newSign, newSign. rewrite !beq_true in *. split_and!; done.
  - apply beq_false in Eid.
    destruct (findOnlineKey before_ _ _ _) as [staged|]; [|done]. destruct (_ || _) in H; [done|].
    destruct (findOnlineKey after_ _ _ _) as [oldVerify|] eqn:Ev; [|done].
    destruct (_ || _) eqn:Es in H; [done|]. boolprop. apply sole_some in Ev as [Hv Hp]. boolprop.
    destruct (before (onNotAfter oldVerify) _) eqn:Er; [done|]. unfold before in Er. boolprop.
    pose proof (same_material _ _ ltac:(eassumption)) as (_ & _ & _ & Hna).
    exists oldVerify, newSign. rewrite !beq_true in *. split_and!; try done. intros _. by rewrite Hna.
Qed.

(** A staged key keeps its material when it is promoted, and the others stay published. *)
Lemma rotation_old_verifier before_ after_ use transitionIssued cutoverIssued key :
  IsEligible (validateOnlineRotationForUse before_ after_ use transitionIssued cutoverIssued) = true ->
  NoDup (map onKeyID before_) -> key ∈ before_ -> onUse key = str use -> onState key = str "VERIFY_ONLY" ->
  onKeyID key <> [] -> cutoverIssued < onNotAfter key ->
  exists next, next ∈ after_ /\ onUse next = str use /\ sameOnlineKeyMaterial key next = true.
Proof.
  unfold validateOnlineRotationForUse. intros H Hnd Hin Hu Hs Hne Hlive.
  destruct (soleSigningKeyForUse before_ use) as [oldSign|]; [|done].
  destruct (soleSigningKeyForUse after_ use) as [newSign|] eqn:Hnew; [|done].
  destruct (beq (onKeyID oldSign) (onKeyID newSign)).
  { destruct (negb _) in H; [done|]. by eapply continuity_keeps. }
  destruct (findOnlineKey before_ _ _ _) as [staged|] eqn:Es; [|done].
  destruct (_ || _) eqn:Em in H; [done|]. boolprop.
  destruct (findOnlineKey after_ _ _ _) as [oldVerify|]; [|done].
  destruct (_ || _) in H; [done|]. destruct (before (onNotAfter oldVerify) _); [done|].
  destruct (decide (onKeyID key = onKeyID staged)) as [Hid|Hid]; [|by eapply continuity_keeps].
  apply sole_some in Es as [Hst _]. apply sole_some in Hnew as [Hn Hp]. boolprop.
  assert (key = staged) as ->.
  { apply list_elem_of_lookup in Hin as [i Hi]. apply list_elem_of_lookup in Hst as [j Hj].
    assert (i = j) as <-; [|congruence].
    eapply (NoDup_lookup (map onKeyID before_)); [done| |];
      rewrite list_lookup_fmap, ?Hi, ?Hj; cbn; [done|by rewrite Hid]. }
  exists newSign. rewrite !beq_true in *. done.
Qed.

Lemma rotation_uses transition cutover before_ after_ ti ci use :
  ValidateOnlineRotation transition cutover = Eligible ->
  parseOnlineKeys (field transition "keys") = Some before_ -> parseOnlineKeys (field cutover "keys") = Some after_ ->
  parseWireTime (objectString transition "issued_at") = Some ti ->
  parseWireTime (objectString cutover "issued_at") = Some ci ->
  use = "A9_CONTROL"%string \/ use = "SERVICE_AUTH"%string ->
  IsEligible (validateOnlineRotationForUse before_ after_ use ti ci) = true.
Proof.
  unfold ValidateOnlineRotation. intros H Hb Ha Ht Hc Huse. rewrite Hb, Ha, Ht, Hc in H.
  destruct (positiveInteger (field transition _)); [|done]. destruct (positiveInteger (field cutover _)); [|done].
  destruct (_ <=? _); [done|]. destruct (before ci ti); [done|].
  destruct (negb (IsEligible (validateOnlineRotationForUse _ _ "A9_CONTROL" _ _))) eqn:E1.
  { rewrite H in E1. done. }
  destruct (negb (IsEligible (validateOnlineRotationForUse _ _ "SERVICE_AUTH" _ _))) eqn:E2.
  { rewrite H in E2. done. }
  apply negb_false_iff in E1, E2. by destruct Huse as [->| ->].
Qed.

(** C31: between two valid keysets with an eligible rotation, no key loses its use: a key of
    the first that has not expired at the cutover gives the same public key in the second,
    at every instant of its window. A signing key that is replaced stays published for at
    least 90 seconds (125 for service tokens) after the cutover. *)
Theorem rotation_keeps_keys `{Ed25519} (transition cutover : object) (root rootID environment : bytes)
    (now now' cutoverIssued : Z) (keys : list OnlineKey) (key : OnlineKey) (use : string) (at_ : Z)
    (Hold : ValidateKeyset transition root rootID environment now = Eligible)
    (Hnew : ValidateKeyset cutover root rootID environment now' = Eligible)
    (Hrot : ValidateOnlineRotation transition cutover = Eligible)
    (Hissued : parseWireTime (objectString cutover "issued_at") = Some cutoverIssued)
    (Hkeys : parseOnlineKeys (field transition "keys") = Some keys) (Hkey : key ∈ keys)
    (Huse : onUse key = str use) (Hlive : cutoverIssued < onNotAfter key) :
  OnlineKeyAt cutover (onKeyID key) use at_ = OnlineKeyAt transition (onKeyID key) use at_ /\
  (forall keys' signer, parseOnlineKeys (field cutover "keys") = Some keys' ->
     soleSigningKeyForUse keys' use = Some signer -> onState key = str "SIGN" -> onKeyID signer <> onKeyID key ->
     cutoverIssued + rotation_retention use <= onNotAfter key).
Proof.
  apply keyset_valid_online in Hold as (ti & online & Hti & Hk & Hnd & Hv).
  rewrite Hk in Hkeys. injection Hkeys as ->.
  apply keyset_valid_online in Hnew as (ci & after_ & Hci & Hk' & Hnd' & Hv').
  pose proof (proj1 (Forall_forall _ _) Hv _ Hkey) as Hvk. cbn in Hvk.
  assert (Hu : use = "A9_CONTROL"%string \/ use = "SERVICE_AUTH"%string).
  { destruct (valid_key_use key Hvk) as [E|E]; rewrite Huse in E; apply str_inj in E; [by left|by right]. }
  pose proof (rotation_uses _ _ _ _ _ _ use Hrot Hk Hk' Hti Hissued Hu) as Hrotu.
  assert (Hne : onKeyID key <> []).
  { pose proof (proj1 (Forall_forall _ _) (parsed_key_length _ _ Hk) _ Hkey) as Hl. cbn in Hl.
    by rewrite (valid_key_id key Hvk Hl). }
  assert (Hsigner : onState key = str "SIGN" -> exists oldSign, soleSigningKeyForUse keys use = Some oldSign /\ oldSign = key).
  { intros Hs. unfold validateOnlineRotationForUse in Hrotu.
    destruct (soleSigningKeyForUse keys use) as [oldSign|] eqn:Eo; [|done]. exists oldSign. split; [done|].
    symmetry. apply (sole_only _ _ _ key Eo); [done|]. by rewrite Huse, Hs, !beq_refl. }
  assert (Hnext : exists next, next ∈ after_ /\ onUse next = str use /\ sameOnlineKeyMaterial key next = true).
  { destruct (valid_key_state key Hvk) as [Hs|Hs].
    - destruct (Hsigner Hs) as (oldSign & Ho & ->).
      destruct (rotation_old_signer _ _ _ _ _ _ Hrotu Ho) as (next & newSign & ? & ? & ? & _). by exists next.
    - by eapply rotation_old_verifier. }
  split.
  - destruct Hnext as (next & Hin & Hun & Hm). apply same_material in Hm as (Hid & Hpk & Hnb & Hna).
    rewrite (OnlineKeyAt_listed transition keys key use at_ Hk Hnd Hkey Huse), Hid.
    rewrite (OnlineKeyAt_listed cutover after_ next use at_ Hk' Hnd' Hin Hun).
    by rewrite Hpk, Hnb, Hna.
  - intros keys' signer Hp Hs Hst Hne'. rewrite Hk' in Hp. injection Hp as <-.
    destruct (Hsigner Hst) as (oldSign & Ho & ->).
    destruct (rotation_old_signer _ _ _ _ _ _ Hrotu Ho) as (next & newSign & _ & _ & _ & Hnew & Hret).
    rewrite Hs in Hnew. injection Hnew as <-. by apply Hret.
Qed.

(** ** The topic key handoff *)

Lemma TopicEpoch_within e t : 0 <= e < 2 ^ 32 -> TopicEpochBoundary e <= t < TopicEpochBoundary (e + 1) ->
  TopicEpoch t = e.
Proof.
  unfold TopicEpochBoundary, TopicEpoch, unix_seconds. intros He Ht.
  assert (Hs : e * topicPeriodSeconds <= t / second < (e + 1) * topicPeriodSeconds).
  { unfold topicPeriodSeconds, second in *. split.
    - apply Z.div_le_lower_bound; lia.
    - apply Z.div_lt_upper_bound; lia. }
  assert (0 < topicPeriodSeconds) by done.
  rewrite (proj2 (Z.ltb_ge _ _)) by nia.
  replace (t / second / topicPeriodSeconds) with e.
  { by apply Z.mod_small. }
  apply Z.div_unique with (t / second - e * topicPeriodSeconds); nia.
Qed.

Lemma epoch_of_instant t : 0 <= t < TopicEpochBoundary (2 ^ 32 - 1) ->
  0 <= TopicEpoch t < 2 ^ 32 - 1 /\ TopicEpochBoundary (TopicEpoch t) <= t < TopicEpochBoundary (TopicEpoch t + 1).
Proof.
  intros Ht. set (e := t / second / topicPeriodSeconds).
  assert (Hb : TopicEpochBoundary e <= t < TopicEpochBoundary (e + 1)).
  { unfold TopicEpochBoundary. pose proof (Z.div_mod t second ltac:(done)). pose proof (Z.mod_pos_bound t second ltac:(done)).
    pose proof (Z.div_mod (t / second) topicPeriodSeconds ltac:(done)).
    pose proof (Z.mod_pos_bound (t / second) topicPeriodSeconds ltac:(done)). subst e.
    unfold second, topicPeriodSeconds in *. lia. }
  assert (0 <= e < 2 ^ 32 - 1) as He.
  { unfold TopicEpochBoundary, topicPeriodSeconds, second in *. nia. }
  rewrite (TopicEpoch_within e t) by lia. done.
Qed.

(** The keys of one purpose and epoch, when there is one. *)
Lemma CommitmentKeyAt_sole keyset ds key epoch at_ issuance :
  parseCommitmentKeys (field keyset "commitment_keys") = Some ds ->
  List.filter (fun d => beq (cmPurpose d) (str "TOPIC") && sameEpoch (cmTopicKeyEpoch d) (Some epoch)) ds = [key] ->
  CommitmentKeyAt keyset "TOPIC" (Some epoch) at_ issuance =
  if within at_ (cmNotBefore key) (cmNotAfter key) && TopicEpochUsable epoch at_ issuance
  then Ok key else Err (Invalid "TOPIC_KEY_EPOCH").
Proof.
  intros Hd Hf. unfold CommitmentKeyAt. rewrite Hd. cbn [judge mbind result_bind]. cbn [String.eqb negb orb].
  assert (E : forall l, List.filter (fun d => beq (cmPurpose d) (str "TOPIC") && sameEpoch (cmTopicKeyEpoch d) (Some epoch) &&
      within at_ (cmNotBefore d) (cmNotAfter d) && TopicEpochUsable epoch at_ issuance) l =
    List.filter (fun d => within at_ (cmNotBefore d) (cmNotAfter d) && TopicEpochUsable epoch at_ issuance)
      (List.filter (fun d => beq (cmPurpose d) (str "TOPIC") && sameEpoch (cmTopicKeyEpoch d) (Some epoch)) l)).
  { induction l as [|d l IH]; [done|]. cbn [List.filter].
    destruct (beq _ _ && sameEpoch _ _); cbn [andb List.filter]; by rewrite IH. }
  rewrite E, Hf. cbn [List.filter]. by destruct (_ && _).
Qed.

Lemma filter_filter {A : Type} (p q : A -> bool) l :
  List.filter p (List.filter q l) = List.filter (fun x => q x && p x) l.
Proof. induction l as [|x l IH]; [done|]. cbn. destruct (q x); cbn; by rewrite IH. Qed.

Lemma filter_in_singleton {A : Type} (p : A -> bool) l x y : List.filter p l = [x] -> y ∈ l -> p y = true -> y = x.
Proof. intros H. apply sole_only. unfold sole. by rewrite H. Qed.

(** What an eligible schedule is made of. *)
Lemma topic_schedule_parts keyset issued ds :
  ValidateTopicKeySchedule keyset = Eligible -> parseWireTime (objectString keyset "issued_at") = Some issued ->
  parseCommitmentKeys (field keyset "commitment_keys") = Some ds ->
  exists current,
    List.filter (fun d => beq (cmPurpose d) (str "TOPIC") && sameEpoch (cmTopicKeyEpoch d) (Some (TopicEpoch issued))) ds
      = [current] /\
    within issued (cmNotBefore current) (cmNotAfter current) = true /\
    forall next, next ∈ ds -> cmPurpose next = str "TOPIC" -> cmTopicKeyEpoch next = Some (next_epoch (TopicEpoch issued)) ->
      next_epoch (TopicEpoch issued) <> TopicEpoch issued ->
      List.filter (fun d => beq (cmPurpose d) (str "TOPIC") &&
                            sameEpoch (cmTopicKeyEpoch d) (Some (next_epoch (TopicEpoch issued)))) ds = [next] /\
      cmNotBefore next = TopicEpochBoundary (next_epoch (TopicEpoch issued)) /\
      TopicEpochBoundary (next_epoch (TopicEpoch issued)) + 60 * second <= cmNotAfter current.
Proof.
  unfold ValidateTopicKeySchedule. intros H Hi Hd. rewrite Hi, Hd in H. destruct (_ || _) in H; [done|].
  destruct (topic_schedule_ok _ _) eqn:E; [clear H|done]. unfold topic_schedule_ok in E.
  destruct (negb _) in E; [done|]. rewrite !filter_filter in E.
  set (e := TopicEpoch issued) in *.
  destruct (List.filter (fun x => beq _ _ && bool_decide (cmTopicKeyEpoch x = Some e)) ds) as [|current [|]] eqn:Ec;
    try done.
  destruct (negb (within _ _ _)) eqn:Ew; [done|]. apply negb_false_iff in Ew.
  exists current. split; [exact Ec|]. split; [done|]. intros next Hin Hp He Hne.
  set (boundary := TopicEpochBoundary (next_epoch e)).
  assert (Hno : next ∈ List.filter (fun x => beq (cmPurpose x) (str "TOPIC") &&
      negb (bool_decide (cmTopicKeyEpoch x = Some e))) ds).
  { apply list_elem_of_In, filter_In. split; [by apply list_elem_of_In|].
    rewrite Hp, beq_refl, He, bool_decide_false by congruence. done. }
  destruct (List.filter (fun x => _ && negb _) ds) as [|adjacent [|]] eqn:Eo; [by apply elem_of_nil in Hno| |done].
  apply list_elem_of_singleton in Hno as <-. rewrite He in E. cbn [default] in E. unfold adjacent_ok in E.
  cbn in E. rewrite Z.eqb_refl in E. fold boundary in E. unfold before in E. boolprop. split; [|by split].
  assert (Hf : forall l, List.filter (fun d => beq (cmPurpose d) (str "TOPIC") && sameEpoch (cmTopicKeyEpoch d) (Some (next_epoch e))) l =
    List.filter (fun d => sameEpoch (cmTopicKeyEpoch d) (Some (next_epoch e)))
      (List.filter (fun x => beq (cmPurpose x) (str "TOPIC") && negb (bool_decide (cmTopicKeyEpoch x = Some e))) l)).
  { intros l. rewrite filter_filter. apply filter_ext. intros d. destruct (beq _ _); [cbn|done].
    unfold sameEpoch. destruct (decide (cmTopicKeyEpoch d = Some (next_epoch e))) as [Hx|Hx].
    - rewrite Hx. destruct (bool_decide (Some (next_epoch e) = Some e)) eqn:Eq; [|done]. boolprop. congruence.
    - rewrite (bool_decide_false _ Hx). by rewrite andb_false_r. }
  rewrite Hf, Eo. cbn [List.filter]. unfold sameEpoch. by rewrite He, bool_decide_true.
Qed.

(** an eligible topic schedule hands the key over without a gap: at the issue time the
    current key issues; in the first minute of the next period the next key issues, while
    the current key still verifies and no longer issues. *)
Theorem topic_handoff (keyset : object) (issued t : Z) (ds : list CommitmentKey) (next : CommitmentKey)
    (Hsched : ValidateTopicKeySchedule keyset = Eligible)
    (Hissued : parseWireTime (objectString keyset "issued_at") = Some issued)
    (Hds : parseCommitmentKeys (field keyset "commitment_keys") = Some ds)
    (Hrange : 0 <= issued < TopicEpochBoundary (2 ^ 32 - 1))
    (Hnext : next ∈ ds) (Hpurpose : cmPurpose next = str "TOPIC")
    (Hepoch : cmTopicKeyEpoch next = Some (TopicEpoch issued + 1))
    (Ht : TopicEpochBoundary (TopicEpoch issued + 1) <= t < TopicEpochBoundary (TopicEpoch issued + 1) + 60 * second)
    (Hlive : t < cmNotAfter next) :
  exists current, current ∈ ds /\
    CommitmentKeyAt keyset "TOPIC" (Some (TopicEpoch issued)) issued true = Ok current /\
    CommitmentKeyAt keyset "TOPIC" (Some (TopicEpoch issued + 1)) t true = Ok next /\
    CommitmentKeyAt keyset "TOPIC" (Some (TopicEpoch issued)) t false = Ok current /\
    CommitmentKeyAt keyset "TOPIC" (Some (TopicEpoch issued)) t true = Err (Invalid "TOPIC_KEY_EPOCH").
Proof.
  destruct (topic_schedule_parts _ _ _ Hsched Hissued Hds) as (current & Hc & Hw & Hn).
  set (e := TopicEpoch issued) in *.
  destruct (epoch_of_instant issued Hrange) as [He Hb]. fold e in He, Hb.
  assert (next_epoch e = e + 1) as Hsucc by (unfold next_epoch; apply Z.mod_small; lia).
  rewrite Hsucc in Hn. destruct (Hn next Hnext Hpurpose Hepoch ltac:(lia)) as (Hf & Hnb & Hna).
  assert (Ete : TopicEpoch t = e + 1).
  { apply TopicEpoch_within; [lia|]. unfold TopicEpochBoundary, topicPeriodSeconds, second in *. lia. }
  exists current. rewrite !(CommitmentKeyAt_sole keyset ds current e _ _ Hds Hc), (CommitmentKeyAt_sole keyset ds next (e + 1) _ _ Hds Hf).
  unfold TopicEpochUsable. fold e. rewrite Ete, !Z.eqb_refl, Hw. unfold within, before in *. boolprop.
  rewrite (proj2 (Z.eqb_neq e (e + 1))) by lia. rewrite (proj2 (Z.eqb_neq (e + 1) 0)) by lia.
  replace ((e + 1 - 1) mod 2 ^ 32) with e by (rewrite Z.mod_small; lia).
  rewrite Z.eqb_refl, Hnb. compare_lia. cbn. split_and!; try done.
  assert (Hin : In current [current]) by (by left). rewrite <- Hc in Hin.
  apply filter_In in Hin as [Hin _]. by apply list_elem_of_In.
Qed.
