(* ===== verification/A9Verify.v ===== *)
(** * Verifying assertions, controls and watermarks

    src/pkg/a9trust/signed.go (ValidateAssertion), control.go and watermark.go: from the raw
    bytes of a signed object and the trusted keyset to the projection the vault applies. *)

From S2P Require Import Prelude GoBytes GoTime GoCrypto JsonText Jcs A9Schema A9Types A9Trust A9Keyset.
Local Open Scope Z_scope.
Local Open Scope go_scope.

(** ** Steps of a verification *)

Definition demand (c : bool) (v : Verdict) : judged unit := if c then Ok tt else Err v.

Definition require_eligible (v : Verdict) : judged unit := if IsEligible v then Ok tt else Err v.

Definition max_uint32 : Z := 4294967295.
Definition max_int32 : Z := 2147483647.

Definition decodeFixed16 (value : bytes) : option bytes := DecodeBase64URL value 16.
Definition decodeFixed32 (value : bytes) : option bytes := DecodeBase64URL value 32.

Definition decodeKeyID (value : bytes) (prefix : string) : option bytes :=
  let p := str prefix in
  bail negb (length value =? length p + 64)%nat || negb (has_prefix value p) with None;;
  decoded ← hex_decode (drop (length p) value);
  bail negb (length decoded =? 32)%nat with None;;
  Some decoded.

(** A byte-array member of an object. *)
Definition fixed_member (decode : bytes -> option bytes) (o : object) (name : string) : judged bytes :=
  judge (Invalid "NONCANONICAL_BASE64URL") (decode (objectString o name)).

Definition key_member (o : object) (name prefix : string) : judged bytes :=
  judge (Invalid "FIELD_DOMAIN") (decodeKeyID (objectString o name) prefix).

(** A number member of at most [maximum]. *)
Definition bounded_member (o : object) (name : string) (maximum : Z) : judged Z :=
  match positiveInteger (field o name) with
  | Ok n => reject maximum <? n with Invalid "INTEGER_RANGE";; Ok n
  | Err _ => Err (Invalid "INTEGER_RANGE")
  end.

(** The issue and expiry instants, at most 30 seconds apart. *)
Definition wire_window (o : object) : judged (Z * Z) :=
  issued ← judge (Invalid "NONCANONICAL_TIME") (parseWireTime (objectString o "issued_at"));
  expires ← judge (Invalid "NONCANONICAL_TIME") (parseWireTime (objectString o "expires_at"));
  reject negb (after expires issued) || (30 * second <? time_sub expires issued) with Invalid "FIELD_DOMAIN";;
  Ok (issued, expires).

Definition verifyLiveWindow (o : object) (evaluationTime : Z) (expiredReason : string) : judged (Z * Z) :=
  '(issued, expires) ← wire_window o;
  reject is_zero evaluationTime || before evaluationTime issued with Inconclusive "CLOCK_UNCERTAIN";;
  reject negb (before evaluationTime expires) with
    (if String.eqb expiredReason "WATERMARK_EXPIRED" then Inconclusive expiredReason else Invalid expiredReason);;
  Ok (issued, expires).

(** ** Assertions *)

Record AssertionExpectations := {
  aeEnvironment : bytes;
  aeInstallationBindingID : bytes;
  aeRosterCommitment : bytes;
  aeTupleCommitment : bytes;
  aeTopicBinding : bytes;
  aeTopicKeyEpoch : Z;
  aeEvaluationTime : Z;
  aeKeyset : option object;
}.

Definition commitmentKeyCoversWindow (key : CommitmentKey) (issued evaluationTime expires : Z) : bool :=
  within issued (cmNotBefore key) (cmNotAfter key) && within evaluationTime (cmNotBefore key) (cmNotAfter key) &&
  negb (before (cmNotAfter key) expires).

Definition covering (r : judged CommitmentKey) (issued evaluationTime expires : Z) : judged CommitmentKey :=
  match r with
  | Ok key =>
      reject negb (commitmentKeyCoversWindow key issued evaluationTime expires) with Inconclusive "KEY_STATE";; Ok key
  | Err _ => Err (Inconclusive "KEY_STATE")
  end.

Definition commitmentKeyByIDForWindow (keyset : object) (purpose : string) (keyID : bytes) (topicEpoch : option Z)
    (issued evaluationTime expires : Z) : judged CommitmentKey :=
  covering (commitmentKeyByIDAt keyset purpose keyID topicEpoch issued) issued evaluationTime expires.

Definition commitmentKeyForWindow (keyset : object) (purpose : string) (topicEpoch : option Z)
    (issued evaluationTime expires : Z) : judged CommitmentKey :=
  covering (CommitmentKeyAt keyset purpose topicEpoch issued true) issued evaluationTime expires.

Fixpoint each {A : Type} (l : list A) (check : A -> judged unit) : judged unit :=
  match l with
  | [] => Ok tt
  | x :: l => _ ← check x; each l check
  end.

(** The members of an assertion and their fixed values. *)
Definition assertion_identity (o : object) (environment : bytes) : judged unit :=
  reject bool_decide (is_Some (get o (str "roster_digest"))) with Invalid "UNKNOWN_FIELD_RAW_ROSTER_FORBIDDEN";;
  reject negb (length o =? length assertionFields)%nat with Invalid "FIELD_DOMAIN";;
  reject negb (forallb (fun kv => existsb (fun name => beq kv.1 (str name)) assertionFields) o)
    with Invalid "FIELD_DOMAIN";;
  reject negb (beq (objectString o "protocol") (str "hytch.a9-bridge-assertion")) ||
         negb (objectIntegerEquals o "schema_version" 1) || negb (beq (objectString o "state") (str "ACTIVE")) ||
         negb (beq (objectString o "signature_algorithm") (str "Ed25519")) with Invalid "FIELD_DOMAIN";;
  reject negb (beq (objectString o "audience") (str "hytch.xmtp-push-bridge.a9-control")) with Invalid "WRONG_AUDIENCE";;
  reject negb (beq (objectString o "purpose") (str "conversation_message_push")) with
    (if contains (to_lower (objectString o "purpose")) (str "welcome") then Invalid "WELCOME_CLOSED"
     else Invalid "FIELD_DOMAIN");;
  reject negb (beq (objectString o "environment") (str "dev")) &&
         negb (beq (objectString o "environment") (str "production")) with Invalid "FIELD_DOMAIN";;
  reject negb (beq environment []) && negb (beq (objectString o "environment") environment) with Invalid "FIELD_DOMAIN";;
  Ok tt.

Definition assertion_integers : list (string * Z) := [
  ("binding_version"%string, maxIJSONInteger); ("stream_sequence"%string, maxIJSONInteger);
  ("topic_key_epoch"%string, max_uint32); ("conversation_generation"%string, max_int32);
  ("roster_version"%string, max_int32)].

Definition assertion_bytes : list (string * nat) := [
  ("binding_id"%string, 16%nat); ("installation_binding_id"%string, 16%nat); ("lease_id"%string, 16%nat);
  ("tuple_commitment"%string, 32%nat); ("roster_commitment"%string, 32%nat); ("topic_binding"%string, 32%nat);
  ("signature_base64url"%string, 64%nat)].

Definition assertion_key_ids : list (string * string) := [
  ("signing_key_id", "ed25519-sha256:"); ("tuple_commitment_key_id", "hmac-sha256:");
  ("roster_commitment_key_id", "hmac-sha256:")]%string.

Definition assertion_domains (o : object) : judged unit :=
  _ ← each assertion_integers (fun f =>
        n ← positiveInteger (field o f.1); reject f.2 <? n with Invalid "INTEGER_RANGE";; Ok tt);
  _ ← each assertion_bytes (fun f =>
        match get o (str f.1) with
        | Some (JString value) =>
            demand (bool_decide (is_Some (DecodeBase64URL value f.2))) (Invalid "NONCANONICAL_BASE64URL")
        | _ => Err (Invalid "FIELD_DOMAIN")
        end);
  each assertion_key_ids (fun f => demand (key_id_shape f.2 (objectString o f.1)) (Invalid "FIELD_DOMAIN")).

(** A member compared with what is expected, when something is. *)
Definition agrees (o : object) (name : string) (expected : bytes) (reason : string) : judged unit :=
  demand (beq expected [] || beq (objectString o name) expected) (Invalid reason).

Definition assertion_agrees (o : object) (expected : AssertionExpectations) (issued : Z) : judged Z :=
  _ ← agrees o "installation_binding_id" (aeInstallationBindingID expected) "INSTALLATION_MISMATCH";
  _ ← agrees o "roster_commitment" (aeRosterCommitment expected) "ROSTER_COMMITMENT_MISMATCH";
  _ ← agrees o "tuple_commitment" (aeTupleCommitment expected) "TUPLE_COMMITMENT_MISMATCH";
  _ ← agrees o "topic_binding" (aeTopicBinding expected) "TOPIC_BINDING_MISMATCH";
  let topicEpoch := match positiveInteger (field o "topic_key_epoch") with Ok n => n | Err _ => 0 end in
  reject negb (aeTopicKeyEpoch expected =? 0) && negb (topicEpoch =? aeTopicKeyEpoch expected)
    with Invalid "TOPIC_KEY_EPOCH";;
  reject negb (topicEpoch =? TopicEpoch issued) with Invalid "TOPIC_KEY_EPOCH";;
  Ok topicEpoch.

Section Verify.
Context `{Ed25519}.
Context `{MapRange}.

Definition assertion_keys (o keyset : object) (issued evaluationTime expires topicEpoch : Z) : judged unit :=
  publicKey ← OnlineKeyAt keyset (objectString o "signing_key_id") "A9_CONTROL" issued;
  _ ← require_eligible (VerifyObject o "signature_base64url" AssertionSignatureDomain publicKey);
  _ ← commitmentKeyByIDForWindow keyset "ROSTER" (objectString o "roster_commitment_key_id") None
        issued evaluationTime expires;
  _ ← commitmentKeyByIDForWindow keyset "TUPLE" (objectString o "tuple_commitment_key_id") None
        issued evaluationTime expires;
  _ ← commitmentKeyForWindow keyset "TOPIC" (Some topicEpoch) issued evaluationTime expires;
  Ok tt.

Definition ValidateAssertion (o : object) (expected : AssertionExpectations) : judged unit :=
  _ ← assertion_identity o (aeEnvironment expected);
  _ ← assertion_domains o;
  '(issued, expires) ← verifyLiveWindow o (aeEvaluationTime expected) "EXPIRED";
  topicEpoch ← assertion_agrees o expected issued;
  match aeKeyset expected with
  | None => Err (Invalid "KEY_STATE")
  | Some keyset => assertion_keys o keyset issued (aeEvaluationTime expected) expires topicEpoch
  end.

(** ** Controls *)

(** [ControlExpectations] and [WatermarkExpectations], which have the same fields. *)
Record ControlExpectations := {
  ceEnvironment : bytes;
  ceEvaluationTime : Z;
  ceKeyset : option object;
}.

(** The sequence and digest of a valid keyset of the environment. *)
Definition keysetProvenance (keyset : option object) (environment : bytes) : judged (object * Z * bytes) :=
  match keyset with
  | None => Err (Invalid "KEY_STATE")
  | Some keyset =>
      reject negb (is_ok (Validate KeysetKind (JObject keyset))) ||
             negb (beq (objectString keyset "environment") environment) with Invalid "KEY_STATE";;
      match positiveInteger (field keyset "keyset_sequence"), canonicalDigest keyset with
      | Ok sequence, Some hash => Ok (keyset, sequence, hash)
      | _, _ => Err (Invalid "KEY_STATE")
      end
  end.

(** A sequence number that is the successor of its predecessor. *)
Definition successor_members (o : object) (name previous : string) : judged (Z * Z) :=
  n ← positiveInteger (field o name);
  p ← nonnegativeInteger (field o previous);
  reject p =? maxIJSONInteger with Invalid "INTEGER_RANGE";;
  reject negb (n =? p + 1) with Invalid "FIELD_DOMAIN";;
  Ok (n, p).

(** The signature of an object by an online key, and the key's identifier. *)
Definition signed_by (o keyset : object) (issued : Z) (domain : bytes) : judged bytes :=
  signingKeyID ← key_member o "signing_key_id" "ed25519-sha256:";
  publicKey ← OnlineKeyAt keyset (objectString o "signing_key_id") "A9_CONTROL" issued;
  _ ← require_eligible (VerifyObject o "signature_base64url" domain publicKey);
  Ok signingKeyID.

(** The embedded assertion says what the control says. *)
Definition assertion_matches (assertion control : object) (bindingVersion streamSequence : Z) : judged unit :=
  let same name := beq (objectString assertion name) (objectString control name) in
  _ ← demand (same "environment"%string) (Invalid "FIELD_DOMAIN");
  _ ← demand (same "installation_binding_id"%string) (Invalid "INSTALLATION_MISMATCH");
  _ ← demand (same "binding_id"%string) (Invalid "FIELD_DOMAIN");
  let number name n := match positiveInteger (field assertion name) with Ok m => m =? n | Err _ => false end in
  _ ← demand (number "binding_version"%string bindingVersion) (Invalid "FIELD_DOMAIN");
  demand (number "stream_sequence"%string streamSequence) (Invalid "FIELD_DOMAIN").

Definition verifyEmbeddedAssertion (assertion control : object) (expected : ControlExpectations)
    (keyset : object) (sequencerEpoch : bytes) (keysetSequence : Z) (keysetHash : bytes)
    (controlBindingVersion controlStreamSequence : Z) : judged VerifiedAssertion :=
  '(issued, expires) ← verifyLiveWindow assertion (ceEvaluationTime expected) "EXPIRED";
  _ ← ValidateAssertion assertion {|
        aeEnvironment := ceEnvironment expected;
        aeInstallationBindingID := objectString control "installation_binding_id";
        aeRosterCommitment := []; aeTupleCommitment := []; aeTopicBinding := []; aeTopicKeyEpoch := 0;
        aeEvaluationTime := ceEvaluationTime expected; aeKeyset := Some keyset |};
  _ ← assertion_matches assertion control controlBindingVersion controlStreamSequence;
  hash ← judge (Invalid "FIELD_DOMAIN") (canonicalDigest assertion);
  _ ← demand (bool_decide (decodeFixed32 (objectString control "assertion_hash") = Some hash))
        (Invalid "ASSERTION_HASH_MISMATCH");
  topicEpoch ← bounded_member assertion "topic_key_epoch" max_uint32;
  _ ← commitmentKeyByIDAt keyset "ROSTER" (objectString assertion "roster_commitment_key_id") None issued;
  _ ← commitmentKeyByIDAt keyset "TUPLE" (objectString assertion "tuple_commitment_key_id") None issued;
  topicKey ← CommitmentKeyAt keyset "TOPIC" (Some topicEpoch) issued true;
  installationBindingID ← fixed_member decodeFixed16 assertion "installation_binding_id";
  bindingID ← fixed_member decodeFixed16 assertion "binding_id";
  leaseID ← fixed_member decodeFixed16 assertion "lease_id";
  tupleCommitment ← fixed_member decodeFixed32 assertion "tuple_commitment";
  rosterCommitment ← fixed_member decodeFixed32 assertion "roster_commitment";
  topicBinding ← fixed_member decodeFixed32 assertion "topic_binding";
  tupleKeyID ← key_member assertion "tuple_commitment_key_id" "hmac-sha256:";
  rosterKeyID ← key_member assertion "roster_commitment_key_id" "hmac-sha256:";
  topicKeyID ← judge (Invalid "KEY_STATE") (decodeKeyID (cmKeyID topicKey) "hmac-sha256:");
  signingKeyID ← key_member assertion "signing_key_id" "ed25519-sha256:";
  conversationGeneration ← bounded_member assertion "conversation_generation" max_int32;
  rosterVersion ← bounded_member assertion "roster_version" max_int32;
  Ok {| vaHash := hash; vaInstallationBindingID := installationBindingID; vaSequencerEpoch := sequencerEpoch;
        vaStreamSequence := controlStreamSequence; vaBindingID := bindingID;
        vaBindingVersion := controlBindingVersion; vaLeaseID := leaseID; vaTupleCommitment := tupleCommitment;
        vaTupleCommitmentKeyID := tupleKeyID; vaRosterCommitment := rosterCommitment;
        vaRosterCommitmentKeyID := rosterKeyID; vaTopicBinding := topicBinding; vaTopicKeyEpoch := topicEpoch;
        vaTopicCommitmentKeyID := topicKeyID; vaConversationGeneration := conversationGeneration;
        vaRosterVersion := rosterVersion; vaIssuedAt := issued; vaExpiresAt := expires;
        vaSigningKeyID := signingKeyID; vaKeysetSequence := keysetSequence; vaKeysetHash := keysetHash |}.

Definition control_reason (o : object) : judged Z :=
  let code := objectString o "reason_code" in
  if beq code (str "authority_revoked") then Ok 1
  else if beq code (str "authority_expired") then Ok 2
  else if beq code (str "authority_replaced") then Ok 3
  else Err (Invalid "FIELD_DOMAIN").

(** What the action of a control carries: its number, reason and assertion. *)
Definition control_action (o : object) (expected : ControlExpectations) (keyset : object) (sequencerEpoch : bytes)
    (keysetSequence : Z) (keysetHash : bytes) (bindingVersion streamSequence : Z) (assertionHash : bytes)
  : judged (Z * Z * option VerifiedAssertion) :=
  let action := objectString o "action" in
  if beq action (str "UPSERT") then
    match field o "assertion" with
    | JObject assertionObject =>
        reject negb (is_null (field o "reason_code")) with Invalid "FIELD_DOMAIN";;
        assertion ← verifyEmbeddedAssertion assertionObject o expected keyset sequencerEpoch keysetSequence
                      keysetHash bindingVersion streamSequence;
        reject negb (beq (vaHash assertion) assertionHash) with Invalid "ASSERTION_HASH_MISMATCH";;
        Ok (ControlActionUpsert, ControlReasonNone, Some assertion)
    | _ => Err (Invalid "FIELD_DOMAIN")
    end
  else if beq action (str "REVOKE") then
    reject negb (is_null (field o "assertion")) with Invalid "FIELD_DOMAIN";;
    reason ← control_reason o;
    Ok (ControlActionRevoke, reason, None)
  else Err (Invalid "FIELD_DOMAIN").

(** The trusted environment, and the object's. *)
Definition environment_agrees (o : object) (environment : bytes) : judged unit :=
  reject negb (beq environment (str "dev")) && negb (beq environment (str "production"))
    with Inconclusive "KEY_STATE";;
  reject negb (beq (objectString o "environment") environment) with Invalid "FIELD_DOMAIN";; Ok tt.

Definition verifyControlObject (o : object) (expected : ControlExpectations) : judged VerifiedControl :=
  _ ← environment_agrees o (ceEnvironment expected);
  '(issued, expires) ← verifyLiveWindow o (ceEvaluationTime expected) "EXPIRED";
  '(streamSequence, expectedPrevious) ← successor_members o "stream_sequence" "expected_previous_sequence";
  '(bindingVersion, expectedBinding) ← successor_members o "binding_version" "expected_binding_version";
  '(keyset, keysetSequence, keysetHash) ← keysetProvenance (ceKeyset expected) (ceEnvironment expected);
  signingKeyID ← signed_by o keyset issued ControlSignatureDomain;
  signedObjectHash ← judge (Invalid "FIELD_DOMAIN") (canonicalDigest o);
  installationBindingID ← fixed_member decodeFixed16 o "installation_binding_id";
  sequencerEpoch ← fixed_member decodeFixed16 o "sequencer_epoch";
  bindingID ← fixed_member decodeFixed16 o "binding_id";
  assertionHash ← fixed_member decodeFixed32 o "assertion_hash";
  '(action, reason, assertion) ← control_action o expected keyset sequencerEpoch keysetSequence keysetHash
                                   bindingVersion streamSequence assertionHash;
  Ok {| vcEnvironment := ceEnvironment expected; vcIdempotencyKey := objectString o "idempotency_key";
        vcInstallationBindingID := installationBindingID; vcSequencerEpoch := sequencerEpoch;
        vcStreamSequence := streamSequence; vcExpectedPreviousSequence := expectedPrevious;
        vcBindingID := bindingID; vcBindingVersion := bindingVersion; vcExpectedBindingVersion := expectedBinding;
        vcAction := action; vcAssertionHash := assertionHash; vcReason := reason; vcIssuedAt := issued;
        vcExpiresAt := expires; vcSigningKeyID := signingKeyID; vcSignedObjectHash := signedObjectHash;
        vcKeysetSequence := keysetSequence; vcKeysetHash := keysetHash; vcAssertion := assertion |}.

Definition canonicalWireObject (raw : bytes) (o : object) : bool :=
  match Canonicalize (JObject o) with Ok canonical => beq canonical raw | Err _ => false end.

Definition verdictForSchemaError (reason : Reason) : Verdict := Invalid (reason_text reason).

(** Decoding a signed object: its schema, then its one canonical spelling. *)
Definition decode_wire (kind : Kind) (raw : bytes) : judged object :=
  match Decode kind raw with
  | Err reason => Err (verdictForSchemaError reason)
  | Ok o => reject negb (canonicalWireObject raw o) with Invalid "FIELD_DOMAIN";; Ok o
  end.

Definition VerifyControl (raw : bytes) (expected : ControlExpectations) : judged VerifiedControl :=
  o ← decode_wire ControlEventKind raw;
  verifyControlObject o expected.

(** ** Watermarks *)

(** Status, reason, and the verdict that goes with them. *)
Definition watermark_status (o : object) : judged (Z * Z * Verdict) :=
  let status := objectString o "status" in
  let reason := objectString o "uncertainty_reason" in
  if beq status (str "CURRENT") then
    reject negb (beq reason (str "NONE")) with Invalid "FIELD_DOMAIN";;
    Ok (WatermarkStatusCurrent, WatermarkUncertaintyNone, Eligible)
  else if beq status (str "UNCERTAIN") then
    let uncertain n text := Ok (WatermarkStatusUncertain, n, Inconclusive text) in
    if beq reason (str "SOURCE_UNAVAILABLE") then uncertain 1 "SOURCE_UNAVAILABLE"%string
    else if beq reason (str "OUTBOX_GAP") then uncertain 2 "OUTBOX_GAP"%string
    else if beq reason (str "REPLICA_AMBIGUITY") then uncertain 3 "REPLICA_AMBIGUITY"%string
    else if beq reason (str "OVERFLOW") then uncertain 4 "OVERFLOW"%string
    else if beq reason (str "CLOCK_UNCERTAIN") then uncertain 5 "CLOCK_UNCERTAIN"%string
    else Err (Invalid "FIELD_DOMAIN")
  else Err (Invalid "FIELD_DOMAIN").

(** A populated projection comes with its verdict, which is not [Eligible] for a signed
    UNCERTAIN watermark. *)
Definition verifyWatermarkObject (o : object) (expected : ControlExpectations) : judged (VerifiedWatermark * Verdict) :=
  _ ← environment_agrees o (ceEnvironment expected);
  '(issued, expires) ← verifyLiveWindow o (ceEvaluationTime expected) "WATERMARK_EXPIRED";
  watermarkSequence ← positiveInteger (field o "watermark_sequence");
  committedThrough ← nonnegativeInteger (field o "committed_through_stream_sequence");
  '(keyset, keysetSequence, keysetHash) ← keysetProvenance (ceKeyset expected) (ceEnvironment expected);
  signingKeyID ← signed_by o keyset issued WatermarkSignatureDomain;
  signedObjectHash ← judge (Invalid "FIELD_DOMAIN") (canonicalDigest o);
  installationBindingID ← fixed_member decodeFixed16 o "installation_binding_id";
  sequencerEpoch ← fixed_member decodeFixed16 o "sequencer_epoch";
  '(status, reason, verdict) ← watermark_status o;
  Ok ({| vwEnvironment := ceEnvironment expected; vwInstallationBindingID := installationBindingID;
         vwSequencerEpoch := sequencerEpoch; vwWatermarkSequence := watermarkSequence;
         vwCommittedThroughStreamSequence := committedThrough; vwStatus := status; vwUncertaintyReason := reason;
         vwIssuedAt := issued; vwExpiresAt := expires; vwSigningKeyID := signingKeyID;
         vwSignedObjectHash := signedObjectHash; vwKeysetSequence := keysetSequence;
         vwKeysetHash := keysetHash |}, verdict).

Definition VerifyWatermark (raw : bytes) (expected : ControlExpectations) : judged (VerifiedWatermark * Verdict) :=
  o ← decode_wire WatermarkKind raw;
  verifyWatermarkObject o expected.

End Verify.

(** ** What an accepted object is *)

Lemma demand_ok c v x : demand c v = Ok x <-> c = true.
Proof. unfold demand. destruct c, x; naive_solver. Qed.

Lemma require_eligible_ok v x : require_eligible v = Ok x <-> IsEligible v = true.
Proof. unfold require_eligible. destruct (IsEligible v), x; naive_solver. Qed.

Lemma nonnegativeInteger_range v n : nonnegativeInteger v = Ok n -> well_formed v -> 0 <= n <= maxIJSONInteger.
Proof.
  unfold nonnegativeInteger. intros H Hw. destruct v; try done.
  - destruct (_ || _) in H; [done|]. destruct (parse_uint64 raw) as [m|] eqn:Ep; [|done].
    apply reject_ok in H as [Hm [= <-]]. apply parse_uint64_range in Ep. boolprop. lia.
  - apply reject_ok in H as [Hm [= <-]]. boolprop. lia.
  - apply reject_ok in H as [Hm [= <-]]. cbn in Hw. boolprop. lia.
Qed.

Section Accepted.
Context {HE : Ed25519} {HR : MapRange}.

(** The issue and expiry instants of an accepted object. *)
Definition live (issued evaluationTime expires : Z) : Prop :=
  evaluationTime <> zero_time /\ issued <= evaluationTime < expires /\ expires <= issued + 30 * second.

Lemma verifyLiveWindow_ok o t reason issued expires :
  verifyLiveWindow o t reason = Ok (issued, expires) ->
  parseWireTime (objectString o "issued_at") = Some issued /\
  parseWireTime (objectString o "expires_at") = Some expires /\ live issued t expires.
Proof.
  unfold verifyLiveWindow. intros Hv. step_in Hv. unfold wire_window in E. steps_in E. steps_in Hv.
  apply judge_ok in E0, E1. injection E as <- <-. injection Hv as <- <-.
  unfold live, is_zero, before, after in *.
  match goal with H : context [time_sub _ _] |- _ => rewrite time_sub_gt in H by done end. boolprop.
  split_and!; try done; lia.
Qed.

Lemma field_wire o name : wire (JObject o) -> wire (field o name).
Proof.
  rewrite wire_object. intros [_ Ho]. unfold field.
  assert (H : forall m, Forall (fun kv => wire kv.2) m -> forall v, get m (str name) = Some v -> wire v).
  { induction 1 as [|[k w] m Hw _ IH]; intros v; cbn [get]; [done|]. destruct (beq _ _); [by intros [= <-]|apply IH]. }
  destruct (get o (str name)) as [v|] eqn:E; [by eapply H|done].
Qed.

(** An accepted text is the one canonical spelling of a valid object. *)
Lemma decode_wire_ok kind raw o : decode_wire kind raw = Ok o ->
  Validate kind (JObject o) = Ok tt /\ Canonicalize (JObject o) = Ok raw /\ wire (JObject o).
Proof.
  unfold decode_wire. destruct (Decode kind raw) as [o'|] eqn:E; [|done]. intros [Hc [= ->]]%reject_ok.
  apply Decode_ok in E as [Hp Hv]. split; [done|]. unfold canonicalWireObject in Hc.
  destruct (Canonicalize (JObject o)) as [t|]; [|done]. apply negb_false_iff, beq_true in Hc as ->.
  split; [done|]. by eapply ParseStrictJSON_wire, Parse_strict.
Qed.

Lemma decodeFixed_length n v b : DecodeBase64URL v n = Some b -> length b = n.
Proof. by intros (_ & ? & _)%DecodeBase64URL_some. Qed.

Lemma decodeKeyID_length v p b : decodeKeyID v p = Some b -> length b = 32%nat.
Proof.
  unfold decodeKeyID. destruct (_ || _); [done|]. destruct (hex_decode _) as [d|]; [|done]. cbn.
  destruct (length d =? 32)%nat eqn:E; [|done]. intros [= <-]. by boolprop.
Qed.

(** What a signature by an online key of the keyset is. *)
Definition signed_online (o keyset : object) (issued : Z) (domain : bytes) : Prop :=
  exists publicKey signature unsigned,
    OnlineKeyAt keyset (objectString o "signing_key_id") "A9_CONTROL" issued = Ok publicKey /\
    get o (str "signature_base64url") = Some (JString (b64_encode signature)) /\
    Canonicalize (JObject (drop_member (str "signature_base64url") o)) = Ok unsigned /\
    ed25519_verify publicKey (domain ++ unsigned) signature = true.

Lemma IsEligible_true o name domain pk :
  IsEligible (VerifyObject o name domain pk) = true -> VerifyObject o name domain pk = Eligible.
Proof.
  unfold VerifyObject. repeat match goal with |- context [match ?x with _ => _ end] => destruct x end; done.
Qed.

Lemma signed_by_ok o keyset issued domain id : signed_by o keyset issued domain = Ok id ->
  signed_online o keyset issued domain /\ decodeKeyID (objectString o "signing_key_id") "ed25519-sha256:" = Some id.
Proof.
  unfold signed_by. intros Hs. steps_in Hs. injection Hs as <-. apply judge_ok in E. split; [|done].
  apply require_eligible_ok, IsEligible_true, VerifyObject_eligible in E1 as (signature & canonical & _ & _ & Hg & Hc & Hv).
  by exists x0, signature, canonical.
Qed.

Lemma closedObject_object m required o : closedObject (JObject m) required = Ok o -> o = m.
Proof. unfold closedObject. intros Hc. apply bind_ok in Hc as (? & _ & Hc). by apply bind_ok in Hc as (? & _ & [= ->]). Qed.

Lemma integerField_number o name lo hi n : integerField o name lo hi = Ok n -> exists raw, field o name = JNumber raw.
Proof. unfold integerField. destruct (field o name); try done. intros _. by eexists. Qed.

Lemma valid_keyset_sequence k : Validate KeysetKind (JObject k) = Ok tt -> exists raw, field k "keyset_sequence" = JNumber raw.
Proof.
  cbn [Validate]. unfold validateKeyset. intros Hv. apply bind_ok in Hv as (o & Ho & Hv).
  apply closedObject_object in Ho as ->. do 3 (apply bind_ok in Hv as (? & _ & Hv)).
  apply bind_ok in Hv as (n & Hn & _). by eapply integerField_number.
Qed.

Lemma valid_control_key o : Validate ControlEventKind (JObject o) = Ok tt -> objectString o "idempotency_key" <> [].
Proof.
  cbn [Validate]. unfold validateControl. intros Hv. apply bind_ok in Hv as (o' & Ho & Hv).
  apply closedObject_object in Ho as ->. do 4 (apply bind_ok in Hv as (? & _ & Hv)).
  apply bind_ok in Hv as ([] & Hu & _). unfold uuidField in Hu. apply bind_ok in Hu as (s & Hs & Hu).
  apply reject_ok in Hu as [Hl _]. boolprop. unfold stringField, field in Hs. unfold objectString.
  destruct (get o _) as [v|]; [|done]. destruct v; try done. injection Hs as ->. by intros ->.
Qed.

Lemma positive_of_number v n : positiveInteger v = Ok n -> (exists raw, v = JNumber raw) -> 1 <= n <= maxIJSONInteger.
Proof.
  intros Hp [raw ->]. unfold positiveInteger in Hp. apply bind_ok in Hp as (m & Hm & Hp).
  apply nonnegativeInteger_range in Hm; [|done]. apply reject_ok in Hp as [Hz [= <-]]. boolprop. lia.
Qed.

Lemma keysetProvenance_ok keyset environment k n h : keysetProvenance keyset environment = Ok (k, n, h) ->
  keyset = Some k /\ Validate KeysetKind (JObject k) = Ok tt /\ objectString k "environment" = environment /\
  1 <= n <= maxIJSONInteger /\ canonicalDigest k = Some h.
Proof.
  unfold keysetProvenance. destruct keyset as [k'|]; [|done]. intros [Hv H]%reject_ok.
  destruct (positiveInteger _) eqn:Ep in H; [|done]. destruct (canonicalDigest k') eqn:Ed; [|done].
  injection H as -> -> ->. boolprop.
  assert (Hval : Validate KeysetKind (JObject k) = Ok tt).
  { destruct (Validate KeysetKind (JObject k)) as [[]|]; done. }
  apply valid_keyset_sequence in Hval as Hs. eapply positive_of_number in Ep; [|exact Hs].
  split_and!; try done; try lia. by apply beq_true.
Qed.

Lemma successor_ok o name previous n p : successor_members o name previous = Ok (n, p) -> wire (JObject o) ->
  positiveInteger (field o name) = Ok n /\ 0 <= p < maxIJSONInteger /\ n = p + 1.
Proof.
  unfold successor_members. intros Hs Hw. steps_in Hs. injection Hs as -> ->. boolprop.
  split; [done|]. apply nonnegativeInteger_range in E0; [lia|]. by apply wire_well_formed, field_wire.
Qed.

Lemma positive_range o name n : positiveInteger (field o name) = Ok n -> wire (JObject o) -> 1 <= n <= maxIJSONInteger.
Proof.
  unfold positiveInteger. intros Hp Hw. steps_in Hp. injection Hp as ->. boolprop.
  apply nonnegativeInteger_range in E; [lia|]. by apply wire_well_formed, field_wire.
Qed.

Lemma canonicalDigest_raw o raw h : Canonicalize (JObject o) = Ok raw -> canonicalDigest o = Some h -> h = sha256 raw.
Proof. unfold canonicalDigest. intros ->. by intros [= <-]. Qed.

Lemma environment_ok o environment u : environment_agrees o environment = Ok u ->
  (environment = str "dev" \/ environment = str "production") /\ objectString o "environment" = environment.
Proof.
  unfold environment_agrees. intros He. steps_in He. boolprop. split; [|by apply beq_true].
  destruct (beq environment (str "dev")) eqn:E1; [left; by apply beq_true|]. cbn in E. boolprop. right. by apply beq_true.
Qed.

(** What an accepted assertion [o], embedded in [control], gives. *)
Record assertion_accepted (o control keyset : object) (evaluationTime : Z) (a : VerifiedAssertion) : Prop := {
  aa_digest : canonicalDigest o = Some (vaHash a);
  aa_named : decodeFixed32 (objectString control "assertion_hash") = Some (vaHash a);
  aa_signed : signed_online o keyset (vaIssuedAt a) AssertionSignatureDomain;
  aa_live : live (vaIssuedAt a) evaluationTime (vaExpiresAt a);
  aa_epoch : vaTopicKeyEpoch a = TopicEpoch (vaIssuedAt a);
  aa_ids : decodeFixed16 (objectString control "installation_binding_id") = Some (vaInstallationBindingID a) /\
           decodeFixed16 (objectString control "binding_id") = Some (vaBindingID a);
}.

Lemma assertion_matches_ok a c v n u : assertion_matches a c v n = Ok u ->
  objectString a "installation_binding_id" = objectString c "installation_binding_id" /\
  objectString a "binding_id" = objectString c "binding_id".
Proof.
  unfold assertion_matches. intros Hm. steps_in Hm. repeat match goal with H : demand _ _ = Ok _ |- _ => apply demand_ok in H end.
  by rewrite !beq_true in *.
Qed.

Lemma ValidateAssertion_ok o expected u issued expires :
  ValidateAssertion o expected = Ok u -> verifyLiveWindow o (aeEvaluationTime expected) "EXPIRED" = Ok (issued, expires) ->
  exists keyset, aeKeyset expected = Some keyset /\ signed_online o keyset issued AssertionSignatureDomain /\
    positiveInteger (field o "topic_key_epoch") = Ok (TopicEpoch issued).
Proof.
  unfold ValidateAssertion. intros Hv Hw. apply bind_ok in Hv as (u1 & _ & Hv). apply bind_ok in Hv as (u2 & Hd & Hv).
  rewrite Hw in Hv. cbn [mbind result_bind] in Hv. apply bind_ok in Hv as (epoch & Ha & Hv).
  destruct (aeKeyset expected) as [keyset|]; [|done]. exists keyset. split; [done|].
  unfold assertion_keys in Hv. apply bind_ok in Hv as (pk & Hk & Hv). apply bind_ok in Hv as (u3 & Hs & _).
  apply require_eligible_ok, IsEligible_true, VerifyObject_eligible in Hs as (signature & canonical & _ & _ & Hg & Hc & Hv).
  split; [by exists pk, signature, canonical|].
  unfold assertion_domains in Hd. apply bind_ok in Hd as (u4 & Hi & _). cbn [each assertion_integers fst snd] in Hi.
  apply bind_ok in Hi as (u5 & _ & Hi). apply bind_ok in Hi as (u6 & _ & Hi). apply bind_ok in Hi as (u7 & He & _).
  apply bind_ok in He as (n & He & _).
  unfold assertion_agrees in Ha. do 4 (apply bind_ok in Ha as (? & _ & Ha)). rewrite He in Ha.
  apply reject_ok in Ha as [_ Ha]. apply reject_ok in Ha as [Ht _]. boolprop. by rewrite He, Ht.
Qed.

Lemma verifyEmbeddedAssertion_ok o control expected keyset epoch n h version sequence a :
  verifyEmbeddedAssertion o control expected keyset epoch n h version sequence = Ok a ->
  assertion_accepted o control keyset (ceEvaluationTime expected) a /\
  vaSequencerEpoch a = epoch /\ vaStreamSequence a = sequence /\ vaBindingVersion a = version /\
  vaKeysetSequence a = n /\ vaKeysetHash a = h.
Proof.
  unfold verifyEmbeddedAssertion. intros Hv. apply bind_ok in Hv as ([issued expires] & Hw & Hv).
  apply bind_ok in Hv as (u1 & Ha & Hv). eapply ValidateAssertion_ok in Ha; [|exact Hw].
  destruct Ha as (k & [= <-] & Hs & He).
  apply bind_ok in Hv as (u2 & Hm & Hv). apply bind_ok in Hv as (hash & Hh & Hv). apply bind_ok in Hv as (u3 & Hn & Hv).
  apply bind_ok in Hv as (topicEpoch & Ht & Hv). apply bind_ok in Hv as (k1 & _ & Hv). apply bind_ok in Hv as (k2 & _ & Hv).
  apply bind_ok in Hv as (k3 & _ & Hv). apply bind_ok in Hv as (ib & Hib & Hv). apply bind_ok in Hv as (bid & Hbid & Hv).
  do 10 (apply bind_ok in Hv as (? & _ & Hv)). injection Hv as <-. cbn.
  apply assertion_matches_ok in Hm as [Hmi Hmb]. apply judge_ok in Hh, Hib, Hbid. rewrite Hmi in Hib. rewrite Hmb in Hbid.
  apply demand_ok, bool_decide_eq_true_1 in Hn. apply verifyLiveWindow_ok in Hw as (_ & _ & Hl).
  unfold bounded_member in Ht. rewrite He in Ht. apply reject_ok in Ht as [_ [= <-]].
  split; [|done]. by constructor.
Qed.

(** What an accepted control [c] of the text [raw] gives. *)
Record control_accepted (raw : bytes) (o keyset : object) (expected : ControlExpectations) (c : VerifiedControl)
  : Prop := {
  ca_canonical : Canonicalize (JObject o) = Ok raw /\ wire (JObject o) /\
                 Validate ControlEventKind (JObject o) = Ok tt;
  ca_environment : vcEnvironment c = ceEnvironment expected /\ objectString o "environment" = vcEnvironment c;
  ca_keyset : 1 <= vcKeysetSequence c <= maxIJSONInteger /\ canonicalDigest keyset = Some (vcKeysetHash c);
  ca_hash : vcSignedObjectHash c = sha256 raw;
  ca_signed : signed_online o keyset (vcIssuedAt c) ControlSignatureDomain;
  ca_live : live (vcIssuedAt c) (ceEvaluationTime expected) (vcExpiresAt c);
  ca_key : vcIdempotencyKey c = objectString o "idempotency_key";
  ca_stream : 1 <= vcStreamSequence c <= maxIJSONInteger /\
              vcExpectedPreviousSequence c = vcStreamSequence c - 1;
  ca_version : 1 <= vcBindingVersion c <= maxIJSONInteger /\
               vcExpectedBindingVersion c = vcBindingVersion c - 1;
  ca_ids : decodeFixed16 (objectString o "installation_binding_id") = Some (vcInstallationBindingID c) /\
           decodeFixed16 (objectString o "sequencer_epoch") = Some (vcSequencerEpoch c) /\
           decodeFixed16 (objectString o "binding_id") = Some (vcBindingID c);
  ca_action : match vcAssertion c with
    | Some a =>
        vcAction c = ControlActionUpsert /\ vcReason c = ControlReasonNone /\ vaHash a = vcAssertionHash c /\
        (vaSequencerEpoch a = vcSequencerEpoch c /\ vaStreamSequence a = vcStreamSequence c /\
         vaBindingVersion a = vcBindingVersion c /\ vaKeysetSequence a = vcKeysetSequence c /\
         vaKeysetHash a = vcKeysetHash c) /\
        exists ao, field o "assertion" = JObject ao /\
                   assertion_accepted ao o keyset (ceEvaluationTime expected) a
    | None => vcAction c = ControlActionRevoke /\ ControlReasonAuthorityRevoked <= vcReason c <= ControlReasonAuthorityReplaced
    end;
}.

Lemma control_reason_range o r : control_reason o = Ok r ->
  ControlReasonAuthorityRevoked <= r <= ControlReasonAuthorityReplaced.
Proof.
  unfold control_reason, ControlReasonAuthorityRevoked, ControlReasonAuthorityReplaced.
  repeat destruct (beq _ _); intros [= <-]; lia.
Qed.

Lemma VerifyControl_accepted raw expected c : VerifyControl raw expected = Ok c ->
  exists o keyset, ceKeyset expected = Some keyset /\ control_accepted raw o keyset expected c.
Proof.
  unfold VerifyControl. intros Hv. apply bind_ok in Hv as (o & Hw & Hv). apply decode_wire_ok in Hw as (Hs & Hc & Hwire).
  unfold verifyControlObject in Hv. apply bind_ok in Hv as (u & He & Hv). apply environment_ok in He as [_ He].
  apply bind_ok in Hv as ([issued expires] & Hl & Hv). apply verifyLiveWindow_ok in Hl as (_ & _ & Hl).
  apply bind_ok in Hv as ([sq ps] & Hsq & Hv). apply bind_ok in Hv as ([bv pb] & Hbv & Hv).
  apply bind_ok in Hv as ([[keyset n] h] & Hk & Hv). apply keysetProvenance_ok in Hk as (Hk & _ & _ & Hn & Hh).
  apply bind_ok in Hv as (id & Hsig & Hv). apply signed_by_ok in Hsig as [Hsig _].
  apply bind_ok in Hv as (oh & Hoh & Hv). apply judge_ok in Hoh.
  apply bind_ok in Hv as (ib & Hib & Hv). apply bind_ok in Hv as (ep & Hep & Hv).
  apply bind_ok in Hv as (bid & Hbid & Hv). apply bind_ok in Hv as (ah & Hah & Hv).
  apply bind_ok in Hv as ([[act rs] asn] & Hact & Hv). injection Hv as <-.
  apply judge_ok in Hib, Hep, Hbid. exists o, keyset. split; [done|].
  destruct (successor_ok _ _ _ _ _ Hsq Hwire) as (Psq & ? & ?). apply positive_range in Psq; [|done].
  destruct (successor_ok _ _ _ _ _ Hbv Hwire) as (Pbv & ? & ?). apply positive_range in Pbv; [|done].
  constructor; cbn; try done.
  - by eapply canonicalDigest_raw.
  - lia.
  - lia.
  - unfold control_action in Hact. destruct (beq _ (str "UPSERT")).
    + destruct (field o "assertion") as [| | | | |ao| | | |] eqn:Ea; try done. apply reject_ok in Hact as [_ Hact].
      apply bind_ok in Hact as (a & Ha & Hact). apply reject_ok in Hact as [Hhash [= <- <- <-]].
      apply verifyEmbeddedAssertion_ok in Ha as (Haa & Heqs). apply negb_false_iff, beq_true in Hhash.
      split; [done|]. split; [done|]. split; [done|]. split; [naive_solver|]. by exists ao.
    + destruct (beq _ (str "REVOKE")); [|done]. apply reject_ok in Hact as [_ Hact].
      apply bind_ok in Hact as (r & Hr & [= <- <- <-]). split; [done|]. by eapply control_reason_range.
Qed.

(** ** Accepted watermarks *)

Record watermark_accepted (raw : bytes) (o keyset : object) (expected : ControlExpectations) (w : VerifiedWatermark)
    (v : Verdict) : Prop := {
  wa_canonical : Canonicalize (JObject o) = Ok raw;
  wa_environment : vwEnvironment w = ceEnvironment expected;
  wa_keyset : 1 <= vwKeysetSequence w <= maxIJSONInteger /\ canonicalDigest keyset = Some (vwKeysetHash w);
  wa_hash : vwSignedObjectHash w = sha256 raw;
  wa_signed : signed_online o keyset (vwIssuedAt w) WatermarkSignatureDomain;
  wa_live : live (vwIssuedAt w) (ceEvaluationTime expected) (vwExpiresAt w);
  wa_sequence : 1 <= vwWatermarkSequence w <= maxIJSONInteger;
  wa_committed : 0 <= vwCommittedThroughStreamSequence w <= maxIJSONInteger;
  wa_status : (vwStatus w = WatermarkStatusCurrent /\ vwUncertaintyReason w = WatermarkUncertaintyNone /\ v = Eligible) \/
    (vwStatus w = WatermarkStatusUncertain /\
     WatermarkUncertaintySourceUnavailable <= vwUncertaintyReason w <= WatermarkUncertaintyClock /\
     Terminal v = "INCONCLUSIVE"%string /\ str (VerdictReason v) = objectString o "uncertainty_reason");
}.

Lemma watermark_status_ok o s r v : watermark_status o = Ok (s, r, v) ->
  (s = WatermarkStatusCurrent /\ r = WatermarkUncertaintyNone /\ v = Eligible) \/
  (s = WatermarkStatusUncertain /\ WatermarkUncertaintySourceUnavailable <= r <= WatermarkUncertaintyClock /\
   Terminal v = "INCONCLUSIVE"%string /\ str (VerdictReason v) = objectString o "uncertainty_reason").
Proof.
  unfold watermark_status, WatermarkUncertaintySourceUnavailable, WatermarkUncertaintyClock.
  destruct (beq _ (str "CURRENT")); [intros [_ [= <- <- <-]]%reject_ok; by left|].
  destruct (beq _ (str "UNCERTAIN")); [|done]. cbv zeta. intros Hs. right.
  repeat match type of Hs with (if beq ?a ?b then _ else _) = _ =>
    destruct (decide (a = b)) as [E|E];
      [rewrite E, beq_refl in Hs; injection Hs as <- <- <-; split_and!; first [done|lia|exact (eq_sym E)]
      |rewrite (proj2 (beq_false _ _) E) in Hs; clear E] end.
  discriminate Hs.
Qed.

Lemma VerifyWatermark_accepted raw expected w v : VerifyWatermark raw expected = Ok (w, v) ->
  exists o keyset, ceKeyset expected = Some keyset /\ watermark_accepted raw o keyset expected w v.
Proof.
  unfold VerifyWatermark. intros Hv. apply bind_ok in Hv as (o & Hw & Hv). apply decode_wire_ok in Hw as (_ & Hc & Hwire).
  unfold verifyWatermarkObject in Hv. apply bind_ok in Hv as (u & _ & Hv).
  apply bind_ok in Hv as ([issued expires] & Hl & Hv). apply verifyLiveWindow_ok in Hl as (_ & _ & Hl).
  apply bind_ok in Hv as (sq & Hsq & Hv). apply bind_ok in Hv as (ct & Hct & Hv).
  apply bind_ok in Hv as ([[keyset n] h] & Hk & Hv). apply keysetProvenance_ok in Hk as (Hk & _ & _ & Hn & Hh).
  apply bind_ok in Hv as (id & Hsig & Hv). apply signed_by_ok in Hsig as [Hsig _].
  apply bind_ok in Hv as (oh & Hoh & Hv). apply judge_ok in Hoh.
  apply bind_ok in Hv as (ib & _ & Hv). apply bind_ok in Hv as (ep & _ & Hv).
  apply bind_ok in Hv as ([[st rs] vd] & Hst & Hv). injection Hv as <- <-. exists o, keyset. split; [done|].
  constructor; cbn; try done.
  - by eapply canonicalDigest_raw.
  - by eapply positive_range.
  - eapply nonnegativeInteger_range; [exact Hct|]. by apply wire_well_formed, field_wire.
  - by apply watermark_status_ok.
Qed.

End Accepted.

(** C23: an accepted control is the one canonical text of its object; the object is signed,
    under the control domain, by an A9 control key the trusted keyset lists as valid at the
    issue time; the evaluation time lies in its window of at most 30 seconds, and the
    recorded hash is the digest of the text. An UPSERT carries an assertion signed the same
    way under its own domain, whose digest the control names; a REVOKE carries none. *)
Theorem accepted_control_is_signed `{Ed25519, MapRange} (raw : bytes) (expected : ControlExpectations)
    (c : VerifiedControl) (Hv : VerifyControl raw expected = Ok c) :
  exists o keyset, ceKeyset expected = Some keyset /\ Canonicalize (JObject o) = Ok raw /\
    signed_online o keyset (vcIssuedAt c) ControlSignatureDomain /\
    vcIssuedAt c <= ceEvaluationTime expected < vcExpiresAt c /\ vcExpiresAt c <= vcIssuedAt c + 30 * second /\
    vcSignedObjectHash c = sha256 raw /\
    match vcAssertion c with
    | None => vcAction c = ControlActionRevoke
    | Some a => vcAction c = ControlActionUpsert /\
        exists ao text, field o "assertion" = JObject ao /\ Canonicalize (JObject ao) = Ok text /\
          vcAssertionHash c = sha256 text /\ signed_online ao keyset (vaIssuedAt a) AssertionSignatureDomain /\
          vaIssuedAt a <= ceEvaluationTime expected < vaExpiresAt a /\ vaTopicKeyEpoch a = TopicEpoch (vaIssuedAt a)
    end.
Proof.
  apply VerifyControl_accepted in Hv as (o & keyset & Hk & Ha). exists o, keyset.
  pose proof (ca_canonical _ _ _ _ _ Ha) as (Hc & _ & _). pose proof (ca_live _ _ _ _ _ Ha) as (_ & Hl & Hl').
  split_and!; try done; try (by apply Ha); try lia.
  pose proof (ca_action _ _ _ _ _ Ha) as Hact. destruct (vcAssertion c) as [a|]; [|by destruct Hact].
  destruct Hact as (Hu & _ & Hh & _ & ao & Hf & Haa). split; [done|].
  pose proof (aa_digest _ _ _ _ _ Haa) as Hd. unfold canonicalDigest in Hd.
  destruct (Canonicalize (JObject ao)) as [text|] eqn:Ec; [|done]. injection Hd as Hd.
  pose proof (aa_live _ _ _ _ _ Haa) as (_ & Hla & _).
  exists ao, text. split_and!; try done; try lia; try (by apply Haa). by rewrite <- Hh, Hd.
Qed.
