(* ===== verification/A9Sample.v ===== *)
(** * Signed A9 objects, made with the sample signature scheme

    A keyset, an UPSERT with its assertion, a REVOKE and a watermark, for the witnesses. *)

From S2P Require Import Prelude GoBytes GoTime GoCrypto JsonText Jcs A9Schema A9Types A9Trust A9Keyset A9Verify.
Local Open Scope Z_scope.
Local Open Scope go_scope.

Import GoCrypto.Sample.

Module A9Sample.

Definition make (members : list (string * json)) : object :=
  fold_right (fun kv m => put (str kv.1) kv.2 m) [] members.

Definition text (s : string) : json := JString (str s).
Definition number (z : Z) : json := JNumber (format_uint z).
Definition bytes64 (b : byte) (n : nat) : json := JString (b64_encode (repeat b n)).

Definition root_seed : bytes := repeat x01 32.
Definition control_seed : bytes := repeat x02 32.
Definition service_seed : bytes := repeat x03 32.

Definition key_id (seed : bytes) : bytes := default [] (Ed25519KeyID (ed25519_public seed)).
Definition hmac_id (b : byte) : bytes := default [] (HMACKeyID (repeat b 32)).

(** The instants: the keyset is of June 1, 2025, inside topic period 674. *)
Definition t0 : string := "2025-06-01T00:00:00.000Z".
Definition t_end : string := "2025-06-01T20:00:00.000Z".
Definition far : string := "2025-08-01T00:00:00.000Z".
Definition t1 : string := "2025-06-01T01:00:00.000Z".
Definition t2 : string := "2025-06-01T01:00:30.000Z".
Definition instant_of (s : string) : Z := default 0 (parse_wire (str s)).
Definition now : Z := instant_of "2025-06-01T01:00:10.000Z".

Definition online_from (seed : bytes) (use state not_before : string) : json :=
  JObject (make [("key_id"%string, JString (key_id seed)); ("use"%string, text use);
    ("public_key_base64url"%string, JString (b64_encode (ed25519_public seed)));
    ("not_before"%string, text not_before); ("not_after"%string, text far); ("state"%string, text state)]).

Definition online (seed : bytes) (use state : string) : json := online_from seed use state t0.

Definition commitment (purpose : string) (b : byte) (epoch : json) (not_before not_after : string) : json :=
  JObject (make [("purpose"%string, text purpose); ("key_id"%string, JString (hmac_id b)); ("topic_key_epoch"%string, epoch);
    ("not_before"%string, text not_before); ("not_after"%string, text not_after)]).

(** The start of topic period 675. *)
Definition boundary : string := "2025-06-11T00:00:00.000Z".

Definition signed (name : string) (domain seed : bytes) (o : object) : object :=
  put (str name) (JString (default [] (SignObject o name domain seed))) o.

Definition keyset_of (sequence : Z) (issued expires : string) (keys : list json) : object :=
  signed "root_signature_base64url" KeysetSignatureDomain root_seed (make [
    ("protocol"%string, text "hytch.a9-bridge-keyset"); ("schema_version"%string, number 1);
    ("environment"%string, text "dev"); ("keyset_sequence"%string, number sequence);
    ("issued_at"%string, text issued); ("expires_at"%string, text expires); ("keys"%string, JArray keys);
    ("commitment_keys"%string, JArray [
       commitment "ROSTER" x11 JNull t0 far; commitment "TOPIC" x12 (number 674) t0 far;
       commitment "TOPIC" x14 (number 675) boundary far; commitment "TUPLE" x13 JNull t0 far]);
    ("root_signing_key_id"%string, JString (key_id root_seed)); ("root_signature_algorithm"%string, text "Ed25519");
    ("root_signature_base64url"%string, text "")]).

Definition keyset : object :=
  keyset_of 1 t0 t_end [online control_seed "A9_CONTROL" "SIGN"; online service_seed "SERVICE_AUTH" "SIGN"].

(** A rotation of the control key: announced at [t0], made two days later. *)
Definition next_seed : bytes := repeat x05 32.
Definition t_next : string := "2025-06-02T00:00:00.000Z".
Definition t_cutover : string := "2025-06-03T00:00:00.000Z".

Definition transition : object :=
  keyset_of 1 t0 t_end [online control_seed "A9_CONTROL" "SIGN"; online_from next_seed "A9_CONTROL" "VERIFY_ONLY" t_next;
    online service_seed "SERVICE_AUTH" "SIGN"].
Definition cutover : object :=
  keyset_of 2 t_cutover "2025-06-03T20:00:00.000Z" [online_from next_seed "A9_CONTROL" "SIGN" t_next;
    online control_seed "A9_CONTROL" "VERIFY_ONLY"; online service_seed "SERVICE_AUTH" "SIGN"].

Definition assertion : object :=
  signed "signature_base64url" AssertionSignatureDomain control_seed (make [
    ("protocol"%string, text "hytch.a9-bridge-assertion"); ("schema_version"%string, number 1);
    ("audience"%string, text "hytch.xmtp-push-bridge.a9-control"); ("purpose"%string, text "conversation_message_push");
    ("environment"%string, text "dev"); ("binding_id"%string, bytes64 x21 16);
    ("installation_binding_id"%string, bytes64 x22 16); ("lease_id"%string, bytes64 x23 16);
    ("binding_version"%string, number 1); ("stream_sequence"%string, number 1);
    ("tuple_commitment"%string, bytes64 x24 32); ("tuple_commitment_key_id"%string, JString (hmac_id x13));
    ("roster_commitment"%string, bytes64 x25 32); ("roster_commitment_key_id"%string, JString (hmac_id x11));
    ("topic_binding"%string, bytes64 x26 32); ("topic_key_epoch"%string, number 674);
    ("conversation_generation"%string, number 1); ("roster_version"%string, number 1);
    ("state"%string, text "ACTIVE"); ("issued_at"%string, text t1); ("expires_at"%string, text t2);
    ("signing_key_id"%string, JString (key_id control_seed)); ("signature_algorithm"%string, text "Ed25519");
    ("signature_base64url"%string, text "")]).

Definition control (action : string) (assertion reason assertion_hash : json) (n : Z) : object :=
  signed "signature_base64url" ControlSignatureDomain control_seed (make [
    ("protocol"%string, text "hytch.a9-bridge-control"); ("schema_version"%string, number 1);
    ("audience"%string, text "hytch.xmtp-push-bridge.a9-control"); ("environment"%string, text "dev");
    ("idempotency_key"%string, text "0123abcd-0123-4567-89ab-0123456789ab");
    ("installation_binding_id"%string, bytes64 x22 16); ("sequencer_epoch"%string, bytes64 x27 16);
    ("stream_sequence"%string, number n); ("expected_previous_sequence"%string, number (n - 1));
    ("binding_id"%string, bytes64 x21 16); ("binding_version"%string, number n);
    ("expected_binding_version"%string, number (n - 1)); ("action"%string, text action);
    ("assertion"%string, assertion); ("assertion_hash"%string, assertion_hash); ("reason_code"%string, reason);
    ("issued_at"%string, text t1); ("expires_at"%string, text t2);
    ("signing_key_id"%string, JString (key_id control_seed)); ("signature_algorithm"%string, text "Ed25519");
    ("signature_base64url"%string, text "")]).

Definition upsert : object :=
  control "UPSERT" (JObject assertion) JNull (JString (default [] (AssertionHash assertion))) 1.
Definition revoke : object := control "REVOKE" JNull (text "authority_revoked") (bytes64 x28 32) 2.

Definition watermark : object :=
  signed "signature_base64url" WatermarkSignatureDomain control_seed (make [
    ("protocol"%string, text "hytch.a9-control-watermark"); ("schema_version"%string, number 1);
    ("audience"%string, text "hytch.xmtp-push-bridge.a9-control"); ("environment"%string, text "dev");
    ("installation_binding_id"%string, bytes64 x22 16); ("sequencer_epoch"%string, bytes64 x27 16);
    ("watermark_sequence"%string, number 1); ("committed_through_stream_sequence"%string, number 2);
    ("status"%string, text "UNCERTAIN"); ("uncertainty_reason"%string, text "OUTBOX_GAP");
    ("issued_at"%string, text t1); ("expires_at"%string, text t2);
    ("signing_key_id"%string, JString (key_id control_seed)); ("signature_algorithm"%string, text "Ed25519");
    ("signature_base64url"%string, text "")]).

(** The wire text of an object. *)
Definition wire_text (o : object) : bytes :=
  match Canonicalize (JObject o) with Ok t => t | Err _ => [] end.

Definition expected : ControlExpectations :=
  {| ceEnvironment := str "dev"; ceEvaluationTime := now; ceKeyset := Some keyset |}.

Existing Instance in_order.

Definition upsert_text : bytes := Eval vm_compute in wire_text upsert.
Definition revoke_text : bytes := Eval vm_compute in wire_text revoke.
Definition watermark_text : bytes := Eval vm_compute in wire_text watermark.

Definition accepted {A : Type} (r : judged A) (H : is_ok r = true) : A :=
  match r return is_ok r = true -> A with
  | Ok a => fun _ => a
  | Err _ => fun H => match Bool.diff_false_true H with end
  end H.

Lemma accepted_ok {A : Type} (r : judged A) (H : is_ok r = true) : r = Ok (accepted r H).
Proof. by destruct r. Qed.

Lemma upsert_accepted : is_ok (VerifyControl upsert_text expected) = true.
Proof. vm_compute. reflexivity. Qed.
Lemma revoke_accepted : is_ok (VerifyControl revoke_text expected) = true.
Proof. vm_compute. reflexivity. Qed.
Lemma watermark_ok : is_ok (VerifyWatermark watermark_text expected) = true.
Proof. vm_compute. reflexivity. Qed.

Lemma keyset_accepted :
  ValidateKeyset keyset (ed25519_public root_seed) (key_id root_seed) (str "dev") now = Eligible.
Proof. vm_compute. reflexivity. Qed.
Lemma transition_accepted :
  ValidateKeyset transition (ed25519_public root_seed) (key_id root_seed) (str "dev") now = Eligible.
Proof. vm_compute. reflexivity. Qed.
Lemma cutover_accepted :
  ValidateKeyset cutover (ed25519_public root_seed) (key_id root_seed) (str "dev") zero_time = Eligible.
Proof. vm_compute. reflexivity. Qed.

Lemma rotation_accepted : ValidateOnlineRotation transition cutover = Eligible.
Proof. vm_compute. reflexivity. Qed.
Lemma schedule_accepted : ValidateTopicKeySchedule keyset = Eligible.
Proof. vm_compute. reflexivity. Qed.

End A9Sample.
