(* ===== verification/ServiceAuth.v ===== *)
(** * Service authentication

    src/pkg/a9trust/jwt.go and src/pkg/a9auth/auth.go: the compact tokens with which the control
    plane calls the bridge. A token is a canonical header and canonical claims under an EdDSA
    signature; it names method, path and hash of one request and a short window, and its
    identifier is consumed once. *)

From S2P Require Import Prelude GoBytes GoTime GoCrypto JsonText Jcs A9Schema A9Types A9Trust A9Keyset.
Local Open Scope Z_scope.
Local Open Scope go_scope.

(** ** Objects in segments *)

Definition jwtHeaderFields : list bytes := str <$> ["alg"; "kid"; "typ"]%string.
Definition jwtClaimFields : list bytes :=
  str <$> ["iss"; "sub"; "aud"; "environment"; "iat"; "nbf"; "exp"; "jti"; "method"; "path"; "request_sha256"]%string.

Definition exactFields (o : object) (allowed : list bytes) : bool :=
  (length o =? length allowed)%nat && forallb (fun kv => existsb (beq kv.1) allowed) o.

Definition decodeBase64URLAny (value : bytes) : option bytes :=
  bail beq value [] || existsb (fun c => bool_decide (c = x3d)) value with None;;
  bail negb (forallb is_b64url value) with None;;
  decoded ← b64_decode true value;
  bail negb (beq (EncodeBase64URL decoded) value) with None;;
  Some decoded.

Definition decodeCanonicalJSONObject (segment : bytes) : option object :=
  decoded ← decodeBase64URLAny segment;
  match ParseStrictJSON decoded with
  | Ok (JObject o) =>
      match Canonicalize (JObject o) with
      | Ok canonical => if beq (EncodeBase64URL canonical) segment then Some o else None
      | Err _ => None
      end
  | _ => None
  end.

Definition dot : byte := x2e.

(** ** Tokens *)

Record JWTExpectations := {
  jeEnvironment : bytes; jeMethod : bytes; jePath : bytes; jeRequestBody : bytes; jeNow : Z;
  jeKeyset : option object;
}.

Record VerifiedJWT := {
  vjEnvironment : bytes; vjJTI : bytes; vjKeyID : bytes; vjIssuedAt : Z; vjNotBefore : Z; vjExpiresAt : Z;
  vjRetainUntil : Z;
}.

(** Who speaks to whom, for which request. Method names are ASCII. *)
Definition claims_name (claims : object) (expected : JWTExpectations) : bool :=
  let claim := objectString claims in
  beq (claim "iss"%string) (str "hytch-modern-api") && beq (claim "sub"%string) (str "xmtp-push-a9-adapter") &&
  beq (claim "aud"%string) (str "hytch.xmtp-push-bridge.a9-control") &&
  beq (claim "environment"%string) (jeEnvironment expected) &&
  bool_decide (is_Some (ParseCanonicalUUID (claim "jti"%string))) &&
  negb (beq (claim "method"%string) []) && beq (claim "method"%string) (to_upper (claim "method"%string)) &&
  beq (claim "method"%string) (jeMethod expected) &&
  negb (beq (claim "path"%string) []) && negb (contains_any (claim "path"%string) (str "?#")) &&
  beq (claim "path"%string) (jePath expected) &&
  IsLowerHexSHA256 (claim "request_sha256"%string) &&
  beq (claim "request_sha256"%string) (SHA256LowerHex (jeRequestBody expected)).

(** Issue, start and end in seconds: at most a minute, and at most five seconds from start to
    issue. *)
Definition claims_window (claims : object) : option (Z * Z * Z) :=
  match nonnegativeInteger (field claims "iat"), nonnegativeInteger (field claims "nbf"),
        nonnegativeInteger (field claims "exp") with
  | Ok iat, Ok nbf, Ok exp =>
      if (exp <=? iat) || (60 <? exp - iat) || (iat <? nbf) || (nbf + 5 <? iat) then None
      else Some (iat, nbf, exp)
  | _, _, _ => None
  end.

(** The instant is in the window, with five seconds of skew on both sides. *)
Definition in_window (now issuedAt notBefore retainUntil : Z) : bool :=
  negb (before now (issuedAt - 5 * second) || before now (notBefore - 5 * second) || after now retainUntil).

Section Tokens.
Context `{Ed25519}.

Definition BuildJWT (header claims : object) (seed : bytes) : option (bytes * bytes) :=
  bail negb (length seed =? 32)%nat with None;;
  match Canonicalize (JObject header), Canonicalize (JObject claims) with
  | Ok headerBytes, Ok claimBytes =>
      let signingInput := EncodeBase64URL headerBytes ++ dot :: EncodeBase64URL claimBytes in
      Some (signingInput ++ dot :: EncodeBase64URL (ed25519_sign seed signingInput), signingInput)
  | _, _ => None
  end.

(** The checks on a token of three segments. *)
Definition validate_segments (first second_ third : bytes) (expected : JWTExpectations) : option VerifiedJWT :=
  header ← decodeCanonicalJSONObject first;
  bail negb (exactFields header jwtHeaderFields && beq (objectString header "alg") (str "EdDSA") &&
             beq (objectString header "typ") (str "JWT")) with None;;
  claims ← decodeCanonicalJSONObject second_;
  bail negb (exactFields claims jwtClaimFields) with None;;
  signature ← DecodeBase64URL third 64;
  bail negb (claims_name claims expected) with None;;
  '(iat, nbf, exp) ← claims_window claims;
  let issuedAt := iat * second in
  let notBefore := nbf * second in
  let retainUntil := (exp + 5) * second in
  bail negb (in_window (jeNow expected) issuedAt notBefore retainUntil) with None;;
  keyset ← jeKeyset expected;
  let kid := objectString header "kid" in
  match OnlineKeyAt keyset kid "SERVICE_AUTH" issuedAt with
  | Err _ => None
  | Ok publicKey =>
      if ed25519_verify publicKey (first ++ dot :: second_) signature then
        Some {| vjEnvironment := jeEnvironment expected; vjJTI := objectString claims "jti"; vjKeyID := kid;
                vjIssuedAt := issuedAt; vjNotBefore := notBefore; vjExpiresAt := exp * second;
                vjRetainUntil := retainUntil |}
      else None
  end.

Definition ValidateJWT (compact : bytes) (expected : JWTExpectations) : judged VerifiedJWT :=
  match split_on compact dot with
  | [first; second_; third] => judge (Invalid "SERVICE_AUTH") (validate_segments first second_ third expected)
  | _ => Err (Invalid "SERVICE_AUTH")
  end.

(** ** The in-process replay store *)

(** [used], by environment and identifier. *)
Definition ReplayStore : Type := gmap bytes Z.

Definition replay_key (environment jti : bytes) : bytes := environment ++ [x00] ++ jti.

Definition ReplayStore_Consume (environment jti : bytes) (retainUntil now : Z) (used : ReplayStore)
  : bool * ReplayStore :=
  let used := filter (fun kv => after now kv.2 = false) used in
  let key := replay_key environment jti in
  match used !! key with
  | Some deadline => if negb (after now deadline) then (false, used) else (true, <[key := retainUntil]> used)
  | None => (true, <[key := retainUntil]> used)
  end.

Definition VerifyJWT (compact : bytes) (expected : JWTExpectations) (replay : option ReplayStore)
  : Verdict * option ReplayStore :=
  match ValidateJWT compact expected with
  | Err verdict => (verdict, replay)
  | Ok verified =>
      match replay with
      | None => (Invalid "SERVICE_AUTH_REPLAY", None)
      | Some used =>
          let '(fresh, used) := ReplayStore_Consume (vjEnvironment verified) (vjJTI verified)
                                  (vjRetainUntil verified) (jeNow expected) used in
          (if (fresh : bool) then Eligible else Invalid "SERVICE_AUTH_REPLAY", Some used)
      end
  end.

(** ** Verification at the request boundary *)

Inductive auth_error := ErrServiceAuth | ErrServiceAuthReplay | ErrReplayStoreUnavailable.

Definition validExpectations (expected : JWTExpectations) : bool :=
  (beq (jeEnvironment expected) (str "dev") || beq (jeEnvironment expected) (str "production")) &&
  negb (is_zero (jeNow expected) || bool_decide (jeKeyset expected = None)) &&
  negb (beq (jeMethod expected) []) && beq (jeMethod expected) (to_upper (jeMethod expected)) &&
  match jePath expected with c :: _ => bool_decide (c = x2f) | [] => false end &&
  negb (contains_any (jePath expected) (str "?#")).

Definition keysetEnvironment (keyset : option object) : bytes :=
  match keyset with Some o => objectString o "environment" | None => [] end.

Definition verify (compact : bytes) (expected : JWTExpectations) : result auth_error VerifiedJWT :=
  reject negb (validExpectations expected) with ErrServiceAuth;;
  match ValidateJWT compact expected with
  | Err _ => Err ErrServiceAuth
  | Ok verified =>
      reject negb (beq (keysetEnvironment (jeKeyset expected)) (jeEnvironment expected)) ||
             negb (in_window (jeNow expected) (vjIssuedAt verified) (vjNotBefore verified) (vjRetainUntil verified))
        with ErrServiceAuth;;
      Ok verified
  end.

(** [a9auth.ReplayStore]: environment, identifier, retention and now; [Ok true] for the first
    consumption. *)
Definition Consumer (W : Type) : Type := bytes -> bytes -> Z -> Z -> W -> W * option bool.

Definition VerifyAndConsume {W : Type} (compact : bytes) (expected : JWTExpectations) (cancelled : bool)
    (consume : Consumer W) (w : W) : W * result auth_error VerifiedJWT :=
  match verify compact expected with
  | Err e => (w, Err e)
  | Ok verified =>
      if cancelled then (w, Err ErrReplayStoreUnavailable) else
      match consume (vjEnvironment verified) (vjJTI verified) (vjRetainUntil verified) (jeNow expected) w with
      | (w, None) => (w, Err ErrReplayStoreUnavailable)
      | (w, Some false) => (w, Err ErrServiceAuthReplay)
      | (w, Some true) => (w, Ok verified)
      end
  end.

End Tokens.

(** ** What an accepted token is *)

Lemma dot_not_b64 l : dot ∉ b64_encode l.
Proof.
  intros Hin. pose proof (b64_encode_alphabet l) as H. rewrite forallb_forall in H.
  apply list_elem_of_In, H in Hin. by vm_compute in Hin.
Qed.

Lemma split_three s first second_ third :
  split_on s dot = [first; second_; third] -> s = first ++ dot :: second_ ++ dot :: third.
Proof.
  intros (_ & [[[=] _]|(r & -> & H)])%split_on_cons.
  apply split_on_cons in H as (_ & [[[=] _]|(r' & -> & H)]).
  by apply split_on_cons in H as (_ & [[_ ->]|(r'' & -> & []%split_on_nonempty)]).
Qed.

Lemma decoded_object segment o :
  decodeCanonicalJSONObject segment = Some o ->
  exists canonical, Canonicalize (JObject o) = Ok canonical /\ segment = EncodeBase64URL canonical.
Proof.
  unfold decodeCanonicalJSONObject. intros (decoded & _ & H)%bind_Some.
  destruct (ParseStrictJSON decoded) as [[| | | | |m| | | |]|]; try done.
  destruct (Canonicalize (JObject m)) as [canonical|] eqn:Ec; [|done]. destruct (beq _ _) eqn:E; [|done].
  injection H as <-. apply beq_true in E. by exists canonical.
Qed.

Section Accepted.
Context `{Ed25519}.

(** An accepted token is the canonical header and claims under a signature of a listed key for
    service authentication, valid at the issue time; the claims name the request. *)
Record token_accepted (compact : bytes) (expected : JWTExpectations) (v : VerifiedJWT)
    (header claims keyset : object) (publicKey signature : bytes) : Prop := {
  ta_text : exists h c, Canonicalize (JObject header) = Ok h /\ Canonicalize (JObject claims) = Ok c /\
    let input := EncodeBase64URL h ++ dot :: EncodeBase64URL c in
    compact = input ++ dot :: EncodeBase64URL signature /\ ed25519_verify publicKey input signature = true;
  ta_header : exactFields header jwtHeaderFields = true /\ objectString header "alg" = str "EdDSA" /\
    objectString header "typ" = str "JWT" /\ objectString header "kid" = vjKeyID v;
  ta_key : jeKeyset expected = Some keyset /\
    OnlineKeyAt keyset (vjKeyID v) "SERVICE_AUTH" (vjIssuedAt v) = Ok publicKey;
  ta_claims : exactFields claims jwtClaimFields = true /\
    objectString claims "iss" = str "hytch-modern-api" /\ objectString claims "sub" = str "xmtp-push-a9-adapter" /\
    objectString claims "aud" = str "hytch.xmtp-push-bridge.a9-control" /\
    objectString claims "environment" = jeEnvironment expected /\ objectString claims "jti" = vjJTI v;
  ta_request : objectString claims "method" = jeMethod expected /\ objectString claims "path" = jePath expected /\
    objectString claims "request_sha256" = SHA256LowerHex (jeRequestBody expected);
  ta_window : vjIssuedAt v - 5 * second <= jeNow expected <= vjExpiresAt v + 5 * second /\
    vjNotBefore v <= vjIssuedAt v <= vjNotBefore v + 5 * second /\
    vjIssuedAt v < vjExpiresAt v <= vjIssuedAt v + 60 * second /\ vjRetainUntil v = vjExpiresAt v + 5 * second;
  ta_identity : vjEnvironment v = jeEnvironment expected /\ is_Some (ParseCanonicalUUID (vjJTI v));
}.

Lemma claims_window_ok claims iat nbf exp :
  claims_window claims = Some (iat, nbf, exp) -> nbf <= iat <= nbf + 5 /\ iat < exp <= iat + 60.
Proof.
  unfold claims_window. repeat case_match; try done. intros [= <- <- <-]. boolprop. lia.
Qed.

(** The steps of a successful validation. *)
Lemma ValidateJWT_steps compact expected v :
  ValidateJWT compact expected = Ok v ->
  exists first second_ third header claims signature iat nbf exp keyset publicKey,
    split_on compact dot = [first; second_; third] /\
    decodeCanonicalJSONObject first = Some header /\ decodeCanonicalJSONObject second_ = Some claims /\
    DecodeBase64URL third 64 = Some signature /\
    exactFields header jwtHeaderFields && beq (objectString header "alg") (str "EdDSA") &&
      beq (objectString header "typ") (str "JWT") = true /\
    exactFields claims jwtClaimFields = true /\ claims_name claims expected = true /\
    claims_window claims = Some (iat, nbf, exp) /\
    in_window (jeNow expected) (iat * second) (nbf * second) ((exp + 5) * second) = true /\
    jeKeyset expected = Some keyset /\
    OnlineKeyAt keyset (objectString header "kid") "SERVICE_AUTH" (iat * second) = Ok publicKey /\
    ed25519_verify publicKey (first ++ dot :: second_) signature = true /\
    v = {| vjEnvironment := jeEnvironment expected; vjJTI := objectString claims "jti";
           vjKeyID := objectString header "kid"; vjIssuedAt := iat * second; vjNotBefore := nbf * second;
           vjExpiresAt := exp * second; vjRetainUntil := (exp + 5) * second |}.
Proof.
  unfold ValidateJWT. destruct (split_on compact dot) as [|first [|second_ [|third [|]]]] eqn:Es; try done.
  unfold judge. destruct (validate_segments first second_ third expected) as [v'|] eqn:Hv; [|done]. intros [= <-].
  unfold validate_segments in Hv. apply bind_Some in Hv as (header & Eh & Hv).
  destruct (negb _) eqn:E1 in Hv; [done|]. apply negb_false_iff in E1. apply bind_Some in Hv as (claims & Ec & Hv).
  destruct (negb _) eqn:E2 in Hv; [done|]. apply negb_false_iff in E2. apply bind_Some in Hv as (signature & Eg & Hv).
  destruct (negb _) eqn:E3 in Hv; [done|]. apply negb_false_iff in E3.
  apply bind_Some in Hv as ([[iat nbf] exp] & Hw & Hv).
  destruct (negb _) eqn:E4 in Hv; [done|]. apply negb_false_iff in E4. apply bind_Some in Hv as (keyset & Ek & Hv).
  cbv zeta in Hv. destruct (OnlineKeyAt _ _ _ _) as [publicKey|] eqn:Eo; [|done].
  destruct (ed25519_verify _ _ _) eqn:Ev; [|done]. injection Hv as <-.
  exists first, second_, third, header, claims, signature, iat, nbf, exp, keyset, publicKey. done.
Qed.

Lemma ValidateJWT_accepted compact expected v :
  ValidateJWT compact expected = Ok v ->
  exists header claims keyset publicKey signature,
    token_accepted compact expected v header claims keyset publicKey signature.
Proof.
  intros (first & second_ & third & header & claims & signature & iat & nbf & exp & keyset & publicKey & Es & Eh & Ec &
    Eg & E1 & E2 & E3 & Hw & E4 & Ek & Eo & Ev & ->)%ValidateJWT_steps.
  apply split_three in Es as ->. apply decoded_object in Eh as (h & Eh & ->).
  apply decoded_object in Ec as (c & Ec & ->). apply DecodeBase64URL_some in Eg as (-> & _ & _).
  unfold claims_name in E3. unfold in_window, before, after in E4. boolprop. beqs.
  apply claims_window_ok in Hw as [Hw1 Hw2]. exists header, claims, keyset, publicKey, signature.
  split; cbn; try (repeat split; done).
  - exists h, c. split; [done|]. split; [done|]. split; [by rewrite <-app_assoc|done].
  - unfold second in *. lia.
Qed.

(** C22: a service token is for one request: if a token is accepted for a request, it is under
    a signature of a listed service key valid at its issue time, its claims name the request's
    environment, method, path and the hash of its body, and the clock is in its window of at
    most 60 seconds (with 5 seconds of skew); a request for which the same token is accepted
    agrees in environment, method, path and hash of the body. *)
Theorem service_token_is_for_one_request (compact : bytes) (e1 e2 : JWTExpectations) (v1 v2 : VerifiedJWT) :
  ValidateJWT compact e1 = Ok v1 -> ValidateJWT compact e2 = Ok v2 ->
  (exists header claims keyset publicKey signature,
     token_accepted compact e1 v1 header claims keyset publicKey signature) /\
  v1 = v2 /\ jeEnvironment e1 = jeEnvironment e2 /\ jeMethod e1 = jeMethod e2 /\ jePath e1 = jePath e2 /\
  sha256 (jeRequestBody e1) = sha256 (jeRequestBody e2).
Proof.
  intros H1 H2. split; [by apply ValidateJWT_accepted|].
  apply ValidateJWT_steps in H1 as (f & g & t & header & claims & ? & iat & nbf & exp & ? & ? & Es & Eh & Ec &
    _ & _ & _ & En & Ew & _ & _ & _ & _ & ->).
  apply ValidateJWT_steps in H2 as (f' & g' & t' & header' & claims' & ? & iat' & nbf' & exp' & ? & ? & Es' & Eh' & Ec' &
    _ & _ & _ & En' & Ew' & _ & _ & _ & _ & ->).
  rewrite Es in Es'. injection Es' as <- <- <-. rewrite Eh in Eh'. injection Eh' as <-.
  rewrite Ec in Ec'. injection Ec' as <-. rewrite Ew in Ew'. injection Ew' as <- <- <-.
  unfold claims_name in En, En'. boolprop. beqs. unfold SHA256LowerHex in *.
  split_and!; try congruence. apply hex_encode_inj. congruence.
Qed.

(** ** Tokens that were built *)

(** An object as it is read back. *)
Definition parsed (o : object) : object := map (fun kv => (kv.1, as_parsed kv.2)) o.

Lemma canonical_reads v t : Canonicalize v = Ok t -> well_formed v -> ParseStrictJSON t = Ok (as_parsed v).
Proof.
  intros Ht Hw. unfold ParseStrictJSON. rewrite (ascii_valid t) by (by apply (canonical_ascii v)).
  by apply parse_canonical.
Qed.

Lemma decode_any l : l <> [] -> decodeBase64URLAny (EncodeBase64URL l) = Some l.
Proof.
  intros Hl. unfold decodeBase64URLAny, EncodeBase64URL.
  assert (Hne : beq (b64_encode l) [] = false).
  { apply beq_false. intros E. by apply (b64_encode_inj l []) in E. }
  assert (Heq : existsb (fun c => bool_decide (c = x3d)) (b64_encode l) = false).
  { apply not_true_iff_false. rewrite existsb_exists. intros (c & Hin & ->%bool_decide_eq_true_1).
    pose proof (b64_encode_alphabet l) as Hall. rewrite forallb_forall in Hall. apply Hall in Hin. by vm_compute in Hin. }
  rewrite Hne, Heq, b64_encode_alphabet, b64_decode_encode. cbn. unfold EncodeBase64URL. by rewrite beq_refl.
Qed.

Lemma decode_canonical o t :
  Canonicalize (JObject o) = Ok t -> well_formed (JObject o) ->
  decodeCanonicalJSONObject (EncodeBase64URL t) = Some (parsed o).
Proof.
  intros Ht Hw. pose proof (canonical_reads _ _ Ht Hw) as Hr. unfold decodeCanonicalJSONObject.
  rewrite decode_any by (intros ->; by vm_compute in Hr). cbn [mbind option_bind]. rewrite Hr.
  pose proof (as_parsed_canonical _ _ Ht) as Hc. cbn [as_parsed] in *. fold (parsed o) in *.
  by rewrite Hc, beq_refl.
Qed.

(** A token [BuildJWT] makes from claims for a request is accepted for that request, under
    a keyset that lists the seed's public key for service authentication at the issue time,
    while the clock is in the window: signing and verification agree on spelling, input and
    encoding. *)
Theorem built_token_is_accepted (Hlaws : Ed25519Laws) (header claims keyset : object) (seed compact input : bytes)
    (expected : JWTExpectations) (iat nbf exp : Z) :
  BuildJWT header claims seed = Some (compact, input) ->
  well_formed (JObject header) -> well_formed (JObject claims) ->
  exactFields (parsed header) jwtHeaderFields && beq (objectString (parsed header) "alg") (str "EdDSA") &&
    beq (objectString (parsed header) "typ") (str "JWT") = true ->
  exactFields (parsed claims) jwtClaimFields = true -> claims_name (parsed claims) expected = true ->
  claims_window (parsed claims) = Some (iat, nbf, exp) ->
  in_window (jeNow expected) (iat * second) (nbf * second) ((exp + 5) * second) = true ->
  jeKeyset expected = Some keyset ->
  OnlineKeyAt keyset (objectString (parsed header) "kid") "SERVICE_AUTH" (iat * second) = Ok (ed25519_public seed) ->
  ValidateJWT compact expected = Ok {|
    vjEnvironment := jeEnvironment expected; vjJTI := objectString (parsed claims) "jti";
    vjKeyID := objectString (parsed header) "kid"; vjIssuedAt := iat * second; vjNotBefore := nbf * second;
    vjExpiresAt := exp * second; vjRetainUntil := (exp + 5) * second |}.
Proof.
  unfold BuildJWT. destruct (negb _) eqn:El; [done|]. apply negb_false_iff, Nat.eqb_eq in El.
  destruct (Canonicalize (JObject header)) as [h|] eqn:Eh; [|done].
  destruct (Canonicalize (JObject claims)) as [c|] eqn:Ec; [|done]. intros [= <- <-] Hwh Hwc E1 E2 E3 Hw E4 Ek Eo.
  unfold ValidateJWT. rewrite <-app_assoc. cbn [app]. unfold EncodeBase64URL.
  rewrite !split_on_app, split_on_none by apply dot_not_b64. unfold validate_segments, judge.
  fold (EncodeBase64URL h) (EncodeBase64URL c).
  rewrite (decode_canonical _ _ Eh Hwh), (decode_canonical _ _ Ec Hwc). cbn [mbind option_bind].
  rewrite E1, E2. cbn [negb].
  rewrite (proj2 (DecodeBase64URL_some _ 64 (ed25519_sign seed (EncodeBase64URL h ++ dot :: EncodeBase64URL c)))).
  - cbn [mbind option_bind]. rewrite E3. cbn [negb]. rewrite Hw. cbn [mbind option_bind]. rewrite E4. cbn [negb].
    rewrite Ek. cbn [mbind option_bind]. rewrite Eo, ed25519_sign_verify by done. done.
  - pose proof (ed25519_sign_length seed (EncodeBase64URL h ++ dot :: EncodeBase64URL c) El) as Hlen.
    split; [done|]. split; [done|]. intros E. apply (b64_encode_inj _ []) in E. by rewrite E in Hlen.
Qed.

End Accepted.
