(* ===== verification/Sql.v ===== *)
(** * Database transactions

    [database/sql] as the vault uses it, over any database state [DB]: errors and the retry
    classification of src/pkg/vault/sql_retry.go, a transaction as a state-and-error monad
    whose statements may fail at any point, begin and commit, and the bounded retry loop.

    An [Attempt] is what the outside world contributes to one transaction: the database
    clock, the host clock, and for every statement in order whether it fails and how. The
    theorems quantify over attempts, so they hold for every pattern of failures. A
    transaction is serializable: it reads and writes one database state, and it leaves that
    state unchanged when it fails before its commit. A failed commit may still have been
    applied (the connection was lost after the server acted), except when the server
    reports a serialization failure ([commit_sound]). *)

From S2P Require Import Prelude GoBytes.
Open Scope go_scope.

(** ** Errors *)

Inductive error :=
| SqlState (code : bytes)
| DriverError
| ErrStoreUnavailable
| ErrRefreshConflict
| ErrRefreshInvalid
| ErrAggregateInvalid
| ErrRetentionUnavailable
| ErrRetentionUnsafe
| ErrRetentionBusy
| ErrRetentionInvalid
| ErrDeliveryJobInvalid
| ErrDeliveryQueueFull
| ErrDeliveryQueueUnavailable
| ErrDeliveryFinalizationPending
| OutOfFuel.  (** not an error of the program: the bound of a loop ran out *)

#[export] Instance error_eq_dec : EqDecision error.
Proof. solve_decision. Defined.

Definition isSerializationFailure (err : error) : bool :=
  match err with
  | SqlState code => beq code (str "40001") || beq code (str "40P01")
  | _ => false
  end.

(** The non-nil case; a nil error stays nil. *)
Definition storeDatabaseError (err : error) : error :=
  if isSerializationFailure err then err else ErrStoreUnavailable.

(** The SQLSTATE of a violated unique, foreign key or check constraint (class 23). *)
Definition constraint_violation : error := SqlState (str "23000").

(** ** Transactions *)

Record Attempt := {
  atNow : Z;                                (** [clock_timestamp()] *)
  atHost : Z;                               (** the store's own clock *)
  atBegin : option error;
  atStatements : list (option error);       (** one per statement; none left means success *)
  atCommit : option (error * bool);         (** the error, and whether it was applied *)
}.

(** PostgreSQL reports a serialization failure only for a transaction it rolled back. *)
Definition commit_sound (att : Attempt) : Prop :=
  forall e applied, atCommit att = Some (e, applied) -> isSerializationFailure e = true -> applied = false.

Definition calm (now host : Z) : Attempt :=
  {| atNow := now; atHost := host; atBegin := None; atStatements := []; atCommit := None |}.

Section Transactions.
Context {DB : Type}.

Record tx_state := { txDb : DB; txFaults : list (option error) }.

Definition tx (A : Type) : Type := tx_state -> result error (A * tx_state).

#[export] Instance tx_ret : MRet tx := fun _ a s => Ok (a, s).
#[export] Instance tx_bind : MBind tx := fun _ _ k m s =>
  match m s with Ok (a, s') => k a s' | Err e => Err e end.

Definition fail_with {A : Type} (e : error) : tx A := fun _ => Err e.

(** Takes the outcome of the next statement. *)
Definition next_fault (s : tx_state) : option error * list (option error) :=
  match txFaults s with [] => (None, []) | f :: fs => (f, fs) end.

(** A statement that reads. *)
Definition query {A : Type} (f : DB -> A) : tx A := fun s =>
  match next_fault s with
  | (Some e, _) => Err (storeDatabaseError e)
  | (None, fs) => Ok (f (txDb s), {| txDb := txDb s; txFaults := fs |})
  end.

(** A statement that writes; [None] is a violated constraint. *)
Definition exec (f : DB -> option DB) : tx () := fun s =>
  match next_fault s with
  | (Some e, _) => Err (storeDatabaseError e)
  | (None, fs) =>
      match f (txDb s) with
      | Some db => Ok (tt, {| txDb := db; txFaults := fs |})
      | None => Err (storeDatabaseError constraint_violation)
      end
  end.

(** A statement that writes and whose answer (or number of rows) the code looks at. *)
Definition update {A : Type} (f : DB -> option (DB * A)) : tx A := fun s =>
  match next_fault s with
  | (Some e, _) => Err (storeDatabaseError e)
  | (None, fs) =>
      match f (txDb s) with
      | Some (db, a) => Ok (a, {| txDb := db; txFaults := fs |})
      | None => Err (storeDatabaseError constraint_violation)
      end
  end.

(** A caller that replaces the error of a call by one of its own. *)
Definition mapped {A : Type} (f : error -> error) (m : tx A) : tx A := fun s =>
  match m s with Ok x => Ok x | Err e => Err (f e) end.

Definition ensure (c : bool) (e : error) : tx () := if c then mret tt else fail_with e.

(** A transaction from [BeginTx] to [Commit], rolled back on every error. *)
Definition run_tx {A : Type} (body : tx A) (att : Attempt) (db : DB) : DB * result error A :=
  match atBegin att with
  | Some _ => (db, Err ErrStoreUnavailable)
  | None =>
      match body {| txDb := db; txFaults := atStatements att |} with
      | Err e => (db, Err e)
      | Ok (a, s) =>
          match atCommit att with
          | None => (txDb s, Ok a)
          | Some (e, applied) => (if applied then txDb s else db, Err (storeDatabaseError e))
          end
      end
  end.

(** The same with the errors of begin and commit passed through [fail]; a body whose answer
    does not ask for a commit is rolled back. *)
Definition run_tx_when {A : Type} (commits : A -> bool) (fail : error -> error) (body : tx A) (att : Attempt)
    (db : DB) : DB * result error A :=
  match atBegin att with
  | Some e => (db, Err (fail e))
  | None =>
      match body {| txDb := db; txFaults := atStatements att |} with
      | Err e => (db, Err e)
      | Ok (a, s) =>
          if commits a then
            match atCommit att with
            | None => (txDb s, Ok a)
            | Some (e, applied) => (if applied then txDb s else db, Err (fail e))
            end
          else (db, Ok a)
      end
  end.

(** The same where what becomes of a failed commit depends on the answer of the body. *)
Definition run_tx_by {A : Type} (begin_fail : error -> error) (commit_fail : A -> error -> error) (body : tx A)
    (att : Attempt) (db : DB) : DB * result error A :=
  match atBegin att with
  | Some e => (db, Err (begin_fail e))
  | None =>
      match body {| txDb := db; txFaults := atStatements att |} with
      | Err e => (db, Err e)
      | Ok (a, s) =>
          match atCommit att with
          | None => (txDb s, Ok a)
          | Some (e, applied) => (if applied then txDb s else db, Err (commit_fail a e))
          end
      end
  end.

Definition run_tx_with {A : Type} := @run_tx_when A (fun _ => true).

(** [schedule i] is the [i]-th attempt and, before it, what other committed transactions
    did to the database. Any error but a serialization failure ends the loop. *)
Fixpoint with_retries {A : Type} (fuel : nat) (once : Attempt -> tx A)
    (schedule : nat -> (DB -> DB) * Attempt) (i : nat) (db : DB) : DB * result error A :=
  match fuel with
  | O => (db, Err ErrStoreUnavailable)
  | S fuel' =>
      let '(others, att) := schedule i in
      match run_tx (once att) att (others db) with
      | (db', Ok a) => (db', Ok a)
      | (db', Err e) =>
          if isSerializationFailure e then with_retries fuel' once schedule (S i) db'
          else (db', Err ErrStoreUnavailable)
      end
  end.

(** What the other transactions do up to and including the [n]-th gap. *)
Fixpoint interference (schedule : nat -> (DB -> DB) * Attempt) (n i : nat) (db : DB) : DB :=
  match n with
  | O => db
  | S n' => interference schedule n' (S i) (fst (schedule i) db)
  end.

(** ** Lemmas *)

Lemma tx_bind_ok {A B : Type} (m : tx A) (k : A -> tx B) (s s' : tx_state) (b : B) :
  (m ≫= k) s = Ok (b, s') <-> exists a s1, m s = Ok (a, s1) /\ k a s1 = Ok (b, s').
Proof. unfold mbind, tx_bind. destruct (m s) as [[a s1]|e]; naive_solver. Qed.

Lemma query_ok {A : Type} (f : DB -> A) s s' a :
  query f s = Ok (a, s') -> a = f (txDb s) /\ txDb s' = txDb s.
Proof. unfold query. destruct (next_fault s) as [[e|] fs]; naive_solver. Qed.

Lemma exec_ok f s s' u : exec f s = Ok (u, s') -> f (txDb s) = Some (txDb s').
Proof.
  unfold exec. destruct (next_fault s) as [[e|] fs]; [done|].
  destruct (f (txDb s)); naive_solver.
Qed.

Lemma update_ok {A : Type} (f : DB -> option (DB * A)) s s' a :
  update f s = Ok (a, s') -> f (txDb s) = Some (txDb s', a).
Proof.
  unfold update. destruct (next_fault s) as [[e|] fs]; [done|].
  destruct (f (txDb s)) as [[db a']|]; naive_solver.
Qed.

Lemma ret_ok {A : Type} (a b : A) (s s' : tx_state) :
  (mret a : tx A) s = Ok (b, s') -> b = a /\ s' = s.
Proof. unfold mret, tx_ret. naive_solver. Qed.

Lemma mapped_ok {A : Type} f (m : tx A) s x : mapped f m s = Ok x <-> m s = Ok x.
Proof. unfold mapped. destruct (m s); naive_solver. Qed.

Lemma ensure_ok c e s u s' : ensure c e s = Ok (u, s') -> c = true /\ s' = s.
Proof. unfold ensure. destruct c; [by intros [_ ->]%ret_ok|done]. Qed.

Lemma storeDatabaseError_cases e :
  storeDatabaseError e = ErrStoreUnavailable \/
  storeDatabaseError e = e /\ isSerializationFailure e = true.
Proof. unfold storeDatabaseError. destruct (isSerializationFailure e); auto. Qed.

Lemma serialization_storeDatabaseError e :
  isSerializationFailure (storeDatabaseError e) = isSerializationFailure e.
Proof. unfold storeDatabaseError. by destruct (isSerializationFailure e) eqn:E. Qed.

(** A run either leaves the database alone or commits what the body computed. *)
Lemma run_tx_cases {A : Type} (body : tx A) att db db' r :
  run_tx body att db = (db', r) ->
  (db' = db /\ exists e, r = Err e) \/
  (exists a s, body {| txDb := db; txFaults := atStatements att |} = Ok (a, s) /\ db' = txDb s /\
     (r = Ok a \/ exists e, r = Err e)).
Proof.
  unfold run_tx. destruct (atBegin att); [naive_solver|].
  destruct (body _) as [[a s]|e]; [|naive_solver].
  destruct (atCommit att) as [[e []]|]; naive_solver.
Qed.

Lemma run_tx_when_cases {A : Type} commits fail (body : tx A) att db db' r :
  run_tx_when commits fail body att db = (db', r) ->
  (db' = db /\ ((exists e, r = Err e) \/
     exists a s, body {| txDb := db; txFaults := atStatements att |} = Ok (a, s) /\ r = Ok a /\
       commits a = false)) \/
  (exists a s, body {| txDb := db; txFaults := atStatements att |} = Ok (a, s) /\ db' = txDb s /\
     commits a = true /\ (r = Ok a \/ exists e, r = Err e)).
Proof.
  unfold run_tx_when. destruct (atBegin att); [naive_solver|].
  destruct (body _) as [[a s]|e]; [|naive_solver]. destruct (commits a) eqn:Ec; [|naive_solver].
  destruct (atCommit att) as [[e []]|]; naive_solver.
Qed.

(** A run that reports a serialization failure left the database alone. *)
Lemma run_tx_retry {A : Type} (body : tx A) att db db' e :
  commit_sound att -> run_tx body att db = (db', Err e) -> isSerializationFailure e = true -> db' = db.
Proof.
  unfold commit_sound, run_tx. intros Hs H He. destruct (atBegin att); [naive_solver|].
  destruct (body _) as [[a s]|e']; [|naive_solver].
  destruct (atCommit att) as [[e' applied]|] eqn:Ec; simplify_eq.
  rewrite serialization_storeDatabaseError in He. by rewrite (Hs _ _ eq_refl He).
Qed.

(** After [n] attempts of the loop that started at [i]: nothing of this call was committed,
    or the [n]-th attempt was, and its result is the one returned (or lost). *)
Definition settled {A : Type} (once : Attempt -> tx A) (schedule : nat -> (DB -> DB) * Attempt)
    (i n : nat) (db db' : DB) (r : result error A) : Prop :=
  let before := interference schedule n i db in
  (db' = before /\ r = Err ErrStoreUnavailable) \/
  ((0 < n)%nat /\ exists a s, let att := snd (schedule (i + n - 1)%nat) in
     once att {| txDb := before; txFaults := atStatements att |} = Ok (a, s) /\ db' = txDb s /\
     (r = Ok a \/ r = Err ErrStoreUnavailable)).

Lemma settled_last {A : Type} (once : Attempt -> tx A) schedule i db db' r :
  let att := snd (schedule i) in
  run_tx (once att) att (fst (schedule i) db) = (db', r) ->
  settled once schedule i 1 db db' (match r with Ok a => Ok a | Err _ => Err ErrStoreUnavailable end).
Proof.
  cbn zeta. intros [(-> & e & ->)|(a & s & Hb & -> & Hr)]%run_tx_cases; [by left|right].
  split; [lia|]. exists a, s. cbn [interference]. replace (i + 1 - 1)%nat with i by lia.
  split; [done|]. split; [done|]. destruct Hr as [->|[e ->]]; auto.
Qed.

Lemma with_retries_once {A : Type} (once : Attempt -> tx A) schedule fuel i db db' r :
  (forall n, commit_sound (snd (schedule n))) ->
  with_retries fuel once schedule i db = (db', r) ->
  exists n, (n <= fuel)%nat /\ settled once schedule i n db db' r.
Proof.
  intros Hs. revert i db. induction fuel as [|fuel IH]; intros i db H; simpl in H.
  { exists 0%nat. split; [lia|]. left. naive_solver. }
  destruct (schedule i) as [others att] eqn:Ei.
  pose proof (settled_last once schedule i db) as Hl. rewrite Ei in Hl. cbn [fst snd] in Hl.
  destruct (run_tx (once att) att (others db)) as [db1 [a|e]] eqn:Er.
  { exists 1%nat. split; [lia|]. inversion H; subst. by apply (Hl db' (Ok a)). }
  destruct (isSerializationFailure e) eqn:Ee.
  2: { exists 1%nat. split; [lia|]. inversion H; subst. by apply (Hl db' (Err e)). }
  assert (Ha : commit_sound att) by (specialize (Hs i); by rewrite Ei in Hs).
  pose proof (run_tx_retry _ _ _ _ _ Ha Er Ee) as ->.
  destruct (IH _ _ H) as (n & Hn & Hc). exists (S n). split; [lia|].
  unfold settled in *. cbn [interference]. rewrite Ei. cbn [fst].
  replace (i + S n - 1)%nat with (S i + n - 1)%nat by lia.
  destruct Hc as [Hc|(Hp & Hc)]; [by left|right]. split; [lia|done].
Qed.

(** ** Running without failures *)

Definition calm_state (db : DB) : tx_state := {| txDb := db; txFaults := [] |}.

Lemma bind_calm {A B : Type} (m : tx A) (k : A -> tx B) st a st1 :
  m st = Ok (a, st1) -> (m ≫= k) st = k a st1.
Proof. intros Hm. unfold mbind, tx_bind. by rewrite Hm. Qed.

Lemma bind_error {A B : Type} (m : tx A) (k : A -> tx B) st e : m st = Err e -> (m ≫= k) st = Err e.
Proof. intros Hm. unfold mbind, tx_bind. by rewrite Hm. Qed.

Lemma exec_calm f db db' : f db = Some db' -> exec f (calm_state db) = Ok (tt, calm_state db').
Proof. intros Hf. unfold exec. cbn. by rewrite Hf. Qed.

Lemma exec_violation f db : f db = None -> exec f (calm_state db) = Err ErrStoreUnavailable.
Proof. intros Hf. unfold exec. cbn. by rewrite Hf. Qed.

Lemma query_calm {A : Type} (f : DB -> A) db : query f (calm_state db) = Ok (f db, calm_state db).
Proof. reflexivity. Qed.

Lemma update_calm {A : Type} (f : DB -> option (DB * A)) db db' a :
  f db = Some (db', a) -> update f (calm_state db) = Ok (a, calm_state db').
Proof. intros Hf. unfold update. cbn. by rewrite Hf. Qed.

Lemma update_violation {A : Type} (f : DB -> option (DB * A)) db :
  f db = None -> update f (calm_state db) = Err ErrStoreUnavailable.
Proof. intros Hf. unfold update. cbn. by rewrite Hf. Qed.

Lemma mapped_calm {A : Type} f (m : tx A) st x : m st = Ok x -> mapped f m st = Ok x.
Proof. intros Hm. unfold mapped. by rewrite Hm. Qed.

(** ** What a transaction does to the database

    [moves R m]: whatever [m] does before it ends without error is related by [R]. *)
Section Moves.
Variable R : DB -> DB -> Prop.
Context `{!PreOrder R}.

Definition moves {A : Type} (m : tx A) : Prop :=
  forall s a s', m s = Ok (a, s') -> R (txDb s) (txDb s').

Lemma moves_ret {A : Type} (a : A) : moves (mret a).
Proof. intros s b s' [_ ->]%ret_ok. reflexivity. Qed.

Lemma moves_bind {A B : Type} (m : tx A) (k : A -> tx B) :
  moves m -> (forall a, moves (k a)) -> moves (m ≫= k).
Proof. intros Hm Hk s b s' (a & s1 & H1 & H2)%tx_bind_ok. etrans; [by eapply Hm|by eapply Hk]. Qed.

Lemma moves_query {A : Type} (f : DB -> A) : moves (query f).
Proof. intros s a s' [_ ->]%query_ok. reflexivity. Qed.

Lemma moves_fail {A : Type} e : moves (@fail_with A e).
Proof. by intros s a s'. Qed.

Lemma moves_ensure c e : moves (ensure c e).
Proof. intros s a s' [_ ->]%ensure_ok. reflexivity. Qed.

Lemma moves_ensured {A : Type} (c : bool) e (k : () -> tx A) :
  (c = true -> moves (k tt)) -> moves (ensure c e ≫= k).
Proof. intros Hk s a s' ([] & s1 & [Hc ->]%ensure_ok & Hx)%tx_bind_ok. exact (Hk Hc _ _ _ Hx). Qed.

Lemma moves_mapped {A : Type} f (m : tx A) : moves m -> moves (mapped f m).
Proof. intros Hm s a s' H%mapped_ok. by eapply Hm. Qed.

Lemma moves_exec f : (forall db db', f db = Some db' -> R db db') -> moves (exec f).
Proof. intros Hf s a s' H%exec_ok. by apply Hf. Qed.

Lemma moves_update {A : Type} (f : DB -> option (DB * A)) :
  (forall db db' a, f db = Some (db', a) -> R db db') -> moves (update f).
Proof. intros Hf s a s' H%update_ok. by eapply Hf. Qed.

Lemma moves_run {A : Type} commits fail (body : tx A) att db db' r :
  moves body -> run_tx_when commits fail body att db = (db', r) -> R db db'.
Proof.
  intros Hm [[-> _]|(a & s & Hb & -> & _)]%run_tx_when_cases; [reflexivity|]. apply (Hm _ _ _ Hb).
Qed.

Lemma moves_run_by {A : Type} begin_fail commit_fail (body : tx A) att db db' r :
  moves body -> run_tx_by begin_fail commit_fail body att db = (db', r) -> R db db'.
Proof.
  intros Hm. unfold run_tx_by. destruct (atBegin att); [intros [= <- _]; reflexivity|].
  destruct (body _) as [[a s]|e] eqn:Eb; [|intros [= <- _]; reflexivity]. apply Hm in Eb. cbn in Eb.
  destruct (atCommit att) as [[e [|]]|]; intros [= <- _]; done.
Qed.

End Moves.

End Transactions.
Arguments tx_state _ : clear implicits.
Arguments tx _ _ : clear implicits.

Create HintDb moves.
#[export] Hint Resolve moves_ret moves_query moves_fail moves_ensure : moves.

(** Splits a transaction into its statements; what is left are the writes. *)
Ltac split_moves :=
  repeat (first
    [ solve [eauto with moves typeclass_instances]
    | match goal with
      | |- moves _ (ensure _ _ ≫= _) => apply moves_ensured; intros ?
      | |- moves _ (_ ≫= _) => apply moves_bind; [exact _| |intros ?]
      | |- moves _ (mapped _ _) => apply moves_mapped
      | |- moves _ (match ?x with _ => _ end) => destruct x
      | |- moves _ (if ?x then _ else _) => destruct x
      end ]).
