(* ===== verification/A9VaultDb.v ===== *)
(** * The A9 tables of the vault

    The tables src/pkg/vault/a9_store.go and a9_current.go read and write, for the one
    environment a store serves, with the statements they issue. The statements check the
    primary keys, the unique signed hashes, the foreign keys from routes to bindings and
    from delivery jobs to routes of migration 00012, and, for control events, assertions
    and watermarks, every column check and every foreign key: to the installation, the
    receipt, the control event, the accepted keysets and the listed keys (a violated one is
    [None]). What is left are the foreign keys of bindings, tombstones and authority rows to
    a row the same transaction has just written, and the column checks of those tables and of
    receipts, which hold by construction (that an authority row is not updated before its
    creation, as long as the database clock does not run backwards). *)

From S2P Require Import Prelude GoBytes GoTime GoCrypto Gate8Header Interfaces Sql A9Types.
Local Open Scope Z_scope.
Local Open Scope go_scope.

(** What the database does with a value the code hands it: the cast of a text to a uuid
    (absent when it is not one) and the rounding of a timestamp to its precision. *)
Class Postgres := {
  pg_uuid : bytes -> option bytes;
  pg_timestamp : Z -> Z;
}.

(** ** Rows *)

Record KeysetRow := {
  ksSequence : Z; ksHash : option bytes; ksState : Z; ksUncertainty : Z;
  ksExpiresAt : option Z; ksRefreshedAt : Z;
}.

Record OnlineKeyRow := { okNotBefore : Z; okNotAfter : Z }.
Record CommitmentKeyRow := { ckTopicKeyEpoch : option Z; ckNotBefore : Z; ckNotAfter : Z }.

Record RetentionRow := {
  rsLastStartedAt : option Z; rsLastCompletedAt : option Z; rsNextDeadlineAt : option Z;
  rsIsSafe : bool; rsFixedOutcome : Z;
}.

(** The watermark columns are all null or all set (a check constraint). *)
Record WatermarkColumns := {
  wcSequence : Z; wcSignedHash : bytes; wcCommittedThrough : Z; wcStatus : Z; wcReason : Z;
  wcIssuedAt : Z; wcExpiresAt : Z; wcSigningKeyID : bytes; wcKeysetSequence : Z; wcKeysetHash : bytes;
}.

Record AuthorityRow := {
  auEpoch : bytes; auContiguous : Z; auGeneration : Z; auState : Z; auReason : Z;
  auWatermark : option WatermarkColumns; auUpdatedAt : Z;
}.

Record ReceiptRow := {
  rcOperation : Z; rcInstallation : bytes; rcEpoch : bytes; rcHash : bytes;
  rcOutcome : Z; rcState : Z; rcGeneration : Z; rcSequence : Z;
}.

(** The columns of a control event are the fields of the control, less its assertion. *)
Record ControlRow := { crEvent : VerifiedControl; crContiguous : bool }.

(** The columns that are set exactly for an active binding. *)
Record ActiveTuple := {
  acAssertionHash : bytes; acStreamSequence : Z; acTopicKeyEpoch : Z; acTopicBinding : bytes;
  acKeysetSequence : Z; acKeysetHash : bytes;
}.

#[export] Instance active_tuple_eq_dec : EqDecision ActiveTuple.
Proof. solve_decision. Defined.

Record BindingRow := {
  bdEpoch : bytes; bdVersion : Z; bdState : Z; bdActive : option ActiveTuple; bdUpdatedAt : Z;
}.

Record TombstoneRow := {
  tsAssertionHash : bytes; tsEpoch : bytes; tsSequence : Z; tsReason : Z; tsRevokedAt : Z;
}.

(** The snapshot columns a route and the delivery jobs made from it share. *)
Record RouteColumns := {
  roInstallation : bytes; roEpoch : bytes; roGeneration : Z; roBinding : bytes; roVersion : Z;
  roActive : ActiveTuple; roRouteKeyEpoch : Z; roWatermarkSequence : Z;
}.

#[export] Instance route_columns_eq_dec : EqDecision RouteColumns.
Proof. solve_decision. Defined.

Record RouteRow := { roColumns : RouteColumns; roIdentity : bytes }.

(** The A9 columns of a job are all null or all set (a check constraint). *)
Record JobRow := {
  jbLeaseID : option bytes; jbInstallationLookup : option bytes; jbEncryptedJob : bytes;
  jbState : Z; jbAttempts : Z; jbRetryExponent : Z; jbAvailableAt : Z; jbExpiresAt : Z;
  jbCreatedAt : Z; jbTrafficClass : option Z; jbFinalReason : option Z; jbA9 : option RouteColumns;
}.

(** ** Rows of the vault outside A9 (migrations 00006 and 00010) *)

Record InstallationRow := {
  inIdentity : bytes; inIncarnationLookup : bytes; inLookupKeyEpoch : Z; inGeneration : Z;
  inIdempotencyDigest : bytes; inControlEventDigest : bytes; inEncryptedToken : option bytes;
  inAgePolicy : Z; inPolicyEpoch : Z; inState : Z; inKeyVersion : Z; inRefreshedAt : Z;
  inExpiresAt : Z; inControlExpiresAt : Z; inRevokedAt : option Z;
}.

Record LeaseRow := {
  lsInstallationLookup : bytes; lsInstallationIdentity : bytes; lsRouteIdentity : bytes;
  lsTopicLookup : bytes; lsLookupKeyEpoch : Z; lsEncryptedTopic : bytes; lsEncryptedRouteKey : bytes;
  lsEncryptedHMACKeys : bytes; lsEncryptedCapability : bytes; lsTopicKind : Z; lsPushMode : Z;
  lsState : Z; lsGeneration : Z; lsPolicyEpoch : Z; lsRouteKeyEpoch : Z; lsEncryptedNonceState : bytes;
  lsKeyVersion : Z; lsIssuedAt : Z; lsRefreshedAt : Z; lsExpiresAt : Z; lsControlExpiresAt : Z;
  lsRevokedAt : option Z;
}.

Record HistoryRow := { rhCommitment : bytes; rhUpdatedAt : Z; rhExpiresAt : Z }.

Record DedupeRow := { ddCreatedAt : Z; ddExpiresAt : Z }.

Record DeletionRow := { dtKeyVersion : Z; dtFenceEpoch : Z; dtCreatedAt : Z; dtExpiresAt : Z }.

Record WelcomeAuthorizationRow := {
  waLeaseID : bytes; waEnvelopeLookup : bytes; waEncryptedAuthorization : bytes; waPolicyEpoch : Z;
  waIssuedAt : Z; waExpiresAt : Z; waConsumedAt : option Z;
}.

Record WelcomeBudgetRow := {
  wbMinuteWindowStart : Z; wbMinuteCount : Z; wbHourWindowStart : Z; wbHourCount : Z;
  wbCircuitOpenUntil : option Z; wbUpdatedAt : Z; wbExpiresAt : Z;
}.

(** The columns of the access tables the retention sweep reads; the expiry is a day. *)
Record AccessRequestRow := { arCoarseCreatedHour : Z }.
Record AccessAuditRow := { aaRequestID : bytes; aaExpiresOn : Z }.

(** The cell of an aggregate is named by day, hour, event, traffic class and outcome; the
    component and the privacy version are constants of the code. *)
Record AggregateRow := {
  agCountBucket : Z; agSizeBucket : option Z; agLatencyBucket : Z; agExpiresOn : Z }.

Record VaultDB := {
  dbKeyset : option KeysetRow;
  dbAcceptedKeysets : gmap Z bytes;  (** the signed hash, by keyset sequence *)
  dbOnlineKeys : gmap (Z * Z * bytes) OnlineKeyRow;  (** by keyset sequence, use, key *)
  dbCommitmentKeys : gmap (Z * Z * bytes) CommitmentKeyRow;  (** by keyset sequence, purpose, key *)
  dbKeyBinding : option bytes;
  dbRetention : option RetentionRow;
  dbAuthority : gmap bytes AuthorityRow;  (** by installation *)
  dbReceipts : gmap bytes ReceiptRow;  (** by idempotency key *)
  dbControls : gmap (bytes * bytes * Z) ControlRow;  (** by installation, epoch, sequence *)
  dbAssertions : gmap bytes VerifiedAssertion;  (** by assertion hash *)
  dbBindings : gmap (bytes * bytes) BindingRow;  (** by installation, binding *)
  dbTombstones : gmap (bytes * bytes * Z) TombstoneRow;  (** by installation, binding, version *)
  dbWatermarks : gmap (bytes * bytes * Z) VerifiedWatermark;  (** by installation, epoch, sequence *)
  dbRoutes : gmap bytes RouteRow;  (** by lease *)
  dbJobs : gmap bytes JobRow;  (** by job *)
  dbInstallations : gmap bytes InstallationRow;  (** by lookup *)
  dbLeases : gmap bytes LeaseRow;  (** by lease *)
  dbHistory : gmap (bytes * Z) HistoryRow;  (** by route identity, route key epoch *)
  dbDedupes : gmap (bytes * bytes * Z) DedupeRow;  (** by lease, source event, traffic class *)
  dbWelcomeAuthorizations : gmap bytes WelcomeAuthorizationRow;  (** by authorization *)
  dbWelcomeBudgets : gmap bytes WelcomeBudgetRow;  (** by destination lookup *)
  dbDeletions : gmap (Z * bytes) DeletionRow;  (** by target kind, identity *)
  dbAggregates : gmap (Z * Z * Z * Z * Z) AggregateRow;
  dbAccessRequests : gmap bytes AccessRequestRow;  (** by request *)
  dbAccessAudit : gmap bytes AccessAuditRow;  (** by event *)
  dbGate6 : gmap bytes bytes;  (** the installation identity, by A9 installation *)
}.

(** One setter per table the vault writes. *)
Definition with_KeyBinding (v : option bytes) (db : VaultDB) : VaultDB := {|
  dbKeyset := dbKeyset db; dbAcceptedKeysets := dbAcceptedKeysets db; dbOnlineKeys := dbOnlineKeys
  db; dbCommitmentKeys := dbCommitmentKeys db; dbKeyBinding := v; dbRetention := dbRetention db;
  dbAuthority := dbAuthority db; dbReceipts := dbReceipts db; dbControls := dbControls db;
  dbAssertions := dbAssertions db; dbBindings := dbBindings db; dbTombstones := dbTombstones db;
  dbWatermarks := dbWatermarks db; dbRoutes := dbRoutes db; dbJobs := dbJobs db; dbInstallations
  := dbInstallations db; dbLeases := dbLeases db; dbHistory := dbHistory db; dbDedupes :=
  dbDedupes db; dbWelcomeAuthorizations := dbWelcomeAuthorizations db; dbWelcomeBudgets :=
  dbWelcomeBudgets db; dbDeletions := dbDeletions db; dbAggregates := dbAggregates db;
  dbAccessRequests := dbAccessRequests db; dbAccessAudit := dbAccessAudit db; dbGate6 := dbGate6
  db |}.

Definition with_Retention (v : option RetentionRow) (db : VaultDB) : VaultDB := {|
  dbKeyset := dbKeyset db; dbAcceptedKeysets := dbAcceptedKeysets db; dbOnlineKeys := dbOnlineKeys
  db; dbCommitmentKeys := dbCommitmentKeys db; dbKeyBinding := dbKeyBinding db; dbRetention := v;
  dbAuthority := dbAuthority db; dbReceipts := dbReceipts db; dbControls := dbControls db;
  dbAssertions := dbAssertions db; dbBindings := dbBindings db; dbTombstones := dbTombstones db;
  dbWatermarks := dbWatermarks db; dbRoutes := dbRoutes db; dbJobs := dbJobs db; dbInstallations
  := dbInstallations db; dbLeases := dbLeases db; dbHistory := dbHistory db; dbDedupes :=
  dbDedupes db; dbWelcomeAuthorizations := dbWelcomeAuthorizations db; dbWelcomeBudgets :=
  dbWelcomeBudgets db; dbDeletions := dbDeletions db; dbAggregates := dbAggregates db;
  dbAccessRequests := dbAccessRequests db; dbAccessAudit := dbAccessAudit db; dbGate6 := dbGate6
  db |}.

Definition with_Authority (v : gmap bytes AuthorityRow) (db : VaultDB) : VaultDB := {|
  dbKeyset := dbKeyset db; dbAcceptedKeysets := dbAcceptedKeysets db; dbOnlineKeys := dbOnlineKeys
  db; dbCommitmentKeys := dbCommitmentKeys db; dbKeyBinding := dbKeyBinding db; dbRetention :=
  dbRetention db; dbAuthority := v; dbReceipts := dbReceipts db; dbControls := dbControls db;
  dbAssertions := dbAssertions db; dbBindings := dbBindings db; dbTombstones := dbTombstones db;
  dbWatermarks := dbWatermarks db; dbRoutes := dbRoutes db; dbJobs := dbJobs db; dbInstallations
  := dbInstallations db; dbLeases := dbLeases db; dbHistory := dbHistory db; dbDedupes :=
  dbDedupes db; dbWelcomeAuthorizations := dbWelcomeAuthorizations db; dbWelcomeBudgets :=
  dbWelcomeBudgets db; dbDeletions := dbDeletions db; dbAggregates := dbAggregates db;
  dbAccessRequests := dbAccessRequests db; dbAccessAudit := dbAccessAudit db; dbGate6 := dbGate6
  db |}.

Definition with_Receipts (v : gmap bytes ReceiptRow) (db : VaultDB) : VaultDB := {|
  dbKeyset := dbKeyset db; dbAcceptedKeysets := dbAcceptedKeysets db; dbOnlineKeys := dbOnlineKeys
  db; dbCommitmentKeys := dbCommitmentKeys db; dbKeyBinding := dbKeyBinding db; dbRetention :=
  dbRetention db; dbAuthority := dbAuthority db; dbReceipts := v; dbControls := dbControls db;
  dbAssertions := dbAssertions db; dbBindings := dbBindings db; dbTombstones := dbTombstones db;
  dbWatermarks := dbWatermarks db; dbRoutes := dbRoutes db; dbJobs := dbJobs db; dbInstallations
  := dbInstallations db; dbLeases := dbLeases db; dbHistory := dbHistory db; dbDedupes :=
  dbDedupes db; dbWelcomeAuthorizations := dbWelcomeAuthorizations db; dbWelcomeBudgets :=
  dbWelcomeBudgets db; dbDeletions := dbDeletions db; dbAggregates := dbAggregates db;
  dbAccessRequests := dbAccessRequests db; dbAccessAudit := dbAccessAudit db; dbGate6 := dbGate6
  db |}.

Definition with_Controls (v : gmap (bytes * bytes * Z) ControlRow) (db : VaultDB) : VaultDB := {|
  dbKeyset := dbKeyset db; dbAcceptedKeysets := dbAcceptedKeysets db; dbOnlineKeys := dbOnlineKeys
  db; dbCommitmentKeys := dbCommitmentKeys db; dbKeyBinding := dbKeyBinding db; dbRetention :=
  dbRetention db; dbAuthority := dbAuthority db; dbReceipts := dbReceipts db; dbControls := v;
  dbAssertions := dbAssertions db; dbBindings := dbBindings db; dbTombstones := dbTombstones db;
  dbWatermarks := dbWatermarks db; dbRoutes := dbRoutes db; dbJobs := dbJobs db; dbInstallations
  := dbInstallations db; dbLeases := dbLeases db; dbHistory := dbHistory db; dbDedupes :=
  dbDedupes db; dbWelcomeAuthorizations := dbWelcomeAuthorizations db; dbWelcomeBudgets :=
  dbWelcomeBudgets db; dbDeletions := dbDeletions db; dbAggregates := dbAggregates db;
  dbAccessRequests := dbAccessRequests db; dbAccessAudit := dbAccessAudit db; dbGate6 := dbGate6
  db |}.

Definition with_Assertions (v : gmap bytes VerifiedAssertion) (db : VaultDB) : VaultDB := {|
  dbKeyset := dbKeyset db; dbAcceptedKeysets := dbAcceptedKeysets db; dbOnlineKeys := dbOnlineKeys
  db; dbCommitmentKeys := dbCommitmentKeys db; dbKeyBinding := dbKeyBinding db; dbRetention :=
  dbRetention db; dbAuthority := dbAuthority db; dbReceipts := dbReceipts db; dbControls :=
  dbControls db; dbAssertions := v; dbBindings := dbBindings db; dbTombstones := dbTombstones db;
  dbWatermarks := dbWatermarks db; dbRoutes := dbRoutes db; dbJobs := dbJobs db; dbInstallations
  := dbInstallations db; dbLeases := dbLeases db; dbHistory := dbHistory db; dbDedupes :=
  dbDedupes db; dbWelcomeAuthorizations := dbWelcomeAuthorizations db; dbWelcomeBudgets :=
  dbWelcomeBudgets db; dbDeletions := dbDeletions db; dbAggregates := dbAggregates db;
  dbAccessRequests := dbAccessRequests db; dbAccessAudit := dbAccessAudit db; dbGate6 := dbGate6
  db |}.

Definition with_Bindings (v : gmap (bytes * bytes) BindingRow) (db : VaultDB) : VaultDB := {|
  dbKeyset := dbKeyset db; dbAcceptedKeysets := dbAcceptedKeysets db; dbOnlineKeys := dbOnlineKeys
  db; dbCommitmentKeys := dbCommitmentKeys db; dbKeyBinding := dbKeyBinding db; dbRetention :=
  dbRetention db; dbAuthority := dbAuthority db; dbReceipts := dbReceipts db; dbControls :=
  dbControls db; dbAssertions := dbAssertions db; dbBindings := v; dbTombstones := dbTombstones
  db; dbWatermarks := dbWatermarks db; dbRoutes := dbRoutes db; dbJobs := dbJobs db;
  dbInstallations := dbInstallations db; dbLeases := dbLeases db; dbHistory := dbHistory db;
  dbDedupes := dbDedupes db; dbWelcomeAuthorizations := dbWelcomeAuthorizations db;
  dbWelcomeBudgets := dbWelcomeBudgets db; dbDeletions := dbDeletions db; dbAggregates :=
  dbAggregates db; dbAccessRequests := dbAccessRequests db; dbAccessAudit := dbAccessAudit db;
  dbGate6 := dbGate6 db |}.

Definition with_Tombstones (v : gmap (bytes * bytes * Z) TombstoneRow) (db : VaultDB) : VaultDB := {|
  dbKeyset := dbKeyset db; dbAcceptedKeysets := dbAcceptedKeysets db; dbOnlineKeys := dbOnlineKeys
  db; dbCommitmentKeys := dbCommitmentKeys db; dbKeyBinding := dbKeyBinding db; dbRetention :=
  dbRetention db; dbAuthority := dbAuthority db; dbReceipts := dbReceipts db; dbControls :=
  dbControls db; dbAssertions := dbAssertions db; dbBindings := dbBindings db; dbTombstones := v;
  dbWatermarks := dbWatermarks db; dbRoutes := dbRoutes db; dbJobs := dbJobs db; dbInstallations
  := dbInstallations db; dbLeases := dbLeases db; dbHistory := dbHistory db; dbDedupes :=
  dbDedupes db; dbWelcomeAuthorizations := dbWelcomeAuthorizations db; dbWelcomeBudgets :=
  dbWelcomeBudgets db; dbDeletions := dbDeletions db; dbAggregates := dbAggregates db;
  dbAccessRequests := dbAccessRequests db; dbAccessAudit := dbAccessAudit db; dbGate6 := dbGate6
  db |}.

Definition with_Watermarks (v : gmap (bytes * bytes * Z) VerifiedWatermark) (db : VaultDB) : VaultDB := {|
  dbKeyset := dbKeyset db; dbAcceptedKeysets := dbAcceptedKeysets db; dbOnlineKeys := dbOnlineKeys
  db; dbCommitmentKeys := dbCommitmentKeys db; dbKeyBinding := dbKeyBinding db; dbRetention :=
  dbRetention db; dbAuthority := dbAuthority db; dbReceipts := dbReceipts db; dbControls :=
  dbControls db; dbAssertions := dbAssertions db; dbBindings := dbBindings db; dbTombstones :=
  dbTombstones db; dbWatermarks := v; dbRoutes := dbRoutes db; dbJobs := dbJobs db;
  dbInstallations := dbInstallations db; dbLeases := dbLeases db; dbHistory := dbHistory db;
  dbDedupes := dbDedupes db; dbWelcomeAuthorizations := dbWelcomeAuthorizations db;
  dbWelcomeBudgets := dbWelcomeBudgets db; dbDeletions := dbDeletions db; dbAggregates :=
  dbAggregates db; dbAccessRequests := dbAccessRequests db; dbAccessAudit := dbAccessAudit db;
  dbGate6 := dbGate6 db |}.

Definition with_Routes (v : gmap bytes RouteRow) (db : VaultDB) : VaultDB := {|
  dbKeyset := dbKeyset db; dbAcceptedKeysets := dbAcceptedKeysets db; dbOnlineKeys := dbOnlineKeys
  db; dbCommitmentKeys := dbCommitmentKeys db; dbKeyBinding := dbKeyBinding db; dbRetention :=
  dbRetention db; dbAuthority := dbAuthority db; dbReceipts := dbReceipts db; dbControls :=
  dbControls db; dbAssertions := dbAssertions db; dbBindings := dbBindings db; dbTombstones :=
  dbTombstones db; dbWatermarks := dbWatermarks db; dbRoutes := v; dbJobs := dbJobs db;
  dbInstallations := dbInstallations db; dbLeases := dbLeases db; dbHistory := dbHistory db;
  dbDedupes := dbDedupes db; dbWelcomeAuthorizations := dbWelcomeAuthorizations db;
  dbWelcomeBudgets := dbWelcomeBudgets db; dbDeletions := dbDeletions db; dbAggregates :=
  dbAggregates db; dbAccessRequests := dbAccessRequests db; dbAccessAudit := dbAccessAudit db;
  dbGate6 := dbGate6 db |}.

Definition with_Jobs (v : gmap bytes JobRow) (db : VaultDB) : VaultDB := {|
  dbKeyset := dbKeyset db; dbAcceptedKeysets := dbAcceptedKeysets db; dbOnlineKeys := dbOnlineKeys
  db; dbCommitmentKeys := dbCommitmentKeys db; dbKeyBinding := dbKeyBinding db; dbRetention :=
  dbRetention db; dbAuthority := dbAuthority db; dbReceipts := dbReceipts db; dbControls :=
  dbControls db; dbAssertions := dbAssertions db; dbBindings := dbBindings db; dbTombstones :=
  dbTombstones db; dbWatermarks := dbWatermarks db; dbRoutes := dbRoutes db; dbJobs := v;
  dbInstallations := dbInstallations db; dbLeases := dbLeases db; dbHistory := dbHistory db;
  dbDedupes := dbDedupes db; dbWelcomeAuthorizations := dbWelcomeAuthorizations db;
  dbWelcomeBudgets := dbWelcomeBudgets db; dbDeletions := dbDeletions db; dbAggregates :=
  dbAggregates db; dbAccessRequests := dbAccessRequests db; dbAccessAudit := dbAccessAudit db;
  dbGate6 := dbGate6 db |}.

Definition with_Installations (v : gmap bytes InstallationRow) (db : VaultDB) : VaultDB := {|
  dbKeyset := dbKeyset db; dbAcceptedKeysets := dbAcceptedKeysets db; dbOnlineKeys := dbOnlineKeys
  db; dbCommitmentKeys := dbCommitmentKeys db; dbKeyBinding := dbKeyBinding db; dbRetention :=
  dbRetention db; dbAuthority := dbAuthority db; dbReceipts := dbReceipts db; dbControls :=
  dbControls db; dbAssertions := dbAssertions db; dbBindings := dbBindings db; dbTombstones :=
  dbTombstones db; dbWatermarks := dbWatermarks db; dbRoutes := dbRoutes db; dbJobs := dbJobs db;
  dbInstallations := v; dbLeases := dbLeases db; dbHistory := dbHistory db; dbDedupes := dbDedupes
  db; dbWelcomeAuthorizations := dbWelcomeAuthorizations db; dbWelcomeBudgets := dbWelcomeBudgets
  db; dbDeletions := dbDeletions db; dbAggregates := dbAggregates db; dbAccessRequests :=
  dbAccessRequests db; dbAccessAudit := dbAccessAudit db; dbGate6 := dbGate6 db |}.

Definition with_Leases (v : gmap bytes LeaseRow) (db : VaultDB) : VaultDB := {|
  dbKeyset := dbKeyset db; dbAcceptedKeysets := dbAcceptedKeysets db; dbOnlineKeys := dbOnlineKeys
  db; dbCommitmentKeys := dbCommitmentKeys db; dbKeyBinding := dbKeyBinding db; dbRetention :=
  dbRetention db; dbAuthority := dbAuthority db; dbReceipts := dbReceipts db; dbControls :=
  dbControls db; dbAssertions := dbAssertions db; dbBindings := dbBindings db; dbTombstones :=
  dbTombstones db; dbWatermarks := dbWatermarks db; dbRoutes := dbRoutes db; dbJobs := dbJobs db;
  dbInstallations := dbInstallations db; dbLeases := v; dbHistory := dbHistory db; dbDedupes :=
  dbDedupes db; dbWelcomeAuthorizations := dbWelcomeAuthorizations db; dbWelcomeBudgets :=
  dbWelcomeBudgets db; dbDeletions := dbDeletions db; dbAggregates := dbAggregates db;
  dbAccessRequests := dbAccessRequests db; dbAccessAudit := dbAccessAudit db; dbGate6 := dbGate6
  db |}.

Definition with_History (v : gmap (bytes * Z) HistoryRow) (db : VaultDB) : VaultDB := {|
  dbKeyset := dbKeyset db; dbAcceptedKeysets := dbAcceptedKeysets db; dbOnlineKeys := dbOnlineKeys
  db; dbCommitmentKeys := dbCommitmentKeys db; dbKeyBinding := dbKeyBinding db; dbRetention :=
  dbRetention db; dbAuthority := dbAuthority db; dbReceipts := dbReceipts db; dbControls :=
  dbControls db; dbAssertions := dbAssertions db; dbBindings := dbBindings db; dbTombstones :=
  dbTombstones db; dbWatermarks := dbWatermarks db; dbRoutes := dbRoutes db; dbJobs := dbJobs db;
  dbInstallations := dbInstallations db; dbLeases := dbLeases db; dbHistory := v; dbDedupes :=
  dbDedupes db; dbWelcomeAuthorizations := dbWelcomeAuthorizations db; dbWelcomeBudgets :=
  dbWelcomeBudgets db; dbDeletions := dbDeletions db; dbAggregates := dbAggregates db;
  dbAccessRequests := dbAccessRequests db; dbAccessAudit := dbAccessAudit db; dbGate6 := dbGate6
  db |}.

Definition with_Dedupes (v : gmap (bytes * bytes * Z) DedupeRow) (db : VaultDB) : VaultDB := {|
  dbKeyset := dbKeyset db; dbAcceptedKeysets := dbAcceptedKeysets db; dbOnlineKeys := dbOnlineKeys
  db; dbCommitmentKeys := dbCommitmentKeys db; dbKeyBinding := dbKeyBinding db; dbRetention :=
  dbRetention db; dbAuthority := dbAuthority db; dbReceipts := dbReceipts db; dbControls :=
  dbControls db; dbAssertions := dbAssertions db; dbBindings := dbBindings db; dbTombstones :=
  dbTombstones db; dbWatermarks := dbWatermarks db; dbRoutes := dbRoutes db; dbJobs := dbJobs db;
  dbInstallations := dbInstallations db; dbLeases := dbLeases db; dbHistory := dbHistory db;
  dbDedupes := v; dbWelcomeAuthorizations := dbWelcomeAuthorizations db; dbWelcomeBudgets :=
  dbWelcomeBudgets db; dbDeletions := dbDeletions db; dbAggregates := dbAggregates db;
  dbAccessRequests := dbAccessRequests db; dbAccessAudit := dbAccessAudit db; dbGate6 := dbGate6
  db |}.

Definition with_WelcomeAuthorizations (v : gmap bytes WelcomeAuthorizationRow) (db : VaultDB) : VaultDB := {|
  dbKeyset := dbKeyset db; dbAcceptedKeysets := dbAcceptedKeysets db; dbOnlineKeys := dbOnlineKeys
  db; dbCommitmentKeys := dbCommitmentKeys db; dbKeyBinding := dbKeyBinding db; dbRetention :=
  dbRetention db; dbAuthority := dbAuthority db; dbReceipts := dbReceipts db; dbControls :=
  dbControls db; dbAssertions := dbAssertions db; dbBindings := dbBindings db; dbTombstones :=
  dbTombstones db; dbWatermarks := dbWatermarks db; dbRoutes := dbRoutes db; dbJobs := dbJobs db;
  dbInstallations := dbInstallations db; dbLeases := dbLeases db; dbHistory := dbHistory db;
  dbDedupes := dbDedupes db; dbWelcomeAuthorizations := v; dbWelcomeBudgets := dbWelcomeBudgets
  db; dbDeletions := dbDeletions db; dbAggregates := dbAggregates db; dbAccessRequests :=
  dbAccessRequests db; dbAccessAudit := dbAccessAudit db; dbGate6 := dbGate6 db |}.

Definition with_WelcomeBudgets (v : gmap bytes WelcomeBudgetRow) (db : VaultDB) : VaultDB := {|
  dbKeyset := dbKeyset db; dbAcceptedKeysets := dbAcceptedKeysets db; dbOnlineKeys := dbOnlineKeys
  db; dbCommitmentKeys := dbCommitmentKeys db; dbKeyBinding := dbKeyBinding db; dbRetention :=
  dbRetention db; dbAuthority := dbAuthority db; dbReceipts := dbReceipts db; dbControls :=
  dbControls db; dbAssertions := dbAssertions db; dbBindings := dbBindings db; dbTombstones :=
  dbTombstones db; dbWatermarks := dbWatermarks db; dbRoutes := dbRoutes db; dbJobs := dbJobs db;
  dbInstallations := dbInstallations db; dbLeases := dbLeases db; dbHistory := dbHistory db;
  dbDedupes := dbDedupes db; dbWelcomeAuthorizations := dbWelcomeAuthorizations db;
  dbWelcomeBudgets := v; dbDeletions := dbDeletions db; dbAggregates := dbAggregates db;
  dbAccessRequests := dbAccessRequests db; dbAccessAudit := dbAccessAudit db; dbGate6 := dbGate6
  db |}.

Definition with_Deletions (v : gmap (Z * bytes) DeletionRow) (db : VaultDB) : VaultDB := {|
  dbKeyset := dbKeyset db; dbAcceptedKeysets := dbAcceptedKeysets db; dbOnlineKeys := dbOnlineKeys
  db; dbCommitmentKeys := dbCommitmentKeys db; dbKeyBinding := dbKeyBinding db; dbRetention :=
  dbRetention db; dbAuthority := dbAuthority db; dbReceipts := dbReceipts db; dbControls :=
  dbControls db; dbAssertions := dbAssertions db; dbBindings := dbBindings db; dbTombstones :=
  dbTombstones db; dbWatermarks := dbWatermarks db; dbRoutes := dbRoutes db; dbJobs := dbJobs db;
  dbInstallations := dbInstallations db; dbLeases := dbLeases db; dbHistory := dbHistory db;
  dbDedupes := dbDedupes db; dbWelcomeAuthorizations := dbWelcomeAuthorizations db;
  dbWelcomeBudgets := dbWelcomeBudgets db; dbDeletions := v; dbAggregates := dbAggregates db;
  dbAccessRequests := dbAccessRequests db; dbAccessAudit := dbAccessAudit db; dbGate6 := dbGate6
  db |}.

Definition with_Aggregates (v : gmap (Z * Z * Z * Z * Z) AggregateRow) (db : VaultDB) : VaultDB := {|
  dbKeyset := dbKeyset db; dbAcceptedKeysets := dbAcceptedKeysets db; dbOnlineKeys := dbOnlineKeys
  db; dbCommitmentKeys := dbCommitmentKeys db; dbKeyBinding := dbKeyBinding db; dbRetention :=
  dbRetention db; dbAuthority := dbAuthority db; dbReceipts := dbReceipts db; dbControls :=
  dbControls db; dbAssertions := dbAssertions db; dbBindings := dbBindings db; dbTombstones :=
  dbTombstones db; dbWatermarks := dbWatermarks db; dbRoutes := dbRoutes db; dbJobs := dbJobs db;
  dbInstallations := dbInstallations db; dbLeases := dbLeases db; dbHistory := dbHistory db;
  dbDedupes := dbDedupes db; dbWelcomeAuthorizations := dbWelcomeAuthorizations db;
  dbWelcomeBudgets := dbWelcomeBudgets db; dbDeletions := dbDeletions db; dbAggregates := v;
  dbAccessRequests := dbAccessRequests db; dbAccessAudit := dbAccessAudit db; dbGate6 := dbGate6
  db |}.

Definition with_AccessRequests (v : gmap bytes AccessRequestRow) (db : VaultDB) : VaultDB := {|
  dbKeyset := dbKeyset db; dbAcceptedKeysets := dbAcceptedKeysets db; dbOnlineKeys := dbOnlineKeys
  db; dbCommitmentKeys := dbCommitmentKeys db; dbKeyBinding := dbKeyBinding db; dbRetention :=
  dbRetention db; dbAuthority := dbAuthority db; dbReceipts := dbReceipts db; dbControls :=
  dbControls db; dbAssertions := dbAssertions db; dbBindings := dbBindings db; dbTombstones :=
  dbTombstones db; dbWatermarks := dbWatermarks db; dbRoutes := dbRoutes db; dbJobs := dbJobs db;
  dbInstallations := dbInstallations db; dbLeases := dbLeases db; dbHistory := dbHistory db;
  dbDedupes := dbDedupes db; dbWelcomeAuthorizations := dbWelcomeAuthorizations db;
  dbWelcomeBudgets := dbWelcomeBudgets db; dbDeletions := dbDeletions db; dbAggregates :=
  dbAggregates db; dbAccessRequests := v; dbAccessAudit := dbAccessAudit db; dbGate6 := dbGate6 db
  |}.

Definition with_AccessAudit (v : gmap bytes AccessAuditRow) (db : VaultDB) : VaultDB := {|
  dbKeyset := dbKeyset db; dbAcceptedKeysets := dbAcceptedKeysets db; dbOnlineKeys := dbOnlineKeys
  db; dbCommitmentKeys := dbCommitmentKeys db; dbKeyBinding := dbKeyBinding db; dbRetention :=
  dbRetention db; dbAuthority := dbAuthority db; dbReceipts := dbReceipts db; dbControls :=
  dbControls db; dbAssertions := dbAssertions db; dbBindings := dbBindings db; dbTombstones :=
  dbTombstones db; dbWatermarks := dbWatermarks db; dbRoutes := dbRoutes db; dbJobs := dbJobs db;
  dbInstallations := dbInstallations db; dbLeases := dbLeases db; dbHistory := dbHistory db;
  dbDedupes := dbDedupes db; dbWelcomeAuthorizations := dbWelcomeAuthorizations db;
  dbWelcomeBudgets := dbWelcomeBudgets db; dbDeletions := dbDeletions db; dbAggregates :=
  dbAggregates db; dbAccessRequests := dbAccessRequests db; dbAccessAudit := v; dbGate6 := dbGate6
  db |}.

Definition with_Gate6 (v : gmap bytes bytes) (db : VaultDB) : VaultDB := {|
  dbKeyset := dbKeyset db; dbAcceptedKeysets := dbAcceptedKeysets db; dbOnlineKeys := dbOnlineKeys
  db; dbCommitmentKeys := dbCommitmentKeys db; dbKeyBinding := dbKeyBinding db; dbRetention :=
  dbRetention db; dbAuthority := dbAuthority db; dbReceipts := dbReceipts db; dbControls :=
  dbControls db; dbAssertions := dbAssertions db; dbBindings := dbBindings db; dbTombstones :=
  dbTombstones db; dbWatermarks := dbWatermarks db; dbRoutes := dbRoutes db; dbJobs := dbJobs db;
  dbInstallations := dbInstallations db; dbLeases := dbLeases db; dbHistory := dbHistory db;
  dbDedupes := dbDedupes db; dbWelcomeAuthorizations := dbWelcomeAuthorizations db;
  dbWelcomeBudgets := dbWelcomeBudgets db; dbDeletions := dbDeletions db; dbAggregates :=
  dbAggregates db; dbAccessRequests := dbAccessRequests db; dbAccessAudit := dbAccessAudit db;
  dbGate6 := v |}.

(** ** Constraints between tables *)

Definition route_supported (db : VaultDB) (r : RouteRow) : bool :=
  match dbBindings db !! (roInstallation (roColumns r), roBinding (roColumns r)) with
  | Some row =>
      beq (bdEpoch row) (roEpoch (roColumns r)) && (bdVersion row =? roVersion (roColumns r)) &&
      bool_decide (bdActive row = Some (roActive (roColumns r)))
  | None => false
  end.

Definition job_supported (db : VaultDB) (j : JobRow) : bool :=
  match jbA9 j, jbLeaseID j with
  | Some columns, Some lease =>
      match dbRoutes db !! lease with
      | Some r => bool_decide (roColumns r = columns)
      | None => false
      end
  | _, _ => true
  end.

Definition all_rows {K V : Type} `{Countable K} (p : K -> V -> bool) (m : gmap K V) : bool :=
  forallb (fun kv => p kv.1 kv.2) (map_to_list m).

Definition routes_supported (db : VaultDB) : bool := all_rows (fun _ => route_supported db) (dbRoutes db).
Definition jobs_supported (db : VaultDB) : bool := all_rows (fun _ => job_supported db) (dbJobs db).

Definition checked (p : VaultDB -> bool) (db : VaultDB) : option VaultDB :=
  if p db then Some db else None.

(** ** Statements *)

Definition put_authority (inst : bytes) (row : AuthorityRow) (db : VaultDB) : VaultDB :=
  with_Authority (<[inst := row]> (dbAuthority db)) db.

Definition insert_authority (inst : bytes) (row : AuthorityRow) (db : VaultDB) : option VaultDB :=
  match dbAuthority db !! inst with
  | Some _ => None
  | None => Some (put_authority inst row db)
  end.

Definition update_authority (inst : bytes) (f : AuthorityRow -> AuthorityRow) (db : VaultDB) : VaultDB :=
  with_Authority (alter f inst (dbAuthority db)) db.

Definition put_receipt (uuid : bytes) (row : ReceiptRow) (db : VaultDB) : VaultDB :=
  with_Receipts (<[uuid := row]> (dbReceipts db)) db.

(** ** Column checks and references to keys *)

Definition octets (n : Z) (b : bytes) : bool := Z.of_nat (length b) =? n.
Definition ranged (lo x hi : Z) : bool := (lo <=? x) && (x <=? hi).

(** The accepted keyset of a sequence has the hash. *)
Definition keyset_listed (db : VaultDB) (sequence : Z) (hash : bytes) : bool :=
  bool_decide (dbAcceptedKeysets db !! sequence = Some hash).

(** The keyset lists the key for signing control objects (use 1). *)
Definition online_key_listed (db : VaultDB) (sequence : Z) (key : bytes) : bool :=
  bool_decide (is_Some (dbOnlineKeys db !! (sequence, 1, key))).

Section WithPostgres.
Context `{Postgres}.

(** A stored window is not empty and at most 30 seconds long. *)
Definition short_window (issuedAt expiresAt : Z) : bool :=
  (pg_timestamp issuedAt <? pg_timestamp expiresAt) &&
  (pg_timestamp expiresAt <=? pg_timestamp issuedAt + 30 * second).

Definition insert_receipt (key : bytes) (row : ReceiptRow) (db : VaultDB) : option VaultDB :=
  match pg_uuid key with
  | None => None
  | Some uuid =>
      match dbReceipts db !! uuid with
      | Some _ => None
      | None => Some (put_receipt uuid row db)
      end
  end.

Definition stored_control (e : VerifiedControl) : VerifiedControl := {|
  vcEnvironment := vcEnvironment e; vcIdempotencyKey := vcIdempotencyKey e;
  vcInstallationBindingID := vcInstallationBindingID e; vcSequencerEpoch := vcSequencerEpoch e;
  vcStreamSequence := vcStreamSequence e; vcExpectedPreviousSequence := vcExpectedPreviousSequence e;
  vcBindingID := vcBindingID e; vcBindingVersion := vcBindingVersion e;
  vcExpectedBindingVersion := vcExpectedBindingVersion e; vcAction := vcAction e;
  vcAssertionHash := vcAssertionHash e; vcReason := vcReason e;
  vcIssuedAt := pg_timestamp (vcIssuedAt e); vcExpiresAt := pg_timestamp (vcExpiresAt e);
  vcSigningKeyID := vcSigningKeyID e; vcSignedObjectHash := vcSignedObjectHash e;
  vcKeysetSequence := vcKeysetSequence e; vcKeysetHash := vcKeysetHash e; vcAssertion := None |}.

Definition control_key (e : VerifiedControl) : bytes * bytes * Z :=
  (vcInstallationBindingID e, vcSequencerEpoch e, vcStreamSequence e).

Definition put_control (e : VerifiedControl) (contiguous : bool) (db : VaultDB) : VaultDB :=
  with_Controls (<[control_key e := {| crEvent := stored_control e; crContiguous := contiguous |}]>
    (dbControls db)) db.

(** The checks on the columns of [a9_control_events]; the timestamps are the stored ones. *)
Definition control_columns (e : VerifiedControl) (contiguous : bool) : bool :=
  octets 16 (vcInstallationBindingID e) && octets 16 (vcSequencerEpoch e) && octets 16 (vcBindingID e) &&
  octets 32 (vcAssertionHash e) && octets 32 (vcSignedObjectHash e) && octets 32 (vcSigningKeyID e) &&
  octets 32 (vcKeysetHash e) &&
  ranged 1 (vcStreamSequence e) a9MaxSafeInteger && ranged 0 (vcExpectedPreviousSequence e) a9MaxSafeInteger &&
  ranged 1 (vcBindingVersion e) a9MaxSafeInteger && ranged 0 (vcExpectedBindingVersion e) a9MaxSafeInteger &&
  ranged 1 (vcKeysetSequence e) a9MaxSafeInteger &&
  (vcStreamSequence e =? vcExpectedPreviousSequence e + 1) && (vcBindingVersion e =? vcExpectedBindingVersion e + 1) &&
  short_window (vcIssuedAt e) (vcExpiresAt e) &&
  (((vcAction e =? ControlActionUpsert) && (vcReason e =? 0)) ||
   ((vcAction e =? ControlActionRevoke) && ranged 1 (vcReason e) 3)) &&
  (contiguous || (vcAction e =? ControlActionRevoke)).

(** The receipt the event refers to: its key, installation, epoch, operation and hash. *)
Definition receipt_present (db : VaultDB) (e : VerifiedControl) : bool :=
  match uuid ← pg_uuid (vcIdempotencyKey e); dbReceipts db !! uuid with
  | Some row =>
      beq (rcInstallation row) (vcInstallationBindingID e) && beq (rcEpoch row) (vcSequencerEpoch e) &&
      (rcOperation row =? 1) && beq (rcHash row) (vcSignedObjectHash e)
  | None => false
  end.

(** The keys the control event names. *)
Definition control_keys_listed (db : VaultDB) (e : VerifiedControl) : bool :=
  keyset_listed db (vcKeysetSequence e) (vcKeysetHash e) &&
  online_key_listed db (vcKeysetSequence e) (vcSigningKeyID e).

Definition control_supported (db : VaultDB) (e : VerifiedControl) : bool :=
  bool_decide (is_Some (dbAuthority db !! vcInstallationBindingID e)) && receipt_present db e &&
  control_keys_listed db e.

Definition insert_control (e : VerifiedControl) (contiguous : bool) (db : VaultDB) : option VaultDB :=
  match dbControls db !! control_key e with
  | Some _ => None
  | None =>
      bail negb (all_rows (fun _ row => negb (beq (vcSignedObjectHash (crEvent row)) (vcSignedObjectHash e)))
                   (dbControls db)) with None;;
      bail negb (control_columns e contiguous && control_supported db e) with None;;
      Some (put_control e contiguous db)
  end.

Definition stored_assertion (a : VerifiedAssertion) : VerifiedAssertion := {|
  vaHash := vaHash a; vaInstallationBindingID := vaInstallationBindingID a;
  vaSequencerEpoch := vaSequencerEpoch a; vaStreamSequence := vaStreamSequence a;
  vaBindingID := vaBindingID a; vaBindingVersion := vaBindingVersion a; vaLeaseID := vaLeaseID a;
  vaTupleCommitment := vaTupleCommitment a; vaTupleCommitmentKeyID := vaTupleCommitmentKeyID a;
  vaRosterCommitment := vaRosterCommitment a; vaRosterCommitmentKeyID := vaRosterCommitmentKeyID a;
  vaTopicBinding := vaTopicBinding a; vaTopicKeyEpoch := vaTopicKeyEpoch a;
  vaTopicCommitmentKeyID := vaTopicCommitmentKeyID a;
  vaConversationGeneration := vaConversationGeneration a; vaRosterVersion := vaRosterVersion a;
  vaIssuedAt := pg_timestamp (vaIssuedAt a); vaExpiresAt := pg_timestamp (vaExpiresAt a);
  vaSigningKeyID := vaSigningKeyID a; vaKeysetSequence := vaKeysetSequence a;
  vaKeysetHash := vaKeysetHash a |}.

Definition put_assertion (a : VerifiedAssertion) (db : VaultDB) : VaultDB :=
  with_Assertions (<[vaHash a := stored_assertion a]> (dbAssertions db)) db.

(** The checks on the columns of [a9_assertions]. *)
Definition assertion_columns (a : VerifiedAssertion) : bool :=
  octets 32 (vaHash a) && octets 16 (vaInstallationBindingID a) && octets 16 (vaSequencerEpoch a) &&
  octets 16 (vaBindingID a) && octets 16 (vaLeaseID a) && octets 32 (vaTupleCommitment a) &&
  octets 32 (vaTupleCommitmentKeyID a) && octets 32 (vaRosterCommitment a) &&
  octets 32 (vaRosterCommitmentKeyID a) && octets 32 (vaTopicBinding a) &&
  octets 32 (vaTopicCommitmentKeyID a) && octets 32 (vaSigningKeyID a) && octets 32 (vaKeysetHash a) &&
  ranged 1 (vaStreamSequence a) a9MaxSafeInteger && ranged 1 (vaBindingVersion a) a9MaxSafeInteger &&
  ranged 1 (vaTopicKeyEpoch a) 4294967295 && ranged 1 (vaConversationGeneration a) 2147483647 &&
  ranged 1 (vaRosterVersion a) 2147483647 && ranged 1 (vaKeysetSequence a) a9MaxSafeInteger &&
  short_window (vaIssuedAt a) (vaExpiresAt a).

(** The UPSERT the assertion came with is on record. *)
Definition control_present (db : VaultDB) (a : VerifiedAssertion) : bool :=
  match dbControls db !! (vaInstallationBindingID a, vaSequencerEpoch a, vaStreamSequence a) with
  | Some row =>
      beq (vcBindingID (crEvent row)) (vaBindingID a) && (vcBindingVersion (crEvent row) =? vaBindingVersion a) &&
      beq (vcAssertionHash (crEvent row)) (vaHash a) && (vcAction (crEvent row) =? 1) &&
      (vcReason (crEvent row) =? 0)
  | None => false
  end.

(** The keys the assertion names: the signing key and the three commitment keys, the topic's
    with its epoch. *)
Definition assertion_keys_listed (db : VaultDB) (a : VerifiedAssertion) : bool :=
  keyset_listed db (vaKeysetSequence a) (vaKeysetHash a) &&
  online_key_listed db (vaKeysetSequence a) (vaSigningKeyID a) &&
  bool_decide (is_Some (dbCommitmentKeys db !! (vaKeysetSequence a, 2, vaTupleCommitmentKeyID a))) &&
  bool_decide (is_Some (dbCommitmentKeys db !! (vaKeysetSequence a, 1, vaRosterCommitmentKeyID a))) &&
  bool_decide ((dbCommitmentKeys db !! (vaKeysetSequence a, 3, vaTopicCommitmentKeyID a)) ≫= ckTopicKeyEpoch
               = Some (vaTopicKeyEpoch a)).

Definition assertion_supported (db : VaultDB) (a : VerifiedAssertion) : bool :=
  control_present db a && assertion_keys_listed db a.

Definition insert_assertion (a : VerifiedAssertion) (db : VaultDB) : option VaultDB :=
  match dbAssertions db !! vaHash a with
  | Some _ => None
  | None =>
      bail negb (assertion_columns a && assertion_supported db a) with None;;
      Some (put_assertion a db)
  end.

Definition stored_watermark (w : VerifiedWatermark) : VerifiedWatermark := {|
  vwEnvironment := vwEnvironment w; vwInstallationBindingID := vwInstallationBindingID w;
  vwSequencerEpoch := vwSequencerEpoch w; vwWatermarkSequence := vwWatermarkSequence w;
  vwCommittedThroughStreamSequence := vwCommittedThroughStreamSequence w; vwStatus := vwStatus w;
  vwUncertaintyReason := vwUncertaintyReason w; vwIssuedAt := pg_timestamp (vwIssuedAt w);
  vwExpiresAt := pg_timestamp (vwExpiresAt w); vwSigningKeyID := vwSigningKeyID w;
  vwSignedObjectHash := vwSignedObjectHash w; vwKeysetSequence := vwKeysetSequence w;
  vwKeysetHash := vwKeysetHash w |}.

Definition watermark_key (w : VerifiedWatermark) : bytes * bytes * Z :=
  (vwInstallationBindingID w, vwSequencerEpoch w, vwWatermarkSequence w).

Definition put_watermark (w : VerifiedWatermark) (db : VaultDB) : VaultDB :=
  with_Watermarks (<[watermark_key w := stored_watermark w]> (dbWatermarks db)) db.

(** The checks on the columns of [a9_watermarks]. *)
Definition watermark_row_columns (w : VerifiedWatermark) : bool :=
  octets 16 (vwInstallationBindingID w) && octets 16 (vwSequencerEpoch w) && octets 32 (vwSignedObjectHash w) &&
  octets 32 (vwSigningKeyID w) && octets 32 (vwKeysetHash w) &&
  ranged 1 (vwWatermarkSequence w) a9MaxSafeInteger &&
  ranged 0 (vwCommittedThroughStreamSequence w) a9MaxSafeInteger &&
  ranged 1 (vwKeysetSequence w) a9MaxSafeInteger && short_window (vwIssuedAt w) (vwExpiresAt w) &&
  (((vwStatus w =? WatermarkStatusCurrent) && (vwUncertaintyReason w =? 0)) ||
   ((vwStatus w =? WatermarkStatusUncertain) && ranged 1 (vwUncertaintyReason w) 5)).

Definition watermark_supported (db : VaultDB) (w : VerifiedWatermark) : bool :=
  keyset_listed db (vwKeysetSequence w) (vwKeysetHash w) &&
  online_key_listed db (vwKeysetSequence w) (vwSigningKeyID w).

Definition insert_watermark (w : VerifiedWatermark) (db : VaultDB) : option VaultDB :=
  match dbWatermarks db !! watermark_key w with
  | Some _ => None
  | None =>
      bail negb (all_rows (fun _ row => negb (beq (vwSignedObjectHash row) (vwSignedObjectHash w)))
                   (dbWatermarks db)) with None;;
      bail negb (watermark_row_columns w && watermark_supported db w) with None;;
      Some (put_watermark w db)
  end.

(** An accepted insertion is the row put in its table. *)
Lemma insert_control_put e contiguous db db' :
  insert_control e contiguous db = Some db' ->
  dbControls db !! control_key e = None /\ db' = put_control e contiguous db.
Proof.
  unfold insert_control. destruct (dbControls db !! control_key e); [done|].
  do 2 (destruct (negb _); [done|]). by intros [= <-].
Qed.

Lemma insert_assertion_put a db db' :
  insert_assertion a db = Some db' -> dbAssertions db !! vaHash a = None /\ db' = put_assertion a db.
Proof.
  unfold insert_assertion. destruct (dbAssertions db !! vaHash a); [done|].
  destruct (negb _); [done|]. by intros [= <-].
Qed.

Lemma insert_watermark_put w db db' :
  insert_watermark w db = Some db' ->
  dbWatermarks db !! watermark_key w = None /\ db' = put_watermark w db.
Proof.
  unfold insert_watermark. destruct (dbWatermarks db !! watermark_key w); [done|].
  do 2 (destruct (negb _); [done|]). by intros [= <-].
Qed.

End WithPostgres.

Definition put_tombstone (inst binding : bytes) (version : Z) (row : TombstoneRow) (db : VaultDB)
  : VaultDB := with_Tombstones (<[(inst, binding, version) := row]> (dbTombstones db)) db.

Definition insert_tombstone (inst binding : bytes) (version : Z) (row : TombstoneRow) (db : VaultDB)
  : option VaultDB :=
  match dbTombstones db !! (inst, binding, version) with
  | Some _ => None
  | None => Some (put_tombstone inst binding version row db)
  end.

Definition put_binding (inst binding : bytes) (row : BindingRow) (db : VaultDB) : VaultDB :=
  with_Bindings (<[(inst, binding) := row]> (dbBindings db)) db.

(** [INSERT ... ON CONFLICT DO UPDATE] of every column. *)
Definition upsert_binding (inst binding : bytes) (row : BindingRow) (db : VaultDB) : option VaultDB :=
  checked routes_supported (put_binding inst binding row db).

Definition drop_bindings (inst : bytes) (db : VaultDB) : VaultDB :=
  with_Bindings (filter (fun kv => kv.1.1 <> inst) (dbBindings db)) db.

Definition delete_bindings (inst : bytes) (db : VaultDB) : option VaultDB :=
  checked routes_supported
    (drop_bindings inst db).

(** Routes and jobs of one installation, and of one binding of it unless none is named. *)
Definition names (inst : bytes) (binding : option bytes) (c : RouteColumns) : bool :=
  beq (roInstallation c) inst && match binding with Some b => beq (roBinding c) b | None => true end.

Definition drop_routes (inst : bytes) (binding : option bytes) (db : VaultDB) : VaultDB :=
  with_Routes (filter (fun kv => names inst binding (roColumns kv.2) = false) (dbRoutes db)) db.

Definition delete_routes (inst : bytes) (binding : option bytes) (db : VaultDB) : option VaultDB :=
  checked jobs_supported
    (drop_routes inst binding db).

Definition deliveryJobPending : Z := 1.
Definition deliveryJobClaimed : Z := 2.
Definition deliveryJobFinal : Z := 5.

Definition job_live (j : JobRow) : bool :=
  (jbState j =? deliveryJobPending) || (jbState j =? deliveryJobClaimed).

Definition cancelled (inst : bytes) (binding : option bytes) (j : JobRow) : bool :=
  job_live j && match jbA9 j with Some c => names inst binding c | None => false end.

(** ** Queries *)

Definition highest_tombstone (db : VaultDB) (inst binding : bytes) : option Z :=
  foldr (fun kv best =>
           if beq kv.1.1.1 inst && beq kv.1.1.2 binding
           then Some (match best with Some v => Z.max kv.1.2 v | None => kv.1.2 end) else best)
    None (map_to_list (dbTombstones db)).

Definition epoch_observed (db : VaultDB) (inst epoch : bytes) : bool :=
  negb (all_rows (fun k _ => negb (beq k.1.1 inst && beq k.1.2 epoch)) (dbControls db)) ||
  negb (all_rows (fun k _ => negb (beq k.1.1 inst && beq k.1.2 epoch)) (dbWatermarks db)) ||
  negb (all_rows (fun _ row => negb (beq (rcInstallation row) inst && beq (rcEpoch row) epoch))
          (dbReceipts db)).

Definition watermark_by_hash (db : VaultDB) (hash : bytes) : option VerifiedWatermark :=
  snd <$> find (fun kv => beq (vwSignedObjectHash kv.2) hash) (map_to_list (dbWatermarks db)).

(** ** Lemmas on the tables *)

Lemma all_rows_true {K V : Type} `{Countable K} (p : K -> V -> bool) (m : gmap K V) :
  all_rows p m = true <-> map_Forall (fun k v => p k v = true) m.
Proof.
  unfold all_rows. rewrite map_Forall_to_list, Forall_forall, forallb_forall.
  setoid_rewrite <- list_elem_of_In. split; intros Ha [k v]; apply (Ha (k, v)).
Qed.

Lemma checked_some p db db' : checked p db = Some db' <-> p db = true /\ db' = db.
Proof. unfold checked. destruct (p db); naive_solver. Qed.

Lemma highest_in_list (l : list ((bytes * bytes * Z) * TombstoneRow)) inst binding :
  let present v := exists row, ((inst, binding, v), row) ∈ l in
  match foldr (fun kv best =>
           if beq kv.1.1.1 inst && beq kv.1.1.2 binding
           then Some (match best with Some v => Z.max kv.1.2 v | None => kv.1.2 end) else best)
    None l with
  | None => forall v, ~ present v
  | Some top => present top /\ forall v, present v -> v <= top
  end.
Proof.
  induction l as [|[[[i b] v] row] l IH]; simpl.
  { intros v [row Hr]. by apply elem_of_nil in Hr. }
  assert (Hc : forall u, (exists r, ((inst, binding, u), r) ∈ ((i, b, v), row) :: l) <->
      (inst = i /\ binding = b /\ u = v) \/ exists r, ((inst, binding, u), r) ∈ l).
  { intros u. setoid_rewrite elem_of_cons. naive_solver. }
  destruct (beq i inst && beq b binding) eqn:E.
  - apply andb_true_iff in E as [->%beq_true ->%beq_true].
    destruct (foldr _ None l) as [top|]; split; try (apply Hc; by left).
    + destruct IH as [Ht _]. apply Hc. destruct (Z.max_spec v top) as [[_ ->]|[_ ->]]; auto.
    + destruct IH as [_ Hle]. intros u [(_ & _ & ->)|Hu]%Hc; [lia|]. specialize (Hle _ Hu). lia.
    + intros u [(_ & _ & ->)|Hu]%Hc; [lia|]. by destruct (IH u).
  - assert (Hno : ~ (inst = i /\ binding = b)) by (intros [-> ->]; by rewrite !beq_refl in E).
    destruct (foldr _ None l) as [top|].
    + destruct IH as [Ht Hle]. split; [apply Hc; by right|]. intros u [Hu|Hu]%Hc; [naive_solver|auto].
    + intros u [Hu|Hu]%Hc; [naive_solver|]. by apply (IH u).
Qed.

Lemma highest_tombstone_spec db inst binding :
  match highest_tombstone db inst binding with
  | None => forall v, dbTombstones db !! (inst, binding, v) = None
  | Some top => is_Some (dbTombstones db !! (inst, binding, top)) /\
      forall v, is_Some (dbTombstones db !! (inst, binding, v)) -> v <= top
  end.
Proof.
  unfold highest_tombstone.
  assert (Hl : forall v, is_Some (dbTombstones db !! (inst, binding, v)) <->
    exists row, ((inst, binding, v), row) ∈ map_to_list (dbTombstones db)).
  { intros v. split; intros [row Hr]; exists row; by apply elem_of_map_to_list. }
  pose proof (highest_in_list (map_to_list (dbTombstones db)) inst binding) as Hs.
  destruct (foldr _ None _) as [top|].
  - destruct Hs as [Ht Hle]. split; [by apply Hl|]. intros v Hv. apply Hle, Hl, Hv.
  - intros v. apply eq_None_not_Some. intros Hv%Hl. exact (Hs v Hv).
Qed.

Lemma epoch_observed_false db inst epoch :
  epoch_observed db inst epoch = false <->
  (forall n, dbControls db !! (inst, epoch, n) = None) /\
  (forall n, dbWatermarks db !! (inst, epoch, n) = None) /\
  (forall k row, dbReceipts db !! k = Some row -> ~ (rcInstallation row = inst /\ rcEpoch row = epoch)).
Proof.
  assert (Hk : forall V (m : gmap (bytes * bytes * Z) V),
    map_Forall (fun k _ => negb (beq k.1.1 inst && beq k.1.2 epoch) = true) m <->
    forall n, m !! (inst, epoch, n) = None).
  { intros V m. split.
    - intros Hm n. apply eq_None_not_Some. intros [v Hv]. specialize (Hm _ _ Hv). simpl in Hm.
      by rewrite !beq_refl in Hm.
    - intros Hn [[i e] n] v Hv. apply negb_true_iff, not_true_iff_false. cbn [fst snd].
      intros [->%beq_true ->%beq_true]%andb_true_iff. by rewrite Hn in Hv. }
  unfold epoch_observed. rewrite !orb_false_iff, !negb_false_iff, !all_rows_true, !Hk.
  assert (Hr : map_Forall (fun _ row => negb (beq (rcInstallation row) inst && beq (rcEpoch row) epoch) = true)
      (dbReceipts db) <->
    (forall k row, dbReceipts db !! k = Some row -> ~ (rcInstallation row = inst /\ rcEpoch row = epoch))).
  { unfold map_Forall. setoid_rewrite negb_true_iff. setoid_rewrite <- not_true_iff_false.
    setoid_rewrite andb_true_iff. by setoid_rewrite beq_true. }
  rewrite Hr. tauto.
Qed.

Lemma watermark_by_hash_some db hash w :
  watermark_by_hash db hash = Some w ->
  vwSignedObjectHash w = hash /\ exists k, dbWatermarks db !! k = Some w.
Proof.
  unfold watermark_by_hash. intros (kv & Hf & ->)%fmap_Some_1.
  apply find_some in Hf as [Hin ->%beq_true]. split; [done|]. exists kv.1.
  apply elem_of_map_to_list. destruct kv. by apply list_elem_of_In.
Qed.

Lemma watermark_by_hash_none db hash :
  watermark_by_hash db hash = None ->
  forall k w, dbWatermarks db !! k = Some w -> vwSignedObjectHash w <> hash.
Proof.
  unfold watermark_by_hash. intros Hn%fmap_None k w Hw Hh.
  apply elem_of_map_to_list, list_elem_of_In in Hw.
  apply (find_none _ _ Hn) in Hw. simpl in Hw. by rewrite Hh, beq_refl in Hw.
Qed.
