(* ===== verification/ReplayReceipts.v ===== *)
(** * The durable fence against replayed service tokens

    src/pkg/db/a9_store.go (A9ReplayStore): the identifier of a token is inserted once for an
    environment and kept until the token can no longer be accepted; expired receipts are
    purged by the clock of the database. *)

From S2P Require Import Prelude GoBytes GoTime GoCrypto JsonText Jcs A9Schema A9Types A9Trust Sql A9VaultDb ServiceAuth.
Local Open Scope Z_scope.
Local Open Scope go_scope.

(** A row of [a9_service_jti_receipts]; the table by environment and identifier. *)
Record JtiRow := { jtExpiresAt : Z; jtDeleteAfter : Z; jtConsumedAt : Z }.

Abbreviation JtiDB := (gmap (Z * bytes) JtiRow).

Definition a9EnvironmentID (environment : bytes) : option Z :=
  if beq environment (str "dev") then Some 1 else if beq environment (str "production") then Some 2 else None.

Definition validCanonicalA9UUID (value : bytes) : bool := (length value =? 36)%nat && uuid_bytes 0 value.

(** What the outside gives to one consumption: the attempt with the first reading of the
    database clock, the second reading after the insert, whether the context has ended. *)
Record ConsumeRound := { crAttempt : Attempt; crCommitClock : Z; crCancelled : bool }.

Section Store.
Context `{Postgres}.

#[local] Abbreviation ts := pg_timestamp.

(** [INSERT ... ON CONFLICT DO NOTHING] with the checks of the table, and whether a row went in. *)
Definition insert_jti (environmentID : Z) (jti : bytes) (row : JtiRow) (db : JtiDB) : option (JtiDB * bool) :=
  uuid ← pg_uuid jti;
  bail negb (jtDeleteAfter row =? jtExpiresAt row + 5 * second) || (jtDeleteAfter row <? jtConsumedAt row) with None;;
  match db !! (environmentID, uuid) with
  | Some _ => Some (db, false)
  | None => Some (<[(environmentID, uuid) := row]> db, true)
  end.

Definition consume_tx (environmentID : Z) (jti : bytes) (retainUntil clock commitClock : Z) : @tx JtiDB bool :=
  databaseNow ← query (fun _ => clock);
  ensure (negb (after databaseNow retainUntil)) ErrStoreUnavailable ;;
  inserted ← update (insert_jti environmentID jti {|
    jtExpiresAt := ts (retainUntil - 5 * second); jtDeleteAfter := ts retainUntil; jtConsumedAt := ts databaseNow |});
  (if (inserted : bool) then
     commitNow ← query (fun _ => commitClock);
     ensure (negb (after commitNow retainUntil)) ErrStoreUnavailable
   else mret tt) ;;
  mret inserted.

(** [None] is the one error of the store. *)
Definition Consume (round : ConsumeRound) : Consumer JtiDB := fun environment jti retainUntil now db =>
  match a9EnvironmentID environment with
  | None => (db, None)
  | Some environmentID =>
      if negb (validCanonicalA9UUID jti) || crCancelled round || is_zero retainUntil || is_zero now ||
         after now retainUntil
      then (db, None) else
      let att := crAttempt round in
      match run_tx (consume_tx environmentID jti retainUntil (atNow att) (crCommitClock round)) att db with
      | (db', Ok inserted) => (db', Some inserted)
      | (db', Err _) => (db', None)
      end
  end.

(** The rows that the database's clock has passed; the number is the answer. *)
Definition purge_expired (clock : Z) (db : JtiDB) : JtiDB :=
  filter (fun kv => (jtDeleteAfter kv.2 <? clock) = false) db.

Definition PurgeExpired (att : Attempt) (cancelled : bool) (db : JtiDB) : JtiDB * option nat :=
  if cancelled then (db, None) else
  let body := update (fun db => let db' := purge_expired (atNow att) db in Some (db', size db - size db')%nat) in
  match run_tx body att db with
  | (db', Ok rows) => (db', Some rows)
  | (db', Err _) => (db', None)
  end.

(** ** Runs *)

(** A consumed token: environment, identifier and end of retention. *)
Definition token : Type := Z * bytes * Z.

Definition token_of (environment jti : bytes) (retainUntil : Z) : option token :=
  environmentID ← a9EnvironmentID environment;
  uuid ← pg_uuid jti;
  Some (environmentID, uuid, retainUntil).

(** The table, the clock of the database, and the tokens the store answered with a first
    consumption. A call reads the clock when it likes; it commits not before the others did. *)
Inductive replay_step : JtiDB * Z * list token -> JtiDB * Z * list token -> Prop :=
| replay_consume db clock log round environment jti retainUntil now t db' :
    clock <= crCommitClock round -> (second | retainUntil) -> token_of environment jti retainUntil = Some t ->
    Consume round environment jti retainUntil now db = (db', Some true) ->
    replay_step (db, clock, log) (db', crCommitClock round, log ++ [t])
| replay_other db clock log round environment jti retainUntil now db' answer :
    clock <= crCommitClock round -> answer <> Some true ->
    Consume round environment jti retainUntil now db = (db', answer) ->
    replay_step (db, clock, log) (db', crCommitClock round, log)
| replay_purge db clock log att cancelled db' answer :
    clock <= atNow att -> PurgeExpired att cancelled db = (db', answer) ->
    replay_step (db, clock, log) (db', atNow att, log).

(** ** The fence holds *)

Lemma insert_jti_some environmentID jti row db db' b :
  insert_jti environmentID jti row db = Some (db', b) ->
  exists uuid, pg_uuid jti = Some uuid /\
    ((b = true /\ db !! (environmentID, uuid) = None /\ db' = <[(environmentID, uuid) := row]> db) \/
     (b = false /\ db' = db)).
Proof.
  unfold insert_jti. intros (uuid & Hu & H')%bind_Some. exists uuid. split; [done|].
  destruct (_ || _); [done|]. destruct (db !! _) eqn:E; injection H' as <- <-; [by right|by left].
Qed.

(** A consumption commits a new row in time, or leaves the table. *)
Lemma consume_tx_ok environmentID jti retainUntil clock commitClock st st' b :
  consume_tx environmentID jti retainUntil clock commitClock st = Ok (b, st') ->
  exists uuid, pg_uuid jti = Some uuid /\
    ((b = true /\ txDb st !! (environmentID, uuid) = None /\ commitClock <= retainUntil /\
      exists row, txDb st' = <[(environmentID, uuid) := row]> (txDb st) /\ jtDeleteAfter row = ts retainUntil) \/
     (b = false /\ txDb st' = txDb st)).
Proof.
  unfold consume_tx. intros (n & s1 & [-> E1]%query_ok & H')%tx_bind_ok.
  apply tx_bind_ok in H' as (? & s2 & [_ ->]%ensure_ok & H').
  apply tx_bind_ok in H' as (inserted & s3 & Hi%update_ok & H').
  apply insert_jti_some in Hi as (uuid & Hu & Hi). exists uuid. split; [done|]. rewrite E1 in Hi.
  apply tx_bind_ok in H' as (? & s4 & Hc & [-> ->]%ret_ok).
  destruct Hi as [(-> & Hn & E3)|[-> E3]].
  - apply tx_bind_ok in Hc as (c & s5 & [-> E5]%query_ok & [Hc ->]%ensure_ok).
    unfold after in Hc. boolprop. left. split; [done|]. split; [done|]. split; [lia|]. eexists.
    rewrite E5, E3. done.
  - apply ret_ok in Hc as [_ ->]. right. split; [done|]. exact E3.
Qed.

Lemma Consume_ok round environment jti retainUntil now db db' answer :
  Consume round environment jti retainUntil now db = (db', answer) ->
  (db' = db /\ answer <> Some true) \/
  exists environmentID uuid row, token_of environment jti retainUntil = Some (environmentID, uuid, retainUntil) /\
    db !! (environmentID, uuid) = None /\ crCommitClock round <= retainUntil /\
    db' = <[(environmentID, uuid) := row]> db /\ jtDeleteAfter row = ts retainUntil.
Proof.
  unfold Consume, token_of. destruct (a9EnvironmentID environment) as [environmentID|]; [|intros [= <- <-]; by left].
  destruct (_ || _); [intros [= <- <-]; by left|]. cbv zeta.
  destruct (run_tx _ _ _) as [db1 r] eqn:Er.
  apply run_tx_cases in Er as [(-> & e & ->)|(b & st & Hb%consume_tx_ok & -> & Hr)]; [intros [= <- <-]; by left|].
  destruct Hb as (uuid & Hu & [(-> & Hn & Hc & row & E & Hd)|[-> E]]); cbn [txDb] in *.
  - intros Hx. right. exists environmentID, uuid, row. rewrite Hu. split; [done|]. split; [done|]. split; [done|].
    split; [|done]. rewrite <-E. by destruct Hr as [->|[e ->]]; injection Hx as <-.
  - intros Hx. left. rewrite <-E. by destruct Hr as [->|[e ->]]; injection Hx as <- <-.
Qed.

(** Every token answered before has its row, or its time is over. *)
Definition fenced (state : JtiDB * Z * list token) : Prop :=
  let '(db, clock, log) := state in
  (forall environmentID uuid retainUntil, (environmentID, uuid, retainUntil) ∈ log ->
     retainUntil < clock \/
     exists row, db !! (environmentID, uuid) = Some row /\ retainUntil <= jtDeleteAfter row) /\
  NoDup log.

Hypothesis ts_seconds : forall t, (second | t) -> ts t = t.

Lemma step_fenced before after : replay_step before after -> fenced before -> fenced after.
Proof.
  intros [db clock log round environment jti retainUntil now t db' Hc Hs Ht Hx
    |db clock log round environment jti retainUntil now db' answer Hc Ha Hx
    |db clock log att cancelled db' answer Hc Hx] [Hf Hd].
  - apply Consume_ok in Hx as [[_ []]|(environmentID & uuid & row & Ht' & Hn & Hle & -> & Hrow)]; [done|].
    rewrite Ht in Ht'. injection Ht' as ->. rewrite (ts_seconds _ Hs) in Hrow. split.
    + intros e u r [Hin|[= -> -> ->]%list_elem_of_singleton]%elem_of_app.
      * destruct (Hf _ _ _ Hin) as [|(row' & E & Hr)]; [left; lia|right]. exists row'. split; [|done].
        rewrite lookup_insert_ne; [done|]. intros [= <- <-]. congruence.
      * right. exists row. rewrite lookup_insert_eq. split; [done|lia].
    + apply NoDup_app. split; [done|]. split; [|apply NoDup_singleton].
      intros [[e u] r] Hin [= -> -> ->]%list_elem_of_singleton.
      destruct (Hf _ _ _ Hin) as [|(row' & E & _)]; [lia|congruence].
  - split; [|done]. intros e u r Hin. destruct (Hf _ _ _ Hin) as [|(row' & E & Hr)]; [left; lia|].
    apply Consume_ok in Hx as [[-> _]|(environmentID & uuid & row & _ & Hn & _ & -> & _)]; [right; eauto|].
    right. exists row'. split; [|done]. rewrite lookup_insert_ne; [done|]. intros [= <- <-]. congruence.
  - split; [|done]. intros e u r Hin. destruct (Hf _ _ _ Hin) as [|(row' & E & Hr)]; [left; lia|].
    assert (Hdb : db' = db \/ db' = purge_expired (atNow att) db).
    { unfold PurgeExpired in Hx. destruct cancelled; [injection Hx as <- _; by left|]. cbv zeta in Hx.
      destruct (run_tx _ _ _) as [db1 r1] eqn:Er.
      assert (db' = db1) as -> by (by destruct r1; injection Hx as <- _).
      apply run_tx_cases in Er as [[-> _]|(n & st & Hb%update_ok & -> & _)]; [by left|]. right. by injection Hb as <- _. }
    destruct Hdb as [->| ->]; [right; eauto|]. destruct (Z.ltb_spec (jtDeleteAfter row') (atNow att)); [left; lia|].
    right. exists row'. split; [|done]. apply map_lookup_filter_Some. split; [done|]. cbn. by apply Z.ltb_ge.
Qed.

End Store.
