(* ===== verification/A9Vault.v ===== *)
(** * The A9 control vault

    src/pkg/vault/a9_store.go with the guards it calls: the keyset and retention checks
    (key_binding.go, retention_guard.go, retention.go), the application of control events
    and of watermarks as retried serializable transactions, the uncertainty latch, the
    epoch reset, receipts, tombstones and the cancellation of routes and delivery jobs. *)

From S2P Require Import Prelude GoBytes GoTime GoCrypto VaultCrypto Gate8Header Interfaces Sql A9Types A9VaultDb.
Local Open Scope Z_scope.
Local Open Scope go_scope.

(** ** Constants *)

Definition a9OperationControl : Z := 1.
Definition a9OperationReplace : Z := 2.

Definition a9OutcomeApplied : Z := 1.
Definition a9OutcomeReplay : Z := 2.
Definition a9OutcomeStale : Z := 3.
Definition a9OutcomeGap : Z := 4.
Definition a9OutcomeConflict : Z := 5.
Definition a9OutcomeInconclusive : Z := 6.

Definition a9ResultActive : Z := 1.
Definition a9ResultRevoked : Z := 2.
Definition a9ResultUncertain : Z := 3.

Definition a9AuthorityActive : Z := 1.
Definition a9AuthorityUncertain : Z := 3.

Definition a9BindingActive : Z := 1.
Definition a9BindingRevoked : Z := 2.

Definition a9UncertaintyControlGap : Z := 1.
Definition a9UncertaintyIdempotency : Z := 2.
Definition a9UncertaintyControlRegression : Z := 3.
Definition a9UncertaintyEpoch : Z := 4.
Definition a9UncertaintyWatermarkGap : Z := 5.
Definition a9UncertaintyWatermarkRollback : Z := 6.
Definition a9UncertaintyArtifactExpired : Z := 7.
Definition a9UncertaintySignedWatermark : Z := 8.
Definition a9UncertaintyBindingConflict : Z := 9.

Definition a9TransactionAttempts : nat := 4.
Definition DeliveryTrafficUnknown : Z := 0.
Definition DeliveryFinalSafetyInvalidated : Z := 4.

(** A store with its database; [stLookupRoot] is the root of its lookup key. *)
Record Store := {
  stEnvironment : bytes; stEnvironmentID : Z; stLookupRoot : bytes; stA9Enabled : bool;
  stEncryption : Keyring; stTeenConversationEnabled : bool;
  stAuthorityKeys : gmap bytes bytes; stLeaseTTL : Z }.

(** [NewStore] refuses the option and stores [false]. *)
Definition stWelcomeEnabled (s : Store) : bool := false.

Abbreviation vault_tx A := (tx VaultDB A).

(** An error of the calls below a [storeDatabaseError] that classifies it: only
    serialization failures survive, and these calls never return one. *)
Definition collapsed {A : Type} (m : vault_tx A) : vault_tx A := fun s =>
  match m s with Ok x => Ok x | Err _ => Err ErrStoreUnavailable end.

Definition require (c : bool) : vault_tx () := if c then mret tt else fail_with ErrStoreUnavailable.

(** ** Results *)

Definition decodeA9ResultState (value : Z) : bytes :=
  if value =? a9ResultActive then ResultStateActive
  else if value =? a9ResultRevoked then ResultStateRevoked
  else if value =? a9ResultUncertain then ResultStateUncertain else [].

Definition decodeA9ResultOutcome (value : Z) : bytes :=
  if value =? a9OutcomeApplied then ResultOutcomeApplied
  else if value =? a9OutcomeReplay then ResultOutcomeReplay
  else if value =? a9OutcomeStale then ResultOutcomeStale
  else if value =? a9OutcomeGap then ResultOutcomeGap
  else if value =? a9OutcomeConflict then ResultOutcomeConflict
  else if value =? a9OutcomeInconclusive then ResultOutcomeInconclusive else [].

Definition encodeA9Result (result : Result) : option (Z * Z) :=
  outcome ← (if beq (reOutcome result) ResultOutcomeApplied then Some a9OutcomeApplied
             else if beq (reOutcome result) ResultOutcomeReplay then Some a9OutcomeReplay
             else if beq (reOutcome result) ResultOutcomeStale then Some a9OutcomeStale
             else if beq (reOutcome result) ResultOutcomeGap then Some a9OutcomeGap
             else if beq (reOutcome result) ResultOutcomeConflict then Some a9OutcomeConflict
             else if beq (reOutcome result) ResultOutcomeInconclusive then Some a9OutcomeInconclusive
             else None);
  state ← (if beq (reState result) ResultStateActive then Some a9ResultActive
           else if beq (reState result) ResultStateRevoked then Some a9ResultRevoked
           else if beq (reState result) ResultStateUncertain then Some a9ResultUncertain
           else None);
  Some (outcome, state).

Definition a9Result (s : Store) (inst epoch : bytes) (generation state outcome sequence : Z) : Result := {|
  reEnvironment := stEnvironment s; reInstallationBindingID := inst; reSequencerEpoch := epoch;
  reSubscriptionGeneration := generation; reState := decodeA9ResultState state;
  reOutcome := decodeA9ResultOutcome outcome; reAcceptedStreamSequence := sequence |}.

(** ** Guards *)

Definition validA9Control (s : Store) (event : VerifiedControl) : bool :=
  bail negb (beq (vcEnvironment event) (stEnvironment s)) || (vcStreamSequence event =? 0) ||
       (a9MaxSafeInteger <? vcStreamSequence event) ||
       (a9MaxSafeInteger <? vcExpectedPreviousSequence event) ||
       negb (vcStreamSequence event =? w64 (vcExpectedPreviousSequence event + 1)) ||
       (vcBindingVersion event =? 0) || (a9MaxSafeInteger <? vcBindingVersion event) ||
       (a9MaxSafeInteger <? vcExpectedBindingVersion event) ||
       negb (vcBindingVersion event =? w64 (vcExpectedBindingVersion event + 1)) ||
       (vcKeysetSequence event =? 0) || (a9MaxSafeInteger <? vcKeysetSequence event) ||
       beq (vcIdempotencyKey event) [] || is_zero (vcExpiresAt event) ||
       negb (after (vcExpiresAt event) (vcIssuedAt event)) ||
       (30 * second <? time_sub (vcExpiresAt event) (vcIssuedAt event)) with false;;
  if vcAction event =? ControlActionUpsert then
    bail negb (vcReason event =? ControlReasonNone) with false;;
    match vcAssertion event with
    | None => false
    | Some a =>
        beq (vaHash a) (vcAssertionHash event) &&
        beq (vaInstallationBindingID a) (vcInstallationBindingID event) &&
        beq (vaSequencerEpoch a) (vcSequencerEpoch event) &&
        (vaStreamSequence a =? vcStreamSequence event) &&
        beq (vaBindingID a) (vcBindingID event) &&
        (vaBindingVersion a =? vcBindingVersion event) &&
        (vaKeysetSequence a =? vcKeysetSequence event) &&
        beq (vaKeysetHash a) (vcKeysetHash event) &&
        after (vaExpiresAt a) (vaIssuedAt a) &&
        (time_sub (vaExpiresAt a) (vaIssuedAt a) <=? 30 * second)
    end
  else if vcAction event =? ControlActionRevoke then
    bool_decide (vcAssertion event = None) && (ControlReasonAuthorityRevoked <=? vcReason event) &&
    (vcReason event <=? ControlReasonAuthorityReplaced)
  else false.

Definition validA9Watermark (s : Store) (watermark : VerifiedWatermark) : bool :=
  bail negb (beq (vwEnvironment watermark) (stEnvironment s)) ||
       (vwWatermarkSequence watermark =? 0) || (a9MaxSafeInteger <? vwWatermarkSequence watermark) ||
       (a9MaxSafeInteger <? vwCommittedThroughStreamSequence watermark) ||
       (vwKeysetSequence watermark =? 0) || (a9MaxSafeInteger <? vwKeysetSequence watermark) ||
       is_zero (vwExpiresAt watermark) || negb (after (vwExpiresAt watermark) (vwIssuedAt watermark)) ||
       (30 * second <? time_sub (vwExpiresAt watermark) (vwIssuedAt watermark)) with false;;
  if vwStatus watermark =? WatermarkStatusCurrent then
    vwUncertaintyReason watermark =? WatermarkUncertaintyNone
  else if vwStatus watermark =? WatermarkStatusUncertain then
    (WatermarkUncertaintySourceUnavailable <=? vwUncertaintyReason watermark) &&
    (vwUncertaintyReason watermark <=? WatermarkUncertaintyClock)
  else false.

Definition keyset_current (row : KeysetRow) (dbNow sequence : Z) (hash : bytes) : bool :=
  (ksSequence row =? sequence) && beq (default [] (ksHash row)) hash && (ksState row =? 1) &&
  (ksUncertainty row =? 0) &&
  match ksExpiresAt row with Some expiresAt => before dbNow expiresAt | None => false end &&
  after (ksRefreshedAt row) (dbNow - 6 * hour).

(** [dbNow] is the database clock, read by the same query. *)
Definition requireA9KeysetTx (dbNow sequence : Z) (hash : bytes) : vault_tx Z :=
  require (negb ((sequence =? 0) || (a9MaxSafeInteger <? sequence))) ;;
  row ← query dbKeyset;
  match row with
  | None => fail_with ErrStoreUnavailable
  | Some row => require (keyset_current row dbNow sequence hash) ;; mret dbNow
  end.

Definition requireLookupKeyBoundTx (s : Store) : vault_tx () :=
  require ((stEnvironmentID s =? 1) || (stEnvironmentID s =? 2)) ;;
  match RootCommitment (stLookupRoot s) with
  | Err _ => fail_with ErrStoreUnavailable
  | Ok commitment =>
      exec (fun db => Some (match dbKeyBinding db with
                            | Some _ => db
                            | None => with_KeyBinding (Some commitment) db
                            end)) ;;
      stored ← query dbKeyBinding;
      require (bool_decide (stored = Some commitment))
  end.

Definition retentionOutcomeComplete : Z := 2.

Definition retentionHealthSafe (now : Z) (row : RetentionRow) : bool :=
  rsIsSafe row &&
  negb match rsLastCompletedAt row, rsNextDeadlineAt row with
       | Some lastCompleted, Some nextDeadline =>
           negb (before now nextDeadline) ||
           match rsLastStartedAt row with Some t => after t lastCompleted | None => false end ||
           negb (rsFixedOutcome row =? retentionOutcomeComplete)
       | _, _ => true
       end.

Definition requireRetentionSafeTx (s : Store) (host : Z) : vault_tx () :=
  collapsed (
    requireLookupKeyBoundTx s ;;
    row ← query dbRetention;
    match row with
    | None => fail_with ErrStoreUnavailable
    | Some row => require (retentionHealthSafe host row)
    end).

Section Vault.
Context `{Postgres}.

(** ** Authority rows *)

Definition loadA9AuthorityTx (inst : bytes) : vault_tx (option AuthorityRow) :=
  query (fun db => dbAuthority db !! inst).

Definition fresh_authority (epoch : bytes) (state reason now : Z) : AuthorityRow := {|
  auEpoch := epoch; auContiguous := 0; auGeneration := 0; auState := state; auReason := reason;
  auWatermark := None; auUpdatedAt := now |}.

Definition insertA9AuthorityTx (inst epoch : bytes) (state reason now : Z) : vault_tx () :=
  exec (insert_authority inst (fresh_authority epoch state reason now)).

Definition latched (reason now : Z) (row : AuthorityRow) : AuthorityRow := {|
  auEpoch := auEpoch row; auContiguous := auContiguous row; auGeneration := auGeneration row;
  auState := a9AuthorityUncertain; auReason := reason; auWatermark := None; auUpdatedAt := now |}.

(** The update must hit exactly one row. *)
Definition latchA9UncertaintyTx (inst : bytes) (reason now : Z) : vault_tx () :=
  exec (fun db =>
    match dbAuthority db !! inst with
    | Some _ => Some (update_authority inst (latched reason now) db)
    | None => None
    end).

Definition a9EpochPreviouslyObservedTx (inst epoch : bytes) : vault_tx bool :=
  query (fun db => epoch_observed db inst epoch).

(** ** Routes and delivery jobs *)

Definition cancel_job (now : Z) (j : JobRow) : JobRow := {|
  jbLeaseID := None; jbInstallationLookup := None; jbEncryptedJob := [x00];
  jbState := deliveryJobFinal; jbAttempts := jbAttempts j; jbRetryExponent := 0; jbAvailableAt := now;
  jbExpiresAt := jbExpiresAt j; jbCreatedAt := jbCreatedAt j;
  jbTrafficClass := Some (default DeliveryTrafficUnknown (jbTrafficClass j));
  jbFinalReason := Some DeliveryFinalSafetyInvalidated; jbA9 := None |}.

Definition cancel_jobs (inst : bytes) (binding : option bytes) (now : Z) (db : VaultDB) : VaultDB :=
  with_Jobs ((fun j => if cancelled inst binding j then cancel_job now j else j) <$> dbJobs db) db.

(** An empty [bindingID] is a nil one and selects every binding. *)
Definition scope_of (bindingID : bytes) : option bytes :=
  if (length bindingID =? 0)%nat then None else Some bindingID.

(** The two locking queries come first. *)
Definition cancelA9RoutesTx (inst bindingID : bytes) (now : Z) : vault_tx () :=
  require (negb (is_zero now || (negb (length bindingID =? 0)%nat && negb (length bindingID =? 16)%nat))) ;;
  query (fun _ => tt) ;;
  query (fun _ => tt) ;;
  exec (fun db => Some (cancel_jobs inst (scope_of bindingID) now db)).

Definition reset_row (epoch : bytes) (now : Z) (row : AuthorityRow) : AuthorityRow := {|
  auEpoch := epoch; auContiguous := 0; auGeneration := auGeneration row;
  auState := a9AuthorityUncertain; auReason := a9UncertaintyEpoch; auWatermark := None;
  auUpdatedAt := now |}.

Definition resetA9EpochTx (inst epoch : bytes) (now : Z) : vault_tx () :=
  cancelA9RoutesTx inst [] now ;;
  exec (delete_routes inst None) ;;
  exec (delete_bindings inst) ;;
  exec (fun db => Some (update_authority inst (reset_row epoch now) db)).

(** ** Receipts *)

Definition insertA9ReceiptTx (key : bytes) (operation : Z) (inst epoch hash : bytes) (result : Result)
  : vault_tx () :=
  match encodeA9Result result with
  | None => fail_with ErrStoreUnavailable
  | Some (outcome, state) =>
      exec (insert_receipt key {| rcOperation := operation; rcInstallation := inst; rcEpoch := epoch;
        rcHash := hash; rcOutcome := outcome; rcState := state;
        rcGeneration := reSubscriptionGeneration result; rcSequence := reAcceptedStreamSequence result |})
  end.

Definition a9ReceiptResultTx (s : Store) (key : bytes) (operation : Z) (inst epoch hash : bytes)
    (authority : AuthorityRow) (now : Z) : vault_tx (option Result) :=
  found ← (match pg_uuid key with
           | None => fail_with ErrStoreUnavailable
           | Some uuid => query (fun db => dbReceipts db !! uuid)
           end);
  match found with
  | None => mret None
  | Some receipt =>
      if (rcOperation receipt =? operation) && beq (rcInstallation receipt) inst &&
         beq (rcEpoch receipt) epoch && beq (rcHash receipt) hash
      then mret (Some (a9Result s inst epoch (rcGeneration receipt) (rcState receipt) a9OutcomeReplay
                         (rcSequence receipt)))
      else
        latchA9UncertaintyTx inst a9UncertaintyIdempotency now ;;
        mret (Some (a9Result s inst epoch (auGeneration authority) a9ResultUncertain a9OutcomeConflict
                      (auContiguous authority)))
  end.

(** ** Bindings *)

Definition loadA9BindingTx (inst binding : bytes) : vault_tx (option BindingRow) :=
  query (fun db => dbBindings db !! (inst, binding)).

Definition highestA9TombstoneVersionTx (inst binding : bytes) : vault_tx Z :=
  version ← query (fun db => highest_tombstone db inst binding);
  match version with
  | None => mret 0
  | Some v => require (0 <? v) ;; mret v
  end.

Definition active_binding (event : VerifiedControl) (a : VerifiedAssertion) (now : Z) : BindingRow := {|
  bdEpoch := vcSequencerEpoch event; bdVersion := vcBindingVersion event; bdState := a9BindingActive;
  bdActive := Some {| acAssertionHash := vaHash a; acStreamSequence := vaStreamSequence a;
    acTopicKeyEpoch := vaTopicKeyEpoch a; acTopicBinding := vaTopicBinding a;
    acKeysetSequence := vaKeysetSequence a; acKeysetHash := vaKeysetHash a |};
  bdUpdatedAt := now |}.

Definition persistA9UpsertTx (event : VerifiedControl) (now : Z) : vault_tx () :=
  match vcAssertion event with
  | None => fail_with ErrStoreUnavailable
  | Some assertion =>
      exec (insert_control event true) ;;
      exec (insert_assertion assertion) ;;
      exec (upsert_binding (vcInstallationBindingID event) (vcBindingID event)
              (active_binding event assertion now))
  end.

Definition tombstone_of (event : VerifiedControl) (now : Z) : TombstoneRow := {|
  tsAssertionHash := vcAssertionHash event; tsEpoch := vcSequencerEpoch event;
  tsSequence := vcStreamSequence event; tsReason := vcReason event; tsRevokedAt := now |}.

Definition revoked_binding (event : VerifiedControl) (now : Z) : BindingRow := {|
  bdEpoch := vcSequencerEpoch event; bdVersion := vcBindingVersion event; bdState := a9BindingRevoked;
  bdActive := None; bdUpdatedAt := now |}.

Definition persistA9RevokeTx (event : VerifiedControl) (contiguous : bool) (now : Z) : vault_tx () :=
  let inst := vcInstallationBindingID event in
  let binding := vcBindingID event in
  exec (insert_control event contiguous) ;;
  exec (insert_tombstone inst binding (vcBindingVersion event) (tombstone_of event now)) ;;
  cancelA9RoutesTx inst binding now ;;
  exec (delete_routes inst (Some binding)) ;;
  exec (upsert_binding inst binding (revoked_binding event now)).

(** ** Control events *)

Definition set_contiguous (sequence now : Z) (row : AuthorityRow) : AuthorityRow := {|
  auEpoch := auEpoch row; auContiguous := sequence; auGeneration := auGeneration row;
  auState := auState row; auReason := auReason row; auWatermark := auWatermark row;
  auUpdatedAt := now |}.

Definition control_expired (event : VerifiedControl) (dbNow : Z) : bool :=
  negb (before dbNow (vcExpiresAt event)) ||
  match vcAssertion event with Some a => negb (before dbNow (vaExpiresAt a)) | None => false end.

Section Control.
Variable (s : Store) (event : VerifiedControl) (dbNow : Z).

Definition control_result (authority : AuthorityRow) (state outcome sequence : Z) : Result :=
  a9Result s (vcInstallationBindingID event) (vcSequencerEpoch event) (auGeneration authority)
    state outcome sequence.

Definition record_receipt (result : Result) : vault_tx () :=
  insertA9ReceiptTx (vcIdempotencyKey event) a9OperationControl (vcInstallationBindingID event)
    (vcSequencerEpoch event) (vcSignedObjectHash event) result.

(** A negative outcome: latch, receipt, answer. *)
Definition refuse_control (authority : AuthorityRow) (reason outcome : Z) : vault_tx Result :=
  latchA9UncertaintyTx (vcInstallationBindingID event) reason dbNow ;;
  let result := control_result authority a9ResultUncertain outcome (auContiguous authority) in
  record_receipt result ;;
  mret result.

(** From the point where the authority row has the epoch of the event. *)
Definition apply_in_epoch (authority : AuthorityRow) : vault_tx Result :=
  let inst := vcInstallationBindingID event in
  if control_expired event dbNow then refuse_control authority a9UncertaintyArtifactExpired a9OutcomeInconclusive
  else
  binding ← loadA9BindingTx inst (vcBindingID event);
  tombstoneVersion ← highestA9TombstoneVersionTx inst (vcBindingID event);
  let bindingVersion := match binding with Some row => bdVersion row | None => 0 end in
  let highestVersion := if bindingVersion <? tombstoneVersion then tombstoneVersion else bindingVersion in
  if (vcAction event =? ControlActionUpsert) && (vcBindingVersion event <=? tombstoneVersion) then
    let result := control_result authority a9ResultRevoked a9OutcomeStale (auContiguous authority) in
    record_receipt result ;; mret result
  else if vcStreamSequence event <=? auContiguous authority then
    refuse_control authority a9UncertaintyControlRegression a9OutcomeConflict
  else if w64 (auContiguous authority + 1) <? vcStreamSequence event then
    if (vcAction event =? ControlActionRevoke) && (highestVersion <? vcBindingVersion event) then
      latchA9UncertaintyTx inst a9UncertaintyControlGap dbNow ;;
      let result := control_result authority a9ResultUncertain a9OutcomeApplied (auContiguous authority) in
      record_receipt result ;;
      persistA9RevokeTx event false dbNow ;;
      mret result
    else refuse_control authority a9UncertaintyControlGap a9OutcomeGap
  else if negb (vcExpectedPreviousSequence event =? auContiguous authority) ||
          negb (vcExpectedBindingVersion event =? highestVersion) then
    refuse_control authority a9UncertaintyBindingConflict a9OutcomeGap
  else
    let resultState := if auState authority =? a9AuthorityUncertain then a9ResultUncertain
                       else if vcAction event =? ControlActionRevoke then a9ResultRevoked
                       else a9ResultActive in
    let result := control_result authority resultState a9OutcomeApplied (vcStreamSequence event) in
    record_receipt result ;;
    (if vcAction event =? ControlActionUpsert then persistA9UpsertTx event dbNow
     else persistA9RevokeTx event true dbNow) ;;
    exec (fun db => Some (update_authority inst (set_contiguous (vcStreamSequence event) dbNow) db)) ;;
    mret result.

(** A new epoch starts with the first event of its stream and was never seen before. *)
Definition apply_new_epoch (authority : AuthorityRow) : vault_tx Result :=
  let inst := vcInstallationBindingID event in
  if negb (vcStreamSequence event =? 1) || negb (vcExpectedPreviousSequence event =? 0) then
    refuse_control authority a9UncertaintyEpoch a9OutcomeInconclusive
  else
  observed ← a9EpochPreviouslyObservedTx inst (vcSequencerEpoch event);
  if (observed : bool) then refuse_control authority a9UncertaintyEpoch a9OutcomeConflict
  else
    resetA9EpochTx inst (vcSequencerEpoch event) dbNow ;;
    apply_in_epoch (reset_row (vcSequencerEpoch event) (auUpdatedAt authority) authority).

Definition load_or_create (inst epoch : bytes) (state reason : Z) : vault_tx AuthorityRow :=
  loaded ← loadA9AuthorityTx inst;
  match loaded with
  | Some authority => mret authority
  | None =>
      insertA9AuthorityTx inst epoch state reason dbNow ;;
      mret (fresh_authority epoch state reason dbNow)
  end.

Definition control_authority : vault_tx AuthorityRow :=
  if vcStreamSequence event =? 1
  then load_or_create (vcInstallationBindingID event) (vcSequencerEpoch event) a9AuthorityActive 0
  else load_or_create (vcInstallationBindingID event) (vcSequencerEpoch event)
         a9AuthorityUncertain a9UncertaintyControlGap.

Definition apply_after_guards : vault_tx Result :=
  authority ← control_authority;
  replay ← a9ReceiptResultTx s (vcIdempotencyKey event) a9OperationControl
             (vcInstallationBindingID event) (vcSequencerEpoch event) (vcSignedObjectHash event)
             authority dbNow;
  match replay with
  | Some result =>
      if beq (reOutcome result) ResultOutcomeReplay && control_expired event dbNow
      then fail_with ErrStoreUnavailable
      else mret result
  | None =>
      if negb (beq (auEpoch authority) (vcSequencerEpoch event)) then apply_new_epoch authority
      else apply_in_epoch authority
  end.
End Control.

Definition applyA9ControlOnce (s : Store) (event : VerifiedControl) (att : Attempt) : vault_tx Result :=
  dbNow ← requireA9KeysetTx (atNow att) (vcKeysetSequence event) (vcKeysetHash event);
  requireRetentionSafeTx s (atHost att) ;;
  apply_after_guards s event dbNow.

Definition ApplyControl (s : Store) (event : VerifiedControl)
    (schedule : nat -> (VaultDB -> VaultDB) * Attempt) (db : VaultDB) : VaultDB * result error Result :=
  if negb (validA9Control s event) then (db, Err ErrStoreUnavailable)
  else with_retries a9TransactionAttempts (applyA9ControlOnce s event) schedule 0 db.

(** ** Watermarks *)

Definition a9WatermarkAlreadyAcceptedTx (watermark : VerifiedWatermark) : vault_tx bool :=
  found ← query (fun db => watermark_by_hash db (vwSignedObjectHash watermark));
  match found with
  | None => mret false
  | Some row =>
      require (beq (vwInstallationBindingID row) (vwInstallationBindingID watermark) &&
               beq (vwSequencerEpoch row) (vwSequencerEpoch watermark) &&
               (vwWatermarkSequence row =? vwWatermarkSequence watermark)) ;;
      mret true
  end.

Definition watermark_columns (w : VerifiedWatermark) : WatermarkColumns := {|
  wcSequence := vwWatermarkSequence w; wcSignedHash := vwSignedObjectHash w;
  wcCommittedThrough := vwCommittedThroughStreamSequence w; wcStatus := vwStatus w;
  wcReason := vwUncertaintyReason w; wcIssuedAt := pg_timestamp (vwIssuedAt w);
  wcExpiresAt := pg_timestamp (vwExpiresAt w); wcSigningKeyID := vwSigningKeyID w;
  wcKeysetSequence := vwKeysetSequence w; wcKeysetHash := vwKeysetHash w |}.

Definition watermarked (w : VerifiedWatermark) (state reason now : Z) (row : AuthorityRow) : AuthorityRow := {|
  auEpoch := auEpoch row; auContiguous := auContiguous row; auGeneration := auGeneration row;
  auState := state; auReason := reason; auWatermark := Some (watermark_columns w);
  auUpdatedAt := now |}.

Section Watermark.
Variable (s : Store) (watermark : VerifiedWatermark) (dbNow : Z).

Definition watermark_result (authority : AuthorityRow) (state outcome : Z) : Result :=
  a9Result s (vwInstallationBindingID watermark) (vwSequencerEpoch watermark) (auGeneration authority)
    state outcome (auContiguous authority).

Definition latch_watermark (authority : AuthorityRow) (reason outcome : Z) : vault_tx Result :=
  latchA9UncertaintyTx (vwInstallationBindingID watermark) reason dbNow ;;
  mret (watermark_result authority a9ResultUncertain outcome).

Definition append_watermark (authority : AuthorityRow) : vault_tx Result :=
  exec (insert_watermark watermark) ;;
  let uncertain := vwStatus watermark =? WatermarkStatusUncertain in
  let still := uncertain || (auState authority =? a9AuthorityUncertain) in
  let state := if uncertain then a9AuthorityUncertain else auState authority in
  let reason := if uncertain then a9UncertaintySignedWatermark else auReason authority in
  exec (fun db => Some (update_authority (vwInstallationBindingID watermark)
                          (watermarked watermark state reason dbNow) db)) ;;
  mret (watermark_result authority (if still then a9ResultUncertain else a9ResultActive)
          (if still then a9OutcomeInconclusive else a9OutcomeApplied)).

Definition apply_fresh_watermark (authority : AuthorityRow) : vault_tx Result :=
  if negb (beq (auEpoch authority) (vwSequencerEpoch watermark)) then
    latch_watermark authority a9UncertaintyEpoch a9OutcomeInconclusive
  else if negb (before dbNow (vwExpiresAt watermark)) then
    latch_watermark authority a9UncertaintyArtifactExpired a9OutcomeInconclusive
  else
  let currentSequence := match auWatermark authority with Some c => wcSequence c | None => 0 end in
  let current := vwStatus watermark =? WatermarkStatusCurrent in
  require (match auWatermark authority with Some c => 0 <? wcSequence c | None => true end) ;;
  if vwWatermarkSequence watermark <=? currentSequence then
    latch_watermark authority a9UncertaintyWatermarkRollback a9OutcomeConflict
  else if (currentSequence =? 0) && negb (vwWatermarkSequence watermark =? 1) then
    latch_watermark authority a9UncertaintyWatermarkGap a9OutcomeGap
  else if negb (currentSequence =? 0) && negb (vwWatermarkSequence watermark =? w64 (currentSequence + 1)) then
    latch_watermark authority a9UncertaintyWatermarkGap a9OutcomeGap
  else if current && (auContiguous authority <? vwCommittedThroughStreamSequence watermark) then
    latch_watermark authority a9UncertaintyWatermarkGap a9OutcomeGap
  else if current && (auState authority =? a9AuthorityUncertain) &&
          negb (auReason authority =? a9UncertaintyEpoch) then
    mret (watermark_result authority a9ResultUncertain a9OutcomeInconclusive)
  else append_watermark authority.

Definition watermark_after_guards : vault_tx Result :=
  authority ← load_or_create dbNow (vwInstallationBindingID watermark) (vwSequencerEpoch watermark)
                a9AuthorityUncertain a9UncertaintyWatermarkGap;
  replayed ← a9WatermarkAlreadyAcceptedTx watermark;
  if (replayed : bool) then
    require (before dbNow (vwExpiresAt watermark)) ;;
    mret (if auState authority =? a9AuthorityUncertain
          then watermark_result authority a9ResultUncertain a9OutcomeInconclusive
          else watermark_result authority a9ResultActive a9OutcomeReplay)
  else apply_fresh_watermark authority.
End Watermark.

Definition applyA9WatermarkOnce (s : Store) (watermark : VerifiedWatermark) (att : Attempt)
  : vault_tx Result :=
  dbNow ← requireA9KeysetTx (atNow att) (vwKeysetSequence watermark) (vwKeysetHash watermark);
  requireRetentionSafeTx s (atHost att) ;;
  watermark_after_guards s watermark dbNow.

Definition ApplyWatermark (s : Store) (watermark : VerifiedWatermark)
    (schedule : nat -> (VaultDB -> VaultDB) * Attempt) (db : VaultDB) : VaultDB * result error Result :=
  if negb (validA9Watermark s watermark) then (db, Err ErrStoreUnavailable)
  else with_retries a9TransactionAttempts (applyA9WatermarkOnce s watermark) schedule 0 db.

End Vault.
