(* ===== verification/Aggregates.v ===== *)
(** * Operational aggregates

    src/pkg/vault/aggregates.go: the closed set of delivery observations, and the cells that
    count them approximately. A cell is created at its first observation in an hour and its
    count bucket is then promoted at random, so the table never holds an exact count. The
    bytes a promotion draws are an argument; the check constraints of migrations 00006 and
    00010 are what an insert or update of a cell has to satisfy. *)

From S2P Require Import Prelude GoBytes GoTime GoCrypto VaultCrypto Gate8Header Interfaces Sql A9Types A9VaultDb A9Vault.
Local Open Scope Z_scope.
Local Open Scope go_scope.

Definition aggregateEventSafetyControl : Z := 1.
Definition aggregateEventLeaseRefresh : Z := 2.
Definition aggregateEventDeliveryFinal : Z := 3.
Definition aggregateEventDeliveryQueue : Z := 4.
Definition aggregateEventDeliveryRate : Z := 5.
Definition aggregateOutcomeActive : Z := 1.
Definition aggregateOutcomeRevoked : Z := 2.
Definition maxCountBucket : Z := 7.

Definition DeliveryObservationTerminal : Z := 1.
Definition DeliveryObservationQueue : Z := 2.
Definition DeliveryObservationRateLimit : Z := 3.

Definition DeliveryOutcomeTerminalRejected : Z := 1.
Definition DeliveryOutcomeRetryExhausted : Z := 2.
Definition DeliveryOutcomeTTLExpired : Z := 3.
Definition DeliveryOutcomeQueueAccepted : Z := 4.
Definition DeliveryOutcomeQueueBackpressure : Z := 5.
Definition DeliveryOutcomeRateDelayed : Z := 6.
Definition DeliveryOutcomeRateCancelled : Z := 7.
Definition DeliveryOutcomeSafetyInvalidated : Z := 8.
Definition DeliveryOutcomeMaterialInvalid : Z := 9.

Definition DeliveryBucketMinimal : Z := 0.
Definition DeliveryBucketLow : Z := 1.
Definition DeliveryBucketModerate : Z := 2.
Definition DeliveryBucketHigh : Z := 3.
Definition DeliveryBucketCritical : Z := 4.

Definition DeliveryTrafficConversation : Z := 1.
Definition DeliveryTrafficWelcome : Z := 2.

Record DeliveryObservation := {
  obEvent : Z; obOutcome : Z; obTrafficClass : Z; obThresholdBucket : Z; obLatencyBucket : Z }.

Record operationalAggregateObservation := {
  oaEventName : Z; oaOutcome : Z; oaTrafficClass : Z; oaSizeBucket : option Z; oaLatencyBucket : Z }.

Definition within (low value high : Z) : bool := (low <=? value) && (value <=? high).

Definition validOperationalAggregateObservation (o : operationalAggregateObservation) : bool :=
  within aggregateEventSafetyControl (oaEventName o) aggregateEventDeliveryRate && (0 <? oaOutcome o) &&
  within 0 (oaTrafficClass o) DeliveryTrafficWelcome &&
  within DeliveryBucketMinimal (oaLatencyBucket o) DeliveryBucketCritical &&
  match oaSizeBucket o with
  | Some size => within DeliveryBucketMinimal size DeliveryBucketCritical
  | None => true
  end.

(** The fields of a [DeliveryObservation] are unsigned. *)
Definition validDeliveryObservation (o : DeliveryObservation) : bool :=
  let class := obTrafficClass o in
  let outcome := obOutcome o in
  bail negb (class =? DeliveryTrafficUnknown) && negb (class =? DeliveryTrafficConversation) &&
       negb (class =? DeliveryTrafficWelcome) with false;;
  bail (DeliveryBucketCritical <? obThresholdBucket o) || (DeliveryBucketCritical <? obLatencyBucket o)
    with false;;
  if obEvent o =? DeliveryObservationTerminal then
    bail (obThresholdBucket o <? DeliveryBucketLow) || (DeliveryBucketHigh <? obThresholdBucket o) with false;;
    if (outcome =? DeliveryOutcomeSafetyInvalidated) || (outcome =? DeliveryOutcomeMaterialInvalid) then true
    else if (outcome =? DeliveryOutcomeTerminalRejected) || (outcome =? DeliveryOutcomeRetryExhausted) ||
            (outcome =? DeliveryOutcomeTTLExpired) then negb (class =? DeliveryTrafficUnknown)
    else false
  else if obEvent o =? DeliveryObservationQueue then
    bail (class =? DeliveryTrafficUnknown) || negb (obLatencyBucket o =? DeliveryBucketMinimal) with false;;
    (outcome =? DeliveryOutcomeQueueAccepted) || (outcome =? DeliveryOutcomeQueueBackpressure)
  else if obEvent o =? DeliveryObservationRateLimit then
    bail (class =? DeliveryTrafficUnknown) || negb (obThresholdBucket o =? DeliveryBucketMinimal) with false;;
    (outcome =? DeliveryOutcomeRateDelayed) || (outcome =? DeliveryOutcomeRateCancelled)
  else false.

(** [None] is a failed read of the entropy, or a bucket out of range. *)
Definition randomizedAggregatePromotion (currentBucket : Z) (entropy : option bytes) : option bool :=
  bail (currentBucket <? 1) || (maxCountBucket <? currentBucket) with None;;
  bail currentBucket =? maxCountBucket with Some false;;
  raw ← read_full 2 entropy;
  Some (be_decode raw <? Z.shiftl 1 (16 - currentBucket)).

Definition revocationLatencyBucket (value : Z) : Z :=
  if value <=? 0 then 0 else if value <=? 30 * second then 1 else if value <=? minute then 2
  else if value <=? 2 * minute then 3 else 4.

(** ** Cells *)

Definition day : Z := 24 * hour.

Definition cell_key (o : operationalAggregateObservation) (now : Z) : Z * Z * Z * Z * Z :=
  (now / day, now mod day / hour, oaEventName o, oaTrafficClass o, oaOutcome o).

(** The check constraints on a cell. *)
Definition fixed_dimensions (event class outcome : Z) (size : option Z) (latency : Z) : bool :=
  if within 1 event 2 then
    (class =? 0) && within 1 outcome 2 && bool_decide (size = None)
  else if event =? 3 then
    within 0 class 2 && ((within 1 class 2 && within 1 outcome 3) || within 8 outcome 9) &&
    match size with Some v => within 1 v 3 | None => false end
  else if event =? 4 then
    within 1 class 2 && within 4 outcome 5 && (latency =? 0) &&
    match size with Some v => within 0 v 4 | None => false end
  else if event =? 5 then
    within 1 class 2 && within 6 outcome 7 && match size with Some v => v =? 0 | None => false end
  else false.

Definition cell_ok (key : Z * Z * Z * Z * Z) (row : AggregateRow) : bool :=
  let '(bucketDay, bucketHour, event, class, outcome) := key in
  within 0 bucketHour 23 && within 1 (agCountBucket row) maxCountBucket &&
  within 0 (agLatencyBucket row) 4 && (agExpiresOn row <=? bucketDay + 30) &&
  fixed_dimensions event class outcome (agSizeBucket row) (agLatencyBucket row).

Definition put_cell (key : Z * Z * Z * Z * Z) (row : AggregateRow) (db : VaultDB) : option VaultDB :=
  if cell_ok key row then Some (with_Aggregates (<[key := row]> (dbAggregates db)) db) else None.

Definition first_cell (o : operationalAggregateObservation) (now : Z) : AggregateRow := {|
  agCountBucket := 1; agSizeBucket := oaSizeBucket o; agLatencyBucket := oaLatencyBucket o;
  agExpiresOn := now / day + 30 |}.

Definition next_cell (o : operationalAggregateObservation) (nextBucket : Z) (row : AggregateRow) : AggregateRow := {|
  agCountBucket := nextBucket;
  agSizeBucket := match oaSizeBucket o with
                  | None => agSizeBucket row
                  | Some size => Some (Z.max (default 0 (agSizeBucket row)) size)
                  end;
  agLatencyBucket := Z.max (agLatencyBucket row) (oaLatencyBucket o);
  agExpiresOn := agExpiresOn row |}.

Definition recordOperationalAggregateTx (s : Store) (o : operationalAggregateObservation) (now : Z)
    (entropy : option bytes) : vault_tx () :=
  ensure (((stEnvironmentID s =? 1) || (stEnvironmentID s =? 2)) &&
          validOperationalAggregateObservation o && negb (is_zero now)) ErrAggregateInvalid ;;
  mapped (fun _ => ErrStoreUnavailable) (
    let key := cell_key o now in
    inserted ← update (fun db =>
      match dbAggregates db !! key with
      | Some _ => Some (db, false)
      | None => db' ← put_cell key (first_cell o now) db; Some (db', true)
      end);
    if (inserted : bool) then mret tt else
    current ← query (fun db => dbAggregates db !! key);
    match (current : option AggregateRow) with
    | None => fail_with ErrStoreUnavailable
    | Some row =>
        match randomizedAggregatePromotion (agCountBucket row) entropy with
        | None => fail_with ErrStoreUnavailable
        | Some promote =>
            let nextBucket := if (promote : bool) && (agCountBucket row <? maxCountBucket)
                              then agCountBucket row + 1 else agCountBucket row in
            exec (put_cell key (next_cell o nextBucket row))
        end
    end).

Definition observation_of (o : DeliveryObservation) : option operationalAggregateObservation :=
  let with_event eventName := Some {|
    oaEventName := eventName; oaOutcome := obOutcome o; oaTrafficClass := obTrafficClass o;
    oaSizeBucket := Some (obThresholdBucket o); oaLatencyBucket := obLatencyBucket o |} in
  if obEvent o =? DeliveryObservationTerminal then with_event aggregateEventDeliveryFinal
  else if obEvent o =? DeliveryObservationQueue then with_event aggregateEventDeliveryQueue
  else if obEvent o =? DeliveryObservationRateLimit then with_event aggregateEventDeliveryRate
  else None.

Definition recordDeliveryObservationTx (s : Store) (o : DeliveryObservation) (now : Z)
    (entropy : option bytes) : vault_tx () :=
  ensure (validDeliveryObservation o) ErrAggregateInvalid ;;
  match observation_of o with
  | None => fail_with ErrAggregateInvalid
  | Some observation => recordOperationalAggregateTx s observation now entropy
  end.

Definition RecordDeliveryObservation (s : Store) (o : DeliveryObservation) (entropy : option bytes)
    (att : Attempt) (db : VaultDB) : VaultDB * result error () :=
  bail negb (validDeliveryObservation o) with (db, Err ErrAggregateInvalid);;
  run_tx_with (fun _ => ErrStoreUnavailable) (recordDeliveryObservationTx s o (atHost att) entropy) att db.

Definition RecordOperationalAggregate (s : Store) (eventName outcome latencyBucket : Z) (entropy : option bytes)
    (att : Attempt) (db : VaultDB) : VaultDB * result error () :=
  bail (negb (eventName =? aggregateEventSafetyControl) && negb (eventName =? aggregateEventLeaseRefresh)) ||
       (negb (outcome =? aggregateOutcomeActive) && negb (outcome =? aggregateOutcomeRevoked)) ||
       (latencyBucket <? 0) || (4 <? latencyBucket) with (db, Err ErrAggregateInvalid);;
  run_tx_with (fun _ => ErrStoreUnavailable) (recordOperationalAggregateTx s {| oaEventName := eventName; oaOutcome := outcome;
    oaTrafficClass := 0; oaSizeBucket := None; oaLatencyBucket := latencyBucket |} (atHost att) entropy) att db.
