(* ===== verification/A9VaultSpec.v ===== *)
(** * The control vault as a transition system

    [control_step] and [watermark_step] say, without statements, failures or retries, what
    one committed transaction of src/pkg/vault/a9_store.go does: which answer it gives under
    which condition, and to which database it goes. The refinement lemmas show that every
    attempt that reaches its commit is such a step; [committed_control] and
    [committed_watermark] lift them to the public operations and their retry loops. *)

From S2P Require Import Prelude GoBytes GoTime GoCrypto VaultCrypto Gate8Header Interfaces Sql A9Types A9VaultDb A9Vault.
Local Open Scope Z_scope.
Local Open Scope go_scope.

(** ** Database updates *)

Definition latch_db (inst : bytes) (reason now : Z) (db : VaultDB) : VaultDB :=
  update_authority inst (latched reason now) db.

Definition reset_db (inst epoch : bytes) (now : Z) (db : VaultDB) : VaultDB :=
  update_authority inst (reset_row epoch now)
    (drop_bindings inst (drop_routes inst None (cancel_jobs inst None now db))).

(** What the statements of an epoch reset check. *)
Definition can_reset (inst : bytes) (now : Z) (db : VaultDB) : Prop :=
  jobs_supported (drop_routes inst None (cancel_jobs inst None now db)) = true /\
  routes_supported (drop_bindings inst (drop_routes inst None (cancel_jobs inst None now db))) = true.

Definition receipt_row (event : VerifiedControl) (outcome state generation sequence : Z) : ReceiptRow := {|
  rcOperation := a9OperationControl; rcInstallation := vcInstallationBindingID event;
  rcEpoch := vcSequencerEpoch event; rcHash := vcSignedObjectHash event; rcOutcome := outcome;
  rcState := state; rcGeneration := generation; rcSequence := sequence |}.

Section Spec.
Context `{Postgres}.

Definition upsert_db (event : VerifiedControl) (a : VerifiedAssertion) (now : Z) (db : VaultDB) : VaultDB :=
  put_binding (vcInstallationBindingID event) (vcBindingID event) (active_binding event a now)
    (put_assertion a (put_control event true db)).

Definition revoke_db (event : VerifiedControl) (contiguous : bool) (now : Z) (db : VaultDB) : VaultDB :=
  let inst := vcInstallationBindingID event in
  let binding := vcBindingID event in
  put_binding inst binding (revoked_binding event now)
    (drop_routes inst (Some binding) (cancel_jobs inst (Some binding) now
      (put_tombstone inst binding (vcBindingVersion event) (tombstone_of event now)
        (put_control event contiguous db)))).

(** What the statements of a revocation check. *)
Definition can_revoke (event : VerifiedControl) (contiguous : bool) (now : Z) (db : VaultDB) : Prop :=
  dbControls db !! control_key event = None /\
  dbTombstones db !! (vcInstallationBindingID event, vcBindingID event, vcBindingVersion event) = None /\
  jobs_supported (drop_routes (vcInstallationBindingID event) (Some (vcBindingID event))
    (cancel_jobs (vcInstallationBindingID event) (Some (vcBindingID event)) now
      (put_tombstone (vcInstallationBindingID event) (vcBindingID event) (vcBindingVersion event)
        (tombstone_of event now) (put_control event contiguous db)))) = true /\
  routes_supported (revoke_db event contiguous now db) = true.

(** ** Steps of the control stream *)

Section Control.
Variable (s : Store) (event : VerifiedControl) (now : Z).

Definition binding_version (db : VaultDB) : Z :=
  match dbBindings db !! (vcInstallationBindingID event, vcBindingID event) with
  | Some row => bdVersion row
  | None => 0
  end.

Definition tombstone_version (db : VaultDB) : Z :=
  default 0 (highest_tombstone db (vcInstallationBindingID event) (vcBindingID event)).

Definition highest_version (db : VaultDB) : Z := Z.max (binding_version db) (tombstone_version db).

Definition denied (db : VaultDB) : Prop :=
  vcAction event = ControlActionUpsert /\ vcBindingVersion event <= tombstone_version db.

(** Why an event of the current epoch is refused, and with which outcome. *)
Inductive refusal (db : VaultDB) (au : AuthorityRow) : Z -> Z -> Prop :=
| refuse_expired :
    control_expired event now = true ->
    refusal db au a9UncertaintyArtifactExpired a9OutcomeInconclusive
| refuse_regression :
    control_expired event now = false -> ~ denied db ->
    vcStreamSequence event <= auContiguous au ->
    refusal db au a9UncertaintyControlRegression a9OutcomeConflict
| refuse_gap :
    control_expired event now = false -> ~ denied db ->
    w64 (auContiguous au + 1) < vcStreamSequence event ->
    ~ (vcAction event = ControlActionRevoke /\ highest_version db < vcBindingVersion event) ->
    refusal db au a9UncertaintyControlGap a9OutcomeGap
| refuse_binding :
    control_expired event now = false -> ~ denied db ->
    auContiguous au < vcStreamSequence event <= w64 (auContiguous au + 1) ->
    vcExpectedPreviousSequence event <> auContiguous au \/
    vcExpectedBindingVersion event <> highest_version db ->
    refusal db au a9UncertaintyBindingConflict a9OutcomeGap.

Definition applied_state (au : AuthorityRow) : Z :=
  if auState au =? a9AuthorityUncertain then a9ResultUncertain
  else if vcAction event =? ControlActionRevoke then a9ResultRevoked else a9ResultActive.

(** The event is the next of the stream and of its binding. *)
Definition in_sequence (db : VaultDB) (au : AuthorityRow) : Prop :=
  control_expired event now = false /\ ~ denied db /\
  auContiguous au < vcStreamSequence event <= w64 (auContiguous au + 1) /\
  vcExpectedPreviousSequence event = auContiguous au /\
  vcExpectedBindingVersion event = highest_version db.

Definition receipt_free (db : VaultDB) (uuid : bytes) : Prop :=
  pg_uuid (vcIdempotencyKey event) = Some uuid /\ dbReceipts db !! uuid = None.

Definition answer (au : AuthorityRow) (state outcome sequence : Z) : Result :=
  control_result s event au state outcome sequence.

Definition record (uuid : bytes) (au : AuthorityRow) (outcome state sequence : Z) (db : VaultDB) : VaultDB :=
  put_receipt uuid (receipt_row event outcome state (auGeneration au) sequence) db.

Definition refused (uuid : bytes) (au : AuthorityRow) (reason outcome : Z) (db : VaultDB) : VaultDB :=
  record uuid au outcome a9ResultUncertain (auContiguous au)
    (latch_db (vcInstallationBindingID event) reason now db).

Inductive epoch_step (au : AuthorityRow) (db : VaultDB) : Result -> VaultDB -> Prop :=
| step_refuse uuid reason outcome :
    receipt_free db uuid -> refusal db au reason outcome ->
    epoch_step au db (answer au a9ResultUncertain outcome (auContiguous au))
      (refused uuid au reason outcome db)
| step_stale uuid :
    receipt_free db uuid -> control_expired event now = false -> denied db ->
    epoch_step au db (answer au a9ResultRevoked a9OutcomeStale (auContiguous au))
      (record uuid au a9OutcomeStale a9ResultRevoked (auContiguous au) db)
| step_gap_revoke uuid :
    let db1 := refused uuid au a9UncertaintyControlGap a9OutcomeApplied db in
    receipt_free db uuid -> control_expired event now = false ->
    vcAction event = ControlActionRevoke -> w64 (auContiguous au + 1) < vcStreamSequence event ->
    highest_version db < vcBindingVersion event -> can_revoke event false now db1 ->
    epoch_step au db (answer au a9ResultUncertain a9OutcomeApplied (auContiguous au))
      (revoke_db event false now db1)
| step_upsert uuid a :
    let db1 := record uuid au a9OutcomeApplied (applied_state au) (vcStreamSequence event) db in
    receipt_free db uuid -> in_sequence db au -> vcAction event = ControlActionUpsert ->
    vcAssertion event = Some a -> dbControls db !! control_key event = None ->
    dbAssertions db !! vaHash a = None ->
    routes_supported (upsert_db event a now db1) = true ->
    epoch_step au db (answer au (applied_state au) a9OutcomeApplied (vcStreamSequence event))
      (update_authority (vcInstallationBindingID event) (set_contiguous (vcStreamSequence event) now)
        (upsert_db event a now db1))
| step_revoke uuid :
    let db1 := record uuid au a9OutcomeApplied (applied_state au) (vcStreamSequence event) db in
    receipt_free db uuid -> in_sequence db au -> vcAction event <> ControlActionUpsert ->
    can_revoke event true now db1 ->
    epoch_step au db (answer au (applied_state au) a9OutcomeApplied (vcStreamSequence event))
      (update_authority (vcInstallationBindingID event) (set_contiguous (vcStreamSequence event) now)
        (revoke_db event true now db1)).

(** The authority row of the installation, created when there is none. *)
Definition created (inst epoch : bytes) (state reason : Z) (db : VaultDB) (au : AuthorityRow) (db' : VaultDB)
  : Prop :=
  (dbAuthority db !! inst = Some au /\ db' = db) \/
  (dbAuthority db !! inst = None /\ au = fresh_authority epoch state reason now /\
   db' = put_authority inst au db).

Definition receipt_matches (row : ReceiptRow) : Prop :=
  rcOperation row = a9OperationControl /\ rcInstallation row = vcInstallationBindingID event /\
  rcEpoch row = vcSequencerEpoch event /\ rcHash row = vcSignedObjectHash event.

Definition replay_result (row : ReceiptRow) : Result :=
  a9Result s (vcInstallationBindingID event) (vcSequencerEpoch event) (rcGeneration row) (rcState row)
    a9OutcomeReplay (rcSequence row).

(** The steps once the authority row is there; used by inversion only. *)
Unset Elimination Schemes.
Inductive control_step_at (au : AuthorityRow) (db : VaultDB) : Result -> VaultDB -> Prop :=
| step_replay uuid row :
    pg_uuid (vcIdempotencyKey event) = Some uuid -> dbReceipts db !! uuid = Some row ->
    receipt_matches row -> control_expired event now = false ->
    control_step_at au db (replay_result row) db
| step_key_conflict uuid row :
    pg_uuid (vcIdempotencyKey event) = Some uuid -> dbReceipts db !! uuid = Some row ->
    ~ receipt_matches row ->
    control_step_at au db (answer au a9ResultUncertain a9OutcomeConflict (auContiguous au))
      (latch_db (vcInstallationBindingID event) a9UncertaintyIdempotency now db)
| step_epoch_start uuid :
    receipt_free db uuid -> auEpoch au <> vcSequencerEpoch event ->
    ~ (vcStreamSequence event = 1 /\ vcExpectedPreviousSequence event = 0) ->
    control_step_at au db (answer au a9ResultUncertain a9OutcomeInconclusive (auContiguous au))
      (refused uuid au a9UncertaintyEpoch a9OutcomeInconclusive db)
| step_epoch_reuse uuid :
    receipt_free db uuid -> auEpoch au <> vcSequencerEpoch event ->
    epoch_observed db (vcInstallationBindingID event) (vcSequencerEpoch event) = true ->
    control_step_at au db (answer au a9ResultUncertain a9OutcomeConflict (auContiguous au))
      (refused uuid au a9UncertaintyEpoch a9OutcomeConflict db)
| step_new_epoch r db' :
    auEpoch au <> vcSequencerEpoch event ->
    vcStreamSequence event = 1 -> vcExpectedPreviousSequence event = 0 ->
    epoch_observed db (vcInstallationBindingID event) (vcSequencerEpoch event) = false ->
    can_reset (vcInstallationBindingID event) now db ->
    epoch_step (reset_row (vcSequencerEpoch event) (auUpdatedAt au) au)
      (reset_db (vcInstallationBindingID event) (vcSequencerEpoch event) now db) r db' ->
    control_step_at au db r db'
| step_same_epoch r db' :
    auEpoch au = vcSequencerEpoch event -> epoch_step au db r db' -> control_step_at au db r db'.

Set Elimination Schemes.

Definition control_created (db : VaultDB) (au : AuthorityRow) (db' : VaultDB) : Prop :=
  if vcStreamSequence event =? 1
  then created (vcInstallationBindingID event) (vcSequencerEpoch event) a9AuthorityActive 0 db au db'
  else created (vcInstallationBindingID event) (vcSequencerEpoch event) a9AuthorityUncertain
         a9UncertaintyControlGap db au db'.

End Control.

(** One committed control transaction; [bind_lookup] is the key binding it may write first. *)
Definition bound (commitment : bytes) (db : VaultDB) : VaultDB :=
  match dbKeyBinding db with Some _ => db | None => with_KeyBinding (Some commitment) db end.

Definition guarded (s : Store) (att : Attempt) (sequence : Z) (hash : bytes) (db db1 : VaultDB) : Prop :=
  exists keyset retention commitment,
    dbKeyset db = Some keyset /\ keyset_current keyset (atNow att) sequence hash = true /\
    RootCommitment (stLookupRoot s) = Ok commitment /\ db1 = bound commitment db /\
    dbKeyBinding db1 = Some commitment /\
    dbRetention db = Some retention /\ retentionHealthSafe (atHost att) retention = true.

Definition control_step (s : Store) (event : VerifiedControl) (att : Attempt) (db : VaultDB) (r : Result)
    (db' : VaultDB) : Prop :=
  exists db1 db2 au,
    guarded s att (vcKeysetSequence event) (vcKeysetHash event) db db1 /\
    control_created event (atNow att) db1 au db2 /\
    control_step_at s event (atNow att) au db2 r db'.

(** ** Steps of the watermark stream *)

Section Watermark.
Variable (s : Store) (w : VerifiedWatermark) (now : Z).

Definition current_sequence (au : AuthorityRow) : Z :=
  match auWatermark au with Some c => wcSequence c | None => 0 end.

(** The watermark is next and, when it claims to be current, is covered by the stream. *)
Definition next_watermark (au : AuthorityRow) : Prop :=
  auEpoch au = vwSequencerEpoch w /\ now < vwExpiresAt w /\
  current_sequence au < vwWatermarkSequence w /\
  vwWatermarkSequence w = (if current_sequence au =? 0 then 1 else w64 (current_sequence au + 1)) /\
  (vwStatus w = WatermarkStatusCurrent -> vwCommittedThroughStreamSequence w <= auContiguous au).

Inductive watermark_refusal (au : AuthorityRow) : Z -> Z -> Prop :=
| wrong_epoch : auEpoch au <> vwSequencerEpoch w ->
    watermark_refusal au a9UncertaintyEpoch a9OutcomeInconclusive
| expired : vwExpiresAt w <= now -> watermark_refusal au a9UncertaintyArtifactExpired a9OutcomeInconclusive
| rollback : vwWatermarkSequence w <= current_sequence au ->
    watermark_refusal au a9UncertaintyWatermarkRollback a9OutcomeConflict
| gap : ~ next_watermark au -> watermark_refusal au a9UncertaintyWatermarkGap a9OutcomeGap.

Definition keeps_uncertain (au : AuthorityRow) : bool :=
  (vwStatus w =? WatermarkStatusUncertain) || (auState au =? a9AuthorityUncertain).

Inductive watermark_step_at (au : AuthorityRow) (db : VaultDB) : Result -> VaultDB -> Prop :=
| mark_replay k row :
    dbWatermarks db !! k = Some row -> vwSignedObjectHash row = vwSignedObjectHash w ->
    vwInstallationBindingID row = vwInstallationBindingID w -> vwSequencerEpoch row = vwSequencerEpoch w ->
    vwWatermarkSequence row = vwWatermarkSequence w -> now < vwExpiresAt w ->
    watermark_step_at au db
      (if auState au =? a9AuthorityUncertain then watermark_result s w au a9ResultUncertain a9OutcomeInconclusive
       else watermark_result s w au a9ResultActive a9OutcomeReplay) db
| mark_refuse reason outcome :
    watermark_refusal au reason outcome ->
    watermark_step_at au db (watermark_result s w au a9ResultUncertain outcome)
      (latch_db (vwInstallationBindingID w) reason now db)
| mark_ignored :
    next_watermark au -> vwStatus w = WatermarkStatusCurrent -> auState au = a9AuthorityUncertain ->
    auReason au <> a9UncertaintyEpoch ->
    watermark_step_at au db (watermark_result s w au a9ResultUncertain a9OutcomeInconclusive) db
| mark_append :
    next_watermark au -> dbWatermarks db !! watermark_key w = None ->
    (vwStatus w = WatermarkStatusCurrent -> auState au = a9AuthorityUncertain ->
     auReason au = a9UncertaintyEpoch) ->
    watermark_step_at au db
      (watermark_result s w au (if keeps_uncertain au then a9ResultUncertain else a9ResultActive)
        (if keeps_uncertain au then a9OutcomeInconclusive else a9OutcomeApplied))
      (update_authority (vwInstallationBindingID w)
        (watermarked w
          (if vwStatus w =? WatermarkStatusUncertain then a9AuthorityUncertain else auState au)
          (if vwStatus w =? WatermarkStatusUncertain then a9UncertaintySignedWatermark else auReason au)
          now) (put_watermark w db)).
End Watermark.

Definition watermark_step (s : Store) (w : VerifiedWatermark) (att : Attempt) (db : VaultDB) (r : Result)
    (db' : VaultDB) : Prop :=
  exists db1 db2 au,
    guarded s att (vwKeysetSequence w) (vwKeysetHash w) db db1 /\
    created (atNow att) (vwInstallationBindingID w) (vwSequencerEpoch w) a9AuthorityUncertain
      a9UncertaintyWatermarkGap db1 au db2 /\
    watermark_step_at s w (atNow att) au db2 r db'.

(** ** Statements that succeeded *)

Lemma require_ok (c : bool) (st st' : tx_state VaultDB) u :
  require c st = Ok (u, st') -> c = true /\ st' = st.
Proof. unfold require. destruct c; [|done]. by intros [_ ->]%ret_ok. Qed.

Lemma collapsed_ok {A : Type} (m : vault_tx A) st x : collapsed m st = Ok x -> m st = Ok x.
Proof. unfold collapsed. destruct (m st); naive_solver. Qed.

Lemma guards_ok s att sequence hash st st' now :
  (dbNow ← requireA9KeysetTx (atNow att) sequence hash;
   requireRetentionSafeTx s (atHost att) ;; mret dbNow) st = Ok (now, st') ->
  now = atNow att /\ guarded s att sequence hash (txDb st) (txDb st').
Proof.
  unfold requireA9KeysetTx, requireRetentionSafeTx, requireLookupKeyBoundTx, guarded.
  intros (n & s1 & H1 & H2)%tx_bind_ok.
  apply tx_bind_ok in H1 as (? & s2 & [_ ->]%require_ok & H1).
  apply tx_bind_ok in H1 as (row & s3 & [-> E3]%query_ok & H1).
  destruct (dbKeyset (txDb st)) as [keyset|]; [|done].
  apply tx_bind_ok in H1 as (? & s4 & [Hk ->]%require_ok & [-> ->]%ret_ok).
  apply tx_bind_ok in H2 as (? & s5 & H2%collapsed_ok & [-> ->]%ret_ok). split; [done|].
  apply tx_bind_ok in H2 as (? & s6 & H2 & H3).
  apply tx_bind_ok in H2 as (? & s7 & [_ ->]%require_ok & H2).
  destruct (RootCommitment (stLookupRoot s)) as [commitment|]; [|done].
  apply tx_bind_ok in H2 as (? & s8 & E8%exec_ok & H2).
  apply tx_bind_ok in H2 as (stored & s9 & [-> E9]%query_ok & [Hb%bool_decide_eq_true ->]%require_ok).
  apply tx_bind_ok in H3 as (row & s10 & [-> E10]%query_ok & H3).
  destruct (dbRetention (txDb s9)) as [retention|] eqn:Er; [|done].
  apply require_ok in H3 as [Hs ->]. injection E8 as E8. rewrite E3 in E8.
  assert (E : txDb s10 = bound commitment (txDb st)) by (rewrite E10, E9; by symmetry).
  exists keyset, retention, commitment. rewrite E. repeat (split; [done|]).
  split; [rewrite <- E, E10, E9; done|]. split; [|done].
  rewrite E9, <- E8 in Er. by destruct (dbKeyBinding (txDb st)).
Qed.

Lemma latch_ok inst reason now st st' u :
  latchA9UncertaintyTx inst reason now st = Ok (u, st') ->
  is_Some (dbAuthority (txDb st) !! inst) /\ txDb st' = latch_db inst reason now (txDb st).
Proof.
  intros Hx%exec_ok. destruct (dbAuthority (txDb st) !! inst) eqn:E; [|done].
  simplify_eq. split; [by eexists|done].
Qed.

Lemma load_or_create_ok now inst epoch state reason st st' au :
  load_or_create now inst epoch state reason st = Ok (au, st') ->
  created now inst epoch state reason (txDb st) au (txDb st').
Proof.
  unfold load_or_create, loadA9AuthorityTx, insertA9AuthorityTx, created, insert_authority.
  intros (row & s1 & [-> E1]%query_ok & Hx)%tx_bind_ok.
  destruct (dbAuthority (txDb st) !! inst) as [au'|] eqn:E.
  - apply ret_ok in Hx as [-> ->]. left. by rewrite E1.
  - right. apply tx_bind_ok in Hx as (? & s2 & Hi%exec_ok & [-> ->]%ret_ok).
    rewrite E1, E in Hi. simplify_eq. done.
Qed.

Lemma cancel_ok inst b now st st' u :
  cancelA9RoutesTx inst b now st = Ok (u, st') ->
  txDb st' = cancel_jobs inst (scope_of b) now (txDb st) /\ (length b = 0 \/ length b = 16)%nat.
Proof.
  unfold cancelA9RoutesTx. intros (? & s1 & [Hc ->]%require_ok & Hx)%tx_bind_ok.
  apply tx_bind_ok in Hx as (? & s2 & [_ E2]%query_ok & Hx).
  apply tx_bind_ok in Hx as (? & s3 & [_ E3]%query_ok & Hx%exec_ok).
  injection Hx as Hx. split; [by rewrite <- Hx, E3, E2|].
  destruct (Nat.eqb_spec (length b) 0); [auto|]. destruct (Nat.eqb_spec (length b) 16); [auto|].
  simpl in Hc. by rewrite orb_true_r in Hc.
Qed.

Lemma checked_exec_ok f p st st' u :
  exec (fun db => checked p (f db)) st = Ok (u, st') -> p (f (txDb st)) = true /\ txDb st' = f (txDb st).
Proof. by intros ?%exec_ok%checked_some. Qed.

Lemma reset_ok inst epoch now st st' u :
  resetA9EpochTx inst epoch now st = Ok (u, st') ->
  can_reset inst now (txDb st) /\ txDb st' = reset_db inst epoch now (txDb st).
Proof.
  unfold resetA9EpochTx, reset_db, can_reset.
  intros (? & s1 & [E1 _]%cancel_ok & Hx)%tx_bind_ok.
  apply tx_bind_ok in Hx as (? & s2 & [Hj E2]%checked_exec_ok & Hx).
  apply tx_bind_ok in Hx as (? & s3 & [Hr E3]%checked_exec_ok & Hx%exec_ok).
  injection Hx as Hx. change (scope_of []) with (@None bytes) in E1.
  rewrite E1 in Hj, E2. rewrite E2 in Hr, E3. by rewrite <- Hx, E3.
Qed.

Lemma encode_a9Result s inst epoch g state outcome n :
  1 <= state <= 3 -> 1 <= outcome <= 6 ->
  encodeA9Result (a9Result s inst epoch g state outcome n) = Some (outcome, state).
Proof.
  intros Hs Ho. assert (state = 1 \/ state = 2 \/ state = 3) as Hs' by lia.
  assert (outcome = 1 \/ outcome = 2 \/ outcome = 3 \/ outcome = 4 \/ outcome = 5 \/ outcome = 6)
    as Ho' by lia.
  destruct Hs' as [->|[->| ->]]; destruct Ho' as [->|[->|[->|[->|[->| ->]]]]]; reflexivity.
Qed.

Lemma receipt_ok s event au state outcome sequence st st' u :
  1 <= state <= 3 -> 1 <= outcome <= 6 ->
  record_receipt event (control_result s event au state outcome sequence) st = Ok (u, st') ->
  exists uuid, receipt_free event (txDb st) uuid /\
    txDb st' = record event uuid au outcome state sequence (txDb st).
Proof.
  intros Hs Ho. unfold record_receipt, insertA9ReceiptTx, control_result.
  rewrite encode_a9Result by done. intros Hx%exec_ok. unfold insert_receipt in Hx.
  destruct (pg_uuid _) as [uuid|] eqn:Eu; [|done].
  destruct (dbReceipts _ !! uuid) eqn:Er; [done|]. simplify_eq. exists uuid. done.
Qed.

Lemma refuse_ok s event now au reason outcome st st' r :
  1 <= outcome <= 6 ->
  refuse_control s event now au reason outcome st = Ok (r, st') ->
  exists uuid, receipt_free event (txDb st) uuid /\
    r = answer s event au a9ResultUncertain outcome (auContiguous au) /\
    txDb st' = refused event now uuid au reason outcome (txDb st).
Proof.
  intros Ho (? & s1 & [_ E1]%latch_ok & Hx)%tx_bind_ok.
  apply tx_bind_ok in Hx as (? & s2 & (uuid & Hf & E2)%receipt_ok & [-> ->]%ret_ok);
    [|unfold a9ResultUncertain; lia|done].
  exists uuid. rewrite E1 in Hf, E2. done.
Qed.

Lemma insert_control_ok event c st st' u :
  exec (insert_control event c) st = Ok (u, st') ->
  dbControls (txDb st) !! control_key event = None /\ txDb st' = put_control event c (txDb st).
Proof. by intros Hx%exec_ok%insert_control_put. Qed.

Lemma upsert_ok event now st st' u :
  persistA9UpsertTx event now st = Ok (u, st') ->
  exists a, vcAssertion event = Some a /\ dbControls (txDb st) !! control_key event = None /\
    dbAssertions (txDb st) !! vaHash a = None /\
    routes_supported (upsert_db event a now (txDb st)) = true /\
    txDb st' = upsert_db event a now (txDb st).
Proof.
  unfold persistA9UpsertTx, upsert_db. destruct (vcAssertion event) as [a|]; [|done].
  intros (? & s1 & [Hc E1]%insert_control_ok & Hx)%tx_bind_ok.
  apply tx_bind_ok in Hx as (? & s2 & [En Ha]%exec_ok%insert_assertion_put & [Hr E3]%checked_exec_ok).
  exists a. rewrite Ha, E1 in Hr, E3. rewrite E1 in En. done.
Qed.

Lemma revoke_ok event c now st st' u :
  length (vcBindingID event) = 16%nat ->
  persistA9RevokeTx event c now st = Ok (u, st') ->
  can_revoke event c now (txDb st) /\ txDb st' = revoke_db event c now (txDb st).
Proof.
  intros Hl. unfold persistA9RevokeTx, can_revoke, revoke_db.
  intros (? & s1 & [Hc E1]%insert_control_ok & Hx)%tx_bind_ok.
  apply tx_bind_ok in Hx as (? & s2 & Ht%exec_ok & Hx).
  apply tx_bind_ok in Hx as (? & s3 & [E3 _]%cancel_ok & Hx).
  apply tx_bind_ok in Hx as (? & s4 & [Hj E4]%checked_exec_ok & [Hr E5]%checked_exec_ok).
  unfold scope_of in E3. rewrite Hl in E3. cbn [Nat.eqb] in E3.
  unfold insert_tombstone in Ht. destruct (dbTombstones _ !! _) eqn:Et; [done|]. injection Ht as Ht.
  rewrite E1 in Ht, Et. rewrite E4, E3, <- Ht in Hr, E5. rewrite E3, <- Ht in Hj. done.
Qed.

Lemma tombstone_ok event st st' v :
  highestA9TombstoneVersionTx (vcInstallationBindingID event) (vcBindingID event) st = Ok (v, st') ->
  v = tombstone_version event (txDb st) /\ txDb st' = txDb st /\
  match highest_tombstone (txDb st) (vcInstallationBindingID event) (vcBindingID event) with
  | Some top => 0 < top
  | None => True
  end.
Proof.
  unfold highestA9TombstoneVersionTx, tombstone_version.
  intros (o & s1 & [-> E1]%query_ok & Hx)%tx_bind_ok.
  destruct (highest_tombstone _ _ _) as [top|].
  - apply tx_bind_ok in Hx as (? & s2 & [Hp%Z.ltb_lt ->]%require_ok & [-> ->]%ret_ok). done.
  - by apply ret_ok in Hx as [-> ->].
Qed.

Lemma answer_ok s event au state outcome sequence st st' r :
  1 <= state <= 3 -> 1 <= outcome <= 6 ->
  (record_receipt event (control_result s event au state outcome sequence) ;;
   mret (control_result s event au state outcome sequence)) st = Ok (r, st') ->
  exists uuid, receipt_free event (txDb st) uuid /\ r = answer s event au state outcome sequence /\
    txDb st' = record event uuid au outcome state sequence (txDb st).
Proof.
  intros Hs Ho (? & s1 & (uuid & Hf & E)%receipt_ok & [-> ->]%ret_ok)%tx_bind_ok; [|done..]. eauto.
Qed.

Lemma apply_in_epoch_ok s event now au st st' r :
  length (vcBindingID event) = 16%nat ->
  apply_in_epoch s event now au st = Ok (r, st') ->
  epoch_step s event now au (txDb st) r (txDb st').
Proof.
  intros Hl. unfold apply_in_epoch.
  destruct (control_expired event now) eqn:Ex.
  { intros (uuid & Hf & -> & ->)%refuse_ok; [|done]. apply step_refuse; [done|]. by constructor. }
  intros (row & s1 & [-> E1]%query_ok & Hx)%tx_bind_ok.
  apply tx_bind_ok in Hx as (top & s2 & (-> & E2 & _)%tombstone_ok & Hx).
  rewrite E1 in Hx, E2. rewrite <- E2.
  set (bv := match _ with Some row => bdVersion row | None => 0 end) in Hx.
  assert (Hb : bv = binding_version event (txDb s2)) by (unfold bv, binding_version; by rewrite E2).
  assert (Ht : tombstone_version event (txDb st) = tombstone_version event (txDb s2)) by by rewrite E2.
  rewrite Ht in Hx.
  assert (Hh : (if bv <? tombstone_version event (txDb s2) then tombstone_version event (txDb s2) else bv) =
    highest_version event (txDb s2)).
  { unfold highest_version. rewrite <- Hb. destruct (Z.ltb_spec bv (tombstone_version event (txDb s2))); lia. }
  rewrite Hh in Hx. clear Hh.
  destruct ((vcAction event =? ControlActionUpsert) &&
            (vcBindingVersion event <=? tombstone_version event (txDb s2))) eqn:Ed.
  { boolprop. apply answer_ok in Hx as (uuid & Hf & -> & ->); [|done..]. apply step_stale; done. }
  assert (Hd : ~ denied event (txDb s2)).
  { intros [Ha Hv]. apply andb_false_iff in Ed as []; boolprop; [done|lia]. }
  destruct (vcStreamSequence event <=? auContiguous au) eqn:El; boolprop.
  { apply refuse_ok in Hx as (uuid & Hf & -> & ->); [|done]. apply step_refuse; [done|]. by constructor. }
  destruct (w64 (auContiguous au + 1) <? vcStreamSequence event) eqn:Eg; boolprop.
  { destruct ((vcAction event =? ControlActionRevoke) &&
              (highest_version event (txDb s2) <? vcBindingVersion event)) eqn:Er.
    - boolprop. apply tx_bind_ok in Hx as (? & s3 & [_ E3]%latch_ok & Hx).
      apply tx_bind_ok in Hx as (? & s4 & (uuid & Hf & E4)%receipt_ok & Hx); [|done..].
      apply tx_bind_ok in Hx as (? & s5 & [Hc E5]%revoke_ok & [-> ->]%ret_ok); [|done].
      rewrite E5, E4, E3 in *. apply step_gap_revoke; done.
    - apply refuse_ok in Hx as (uuid & Hf & -> & ->); [|done]. apply step_refuse; [done|].
      constructor; [done|done|lia|]. intros [Ha Hv].
      apply andb_false_iff in Er as []; boolprop; [done|lia]. }
  destruct (negb (vcExpectedPreviousSequence event =? auContiguous au) ||
            negb (vcExpectedBindingVersion event =? highest_version event (txDb s2))) eqn:Ec.
  { apply refuse_ok in Hx as (uuid & Hf & -> & ->); [|done]. apply step_refuse; [done|].
    constructor; [done|done|lia|]. apply orb_true_iff in Ec as []; boolprop; auto. }
  boolprop. apply tx_bind_ok in Hx as (? & s3 & (uuid & Hf & E3)%receipt_ok & Hx);
    [| |done].
  2: { repeat case_match; unfold a9ResultUncertain, a9ResultRevoked, a9ResultActive; lia. }
  assert (Hi : in_sequence event now (txDb s2) au) by done.
  apply tx_bind_ok in Hx as (? & s4 & Hp & Hx).
  apply tx_bind_ok in Hx as (? & s5 & E5%exec_ok & [-> ->]%ret_ok). injection E5 as E5. rewrite <- E5.
  change (control_result s event au _ a9OutcomeApplied (vcStreamSequence event)) with
    (answer s event au (applied_state event au) a9OutcomeApplied (vcStreamSequence event)).
  change (txDb s3 = record event uuid au a9OutcomeApplied (applied_state event au)
    (vcStreamSequence event) (txDb s2)) in E3.
  destruct (vcAction event =? ControlActionUpsert) eqn:Ea; boolprop.
  - apply upsert_ok in Hp as (a & Ha & Hc & Hn & Hr & E4). rewrite E4, E3 in *.
    apply step_upsert; done.
  - apply revoke_ok in Hp as (Hc & E4); [|done]. rewrite E4, E3 in *. apply step_revoke; done.
Qed.

Lemma receipt_matches_true event row :
  (rcOperation row =? a9OperationControl) && beq (rcInstallation row) (vcInstallationBindingID event) &&
  beq (rcEpoch row) (vcSequencerEpoch event) && beq (rcHash row) (vcSignedObjectHash event) = true <->
  receipt_matches event row.
Proof. unfold receipt_matches. rewrite !andb_true_iff, Z.eqb_eq, !beq_true. tauto. Qed.

Lemma receipt_result_ok s event au now st st' r :
  a9ReceiptResultTx s (vcIdempotencyKey event) a9OperationControl (vcInstallationBindingID event)
    (vcSequencerEpoch event) (vcSignedObjectHash event) au now st = Ok (r, st') ->
  exists uuid, pg_uuid (vcIdempotencyKey event) = Some uuid /\
    match dbReceipts (txDb st) !! uuid with
    | None => r = None /\ txDb st' = txDb st
    | Some row =>
        (receipt_matches event row /\ r = Some (replay_result s event row) /\ txDb st' = txDb st) \/
        (~ receipt_matches event row /\
         r = Some (answer s event au a9ResultUncertain a9OutcomeConflict (auContiguous au)) /\
         txDb st' = latch_db (vcInstallationBindingID event) a9UncertaintyIdempotency now (txDb st))
    end.
Proof.
  unfold a9ReceiptResultTx. intros (found & s1 & Hf & Hx)%tx_bind_ok.
  destruct (pg_uuid _) as [uuid|] eqn:Eu; [|done]. apply query_ok in Hf as [-> E1].
  exists uuid. split; [done|]. destruct (dbReceipts (txDb st) !! uuid) as [row|].
  2: { apply ret_ok in Hx as [-> ->]. by rewrite E1. }
  pose proof (receipt_matches_true event row) as Hm.
  destruct (_ && _ && _ && _); [left|right].
  - apply ret_ok in Hx as [-> ->]. rewrite E1. split; [by apply Hm|done].
  - apply tx_bind_ok in Hx as (? & s2 & [_ E2]%latch_ok & [-> ->]%ret_ok).
    rewrite E2, E1. split; [|done]. intros [=]%Hm.
Qed.

Lemma apply_after_guards_ok s event now st st' r :
  length (vcBindingID event) = 16%nat ->
  apply_after_guards s event now st = Ok (r, st') ->
  exists db2 au, control_created event now (txDb st) au db2 /\
    control_step_at s event now au db2 r (txDb st').
Proof.
  intros Hl. unfold apply_after_guards.
  intros (au & s1 & Hc & Hx)%tx_bind_ok. exists (txDb s1), au. split.
  { unfold control_authority in Hc. unfold control_created.
    destruct (vcStreamSequence event =? 1); by apply load_or_create_ok in Hc. }
  clear Hc. apply tx_bind_ok in Hx as (replay & s2 & (uuid & Hu & Hr)%receipt_result_ok & Hx).
  destruct (dbReceipts (txDb s1) !! uuid) as [row|] eqn:Er.
  { destruct Hr as [(Hm & -> & E2)|(Hm & -> & E2)].
    - destruct (control_expired event now) eqn:Ex.
      + rewrite andb_true_r in Hx. by destruct (beq _ _) eqn:Eb in Hx.
      + rewrite andb_false_r in Hx. apply ret_ok in Hx as [-> ->]. rewrite E2.
        by eapply step_replay.
    - change (beq (reOutcome (answer s event au a9ResultUncertain a9OutcomeConflict (auContiguous au)))
        ResultOutcomeReplay) with false in Hx. simpl in Hx.
      apply ret_ok in Hx as [-> ->]. rewrite E2. by eapply step_key_conflict. }
  destruct Hr as [-> E2]. rewrite <- E2 in Er. rewrite <- E2.
  assert (Hf : receipt_free event (txDb s2) uuid) by done.
  destruct (negb (beq (auEpoch au) (vcSequencerEpoch event))) eqn:Ee.
  - apply negb_true_iff, beq_false in Ee. unfold apply_new_epoch in Hx.
    destruct (negb (vcStreamSequence event =? 1) || negb (vcExpectedPreviousSequence event =? 0)) eqn:E1.
    { apply refuse_ok in Hx as (uuid' & Hf' & -> & ->); [|done]. apply step_epoch_start; [done..|].
      intros [H1 H0]. apply orb_true_iff in E1 as []; boolprop; done. }
    boolprop. apply tx_bind_ok in Hx as (observed & s3 & [-> E3]%query_ok & Hx).
    destruct (epoch_observed _ _ _) eqn:Eo.
    { apply refuse_ok in Hx as (uuid' & Hf' & -> & ->); [|done]. rewrite E3 in *.
      by apply step_epoch_reuse. }
    apply tx_bind_ok in Hx as (? & s4 & [Hreset E4]%reset_ok & Hx%apply_in_epoch_ok); [|done].
    rewrite E3 in Hreset, E4. rewrite E4 in Hx. by apply step_new_epoch.
  - apply negb_false_iff, beq_true in Ee. apply step_same_epoch; [done|]. by apply apply_in_epoch_ok.
Qed.

Lemma applyA9ControlOnce_ok s event att st st' r :
  length (vcBindingID event) = 16%nat ->
  applyA9ControlOnce s event att st = Ok (r, st') ->
  control_step s event att (txDb st) r (txDb st').
Proof.
  intros Hl. unfold applyA9ControlOnce. intros (now & s1 & Hk & Hx)%tx_bind_ok.
  apply tx_bind_ok in Hx as (u & s2 & Hr & Hx).
  destruct (guards_ok s att (vcKeysetSequence event) (vcKeysetHash event) st s2 now) as [-> Hg].
  { apply tx_bind_ok. exists now, s1. split; [done|]. apply tx_bind_ok. by exists u, s2. }
  apply apply_after_guards_ok in Hx as (db2 & au & Hc & Hs); [|done]. by exists (txDb s2), db2, au.
Qed.

(** ** Watermark transactions *)

Lemma latch_watermark_ok s w now au reason outcome st st' r :
  watermark_refusal w now au reason outcome ->
  latch_watermark s w now au reason outcome st = Ok (r, st') ->
  watermark_step_at s w now au (txDb st) r (txDb st').
Proof.
  intros Hr (? & s1 & [_ E1]%latch_ok & [-> ->]%ret_ok)%tx_bind_ok. rewrite E1. by apply mark_refuse.
Qed.

Lemma append_watermark_ok s w now au st st' r :
  next_watermark w now au ->
  (vwStatus w = WatermarkStatusCurrent -> auState au = a9AuthorityUncertain ->
   auReason au = a9UncertaintyEpoch) ->
  append_watermark s w now au st = Ok (r, st') ->
  watermark_step_at s w now au (txDb st) r (txDb st').
Proof.
  intros Hn Hc (? & s1 & Hi%exec_ok & Hx)%tx_bind_ok.
  apply tx_bind_ok in Hx as (? & s2 & E2%exec_ok & [-> ->]%ret_ok).
  unfold insert_watermark in Hi. destruct (dbWatermarks _ !! _) eqn:Ew; [done|].
  do 2 (destruct (negb _); [done|]). injection Hi as Hi. injection E2 as E2. rewrite <- E2, <- Hi.
  by apply mark_append.
Qed.

Lemma apply_fresh_watermark_ok s w now au st st' r :
  apply_fresh_watermark s w now au st = Ok (r, st') ->
  watermark_step_at s w now au (txDb st) r (txDb st').
Proof.
  unfold apply_fresh_watermark.
  destruct (negb (beq (auEpoch au) (vwSequencerEpoch w))) eqn:Ee.
  { apply negb_true_iff, beq_false in Ee. apply latch_watermark_ok. by constructor. }
  apply negb_false_iff, beq_true in Ee.
  destruct (negb (before now (vwExpiresAt w))) eqn:Ex.
  { unfold before in Ex. boolprop. apply latch_watermark_ok. by constructor. }
  apply negb_false_iff, Z.ltb_lt in Ex.
  intros (? & s1 & [_ ->]%require_ok & Hx)%tx_bind_ok. revert Hx.
  change (match auWatermark au with Some c => wcSequence c | None => 0 end) with (current_sequence au).
  destruct (Z.leb_spec (vwWatermarkSequence w) (current_sequence au)).
  { apply latch_watermark_ok. by constructor. }
  destruct ((current_sequence au =? 0) && negb (vwWatermarkSequence w =? 1)) eqn:E1.
  { boolprop. apply latch_watermark_ok. constructor. intros (_ & _ & _ & Hs & _).
    rewrite (proj2 (Z.eqb_eq _ _)) in Hs by done. done. }
  destruct (negb (current_sequence au =? 0) &&
            negb (vwWatermarkSequence w =? w64 (current_sequence au + 1))) eqn:E2.
  { boolprop. apply latch_watermark_ok. constructor. intros (_ & _ & _ & Hs & _).
    rewrite (proj2 (Z.eqb_neq _ _)) in Hs by done. done. }
  destruct ((vwStatus w =? WatermarkStatusCurrent) &&
            (auContiguous au <? vwCommittedThroughStreamSequence w)) eqn:E3.
  { boolprop. apply latch_watermark_ok. constructor. intros (_ & _ & _ & _ & Hs).
    specialize (Hs ltac:(done)). lia. }
  assert (Hn : next_watermark w now au).
  { repeat (split; [done|]). split.
    - destruct (Z.eqb_spec (current_sequence au) 0); simpl in E1, E2; boolprop; done.
    - intros Hs. apply Z.eqb_eq in Hs. rewrite Hs in E3. simpl in E3. boolprop. done. }
  destruct ((vwStatus w =? WatermarkStatusCurrent) && (auState au =? a9AuthorityUncertain) &&
            negb (auReason au =? a9UncertaintyEpoch)) eqn:E4.
  { boolprop. intros [-> ->]%ret_ok. by apply mark_ignored. }
  apply append_watermark_ok; [done|]. intros Hs%Z.eqb_eq Hu%Z.eqb_eq. rewrite Hs, Hu in E4.
  simpl in E4. by boolprop.
Qed.

Lemma watermark_after_guards_ok s w now st st' r :
  watermark_after_guards s w now st = Ok (r, st') ->
  exists db2 au, created now (vwInstallationBindingID w) (vwSequencerEpoch w) a9AuthorityUncertain
      a9UncertaintyWatermarkGap (txDb st) au db2 /\
    watermark_step_at s w now au db2 r (txDb st').
Proof.
  unfold watermark_after_guards. intros (au & s1 & Hc%load_or_create_ok & Hx)%tx_bind_ok.
  exists (txDb s1), au. split; [done|].
  apply tx_bind_ok in Hx as (replayed & s2 & Ha & Hx). unfold a9WatermarkAlreadyAcceptedTx in Ha.
  apply tx_bind_ok in Ha as (found & s3 & [-> E3]%query_ok & Ha).
  destruct (watermark_by_hash _ _) as [row|] eqn:Ew.
  - apply tx_bind_ok in Ha as (? & s4 & [Hm ->]%require_ok & [-> ->]%ret_ok).
    apply tx_bind_ok in Hx as (? & s5 & [Hl%Z.ltb_lt ->]%require_ok & [-> ->]%ret_ok).
    rewrite E3. apply watermark_by_hash_some in Ew as [Hh [k Hk]].
    rewrite !andb_true_iff, !beq_true, Z.eqb_eq in Hm. destruct Hm as [[Hi He] Hs].
    by eapply mark_replay.
  - apply ret_ok in Ha as [-> ->]. apply apply_fresh_watermark_ok in Hx. by rewrite E3 in Hx.
Qed.

Lemma applyA9WatermarkOnce_ok s w att st st' r :
  applyA9WatermarkOnce s w att st = Ok (r, st') ->
  watermark_step s w att (txDb st) r (txDb st').
Proof.
  unfold applyA9WatermarkOnce. intros (now & s1 & Hk & Hx)%tx_bind_ok.
  apply tx_bind_ok in Hx as (u & s2 & Hr & Hx).
  destruct (guards_ok s att (vwKeysetSequence w) (vwKeysetHash w) st s2 now) as [-> Hg].
  { apply tx_bind_ok. exists now, s1. split; [done|]. apply tx_bind_ok. by exists u, s2. }
  apply watermark_after_guards_ok in Hx as (db2 & au & Hc & Hs). by exists (txDb s2), db2, au.
Qed.

(** ** The public operations

    [moved step schedule db db' r]: the call let other transactions run, [n] times, and then
    committed one step or none; it answered with that step's result or with an error. *)
Definition moved (step : Attempt -> VaultDB -> Result -> VaultDB -> Prop)
    (schedule : nat -> (VaultDB -> VaultDB) * Attempt) (db db' : VaultDB) (r : result error Result) : Prop :=
  exists n, (n <= a9TransactionAttempts)%nat /\
    let before := interference schedule n 0 db in
    (db' = before /\ r = Err ErrStoreUnavailable) \/
    (exists a att, step att before a db' /\ (r = Ok a \/ r = Err ErrStoreUnavailable)).

Lemma settled_moved once (step : Attempt -> VaultDB -> Result -> VaultDB -> Prop) schedule db db' r :
  (forall att st st' a, once att st = Ok (a, st') -> step att (txDb st) a (txDb st')) ->
  (forall n, commit_sound (snd (schedule n))) ->
  with_retries a9TransactionAttempts once schedule 0 db = (db', r) -> moved step schedule db db' r.
Proof.
  intros Hstep Hs Hx. apply with_retries_once in Hx as (n & Hn & Hc); [|done].
  exists n. split; [done|]. destruct Hc as [Hc|(_ & a & st & Hb & -> & Hr)]; [by left|right].
  apply Hstep in Hb. eexists a, _. split; [exact Hb|done].
Qed.

Lemma committed_control s event schedule db db' r :
  length (vcBindingID event) = 16%nat ->
  (forall n, commit_sound (snd (schedule n))) ->
  ApplyControl s event schedule db = (db', r) ->
  (validA9Control s event = false /\ db' = db /\ r = Err ErrStoreUnavailable) \/
  (validA9Control s event = true /\ moved (control_step s event) schedule db db' r).
Proof.
  intros Hl Hs. unfold ApplyControl. destruct (validA9Control s event); cbn [negb]; [right|left; naive_solver].
  split; [done|]. eapply settled_moved; [|done|done]. intros att st st' a. by apply applyA9ControlOnce_ok.
Qed.

Lemma committed_watermark s w schedule db db' r :
  (forall n, commit_sound (snd (schedule n))) ->
  ApplyWatermark s w schedule db = (db', r) ->
  (validA9Watermark s w = false /\ db' = db /\ r = Err ErrStoreUnavailable) \/
  (validA9Watermark s w = true /\ moved (watermark_step s w) schedule db db' r).
Proof.
  intros Hs. unfold ApplyWatermark. destruct (validA9Watermark s w); cbn [negb]; [right|left; naive_solver].
  split; [done|]. eapply settled_moved; [|done|done]. intros att st st' a. by apply applyA9WatermarkOnce_ok.
Qed.

End Spec.
