(* ===== verification/A9VaultInv.v ===== *)
(** * Invariants of the control vault

    [vault_inv] is what every committed control event and watermark preserves: the authority
    rows are well formed, the contiguous control events of the current epoch are exactly
    those up to the contiguous sequence, an active binding is newer than every tombstone of
    it, routes refer to the active tuple of their binding and delivery jobs to their route,
    and stored receipts decode. Histories only grow. *)

From S2P Require Import Prelude GoBytes GoTime GoCrypto VaultCrypto Gate8Header Interfaces Sql A9Types A9VaultDb A9Vault A9VaultSpec.
Local Open Scope Z_scope.
Local Open Scope go_scope.

(** ** The invariant *)

Definition in_range (z : Z) : Prop := 0 <= z <= a9MaxSafeInteger.

Definition row_ok (au : AuthorityRow) : Prop :=
  in_range (auContiguous au) /\ in_range (auGeneration au) /\
  ((auState au = a9AuthorityActive /\ auReason au = 0) \/
   (auState au = a9AuthorityUncertain /\ auReason au <> 0)) /\
  (forall c, auWatermark au = Some c -> 1 <= wcSequence c <= a9MaxSafeInteger /\
    (wcStatus c = WatermarkStatusCurrent -> wcCommittedThrough c <= auContiguous au)).

Definition contiguous_at (controls : gmap (bytes * bytes * Z) ControlRow) (inst epoch : bytes) (n : Z) : Prop :=
  exists row, controls !! (inst, epoch, n) = Some row /\ crContiguous row = true.

Definition stream_ok (authority : gmap bytes AuthorityRow)
    (controls : gmap (bytes * bytes * Z) ControlRow) : Prop :=
  (forall inst au, authority !! inst = Some au -> row_ok au) /\
  (forall inst au n, authority !! inst = Some au ->
     contiguous_at controls inst (auEpoch au) n <-> 1 <= n <= auContiguous au) /\
  (forall inst epoch n row, controls !! (inst, epoch, n) = Some row -> is_Some (authority !! inst)).

(** An active binding is newer than every denied version of it. *)
Definition denials_win (db : VaultDB) : Prop :=
  forall inst binding row v, dbBindings db !! (inst, binding) = Some row ->
    bdState row = a9BindingActive -> is_Some (dbTombstones db !! (inst, binding, v)) -> v < bdVersion row.

Definition bindings_ok (db : VaultDB) : Prop :=
  denials_win db /\
  (forall k row, dbBindings db !! k = Some row -> bdState row <> a9BindingActive -> bdActive row = None) /\
  routes_supported db = true /\ jobs_supported db = true /\
  (forall k j, dbJobs db !! k = Some j -> is_Some (jbA9 j) -> job_live j = true).

Definition receipts_ok (receipts : gmap bytes ReceiptRow) : Prop :=
  forall k row, receipts !! k = Some row ->
    1 <= rcState row <= 3 /\ in_range (rcGeneration row) /\ in_range (rcSequence row).

Definition vault_inv (db : VaultDB) : Prop :=
  stream_ok (dbAuthority db) (dbControls db) /\ bindings_ok db /\ receipts_ok (dbReceipts db).

(** Tables the database protects against updates and deletes. *)
Definition append_only (db db' : VaultDB) : Prop :=
  dbControls db ⊆ dbControls db' /\ dbAssertions db ⊆ dbAssertions db' /\
  dbTombstones db ⊆ dbTombstones db' /\ dbReceipts db ⊆ dbReceipts db' /\
  dbWatermarks db ⊆ dbWatermarks db' /\
  (forall c, dbKeyBinding db = Some c -> dbKeyBinding db' = Some c).

(** Byte arrays have their length, unsigned integers their width. *)
Definition control_typed (event : VerifiedControl) : Prop :=
  length (vcBindingID event) = 16%nat /\
  u64 (vcStreamSequence event) /\ u64 (vcExpectedPreviousSequence event) /\
  u64 (vcBindingVersion event) /\ u64 (vcExpectedBindingVersion event) /\ u64 (vcKeysetSequence event).

Definition watermark_typed (w : VerifiedWatermark) : Prop := u64 (vwWatermarkSequence w).

(** ** Valid objects *)

Lemma valid_control s event :
  control_typed event -> validA9Control s event = true ->
  vcEnvironment event = stEnvironment s /\
  1 <= vcStreamSequence event <= a9MaxSafeInteger /\
  vcExpectedPreviousSequence event = vcStreamSequence event - 1 /\
  1 <= vcBindingVersion event <= a9MaxSafeInteger /\
  vcExpectedBindingVersion event = vcBindingVersion event - 1 /\
  1 <= vcKeysetSequence event <= a9MaxSafeInteger /\
  ((vcAction event = ControlActionUpsert /\ exists a, vcAssertion event = Some a /\
      vaHash a = vcAssertionHash event) \/
   (vcAction event = ControlActionRevoke /\ vcAssertion event = None)).
Proof.
  intros (_ & H1 & H2 & H3 & H4 & H5). unfold validA9Control.
  destruct (_ || _) eqn:E; [done|]. boolprop. unfold a9MaxSafeInteger in *.
  beqs.
  unfold u64 in *. intros Ha.
  repeat match goal with H : _ = w64 (_ + 1) |- _ => rewrite w64_succ in H by done end.
  assert (Hz : forall z, z <= 2 ^ 53 - 1 -> (z =? 2 ^ 64 - 1) = false) by (intros; apply Z.eqb_neq; lia).
  rewrite !Hz in * by done. repeat (split; [lia || done|]).
  destruct (vcAction event =? ControlActionUpsert) eqn:Eu; boolprop.
  - left. split; [done|]. destruct (negb _); [done|]. destruct (vcAssertion event) as [a|]; [|done].
    exists a. boolprop. split; [done|]. by apply beq_true.
  - right. destruct (vcAction event =? ControlActionRevoke) eqn:Er; [|done]. boolprop. done.
Qed.

(** ** The stream tables *)

Lemma row_latched reason now au : reason <> 0 -> row_ok au -> row_ok (latched reason now au).
Proof. intros Hr (Hc & Hg & _ & _). repeat (split; [done|]). split; [right; done|done]. Qed.

Lemma row_reset epoch now au : row_ok au -> row_ok (reset_row epoch now au).
Proof.
  intros (_ & Hg & _ & _). split; [unfold in_range, a9MaxSafeInteger; simpl; lia|].
  split; [done|]. split; [right; done|done].
Qed.

Lemma stream_alter f inst authority controls :
  (forall au, row_ok au -> row_ok (f au) /\ auEpoch (f au) = auEpoch au /\ auContiguous (f au) = auContiguous au) ->
  stream_ok authority controls -> stream_ok (alter f inst authority) controls.
Proof.
  intros Hf (Hr & Hs & Hk).
  assert (Ha : forall i au, alter f inst authority !! i = Some au ->
    exists au0, authority !! i = Some au0 /\ row_ok au /\ auEpoch au = auEpoch au0 /\
      auContiguous au = auContiguous au0).
  { intros i au. destruct (decide (i = inst)) as [->|Hn].
    - rewrite lookup_alter_eq. intros (au0 & E & ->)%fmap_Some_1. exists au0.
      destruct (Hf au0 (Hr _ _ E)). done.
    - rewrite lookup_alter_ne by done. intros E. exists au. eauto. }
  split; [|split].
  - intros i au (au0 & _ & Ho & _)%Ha. done.
  - intros i au n (au0 & E & _ & -> & ->)%Ha. by apply Hs.
  - intros i e n row Hc%Hk. destruct Hc as [au E]. destruct (decide (i = inst)) as [->|Hn].
    + rewrite lookup_alter_eq, E. by eexists.
    + rewrite lookup_alter_ne by done. by eexists.
Qed.

Lemma stream_latch inst reason now authority controls :
  reason <> 0 -> stream_ok authority controls -> stream_ok (alter (latched reason now) inst authority) controls.
Proof. intros Hr. apply stream_alter. intros au Ho. split; [by apply row_latched|done]. Qed.

Lemma stream_create inst au authority controls :
  authority !! inst = None -> row_ok au -> auContiguous au = 0 ->
  stream_ok authority controls -> stream_ok (<[inst := au]> authority) controls.
Proof.
  intros Hn Ho H0 (Hr & Hs & Hk).
  assert (Hno : forall e n, controls !! (inst, e, n) = None).
  { intros e n. apply eq_None_not_Some. intros [row Hc]. apply Hk in Hc as [? Hc]. congruence. }
  split; [|split].
  - intros i au'. destruct (decide (i = inst)) as [->|]; [rewrite lookup_insert_eq; by intros [= <-]|].
    rewrite lookup_insert_ne by done. apply Hr.
  - intros i au' n. destruct (decide (i = inst)) as [->|].
    + rewrite lookup_insert_eq. intros [= <-]. rewrite H0. split; [|lia].
      intros (row & Hc & _). by rewrite Hno in Hc.
    + rewrite lookup_insert_ne by done. apply Hs.
  - intros i e n row Hc%Hk. destruct (decide (i = inst)) as [->|]; [by rewrite lookup_insert_eq|].
    by rewrite lookup_insert_ne.
Qed.

Lemma stream_reset inst epoch now authority controls :
  (forall n, controls !! (inst, epoch, n) = None) ->
  stream_ok authority controls -> stream_ok (alter (reset_row epoch now) inst authority) controls.
Proof.
  intros Hno (Hr & Hs & Hk). split; [|split].
  - intros i au. destruct (decide (i = inst)) as [->|].
    + rewrite lookup_alter_eq. intros (au0 & E & ->)%fmap_Some_1. eapply row_reset, Hr, E.
    + rewrite lookup_alter_ne by done. apply Hr.
  - intros i au n. destruct (decide (i = inst)) as [->|].
    + rewrite lookup_alter_eq. intros (au0 & E & ->)%fmap_Some_1. simpl. split; [|lia].
      intros (row & Hc & _). by rewrite Hno in Hc.
    + rewrite lookup_alter_ne by done. apply Hs.
  - intros i e n row Hc%Hk. destruct Hc as [au E]. destruct (decide (i = inst)) as [->|].
    + rewrite lookup_alter_eq, E. by eexists.
    + rewrite lookup_alter_ne by done. by eexists.
Qed.

Lemma stream_gap inst epoch n row authority controls :
  is_Some (authority !! inst) -> crContiguous row = false -> controls !! (inst, epoch, n) = None ->
  stream_ok authority controls -> stream_ok authority (<[(inst, epoch, n) := row]> controls).
Proof.
  intros Ha Hg Hno (Hr & Hs & Hk). split; [done|]. split.
  - intros i au m Hi. rewrite <- (Hs _ _ _ Hi). unfold contiguous_at.
    destruct (decide ((inst, epoch, n) = (i, auEpoch au, m))) as [<-|].
    + rewrite lookup_insert_eq, Hno. split; [intros (? & [= <-] & ?); congruence|by intros (? & [=] & _)].
    + by rewrite lookup_insert_ne.
  - intros i e m row'. destruct (decide ((inst, epoch, n) = (i, e, m))) as [[= <- <- <-]|].
    + done.
    + rewrite lookup_insert_ne by done. apply Hk.
Qed.

Lemma stream_next inst au n now row authority controls :
  authority !! inst = Some au -> n = auContiguous au + 1 -> n <= a9MaxSafeInteger ->
  crContiguous row = true ->
  stream_ok authority controls ->
  stream_ok (alter (set_contiguous n now) inst authority) (<[(inst, auEpoch au, n) := row]> controls).
Proof.
  intros Ha Hn Hmax Hg (Hr & Hs & Hk). pose proof (Hr _ _ Ha) as (Hc & Hgen & Hst & Hw). split; [|split].
  - intros i au'. destruct (decide (i = inst)) as [->|].
    + rewrite lookup_alter_eq, Ha. intros [= <-]. unfold in_range in *.
      split; [simpl; unfold in_range; lia|]. split; [done|]. split; [done|].
      intros c Hcw. destruct (Hw c Hcw) as [? Hcov]. split; [done|]. intros Hcur. specialize (Hcov Hcur).
      simpl. lia.
    + rewrite lookup_alter_ne by done. apply Hr.
  - intros i au' m. destruct (decide (i = inst)) as [->|].
    + rewrite lookup_alter_eq, Ha. intros [= <-]. simpl. unfold in_range in *.
      unfold contiguous_at. destruct (decide (m = n)) as [->|].
      * rewrite lookup_insert_eq. split; [lia|]. eauto.
      * rewrite lookup_insert_ne by congruence. setoid_rewrite (Hs _ _ _ Ha). lia.
    + rewrite lookup_alter_ne by done. unfold contiguous_at. rewrite lookup_insert_ne by congruence. apply Hs.
  - intros i e m row'. destruct (decide (i = inst)) as [->|].
    + rewrite lookup_alter_eq, Ha. by eexists.
    + rewrite lookup_alter_ne by done. rewrite lookup_insert_ne by congruence. apply Hk.
Qed.

Section Inv.
Context `{Postgres}.

(** ** The binding tables *)

Lemma tombstone_version_spec event db v :
  is_Some (dbTombstones db !! (vcInstallationBindingID event, vcBindingID event, v)) ->
  v <= tombstone_version event db.
Proof.
  unfold tombstone_version. intros Hv.
  pose proof (highest_tombstone_spec db (vcInstallationBindingID event) (vcBindingID event)) as Hs.
  destruct (highest_tombstone _ _ _) as [top|]; [by apply Hs|].
  rewrite Hs in Hv. by destruct Hv.
Qed.

Lemma lookup_put_binding inst binding row db i b row' :
  dbBindings (put_binding inst binding row db) !! (i, b) = Some row' ->
  (i = inst /\ b = binding /\ row' = row) \/ ((i, b) <> (inst, binding) /\ dbBindings db !! (i, b) = Some row').
Proof.
  unfold put_binding. cbn [dbBindings with_Bindings]. destruct (decide ((inst, binding) = (i, b))) as [[= <- <-]|Hn].
  - rewrite lookup_insert_eq. intros [= <-]. by left.
  - rewrite lookup_insert_ne by done. right. split; [congruence|done].
Qed.

Lemma bindings_upsert event a now db :
  bindings_ok db -> routes_supported (upsert_db event a now db) = true ->
  tombstone_version event db < vcBindingVersion event ->
  bindings_ok (upsert_db event a now db).
Proof.
  intros (Hd & Hi & _ & Hj & Hl) Hr Hv. split; [|split; [|split; [done|split; [exact Hj|exact Hl]]]].
  - intros i b row v [(-> & -> & ->)|[_ Hb]]%lookup_put_binding Ha Ht.
    + apply tombstone_version_spec in Ht. exact (Z.le_lt_trans _ _ _ Ht Hv).
    + exact (Hd i b row v Hb Ha Ht).
  - intros [i b] row [(_ & _ & ->)|[_ Hb]]%lookup_put_binding Ha; [done|exact (Hi _ _ Hb Ha)].
Qed.

Lemma cancelled_jobs inst b now db k j :
  dbJobs (cancel_jobs inst b now db) !! k = Some j -> is_Some (jbA9 j) ->
  dbJobs db !! k = Some j /\ cancelled inst b j = false.
Proof.
  unfold cancel_jobs. cbn [dbJobs with_Jobs]. rewrite lookup_fmap.
  intros (j0 & Hj & ->)%fmap_Some_1 Ha. destruct (cancelled inst b j0) eqn:E; [by destruct Ha|done].
Qed.

Lemma jobs_live_cancel inst b now db :
  (forall k j, dbJobs db !! k = Some j -> is_Some (jbA9 j) -> job_live j = true) ->
  forall k j, dbJobs (cancel_jobs inst b now db) !! k = Some j -> is_Some (jbA9 j) -> job_live j = true.
Proof. intros Hl k j Hj Ha. destruct (cancelled_jobs _ _ _ _ _ _ Hj Ha). eauto. Qed.

(** After the cancellation no job refers to a route that is about to be dropped. *)
Lemma cancel_clears inst b now db k j c :
  (forall k j, dbJobs db !! k = Some j -> is_Some (jbA9 j) -> job_live j = true) ->
  dbJobs (cancel_jobs inst b now db) !! k = Some j -> jbA9 j = Some c -> names inst b c = false.
Proof.
  intros Hl Hj Ha. destruct (cancelled_jobs _ _ _ _ _ _ Hj ltac:(by rewrite Ha)) as [Hj' Hc].
  unfold cancelled in Hc. rewrite (Hl _ _ Hj' ltac:(by rewrite Ha)), Ha in Hc. done.
Qed.

Lemma bindings_revoke event c now db :
  bindings_ok db -> can_revoke event c now db -> bindings_ok (revoke_db event c now db).
Proof.
  intros (Hd & Hi & _ & _ & Hl) (_ & _ & Hj & Hr).
  split; [|split; [|split; [exact Hr|split; [exact Hj|]]]].
  - intros i b row v [(-> & -> & ->)|[Hn Hb]]%lookup_put_binding Ha Ht; [done|].
    apply (Hd i b row v Hb Ha). unfold revoke_db, put_binding, drop_routes, cancel_jobs, put_tombstone in Ht.
    cbn [dbTombstones with_Bindings with_Routes with_Jobs with_Tombstones] in Ht.
    rewrite lookup_insert_ne in Ht by congruence. exact Ht.
  - intros [i b] row [(_ & _ & ->)|[_ Hb]]%lookup_put_binding Ha; [done|exact (Hi _ _ Hb Ha)].
  - exact (jobs_live_cancel _ _ _ db Hl).
Qed.

Lemma bindings_reset inst epoch now db :
  bindings_ok db -> can_reset inst now db -> bindings_ok (reset_db inst epoch now db).
Proof.
  intros (Hd & Hi & _ & _ & Hl) [Hj Hr].
  split; [|split; [|split; [exact Hr|split; [exact Hj|exact (jobs_live_cancel _ _ _ db Hl)]]]].
  - intros i b row v [Hb _]%map_lookup_filter_Some. exact (Hd i b row v Hb).
  - intros k row [Hb _]%map_lookup_filter_Some. exact (Hi k row Hb).
Qed.

(** ** Receipts *)

Lemma receipts_record event uuid au outcome state sequence db :
  receipts_ok (dbReceipts db) -> 1 <= state <= 3 -> in_range (auGeneration au) -> in_range sequence ->
  receipts_ok (dbReceipts (record event uuid au outcome state sequence db)).
Proof.
  intros Hr Hs Hg Hq k row. unfold record, put_receipt. cbn [dbReceipts with_Receipts].
  destruct (decide (uuid = k)) as [->|]; [rewrite lookup_insert_eq; by intros [= <-]|].
  rewrite lookup_insert_ne by done. apply Hr.
Qed.

(** ** One step of the control stream *)

(** The row the code carries agrees with the stored one, up to its timestamp. *)
Definition carries (event : VerifiedControl) (db : VaultDB) (au : AuthorityRow) : Prop :=
  exists stored, dbAuthority db !! vcInstallationBindingID event = Some stored /\
    auEpoch au = auEpoch stored /\ auContiguous au = auContiguous stored /\
    auGeneration au = auGeneration stored /\ auState au = auState stored.

Lemma carries_self event db au :
  dbAuthority db !! vcInstallationBindingID event = Some au -> carries event db au.
Proof. intros E. by exists au. Qed.

Lemma refused_inv event now uuid au reason outcome db :
  reason <> 0 -> carries event db au -> vault_inv db -> vault_inv (refused event now uuid au reason outcome db).
Proof.
  intros Hn (stored & Ha & _ & Ec & Eg & _) (Hs & Hb & Hr).
  pose proof (proj1 Hs) as Hrow. destruct (Hrow _ _ Ha) as (Hc & Hg & _).
  split; [by apply stream_latch|]. split; [exact Hb|]. apply receipts_record; [exact Hr|done|congruence..].
Qed.

Lemma record_inv event uuid au outcome state sequence db :
  1 <= state <= 3 -> in_range sequence -> carries event db au -> vault_inv db ->
  vault_inv (record event uuid au outcome state sequence db).
Proof.
  intros Hst Hq (stored & Ha & _ & _ & Eg & _) (Hs & Hb & Hr).
  pose proof (proj1 Hs) as Hrow. destruct (Hrow _ _ Ha) as (_ & Hg & _).
  split; [exact Hs|]. split; [exact Hb|]. by apply receipts_record; [|..|congruence|].
Qed.

Lemma carries_row event db au : carries event db au -> vault_inv db ->
  in_range (auContiguous au) /\ in_range (auGeneration au) /\ w64 (auContiguous au + 1) = auContiguous au + 1.
Proof.
  intros (stored & Ha & _ & Ec & Eg & _) ((Hrow & _) & _). destruct (Hrow _ _ Ha) as (Hc & Hg & _).
  rewrite Ec, Eg. unfold in_range, a9MaxSafeInteger in *. split; [done|]. split; [done|].
  rewrite w64_succ by (unfold u64; lia). by rewrite (proj2 (Z.eqb_neq _ _)) by lia.
Qed.

Lemma applied_state_range event au : 1 <= applied_state event au <= 3.
Proof.
  unfold applied_state, a9ResultUncertain, a9ResultRevoked, a9ResultActive. repeat case_match; lia.
Qed.

Lemma refusal_reason event now db au reason outcome : refusal event now db au reason outcome -> reason <> 0.
Proof. by intros []. Qed.

Lemma epoch_step_inv s event now au db r db' :
  control_typed event -> validA9Control s event = true ->
  carries event db au -> auEpoch au = vcSequencerEpoch event -> vault_inv db ->
  epoch_step s event now au db r db' -> vault_inv db'.
Proof.
  intros Ht Hv Hc He Hi Hstep.
  destruct (valid_control _ _ Ht Hv) as (_ & Hseq & Hprev & Hver & Hexp & _ & Hact).
  destruct (carries_row _ _ _ Hc Hi) as (Hcont & Hgen & Hw).
  assert (Hq : in_range (vcStreamSequence event)) by (unfold in_range; lia).
  pose proof Hc as (stored & Ha & Ee & Ec & _).
  destruct Hstep as [uuid reason outcome Hf Hr|uuid Hf Hx Hd|uuid db1 Hf Hx Hrev Hgap Hhigh Hcan
    |uuid a db1 Hf (Hx & Hd & Hpos & Hp & Hb) Hup Has Hck Hna Hrs|uuid db1 Hf (Hx & Hd & Hpos & Hp & Hb) Hup Hcan].
  - apply refused_inv; [by eapply refusal_reason|done..].
  - by apply record_inv.
  - destruct (refused_inv event now uuid au a9UncertaintyControlGap a9OutcomeApplied db ltac:(done) Hc Hi)
      as (Hs1 & Hb1 & Hr1). fold db1 in Hs1, Hb1, Hr1. split; [|split; [by apply bindings_revoke|exact Hr1]].
    apply (stream_gap (vcInstallationBindingID event) (vcSequencerEpoch event) (vcStreamSequence event)
      {| crEvent := stored_control event; crContiguous := false |}); [|done|apply Hcan|exact Hs1].
    change (is_Some (alter (latched a9UncertaintyControlGap now) (vcInstallationBindingID event)
      (dbAuthority db) !! vcInstallationBindingID event)). rewrite lookup_alter_eq, Ha. by eexists.
  - destruct (record_inv event uuid au a9OutcomeApplied (applied_state event au) (vcStreamSequence event) db
      (applied_state_range _ _) Hq Hc Hi) as (Hs1 & Hb1 & Hr1). fold db1 in Hs1, Hb1, Hr1.
    assert (Hbo : bindings_ok (upsert_db event a now db1)).
    { apply bindings_upsert; [done..|]. unfold denied in Hd.
      change (tombstone_version event db1) with (tombstone_version event db). lia. }
    split; [|split; [exact Hbo|exact Hr1]].
    change (stream_ok (alter (set_contiguous (vcStreamSequence event) now) (vcInstallationBindingID event)
      (dbAuthority db1)) (<[(vcInstallationBindingID event, vcSequencerEpoch event, vcStreamSequence event) :=
        {| crEvent := stored_control event; crContiguous := true |}]> (dbControls db1))).
    rewrite <- He, Ee. apply stream_next; [exact Ha|lia|lia|done|exact Hs1].
  - destruct (record_inv event uuid au a9OutcomeApplied (applied_state event au) (vcStreamSequence event) db
      (applied_state_range _ _) Hq Hc Hi) as (Hs1 & Hb1 & Hr1). fold db1 in Hs1, Hb1, Hr1.
    pose proof (bindings_revoke _ _ _ _ Hb1 Hcan) as Hbo. split; [|split; [exact Hbo|exact Hr1]].
    change (stream_ok (alter (set_contiguous (vcStreamSequence event) now) (vcInstallationBindingID event)
      (dbAuthority db1)) (<[(vcInstallationBindingID event, vcSequencerEpoch event, vcStreamSequence event) :=
        {| crEvent := stored_control event; crContiguous := true |}]> (dbControls db1))).
    rewrite <- He, Ee. apply stream_next; [exact Ha|lia|lia|done|exact Hs1].
Qed.

Lemma latch_inv inst reason now db :
  reason <> 0 -> vault_inv db -> vault_inv (latch_db inst reason now db).
Proof. intros Hr (Hs & Hb & Hc). split; [by apply stream_latch|split; [exact Hb|exact Hc]]. Qed.

Lemma row_fresh epoch state reason now :
  (state = a9AuthorityActive /\ reason = 0) \/ (state = a9AuthorityUncertain /\ reason <> 0) ->
  row_ok (fresh_authority epoch state reason now).
Proof. intros Hs. unfold row_ok, in_range, a9MaxSafeInteger. simpl. split; [lia|]. split; [lia|]. by split. Qed.

Lemma created_inv now inst epoch state reason db au db' :
  (state = a9AuthorityActive /\ reason = 0) \/ (state = a9AuthorityUncertain /\ reason <> 0) ->
  created now inst epoch state reason db au db' -> vault_inv db ->
  vault_inv db' /\ dbAuthority db' !! inst = Some au.
Proof.
  intros Hsr [[Ha ->]|(Hn & -> & ->)] Hi; [done|]. destruct Hi as (Hs & Hb & Hr). split.
  - split; [|split; [exact Hb|exact Hr]]. apply stream_create; [done|by apply row_fresh|done|done].
  - unfold put_authority. cbn [dbAuthority with_Authority]. by rewrite lookup_insert_eq.
Qed.

Lemma control_created_inv event now db au db' :
  control_created event now db au db' -> vault_inv db ->
  vault_inv db' /\ dbAuthority db' !! vcInstallationBindingID event = Some au.
Proof.
  unfold control_created. destruct (_ =? 1); intros Hc; eapply created_inv; try exact Hc; [left|right]; done.
Qed.

Lemma bound_inv c db : vault_inv db -> vault_inv (bound c db).
Proof. unfold bound. destruct (dbKeyBinding db); [done|]. intros (Hs & Hb & Hr). split; [exact Hs|split; [exact Hb|exact Hr]]. Qed.

Lemma guarded_bound s att sequence hash db db1 :
  guarded s att sequence hash db db1 -> exists c, db1 = bound c db.
Proof. intros (k & r & c & _ & _ & _ & -> & _). by exists c. Qed.

Lemma reset_inv event now db au :
  epoch_observed db (vcInstallationBindingID event) (vcSequencerEpoch event) = false ->
  can_reset (vcInstallationBindingID event) now db ->
  dbAuthority db !! vcInstallationBindingID event = Some au -> vault_inv db ->
  vault_inv (reset_db (vcInstallationBindingID event) (vcSequencerEpoch event) now db) /\
  carries event (reset_db (vcInstallationBindingID event) (vcSequencerEpoch event) now db)
    (reset_row (vcSequencerEpoch event) (auUpdatedAt au) au).
Proof.
  intros Ho Hc Ha (Hs & Hb & Hr). split.
  - split; [|split; [by apply bindings_reset|exact Hr]].
    apply epoch_observed_false in Ho as (Hno & _). by apply stream_reset.
  - exists (reset_row (vcSequencerEpoch event) now au). split; [|done].
    change (alter (reset_row (vcSequencerEpoch event) now) (vcInstallationBindingID event) (dbAuthority db)
      !! vcInstallationBindingID event = Some (reset_row (vcSequencerEpoch event) now au)).
    by rewrite lookup_alter_eq, Ha.
Qed.

Lemma control_step_at_inv s event now au db r db' :
  control_typed event -> validA9Control s event = true ->
  dbAuthority db !! vcInstallationBindingID event = Some au -> vault_inv db ->
  control_step_at s event now au db r db' -> vault_inv db'.
Proof.
  intros Ht Hv Ha Hi Hstep. pose proof (carries_self _ _ _ Ha) as Hc.
  destruct Hstep as [uuid row|uuid row|uuid|uuid|r db' He _ _ Ho Hcan Hstep|r db' He Hstep].
  - done.
  - by apply latch_inv.
  - by apply refused_inv.
  - by apply refused_inv.
  - destruct (reset_inv _ _ _ _ Ho Hcan Ha Hi) as [Hi1 Hc1]. by eapply epoch_step_inv.
  - by eapply epoch_step_inv.
Qed.

Lemma control_step_inv s event att db r db' :
  control_typed event -> validA9Control s event = true ->
  control_step s event att db r db' -> vault_inv db -> vault_inv db'.
Proof.
  intros Ht Hv (db1 & db2 & au & (c & ->)%guarded_bound & Hc & Hstep) Hi.
  destruct (control_created_inv _ _ _ _ _ Hc (bound_inv _ _ Hi)) as [Hi2 Ha].
  by eapply control_step_at_inv.
Qed.

(** ** One step of the watermark stream *)

Lemma valid_watermark s w :
  watermark_typed w -> validA9Watermark s w = true ->
  1 <= vwWatermarkSequence w <= a9MaxSafeInteger /\
  (vwStatus w = WatermarkStatusCurrent \/ vwStatus w = WatermarkStatusUncertain).
Proof.
  unfold watermark_typed, u64, validA9Watermark. intros Ht. destruct (_ || _) eqn:E; [done|]. boolprop.
  intros Hx. split; [lia|].
  destruct (vwStatus w =? WatermarkStatusCurrent) eqn:Ec; boolprop; [by left|].
  destruct (vwStatus w =? WatermarkStatusUncertain) eqn:Eu; boolprop; [by right|done].
Qed.

Lemma append_inv w now au db :
  1 <= vwWatermarkSequence w <= a9MaxSafeInteger -> next_watermark w now au ->
  dbAuthority db !! vwInstallationBindingID w = Some au -> vault_inv db ->
  vault_inv (update_authority (vwInstallationBindingID w)
    (watermarked w
      (if vwStatus w =? WatermarkStatusUncertain then a9AuthorityUncertain else auState au)
      (if vwStatus w =? WatermarkStatusUncertain then a9UncertaintySignedWatermark else auReason au)
      now) (put_watermark w db)).
Proof.
  intros Hseq (_ & _ & _ & _ & Hcov) Ha (Hs & Hb & Hr). split; [|split; [exact Hb|exact Hr]].
  set (f := watermarked _ _ _ _).
  change (stream_ok (alter f (vwInstallationBindingID w) (dbAuthority db)) (dbControls db)).
  pose proof (proj1 Hs _ _ Ha) as (Hc & Hg & Hst & _).
  assert (Hf : row_ok (f au)).
  { split; [done|]. split; [done|]. split.
    - unfold f. cbn [watermarked auState auReason]. destruct (vwStatus w =? WatermarkStatusUncertain); [by right|done].
    - intros c [= <-]. split; [done|]. cbn. exact Hcov. }
  destruct Hs as (Hrow & Hstr & Hk). split; [|split].
  - intros i au'. destruct (decide (i = vwInstallationBindingID w)) as [->|].
    + rewrite lookup_alter_eq, Ha. by intros [= <-].
    + rewrite lookup_alter_ne by done. apply Hrow.
  - intros i au' n. destruct (decide (i = vwInstallationBindingID w)) as [->|].
    + rewrite lookup_alter_eq, Ha. intros [= <-]. exact (Hstr _ _ n Ha).
    + rewrite lookup_alter_ne by done. apply Hstr.
  - intros i e n row Hi%Hk. destruct (decide (i = vwInstallationBindingID w)) as [->|].
    + rewrite lookup_alter_eq, Ha. by eexists.
    + by rewrite lookup_alter_ne.
Qed.

Lemma watermark_step_inv s w att db r db' :
  watermark_typed w -> validA9Watermark s w = true ->
  watermark_step s w att db r db' -> vault_inv db -> vault_inv db'.
Proof.
  intros Ht Hv (db1 & db2 & au & (c & ->)%guarded_bound & Hc & Hstep) Hi.
  assert (Hgap : a9UncertaintyWatermarkGap <> 0) by done.
  destruct (created_inv _ _ _ _ _ _ _ _ (or_intror (conj eq_refl Hgap)) Hc (bound_inv _ _ Hi)) as [Hi2 Ha].
  destruct (valid_watermark _ _ Ht Hv) as [Hseq _].
  destruct Hstep as [k row|reason outcome Hr| |Hn].
  - done.
  - apply latch_inv; [by destruct Hr|done].
  - done.
  - by apply append_inv.
Qed.

(** ** Histories *)

#[export] Instance append_only_preorder : PreOrder append_only.
Proof.
  split.
  - intros db. unfold append_only. repeat (split; [done|]). done.
  - intros a b c (H1 & H2 & H3 & H4 & H5 & H6) (K1 & K2 & K3 & K4 & K5 & K6).
    repeat (split; [by etrans|]). auto.
Qed.

Lemma insert_fresh_subseteq {K V : Type} `{Countable K} (m : gmap K V) k v :
  m !! k = None -> m ⊆ <[k := v]> m.
Proof. apply insert_subseteq. Qed.

Lemma bound_append c db : append_only db (bound c db).
Proof.
  unfold bound. destruct (dbKeyBinding db) eqn:E; [reflexivity|]. unfold append_only.
  repeat (split; [done|]). intros c' Hc. congruence.
Qed.

Lemma authority_append inst f db : append_only db (update_authority inst f db).
Proof. unfold append_only. repeat (split; [done|]). done. Qed.

Lemma created_append now inst epoch state reason db au db' :
  created now inst epoch state reason db au db' -> append_only db db'.
Proof. intros [[_ ->]|(_ & _ & ->)]; [reflexivity|]. unfold append_only. done. Qed.

Lemma record_append event uuid au outcome state sequence db :
  receipt_free event db uuid -> append_only db (record event uuid au outcome state sequence db).
Proof.
  intros [_ Hf]. unfold append_only. repeat (split; [done|]). split; [|done].
  by apply insert_fresh_subseteq.
Qed.

Lemma refused_append event now uuid au reason outcome db :
  receipt_free event db uuid -> append_only db (refused event now uuid au reason outcome db).
Proof. intros Hf. etrans; [apply (authority_append (vcInstallationBindingID event))|by apply record_append]. Qed.

Lemma revoke_append event c now db : can_revoke event c now db -> append_only db (revoke_db event c now db).
Proof.
  intros (Hc & Ht & _). unfold append_only. split; [by apply insert_fresh_subseteq|].
  split; [done|]. split; [by apply insert_fresh_subseteq|]. done.
Qed.

Lemma epoch_step_append s event now au db r db' :
  epoch_step s event now au db r db' -> append_only db db'.
Proof.
  intros [uuid reason outcome Hf Hr|uuid Hf Hx Hd|uuid db1 Hf Hx Hrev Hgap Hhigh Hcan
    |uuid a db1 Hf Hi Hup Has Hck Hna Hrs|uuid db1 Hf Hi Hup Hcan].
  - by apply refused_append.
  - by apply record_append.
  - etrans; [by apply (refused_append event now uuid au a9UncertaintyControlGap a9OutcomeApplied)|].
    by apply revoke_append.
  - etrans; [by apply (record_append event uuid au a9OutcomeApplied (applied_state event au)
      (vcStreamSequence event))|].
    split; [by apply insert_fresh_subseteq|]. split; [|done]. by apply insert_fresh_subseteq.
  - etrans; [by apply (record_append event uuid au a9OutcomeApplied (applied_state event au)
      (vcStreamSequence event))|].
    etrans; [exact (revoke_append _ _ _ _ Hcan)|apply authority_append].
Qed.

Lemma reset_append inst epoch now db : append_only db (reset_db inst epoch now db).
Proof. unfold append_only. repeat (split; [done|]). done. Qed.

Lemma control_step_append s event att db r db' : control_step s event att db r db' -> append_only db db'.
Proof.
  intros (db1 & db2 & au & (c & ->)%guarded_bound & Hc & Hstep).
  etrans; [apply bound_append|]. etrans.
  { unfold control_created in Hc. destruct (_ =? 1); by eapply created_append. }
  destruct Hstep as [uuid row|uuid row|uuid|uuid|r db' He _ _ Ho Hcan Hstep|r db' He Hstep].
  - reflexivity.
  - apply authority_append.
  - by apply refused_append.
  - by apply refused_append.
  - etrans; [apply reset_append|by eapply epoch_step_append].
  - by eapply epoch_step_append.
Qed.

Lemma watermark_step_append s w att db r db' : watermark_step s w att db r db' -> append_only db db'.
Proof.
  intros (db1 & db2 & au & (c & ->)%guarded_bound & Hc & Hstep).
  etrans; [apply bound_append|]. etrans; [by eapply created_append|].
  destruct Hstep as [k row|reason outcome Hr| |Hn Hf].
  - reflexivity.
  - apply authority_append.
  - reflexivity.
  - etrans; [|apply authority_append]. unfold append_only. repeat (split; [done|]). split; [|done].
    by apply insert_fresh_subseteq.
Qed.

(** ** Uncertainty is a latch *)

Definition uncertain (inst : bytes) (db : VaultDB) : Prop :=
  exists au, dbAuthority db !! inst = Some au /\ auState au = a9AuthorityUncertain.

Lemma uncertain_alter inst f i db :
  (forall au, auState au = a9AuthorityUncertain -> auState (f au) = a9AuthorityUncertain) ->
  uncertain inst db -> uncertain inst (update_authority i f db).
Proof.
  intros Hf (au & Ha & Hu). unfold uncertain, update_authority. cbn [dbAuthority with_Authority].
  destruct (decide (inst = i)) as [->|].
  - rewrite lookup_alter_eq, Ha. eexists. split; [done|]. auto.
  - rewrite lookup_alter_ne by done. eauto.
Qed.

Lemma uncertain_created now i epoch state reason inst db au db' :
  created now i epoch state reason db au db' -> uncertain inst db -> uncertain inst db'.
Proof.
  intros [[_ ->]|(Hn & _ & ->)] (au' & Ha & Hu); [by exists au'|]. exists au'. split; [|done].
  unfold put_authority. cbn [dbAuthority with_Authority]. by rewrite lookup_insert_ne by congruence.
Qed.

Lemma epoch_step_uncertain s event now au db r db' inst :
  epoch_step s event now au db r db' -> uncertain inst db -> uncertain inst db'.
Proof.
  intros [uuid reason outcome Hf Hr|uuid Hf Hx Hd|uuid db1 Hf Hx Hrev Hgap Hhigh Hcan
    |uuid a db1 Hf Hi Hup Has Hck Hna Hrs|uuid db1 Hf Hi Hup Hcan] Hu.
  - exact (uncertain_alter inst (latched reason now) _ db (fun _ _ => eq_refl) Hu).
  - exact Hu.
  - exact (uncertain_alter inst (latched a9UncertaintyControlGap now) _ db (fun _ _ => eq_refl) Hu).
  - apply uncertain_alter; [done|exact Hu].
  - apply uncertain_alter; [done|exact Hu].
Qed.

Lemma control_step_uncertain s event att db r db' inst :
  control_step s event att db r db' -> uncertain inst db -> uncertain inst db'.
Proof.
  intros (db1 & db2 & au & (c & ->)%guarded_bound & Hc & Hstep) Hu.
  assert (Hu2 : uncertain inst db2).
  { assert (Hb : uncertain inst (bound c db)) by (unfold bound; by destruct (dbKeyBinding db)).
    unfold control_created in Hc. destruct (_ =? 1); by eapply uncertain_created. }
  clear Hc Hu.
  destruct Hstep as [uuid row|uuid row|uuid|uuid|r db' He _ _ Ho Hcan Hstep|r db' He Hstep].
  - done.
  - by apply uncertain_alter.
  - exact (uncertain_alter inst (latched a9UncertaintyEpoch _) _ db2 (fun _ _ => eq_refl) Hu2).
  - exact (uncertain_alter inst (latched a9UncertaintyEpoch _) _ db2 (fun _ _ => eq_refl) Hu2).
  - eapply epoch_step_uncertain; [exact Hstep|]. by apply uncertain_alter.
  - by eapply epoch_step_uncertain.
Qed.

Lemma watermark_step_uncertain s w att db r db' inst :
  watermark_step s w att db r db' -> uncertain inst db -> uncertain inst db'.
Proof.
  intros (db1 & db2 & au & (c & ->)%guarded_bound & Hc & Hstep) Hu.
  assert (Hu2 : uncertain inst db2).
  { assert (Hb : uncertain inst (bound c db)) by (unfold bound; by destruct (dbKeyBinding db)).
    by eapply uncertain_created. }
  assert (Ha : dbAuthority db2 !! vwInstallationBindingID w = Some au).
  { destruct Hc as [[Ha ->]|(_ & _ & ->)]; [done|].
    unfold put_authority. cbn [dbAuthority with_Authority]. by rewrite lookup_insert_eq. }
  clear Hc Hu. destruct Hstep as [k row|reason outcome Hr| |Hn Hf].
  - done.
  - by apply uncertain_alter.
  - done.
  - set (f := watermarked _ _ _ _). destruct Hu2 as (au' & Ha' & Hu').
    unfold uncertain, update_authority. cbn [dbAuthority with_Authority put_watermark with_Watermarks].
    destruct (decide (inst = vwInstallationBindingID w)) as [->|].
    + rewrite lookup_alter_eq, Ha. eexists. split; [done|]. simplify_eq. unfold f. cbn [watermarked auState].
      by destruct (vwStatus w =? WatermarkStatusUncertain).
    + rewrite lookup_alter_ne by done. eauto.
Qed.

(** ** From steps to calls *)

Lemma moved_preserves (P : VaultDB -> Prop) step schedule db db' r :
  (forall att db0 a db1, step att db0 a db1 -> P db0 -> P db1) ->
  (forall n db0, P db0 -> P (fst (schedule n) db0)) ->
  moved step schedule db db' r -> P db -> P db'.
Proof.
  intros Hs Hf (n & _ & Hm) Hp.
  assert (Hb : forall n i db, P db -> P (interference schedule n i db)).
  { clear -Hf. induction n as [|n IH]; intros i db Hp; simpl; auto. }
  specialize (Hb n 0%nat db Hp). destruct Hm as [[-> _]|(a & att & Hst & _)]; eauto.
Qed.

(** The other transactions keep [P]. *)
Definition others_keep (P : VaultDB -> Prop) (schedule : nat -> (VaultDB -> VaultDB) * Attempt) : Prop :=
  forall n db, P db -> P (fst (schedule n) db).

(** PostgreSQL reports a serialization failure only for a transaction it rolled back. *)
Definition sound_commits (schedule : nat -> (VaultDB -> VaultDB) * Attempt) : Prop :=
  forall n, commit_sound (snd (schedule n)).

Lemma control_keeps (P : VaultDB -> Prop) s event schedule db db' r :
  control_typed event -> sound_commits schedule -> others_keep P schedule ->
  (validA9Control s event = true ->
   forall att db0 a db1, control_step s event att db0 a db1 -> P db0 -> P db1) ->
  ApplyControl s event schedule db = (db', r) -> P db -> P db'.
Proof.
  intros Ht Hs Ho Hp Hx. apply committed_control in Hx as [(_ & -> & _)|[Hv Hm]]; [done| |apply Ht|done].
  eapply moved_preserves; eauto.
Qed.

Lemma watermark_keeps (P : VaultDB -> Prop) s w schedule db db' r :
  sound_commits schedule -> others_keep P schedule ->
  (validA9Watermark s w = true ->
   forall att db0 a db1, watermark_step s w att db0 a db1 -> P db0 -> P db1) ->
  ApplyWatermark s w schedule db = (db', r) -> P db -> P db'.
Proof.
  intros Hs Ho Hp Hx. apply committed_watermark in Hx as [(_ & -> & _)|[Hv Hm]]; [done| |done].
  eapply moved_preserves; eauto.
Qed.

End Inv.
