(* ===== verification/A9Accept.v ===== *)
(** * From accepted texts to the vault

    What the trust layer accepts is what the vault's theorems assume of its inputs: a
    verified control or watermark has its fields in range and passes the vault's own check.
    The rest of the file instantiates the theorems about trust material on signed samples. *)

From S2P Require Import Prelude GoBytes GoTime GoCrypto VaultCrypto JsonText Jcs A9Schema A9Types A9Trust A9Keyset A9Verify A9Sample Sql A9VaultDb A9Vault A9VaultSpec A9VaultInv.
Local Open Scope Z_scope.
Local Open Scope go_scope.

Lemma max_ijson : maxIJSONInteger = a9MaxSafeInteger.
Proof. done. Qed.

Lemma u64_safe n : 0 <= n <= maxIJSONInteger -> u64 n.
Proof. unfold u64, maxIJSONInteger. lia. Qed.

(** An expiry after a clock that is not before the zero instant is not the zero instant. *)
Lemma live_window issued t expires : live issued t expires -> zero_time <= t ->
  is_zero expires = false /\ after expires issued = true /\ (30 * second <? time_sub expires issued) = false.
Proof.
  unfold live, is_zero, after. intros (Hz & Ht & He) Hzt. rewrite time_sub_gt by done.
  repeat split; compare_lia; done.
Qed.

Lemma accepted_control_typed `{Ed25519, MapRange} raw o keyset expected c :
  control_accepted raw o keyset expected c -> control_typed c.
Proof.
  intros Ha. pose proof (ca_stream _ _ _ _ _ Ha) as [Hs Hp]. pose proof (ca_version _ _ _ _ _ Ha) as [Hb Hq].
  pose proof (ca_keyset _ _ _ _ _ Ha) as [Hk _]. pose proof (ca_ids _ _ _ _ _ Ha) as (_ & _ & Hbid).
  apply decodeFixed_length in Hbid. unfold control_typed. split_and!; try done; apply u64_safe; lia.
Qed.

Lemma accepted_watermark_typed `{Ed25519, MapRange} raw o keyset expected w v :
  watermark_accepted raw o keyset expected w v -> watermark_typed w.
Proof. intros Ha. pose proof (wa_sequence _ _ _ _ _ _ Ha). apply u64_safe. lia. Qed.

(** C24: every control the trust layer accepts, for the environment a store serves, is
    well-typed and valid for the vault: the checks the vault repeats never refuse it. *)
Theorem accepted_control_is_valid `{Ed25519, MapRange} (s : Store) (raw : bytes) (expected : ControlExpectations)
    (c : VerifiedControl) (Hv : VerifyControl raw expected = Ok c)
    (Henv : stEnvironment s = ceEnvironment expected) (Hclock : zero_time <= ceEvaluationTime expected) :
  control_typed c /\ validA9Control s c = true.
Proof.
  apply VerifyControl_accepted in Hv as (o & keyset & _ & Ha).
  pose proof (ca_stream _ _ _ _ _ Ha) as [Hs Hp]. pose proof (ca_version _ _ _ _ _ Ha) as [Hb Hq].
  pose proof (ca_keyset _ _ _ _ _ Ha) as [Hk _]. pose proof (ca_ids _ _ _ _ _ Ha) as (Hi & He & Hbid).
  pose proof (live_window _ _ _ (ca_live _ _ _ _ _ Ha) Hclock) as (Hz & Haf & Hsub).
  split; [by eapply accepted_control_typed|].
  unfold validA9Control. rewrite <- max_ijson, Henv, (proj1 (ca_environment _ _ _ _ _ Ha)), beq_refl.
  unfold w64. rewrite Hz, Haf, Hsub, Hp, Hq. unfold maxIJSONInteger in *.
  replace (vcStreamSequence c - 1 + 1) with (vcStreamSequence c) by lia.
  replace (vcBindingVersion c - 1 + 1) with (vcBindingVersion c) by lia.
  rewrite !(Z.mod_small _ (2 ^ 64)) by lia. rewrite !Z.eqb_refl. compare_lia. cbn [negb orb].
  destruct (beq (vcIdempotencyKey c) []) eqn:Ekey.
  { apply beq_true in Ekey. rewrite (ca_key _ _ _ _ _ Ha) in Ekey.
    by apply (valid_control_key o (proj2 (proj2 (ca_canonical _ _ _ _ _ Ha)))) in Ekey. }
  cbn [orb negb]. pose proof (ca_action _ _ _ _ _ Ha) as Hact. destruct (vcAssertion c) as [a|].
  - destruct Hact as (-> & -> & Hh & (E1 & E2 & E3 & E4 & E5) & ao & _ & Haa).
    pose proof (aa_ids _ _ _ _ _ Haa) as [Hai Hab]. rewrite Hi in Hai. rewrite Hbid in Hab.
    injection Hai as Hai. injection Hab as Hab.
    pose proof (live_window _ _ _ (aa_live _ _ _ _ _ Haa) Hclock) as (_ & Hafa & Hsuba).
    cbn. rewrite Hh, E1, E2, E3, E4, E5, <- Hai, <- Hab, !beq_refl, !Z.eqb_refl, Hafa. cbn.
    by rewrite Z.leb_antisym, Hsuba.
  - destruct Hact as [-> Hr]. unfold ControlReasonAuthorityRevoked, ControlReasonAuthorityReplaced in *. cbn.
    by compare_lia.
Qed.

(** The same for watermarks, current or uncertain; the verdict is [Eligible] exactly
    for the current ones. *)
Theorem accepted_watermark_is_valid `{Ed25519, MapRange} (s : Store) (raw : bytes) (expected : ControlExpectations)
    (w : VerifiedWatermark) (v : Verdict) (Hv : VerifyWatermark raw expected = Ok (w, v))
    (Henv : stEnvironment s = ceEnvironment expected) (Hclock : zero_time <= ceEvaluationTime expected) :
  watermark_typed w /\ validA9Watermark s w = true /\ (v = Eligible <-> vwStatus w = WatermarkStatusCurrent).
Proof.
  apply VerifyWatermark_accepted in Hv as (o & keyset & _ & Ha).
  pose proof (wa_sequence _ _ _ _ _ _ Ha) as Hs. pose proof (wa_committed _ _ _ _ _ _ Ha) as Hc.
  pose proof (wa_keyset _ _ _ _ _ _ Ha) as [Hk _].
  pose proof (live_window _ _ _ (wa_live _ _ _ _ _ _ Ha) Hclock) as (Hz & Haf & Hsub).
  pose proof (wa_status _ _ _ _ _ _ Ha) as Hst.
  split; [by eapply accepted_watermark_typed|].
  unfold validA9Watermark. rewrite <- max_ijson, Henv, (wa_environment _ _ _ _ _ _ Ha), beq_refl, Hz, Haf, Hsub.
  unfold maxIJSONInteger in *. compare_lia. cbn [negb orb].
  destruct Hst as [(-> & -> & ->)|(-> & Hr & Ht & _)]; [done|].
  unfold WatermarkUncertaintySourceUnavailable, WatermarkUncertaintyClock in *. cbn. compare_lia.
  split; [done|]. split; [intros ->|]; done.
Qed.

(** ** The theorems on the samples *)

Import GoCrypto.Sample A9Sample.
#[local] Existing Instance in_order.

Definition sample_store : Store :=
  {| stEnvironment := str "dev"; stEnvironmentID := 1; stLookupRoot := repeat x05 32; stA9Enabled := true;
     stEncryption := {| krActiveVersion := 1; krKeys := {[1 := repeat x15 32]} |}; stTeenConversationEnabled := false;
     stAuthorityKeys := ∅; stLeaseTTL := 7 * day |}.

Lemma accepted_control_is_valid_witness :
  validA9Control sample_store (accepted _ upsert_accepted) = true /\ validA9Control sample_store (accepted _ revoke_accepted) = true.
Proof.
  split.
  - apply (accepted_control_is_valid sample_store upsert_text expected _ (accepted_ok _ upsert_accepted)); [reflexivity|vm_compute; discriminate].
  - apply (accepted_control_is_valid sample_store revoke_text expected _ (accepted_ok _ revoke_accepted)); [reflexivity|vm_compute; discriminate].
Defined.

Lemma accepted_watermark_is_valid_witness :
  validA9Watermark sample_store (accepted _ watermark_ok).1 = true.
Proof.
  apply (accepted_watermark_is_valid sample_store watermark_text expected _ (accepted _ watermark_ok).2).
  - rewrite (accepted_ok _ watermark_ok) at 1. by destruct (accepted _ watermark_ok).
  - reflexivity.
  - vm_compute. discriminate.
Defined.

Lemma accepted_control_is_signed_witness :
  exists o keyset, ceKeyset expected = Some keyset /\ Canonicalize (JObject o) = Ok upsert_text /\
    signed_online o keyset (vcIssuedAt (accepted _ upsert_accepted)) ControlSignatureDomain.
Proof.
  destruct (accepted_control_is_signed upsert_text expected _ (accepted_ok _ upsert_accepted))
    as (o & keyset & Hk & Hc & Hs & _). exact (ex_intro _ o (ex_intro _ keyset (conj Hk (conj Hc Hs)))).
Defined.

Definition unsigned : object := make [("n"%string, number 7); ("sig"%string, text "")].
Definition unsigned_signature : bytes := default [] (SignObject unsigned "sig" ControlSignatureDomain control_seed).

Lemma signed_object_verifies_witness :
  VerifyObject (put (str "sig") (JString unsigned_signature) unsigned) "sig" ControlSignatureDomain
    (ed25519_public control_seed) = Eligible.
Proof. apply (signed_object_verifies unsigned "sig" ControlSignatureDomain control_seed). vm_compute. reflexivity. Defined.

Definition renamed : object := make [("n"%string, JInt 7); ("signature"%string, JNull)].
Definition signing_input : bytes := ControlSignatureDomain ++ str "{" ++ [x22; x6e; x22] ++ str ":7}".

Lemma signing_input_injective_witness :
  ControlSignatureDomain = ControlSignatureDomain /\
  as_parsed (JObject (drop_member (str "sig") unsigned)) = as_parsed (JObject (drop_member (str "signature") renamed)).
Proof.
  destruct (signing_input_injective unsigned renamed "sig" "signature" ControlSignatureDomain ControlSignatureDomain
    (str "{" ++ [x22; x6e; x22] ++ str ":7}") (str "{" ++ [x22; x6e; x22] ++ str ":7}") signing_input) as (E & _ & F).
  - right. left.
  - right. left.
  - vm_compute. reflexivity.
  - vm_compute. reflexivity.
  - vm_compute. repeat split; repeat constructor.
  - split; [vm_compute; repeat constructor|vm_compute; repeat split; discriminate].
  - exact (conj E F).
Defined.

Definition sample_tuple : TupleInput := {|
  tiEnvironment := str "dev"; tiAccountIncarnationID := str "0123abcd-0123-4567-89ab-0123456789ab";
  tiHytchConversationID := str "0123abcd-0123-4567-89ab-0123456789ac"; tiConversationGeneration := 1;
  tiRosterVersion := 2; tiRosterCommitment := repeat x07 32; tiTransportConversationID := repeat x61 64 |}.
Definition sample_preimage : bytes := Eval vm_compute in default [] (tuple_preimage sample_tuple).

Lemma tuple_preimage_injective_witness : sample_tuple = sample_tuple.
Proof.
  apply (tuple_preimage_injective sample_tuple sample_tuple sample_preimage);
    first [vm_compute; reflexivity|unfold tuple_typed; cbn; lia].
Defined.

Lemma online_key_at_exact_witness :
  OnlineKeyAt keyset (key_id control_seed) "A9_CONTROL" now = Ok (ed25519_public control_seed) <->
  exists keys key,
    parseOnlineKeys (field keyset "keys") = Some keys /\ key ∈ keys /\ onUse key = str "A9_CONTROL" /\
    onKeyID key = key_id control_seed /\ onPublicKey key = ed25519_public control_seed /\
    onNotBefore key <= now < onNotAfter key /\ Ed25519KeyID (ed25519_public control_seed) = Some (key_id control_seed).
Proof.
  exact (online_key_at_exact keyset (ed25519_public root_seed) (key_id root_seed) (str "dev") now (key_id control_seed)
    "A9_CONTROL" now (ed25519_public control_seed) keyset_accepted).
Defined.

Definition old_key : OnlineKey := {|
  onKeyID := key_id control_seed; onUse := str "A9_CONTROL"; onPublicKey := ed25519_public control_seed;
  onNotBefore := instant_of t0; onNotAfter := instant_of far; onState := str "SIGN" |}.

Lemma rotation_keeps_keys_witness :
  OnlineKeyAt cutover (key_id control_seed) "A9_CONTROL" now = OnlineKeyAt transition (key_id control_seed) "A9_CONTROL" now.
Proof.
  refine (proj1 (rotation_keeps_keys transition cutover (ed25519_public root_seed) (key_id root_seed) (str "dev") now
    zero_time (instant_of t_cutover) (default [] (parseOnlineKeys (field transition "keys"))) old_key "A9_CONTROL" now
    transition_accepted cutover_accepted rotation_accepted _ _ _ _ _)).
  - vm_compute. reflexivity.
  - vm_compute. reflexivity.
  - apply (bool_decide_eq_true_1 _). vm_compute. reflexivity.
  - reflexivity.
  - vm_compute. reflexivity.
Defined.

Definition next_topic : CommitmentKey := {|
  cmPurpose := str "TOPIC"; cmKeyID := hmac_id x14; cmTopicKeyEpoch := Some 675;
  cmNotBefore := instant_of boundary; cmNotAfter := instant_of far |}.

Lemma topic_handoff_witness :
  CommitmentKeyAt keyset "TOPIC" (Some 675) (instant_of boundary) true = Ok next_topic.
Proof.
  destruct (topic_handoff keyset (instant_of t0) (instant_of boundary)
    (default [] (parseCommitmentKeys (field keyset "commitment_keys"))) next_topic) as (current & _ & _ & H & _).
  - exact schedule_accepted.
  - vm_compute. reflexivity.
  - vm_compute. reflexivity.
  - vm_compute. split; [discriminate|reflexivity].
  - apply (bool_decide_eq_true_1 _). vm_compute. reflexivity.
  - reflexivity.
  - vm_compute. reflexivity.
  - vm_compute. split; [discriminate|reflexivity].
  - vm_compute. reflexivity.
  - exact H.
Defined.
