(* ===== verification/A9Current.v ===== *)
(** * Is a route still current?

    src/pkg/vault/a9_current.go: the clock alignment and the reference time of an
    evaluation, and the transaction that decides, table by table, whether one exact route
    snapshot may still be used for a delivery (with validA9RouteSnapshot of
    delivery_jobs.go). *)

From S2P Require Import Prelude GoBytes GoTime GoCrypto VaultCrypto Gate8Header Interfaces Sql A9Types A9VaultDb A9Vault A9VaultSpec.
Local Open Scope Z_scope.
Local Open Scope go_scope.

(** ** Clocks *)

Definition a9MaximumClockSkew : Z := 5 * second.

(** Negation of a [time.Duration]: the least one is its own negation. *)
Definition duration_neg (d : Z) : Z := if d =? min_duration then d else - d.

Definition a9TrustClockAligned (managerNow databaseNow : Z) : bool :=
  bail is_zero managerNow || is_zero databaseNow ||
       negb (TopicEpoch managerNow =? TopicEpoch databaseNow) ||
       negb (beq (format_date_only managerNow) (format_date_only databaseNow)) with false;;
  let difference := time_sub managerNow databaseNow in
  let difference := if difference <? 0 then duration_neg difference else difference in
  difference <=? a9MaximumClockSkew.

Definition a9CurrentReferenceTime (evaluationTime hostNow databaseNow : Z) : option Z :=
  bail is_zero evaluationTime || is_zero hostNow || is_zero databaseNow ||
       before hostNow evaluationTime || negb (a9TrustClockAligned evaluationTime databaseNow) ||
       negb (a9TrustClockAligned hostNow databaseNow) with None;;
  let reference := databaseNow in
  let reference := if after hostNow reference then hostNow else reference in
  let reference := if after evaluationTime reference then evaluationTime else reference in
  Some reference.

Record a9CurrentRouteState := {
  csDatabaseNow : Z;
  csKeysetExpiresAt : Z;
  csKeysetFreshUntil : Z;
  csWatermarkExpiresAt : Z;
  csAssertionExpiresAt : Z;
  csInstallationIdentity : bytes;
}.

Definition authorityExpiresAt (state : a9CurrentRouteState) : Z :=
  fold_left (fun result candidate => if is_zero result || before candidate result then candidate else result)
    [csKeysetFreshUntil state; csWatermarkExpiresAt state; csAssertionExpiresAt state]
    (csKeysetExpiresAt state).

Definition a9RouteStillCurrentAt (evaluationTime hostNow databaseNow : Z) (state : a9CurrentRouteState)
    (snapshot : option A9RouteSnapshot) : option Z :=
  match a9CurrentReferenceTime evaluationTime hostNow databaseNow, snapshot with
  | Some reference, Some snapshot =>
      bail negb (before reference (authorityExpiresAt state)) with None;;
      bail (a9TopicKeyEpoch snapshot =? TopicEpoch reference) ||
           PreviousTopicEpochVerificationUsable (a9TopicKeyEpoch snapshot) reference
             (gtInstant (a9AssertionExpiresAt snapshot)) true with Some reference;;
      None
  | _, _ => None
  end.

(** ** The transaction *)

Definition validA9RouteSnapshot (snapshot : A9RouteSnapshot) (routeKeyEpoch now : Z) : bool :=
  (0 <? a9SubscriptionGeneration snapshot) && (a9SubscriptionGeneration snapshot <=? MaxCanonicalInteger) &&
  (0 <? a9BindingVersion snapshot) && (a9BindingVersion snapshot <=? MaxCanonicalInteger) &&
  (0 <? a9AssertionStreamSequence snapshot) && (a9AssertionStreamSequence snapshot <=? MaxCanonicalInteger) &&
  (0 <? a9TopicKeyEpoch snapshot) && (0 <? a9RouteKeyEpoch snapshot) &&
  (a9RouteKeyEpoch snapshot =? routeKeyEpoch) &&
  (0 <? a9KeysetSequence snapshot) && (a9KeysetSequence snapshot <=? MaxCanonicalInteger) &&
  (0 <? a9WatermarkSequence snapshot) && (a9WatermarkSequence snapshot <=? MaxCanonicalInteger) &&
  negb (is_zero (gtInstant (a9AssertionExpiresAt snapshot))) &&
  after (gtInstant (a9AssertionExpiresAt snapshot)) now.

(** The columns of the snapshot, as the queries compare them. *)
Definition snapshot_tuple (snapshot : A9RouteSnapshot) : ActiveTuple := {|
  acAssertionHash := a9AssertionHash snapshot; acStreamSequence := a9AssertionStreamSequence snapshot;
  acTopicKeyEpoch := a9TopicKeyEpoch snapshot; acTopicBinding := a9TopicBinding snapshot;
  acKeysetSequence := a9KeysetSequence snapshot; acKeysetHash := a9KeysetHash snapshot |}.

Definition snapshot_columns (snapshot : A9RouteSnapshot) : RouteColumns := {|
  roInstallation := a9InstallationBindingID snapshot; roEpoch := a9SequencerEpoch snapshot;
  roGeneration := a9SubscriptionGeneration snapshot; roBinding := a9BindingID snapshot;
  roVersion := a9BindingVersion snapshot; roActive := snapshot_tuple snapshot;
  roRouteKeyEpoch := a9RouteKeyEpoch snapshot; roWatermarkSequence := a9WatermarkSequence snapshot |}.

(** [Some (databaseNow, keysetExpiresAt, keysetFreshUntil)] when the keyset is current. *)
Definition lockA9CurrentKeysetReceiptTx (databaseNow expectedSequence : Z) (expectedHash : bytes)
  : vault_tx (option (Z * Z * Z)) :=
  if (expectedSequence =? 0) || (a9MaxSafeInteger <? expectedSequence) then mret None else
  row ← query dbKeyset;
  mret (row ← (row : option KeysetRow);
        expiresAt ← ksExpiresAt row;
        if (ksSequence row <=? 0) || negb (keyset_current row databaseNow expectedSequence expectedHash) ||
           after (ksRefreshedAt row) databaseNow
        then None else Some (databaseNow, expiresAt, ksRefreshedAt row + 6 * hour)).

Definition authority_current (row : AuthorityRow) (snapshot : A9RouteSnapshot) (now : Z)
  : option WatermarkColumns :=
  c ← auWatermark row;
  if negb (beq (auEpoch row) (a9SequencerEpoch snapshot)) || (auContiguous row <? 0) ||
     (a9MaxSafeInteger <? auContiguous row) || (auGeneration row <=? 0) ||
     negb (auGeneration row =? a9SubscriptionGeneration snapshot) ||
     (auContiguous row <? a9AssertionStreamSequence snapshot) ||
     negb (auState row =? a9AuthorityActive) || negb (auReason row =? 0) ||
     (wcSequence c <=? 0) || (a9MaxSafeInteger <? wcSequence c) ||
     (wcSequence c <? a9WatermarkSequence snapshot) || (wcCommittedThrough c <? 0) ||
     (a9MaxSafeInteger <? wcCommittedThrough c) || (auContiguous row <? wcCommittedThrough c) ||
     (wcCommittedThrough c <? a9AssertionStreamSequence snapshot) ||
     negb (wcStatus c =? WatermarkStatusCurrent) || negb (wcReason c =? WatermarkUncertaintyNone) ||
     after (wcIssuedAt c) now || negb (after (wcExpiresAt c) (wcIssuedAt c)) ||
     (30 * second <? time_sub (wcExpiresAt c) (wcIssuedAt c)) || negb (before now (wcExpiresAt c)) ||
     negb (length (wcSigningKeyID c) =? 32)%nat || negb (wcKeysetSequence c =? a9KeysetSequence snapshot) ||
     negb (beq (wcKeysetHash c) (a9KeysetHash snapshot))
  then None else Some c.

Definition lockA9CurrentAuthorityTx (snapshot : A9RouteSnapshot) (now : Z)
  : vault_tx (option WatermarkColumns) :=
  row ← query (fun db => dbAuthority db !! a9InstallationBindingID snapshot);
  mret (row ← (row : option AuthorityRow); authority_current row snapshot now).

Definition lockA9CurrentBindingTx (snapshot : A9RouteSnapshot) : vault_tx bool :=
  query (fun db =>
    match dbBindings db !! (a9InstallationBindingID snapshot, a9BindingID snapshot) with
    | Some row =>
        beq (bdEpoch row) (a9SequencerEpoch snapshot) && (bdVersion row =? a9BindingVersion snapshot) &&
        (bdState row =? a9BindingActive) && bool_decide (bdActive row = Some (snapshot_tuple snapshot))
    | None => false
    end).

Definition requireNoWinningA9TombstoneTx (snapshot : A9RouteSnapshot) : vault_tx bool :=
  query (fun db => all_rows (fun k _ =>
    negb (beq k.1.1 (a9InstallationBindingID snapshot) && beq k.1.2 (a9BindingID snapshot) &&
          (a9BindingVersion snapshot <=? k.2))) (dbTombstones db)).

Definition lockA9CurrentRouteProjectionTx (leaseID : bytes) (snapshot : A9RouteSnapshot)
  : vault_tx (option bytes) :=
  row ← query (fun db => dbRoutes db !! leaseID);
  match row with
  | Some row =>
      if bool_decide (roColumns row = snapshot_columns snapshot) then
        require (length (roIdentity row) =? 32)%nat ;; mret (Some (roIdentity row))
      else mret None
  | None => mret None
  end.

Definition assertion_current (a : VerifiedAssertion) (snapshot : A9RouteSnapshot) (now : Z) : bool :=
  beq (vaInstallationBindingID a) (a9InstallationBindingID snapshot) &&
  beq (vaSequencerEpoch a) (a9SequencerEpoch snapshot) &&
  (vaStreamSequence a =? a9AssertionStreamSequence snapshot) &&
  beq (vaBindingID a) (a9BindingID snapshot) && (vaBindingVersion a =? a9BindingVersion snapshot) &&
  (vaTopicKeyEpoch a =? a9TopicKeyEpoch snapshot) && beq (vaTopicBinding a) (a9TopicBinding snapshot) &&
  (vaKeysetSequence a =? a9KeysetSequence snapshot) && beq (vaKeysetHash a) (a9KeysetHash snapshot) &&
  negb (after (vaIssuedAt a) now) && after (vaExpiresAt a) (vaIssuedAt a) &&
  (time_sub (vaExpiresAt a) (vaIssuedAt a) <=? 30 * second) && before now (vaExpiresAt a) &&
  (vaExpiresAt a =? gtInstant (a9AssertionExpiresAt snapshot)) &&
  (length (vaSigningKeyID a) =? 32)%nat && (length (vaTupleCommitmentKeyID a) =? 32)%nat &&
  (length (vaRosterCommitmentKeyID a) =? 32)%nat && (length (vaTopicCommitmentKeyID a) =? 32)%nat.

Definition loadA9CurrentAssertionTx (snapshot : A9RouteSnapshot) (now : Z)
  : vault_tx (option VerifiedAssertion) :=
  row ← query (fun db => dbAssertions db !! a9AssertionHash snapshot);
  mret (row ← (row : option VerifiedAssertion);
        if assertion_current row snapshot now then Some row else None).

Definition covers (notBefore notAfter issuedAt expiresAt now : Z) : bool :=
  (notBefore <=? issuedAt) && (notBefore <=? now) && (expiresAt <=? notAfter) && (now <? notAfter).

Definition requireA9CurrentDescriptorsTx (snapshot : A9RouteSnapshot) (now : Z) (mark : WatermarkColumns)
    (a : VerifiedAssertion) : vault_tx bool :=
  query (fun db =>
    let online key issuedAt expiresAt :=
      match dbOnlineKeys db !! (a9KeysetSequence snapshot, 1, key) with
      | Some d => covers (okNotBefore d) (okNotAfter d) issuedAt expiresAt now
      | None => false
      end in
    let commitment purpose key epoch :=
      match dbCommitmentKeys db !! (a9KeysetSequence snapshot, purpose, key) with
      | Some d => bool_decide (ckTopicKeyEpoch d = epoch) &&
                  covers (ckNotBefore d) (ckNotAfter d) (vaIssuedAt a) (vaExpiresAt a) now
      | None => false
      end in
    online (vaSigningKeyID a) (vaIssuedAt a) (vaExpiresAt a) &&
    online (wcSigningKeyID mark) (wcIssuedAt mark) (wcExpiresAt mark) &&
    commitment 1 (vaRosterCommitmentKeyID a) None &&
    commitment 2 (vaTupleCommitmentKeyID a) None &&
    commitment 3 (vaTopicCommitmentKeyID a) (Some (a9TopicKeyEpoch snapshot))).

(** Stops with "not current" at the first check that fails. *)
Definition or_stop {A B : Type} (m : vault_tx (option A)) (k : A -> vault_tx (option B)) : vault_tx (option B) :=
  r ← m; match r with Some a => k a | None => mret None end.

Definition guard_tx {B : Type} (m : vault_tx bool) (k : vault_tx (option B)) : vault_tx (option B) :=
  b ← m; if (b : bool) then k else mret None.

Definition requireA9CurrentRouteTx (s : Store) (att : Attempt) (leaseID : bytes)
    (snapshot : option A9RouteSnapshot) : vault_tx (option a9CurrentRouteState) :=
  match snapshot with
  | None => mret None
  | Some snapshot =>
      if negb (stA9Enabled s) || negb (length leaseID =? 16)%nat ||
         negb (validA9RouteSnapshot snapshot (a9RouteKeyEpoch snapshot) zero_time)
      then mret None else
      or_stop (lockA9CurrentKeysetReceiptTx (atNow att) (a9KeysetSequence snapshot) (a9KeysetHash snapshot))
        (fun '(databaseNow, keysetExpiresAt, keysetFreshUntil) =>
      requireRetentionSafeTx s (atHost att) ;;
      or_stop (lockA9CurrentAuthorityTx snapshot databaseNow) (fun mark =>
      guard_tx (lockA9CurrentBindingTx snapshot) (
      guard_tx (requireNoWinningA9TombstoneTx snapshot) (
      or_stop (lockA9CurrentRouteProjectionTx leaseID snapshot) (fun installationIdentity =>
      or_stop (loadA9CurrentAssertionTx snapshot databaseNow) (fun assertion =>
      guard_tx (requireA9CurrentDescriptorsTx snapshot databaseNow mark assertion) (
      mret (Some {| csDatabaseNow := databaseNow; csKeysetExpiresAt := keysetExpiresAt;
                    csKeysetFreshUntil := keysetFreshUntil; csWatermarkExpiresAt := wcExpiresAt mark;
                    csAssertionExpiresAt := vaExpiresAt assertion;
                    csInstallationIdentity := installationIdentity |}))))))))
  end.

(** ** What a current route means *)

(** The authority and watermark of the installation admit the snapshot. *)
Record authority_admits (row : AuthorityRow) (c : WatermarkColumns) (snapshot : A9RouteSnapshot) (now : Z)
  : Prop := {
  admits_epoch : auEpoch row = a9SequencerEpoch snapshot;
  admits_generation : auGeneration row = a9SubscriptionGeneration snapshot;
  admits_active : auState row = a9AuthorityActive /\ auReason row = 0;
  admits_watermark : auWatermark row = Some c /\ wcStatus c = WatermarkStatusCurrent;
  admits_coverage : a9AssertionStreamSequence snapshot <= wcCommittedThrough c <= auContiguous row;
  admits_sequence : a9WatermarkSequence snapshot <= wcSequence c;
  admits_time : wcIssuedAt c <= now < wcExpiresAt c;
  admits_keyset : wcKeysetSequence c = a9KeysetSequence snapshot /\ wcKeysetHash c = a9KeysetHash snapshot;
}.

Record route_current (db : VaultDB) (now : Z) (lease : bytes) (snapshot : A9RouteSnapshot)
    (state : a9CurrentRouteState) : Prop := {
  current_keyset : exists row, dbKeyset db = Some row /\
    keyset_current row now (a9KeysetSequence snapshot) (a9KeysetHash snapshot) = true /\
    ksExpiresAt row = Some (csKeysetExpiresAt state) /\
    csKeysetFreshUntil state = ksRefreshedAt row + 6 * hour;
  current_authority : exists row c, dbAuthority db !! a9InstallationBindingID snapshot = Some row /\
    authority_admits row c snapshot now /\ csWatermarkExpiresAt state = wcExpiresAt c;
  current_binding : exists row,
    dbBindings db !! (a9InstallationBindingID snapshot, a9BindingID snapshot) = Some row /\
    bdVersion row = a9BindingVersion snapshot /\ bdState row = a9BindingActive;
  current_denials : forall v,
    is_Some (dbTombstones db !! (a9InstallationBindingID snapshot, a9BindingID snapshot, v)) ->
    v < a9BindingVersion snapshot;
  current_route : exists row, dbRoutes db !! lease = Some row /\ roColumns row = snapshot_columns snapshot /\
    csInstallationIdentity state = roIdentity row;
  current_assertion : exists a, dbAssertions db !! a9AssertionHash snapshot = Some a /\
    assertion_current a snapshot now = true /\ csAssertionExpiresAt state = vaExpiresAt a;
  current_now : csDatabaseNow state = now /\ now < csKeysetExpiresAt state /\
    now < csKeysetFreshUntil state /\ now < csWatermarkExpiresAt state /\ now < csAssertionExpiresAt state;
}.

Lemma or_stop_ok {A B : Type} (m : vault_tx (option A)) (k : A -> vault_tx (option B)) st st' b :
  or_stop m k st = Ok (Some b, st') ->
  exists a s1, m st = Ok (Some a, s1) /\ k a s1 = Ok (Some b, st').
Proof.
  intros (r & s1 & Hm & Hx)%tx_bind_ok. destruct r as [a|]; [eauto|]. by apply ret_ok in Hx as [[=] _].
Qed.

Lemma guard_tx_ok {B : Type} (m : vault_tx bool) (k : vault_tx (option B)) st st' b :
  guard_tx m k st = Ok (Some b, st') -> exists s1, m st = Ok (true, s1) /\ k s1 = Ok (Some b, st').
Proof.
  intros (r & s1 & Hm & Hx)%tx_bind_ok. destruct r; [eauto|]. by apply ret_ok in Hx as [[=] _].
Qed.

Lemma keyset_receipt_ok now sequence hash st st' n expiresAt freshUntil :
  lockA9CurrentKeysetReceiptTx now sequence hash st = Ok (Some (n, expiresAt, freshUntil), st') ->
  txDb st' = txDb st /\ n = now /\ exists row, dbKeyset (txDb st) = Some row /\
    keyset_current row now sequence hash = true /\ ksExpiresAt row = Some expiresAt /\
    freshUntil = ksRefreshedAt row + 6 * hour /\ now < expiresAt /\ now < freshUntil.
Proof.
  unfold lockA9CurrentKeysetReceiptTx. destruct (_ || _); [intros [[=] _]%ret_ok|].
  intros (o & s1 & [-> E]%query_ok & [Hr ->]%ret_ok)%tx_bind_ok. split; [done|].
  destruct (dbKeyset (txDb st)) as [row|]; [|done]. cbn in Hr.
  destruct (ksExpiresAt row) as [e|] eqn:Ee; [|done]. cbn in Hr.
  destruct ((ksSequence row <=? 0) || negb (keyset_current row now sequence hash) ||
    after (ksRefreshedAt row) now) eqn:Eb; [done|]. injection Hr as -> -> ->. boolprop.
  split; [done|]. exists row. split; [done|]. split; [done|]. split; [done|]. split; [done|].
  unfold keyset_current in *. rewrite Ee in *. boolprop. unfold before, after in *. boolprop. lia.
Qed.

Lemma authority_current_admits row snapshot now c :
  authority_current row snapshot now = Some c -> authority_admits row c snapshot now.
Proof.
  unfold authority_current. destruct (auWatermark row) as [c'|] eqn:Ew; [|done].
  cbn [mbind option_bind]. destruct (_ || _) eqn:E; [done|]. intros [= ->]. boolprop.
  beqs.
  unfold before, after in *. boolprop. split; try done; lia.
Qed.

Lemma no_winning_tombstone_ok snapshot st st' :
  requireNoWinningA9TombstoneTx snapshot st = Ok (true, st') ->
  txDb st' = txDb st /\ forall v,
    is_Some (dbTombstones (txDb st) !! (a9InstallationBindingID snapshot, a9BindingID snapshot, v)) ->
    v < a9BindingVersion snapshot.
Proof.
  intros [Ha E]%query_ok. split; [done|]. symmetry in Ha. rewrite all_rows_true in Ha.
  intros v [row Hr]. specialize (Ha _ _ Hr). cbn [fst snd] in Ha. rewrite !beq_refl in Ha.
  simpl in Ha. boolprop. lia.
Qed.

Lemma require_retention_ok s host st st' u :
  requireRetentionSafeTx s host st = Ok (u, st') ->
  exists f, txDb st' = f (txDb st) /\ (forall db, f db = db \/ exists c, f db = with_KeyBinding (Some c) db).
Proof.
  unfold requireRetentionSafeTx, requireLookupKeyBoundTx. intros H%collapsed_ok.
  apply tx_bind_ok in H as (? & s6 & H2 & H3).
  apply tx_bind_ok in H2 as (? & s7 & [_ ->]%require_ok & H2).
  destruct (RootCommitment (stLookupRoot s)) as [commitment|]; [|done].
  apply tx_bind_ok in H2 as (? & s8 & E8%exec_ok & H2).
  apply tx_bind_ok in H2 as (stored & s9 & [-> E9]%query_ok & [_ ->]%require_ok).
  apply tx_bind_ok in H3 as (row & s10 & [-> E10]%query_ok & H3).
  destruct (dbRetention (txDb s9)) as [retention|]; [|done].
  apply require_ok in H3 as [Hs ->]. injection E8 as E8.
  exists (fun db => match dbKeyBinding db with Some _ => db | None => with_KeyBinding (Some commitment) db end).
  split; [congruence|]. intros db. destruct (dbKeyBinding db); eauto.
Qed.

Lemma require_current_ok s att lease snapshot st st' state :
  requireA9CurrentRouteTx s att lease (Some snapshot) st = Ok (Some state, st') ->
  stA9Enabled s = true /\ route_current (txDb st) (atNow att) lease snapshot state.
Proof.
  unfold requireA9CurrentRouteTx. destruct (_ || _ || _) eqn:E0; [intros [[=] _]%ret_ok|]. boolprop.
  intros ([[n expiresAt] freshUntil] & s1 & (E1 & -> & Hks)%keyset_receipt_ok & Hx)%or_stop_ok.
  apply tx_bind_ok in Hx as (u & s2 & (f & E2 & Hf)%require_retention_ok & Hx).
  apply or_stop_ok in Hx as (mark & s3 & H3 & Hx).
  apply tx_bind_ok in H3 as (au & s3' & [-> E3]%query_ok & [Hau ->]%ret_ok).
  destruct (dbAuthority (txDb s2) !! a9InstallationBindingID snapshot) as [row|] eqn:Ea; [|done].
  apply guard_tx_ok in Hx as (s4 & [Hb E4]%query_ok & Hx).
  apply guard_tx_ok in Hx as (s5 & [E5 Ht]%no_winning_tombstone_ok & Hx).
  apply or_stop_ok in Hx as (identity & s6 & Hp & Hx). unfold lockA9CurrentRouteProjectionTx in Hp.
  apply tx_bind_ok in Hp as (route & s6' & [-> E6]%query_ok & Hp).
  destruct (dbRoutes (txDb s5) !! lease) as [route|] eqn:Er; [|by apply ret_ok in Hp as [[=] _]].
  destruct (bool_decide _) eqn:Ec; [|by apply ret_ok in Hp as [[=] _]]. apply bool_decide_eq_true in Ec.
  apply tx_bind_ok in Hp as (? & s6'' & [_ ->]%require_ok & [[= ->] ->]%ret_ok).
  apply or_stop_ok in Hx as (a & s7 & H7 & Hx).
  apply tx_bind_ok in H7 as (arow & s7' & [-> E7]%query_ok & [Has ->]%ret_ok).
  destruct (dbAssertions (txDb s6') !! a9AssertionHash snapshot) as [a'|] eqn:Eas; [|done].
  cbn in Has. destruct (assertion_current a' snapshot (atNow att)) eqn:Eac; [|done]. injection Has as ->.
  apply guard_tx_ok in Hx as (s8 & _ & [[= ->] _]%ret_ok).
  assert (Hsame : forall A (get : VaultDB -> A), (forall c db, get (with_KeyBinding (Some c) db) = get db) ->
    get (txDb s2) = get (txDb st)).
  { intros A get Hg. rewrite E2, E1. destruct (Hf (txDb st)) as [->|[c ->]]; [done|apply Hg]. }
  rewrite E6, E5, E4, E3, (Hsame _ dbAssertions) in Eas by done.
  rewrite E5, E4, E3, (Hsame _ dbRoutes) in Er by done.
  rewrite E4, E3, (Hsame _ dbTombstones) in Ht by done.
  rewrite E3, (Hsame _ dbBindings) in Hb by done. rewrite (Hsame _ dbAuthority) in Ea by done.
  pose proof (authority_current_admits row snapshot (atNow att) mark (eq_sym Hau)) as Hadm.
  destruct Hks as (ks & Hks & Hkc & Hke & Hfresh & Hlt1 & Hlt2).
  split; [done|]. split; cbn.
  - exists ks. done.
  - exists row, mark. done.
  - destruct (dbBindings _ !! _) as [b|]; [|done]. symmetry in Hb. boolprop. exists b. done.
  - exact Ht.
  - exists route. done.
  - exists a'. done.
  - split; [done|]. split; [done|]. split; [done|].
    split; [by destruct (admits_time _ _ _ _ Hadm)|].
    unfold assertion_current, before in Eac. boolprop. done.
Qed.
