(* ===== verification/DeliveryJob.v ===== *)
(** * Delivery jobs

    The data of src/pkg/vault/delivery_jobs.go: serialized jobs and their two validators,
    the A9 columns of a job row against the snapshot in the job, the buckets of the
    observations, and the encrypted payload. [JobJson] is encoding/json on the job type. *)

From S2P Require Import Prelude GoBytes GoTime GoCrypto VaultCrypto Gate8Header Interfaces Sql A9Types A9VaultDb A9Vault A9Current Aggregates.
Local Open Scope Z_scope.
Local Open Scope go_scope.

Definition MaxDeliveryAttempts : Z := 3.
Definition erasureJobPending : Z := 3.
Definition erasureJobClaimed : Z := 4.
Definition maxDeliveryJobLifetime : Z := 15 * minute.
Definition maxErasureRetryExponent : Z := 16.
Definition retentionDeliveryFinalizationBatchSize : nat := 128.

Definition DeliveryFinalTerminalRejected : Z := 1.
Definition DeliveryFinalRetryExhausted : Z := 2.
Definition DeliveryFinalTTLExpired : Z := 3.
Definition DeliveryFinalMaterialInvalid : Z := 5.

Definition topicConversation : Z := 1.
Definition topicWelcome : Z := 2.
Definition pushSuppressed : Z := 1.
Definition pushAlert : Z := 2.
Definition stateActive : Z := 2.
Definition stateSuppressed : Z := 4.
Definition stateBlocked : Z := 7.
Definition ageTeen : Z := 2.

(** A nil slice and an empty one are the same value here; times are instants. *)
Record SerializedDeliveryJob := {
  sjDeviceToken : bytes; sjTopic : bytes; sjProviderTopic : bytes; sjPayload : bytes;
  sjPushType : bytes; sjPriority : Z; sjExpiration : Z; sjTrafficClass : Z; sjPolicyEpoch : Z;
  sjRouteKeyEpoch : Z; sjNoncePrefix : Z; sjDeliverySequence : Z; sjAliasDay : bytes;
  sjRouteAlias : bytes; sjWelcomeAuthorizationID : bytes; sjWelcomeEnvelopeDigest : bytes;
  sjA9 : option A9RouteSnapshot; sjEraseOnly : bool;
}.

Definition with_expiration (t : Z) (job : SerializedDeliveryJob) : SerializedDeliveryJob := {|
  sjDeviceToken := sjDeviceToken job; sjTopic := sjTopic job; sjProviderTopic := sjProviderTopic job;
  sjPayload := sjPayload job; sjPushType := sjPushType job; sjPriority := sjPriority job;
  sjExpiration := t; sjTrafficClass := sjTrafficClass job; sjPolicyEpoch := sjPolicyEpoch job;
  sjRouteKeyEpoch := sjRouteKeyEpoch job; sjNoncePrefix := sjNoncePrefix job;
  sjDeliverySequence := sjDeliverySequence job; sjAliasDay := sjAliasDay job;
  sjRouteAlias := sjRouteAlias job; sjWelcomeAuthorizationID := sjWelcomeAuthorizationID job;
  sjWelcomeEnvelopeDigest := sjWelcomeEnvelopeDigest job; sjA9 := sjA9 job; sjEraseOnly := sjEraseOnly job |}.

(** The marker that replaces a job whose token the provider refused. *)
Definition erasure_marker (deviceToken : bytes) (expiration trafficClass : Z) : SerializedDeliveryJob := {|
  sjDeviceToken := deviceToken; sjTopic := []; sjProviderTopic := []; sjPayload := []; sjPushType := [];
  sjPriority := 0; sjExpiration := expiration; sjTrafficClass := trafficClass; sjPolicyEpoch := 0;
  sjRouteKeyEpoch := 0; sjNoncePrefix := 0; sjDeliverySequence := 0; sjAliasDay := []; sjRouteAlias := [];
  sjWelcomeAuthorizationID := []; sjWelcomeEnvelopeDigest := []; sjA9 := None; sjEraseOnly := true |}.

(** [json.Marshal] and [json.Unmarshal] of a job. *)
Class JobJson := {
  marshal_job : SerializedDeliveryJob -> option bytes;
  unmarshal_job : bytes -> option SerializedDeliveryJob;
}.

Record ClaimedDeliveryJob := {
  cjJobID : bytes; cjLeaseID : bytes; cjInstallationLookup : bytes; cjJob : SerializedDeliveryJob;
  cjAttempts : Z; cjRetryExponent : Z; cjExpiresAt : Z;
}.

(** ** Validation *)

Definition valid_token (text : bytes) : bool :=
  match hex_decode text with Some token => (length token =? 32)%nat | None => false end.

Definition validateSerializedDeliveryJob (job : SerializedDeliveryJob) (now : Z) : bool :=
  bail sjEraseOnly job with false;;
  bail negb (valid_token (sjDeviceToken job)) ||
       (length (sjTopic job) =? 0)%nat || (256 <? length (sjTopic job))%nat ||
       (length (sjPayload job) =? 0)%nat || (4096 <=? length (sjPayload job))%nat ||
       (sjPolicyEpoch job =? 0) || (MaxCanonicalInteger <? sjPolicyEpoch job) ||
       (sjRouteKeyEpoch job =? 0) || (MaxCanonicalInteger <? sjDeliverySequence job) ||
       negb (beq (sjAliasDay job) (UTCDay now)) || negb (length (sjRouteAlias job) =? RouteAliasSize)%nat ||
       is_zero (sjExpiration job) || negb (after (sjExpiration job) now) with false;;
  bail negb (Bool.eqb (length (sjProviderTopic job) =? 0)%nat (bool_decide (sjA9 job = None))) with false;;
  bail match sjA9 job with
       | Some snapshot =>
           negb (length (sjProviderTopic job) =? 33)%nat ||
           negb (sjTrafficClass job =? DeliveryTrafficConversation) ||
           after (sjExpiration job) (gtInstant (a9AssertionExpiresAt snapshot)) ||
           negb (validA9RouteSnapshot snapshot (sjRouteKeyEpoch job) now)
       | None => false
       end with false;;
  if sjTrafficClass job =? DeliveryTrafficConversation then
    negb (negb (beq (sjPushType job) (str "alert")) || negb (sjPriority job =? 10) ||
          negb (length (sjWelcomeAuthorizationID job) =? 0)%nat ||
          negb (length (sjWelcomeEnvelopeDigest job) =? 0)%nat)
  else if sjTrafficClass job =? DeliveryTrafficWelcome then
    negb (negb (beq (sjPushType job) (str "background")) || negb (sjPriority job =? 5) ||
          negb (length (sjWelcomeAuthorizationID job) =? 16)%nat ||
          negb (length (sjWelcomeEnvelopeDigest job) =? 32)%nat)
  else false.

Definition validateErasureMarker (job : SerializedDeliveryJob) : bool :=
  negb (negb (sjEraseOnly job) || negb (valid_token (sjDeviceToken job)) ||
        negb (beq (sjTopic job) []) || negb (length (sjPayload job) =? 0)%nat ||
        negb (beq (sjPushType job) []) || negb (sjPriority job =? 0) ||
        negb (sjPolicyEpoch job =? 0) || negb (sjRouteKeyEpoch job =? 0) ||
        negb (sjNoncePrefix job =? 0) || negb (sjDeliverySequence job =? 0) ||
        negb (beq (sjAliasDay job) []) || negb (length (sjRouteAlias job) =? 0)%nat ||
        negb (length (sjProviderTopic job) =? 0)%nat || negb (bool_decide (sjA9 job = None)) ||
        negb (length (sjWelcomeAuthorizationID job) =? 0)%nat ||
        negb (length (sjWelcomeEnvelopeDigest job) =? 0)%nat ||
        (negb (sjTrafficClass job =? DeliveryTrafficConversation) &&
         negb (sjTrafficClass job =? DeliveryTrafficWelcome)) ||
        is_zero (sjExpiration job)).

(** ** The A9 columns of a row

    They are all null or all set. *)

Definition snapshot_row_empty (row : option RouteColumns) : bool := bool_decide (row = None).

Definition in_columns (low value high : Z) : bool := (low <? value) && (value <=? high).
Definition max_u32 : Z := 2 ^ 32 - 1.

Definition columns_complete (c : RouteColumns) : bool :=
  (length (roInstallation c) =? 16)%nat && (length (roEpoch c) =? 16)%nat &&
  in_columns 0 (roGeneration c) a9MaxSafeInteger && (length (roBinding c) =? 16)%nat &&
  in_columns 0 (roVersion c) a9MaxSafeInteger && (length (acAssertionHash (roActive c)) =? 32)%nat &&
  in_columns 0 (acStreamSequence (roActive c)) a9MaxSafeInteger &&
  in_columns 0 (acTopicKeyEpoch (roActive c)) max_u32 &&
  (length (acTopicBinding (roActive c)) =? 32)%nat && in_columns 0 (roRouteKeyEpoch c) max_u32 &&
  in_columns 0 (acKeysetSequence (roActive c)) a9MaxSafeInteger &&
  (length (acKeysetHash (roActive c)) =? 32)%nat && in_columns 0 (roWatermarkSequence c) a9MaxSafeInteger.

Definition snapshot_row_complete (row : option RouteColumns) : bool :=
  match row with Some c => columns_complete c | None => false end.

Definition snapshot_row_matches (row : option RouteColumns) (snapshot : option A9RouteSnapshot) : bool :=
  match row, snapshot with
  | Some c, Some snapshot => columns_complete c && bool_decide (c = snapshot_columns snapshot)
  | _, _ => false
  end.

(** ** Observations *)

Definition deliveryAttemptBucket (attempt : Z) : Z :=
  if attempt =? 1 then DeliveryBucketLow else if attempt =? 2 then DeliveryBucketModerate
  else DeliveryBucketHigh.

Definition deliveryQueueUtilizationBucket (queued capacity : Z) : Z :=
  if (queued <=? 0) || (capacity <=? 0) then DeliveryBucketMinimal
  else if capacity <=? queued then DeliveryBucketCritical
  else if queued * 4 <? capacity then DeliveryBucketMinimal
  else if queued * 2 <? capacity then DeliveryBucketLow
  else if queued * 4 <? capacity * 3 then DeliveryBucketModerate
  else if queued * 10 <? capacity * 9 then DeliveryBucketHigh
  else DeliveryBucketCritical.

Definition deliveryRemainingLifetimeBucket (now expiration : Z) : Z :=
  let remaining := time_sub expiration now in
  if remaining <=? 0 then DeliveryBucketMinimal else if remaining <=? 30 * second then DeliveryBucketLow
  else if remaining <=? minute then DeliveryBucketModerate
  else if remaining <=? 5 * minute then DeliveryBucketHigh else DeliveryBucketCritical.

Definition validDeliveryFinalReason (reason : Z) : bool :=
  (DeliveryFinalTerminalRejected <=? reason) && (reason <=? DeliveryFinalMaterialInvalid).

Definition deliveryFinalOutcome (reason : Z) : option Z :=
  if reason =? DeliveryFinalTerminalRejected then Some DeliveryOutcomeTerminalRejected
  else if reason =? DeliveryFinalRetryExhausted then Some DeliveryOutcomeRetryExhausted
  else if reason =? DeliveryFinalTTLExpired then Some DeliveryOutcomeTTLExpired
  else if reason =? DeliveryFinalSafetyInvalidated then Some DeliveryOutcomeSafetyInvalidated
  else if reason =? DeliveryFinalMaterialInvalid then Some DeliveryOutcomeMaterialInvalid
  else None.

(** ** The encrypted payload *)

Definition deliveryJobContext (jobID : bytes) : bytes :=
  vaultContext (str "delivery-job") jobID (str "apns-request").

Section Payload.
Context `{AesGcm, JobJson}.

(** Opens and decodes; which of the two fails is told apart. *)
Inductive payload := Unreadable | Undecodable | Decoded (job : SerializedDeliveryJob).

Definition read_payload (s : Store) (jobID encrypted : bytes) : payload :=
  match Open (stEncryption s) (deliveryJobContext jobID) encrypted with
  | Err _ => Unreadable
  | Ok plaintext => match unmarshal_job plaintext with Some job => Decoded job | None => Undecodable end
  end.

End Payload.

Definition source_event_input (leaseID : bytes) (trafficClass : Z) (sourceEventID : bytes) : bytes :=
  leaseID ++ [z2b trafficClass] ++ len_field sourceEventID.

Definition deliverySourceEventLookup (s : Store) (leaseID : bytes) (trafficClass : Z) (sourceEventID : bytes)
  : option bytes :=
  if negb (length leaseID =? 16)%nat || (length sourceEventID =? 0)%nat then None
  else match Digest (stLookupRoot s) (str "delivery-source-event") 0
               (source_event_input leaseID trafficClass sourceEventID) with
       | Ok lookup => Some lookup
       | Err _ => None
       end.
