(* ===== verification/DeliveryQueue.v ===== *)
(** * The delivery queue

    src/pkg/vault/delivery_jobs.go, from enqueueing to the recorded attempt: every
    transaction as a body over the vault's tables, every operation as the sequence of
    transactions it runs. The invalid-token erasures are in [DeliveryErase].

    A [Round] is what the outside world contributes to one transaction: what other
    transactions committed before it, its clocks and failures, and its random bytes.
    Timestamps reach the tables through [pg_timestamp]. The queries that lock rows keep
    other transactions from changing them, so a body runs against one database state. *)

From S2P Require Import Prelude GoBytes GoTime GoCrypto A9Trust VaultCrypto Gate8Header Interfaces Sql A9Types A9VaultDb A9Vault A9Current Aggregates DeliveryJob.
From stdpp Require Import sorting.
Local Open Scope Z_scope.
Local Open Scope go_scope.

(** The trust manager as the vault sees it ([A9Trust] of a9_trust.go): the lease for one
    accepted keyset at one instant, the topic binding recomputed under it, and the bindings a
    topic may have at an instant, each with its key epoch. *)
Class A9TrustSurface := {
  TopicLease : Type;
  AcquireTopicBindingLease : Z -> Z -> bytes -> option TopicLease;
  AcquireCurrentTopicBindingLease : Z -> option (TopicLease * Z * bytes);
  CandidateTopicBindings : TopicLease -> bytes -> Z -> list (Z * bytes) * Verdict;
  TopicBindingForEpoch : TopicLease -> bytes -> Z -> Z -> Z -> bool -> bytes * Verdict;
}.

Definition EqualBinding (left right : bytes) : bool := beq left right.

Record Round := {
  rdOthers : VaultDB -> VaultDB;
  rdAttempt : Attempt;
  rdLaterHost : Z;                    (** the host clock, read again at the end *)
  rdLaterNow : Z;                     (** the database clock, read again at the end *)
  rdJobClock : bytes -> Z;            (** the host clock when a job is marked or finalized *)
  rdJobDraw : bytes -> option bytes;  (** the draw of the aggregate of a finalized job *)
  rdSeal : SealEntropy;
  rdJobID : option bytes;             (** the random bytes of a new job's identifier *)
  rdCancelled : bool;                 (** the context ended while waiting for this round *)
}.

(** ** Operations as sequences of transactions *)

Definition op (A : Type) : Type := nat * VaultDB -> (nat * VaultDB) * result error A.

#[export] Instance op_ret : MRet op := fun _ a st => (st, Ok a).
#[export] Instance op_bind : MBind op := fun _ _ k m st =>
  match m st with (st', Ok a) => k a st' | (st', Err e) => (st', Err e) end.

Definition op_fail {A : Type} (e : error) : op A := fun st => (st, Err e).

(** Replaces the error of a call. *)
Definition op_mapped {A : Type} (f : error -> error) (m : op A) : op A := fun st =>
  match m st with (st', Err e) => (st', Err (f e)) | r => r end.

(** Ignores the outcome of a call. *)
Definition op_attempt {A : Type} (m : op A) : op () := fun st => (fst (m st), Ok tt).

Definition to_unavailable (e : error) : error := ErrDeliveryQueueUnavailable.

Definition deliveryQueueDatabaseError (e : error) : error :=
  if isSerializationFailure e then e else ErrDeliveryQueueUnavailable.

Definition unavailable {A : Type} (m : vault_tx A) : vault_tx A := mapped to_unavailable m.
Definition database {A : Type} (m : vault_tx A) : vault_tx A := mapped deliveryQueueDatabaseError m.

Section Rounds.
Variable rounds : nat -> Round.

Definition transact_when {A : Type} (commits : A -> bool) (fail : error -> error) (body : Round -> vault_tx A)
  : op A := fun '(i, db) =>
  let round := rounds i in
  let '(db', r) := run_tx_when commits fail (body round) (rdAttempt round) (rdOthers round db) in
  ((S i, db'), r).

Definition transact {A : Type} : (error -> error) -> (Round -> vault_tx A) -> op A :=
  transact_when (fun _ => true).

(** What the next round supplies, as [s.now()] read before its transaction. *)
Definition peek {A : Type} (f : Round -> A) : op A := fun '(i, db) => ((i, db), Ok (f (rounds i))).

Definition host_clock : op Z := peek (fun round => atHost (rdAttempt round)).

End Rounds.

(** ** Statements on the job table *)

Definition find_job (jobID : bytes) (db : VaultDB) : option JobRow := dbJobs db !! jobID.

(** [UPDATE ... WHERE job_id = ...], and whether a row was hit. *)
Definition update_job (jobID : bytes) (where_ : JobRow -> bool) (set_ : JobRow -> JobRow) (db : VaultDB)
  : VaultDB * bool :=
  match dbJobs db !! jobID with
  | Some j => if where_ j then (with_Jobs (<[jobID := set_ j]> (dbJobs db)) db, true) else (db, false)
  | None => (db, false)
  end.

Definition delete_job (jobID : bytes) (where_ : JobRow -> bool) (db : VaultDB) : VaultDB * bool :=
  match dbJobs db !! jobID with
  | Some j => if where_ j then (with_Jobs (delete jobID (dbJobs db)) db, true) else (db, false)
  | None => (db, false)
  end.

Definition update_jobs (where_ : bytes -> JobRow -> bool) (set_ : JobRow -> JobRow) (db : VaultDB) : VaultDB :=
  with_Jobs (map_imap (fun k j => Some (if where_ k j then set_ j else j)) (dbJobs db)) db.

Definition delete_jobs (where_ : bytes -> JobRow -> bool) (db : VaultDB) : VaultDB :=
  with_Jobs (filter (fun kv => where_ kv.1 kv.2 = false) (dbJobs db)) db.

Definition affecting (f : VaultDB -> VaultDB * bool) : vault_tx bool := update (fun db => Some (f db)).
Definition silently (f : VaultDB -> VaultDB) : vault_tx () := exec (fun db => Some (f db)).

(** The payload-free marker. *)
Definition final_row (class reason availableAt : Z) (j : JobRow) : JobRow := {|
  jbLeaseID := None; jbInstallationLookup := None; jbEncryptedJob := [x00]; jbState := deliveryJobFinal;
  jbAttempts := jbAttempts j; jbRetryExponent := 0; jbAvailableAt := availableAt;
  jbExpiresAt := jbExpiresAt j; jbCreatedAt := jbCreatedAt j; jbTrafficClass := Some class;
  jbFinalReason := Some reason; jbA9 := None |}.

Definition with_state (state availableAt : Z) (j : JobRow) : JobRow := {|
  jbLeaseID := jbLeaseID j; jbInstallationLookup := jbInstallationLookup j;
  jbEncryptedJob := jbEncryptedJob j; jbState := state; jbAttempts := jbAttempts j;
  jbRetryExponent := jbRetryExponent j; jbAvailableAt := availableAt; jbExpiresAt := jbExpiresAt j;
  jbCreatedAt := jbCreatedAt j; jbTrafficClass := jbTrafficClass j; jbFinalReason := jbFinalReason j;
  jbA9 := jbA9 j |}.

Definition with_attempts (attempts : Z) (j : JobRow) : JobRow := {|
  jbLeaseID := jbLeaseID j; jbInstallationLookup := jbInstallationLookup j;
  jbEncryptedJob := jbEncryptedJob j; jbState := jbState j; jbAttempts := attempts;
  jbRetryExponent := jbRetryExponent j; jbAvailableAt := jbAvailableAt j; jbExpiresAt := jbExpiresAt j;
  jbCreatedAt := jbCreatedAt j; jbTrafficClass := jbTrafficClass j; jbFinalReason := jbFinalReason j;
  jbA9 := jbA9 j |}.

Definition with_class (class : Z) (j : JobRow) : JobRow := {|
  jbLeaseID := jbLeaseID j; jbInstallationLookup := jbInstallationLookup j;
  jbEncryptedJob := jbEncryptedJob j; jbState := jbState j; jbAttempts := jbAttempts j;
  jbRetryExponent := jbRetryExponent j; jbAvailableAt := jbAvailableAt j; jbExpiresAt := jbExpiresAt j;
  jbCreatedAt := jbCreatedAt j; jbTrafficClass := Some class; jbFinalReason := jbFinalReason j;
  jbA9 := jbA9 j |}.

(** [SELECT job_id ... ORDER BY key, key' LIMIT n]. *)
Definition sorted_jobs (key : JobRow -> Z * Z) (limit : nat) (rows : list (bytes * JobRow))
  : list (bytes * JobRow) :=
  take limit (merge_sort (fun a b => (key a.2).1 < (key b.2).1 \/
                                     ((key a.2).1 = (key b.2).1 /\ (key a.2).2 <= (key b.2).2)) rows).

Definition jobs_where (p : bytes -> JobRow -> bool) (db : VaultDB) : list (bytes * JobRow) :=
  List.filter (fun kv => p kv.1 kv.2) (map_to_list (dbJobs db)).

Definition is_final (j : JobRow) : bool := jbState j =? deliveryJobFinal.

Definition oldest_markers (db : VaultDB) : list bytes :=
  fst <$> sorted_jobs (fun j => (jbCreatedAt j, 0)) retentionDeliveryFinalizationBatchSize
            (jobs_where (fun _ => is_final) db).

Fixpoint each_tx {A : Type} (m : A -> vault_tx ()) (l : list A) : vault_tx () :=
  match l with [] => mret tt | x :: l => m x ;; each_tx m l end.

Fixpoint each_op {A : Type} (m : A -> op ()) (l : list A) : op () :=
  match l with [] => mret tt | x :: l => m x ;; each_op m l end.

Section Queue.
Context `{HP : Postgres, HG : AesGcm, HJ : JobJson, HT : A9TrustSurface}.

#[local] Abbreviation ts := pg_timestamp.

(** ** Marking jobs final *)

Definition persisted_class (class : option Z) : option Z :=
  match class with
  | Some c => if (c =? DeliveryTrafficConversation) || (c =? DeliveryTrafficWelcome) then Some c else None
  | None => None
  end.

(** The class in the row, else the one in the payload, else unknown. *)
Definition final_class (s : Store) (jobID : bytes) (j : JobRow) : Z :=
  match persisted_class (jbTrafficClass j) with
  | Some class => class
  | None =>
      match read_payload s jobID (jbEncryptedJob j) with
      | Decoded job => default DeliveryTrafficUnknown (persisted_class (Some (sjTrafficClass job)))
      | _ => DeliveryTrafficUnknown
      end
  end.

Definition final_reason (class reason : Z) : Z :=
  if (class =? DeliveryTrafficUnknown) && negb (reason =? DeliveryFinalSafetyInvalidated) &&
     negb (reason =? DeliveryFinalMaterialInvalid)
  then DeliveryFinalMaterialInvalid else reason.

Definition markDeliveryJobFinalTx (s : Store) (host : Z) (jobID : bytes) (reason : Z) : vault_tx bool :=
  ensure ((length jobID =? 16)%nat && validDeliveryFinalReason reason) ErrDeliveryJobInvalid ;;
  row ← unavailable (query (find_job jobID));
  match (row : option JobRow) with
  | None => mret false
  | Some j =>
      if jbState j =? deliveryJobFinal then mret true
      else if negb (job_live j) then mret false
      else
        let class := final_class s jobID j in
        let reason := final_reason class reason in
        affected ← unavailable (affecting (update_job jobID job_live (final_row class reason (ts host))));
        if (affected : bool) then mret true else fail_with ErrDeliveryQueueUnavailable
  end.

Definition safety_row (host : Z) (j : JobRow) : JobRow :=
  final_row (default DeliveryTrafficUnknown (jbTrafficClass j)) DeliveryFinalSafetyInvalidated (ts host) j.

Definition on_lease (leaseID : bytes) (j : JobRow) : bool :=
  bool_decide (jbLeaseID j = Some leaseID) && job_live j.

Definition markDeliveryJobsSafetyForLeaseTx (host : Z) (leaseID : bytes) : vault_tx () :=
  ensure (length leaseID =? 16)%nat ErrDeliveryJobInvalid ;;
  unavailable (silently (update_jobs (fun _ => on_lease leaseID) (safety_row host))).

(** The lease of the job belongs to the installation. *)
Definition on_installation (lookup : bytes) (db : VaultDB) (j : JobRow) : bool :=
  job_live j &&
  match jbLeaseID j with
  | Some leaseID =>
      match dbLeases db !! leaseID with
      | Some lease => beq (lsInstallationLookup lease) lookup
      | None => false
      end
  | None => false
  end.

(** An empty [exceptJobID] is a nil one. *)
Definition markDeliveryJobsSafetyForInstallationTx (host : Z) (lookup exceptJobID : bytes) : vault_tx () :=
  ensure ((length lookup =? 32)%nat && ((length exceptJobID =? 0)%nat || (length exceptJobID =? 16)%nat))
    ErrDeliveryJobInvalid ;;
  unavailable (silently (fun db =>
    update_jobs (fun k j => on_installation lookup db j &&
                            ((length exceptJobID =? 0)%nat || negb (beq k exceptJobID)))
      (safety_row host) db)).

Definition expired_row (now : Z) (j : JobRow) : JobRow :=
  final_row (default DeliveryTrafficUnknown (jbTrafficClass j))
    (match persisted_class (jbTrafficClass j) with
     | Some _ => DeliveryFinalTTLExpired
     | None => DeliveryFinalMaterialInvalid
     end) (ts now) j.

Definition markExpiredDeliveryJobsTx (now : Z) : vault_tx () :=
  ensure (negb (is_zero now)) ErrDeliveryJobInvalid ;;
  unavailable (silently (update_jobs (fun _ j => job_live j && (jbExpiresAt j <=? ts now)) (expired_row now))).

(** ** Finalization *)

Definition final_observation (host class reason attempts expiresAt : Z) : option DeliveryObservation :=
  outcome ← deliveryFinalOutcome (Z.land reason 255);
  if (class <? DeliveryTrafficUnknown) || (DeliveryTrafficWelcome <? class) ||
     ((class =? DeliveryTrafficUnknown) && negb (Z.land reason 255 =? DeliveryFinalSafetyInvalidated) &&
      negb (Z.land reason 255 =? DeliveryFinalMaterialInvalid))
  then None
  else Some {| obEvent := DeliveryObservationTerminal; obOutcome := outcome; obTrafficClass := class;
               obThresholdBucket := deliveryAttemptBucket (if attempts <? 1 then 1 else attempts);
               obLatencyBucket := deliveryRemainingLifetimeBucket host expiresAt |}.

Definition completeDeliveryFinalizationTx (s : Store) (host : Z) (draw : option bytes) (jobID : bytes)
  : vault_tx bool :=
  ensure (length jobID =? 16)%nat ErrDeliveryJobInvalid ;;
  row ← unavailable (query (fun db => j ← find_job jobID db; if is_final j then Some j else None));
  match (row : option JobRow) with
  | None => mret false
  | Some j =>
      match jbTrafficClass j, jbFinalReason j with
      | Some class, Some reason =>
          match final_observation host class reason (jbAttempts j) (jbExpiresAt j) with
          | None => fail_with ErrDeliveryQueueUnavailable
          | Some observation =>
              unavailable (recordDeliveryObservationTx s observation host draw) ;;
              affected ← unavailable (affecting (delete_job jobID
                (fun j => is_final j && bool_decide (jbFinalReason j = Some reason))));
              if (affected : bool) then mret true else fail_with ErrDeliveryQueueUnavailable
          end
      | _, _ => fail_with ErrDeliveryQueueUnavailable
      end
  end.

Definition completeDeliveryMarkersTx (s : Store) (round : Round) : vault_tx () :=
  jobIDs ← unavailable (query oldest_markers);
  each_tx (fun jobID => completeDeliveryFinalizationTx s (rdJobClock round jobID) (rdJobDraw round jobID) jobID ;;
                        mret tt) jobIDs.

(** ** Recovery *)

Definition erasure_live (j : JobRow) : bool :=
  (jbState j =? erasureJobPending) || (jbState j =? erasureJobClaimed).

Definition unsafe_retention (row : RetentionRow) : RetentionRow := {|
  rsLastStartedAt := rsLastStartedAt row; rsLastCompletedAt := rsLastCompletedAt row;
  rsNextDeadlineAt := rsNextDeadlineAt row; rsIsSafe := false; rsFixedOutcome := 1 |}.

Definition overdue_erasure (now : Z) (db : VaultDB) : bool :=
  negb (all_rows (fun _ j => negb (erasure_live j && (jbCreatedAt j + 15 * minute <=? ts now))) (dbJobs db)).

Definition markOverdueErasureUnsafe (s : Store) (now : Z) : vault_tx () :=
  ensure ((stEnvironmentID s =? 1) || (stEnvironmentID s =? 2)) ErrDeliveryQueueUnavailable ;;
  unavailable (silently (fun db =>
    if overdue_erasure now db then with_Retention (unsafe_retention <$> dbRetention db) db else db)).

(** Live jobs that recovery ends: expired, exhausted while claimed, or without a lease. *)
Definition recovery_candidate (now : Z) (db : VaultDB) (j : JobRow) : bool :=
  job_live j &&
  ((jbExpiresAt j <=? ts now) ||
   ((jbState j =? deliveryJobClaimed) && (jbAvailableAt j <=? ts now) && (MaxDeliveryAttempts <=? jbAttempts j)) ||
   match jbLeaseID j with
   | Some leaseID => bool_decide (dbLeases db !! leaseID = None)
   | None => true
   end).

Definition recovery_reason (now : Z) (j : JobRow) : Z :=
  if MaxDeliveryAttempts <=? jbAttempts j then DeliveryFinalRetryExhausted
  else if jbExpiresAt j <=? ts now then DeliveryFinalTTLExpired else DeliveryFinalSafetyInvalidated.

(** A claim that ran out and may be tried again. *)
Definition claim_lapsed (now : Z) (j : JobRow) : bool :=
  (jbState j =? deliveryJobClaimed) && (jbAvailableAt j <=? ts now) && (jbAttempts j <? MaxDeliveryAttempts) &&
  (ts now <? jbExpiresAt j).

Definition recover_tx (s : Store) (round : Round) : vault_tx () :=
  let now := atHost (rdAttempt round) in
  candidates ← unavailable (query (fun db => jobs_where (fun _ => recovery_candidate now db) db));
  each_tx (fun '(jobID, j) => markDeliveryJobFinalTx s (rdJobClock round jobID) jobID (recovery_reason now j) ;;
                              mret tt) candidates ;;
  unavailable (silently (update_jobs (fun _ => claim_lapsed now) (with_state deliveryJobPending (ts now)))) ;;
  markOverdueErasureUnsafe s now.

Section Operations.
Variable rounds : nat -> Round.
Variable fuel : nat.

Definition completeDeliveryFinalization (s : Store) (jobID : bytes) : op () :=
  transact_when rounds (fun completed : bool => completed) to_unavailable (fun round =>
    completeDeliveryFinalizationTx s (rdJobClock round jobID) (rdJobDraw round jobID) jobID) ;;
  mret tt.

(** The loop ends with the first empty batch; [OutOfFuel] stands for a loop that goes on. *)
Fixpoint finalize_markers (n : nat) (s : Store) : op () :=
  match n with
  | O => op_fail OutOfFuel
  | S n =>
      jobIDs ← transact rounds to_unavailable (fun _ => unavailable (query oldest_markers));
      match (jobIDs : list bytes) with
      | [] => mret tt
      | _ => each_op (completeDeliveryFinalization s) jobIDs ;; finalize_markers n s
      end
  end.

Definition finalizeDeliveryMarkers : Store -> op () := finalize_markers fuel.

Definition FinalizeDeliveryJob (s : Store) (jobID : bytes) (reason : Z) : op () :=
  if negb ((length jobID =? 16)%nat && validDeliveryFinalReason reason) then op_fail ErrDeliveryJobInvalid
  else
    marked ← transact rounds to_unavailable (fun round =>
      markDeliveryJobFinalTx s (rdJobClock round jobID) jobID reason);
    if (marked : bool) then completeDeliveryFinalization s jobID else mret tt.

Definition RecoverDeliveryJobs (s : Store) : op () :=
  transact rounds to_unavailable (recover_tx s) ;; finalizeDeliveryMarkers s.

Definition RequireRetentionSafe (s : Store) : op () :=
  transact rounds (fun _ => ErrRetentionUnavailable) (fun round =>
    requireRetentionSafeTx s (atHost (rdAttempt round))).

Definition RecordObservation (s : Store) (o : DeliveryObservation) (jobID : bytes) : op () :=
  fun '(i, db) =>
    let round := rounds i in
    let '(db', r) := RecordDeliveryObservation s o (rdJobDraw round jobID) (rdAttempt round) (rdOthers round db) in
    ((S i, db'), r).

End Operations.
End Queue.
