(* ===== verification/DeliveryOps.v ===== *)
(** * Operations of the delivery queue

    src/pkg/vault/delivery_jobs.go: enqueueing, claiming, the delivery attempt from its last
    authority check to its recorded outcome, rescheduling, release, and the operations of
    the invalid-token erasure. *)

From S2P Require Import Prelude GoBytes GoTime GoCrypto A9Trust VaultCrypto Gate8Header Interfaces Sql A9Types A9VaultDb A9Vault A9Current Aggregates DeliveryJob DeliveryQueue.
Local Open Scope Z_scope.
Local Open Scope go_scope.

Definition least4 (a b c d : Z) : Z := Z.min a (Z.min b (Z.min c d)).

Section Ops.
Context `{HP : Postgres, HG : AesGcm, HJ : JobJson, HT : A9TrustSurface}.

#[local] Abbreviation ts := pg_timestamp.

(** ** The authority a delivery rests on *)

(** What the traffic class expects of the lease: topic kind, push mode, state. *)
Definition class_expectation (class : Z) : option (Z * Z * Z) :=
  if class =? DeliveryTrafficConversation then Some (topicConversation, pushAlert, stateActive)
  else if class =? DeliveryTrafficWelcome then Some (topicWelcome, pushSuppressed, stateSuppressed)
  else None.

Definition lease_authority (leaseID : bytes) (expectation : Z * Z * Z) (db : VaultDB)
  : option (LeaseRow * InstallationRow) :=
  let '(kind, mode, state) := expectation in
  lease ← dbLeases db !! leaseID;
  installation ← dbInstallations db !! lsInstallationLookup lease;
  if (inState installation =? stateActive) && bool_decide (is_Some (inEncryptedToken installation)) &&
     (inPolicyEpoch installation =? lsPolicyEpoch lease) && (lsTopicKind lease =? kind) &&
     (lsPushMode lease =? mode) && (lsState lease =? state)
  then Some (lease, installation) else None.

Definition authority_expiry (lease : LeaseRow) (installation : InstallationRow) : Z :=
  least4 (lsExpiresAt lease) (lsControlExpiresAt lease) (inExpiresAt installation) (inControlExpiresAt installation).

Definition deliveryAuthorityMatches (s : Store) (job : SerializedDeliveryJob) (leaseID : bytes)
    (lease : LeaseRow) (installation : InstallationRow) : result error bool :=
  if (lsPolicyEpoch lease <=? 0) || negb (lsPolicyEpoch lease =? sjPolicyEpoch job) ||
     (lsRouteKeyEpoch lease <=? 0) || negb (lsRouteKeyEpoch lease =? sjRouteKeyEpoch job) then Ok false else
  match Open (stEncryption s) (installationContext (lsInstallationLookup lease) (str "apns-token"))
          (default [] (inEncryptedToken installation)) with
  | Err _ => Err ErrDeliveryQueueUnavailable
  | Ok currentToken =>
      match hex_decode (sjDeviceToken job) with
      | None => Err ErrDeliveryJobInvalid
      | Some jobToken =>
          if negb (beq currentToken jobToken) then Ok false else
          match Open (stEncryption s) (leaseContext leaseID (str "nonce-state")) (lsEncryptedNonceState lease) with
          | Err _ => Err ErrDeliveryQueueUnavailable
          | Ok nonceBytes =>
              match decodeNonceState nonceBytes with
              | None => Ok false
              | Some nonce =>
                  Ok ((nsPrefix nonce =? sjNoncePrefix job) && (sjDeliverySequence job <? nsNextSequence nonce))
              end
          end
      end
  end.

Definition from_result {A : Type} (r : result error A) : vault_tx A :=
  match r with Ok a => mret a | Err e => fail_with e end.

(** The topic of the lease is the one in the job. *)
Definition current_topic (s : Store) (leaseID : bytes) (lease : LeaseRow) (job : SerializedDeliveryJob)
  : vault_tx bool :=
  match Open (stEncryption s) (leaseContext leaseID (str "topic")) (lsEncryptedTopic lease) with
  | Err _ => fail_with ErrDeliveryQueueUnavailable
  | Ok topic => mret (beq topic (sjProviderTopic job))
  end.

(** The binding recomputed under the trust lease is the one of the snapshot. *)
Definition topic_rebinding (lease : TopicLease) (job : SerializedDeliveryJob) (snapshot : A9RouteSnapshot)
    (now : Z) : bool * Verdict :=
  let '(recomputed, verdict) := TopicBindingForEpoch lease (sjProviderTopic job) (a9TopicKeyEpoch snapshot) now
    (gtInstant (a9AssertionExpiresAt snapshot)) true in
  (IsEligible verdict && EqualBinding recomputed (a9TopicBinding snapshot), verdict).

(** ** Enqueueing *)

Definition drop_expired_dedupes (now : Z) (db : VaultDB) : VaultDB :=
  with_Dedupes (filter (fun kv => (ddExpiresAt kv.2 <=? ts now) = false) (dbDedupes db)) db.

(** [INSERT ... ON CONFLICT DO NOTHING], and whether a row was inserted. *)
Definition insert_dedupe (key : bytes * bytes * Z) (now : Z) (db : VaultDB) : VaultDB * bool :=
  match dbDedupes db !! key with
  | Some _ => (db, false)
  | None => (with_Dedupes (<[key := {| ddCreatedAt := ts now;
                                       ddExpiresAt := ts (now + maxDeliveryJobLifetime) |}]> (dbDedupes db)) db, true)
  end.

Definition pending_row (leaseID encrypted : bytes) (now expiresAt class : Z) (snapshot : option A9RouteSnapshot)
  : JobRow := {|
  jbLeaseID := Some leaseID; jbInstallationLookup := None; jbEncryptedJob := encrypted;
  jbState := deliveryJobPending; jbAttempts := 0; jbRetryExponent := 0; jbAvailableAt := ts now;
  jbExpiresAt := ts expiresAt; jbCreatedAt := ts now; jbTrafficClass := Some class; jbFinalReason := None;
  jbA9 := snapshot_columns <$> snapshot |}.

(** The key, the lifetime check and the route a snapshot refers to. *)
Definition insert_job (jobID : bytes) (row : JobRow) (db : VaultDB) : option VaultDB :=
  match dbJobs db !! jobID with
  | Some _ => None
  | None =>
      if (length jobID =? 16)%nat && (jbExpiresAt row <=? jbCreatedAt row + 15 * minute) &&
         job_supported db row && match jbA9 row with Some c => columns_complete c | None => true end
      then Some (with_Jobs (<[jobID := row]> (dbJobs db)) db) else None
  end.

(** The route is current, the clocks agree, and the topic binding is the snapshot's; without
    A9, retention is safe. *)
Definition enqueue_guard (s : Store) (round : Round) (lease : option TopicLease) (leaseID : bytes)
    (job : SerializedDeliveryJob) (now : Z) : vault_tx (option a9CurrentRouteState) :=
  match lease, sjA9 job with
  | Some lease, Some snapshot =>
      route ← unavailable (requireA9CurrentRouteTx s (rdAttempt round) leaseID (Some snapshot));
      match (route : option a9CurrentRouteState) with
      | None => fail_with ErrDeliveryJobInvalid
      | Some route =>
          ensure (a9TrustClockAligned now (csDatabaseNow route)) ErrDeliveryQueueUnavailable ;;
          ensure (topic_rebinding lease job snapshot now).1 ErrDeliveryJobInvalid ;;
          mret (Some route)
      end
  | _, _ => unavailable (requireRetentionSafeTx s (atHost (rdAttempt round))) ;; mret None
  end.

(** The deadline of the job after the authority's and the route's. *)
Definition enqueue_deadline (expiresAt authority : Z) (route : option a9CurrentRouteState) : Z :=
  let expiresAt := if before authority expiresAt then authority else expiresAt in
  match route with
  | Some route => if before (authorityExpiresAt route) expiresAt then authorityExpiresAt route else expiresAt
  | None => expiresAt
  end.

Definition expiry_reference (now : Z) (route : option a9CurrentRouteState) : Z :=
  match route with
  | Some route => if after (csDatabaseNow route) now then csDatabaseNow route else now
  | None => now
  end.

(** The lease still belongs to the route's installation and carries the job's topic. *)
Definition same_route (s : Store) (leaseID : bytes) (lease : LeaseRow) (job : SerializedDeliveryJob)
    (route : option a9CurrentRouteState) : vault_tx bool :=
  match route with
  | None => mret true
  | Some route =>
      if negb (beq (lsInstallationIdentity lease) (csInstallationIdentity route)) then mret false
      else current_topic s leaseID lease job
  end.

(** The route is still current at the end, before both deadlines. *)
Definition still_current (round : Round) (job : SerializedDeliveryJob) (now expiresAt authority : Z)
    (route : option a9CurrentRouteState) : vault_tx bool :=
  match route with
  | None => mret true
  | Some route =>
      finalNow ← unavailable (query (fun _ => rdLaterNow round));
      mret match a9RouteStillCurrentAt now (rdLaterHost round) finalNow route (sjA9 job) with
           | Some reference => before reference expiresAt && before reference authority
           | None => false
           end
  end.

(** Seals the job, counts the queue and inserts the row; the bucket of the new count. The
    second statement takes the advisory lock of the queue. *)
Definition store_job (s : Store) (round : Round) (leaseID jobID : bytes) (job : SerializedDeliveryJob)
    (maxQueued now authority : Z) (route : option a9CurrentRouteState) : vault_tx Z :=
  match marshal_job job with
  | None => fail_with ErrDeliveryJobInvalid
  | Some plaintext =>
      match Seal (stEncryption s) (rdSeal round) (deliveryJobContext jobID) plaintext with
      | Err _ => fail_with ErrDeliveryQueueUnavailable
      | Ok encrypted =>
          queued ← database (query (fun db => Z.of_nat (size (dbJobs db))));
          ensure (queued <? maxQueued) ErrDeliveryQueueFull ;;
          current ← still_current round job now (sjExpiration job) authority route;
          ensure current ErrDeliveryQueueUnavailable ;;
          database (exec (insert_job jobID (pending_row leaseID encrypted now (sjExpiration job)
            (sjTrafficClass job) (sjA9 job)))) ;;
          mret (deliveryQueueUtilizationBucket (queued + 1) maxQueued)
      end
  end.

(** [None]: the source event was already enqueued for the lease. A welcome job gets no
    further than [stWelcomeEnabled]. *)
Definition enqueue_tx (s : Store) (round : Round) (trust : option TopicLease) (leaseID jobID : bytes)
    (job : SerializedDeliveryJob) (sourceEventID : bytes) (maxQueued now : Z) : vault_tx (option Z) :=
  let class := sjTrafficClass job in
  route ← enqueue_guard s round trust leaseID job now;
  database (query (fun _ => tt)) ;;
  match class_expectation class with
  | None => fail_with ErrDeliveryJobInvalid
  | Some expectation =>
      ensure (negb ((class =? DeliveryTrafficWelcome) && negb (stWelcomeEnabled s))) ErrDeliveryQueueUnavailable ;;
      found ← database (query (lease_authority leaseID expectation));
      match (found : option (LeaseRow * InstallationRow)) with
      | None => fail_with ErrDeliveryJobInvalid
      | Some (lease, installation) =>
          matches ← from_result (deliveryAuthorityMatches s job leaseID lease installation);
          ensure matches ErrDeliveryJobInvalid ;;
          same ← same_route s leaseID lease job route;
          ensure same ErrDeliveryJobInvalid ;;
          let authority := authority_expiry lease installation in
          let job := with_expiration (enqueue_deadline (sjExpiration job) authority route) job in
          ensure (after (sjExpiration job) (expiry_reference now route)) ErrDeliveryJobInvalid ;;
          match deliverySourceEventLookup s leaseID class sourceEventID with
          | None => fail_with ErrDeliveryQueueUnavailable
          | Some lookup =>
              database (silently (drop_expired_dedupes now)) ;;
              inserted ← database (affecting (insert_dedupe (leaseID, lookup, class) now));
              if negb inserted then mret None else
              bucket ← store_job s round leaseID jobID job maxQueued now authority route;
              mret (Some bucket)
          end
      end
  end.

Definition queue_observation (outcome class threshold : Z) : DeliveryObservation := {|
  obEvent := DeliveryObservationQueue; obOutcome := outcome; obTrafficClass := class;
  obThresholdBucket := threshold; obLatencyBucket := DeliveryBucketMinimal |}.

(** The deadline is at most 15 minutes away. *)
Definition capped_job (now : Z) (job : SerializedDeliveryJob) : SerializedDeliveryJob :=
  if after (sjExpiration job) (now + maxDeliveryJobLifetime)
  then with_expiration (now + maxDeliveryJobLifetime) job else job.

(** The trust lease an A9 job needs; the inner [None] is a store without A9. *)
Definition trust_lease (s : Store) (job : SerializedDeliveryJob) (now : Z) : option (option TopicLease) :=
  match sjA9 job with
  | Some snapshot =>
      lease ← AcquireTopicBindingLease now (a9KeysetSequence snapshot) (a9KeysetHash snapshot);
      Some (Some lease)
  | None => Some None
  end.

(** ** Claiming *)

Definition claimable (now : Z) (db : VaultDB) (j : JobRow) : bool :=
  (jbState j =? deliveryJobPending) && (jbAvailableAt j <=? ts now) && (ts now <? jbExpiresAt j) &&
  (jbAttempts j <? MaxDeliveryAttempts) &&
  match (leaseID ← jbLeaseID j; dbLeases db !! leaseID) with
  | None => false
  | Some lease =>
      ((lsState lease =? stateActive) ||
       ((lsState lease =? stateSuppressed) && (lsTopicKind lease =? topicWelcome) &&
        (lsPushMode lease =? pushSuppressed))) &&
      match dbInstallations db !! lsInstallationLookup lease with
      | Some installation => inState installation =? stateActive
      | None => false
      end
  end.

(** The payload is the one the row was made for. *)
Definition payload_matches (j : JobRow) (job : SerializedDeliveryJob) (now : Z) : bool :=
  validateSerializedDeliveryJob job now && (sjExpiration job =? jbExpiresAt j) &&
  (snapshot_row_empty (jbA9 j) || snapshot_row_complete (jbA9 j)) &&
  ((snapshot_row_empty (jbA9 j) && bool_decide (sjA9 job = None)) || snapshot_row_matches (jbA9 j) (sjA9 job)) &&
  match jbTrafficClass j with Some class => class =? sjTrafficClass job | None => true end.

Definition claim_row (deadline class : Z) (j : JobRow) : JobRow :=
  with_class class (with_state deliveryJobClaimed (Z.min (ts deadline) (jbExpiresAt j)) j).

Definition claimed_job (jobID : bytes) (j : JobRow) (job : SerializedDeliveryJob) : ClaimedDeliveryJob := {|
  cjJobID := jobID; cjLeaseID := default [] (jbLeaseID j); cjInstallationLookup := []; cjJob := job;
  cjAttempts := jbAttempts j + 1; cjRetryExponent := 0; cjExpiresAt := jbExpiresAt j |}.

Definition claim_one (s : Store) (round : Round) (now deadline : Z) (jobID : bytes) (j : JobRow)
  : vault_tx (option ClaimedDeliveryJob) :=
  let finish reason :=
    unavailable (markDeliveryJobFinalTx s (rdJobClock round jobID) jobID reason) ;; mret None in
  match read_payload s jobID (jbEncryptedJob j) with
  | Decoded job =>
      if negb (payload_matches j job now) then finish DeliveryFinalMaterialInvalid
      else if negb (Bool.eqb (stA9Enabled s) (snapshot_row_complete (jbA9 j)))
      then finish DeliveryFinalSafetyInvalidated
      else
        unavailable (affecting (update_job jobID (fun j => jbAttempts j <? MaxDeliveryAttempts)
          (claim_row deadline (sjTrafficClass job)))) ;;
        mret (Some (claimed_job jobID j job))
  | _ => finish DeliveryFinalMaterialInvalid
  end.

Fixpoint claim_each (s : Store) (round : Round) (now deadline : Z) (rows : list (bytes * JobRow))
  : vault_tx (list ClaimedDeliveryJob) :=
  match rows with
  | [] => mret []
  | (jobID, j) :: rows =>
      claimed ← claim_one s round now deadline jobID j;
      rest ← claim_each s round now deadline rows;
      mret (option_list claimed ++ rest)
  end.

Definition claim_tx (s : Store) (round : Round) (limit : nat) (claimTTL : Z) : vault_tx (list ClaimedDeliveryJob) :=
  let now := atHost (rdAttempt round) in
  rows ← unavailable (query (fun db =>
    sorted_jobs (fun j => (jbAvailableAt j, jbCreatedAt j)) limit (jobs_where (fun _ => claimable now db) db)));
  claim_each s round now (now + claimTTL) rows.

End Ops.
