(* ===== verification/DeliveryAttempt.v ===== *)
(** * Delivery attempts

    src/pkg/vault/delivery_jobs.go: the last authority check before egress, the guard that
    records what became of the attempt, and the public operations of the queue as sequences
    of transactions. The guard's transaction stays open while the request is sent; here the
    check and the completion are the two parts of one body, and what the provider answered
    is an argument. *)

From S2P Require Import Prelude GoBytes GoTime GoCrypto A9Trust VaultCrypto Gate8Header Interfaces Sql A9Types A9VaultDb A9Vault A9Current Aggregates DeliveryJob DeliveryQueue DeliveryOps.
Local Open Scope Z_scope.
Local Open Scope go_scope.

Definition DeliveryAttemptSent : Z := 1.
Definition DeliveryAttemptTransient : Z := 2.
Definition DeliveryAttemptInvalidToken : Z := 3.
Definition DeliveryAttemptRejected : Z := 4.

Record DeliveryAttemptResult := { arOutcome : Z; arRetryAt : Z }.

Record deliveryAttemptGuard := {
  gdJobID : bytes; gdJob : SerializedDeliveryJob; gdLeaseID : bytes; gdInstallationLookup : bytes;
  gdPriorAttempts : Z; gdNextAttempts : Z;
}.

(** What is left to do once the transaction of the guard is committed. *)
Inductive followup := NoFollowup | FinalizeJob | FinalizeMarkers.

Section Attempt.
Context `{HP : Postgres, HG : AesGcm, HJ : JobJson, HT : A9TrustSurface}.

#[local] Abbreviation ts := pg_timestamp.

(** ** Acquiring *)

Definition a9DeliveryReferenceTime (now : Z) (route : option a9CurrentRouteState) : Z :=
  match route with
  | Some route => if after (csDatabaseNow route) now then csDatabaseNow route else now
  | None => now
  end.

Definition a9DeliveryStillCurrent (evaluationTime hostNow databaseNow jobExpiresAt gate6ExpiresAt : Z)
    (route : a9CurrentRouteState) (snapshot : option A9RouteSnapshot) : bool :=
  match a9RouteStillCurrentAt evaluationTime hostNow databaseNow route snapshot with
  | Some reference => before reference jobExpiresAt && before reference gate6ExpiresAt
  | None => false
  end.

(** The claimed row the attempt is for. *)
Definition attempt_row (job : ClaimedDeliveryJob) (reference : Z) (db : VaultDB) : option JobRow :=
  j ← find_job (cjJobID job) db;
  if bool_decide (jbLeaseID j = Some (cjLeaseID job)) && (jbState j =? deliveryJobClaimed) &&
     (jbAttempts j =? cjAttempts job - 1) && (reference <? jbExpiresAt j)
  then Some j else None.

Definition unexpired_authority (leaseID : bytes) (expectation : Z * Z * Z) (reference : Z) (db : VaultDB)
  : option (LeaseRow * InstallationRow) :=
  found ← lease_authority leaseID expectation db;
  let '(lease, installation) := (found : LeaseRow * InstallationRow) in
  if (reference <? lsExpiresAt lease) && (reference <? lsControlExpiresAt lease) &&
     (reference <? inExpiresAt installation) && (reference <? inControlExpiresAt installation)
  then Some (lease, installation) else None.

(** The route is current and the topic binding is the snapshot's; without A9, retention is
    safe. The inner [None] is a store without A9. *)
Definition acquire_route (s : Store) (round : Round) (trust : option TopicLease) (job : ClaimedDeliveryJob)
    (now : Z) : vault_tx (option (option a9CurrentRouteState)) :=
  match trust, sjA9 (cjJob job) with
  | Some lease, Some snapshot =>
      or_stop (unavailable (requireA9CurrentRouteTx s (rdAttempt round) (cjLeaseID job) (Some snapshot)))
        (fun route =>
          ensure (a9TrustClockAligned now (csDatabaseNow route)) ErrDeliveryQueueUnavailable ;;
          let '(same, verdict) := topic_rebinding lease (cjJob job) snapshot now in
          if same then mret (Some (Some route))
          else if negb (IsEligible verdict) && String.eqb (Terminal verdict) "INCONCLUSIVE"
          then fail_with ErrDeliveryQueueUnavailable
          else mret None)
  | _, _ => unavailable (requireRetentionSafeTx s (atHost (rdAttempt round))) ;; mret (Some None)
  end.

(** The row of the job and the rows of its authority. An A9 job is read first and compared
    with its snapshot; another one is read in one query with its authority. *)
Definition acquire_rows (job : ClaimedDeliveryJob) (expectation : Z * Z * Z) (now : Z)
    (route : option a9CurrentRouteState) : vault_tx (option (LeaseRow * InstallationRow)) :=
  let reference := ts (a9DeliveryReferenceTime now route) in
  let authority := unexpired_authority (cjLeaseID job) expectation reference in
  match route with
  | Some _ =>
      or_stop (unavailable (query (attempt_row job reference))) (fun j =>
        if negb (jbExpiresAt j =? cjExpiresAt job) || negb (snapshot_row_matches (jbA9 j) (sjA9 (cjJob job)))
        then mret None else unavailable (query authority))
  | None =>
      unavailable (query (fun db =>
        j ← attempt_row job reference db;
        if bool_decide (jbA9 j = None) then authority db else None))
  end.

Definition acquire_current (round : Round) (job : ClaimedDeliveryJob) (now authority : Z)
    (route : option a9CurrentRouteState) : vault_tx bool :=
  match route with
  | None => mret true
  | Some route =>
      finalNow ← unavailable (query (fun _ => rdLaterNow round));
      mret (a9DeliveryStillCurrent now (rdLaterHost round) finalNow (cjExpiresAt job) authority route
              (sjA9 (cjJob job)))
  end.

(** [None]: the attempt is not valid (any more). The first statement bounds the locks. *)
Definition acquire_tx (s : Store) (round : Round) (trust : option TopicLease) (job : ClaimedDeliveryJob)
    (expectation : Z * Z * Z) (now : Z) : vault_tx (option deliveryAttemptGuard) :=
  unavailable (query (fun _ => tt)) ;;
  or_stop (acquire_route s round trust job now) (fun route =>
  or_stop (acquire_rows job expectation now route) (fun '(lease, installation) =>
  if (inAgePolicy installation =? ageTeen) && negb (stTeenConversationEnabled s) then mret None else
  guard_tx (same_route s (cjLeaseID job) lease (cjJob job) route) (
  guard_tx (from_result (deliveryAuthorityMatches s (cjJob job) (cjLeaseID job) lease installation)) (
  guard_tx (acquire_current round job now (authority_expiry lease installation) route) (
  mret (Some {| gdJobID := cjJobID job; gdJob := cjJob job; gdLeaseID := cjLeaseID job;
                gdInstallationLookup := lsInstallationLookup lease;
                gdPriorAttempts := cjAttempts job - 1; gdNextAttempts := cjAttempts job |})))))).

(** The checks on the arguments. *)
Definition attempt_arguments (s : Store) (job : ClaimedDeliveryJob) (now : Z) : bool :=
  (length (cjJobID job) =? 16)%nat && (length (cjLeaseID job) =? 16)%nat && (0 <? cjAttempts job) &&
  (cjAttempts job <=? MaxDeliveryAttempts) && validateSerializedDeliveryJob (cjJob job) now &&
  (cjExpiresAt job =? sjExpiration (cjJob job)) &&
  Bool.eqb (stA9Enabled s) (bool_decide (is_Some (sjA9 (cjJob job)))).

(** ** Recording the outcome *)

(** The row is still the claimed one with the attempts the guard saw. *)
Definition guarded_row (g : deliveryAttemptGuard) (j : JobRow) : bool :=
  (jbState j =? deliveryJobClaimed) && (jbAttempts j =? gdPriorAttempts g).

Definition guard_valid (g : deliveryAttemptGuard) : bool :=
  (length (gdJobID g) =? 16)%nat && (gdNextAttempts g =? gdPriorAttempts g + 1) && (0 <? gdNextAttempts g) &&
  (gdNextAttempts g <=? MaxDeliveryAttempts).

Definition hits_one (f : VaultDB -> VaultDB * bool) : vault_tx () :=
  affected ← unavailable (affecting f);
  ensure affected ErrDeliveryQueueUnavailable.

(** An error of [markFinal] itself becomes the error of the statement. *)
Definition guard_markFinal (round : Round) (g : deliveryAttemptGuard) (reason : Z) : vault_tx () :=
  ensure (validDeliveryFinalReason reason &&
          ((sjTrafficClass (gdJob g) =? DeliveryTrafficConversation) ||
           (sjTrafficClass (gdJob g) =? DeliveryTrafficWelcome))) ErrDeliveryQueueUnavailable ;;
  hits_one (update_job (gdJobID g) (guarded_row g) (fun j =>
    with_attempts (gdNextAttempts g)
      (final_row (sjTrafficClass (gdJob g)) reason (ts (rdJobClock round (gdJobID g))) j))).

Definition block_installation (lookup : bytes) (now : Z) (row : InstallationRow) : InstallationRow := {|
  inIdentity := inIdentity row; inIncarnationLookup := inIncarnationLookup row;
  inLookupKeyEpoch := inLookupKeyEpoch row; inGeneration := inGeneration row;
  inIdempotencyDigest := inIdempotencyDigest row; inControlEventDigest := inControlEventDigest row;
  inEncryptedToken := inEncryptedToken row; inAgePolicy := inAgePolicy row; inPolicyEpoch := inPolicyEpoch row;
  inState := stateBlocked; inKeyVersion := inKeyVersion row; inRefreshedAt := inRefreshedAt row;
  inExpiresAt := inExpiresAt row; inControlExpiresAt := inControlExpiresAt row;
  inRevokedAt := Some (default now (inRevokedAt row)) |}.

Definition block_lease (now : Z) (row : LeaseRow) : LeaseRow := {|
  lsInstallationLookup := lsInstallationLookup row; lsInstallationIdentity := lsInstallationIdentity row;
  lsRouteIdentity := lsRouteIdentity row; lsTopicLookup := lsTopicLookup row;
  lsLookupKeyEpoch := lsLookupKeyEpoch row; lsEncryptedTopic := lsEncryptedTopic row;
  lsEncryptedRouteKey := lsEncryptedRouteKey row; lsEncryptedHMACKeys := lsEncryptedHMACKeys row;
  lsEncryptedCapability := lsEncryptedCapability row; lsTopicKind := lsTopicKind row;
  lsPushMode := lsPushMode row; lsState := stateBlocked; lsGeneration := lsGeneration row;
  lsPolicyEpoch := lsPolicyEpoch row; lsRouteKeyEpoch := lsRouteKeyEpoch row;
  lsEncryptedNonceState := lsEncryptedNonceState row; lsKeyVersion := lsKeyVersion row;
  lsIssuedAt := lsIssuedAt row; lsRefreshedAt := lsRefreshedAt row; lsExpiresAt := lsExpiresAt row;
  lsControlExpiresAt := lsControlExpiresAt row; lsRevokedAt := Some (default now (lsRevokedAt row)) |}.

Definition block_destination (lookup : bytes) (now : Z) (db : VaultDB) : VaultDB :=
  with_Installations (alter (block_installation lookup now) lookup (dbInstallations db)) db.

Definition block_leases (lookup : bytes) (now : Z) (db : VaultDB) : VaultDB :=
  with_Leases ((fun lease => if beq (lsInstallationLookup lease) lookup then block_lease now lease else lease)
                 <$> dbLeases db) db.

(** The minimal marker, with the payload replaced by the token to compare. *)
Definition erasure_row (lookup encrypted : bytes) (availableAt : Z) (j : JobRow) : JobRow := {|
  jbLeaseID := None; jbInstallationLookup := Some lookup; jbEncryptedJob := encrypted;
  jbState := erasureJobPending; jbAttempts := 0; jbRetryExponent := 0; jbAvailableAt := availableAt;
  jbExpiresAt := jbExpiresAt j; jbCreatedAt := jbCreatedAt j; jbTrafficClass := jbTrafficClass j;
  jbFinalReason := jbFinalReason j; jbA9 := None |}.

(** Blocks the destination and ends everything else queued for it. *)
Definition block_and_cancel (lookup jobID : bytes) (host clock : Z) : vault_tx () :=
  unavailable (silently (block_destination lookup (ts host))) ;;
  unavailable (silently (block_leases lookup (ts host))) ;;
  markDeliveryJobsSafetyForInstallationTx clock lookup jobID ;;
  unavailable (silently (delete_jobs (fun k j =>
    bool_decide (jbInstallationLookup j = Some lookup) && negb (beq k jobID)))).

Definition seal_marker (s : Store) (round : Round) (jobID : bytes) (marker : SerializedDeliveryJob)
  : vault_tx bytes :=
  match marshal_job marker with
  | None => fail_with ErrDeliveryQueueUnavailable
  | Some plaintext =>
      match Seal (stEncryption s) (rdSeal round) (deliveryJobContext jobID) plaintext with
      | Err _ => fail_with ErrDeliveryQueueUnavailable
      | Ok encrypted => mret encrypted
      end
  end.

Definition convertInvalidTokenTx (s : Store) (round : Round) (g : deliveryAttemptGuard) (availableAt : Z)
  : vault_tx () :=
  encrypted ← seal_marker s round (gdJobID g)
    (erasure_marker (sjDeviceToken (gdJob g)) (sjExpiration (gdJob g)) (sjTrafficClass (gdJob g)));
  block_and_cancel (gdInstallationLookup g) (gdJobID g) (rdLaterHost round) (rdJobClock round (gdJobID g)) ;;
  hits_one (update_job (gdJobID g) (guarded_row g)
    (erasure_row (gdInstallationLookup g) encrypted (ts availableAt))).

Definition guard_Complete (s : Store) (round : Round) (g : deliveryAttemptGuard) (result : DeliveryAttemptResult)
  : vault_tx followup :=
  ensure (guard_valid g && (length (gdLeaseID g) =? 16)%nat && (length (gdInstallationLookup g) =? 32)%nat)
    ErrDeliveryJobInvalid ;;
  if arOutcome result =? DeliveryAttemptSent then
    hits_one (delete_job (gdJobID g) (guarded_row g)) ;; mret NoFollowup
  else if arOutcome result =? DeliveryAttemptRejected then
    guard_markFinal round g DeliveryFinalTerminalRejected ;; mret FinalizeJob
  else if arOutcome result =? DeliveryAttemptTransient then
    if (MaxDeliveryAttempts <=? gdNextAttempts g) || is_zero (arRetryAt result) ||
       negb (before (arRetryAt result) (sjExpiration (gdJob g)))
    then
      guard_markFinal round g (if MaxDeliveryAttempts <=? gdNextAttempts g then DeliveryFinalRetryExhausted
                               else DeliveryFinalTTLExpired) ;;
      mret FinalizeJob
    else
      hits_one (update_job (gdJobID g) (guarded_row g) (fun j =>
        with_attempts (gdNextAttempts g) (with_state deliveryJobPending (ts (arRetryAt result)) j))) ;;
      mret NoFollowup
  else if arOutcome result =? DeliveryAttemptInvalidToken then
    ensure (negb (is_zero (arRetryAt result))) ErrDeliveryJobInvalid ;;
    convertInvalidTokenTx s round g (arRetryAt result) ;; mret FinalizeMarkers
  else fail_with ErrDeliveryJobInvalid.

Definition guard_RecordAttempt (g : deliveryAttemptGuard) : vault_tx () :=
  ensure (guard_valid g) ErrDeliveryJobInvalid ;;
  hits_one (update_job (gdJobID g) (guarded_row g) (with_attempts (gdNextAttempts g))).

(** How the holder of a guard ends it. *)
Inductive ending := Complete (result : DeliveryAttemptResult) | RecordAttempt | Release.

(** A released guard and an attempt that is not granted are rolled back. *)
Inductive attempt_outcome := NotGranted | Released | Recorded (after : followup).

Definition is_recorded (o : attempt_outcome) : bool := match o with Recorded _ => true | _ => false end.

Definition attempt_tx (s : Store) (round : Round) (trust : option TopicLease) (job : ClaimedDeliveryJob)
    (expectation : Z * Z * Z) (now : Z) (e : ending) : vault_tx attempt_outcome :=
  guard ← acquire_tx s round trust job expectation now;
  match (guard : option deliveryAttemptGuard) with
  | None => mret NotGranted
  | Some g =>
      match e with
      | Complete result => after ← guard_Complete s round g result; mret (Recorded after)
      | RecordAttempt => guard_RecordAttempt g ;; mret (Recorded NoFollowup)
      | Release => mret Released
      end
  end.

(** ** The public operations *)

Section Operations.
Variable rounds : nat -> Round.
Variable fuel : nat.

(** The serializable transaction and the observation of its outcome; a full queue rolls the
    transaction back before it is observed. *)
Definition enqueue_commit (s : Store) (trust : option TopicLease) (leaseID jobID : bytes)
    (job : SerializedDeliveryJob) (sourceEventID : bytes) (maxQueued now : Z) : op (option bytes) := fun st =>
  let observe outcome bucket := op_attempt (RecordObservation rounds s
    (queue_observation outcome (sjTrafficClass job) bucket) jobID) in
  match transact rounds deliveryQueueDatabaseError (fun round =>
          enqueue_tx s round trust leaseID jobID (capped_job now job) sourceEventID maxQueued now) st with
  | (st', Ok None) => (st', Ok None)
  | (st', Ok (Some bucket)) => (fst (observe DeliveryOutcomeQueueAccepted bucket st'), Ok (Some jobID))
  | (st', Err ErrDeliveryQueueFull) =>
      (fst (observe DeliveryOutcomeQueueBackpressure DeliveryBucketCritical st'), Err ErrDeliveryQueueFull)
  | (st', Err e) => (st', Err e)
  end.

Definition enqueueDeliveryJobOnce (s : Store) (leaseID : bytes) (job : SerializedDeliveryJob)
    (sourceEventID : bytes) (maxQueued : Z) : op (option bytes) :=
  if negb (length leaseID =? 16)%nat || (length sourceEventID =? 0)%nat || (512 <? length sourceEventID)%nat ||
     (maxQueued <=? 0) then op_fail ErrDeliveryJobInvalid else
  now ← host_clock rounds;
  if negb (validateSerializedDeliveryJob job now) ||
     negb (Bool.eqb (stA9Enabled s) (bool_decide (is_Some (sjA9 job)))) then op_fail ErrDeliveryJobInvalid else
  op_mapped to_unavailable (RequireRetentionSafe rounds s) ;;
  op_mapped to_unavailable (RecoverDeliveryJobs rounds fuel s) ;;
  match trust_lease s job now with
  | None => op_fail ErrDeliveryQueueUnavailable
  | Some trust =>
      draw ← peek rounds rdJobID;
      match read_full 16 draw with
      | None => op_fail ErrDeliveryQueueUnavailable
      | Some jobID =>
          enqueue_commit s trust leaseID jobID job sourceEventID maxQueued now
      end
  end.

(** At most three tries, only after serialization failures. *)
Fixpoint enqueue_retries (n : nat) (s : Store) (leaseID : bytes) (job : SerializedDeliveryJob)
    (sourceEventID : bytes) (maxQueued : Z) : op (option bytes) := fun st =>
  match n with
  | O => (st, Err ErrDeliveryQueueUnavailable)
  | S n =>
      match enqueueDeliveryJobOnce s leaseID job sourceEventID maxQueued st with
      | (st', Err e) =>
          if negb (isSerializationFailure e) then (st', Err e)
          else if rdCancelled (rounds st'.1) then (st', Err ErrDeliveryQueueUnavailable)
          else enqueue_retries n s leaseID job sourceEventID maxQueued st'
      | r => r
      end
  end.

Definition EnqueueDeliveryJob := enqueue_retries 3.

Definition ClaimDeliveryJobs (s : Store) (limit : Z) (claimTTL : Z) : op (list ClaimedDeliveryJob) :=
  if (limit <=? 0) || (128 <? limit) || (claimTTL <? second) || (minute <? claimTTL)
  then op_fail ErrDeliveryJobInvalid else
  op_mapped to_unavailable (RequireRetentionSafe rounds s) ;;
  op_mapped to_unavailable (RecoverDeliveryJobs rounds fuel s) ;;
  claimed ← transact rounds to_unavailable (fun round => claim_tx s round (Z.to_nat limit) claimTTL);
  op_mapped to_unavailable (finalizeDeliveryMarkers rounds fuel s) ;;
  mret claimed.

(** [AcquireDeliveryAttempt] and how its guard ends; [false] when no guard was granted. *)
Definition DeliveryAttempt (s : Store) (job : ClaimedDeliveryJob) (e : ending) : op bool :=
  now ← host_clock rounds;
  if negb (attempt_arguments s job now) then op_fail ErrDeliveryJobInvalid else
  match class_expectation (sjTrafficClass (cjJob job)) with
  | None => op_fail ErrDeliveryJobInvalid
  | Some expectation =>
      if (sjTrafficClass (cjJob job) =? DeliveryTrafficWelcome) && negb (stWelcomeEnabled s) then mret false else
      match trust_lease s (cjJob job) now with
      | None => op_fail ErrDeliveryQueueUnavailable
      | Some trust =>
          outcome ← transact_when rounds is_recorded to_unavailable (fun round =>
            attempt_tx s round trust job expectation now e);
          match (outcome : attempt_outcome) with
          | NotGranted => mret false
          | Released | Recorded NoFollowup => mret true
          | Recorded FinalizeJob => completeDeliveryFinalization rounds s (cjJobID job) ;; mret true
          | Recorded FinalizeMarkers =>
              op_mapped (fun _ => ErrDeliveryFinalizationPending) (finalizeDeliveryMarkers rounds fuel s) ;;
              mret true
          end
      end
  end.

Definition ValidateDeliveryClaim (s : Store) (job : ClaimedDeliveryJob) : op bool := DeliveryAttempt s job Release.

Definition RescheduleDeliveryJob (s : Store) (jobID : bytes) (attempts availableAt : Z) : op () :=
  if negb (length jobID =? 16)%nat || (attempts <=? 0) then op_fail ErrDeliveryJobInvalid
  else if MaxDeliveryAttempts <=? attempts then
    FinalizeDeliveryJob rounds s jobID DeliveryFinalRetryExhausted
  else
    now ← host_clock rounds;
    updated ← transact rounds to_unavailable (fun _ => unavailable (affecting (update_job jobID
      (fun j => (jbState j =? deliveryJobClaimed) && (jbAttempts j =? attempts) && (ts now <? jbExpiresAt j) &&
                (ts availableAt <? jbExpiresAt j))
      (with_state deliveryJobPending (ts availableAt)))));
    if (updated : bool) then mret tt else FinalizeDeliveryJob rounds s jobID DeliveryFinalTTLExpired.

Definition released_row (now : Z) (j : JobRow) : JobRow :=
  with_state (if jbState j =? deliveryJobClaimed then deliveryJobPending else erasureJobPending)
    (Z.min (jbAvailableAt j) (ts now)) j.

Definition exhausted_claim (jobID : bytes) (db : VaultDB) : bool :=
  match find_job jobID db with
  | Some j => (jbState j =? deliveryJobClaimed) && (MaxDeliveryAttempts <=? jbAttempts j)
  | None => false
  end.

Definition release_tx (s : Store) (round : Round) (jobID : bytes) : vault_tx bool :=
  exhausted ← unavailable (query (exhausted_claim jobID));
  (if (exhausted : bool)
   then markDeliveryJobFinalTx s (rdJobClock round jobID) jobID DeliveryFinalRetryExhausted ;; mret tt
   else mret tt) ;;
  unavailable (affecting (update_job jobID
    (fun j => (jbState j =? deliveryJobClaimed) || (jbState j =? erasureJobClaimed))
    (released_row (rdJobClock round jobID)))) ;;
  mret exhausted.

Definition ReleaseDeliveryJob (s : Store) (jobID : bytes) : op () :=
  if negb (length jobID =? 16)%nat then op_fail ErrDeliveryJobInvalid else
  exhausted ← transact rounds to_unavailable (fun round => release_tx s round jobID);
  if (exhausted : bool) then completeDeliveryFinalization rounds s jobID else mret tt.

End Operations.
End Attempt.
