(* ===== verification/Tombstones.v ===== *)
(** * Deletion tombstones

    src/pkg/vault/tombstones.go: the fence that a deleted installation or route leaves
    behind, the check that a new version is above it, and its reapplication after a restore.
    The deletions of leases and installations are the cascades of migration 00006 with the
    reference from A9 routes to leases of migration 00012, which does not cascade. *)

From S2P Require Import Prelude GoBytes GoTime GoCrypto A9Trust VaultCrypto Gate8Header Interfaces Sql A9Types A9VaultDb A9Vault A9Current Aggregates DeliveryJob DeliveryQueue.
Local Open Scope Z_scope.
Local Open Scope go_scope.

Definition maxInstallationTombstoneFenceEpoch : Z := 2 ^ 53 - 1.
Definition maxDeletionTombstoneKeyVersion : Z := 2 ^ 31 - 1.
Definition maxRouteKeyEpoch : Z := 2 ^ 32 - 1.
Definition deletionTargetInstallation : Z := 1.
Definition deletionTargetRoute : Z := 2.

(** ** Deleting leases and installations *)

Definition gone_lease (p : bytes -> LeaseRow -> bool) (db : VaultDB) (leaseID : bytes) : bool :=
  match dbLeases db !! leaseID with Some lease => p leaseID lease | None => false end.

(** Jobs, dedupes and welcome authorizations follow their lease; a route of a deleted lease
    refuses the deletion. *)
Definition delete_leases (p : bytes -> LeaseRow -> bool) (db : VaultDB) : option VaultDB :=
  if negb (all_rows (fun leaseID _ => negb (gone_lease p db leaseID)) (dbRoutes db)) then None else
  Some (with_Leases (filter (fun kv => p kv.1 kv.2 = false) (dbLeases db))
    (with_Dedupes (filter (fun kv => gone_lease p db kv.1.1.1 = false) (dbDedupes db))
    (with_WelcomeAuthorizations
      (filter (fun kv => gone_lease p db (waLeaseID kv.2) = false) (dbWelcomeAuthorizations db))
    (delete_jobs (fun _ j => match jbLeaseID j with Some leaseID => gone_lease p db leaseID | None => false end) db)))).

Definition gone_installation (p : InstallationRow -> bool) (db : VaultDB) (lookup : bytes) : bool :=
  match dbInstallations db !! lookup with Some row => p row | None => false end.

(** A lease refers to its installation by lookup and by identity. *)
Definition lease_of_gone (p : InstallationRow -> bool) (db : VaultDB) (lease : LeaseRow) : bool :=
  negb (all_rows (fun lookup row => negb (p row && (beq lookup (lsInstallationLookup lease) ||
                                                    beq (inIdentity row) (lsInstallationIdentity lease))))
         (dbInstallations db)).

Definition delete_installations (p : InstallationRow -> bool) (db : VaultDB) : option VaultDB :=
  db' ← delete_leases (fun _ => lease_of_gone p db) db;
  Some (with_Installations (filter (fun kv => p kv.2 = false) (dbInstallations db'))
    (delete_jobs (fun _ j => match jbInstallationLookup j with
                             | Some lookup => gone_installation p db lookup
                             | None => false
                             end) db')).

Definition validDeletionTombstoneFence (targetKind fenceEpoch : Z) : bool :=
  if targetKind =? deletionTargetInstallation then
    (0 <? fenceEpoch) && (fenceEpoch <=? maxInstallationTombstoneFenceEpoch)
  else if targetKind =? deletionTargetRoute then (0 <? fenceEpoch) && (fenceEpoch <=? maxRouteKeyEpoch)
  else false.

Definition valid_environment (s : Store) : bool := (stEnvironmentID s =? 1) || (stEnvironmentID s =? 2).

Definition store_unavailable {A : Type} (m : vault_tx A) : vault_tx A := mapped (fun _ => ErrStoreUnavailable) m.

Section Tombstones.
Context `{HP : Postgres, HG : AesGcm, HJ : JobJson, HT : A9TrustSurface}.

#[local] Abbreviation ts := pg_timestamp.

(** ** The fence *)

Definition new_deletion (keyVersion fenceEpoch now : Z) : DeletionRow := {|
  dtKeyVersion := keyVersion; dtFenceEpoch := fenceEpoch; dtCreatedAt := ts now;
  dtExpiresAt := ts (now + 8 * day) |}.

Definition merge_deletion (excluded tombstone : DeletionRow) : DeletionRow :=
  let newer := dtFenceEpoch tombstone <=? dtFenceEpoch excluded in
  {| dtKeyVersion := if newer then dtKeyVersion excluded else dtKeyVersion tombstone;
     dtFenceEpoch := Z.max (dtFenceEpoch tombstone) (dtFenceEpoch excluded);
     dtCreatedAt := if newer then dtCreatedAt excluded else dtCreatedAt tombstone;
     dtExpiresAt := if newer then dtExpiresAt excluded else dtExpiresAt tombstone |}.

Definition put_deletion (key : Z * bytes) (excluded : DeletionRow) (db : VaultDB) : VaultDB :=
  with_Deletions (<[key := match dbDeletions db !! key with
                           | Some tombstone => merge_deletion excluded tombstone
                           | None => excluded
                           end]> (dbDeletions db)) db.

Definition upsertDeletionTombstone (s : Store) (targetKind : Z) (targetIdentity : bytes)
    (keyVersion fenceEpoch now : Z) : vault_tx () :=
  require (valid_environment s && (length targetIdentity =? 32)%nat && negb (keyVersion =? 0) &&
           (keyVersion <=? maxDeletionTombstoneKeyVersion) && validDeletionTombstoneFence targetKind fenceEpoch) ;;
  store_unavailable (silently (put_deletion (targetKind, targetIdentity) (new_deletion keyVersion fenceEpoch now))).

Definition live_fence (key : Z * bytes) (now : Z) (db : VaultDB) : option Z :=
  row ← dbDeletions db !! key; if ts now <? dtExpiresAt row then Some (dtFenceEpoch row) else None.

Definition requireTombstoneAdvance (s : Store) (targetKind : Z) (targetIdentity : bytes)
    (proposedEpoch now : Z) : vault_tx () :=
  require (valid_environment s && (length targetIdentity =? 32)%nat &&
           validDeletionTombstoneFence targetKind proposedEpoch) ;;
  fence ← store_unavailable (query (live_fence (targetKind, targetIdentity) now));
  match (fence : option Z) with
  | None => mret tt
  | Some fence =>
      require ((0 <? fence) && validDeletionTombstoneFence targetKind fence) ;;
      ensure (negb (proposedEpoch <=? fence)) ErrRefreshConflict
  end.

(** ** Reapplying the fences *)

Definition fenced_lease (now : Z) (db : VaultDB) (lease : LeaseRow) : bool :=
  match live_fence (deletionTargetRoute, lsRouteIdentity lease) now db with
  | Some fence => lsRouteKeyEpoch lease <=? fence
  | None => false
  end.

Definition fenced_installation (now : Z) (db : VaultDB) (row : InstallationRow) : bool :=
  match live_fence (deletionTargetInstallation, inIdentity row) now db with
  | Some fence => inPolicyEpoch row <=? fence
  | None => false
  end.

Definition keys_where {V : Type} (p : V -> bool) (m : gmap bytes V) : list bytes :=
  fst <$> List.filter (fun kv => p kv.2) (map_to_list m).

Definition markTombstonedDeliveryJobsTx (round : Round) (now : Z) : vault_tx () :=
  leaseIDs ← store_unavailable (query (fun db => keys_where (fenced_lease now db) (dbLeases db)));
  each_tx (fun leaseID => store_unavailable (markDeliveryJobsSafetyForLeaseTx (rdJobClock round leaseID) leaseID))
    leaseIDs ;;
  lookups ← store_unavailable (query (fun db => keys_where (fenced_installation now db) (dbInstallations db)));
  each_tx (fun lookup =>
    store_unavailable (markDeliveryJobsSafetyForInstallationTx (rdJobClock round lookup) lookup [])) lookups.

Definition drop_expired_deletions (now : Z) (db : VaultDB) : VaultDB :=
  with_Deletions (filter (fun kv => (dtExpiresAt kv.2 <=? ts now) = false) (dbDeletions db)) db.

Definition reapply_tx (s : Store) (round : Round) : vault_tx () :=
  let now := atHost (rdAttempt round) in
  store_unavailable (requireLookupKeyBoundTx s) ;;
  store_unavailable (silently (drop_expired_deletions now)) ;;
  markTombstonedDeliveryJobsTx round now ;;
  store_unavailable (exec (fun db => delete_leases (fun _ => fenced_lease now db) db)) ;;
  store_unavailable (exec (fun db => delete_installations (fenced_installation now db) db)).

Definition ReapplyDeletionTombstones (rounds : nat -> Round) (fuel : nat) (s : Store) : op () :=
  transact rounds (fun _ => ErrStoreUnavailable) (reapply_tx s) ;;
  op_mapped (fun _ => ErrStoreUnavailable) (finalizeDeliveryMarkers rounds fuel s).

End Tombstones.
