(* ===== verification/RouteKeys.v ===== *)
(** * Lookups, identities and the route key history

    src/pkg/vault/store.go: the keyed lookups under which the vault stores installations,
    topics and route keys, and the append-only history of the keys of a route: which key was
    used at which epoch, kept beyond the deletion of the route so that no key starts a
    second nonce lineage. [lengthDelimited] is in welcome.go. *)

From S2P Require Import Prelude GoBytes GoTime GoCrypto VaultCrypto Gate8Header Interfaces Authority Sql A9Types A9VaultDb A9Vault DeliveryJob DeliveryQueue Tombstones.
From stdpp Require Import sorting.
Local Open Scope Z_scope.
Local Open Scope go_scope.

Definition maxRouteKeyHistoryRows : nat := 64.

(** ** Lookups *)

Definition encodeEnvironment (value : bytes) : option Z :=
  if beq value (str "dev") then Some 1 else if beq value (str "production") then Some 2 else None.

Definition stableLookupEnvironment (value : bytes) : option bytes :=
  if beq value (str "dev") then Some (str "development")
  else if beq value (str "production") then Some (str "production") else None.

(** [NewStore] fails unless the environment has one. *)
Definition stLookupEnvironment (s : Store) : bytes := default [] (stableLookupEnvironment (stEnvironment s)).

Definition lengthDelimited (values : list bytes) : bytes := concat (len_field <$> values).

Definition digest_option (s : Store) (domain : bytes) (epoch : Z) (input : bytes) : option bytes :=
  match Digest (stLookupRoot s) domain epoch input with Ok digest => Some digest | Err _ => None end.

Definition environment_input (s : Store) (value : bytes) : bytes :=
  str "hytch.push.vault.environment.v1" ++ [x00] ++ len_field (stLookupEnvironment s) ++ len_field value.

Definition environmentLookupDigest (s : Store) (domain : bytes) (epoch : Z) (value : bytes) : option bytes :=
  if (stEnvironmentID s =? 0) || (length (stLookupEnvironment s) =? 0)%nat || (length value =? 0)%nat then None
  else digest_option s domain epoch (environment_input s value).

Definition routeHistoryIdentity (s : Store) (installationID rawTopic : bytes) : option bytes :=
  if negb (ValidInstallationID installationID) || (length rawTopic =? 0)%nat then None else
  digest_option s (str "route-history") 0 (lengthDelimited [stLookupEnvironment s; installationID; rawTopic]).

Definition installationDeletionIdentity (s : Store) (installationID : bytes) : option bytes :=
  if negb (ValidInstallationID installationID) then None else
  digest_option s (str "installation-deletion") 0 (lengthDelimited [stLookupEnvironment s; installationID]).

Definition routeKeyCommitment (s : Store) (routeKey : bytes) : option bytes :=
  if negb (length routeKey =? 32)%nat then None else
  environmentLookupDigest s (str "route-key-commitment") 0 routeKey.

(** A value the caller needs, or its own error. *)
Definition known {A : Type} (o : option A) (e : error) : vault_tx A :=
  match o with Some a => mret a | None => fail_with e end.

Section RouteKeys.
Context `{HP : Postgres, HG : AesGcm, HJ : JobJson, HT : A9TrustSurface}.

#[local] Abbreviation ts := pg_timestamp.

(** ** The history of a route *)

Definition of_route (identity : bytes) (k : bytes * Z) : bool := beq k.1 identity.

Definition history_live (identity : bytes) (epoch now : Z) (db : VaultDB) : bool :=
  match dbHistory db !! (identity, epoch) with Some row => ts now <? rhExpiresAt row | None => false end.

Definition touched (now expiresAt : Z) (row : HistoryRow) : HistoryRow := {|
  rhCommitment := rhCommitment row; rhUpdatedAt := ts now; rhExpiresAt := ts expiresAt |}.

Definition extend_history (identity : bytes) (now expiresAt : Z) (db : VaultDB) : VaultDB :=
  with_History (map_imap (fun k row => Some (if of_route identity k then touched now expiresAt row else row))
    (dbHistory db)) db.

Definition retireRouteKeyHistory (s : Store) (identity : bytes) (epoch now : Z) : vault_tx () :=
  require (valid_environment s && (length identity =? 32)%nat && negb (epoch =? 0)) ;;
  live ← store_unavailable (query (history_live identity epoch now));
  require live ;;
  updated ← store_unavailable (affecting (fun db =>
    (extend_history identity now (now + 8 * day) db,
     negb (all_rows (fun k _ => negb (of_route identity k)) (dbHistory db)))));
  require updated.

Definition stale_history (identity commitment : bytes) (now : Z) (k : bytes * Z) (row : HistoryRow) : bool :=
  (rhExpiresAt row <=? ts now) && (of_route identity k || beq (rhCommitment row) commitment).

Definition drop_stale_history (identity commitment : bytes) (now : Z) (db : VaultDB) : VaultDB :=
  with_History (filter (fun kv => stale_history identity commitment now kv.1 kv.2 = false) (dbHistory db)) db.

Definition later_epoch (a b : Z * bytes) : Prop := b.1 <= a.1.

#[export] Instance later_epoch_dec : RelDecision later_epoch.
Proof. intros a b. unfold later_epoch. apply _. Defined.

(** Epochs and commitments of a route, the latest first. *)
Definition route_history (identity : bytes) (db : VaultDB) : list (Z * bytes) :=
  merge_sort later_epoch
    ((fun kv => (kv.1.2, rhCommitment kv.2)) <$>
       List.filter (fun kv => of_route identity kv.1) (map_to_list (dbHistory db))).

Definition valid_history (entry : Z * bytes) : bool :=
  (0 <? entry.1) && (entry.1 <=? maxRouteKeyEpoch) && (length entry.2 =? 32)%nat.

Definition history_admits (history : list (Z * bytes)) (commitment : bytes) (epoch : Z) (allowSameEpoch : bool)
  : bool :=
  match history with
  | [] => true
  | (maxEpoch, maxCommitment) :: _ =>
      if epoch <? maxEpoch then false
      else if epoch =? maxEpoch then allowSameEpoch && beq maxCommitment commitment
      else (length history <? maxRouteKeyHistoryRows)%nat
  end.

(** The commitment is unique in the table. *)
Definition commitment_position (commitment : bytes) (db : VaultDB) : option (bytes * Z) :=
  fst <$> find (fun kv => beq (rhCommitment kv.2) commitment) (map_to_list (dbHistory db)).

(** [INSERT ... ON CONFLICT] on the route and epoch [DO UPDATE] of the times. *)
Definition insert_history (key : bytes * Z) (commitment : bytes) (now expiresAt : Z) (db : VaultDB)
  : option VaultDB :=
  match dbHistory db !! key with
  | Some row => Some (with_History (<[key := touched now expiresAt row]> (dbHistory db)) db)
  | None =>
      if all_rows (fun _ row => negb (beq (rhCommitment row) commitment)) (dbHistory db)
      then Some (with_History (<[key := {| rhCommitment := commitment; rhUpdatedAt := ts now;
                                           rhExpiresAt := ts expiresAt |}]> (dbHistory db)) db)
      else None
  end.

Definition recordRouteKeyHistory (s : Store) (identity commitment : bytes) (epoch : Z) (allowSameEpoch : bool)
    (now expiresAt : Z) : vault_tx () :=
  require ((length identity =? 32)%nat && (length commitment =? 32)%nat && negb (epoch =? 0) &&
           after expiresAt now && negb (after expiresAt (now + 15 * day))) ;;
  store_unavailable (silently (drop_stale_history identity commitment now)) ;;
  history ← store_unavailable (query (route_history identity));
  require (forallb valid_history history) ;;
  ensure (history_admits history commitment epoch allowSameEpoch) ErrRefreshConflict ;;
  holder ← store_unavailable (query (commitment_position commitment));
  ensure (match (holder : option (bytes * Z)) with
          | None => true
          | Some (committedIdentity, committedEpoch) => beq committedIdentity identity && (committedEpoch =? epoch)
          end) ErrRefreshConflict ;;
  store_unavailable (silently (extend_history identity now expiresAt)) ;;
  store_unavailable (exec (insert_history (identity, epoch) commitment now expiresAt)).

End RouteKeys.
