(* ===== verification/DeliveryErase.v ===== *)
(** * Erasure of invalid tokens

    src/pkg/vault/delivery_jobs.go: when the provider reports a token invalid, the job
    becomes an erasure marker; the deletion-only worker claims, retries and finally deletes
    it after [EraseInvalidAPNSToken] has removed the token, the routes and the queued work. *)

From S2P Require Import Prelude GoBytes GoTime GoCrypto A9Trust VaultCrypto Gate8Header Interfaces Sql A9Types A9VaultDb A9Vault A9Current Aggregates DeliveryJob DeliveryQueue DeliveryOps DeliveryAttempt Tombstones RouteKeys.
Local Open Scope Z_scope.
Local Open Scope go_scope.

Section Erase.
Context `{HP : Postgres, HG : AesGcm, HJ : JobJson, HT : A9TrustSurface}.

#[local] Abbreviation ts := pg_timestamp.

Definition with_available (availableAt : Z) (j : JobRow) : JobRow := with_state (jbState j) availableAt j.

Definition erasure_lapsed (now : Z) (j : JobRow) : bool :=
  (jbState j =? erasureJobClaimed) && (jbAvailableAt j <=? ts now).

Definition release_erasures (now : Z) : vault_tx () :=
  unavailable (silently (update_jobs (fun _ => erasure_lapsed now) (with_state erasureJobPending (ts now)))).

Definition recover_erasures_tx (s : Store) (round : Round) : vault_tx () :=
  let now := atHost (rdAttempt round) in
  release_erasures now ;;
  unavailable (silently (update_jobs (fun _ j => jbState j =? erasureJobPending)
    (fun j => with_available (Z.min (jbAvailableAt j) (ts now)) j))) ;;
  markOverdueErasureUnsafe s now.

Definition claimable_erasure (now : Z) (j : JobRow) : bool :=
  (jbState j =? erasureJobPending) && (jbAvailableAt j <=? ts now).

Definition next_exponent (retryExponent : Z) : Z :=
  if maxErasureRetryExponent <? retryExponent + 1 then maxErasureRetryExponent else retryExponent + 1.

Definition claim_erasure (s : Store) (deadline : Z) (jobID : bytes) (j : JobRow) : vault_tx ClaimedDeliveryJob :=
  ensure (length (default [] (jbInstallationLookup j)) =? 32)%nat ErrDeliveryQueueUnavailable ;;
  match read_payload s jobID (jbEncryptedJob j) with
  | Decoded job =>
      ensure (validateErasureMarker job && (sjExpiration job =? jbExpiresAt j)) ErrDeliveryQueueUnavailable ;;
      unavailable (affecting (update_job jobID (fun _ => true) (with_state erasureJobClaimed (ts deadline)))) ;;
      mret {| cjJobID := jobID; cjLeaseID := []; cjInstallationLookup := default [] (jbInstallationLookup j);
              cjJob := job; cjAttempts := jbAttempts j; cjRetryExponent := next_exponent (jbRetryExponent j);
              cjExpiresAt := jbExpiresAt j |}
  | _ => fail_with ErrDeliveryQueueUnavailable
  end.

Fixpoint claim_erasures (s : Store) (deadline : Z) (rows : list (bytes * JobRow))
  : vault_tx (list ClaimedDeliveryJob) :=
  match rows with
  | [] => mret []
  | (jobID, j) :: rows =>
      claimed ← claim_erasure s deadline jobID j;
      rest ← claim_erasures s deadline rows;
      mret (claimed :: rest)
  end.

Definition claim_erasures_tx (s : Store) (round : Round) (limit : nat) (claimTTL : Z)
  : vault_tx (list ClaimedDeliveryJob) :=
  let now := atHost (rdAttempt round) in
  release_erasures now ;;
  markOverdueErasureUnsafe s now ;;
  rows ← unavailable (query (fun db =>
    sorted_jobs (fun j => (jbAvailableAt j, jbCreatedAt j)) limit (jobs_where (fun _ => claimable_erasure now) db)));
  claim_erasures s (now + claimTTL) rows.

(** The claimed job with its lease and installation. *)
Definition claimed_destination (jobID : bytes) (db : VaultDB) : option (JobRow * LeaseRow * InstallationRow) :=
  j ← find_job jobID db;
  leaseID ← jbLeaseID j;
  lease ← dbLeases db !! leaseID;
  installation ← dbInstallations db !! lsInstallationLookup lease;
  if jbState j =? deliveryJobClaimed then Some (j, lease, installation) else None.

Definition current_token (s : Store) (lookup encrypted : bytes) : vault_tx bytes :=
  match Open (stEncryption s) (installationContext lookup (str "apns-token")) encrypted with
  | Err _ => fail_with ErrDeliveryQueueUnavailable
  | Ok token => mret token
  end.

(** [None]: nothing was converted. The flag says that the job was marked final instead. *)
Definition convert_tx (s : Store) (round : Round) (jobID failedDeviceToken failedToken : bytes)
    (trafficClass availableAt : Z) : vault_tx (bool * option bytes) :=
  found ← unavailable (query (claimed_destination jobID));
  match (found : option (JobRow * LeaseRow * InstallationRow)) with
  | None => mret (false, None)
  | Some (j, lease, installation) =>
      let lookup := lsInstallationLookup lease in
      token ← current_token s lookup (default [] (inEncryptedToken installation));
      if negb (beq token failedToken) then
        unavailable (markDeliveryJobFinalTx s (rdJobClock round jobID) jobID DeliveryFinalSafetyInvalidated) ;;
        mret (true, None)
      else
        encrypted ← seal_marker s round jobID (erasure_marker failedDeviceToken (jbExpiresAt j) trafficClass);
        block_and_cancel lookup jobID (atHost (rdAttempt round)) (rdJobClock round jobID) ;;
        unavailable (affecting (update_job jobID (fun _ => true)
          (erasure_row lookup encrypted (ts availableAt)))) ;;
        mret (false, Some lookup)
  end.

(** ** Erasing the token *)

(** Retires the key history of a route and leaves its fence. *)
Definition fence_route (s : Store) (now : Z) (lease : LeaseRow) : vault_tx () :=
  ensure ((0 <? lsRouteKeyEpoch lease) && (lsRouteKeyEpoch lease <=? maxRouteKeyEpoch) &&
          (0 <? lsKeyVersion lease) && (lsKeyVersion lease <=? maxDeletionTombstoneKeyVersion))
    ErrDeliveryQueueUnavailable ;;
  unavailable (retireRouteKeyHistory s (lsRouteIdentity lease) (lsRouteKeyEpoch lease) now) ;;
  unavailable (upsertDeletionTombstone s deletionTargetRoute (lsRouteIdentity lease) (lsKeyVersion lease)
    (lsRouteKeyEpoch lease) now).

Definition erase_installation (now : Z) (row : InstallationRow) : InstallationRow := {|
  inIdentity := inIdentity row; inIncarnationLookup := inIncarnationLookup row;
  inLookupKeyEpoch := inLookupKeyEpoch row; inGeneration := inGeneration row;
  inIdempotencyDigest := inIdempotencyDigest row; inControlEventDigest := inControlEventDigest row;
  inEncryptedToken := None; inAgePolicy := inAgePolicy row; inPolicyEpoch := inPolicyEpoch row;
  inState := stateBlocked; inKeyVersion := inKeyVersion row; inRefreshedAt := inRefreshedAt row;
  inExpiresAt := Z.min (inExpiresAt row) now; inControlExpiresAt := Z.min (inControlExpiresAt row) now;
  inRevokedAt := Some (default now (inRevokedAt row)) |}.

Definition leases_of (lookup : bytes) (db : VaultDB) : list LeaseRow :=
  List.filter (fun lease => beq (lsInstallationLookup lease) lookup) (snd <$> map_to_list (dbLeases db)).

(** [false]: nothing to erase; the transaction is rolled back. *)
Definition erase_tx (s : Store) (round : Round) (lookup failedToken : bytes) : vault_tx bool :=
  let now := atHost (rdAttempt round) in
  unavailable (requireLookupKeyBoundTx s) ;;
  found ← unavailable (query (fun db => dbInstallations db !! lookup));
  match (found : option InstallationRow) with
  | None => mret false
  | Some installation =>
      if (length (default [] (inEncryptedToken installation)) =? 0)%nat then mret false else
      token ← current_token s lookup (default [] (inEncryptedToken installation));
      if negb (beq token failedToken) then mret false else
      leases ← unavailable (query (leases_of lookup));
      each_tx (fence_route s now) leases ;;
      unavailable (silently (fun db =>
        with_Installations (alter (erase_installation (ts now)) lookup (dbInstallations db)) db)) ;;
      unavailable (markDeliveryJobsSafetyForInstallationTx (rdJobClock round lookup) lookup []) ;;
      unavailable (exec (fun db => delete_leases (fun _ lease => beq (lsInstallationLookup lease) lookup) db)) ;;
      ensure ((length (inIdentity installation) =? 32)%nat && (0 <? inPolicyEpoch installation) &&
              (inPolicyEpoch installation <=? maxInstallationTombstoneFenceEpoch) &&
              (0 <? inKeyVersion installation) &&
              (inKeyVersion installation <=? maxDeletionTombstoneKeyVersion)) ErrDeliveryQueueUnavailable ;;
      unavailable (upsertDeletionTombstone s deletionTargetInstallation (inIdentity installation)
        (inKeyVersion installation) (inPolicyEpoch installation) now) ;;
      mret true
  end.

(** ** The public operations *)

Section Operations.
Variable rounds : nat -> Round.
Variable fuel : nat.

Definition RecoverInvalidTokenErasures (s : Store) : op () :=
  transact rounds to_unavailable (recover_erasures_tx s).

Definition ClaimErasureJobs (s : Store) (limit claimTTL : Z) : op (list ClaimedDeliveryJob) :=
  if (limit <=? 0) || (128 <? limit) || (claimTTL <? second) || (minute <? claimTTL)
  then op_fail ErrDeliveryJobInvalid
  else transact rounds to_unavailable (fun round => claim_erasures_tx s round (Z.to_nat limit) claimTTL).

Definition ConvertInvalidTokenToErasure (s : Store) (jobID failedDeviceToken : bytes) (trafficClass availableAt : Z)
  : op (option bytes) :=
  match hex_decode failedDeviceToken with
  | None => op_fail ErrDeliveryJobInvalid
  | Some failedToken =>
      if negb (length jobID =? 16)%nat || negb (length failedToken =? 32)%nat ||
         (negb (trafficClass =? DeliveryTrafficConversation) && negb (trafficClass =? DeliveryTrafficWelcome))
      then op_fail ErrDeliveryJobInvalid else
      converted ← transact_when rounds
        (fun r : bool * option bytes => r.1 || bool_decide (is_Some r.2)) to_unavailable
        (fun round => convert_tx s round jobID failedDeviceToken failedToken trafficClass availableAt);
      match (converted : bool * option bytes) with
      | (true, _) =>
          op_mapped (fun _ => ErrDeliveryFinalizationPending) (completeDeliveryFinalization rounds s jobID) ;;
          mret None
      | (false, None) => mret None
      | (false, Some lookup) =>
          op_mapped (fun _ => ErrDeliveryFinalizationPending) (finalizeDeliveryMarkers rounds fuel s) ;;
          mret (Some lookup)
      end
  end.

Definition reschedule_row (availableAt : Z) (j : JobRow) : JobRow := {|
  jbLeaseID := jbLeaseID j; jbInstallationLookup := jbInstallationLookup j;
  jbEncryptedJob := jbEncryptedJob j; jbState := erasureJobPending; jbAttempts := jbAttempts j;
  jbRetryExponent := Z.min (jbRetryExponent j + 1) maxErasureRetryExponent; jbAvailableAt := availableAt;
  jbExpiresAt := jbExpiresAt j; jbCreatedAt := jbCreatedAt j; jbTrafficClass := jbTrafficClass j;
  jbFinalReason := jbFinalReason j; jbA9 := jbA9 j |}.

Definition reschedule_erasure_tx (s : Store) (round : Round) (jobID : bytes) (availableAt : Z) : vault_tx bool :=
  affected ← unavailable (affecting (update_job jobID (fun j => jbState j =? erasureJobClaimed)
    (reschedule_row (ts availableAt))));
  if (affected : bool) then markOverdueErasureUnsafe s (atHost (rdAttempt round)) ;; mret true else mret false.

Definition RescheduleInvalidTokenErasure (s : Store) (jobID : bytes) (availableAt : Z) : op () :=
  if negb (length jobID =? 16)%nat then op_fail ErrDeliveryJobInvalid else
  transact_when rounds (fun affected : bool => affected) to_unavailable (fun round =>
    reschedule_erasure_tx s round jobID availableAt) ;;
  mret tt.

Definition DeleteErasureJob (s : Store) (jobID : bytes) : op () :=
  if negb (length jobID =? 16)%nat then op_fail ErrDeliveryJobInvalid else
  transact rounds to_unavailable (fun _ => unavailable (affecting (delete_job jobID erasure_live))) ;;
  mret tt.

Definition EraseInvalidAPNSToken (s : Store) (lookup failedDeviceToken : bytes) : op () :=
  match hex_decode failedDeviceToken with
  | None => op_fail ErrDeliveryJobInvalid
  | Some failedToken =>
      if negb (length lookup =? 32)%nat || negb (length failedToken =? 32)%nat
      then op_fail ErrDeliveryJobInvalid else
      erased ← transact_when rounds (fun erased : bool => erased) to_unavailable (fun round =>
        erase_tx s round lookup failedToken);
      if (erased : bool) then finalizeDeliveryMarkers rounds fuel s else mret tt
  end.

End Operations.
End Erase.
