(* ===== verification/Refresh.v ===== *)
(** * Refreshing an installation

    src/pkg/vault/store.go and control_digest.go: the validation of a refresh and the
    serializable transaction that replaces the routes of an installation by the requested
    ones: what it preserves of an existing lease (its identifier and the nonce state of its
    key), what it fences, and what it refuses. The routes are visited in an order the runtime
    chooses where the code ranges over a map. *)

From S2P Require Import Prelude GoBytes GoTime GoCrypto A9Trust VaultCrypto Gate8Header Topics Interfaces Authority Sql A9Types A9VaultDb A9Vault A9Current Aggregates DeliveryJob DeliveryQueue DeliveryOps DeliveryAttempt Tombstones RouteKeys.
Local Open Scope Z_scope.
Local Open Scope go_scope.

Definition maxRefreshTopics : nat := 2048.
Definition maxHMACKeys : nat := 3.
Definition ageAdult : Z := 1.
Definition stateRevoking : Z := 5.
Definition stateExpired : Z := 6.
Definition stateBlockedRekeyNeeded : Z := 8.
Definition stateAwaitingRefresh : Z := 9.

Record HMACKeyInput := { hiThirtyDayPeriodsSinceEpoch : Z; hiKey : bytes }.

Record SubscriptionRefresh := {
  sfTopic : bytes; sfRouteKey : bytes; sfRouteKeyEpoch : Z; sfHMACKeys : list HMACKeyInput;
  sfCapability : ReceiveCapabilityV1;
}.

(** A nil list of subscriptions is refused, an empty one is not. *)
Record RefreshRequest := {
  rfEnvironment : bytes; rfInstallationID : bytes; rfAccountIncarnationID : bytes; rfGeneration : Z;
  rfIdempotencyKey : bytes; rfAPNSToken : bytes; rfPayloadSchema : bytes;
  rfSubscriptions : option (list SubscriptionRefresh); rfPolicyControl : PolicyControlV1;
}.

Record RefreshResult := { reAcceptedGeneration : Z; reActiveLeaseCount : Z; reLeaseExpiresAt : Z }.

(** [json.Marshal] and [json.Unmarshal] of what the vault stores and digests. *)
Class VaultJson := {
  marshal_refresh : RefreshRequest -> option bytes;
  marshal_hmac_keys : list HMACKeyInput -> option bytes;
  unmarshal_hmac_keys : bytes -> option (list HMACKeyInput);
  marshal_capability : ReceiveCapabilityV1 -> option bytes;
  unmarshal_capability : bytes -> option ReceiveCapabilityV1;
}.

(** [topic.ParseTopic] of xmtpd. *)
Class TopicParser `{XmtpTopic} := { ParseTopic : bytes -> option Topic }.

(** What the random source and the clock give while leases are written: a new lease's
    identifier and nonce prefix (by topic), the entropy of a sealing (by context), the clock
    when jobs are marked, and the order in which a map is ranged over. *)
Record LeaseDraws := {
  ldLeaseID : bytes -> option bytes; ldPrefix : bytes -> option bytes;
  ldSeal : bytes -> SealEntropy; ldMark : bytes -> Z; ldVisit : list bytes -> list bytes;
}.

(** ** Validation *)

Record normalizedSubscription := {
  nmTopic : bytes; nmTopicKind : Z; nmRouteKey : bytes; nmRouteKeyEpoch : Z;
  nmHMACKeys : list HMACKeyInput; nmCapability : ReceiveCapabilityV1; nmPushMode : Z; nmState : Z;
  nmIssuedAt : Z; nmCapExpiresAt : Z;
}.

Fixpoint distinct_periods (seen : list Z) (keys : list HMACKeyInput) : bool :=
  match keys with
  | [] => true
  | key :: keys =>
      (length (hiKey key) =? 32)%nat && negb (bool_decide (hiThirtyDayPeriodsSinceEpoch key ∈ seen)) &&
      distinct_periods (hiThirtyDayPeriodsSinceEpoch key :: seen) keys
  end.

Definition validateHMACKeys (keys : list HMACKeyInput) : bool :=
  negb (length keys =? 0)%nat && (length keys <=? maxHMACKeys)%nat && distinct_periods [] keys.

Definition capabilityMatchesRoute (capability : ReceiveCapabilityV1) (routeKey rawTopic environment : bytes)
    (now : Z) : bool :=
  beq (rcAliasDay capability) (UTCDay now) &&
  match DeriveRouteAlias routeKey rawTopic environment (rcAliasDay capability) with
  | Ok alias => beq (b64_encode alias) (rcRouteAlias capability)
  | Err _ => false
  end.

(** What a control or a capability may grant at most, by age policy. *)
Definition control_ttl (agePolicy : bytes) : Z := if beq agePolicy AgePolicyTeen then 30 * second else minute.

Definition age_id (agePolicy : bytes) : Z := if beq agePolicy AgePolicyTeen then ageTeen else ageAdult.

Section Validate.
Context `{HX : XmtpTopic, HTP : !TopicParser, HE : Ed25519}.

Definition validate_subscription (s : Store) (request : RefreshRequest) (now : Z) (sub : SubscriptionRefresh)
  : option normalizedSubscription :=
  let control := rfPolicyControl request in
  let capability := sfCapability sub in
  let maxTTL := control_ttl (pcAgePolicy control) in
  parsed ← ParseTopic (sfTopic sub);
  bail negb (length (sfRouteKey sub) =? 32)%nat || (sfRouteKeyEpoch sub =? 0) with None;;
  bail negb (topic_kind parsed =? TopicKindGroupMessagesV1) with None;;
  bail negb (validateHMACKeys (sfHMACKeys sub)) with None;;
  bail negb (rcPolicyEpoch capability =? pcPolicyEpoch control) with None;;
  bail negb (capabilityMatchesRoute capability (sfRouteKey sub) (sfTopic sub) (stEnvironment s) now) with None;;
  bail negb (is_ok (VerifyReceiveCapability capability (stAuthorityKeys s) {|
    voNow := now; voMaxTTL := maxTTL; voExpectedEnvironment := stEnvironment s;
    voExpectedInstallationID := rfInstallationID request;
    voExpectedAccountIncarnationID := rfAccountIncarnationID request;
    voExpectedTopicDigest := hex_encode (sha256 (sfTopic sub)) |} now)) with None;;
  issuedAt ← parse_rfc3339nano (rcIssuedAt capability);
  capExpiresAt ← parse_rfc3339nano (rcExpiresAt capability);
  let alert := beq (EffectivePushMode capability) PushModeAlertAllowed in
  Some {| nmTopic := sfTopic sub; nmTopicKind := topicConversation; nmRouteKey := sfRouteKey sub;
          nmRouteKeyEpoch := sfRouteKeyEpoch sub; nmHMACKeys := sfHMACKeys sub; nmCapability := capability;
          nmPushMode := if alert then pushAlert else pushSuppressed;
          nmState := if alert then stateActive else stateSuppressed; nmIssuedAt := issuedAt;
          nmCapExpiresAt := if after capExpiresAt (now + maxTTL) then now + maxTTL else capExpiresAt |}.

Fixpoint validate_subscriptions (s : Store) (request : RefreshRequest) (now : Z) (seen : list bytes)
    (subs : list SubscriptionRefresh) : option (list normalizedSubscription) :=
  match subs with
  | [] => Some []
  | sub :: subs =>
      if bool_decide (sfTopic sub ∈ seen) then None else
      normalized ← validate_subscription s request now sub;
      rest ← validate_subscriptions s request now (sfTopic sub :: seen) subs;
      Some (normalized :: rest)
  end.

(** Every refusal is [ErrRefreshInvalid]. *)
Definition validateRefresh (s : Store) (request : RefreshRequest) (now : Z)
  : option (list normalizedSubscription) :=
  let control := rfPolicyControl request in
  match rfSubscriptions request with
  | None => None
  | Some subs =>
      bail negb (beq (rfEnvironment request) (stEnvironment s)) ||
           negb (ValidEnvironment (rfEnvironment request)) || (rfGeneration request =? 0) ||
           (MaxCanonicalInteger <? rfGeneration request) ||
           negb (beq (rfPayloadSchema request) (str "hytch_push_wrapper_v1")) ||
           negb (ValidInstallationID (rfInstallationID request)) ||
           negb (ValidAccountIncarnationID (rfAccountIncarnationID request)) ||
           (length (rfIdempotencyKey request) <? 16)%nat || (128 <? length (rfIdempotencyKey request))%nat ||
           negb (length (rfAPNSToken request) =? 32)%nat || (maxRefreshTopics <? length subs)%nat with None;;
      bail beq (pcAgePolicy control) AgePolicyTeen && negb (stTeenConversationEnabled s) with None;;
      bail negb (beq (pcState control) PolicyStateActive) with None;;
      bail negb (is_ok (VerifyPolicyControl control (stAuthorityKeys s) {|
        poNow := now; poExpectedEnvironment := stEnvironment s;
        poExpectedInstallationID := rfInstallationID request;
        poExpectedAccountIncarnationID := rfAccountIncarnationID request |} now)) with None;;
      validate_subscriptions s request now [] subs
  end.

(** ** Digests *)

Definition semanticRefreshDigest `{VaultJson} (request : RefreshRequest) : option bytes :=
  sha256 <$> marshal_refresh request.

Definition controlDigest (control : PolicyControlV1) : option bytes :=
  match control_SigningBytes control, b64_decode false (pcSignature control) with
  | Ok signingBytes, Some signature => Some (sha256 (signingBytes ++ [x00] ++ signature))
  | _, _ => None
  end.

Definition equalDigest (left right : bytes) : bool :=
  (length left =? 32)%nat && (length right =? 32)%nat && beq left right.

End Validate.

(** ** Statements *)

Section Statements.
Context `{HP : Postgres, HG : AesGcm, HJ : JobJson, HT : A9TrustSurface}.

#[local] Abbreviation ts := pg_timestamp.

Definition opened (s : Store) (context value : bytes) : vault_tx bytes :=
  match Open (stEncryption s) context value with Ok plain => mret plain | Err _ => fail_with ErrStoreUnavailable end.

Definition sealed (s : Store) (entropy : bytes -> SealEntropy) (context plain : bytes) : vault_tx bytes :=
  match Seal (stEncryption s) (entropy context) context plain with
  | Ok value => mret value
  | Err _ => fail_with ErrStoreUnavailable
  end.

(** The row of the installation under its lookup of this or the previous epoch. *)
Fixpoint find_installation (s : Store) (installationID identity : bytes) (epochs : list Z)
  : vault_tx (option (bytes * InstallationRow)) :=
  match epochs with
  | [] => mret None
  | epoch :: epochs =>
      lookup ← known (environmentLookupDigest s (str "installation") epoch installationID) ErrStoreUnavailable;
      row ← store_unavailable (query (fun db => dbInstallations db !! lookup));
      match (row : option InstallationRow) with
      | None => find_installation s installationID identity epochs
      | Some row => require (beq (inIdentity row) identity) ;; mret (Some (lookup, row))
      end
  end.

Definition findInstallation (s : Store) (installationID : bytes) (now : Z)
  : vault_tx (option (bytes * InstallationRow)) :=
  ensure (ValidInstallationID installationID) ErrRefreshInvalid ;;
  identity ← known (installationDeletionIdentity s installationID) ErrStoreUnavailable;
  find_installation s installationID identity (CandidateEpochs now).

Record existingLease := {
  elLeaseID : bytes; elTopic : bytes; elRouteIdentity : bytes; elRouteKeyEpoch : Z; elKeyVersion : Z;
  elEncryptedNonceState : bytes; elEncryptedRouteKey : bytes;
}.

Definition existing_lease (s : Store) (leaseID : bytes) (lease : LeaseRow) : option existingLease :=
  bail (lsRouteKeyEpoch lease <=? 0) || (maxRouteKeyEpoch <? lsRouteKeyEpoch lease) ||
       negb (length (lsRouteIdentity lease) =? 32)%nat with None;;
  match Open (stEncryption s) (leaseContext leaseID (str "topic")) (lsEncryptedTopic lease) with
  | Err _ => None
  | Ok topic =>
      Some {| elLeaseID := leaseID; elTopic := topic; elRouteIdentity := lsRouteIdentity lease;
              elRouteKeyEpoch := lsRouteKeyEpoch lease; elKeyVersion := lsKeyVersion lease;
              elEncryptedNonceState := lsEncryptedNonceState lease;
              elEncryptedRouteKey := lsEncryptedRouteKey lease |}
  end.

(** By topic; a later row replaces an earlier one of the same topic. *)
Fixpoint existing_leases (s : Store) (rows : list (bytes * LeaseRow)) (out : gmap bytes existingLease)
  : option (gmap bytes existingLease) :=
  match rows with
  | [] => Some out
  | (leaseID, lease) :: rows =>
      e ← existing_lease s leaseID lease;
      existing_leases s rows (<[elTopic e := e]> out)
  end.

Definition loadExistingLeases (s : Store) (lookup : bytes) : vault_tx (gmap bytes existingLease) :=
  rows ← store_unavailable (query (fun db =>
    List.filter (fun kv => beq (lsInstallationLookup kv.2) lookup) (map_to_list (dbLeases db))));
  known (existing_leases s rows ∅) ErrStoreUnavailable.

Definition move_installation (to incarnation : bytes) (epoch : Z) (row : InstallationRow) : InstallationRow := {|
  inIdentity := inIdentity row; inIncarnationLookup := incarnation; inLookupKeyEpoch := epoch;
  inGeneration := inGeneration row; inIdempotencyDigest := inIdempotencyDigest row;
  inControlEventDigest := inControlEventDigest row; inEncryptedToken := inEncryptedToken row;
  inAgePolicy := inAgePolicy row; inPolicyEpoch := inPolicyEpoch row; inState := inState row;
  inKeyVersion := inKeyVersion row; inRefreshedAt := inRefreshedAt row; inExpiresAt := inExpiresAt row;
  inControlExpiresAt := inControlExpiresAt row; inRevokedAt := inRevokedAt row |}.

Definition lease_under (lookup : bytes) (row : LeaseRow) : LeaseRow := {|
  lsInstallationLookup := lookup; lsInstallationIdentity := lsInstallationIdentity row;
  lsRouteIdentity := lsRouteIdentity row; lsTopicLookup := lsTopicLookup row;
  lsLookupKeyEpoch := lsLookupKeyEpoch row; lsEncryptedTopic := lsEncryptedTopic row;
  lsEncryptedRouteKey := lsEncryptedRouteKey row; lsEncryptedHMACKeys := lsEncryptedHMACKeys row;
  lsEncryptedCapability := lsEncryptedCapability row; lsTopicKind := lsTopicKind row;
  lsPushMode := lsPushMode row; lsState := lsState row; lsGeneration := lsGeneration row;
  lsPolicyEpoch := lsPolicyEpoch row; lsRouteKeyEpoch := lsRouteKeyEpoch row;
  lsEncryptedNonceState := lsEncryptedNonceState row; lsKeyVersion := lsKeyVersion row;
  lsIssuedAt := lsIssuedAt row; lsRefreshedAt := lsRefreshedAt row; lsExpiresAt := lsExpiresAt row;
  lsControlExpiresAt := lsControlExpiresAt row; lsRevokedAt := lsRevokedAt row |}.

Definition job_under (lookup : bytes) (j : JobRow) : JobRow := {|
  jbLeaseID := jbLeaseID j; jbInstallationLookup := Some lookup; jbEncryptedJob := jbEncryptedJob j;
  jbState := jbState j; jbAttempts := jbAttempts j; jbRetryExponent := jbRetryExponent j;
  jbAvailableAt := jbAvailableAt j; jbExpiresAt := jbExpiresAt j; jbCreatedAt := jbCreatedAt j;
  jbTrafficClass := jbTrafficClass j; jbFinalReason := jbFinalReason j; jbA9 := jbA9 j |}.

(** A new lookup for an installation: its leases and erasure markers follow. *)
Definition rename_installation (from to incarnation : bytes) (epoch : Z) (db : VaultDB) : option VaultDB :=
  match dbInstallations db !! from with
  | None => Some db
  | Some row =>
      match dbInstallations db !! to with
      | Some _ => None
      | None =>
          Some (with_Installations (<[to := move_installation to incarnation epoch row]>
                                      (delete from (dbInstallations db)))
               (with_Leases ((fun lease => if beq (lsInstallationLookup lease) from then lease_under to lease
                                           else lease) <$> dbLeases db)
               (with_Jobs ((fun j => if bool_decide (jbInstallationLookup j = Some from) then job_under to j
                                     else j) <$> dbJobs db) db)))
      end
  end.

(** [INSERT ... ON CONFLICT] on the lookup [DO UPDATE]; an identity has one row. *)
Definition upsert_installation (lookup : bytes) (row : InstallationRow) (db : VaultDB) : option VaultDB :=
  if all_rows (fun k other => beq k lookup || negb (beq (inIdentity other) (inIdentity row))) (dbInstallations db)
  then Some (with_Installations (<[lookup := row]> (dbInstallations db)) db) else None.

(** [INSERT ... ON CONFLICT] on the lease [DO UPDATE]; an installation has one lease per topic
    lookup, and a route refers to the lease with its installation. *)
Definition upsert_lease (leaseID : bytes) (row : LeaseRow) (db : VaultDB) : option VaultDB :=
  if all_rows (fun k other => beq k leaseID || negb (beq (lsInstallationLookup other) (lsInstallationLookup row) &&
                                                     beq (lsTopicLookup other) (lsTopicLookup row))) (dbLeases db) &&
     match dbRoutes db !! leaseID with
     | Some route => beq (roIdentity route) (lsInstallationIdentity row)
     | None => true
     end
  then Some (with_Leases (<[leaseID := row]> (dbLeases db)) db) else None.

Definition countActiveLeases (lookup : bytes) : vault_tx Z :=
  store_unavailable (query (fun db => Z.of_nat (size (filter (fun kv : bytes * LeaseRow =>
    beq (lsInstallationLookup kv.2) lookup &&
    ((lsState kv.2 =? stateActive) || (lsState kv.2 =? stateSuppressed)) = true) (dbLeases db))))).

(** ** Leases *)

Definition random_prefix (draws : LeaseDraws) (topic : bytes) : vault_tx Z :=
  prefix ← known (read_full 4 (ldPrefix draws topic)) ErrStoreUnavailable; mret (be_decode prefix).

Definition same_route_key (s : Store) (existing : existingLease) (routeKey : bytes) : vault_tx bool :=
  old ← opened s (leaseContext (elLeaseID existing) (str "route-key")) (elEncryptedRouteKey existing);
  mret (beq old routeKey).

(** The lease's identifier and nonce state: kept while the key is kept, restarted under a
    new prefix with a new key. *)
Definition lease_lineage (s : Store) (draws : LeaseDraws) (sub : normalizedSubscription)
    (existing : option existingLease) : vault_tx (bytes * nonceState) :=
  match existing with
  | None =>
      leaseID ← known (read_full 16 (ldLeaseID draws (nmTopic sub))) ErrStoreUnavailable;
      prefix ← random_prefix draws (nmTopic sub);
      mret (leaseID, {| nsPrefix := prefix; nsNextSequence := 0 |})
  | Some e =>
      ensure (negb (nmRouteKeyEpoch sub <? elRouteKeyEpoch e)) ErrRefreshConflict ;;
      same ← same_route_key s e (nmRouteKey sub);
      if nmRouteKeyEpoch sub =? elRouteKeyEpoch e then
        ensure same ErrRefreshConflict ;;
        encoded ← opened s (leaseContext (elLeaseID e) (str "nonce-state")) (elEncryptedNonceState e);
        nonce ← known (decodeNonceState encoded) ErrStoreUnavailable;
        mret (elLeaseID e, nonce)
      else
        ensure (negb same) ErrRefreshConflict ;;
        store_unavailable (markDeliveryJobsSafetyForLeaseTx (ldMark draws (elLeaseID e)) (elLeaseID e)) ;;
        prefix ← random_prefix draws (nmTopic sub);
        mret (elLeaseID e, {| nsPrefix := prefix; nsNextSequence := 0 |})
  end.

(** What a refresh fixes for all its leases. *)
Record RefreshTerms := {
  tmInstallationID : bytes; tmLookup : bytes; tmLookupEpoch : Z; tmGeneration : Z; tmPolicyEpoch : Z;
  tmNow : Z; tmExpiresAt : Z; tmControlExpiresAt : Z;
}.

Context `{HVJ : VaultJson}.

Definition seal_lease (s : Store) (draws : LeaseDraws) (terms : RefreshTerms) (sub : normalizedSubscription)
    (installationIdentity routeIdentity leaseID : bytes) (nonce : nonceState) : vault_tx LeaseRow :=
  let field name plain := sealed s (ldSeal draws) (leaseContext leaseID (str name)) plain in
  topicLookup ← known (environmentLookupDigest s (str "topic") (tmLookupEpoch terms) (nmTopic sub))
    ErrStoreUnavailable;
  encryptedTopic ← field "topic" (nmTopic sub);
  encryptedRouteKey ← field "route-key" (nmRouteKey sub);
  encryptedNonceState ← field "nonce-state" (encodeNonceState nonce);
  hmacBytes ← known (marshal_hmac_keys (nmHMACKeys sub)) ErrStoreUnavailable;
  encryptedHMACKeys ← field "hmac-keys" hmacBytes;
  capabilityBytes ← known (marshal_capability (nmCapability sub)) ErrStoreUnavailable;
  encryptedCapability ← field "capability" capabilityBytes;
  mret {| lsInstallationLookup := tmLookup terms; lsInstallationIdentity := installationIdentity;
          lsRouteIdentity := routeIdentity; lsTopicLookup := topicLookup;
          lsLookupKeyEpoch := tmLookupEpoch terms; lsEncryptedTopic := encryptedTopic;
          lsEncryptedRouteKey := encryptedRouteKey; lsEncryptedHMACKeys := encryptedHMACKeys;
          lsEncryptedCapability := encryptedCapability; lsTopicKind := nmTopicKind sub;
          lsPushMode := nmPushMode sub; lsState := nmState sub; lsGeneration := tmGeneration terms;
          lsPolicyEpoch := tmPolicyEpoch terms; lsRouteKeyEpoch := nmRouteKeyEpoch sub;
          lsEncryptedNonceState := encryptedNonceState;
          lsKeyVersion := krActiveVersion (stEncryption s); lsIssuedAt := ts (nmIssuedAt sub);
          lsRefreshedAt := ts (tmNow terms); lsExpiresAt := ts (tmExpiresAt terms);
          lsControlExpiresAt := ts (if before (nmCapExpiresAt sub) (tmControlExpiresAt terms)
                                    then nmCapExpiresAt sub else tmControlExpiresAt terms);
          lsRevokedAt := None |}.

Definition upsertLease (s : Store) (draws : LeaseDraws) (terms : RefreshTerms) (sub : normalizedSubscription)
    (existing : option existingLease) : vault_tx () :=
  installationIdentity ← known (installationDeletionIdentity s (tmInstallationID terms)) ErrStoreUnavailable;
  routeIdentity ← known (routeHistoryIdentity s (tmInstallationID terms) (nmTopic sub)) ErrStoreUnavailable;
  requireTombstoneAdvance s deletionTargetRoute routeIdentity (nmRouteKeyEpoch sub) (tmNow terms) ;;
  require (match existing with Some e => beq (elRouteIdentity e) routeIdentity | None => true end) ;;
  commitment ← known (routeKeyCommitment s (nmRouteKey sub)) ErrStoreUnavailable;
  lineage ← lease_lineage s draws sub existing;
  let '(leaseID, nonce) := (lineage : bytes * nonceState) in
  recordRouteKeyHistory s routeIdentity commitment (nmRouteKeyEpoch sub) (bool_decide (is_Some existing))
    (tmNow terms) (tmExpiresAt terms + 8 * day) ;;
  row ← seal_lease s draws terms sub installationIdentity routeIdentity leaseID nonce;
  store_unavailable (exec (upsert_lease leaseID row)).

Definition eraseLease (s : Store) (draws : LeaseDraws) (now : Z) (lease : existingLease) : vault_tx () :=
  store_unavailable (markDeliveryJobsSafetyForLeaseTx (ldMark draws (elLeaseID lease)) (elLeaseID lease)) ;;
  routeKey ← opened s (leaseContext (elLeaseID lease) (str "route-key")) (elEncryptedRouteKey lease);
  commitment ← known (routeKeyCommitment s routeKey) ErrStoreUnavailable;
  recordRouteKeyHistory s (elRouteIdentity lease) commitment (elRouteKeyEpoch lease) true now (now + 8 * day) ;;
  upsertDeletionTombstone s deletionTargetRoute (elRouteIdentity lease) (elKeyVersion lease)
    (elRouteKeyEpoch lease) now ;;
  store_unavailable (exec (delete_leases (fun leaseID _ => beq leaseID (elLeaseID lease)))).

End Statements.

(** ** The refresh *)

Inductive refresh_case := ReplayRefresh | RefuseRefresh | ProceedRefresh.

(** What a request may do to the stored installation. A higher generation is not authority
    to reverse a block at the same policy epoch. *)
Definition refresh_decision (request : RefreshRequest) (existing : InstallationRow)
    (requestDigest controlEventDigest : bytes) (incarnationChanged : bool) : refresh_case :=
  let epoch := pcPolicyEpoch (rfPolicyControl request) in
  if rfGeneration request <? inGeneration existing then RefuseRefresh
  else if rfGeneration request =? inGeneration existing then
    if beq requestDigest (inIdempotencyDigest existing) then ReplayRefresh else RefuseRefresh
  else if epoch <? inPolicyEpoch existing then RefuseRefresh
  else if incarnationChanged && (epoch <=? inPolicyEpoch existing) then RefuseRefresh
  else if (epoch =? inPolicyEpoch existing) &&
          negb (equalDigest (inControlEventDigest existing) controlEventDigest) then RefuseRefresh
  else if (epoch =? inPolicyEpoch existing) && negb (inState existing =? stateActive) &&
          negb (inState existing =? stateAwaitingRefresh) then RefuseRefresh
  else if inState existing =? stateBlockedRekeyNeeded then RefuseRefresh
  else ProceedRefresh.

Section Refresh.
Context `{HP : Postgres, HG : AesGcm, HJ : JobJson, HT : A9TrustSurface, HVJ : VaultJson,
          HX : XmtpTopic, HTP : !TopicParser, HE : Ed25519}.

#[local] Abbreviation ts := pg_timestamp.

(** The expiry of the control, at most its age policy's time away. *)
Definition control_deadline (control : PolicyControlV1) (now : Z) : option Z :=
  expiresAt ← parse_rfc3339nano (pcExpiresAt control);
  let maximum := now + control_ttl (pcAgePolicy control) in
  Some (if after expiresAt maximum then maximum else expiresAt).

Definition token_changed (s : Store) (lookup : bytes) (existing : InstallationRow) (token : bytes)
  : vault_tx bool :=
  let encrypted := default [] (inEncryptedToken existing) in
  if (length encrypted =? 0)%nat then mret true else
  current ← opened s (installationContext lookup (str "apns-token")) encrypted;
  mret (negb (beq current token)).

(** The stored installation is moved to its current lookup, its jobs are ended when the token
    changed. *)
Definition carry_installation (s : Store) (draws : LeaseDraws) (request : RefreshRequest)
    (lookup incarnationLookup : bytes) (lookupEpoch : Z) (existingLookup : bytes) (existing : InstallationRow)
  : vault_tx () :=
  changed ← token_changed s existingLookup existing (rfAPNSToken request);
  (if (changed : bool)
   then store_unavailable (markDeliveryJobsSafetyForInstallationTx (ldMark draws existingLookup) existingLookup [])
   else mret tt) ;;
  (if beq existingLookup lookup then mret tt
   else store_unavailable (exec (rename_installation existingLookup lookup incarnationLookup lookupEpoch))).

(** [Some] is the answer to a repeated request. *)
Definition adopt_installation (s : Store) (draws : LeaseDraws) (request : RefreshRequest)
    (requestDigest controlEventDigest lookup incarnationLookup : bytes) (lookupEpoch : Z)
    (existingLookup : bytes) (existing : InstallationRow) : vault_tx (option RefreshResult) :=
  storedIncarnation ← known (environmentLookupDigest s (str "incarnation") (inLookupKeyEpoch existing)
                               (rfAccountIncarnationID request)) ErrStoreUnavailable;
  match refresh_decision request existing requestDigest controlEventDigest
          (negb (beq storedIncarnation (inIncarnationLookup existing))) with
  | RefuseRefresh => fail_with ErrRefreshConflict
  | ReplayRefresh =>
      count ← countActiveLeases existingLookup;
      mret (Some {| reAcceptedGeneration := rfGeneration request; reActiveLeaseCount := count;
                    reLeaseExpiresAt := inExpiresAt existing |})
  | ProceedRefresh =>
      carry_installation s draws request lookup incarnationLookup lookupEpoch existingLookup existing ;;
      mret None
  end.

Definition refreshed_installation (s : Store) (request : RefreshRequest)
    (identity incarnationLookup requestDigest controlEventDigest token : bytes)
    (lookupEpoch now controlExpiresAt : Z) : InstallationRow := {|
  inIdentity := identity; inIncarnationLookup := incarnationLookup; inLookupKeyEpoch := lookupEpoch;
  inGeneration := rfGeneration request; inIdempotencyDigest := requestDigest;
  inControlEventDigest := controlEventDigest; inEncryptedToken := Some token;
  inAgePolicy := age_id (pcAgePolicy (rfPolicyControl request));
  inPolicyEpoch := pcPolicyEpoch (rfPolicyControl request); inState := stateActive;
  inKeyVersion := krActiveVersion (stEncryption s); inRefreshedAt := ts now;
  inExpiresAt := ts (now + stLeaseTTL s); inControlExpiresAt := ts controlExpiresAt; inRevokedAt := None |}.

(** The requested leases in order, then the others of the installation are erased. *)
Definition replace_leases (s : Store) (draws : LeaseDraws) (terms : RefreshTerms)
    (normalized : list normalizedSubscription) : vault_tx () :=
  existing ← loadExistingLeases s (tmLookup terms);
  each_tx (fun sub => upsertLease s draws terms sub (existing !! nmTopic sub)) normalized ;;
  each_tx (fun topic =>
      if bool_decide (topic ∈ (nmTopic <$> normalized)) then mret tt
      else match (existing : gmap bytes existingLease) !! topic with
           | Some lease => eraseLease s draws (tmNow terms) lease
           | None => mret tt
           end)
    (ldVisit draws (fst <$> map_to_list existing)).

(** The row of the installation and its leases; [fail] is what a caller does with the error of
    the first statement. *)
Definition store_refresh (s : Store) (fail : error -> error) (draws : LeaseDraws) (request : RefreshRequest)
    (normalized : list normalizedSubscription)
    (identity lookup incarnationLookup requestDigest controlEventDigest : bytes) (now : Z) : vault_tx () :=
  let control := rfPolicyControl request in
  token ← sealed s (ldSeal draws) (installationContext lookup (str "apns-token")) (rfAPNSToken request);
  controlExpiresAt ← known (control_deadline control now) ErrRefreshInvalid;
  mapped fail (exec (upsert_installation lookup (refreshed_installation s request identity
    incarnationLookup requestDigest controlEventDigest token (LookupEpoch now) now controlExpiresAt))) ;;
  replace_leases s draws {|
    tmInstallationID := rfInstallationID request; tmLookup := lookup; tmLookupEpoch := LookupEpoch now;
    tmGeneration := rfGeneration request; tmPolicyEpoch := pcPolicyEpoch control; tmNow := now;
    tmExpiresAt := now + stLeaseTTL s; tmControlExpiresAt := controlExpiresAt |} normalized.

(** [Ok (result, false)]: a repeated request, nothing to commit. *)
Definition refresh_tx (s : Store) (round : Round) (draws : LeaseDraws) (request : RefreshRequest)
    (normalized : list normalizedSubscription) (requestDigest : bytes) (now : Z)
  : vault_tx (RefreshResult * bool) :=
  let control := rfPolicyControl request in
  let lookupEpoch := LookupEpoch now in
  store_unavailable (requireRetentionSafeTx s (atHost (rdAttempt round))) ;;
  lookup ← known (environmentLookupDigest s (str "installation") lookupEpoch (rfInstallationID request))
    ErrStoreUnavailable;
  incarnationLookup ← known (environmentLookupDigest s (str "incarnation") lookupEpoch
                               (rfAccountIncarnationID request)) ErrStoreUnavailable;
  identity ← known (installationDeletionIdentity s (rfInstallationID request)) ErrStoreUnavailable;
  requireTombstoneAdvance s deletionTargetInstallation identity (pcPolicyEpoch control) now ;;
  found ← findInstallation s (rfInstallationID request) now;
  controlEventDigest ← known (controlDigest control) ErrRefreshInvalid;
  answer ← match (found : option (bytes * InstallationRow)) with
           | None => mret None
           | Some (existingLookup, existing) =>
               adopt_installation s draws request requestDigest controlEventDigest lookup incarnationLookup
                 lookupEpoch existingLookup existing
           end;
  match (answer : option RefreshResult) with
  | Some result => mret (result, false)
  | None =>
      store_refresh s (fun _ => ErrStoreUnavailable) draws request normalized identity lookup incarnationLookup
        requestDigest controlEventDigest now ;;
      mret ({| reAcceptedGeneration := rfGeneration request;
               reActiveLeaseCount := Z.of_nat (length normalized);
               reLeaseExpiresAt := now + stLeaseTTL s |}, true)
  end.

Section Operations.
Variable rounds : nat -> Round.
Variable fuel : nat.

(** [RecordOperationalAggregate]; its draw is the one for the empty job. *)
Definition RecordAggregate (s : Store) (eventName outcome latencyBucket : Z) : op () := fun '(i, db) =>
  let round := rounds i in
  let '(db', r) := RecordOperationalAggregate s eventName outcome latencyBucket (rdJobDraw round [])
                     (rdAttempt round) (rdOthers round db) in
  ((S i, db'), r).

Definition store_op {A : Type} (m : op A) : op A := op_mapped (fun _ => ErrStoreUnavailable) m.

Definition Refresh (s : Store) (draws : LeaseDraws) (request : RefreshRequest) : op RefreshResult :=
  if stA9Enabled s then op_fail ErrStoreUnavailable else
  now ← host_clock rounds;
  match validateRefresh s request now with
  | None => op_fail ErrRefreshInvalid
  | Some normalized =>
      store_op (RequireRetentionSafe rounds s) ;;
      match semanticRefreshDigest request with
      | None => op_fail ErrRefreshInvalid
      | Some requestDigest =>
          outcome ← transact_when rounds snd (fun _ => ErrStoreUnavailable) (fun round =>
            refresh_tx s round draws request normalized requestDigest now);
          let '(result, committed) := (outcome : RefreshResult * bool) in
          if negb committed then mret result else
          store_op (finalizeDeliveryMarkers rounds fuel s) ;;
          op_attempt (RecordAggregate s aggregateEventLeaseRefresh aggregateOutcomeActive 0) ;;
          mret result
      end
  end.

End Operations.
End Refresh.
