(* ===== verification/Policy.v ===== *)
(** * Advancing the policy of an installation

    src/pkg/vault/policy.go: a signed policy control applied to the stored installation: a
    revocation deletes its routes and leaves their fences, a newer activation only blocks the
    routes until a refresh brings fresh capabilities. *)

From S2P Require Import Prelude GoBytes GoTime GoCrypto A9Trust VaultCrypto Gate8Header Topics Interfaces Authority Sql A9Types A9VaultDb A9Vault A9Current Aggregates DeliveryJob DeliveryQueue DeliveryOps DeliveryAttempt Tombstones RouteKeys DeliveryErase Refresh.
Local Open Scope Z_scope.
Local Open Scope go_scope.

(** What the transaction did: an installation that is not stored needs no activation, and a
    repeated control changes nothing; a failed commit of these is returned as it is. *)
Inductive policy_outcome := PolicyUnchanged | PolicyFenced | PolicyAdvanced.

Section Policy.
Context `{HP : Postgres, HG : AesGcm, HJ : JobJson, HT : A9TrustSurface, HE : Ed25519}.

#[local] Abbreviation ts := pg_timestamp.

(** Generation zero is reserved for this fence. *)
Definition revocation_fence (s : Store) (control : PolicyControlV1) (identity incarnationLookup digest : bytes)
    (lookupEpoch now controlExpiresAt : Z) : InstallationRow := {|
  inIdentity := identity; inIncarnationLookup := incarnationLookup; inLookupKeyEpoch := lookupEpoch;
  inGeneration := 0; inIdempotencyDigest := digest; inControlEventDigest := digest; inEncryptedToken := None;
  inAgePolicy := age_id (pcAgePolicy control); inPolicyEpoch := pcPolicyEpoch control; inState := stateRevoking;
  inKeyVersion := krActiveVersion (stEncryption s); inRefreshedAt := ts now;
  inExpiresAt := ts (now + stLeaseTTL s); inControlExpiresAt := ts controlExpiresAt; inRevokedAt := Some (ts now) |}.

Definition insert_installation (lookup : bytes) (row : InstallationRow) (db : VaultDB) : option VaultDB :=
  match dbInstallations db !! lookup with
  | Some _ => None
  | None => upsert_installation lookup row db
  end.

(** A revocation that wins the race with the first registration persists its epoch. *)
Definition fence_unknown (s : Store) (control : PolicyControlV1) (digest : bytes) (now controlExpiresAt : Z)
  : vault_tx () :=
  let lookupEpoch := LookupEpoch now in
  lookup ← known (environmentLookupDigest s (str "installation") lookupEpoch (pcInstallationID control))
    ErrStoreUnavailable;
  incarnationLookup ← known (environmentLookupDigest s (str "incarnation") lookupEpoch
                               (pcAccountIncarnationID control)) ErrStoreUnavailable;
  identity ← known (installationDeletionIdentity s (pcInstallationID control)) ErrStoreUnavailable;
  store_unavailable (exec (insert_installation lookup
    (revocation_fence s control identity incarnationLookup digest lookupEpoch now controlExpiresAt))) ;;
  upsertDeletionTombstone s deletionTargetInstallation identity (krActiveVersion (stEncryption s))
    (pcPolicyEpoch control) now.

(** Retires the key history of a lease and leaves its fence. *)
Definition retire_lease (s : Store) (now : Z) (lease : LeaseRow) : vault_tx () :=
  require ((0 <? lsRouteKeyEpoch lease) && (lsRouteKeyEpoch lease <=? maxRouteKeyEpoch)) ;;
  store_unavailable (retireRouteKeyHistory s (lsRouteIdentity lease) (lsRouteKeyEpoch lease) now) ;;
  upsertDeletionTombstone s deletionTargetRoute (lsRouteIdentity lease) (lsKeyVersion lease)
    (lsRouteKeyEpoch lease) now.

Definition revokeAllLeases (s : Store) (mark : Z) (lookup : bytes) (now : Z) : vault_tx () :=
  store_unavailable (markDeliveryJobsSafetyForInstallationTx mark lookup []) ;;
  leases ← store_unavailable (query (leases_of lookup));
  each_tx (retire_lease s now) leases ;;
  store_unavailable (exec (delete_leases (fun _ lease => beq (lsInstallationLookup lease) lookup))).

Definition revoked_installation (control : PolicyControlV1) (digest : bytes) (now controlExpiresAt : Z)
    (row : InstallationRow) : InstallationRow := {|
  inIdentity := inIdentity row; inIncarnationLookup := inIncarnationLookup row;
  inLookupKeyEpoch := inLookupKeyEpoch row; inGeneration := inGeneration row;
  inIdempotencyDigest := inIdempotencyDigest row; inControlEventDigest := digest; inEncryptedToken := None;
  inAgePolicy := age_id (pcAgePolicy control); inPolicyEpoch := pcPolicyEpoch control;
  inState := stateRevoking; inKeyVersion := inKeyVersion row; inRefreshedAt := ts now;
  inExpiresAt := inExpiresAt row; inControlExpiresAt := ts controlExpiresAt; inRevokedAt := Some (ts now) |}.

Definition awaiting_installation (control : PolicyControlV1) (digest : bytes) (now controlExpiresAt : Z)
    (row : InstallationRow) : InstallationRow := {|
  inIdentity := inIdentity row; inIncarnationLookup := inIncarnationLookup row;
  inLookupKeyEpoch := inLookupKeyEpoch row; inGeneration := inGeneration row;
  inIdempotencyDigest := inIdempotencyDigest row; inControlEventDigest := digest;
  inEncryptedToken := inEncryptedToken row; inAgePolicy := age_id (pcAgePolicy control);
  inPolicyEpoch := pcPolicyEpoch control; inState := stateAwaitingRefresh; inKeyVersion := inKeyVersion row;
  inRefreshedAt := ts now; inExpiresAt := inExpiresAt row; inControlExpiresAt := ts controlExpiresAt;
  inRevokedAt := inRevokedAt row |}.

Definition awaiting_lease (policyEpoch now controlExpiresAt : Z) (row : LeaseRow) : LeaseRow := {|
  lsInstallationLookup := lsInstallationLookup row; lsInstallationIdentity := lsInstallationIdentity row;
  lsRouteIdentity := lsRouteIdentity row; lsTopicLookup := lsTopicLookup row;
  lsLookupKeyEpoch := lsLookupKeyEpoch row; lsEncryptedTopic := lsEncryptedTopic row;
  lsEncryptedRouteKey := lsEncryptedRouteKey row; lsEncryptedHMACKeys := lsEncryptedHMACKeys row;
  lsEncryptedCapability := lsEncryptedCapability row; lsTopicKind := lsTopicKind row;
  lsPushMode := lsPushMode row; lsState := stateAwaitingRefresh; lsGeneration := lsGeneration row;
  lsPolicyEpoch := policyEpoch; lsRouteKeyEpoch := lsRouteKeyEpoch row;
  lsEncryptedNonceState := lsEncryptedNonceState row; lsKeyVersion := lsKeyVersion row;
  lsIssuedAt := lsIssuedAt row; lsRefreshedAt := ts now; lsExpiresAt := lsExpiresAt row;
  lsControlExpiresAt := ts controlExpiresAt; lsRevokedAt := lsRevokedAt row |}.

Definition alter_installation (f : InstallationRow -> InstallationRow) (lookup : bytes) (db : VaultDB) : VaultDB :=
  with_Installations (alter f lookup (dbInstallations db)) db.

Definition alter_leases (f : LeaseRow -> LeaseRow) (lookup : bytes) (db : VaultDB) : VaultDB :=
  with_Leases ((fun lease => if beq (lsInstallationLookup lease) lookup then f lease else lease) <$> dbLeases db) db.

(** A control above the stored epoch. *)
Definition advance (s : Store) (mark : Z) (control : PolicyControlV1) (digest lookup : bytes)
    (existing : InstallationRow) (now controlExpiresAt : Z) : vault_tx policy_outcome :=
  if beq (pcState control) PolicyStateRevoked then
    revokeAllLeases s mark lookup now ;;
    upsertDeletionTombstone s deletionTargetInstallation (inIdentity existing) (inKeyVersion existing)
      (pcPolicyEpoch control) now ;;
    store_unavailable (silently (alter_installation (revoked_installation control digest now controlExpiresAt) lookup)) ;;
    mret PolicyAdvanced
  else if beq (pcState control) PolicyStateActive then
    ensure (negb ((inState existing =? stateRevoking) || (inState existing =? stateExpired))) ErrRefreshConflict ;;
    store_unavailable (silently (alter_installation (awaiting_installation control digest now controlExpiresAt) lookup)) ;;
    store_unavailable (silently (alter_leases (awaiting_lease (pcPolicyEpoch control) now controlExpiresAt) lookup)) ;;
    mret PolicyAdvanced
  else fail_with ErrRefreshInvalid.

(** The state and the digest are read again, under the lock the first read took. *)
Definition policy_tx (s : Store) (round : Round) (control : PolicyControlV1) (digest : bytes)
    (now controlExpiresAt : Z) : vault_tx policy_outcome :=
  store_unavailable (if beq (pcState control) PolicyStateActive
                     then requireRetentionSafeTx s (atHost (rdAttempt round)) else requireLookupKeyBoundTx s) ;;
  found ← findInstallation s (pcInstallationID control) now;
  match (found : option (bytes * InstallationRow)) with
  | None =>
      if beq (pcState control) PolicyStateActive then mret PolicyUnchanged
      else fence_unknown s control digest now controlExpiresAt ;; mret PolicyFenced
  | Some (lookup, existing) =>
      incarnation ← known (environmentLookupDigest s (str "incarnation") (inLookupKeyEpoch existing)
                             (pcAccountIncarnationID control)) ErrStoreUnavailable;
      ensure (beq incarnation (inIncarnationLookup existing)) ErrRefreshConflict ;;
      again ← store_unavailable (query (fun db => dbInstallations db !! lookup));
      match (again : option InstallationRow) with
      | None => fail_with ErrStoreUnavailable
      | Some current =>
          ensure (negb (pcPolicyEpoch control <? inPolicyEpoch existing)) ErrRefreshConflict ;;
          if pcPolicyEpoch control =? inPolicyEpoch existing then
            ensure (equalDigest (inControlEventDigest current) digest) ErrRefreshConflict ;;
            mret PolicyUnchanged
          else advance s (rdJobClock round lookup) control digest lookup current now controlExpiresAt
      end
  end.

Section Operations.
Variable rounds : nat -> Round.
Variable fuel : nat.

Definition policy_commit (outcome : policy_outcome) (e : error) : error :=
  match outcome with PolicyAdvanced => ErrStoreUnavailable | _ => e end.

Definition run_policy (body : Round -> vault_tx policy_outcome) : op policy_outcome := fun '(i, db) =>
  let round := rounds i in
  let '(db', r) := run_tx_by (fun _ => ErrStoreUnavailable) policy_commit (body round) (rdAttempt round)
                     (rdOthers round db) in
  ((S i, db'), r).

Definition AdvancePolicy (s : Store) (control : PolicyControlV1) : op () :=
  now ← host_clock rounds;
  if negb (is_ok (VerifyPolicyControl control (stAuthorityKeys s) {|
        poNow := now; poExpectedEnvironment := stEnvironment s;
        poExpectedInstallationID := pcInstallationID control;
        poExpectedAccountIncarnationID := pcAccountIncarnationID control |} now)) then op_fail ErrRefreshInvalid
  else
    let active := beq (pcState control) PolicyStateActive in
    if active && beq (pcAgePolicy control) AgePolicyTeen && negb (stTeenConversationEnabled s)
    then op_fail ErrRefreshInvalid else
    (if active then store_op (RequireRetentionSafe rounds s) else mret tt) ;;
    match controlDigest control, control_deadline control now with
    | Some digest, Some controlExpiresAt =>
        outcome ← run_policy (fun round => policy_tx s round control digest now controlExpiresAt);
        match (outcome : policy_outcome) with
        | PolicyAdvanced =>
            store_op (finalizeDeliveryMarkers rounds fuel s) ;;
            match parse_rfc3339nano (pcIssuedAt control) with
            | Some issuedAt =>
                op_attempt (RecordAggregate rounds s aggregateEventSafetyControl
                  (if active then aggregateOutcomeActive else aggregateOutcomeRevoked)
                  (revocationLatencyBucket (time_sub now issuedAt)))
            | None => mret tt
            end
        | _ => mret tt
        end
    | _, _ => op_fail ErrRefreshInvalid
    end.

End Operations.
End Policy.
