(* ===== verification/Routing.v ===== *)
(** * Routing a message to its subscriptions

    src/pkg/vault/routing.go and a9_routing.go: the transaction that finds the routes of a
    topic, checks what authorizes each, and allocates the next delivery sequence of its key,
    with the A9 variant that first establishes which routes are current; and the lookup of
    the installations behind the routes. Wiping secrets from memory is not modelled. *)

From S2P Require Import Prelude GoBytes GoTime GoCrypto A9Trust VaultCrypto Gate8Header Topics Interfaces Authority Sql A9Types A9VaultDb A9Vault A9Current Aggregates DeliveryJob DeliveryQueue DeliveryOps DeliveryAttempt Tombstones RouteKeys Refresh.
From stdpp Require Import sorting.
Local Open Scope Z_scope.
Local Open Scope go_scope.

Record routeRow := {
  rwLeaseID : bytes; rwInstallationLookup : bytes; rwEncryptedTopic : bytes; rwEncryptedRouteKey : bytes;
  rwEncryptedHMACKeys : bytes; rwEncryptedCapability : bytes; rwRefreshedAt : Z; rwExpiresAt : Z;
  rwControlExpiresAt : Z; rwPolicyEpoch : Z; rwRouteKeyEpoch : Z; rwEncryptedNonceState : bytes;
  rwAgePolicy : Z; rwInstallationPolicyEpoch : Z; rwInstallationExpiresAt : Z;
  rwInstallationControlExpiry : Z;
}.

(** [uint32(routeKeyEpoch)] wraps. *)
Definition route_row (leaseID : bytes) (lease : LeaseRow) (installation : InstallationRow)
    (installationExpiresAt : Z) : routeRow := {|
  rwLeaseID := leaseID; rwInstallationLookup := lsInstallationLookup lease;
  rwEncryptedTopic := lsEncryptedTopic lease; rwEncryptedRouteKey := lsEncryptedRouteKey lease;
  rwEncryptedHMACKeys := lsEncryptedHMACKeys lease; rwEncryptedCapability := lsEncryptedCapability lease;
  rwRefreshedAt := lsRefreshedAt lease; rwExpiresAt := lsExpiresAt lease;
  rwControlExpiresAt := lsControlExpiresAt lease; rwPolicyEpoch := lsPolicyEpoch lease;
  rwRouteKeyEpoch := lsRouteKeyEpoch lease mod 2 ^ 32; rwEncryptedNonceState := lsEncryptedNonceState lease;
  rwAgePolicy := inAgePolicy installation; rwInstallationPolicyEpoch := inPolicyEpoch installation;
  rwInstallationExpiresAt := installationExpiresAt;
  rwInstallationControlExpiry := inControlExpiresAt installation |}.

(** What the random source, the clocks and the runtime give while routes are prepared: the
    entropy of a sealing (by context), the order in which a map is ranged over, the database
    and host clocks when a candidate is examined, and the database clock before it is
    prepared (by lease). *)
Record RouteDraws := {
  rtSeal : bytes -> SealEntropy; rtVisit : list bytes -> list bytes; rtExamine : bytes -> Z * Z;
  rtPrepare : bytes -> Z;
}.

Definition utc (t : Z) : GoTime := {| gtInstant := t; gtOffset := None |}.

Section Prepare.
Context `{HP : Postgres, HG : AesGcm, HVJ : VaultJson, HX : XmtpTopic, HE : Ed25519}.

#[local] Abbreviation ts := pg_timestamp.

(** ** Preparing a route *)

Definition route_stale (s : Store) (now : Z) (row : routeRow) : bool :=
  negb (rwInstallationPolicyEpoch row =? rwPolicyEpoch row) || negb (before now (rwExpiresAt row)) ||
  negb (before now (rwControlExpiresAt row)) || negb (before now (rwInstallationControlExpiry row)) ||
  ((rwAgePolicy row =? ageTeen) && negb (stTeenConversationEnabled s)).

Definition exact_key (period : Z) (keys : list HMACKeyInput) : option HmacKey :=
  key ← find (fun key => (hiThirtyDayPeriodsSinceEpoch key =? period) && (length (hiKey key) =? 32)%nat) keys;
  Some {| hkThirtyDayPeriodsSinceEpoch := period; hkKey := hiKey key |}.

Definition route_alias (capability : ReceiveCapabilityV1) : option bytes :=
  alias ← b64_decode false (rcRouteAlias capability);
  if (length alias =? RouteAliasSize)%nat then Some alias else None.

(** The key of the lease is used up. *)
Definition block_rekey (row : LeaseRow) : LeaseRow := {|
  lsInstallationLookup := lsInstallationLookup row; lsInstallationIdentity := lsInstallationIdentity row;
  lsRouteIdentity := lsRouteIdentity row; lsTopicLookup := lsTopicLookup row;
  lsLookupKeyEpoch := lsLookupKeyEpoch row; lsEncryptedTopic := lsEncryptedTopic row;
  lsEncryptedRouteKey := lsEncryptedRouteKey row; lsEncryptedHMACKeys := lsEncryptedHMACKeys row;
  lsEncryptedCapability := lsEncryptedCapability row; lsTopicKind := lsTopicKind row;
  lsPushMode := lsPushMode row; lsState := stateBlockedRekeyNeeded; lsGeneration := lsGeneration row;
  lsPolicyEpoch := lsPolicyEpoch row; lsRouteKeyEpoch := lsRouteKeyEpoch row;
  lsEncryptedNonceState := lsEncryptedNonceState row; lsKeyVersion := lsKeyVersion row;
  lsIssuedAt := lsIssuedAt row; lsRefreshedAt := lsRefreshedAt row; lsExpiresAt := lsExpiresAt row;
  lsControlExpiresAt := lsControlExpiresAt row; lsRevokedAt := lsRevokedAt row |}.

Definition with_nonce (encrypted : bytes) (row : LeaseRow) : LeaseRow := {|
  lsInstallationLookup := lsInstallationLookup row; lsInstallationIdentity := lsInstallationIdentity row;
  lsRouteIdentity := lsRouteIdentity row; lsTopicLookup := lsTopicLookup row;
  lsLookupKeyEpoch := lsLookupKeyEpoch row; lsEncryptedTopic := lsEncryptedTopic row;
  lsEncryptedRouteKey := lsEncryptedRouteKey row; lsEncryptedHMACKeys := lsEncryptedHMACKeys row;
  lsEncryptedCapability := lsEncryptedCapability row; lsTopicKind := lsTopicKind row;
  lsPushMode := lsPushMode row; lsState := lsState row; lsGeneration := lsGeneration row;
  lsPolicyEpoch := lsPolicyEpoch row; lsRouteKeyEpoch := lsRouteKeyEpoch row;
  lsEncryptedNonceState := encrypted; lsKeyVersion := lsKeyVersion row;
  lsIssuedAt := lsIssuedAt row; lsRefreshedAt := lsRefreshedAt row; lsExpiresAt := lsExpiresAt row;
  lsControlExpiresAt := lsControlExpiresAt row; lsRevokedAt := lsRevokedAt row |}.

Definition set_nonce (leaseID encrypted : bytes) (db : VaultDB) : VaultDB * bool :=
  match dbLeases db !! leaseID with
  | Some lease =>
      if lsState lease =? stateActive
      then (with_Leases (<[leaseID := with_nonce encrypted lease]> (dbLeases db)) db, true) else (db, false)
  | None => (db, false)
  end.

(** The next sequence of the lease's key, [None] when there is none left. The update that
    blocks the lease is not looked at; a failed one leaves the transaction unusable. *)
Definition allocate (s : Store) (draws : RouteDraws) (row : routeRow) : vault_tx (option nonceState) :=
  let context := leaseContext (rwLeaseID row) (str "nonce-state") in
  encoded ← opened s context (rwEncryptedNonceState row);
  nonce ← known (decodeNonceState encoded) ErrStoreUnavailable;
  if MaxCanonicalInteger <? nsNextSequence nonce then
    store_unavailable (silently (fun db => with_Leases (alter block_rekey (rwLeaseID row) (dbLeases db)) db)) ;;
    mret None
  else
    next ← sealed s (rtSeal draws) context (encodeNonceState {|
             nsPrefix := nsPrefix nonce; nsNextSequence := nsNextSequence nonce + 1 |});
    updated ← affecting (set_nonce (rwLeaseID row) next);
    require updated ;; mret (Some nonce).

Definition prepared_subscription (topic : Topic) (period : Z) (row : routeRow) (routeKey : bytes)
    (exactKey : option HmacKey) (capability : ReceiveCapabilityV1) (capabilityBytes alias : bytes)
    (nonce : nonceState) : Subscription := {|
  suId := 0; suCreatedAt := utc (rwRefreshedAt row); suInstallationId := b64_encode (rwLeaseID row);
  suTopic := TopicToString (Some topic); suTopicV4 := Some topic; suIsActive := true; suIsSilent := false;
  suExpectedHmacKeyPeriod := Some period; suHmacKey := exactKey;
  suSecureRoute := Some {|
    srLeaseID := rwLeaseID row; srRouteKey := routeKey; srRouteKeyEpoch := rwRouteKeyEpoch row;
    srNoncePrefix := nsPrefix nonce; srDeliverySequence := nsNextSequence nonce;
    srAliasDay := rcAliasDay capability; srRouteAlias := alias; srReceiveCapability := capabilityBytes;
    srLeaseExpiresAt := utc (rwExpiresAt row); srControlExpiresAt := utc (rwControlExpiresAt row);
    srPolicyEpoch := rwPolicyEpoch row; srWelcomeAuthorized := false; srWelcomeAuthorizationID := [];
    srWelcomeEnvelopeDigest := []; srA9 := None |} |}.

Definition route_options (s : Store) (topic : Topic) (now : Z) (row : routeRow) : VerifyOptions := {|
  voNow := now; voMaxTTL := if rwAgePolicy row =? ageTeen then 30 * second else minute;
  voExpectedEnvironment := stEnvironment s; voExpectedInstallationID := [];
  voExpectedAccountIncarnationID := [];
  voExpectedTopicDigest := hex_encode (sha256 (topic_bytes topic)) |}.

(** [None]: the route is not prepared. *)
Definition prepareRoute (s : Store) (draws : RouteDraws) (topic : Topic) (period now : Z) (row : routeRow)
  : vault_tx (option Subscription) :=
  let field name value := opened s (leaseContext (rwLeaseID row) (str name)) value in
  if route_stale s now row then mret None else
  rawTopic ← field "topic" (rwEncryptedTopic row);
  require (beq rawTopic (topic_bytes topic)) ;;
  routeKey ← field "route-key" (rwEncryptedRouteKey row);
  require (length routeKey =? 32)%nat ;;
  hmacBytes ← field "hmac-keys" (rwEncryptedHMACKeys row);
  hmacKeys ← known (unmarshal_hmac_keys hmacBytes) ErrStoreUnavailable;
  let exactKey := exact_key period hmacKeys in
  if (topic_kind topic =? TopicKindGroupMessagesV1) && bool_decide (exactKey = None) then mret None else
  capabilityBytes ← field "capability" (rwEncryptedCapability row);
  capability ← known (unmarshal_capability capabilityBytes) ErrStoreUnavailable;
  match VerifyReceiveCapability capability (stAuthorityKeys s) (route_options s topic now row) now with
  | Err Expired => mret None
  | Err _ => fail_with ErrStoreUnavailable
  | Ok _ =>
      if negb (rcPolicyEpoch capability =? rwPolicyEpoch row) ||
         negb (beq (EffectivePushMode capability) PushModeAlertAllowed) ||
         negb (capabilityMatchesRoute capability routeKey rawTopic (stEnvironment s) now)
      then mret None else
      alias ← known (route_alias capability) ErrStoreUnavailable;
      nonce ← allocate s draws row;
      mret (prepared_subscription topic period row routeKey exactKey capability capabilityBytes alias
              <$> (nonce : option nonceState))
  end.

(** ** The routes of a topic *)

Definition routable (lookup : bytes) (epoch now : Z) (lease : LeaseRow) (installation : InstallationRow) : bool :=
  beq (lsTopicLookup lease) lookup && (lsLookupKeyEpoch lease =? epoch) && (lsState lease =? stateActive) &&
  (lsPushMode lease =? pushAlert) && (ts now <? lsExpiresAt lease) && (ts now <? lsControlExpiresAt lease) &&
  (inState installation =? stateActive) && (ts now <? inExpiresAt installation) &&
  (ts now <? inControlExpiresAt installation) && (inPolicyEpoch installation =? lsPolicyEpoch lease).

Definition routable_row (lookup : bytes) (epoch now : Z) (db : VaultDB) (kv : bytes * LeaseRow)
  : option (Z * routeRow) :=
  installation ← dbInstallations db !! lsInstallationLookup kv.2;
  if routable lookup epoch now kv.2 installation
  then Some (lsRouteKeyEpoch kv.2, route_row kv.1 kv.2 installation zero_time) else None.

(** With the key epoch as it is stored. *)
Definition routable_rows (lookup : bytes) (epoch now : Z) (db : VaultDB) : list (Z * routeRow) :=
  omap (routable_row lookup epoch now db) (map_to_list (dbLeases db)).

(** By lease, under the topic's lookups of this and the previous epoch. *)
Fixpoint rows_by_lease (s : Store) (topic : Topic) (now : Z) (epochs : list Z) (out : gmap bytes routeRow)
  : vault_tx (gmap bytes routeRow) :=
  match epochs with
  | [] => mret out
  | epoch :: epochs =>
      lookup ← known (environmentLookupDigest s (str "topic") epoch (topic_bytes topic)) ErrStoreUnavailable;
      rows ← query (routable_rows lookup epoch now);
      require (forallb (fun row => 0 <? row.1) rows) ;;
      rows_by_lease s topic now epochs (fold_left (fun out row => <[rwLeaseID row.2 := row.2]> out) rows out)
  end.

Fixpoint prepare_each (s : Store) (draws : RouteDraws) (topic : Topic) (period now : Z) (rows : list routeRow)
  : vault_tx (list Subscription) :=
  match rows with
  | [] => mret []
  | row :: rows =>
      subscription ← prepareRoute s draws topic period now row;
      rest ← prepare_each s draws topic period now rows;
      mret (option_list subscription ++ rest)
  end.

Definition subscriptions_tx (s : Store) (draws : RouteDraws) (topic : Topic) (period : Z) (host now : Z)
  : vault_tx (list Subscription) :=
  store_unavailable (requireRetentionSafeTx s host) ;;
  rows ← rows_by_lease s topic now (CandidateEpochs now) ∅;
  prepare_each s draws topic period now
    (omap (fun leaseID => (rows : gmap bytes routeRow) !! leaseID)
       (rtVisit draws (fst <$> map_to_list (rows : gmap bytes routeRow)))).

End Prepare.

(** ** Under A9 *)

Section Current.
Context `{HP : Postgres, HG : AesGcm, HVJ : VaultJson, HX : XmtpTopic, HE : Ed25519, HT : A9TrustSurface}.

#[local] Abbreviation ts := pg_timestamp.

Record a9RouteCandidate := { rcLeaseID : bytes; rcSnapshot : A9RouteSnapshot }.

Definition route_snapshot (c : RouteColumns) (assertionExpiresAt : Z) : A9RouteSnapshot := {|
  a9InstallationBindingID := roInstallation c; a9SequencerEpoch := roEpoch c;
  a9SubscriptionGeneration := roGeneration c; a9BindingID := roBinding c; a9BindingVersion := roVersion c;
  a9AssertionHash := acAssertionHash (roActive c); a9AssertionStreamSequence := acStreamSequence (roActive c);
  a9AssertionExpiresAt := utc assertionExpiresAt; a9TopicKeyEpoch := acTopicKeyEpoch (roActive c);
  a9TopicBinding := acTopicBinding (roActive c); a9RouteKeyEpoch := roRouteKeyEpoch c;
  a9KeysetSequence := acKeysetSequence (roActive c); a9KeysetHash := acKeysetHash (roActive c);
  a9WatermarkSequence := roWatermarkSequence c |}.

(** The routes under one topic binding, with the expiry of their assertion. *)
Definition bound_route (lookup : Z * bytes) (db : VaultDB) (kv : bytes * RouteRow)
  : option (bytes * RouteColumns * Z) :=
  let columns := roColumns kv.2 in
  if (acTopicKeyEpoch (roActive columns) =? lookup.1) && beq (acTopicBinding (roActive columns)) lookup.2 then
    assertion ← dbAssertions db !! acAssertionHash (roActive columns);
    Some (kv.1, columns, vaExpiresAt assertion)
  else None.

Definition bound_routes (lookup : Z * bytes) (db : VaultDB) : list (bytes * RouteColumns * Z) :=
  omap (bound_route lookup db) (map_to_list (dbRoutes db)).

Definition candidate_of (lookup : Z * bytes) (row : bytes * RouteColumns * Z) : option a9RouteCandidate :=
  let '(leaseID, columns, expiresAt) := row in
  let snapshot := route_snapshot columns expiresAt in
  if (length leaseID =? 16)%nat && columns_complete columns && (a9TopicKeyEpoch snapshot =? lookup.1) &&
     beq (a9TopicBinding snapshot) lookup.2 && validA9RouteSnapshot snapshot (a9RouteKeyEpoch snapshot) zero_time
  then Some {| rcLeaseID := leaseID; rcSnapshot := snapshot |} else None.

(** The candidates of one lookup after those found before; a lease comes once. *)
Fixpoint add_candidates (lookup : Z * bytes) (rows : list (bytes * RouteColumns * Z))
    (out : list a9RouteCandidate) : option (list a9RouteCandidate) :=
  match rows with
  | [] => Some out
  | row :: rows =>
      candidate ← candidate_of lookup row;
      if bool_decide (rcLeaseID candidate ∈ (rcLeaseID <$> out)) then None
      else add_candidates lookup rows (out ++ [candidate])
  end.

Fixpoint discover (lookups seen : list (Z * bytes)) (out : list a9RouteCandidate)
  : vault_tx (list a9RouteCandidate) :=
  match lookups with
  | [] => mret out
  | lookup :: lookups =>
      require (negb (lookup.1 =? 0) && bool_decide (lookup ∉ seen)) ;;
      rows ← query (bound_routes lookup);
      out ← known (add_candidates lookup rows out) ErrStoreUnavailable;
      discover lookups (lookup :: seen) out
  end.

(** By installation, then binding, then lease. *)
Definition candidate_lt (left right : a9RouteCandidate) : bool :=
  let l := rcSnapshot left in
  let r := rcSnapshot right in
  if negb (beq (a9InstallationBindingID l) (a9InstallationBindingID r))
  then bytes_lt (a9InstallationBindingID l) (a9InstallationBindingID r)
  else if negb (beq (a9BindingID l) (a9BindingID r)) then bytes_lt (a9BindingID l) (a9BindingID r)
  else bytes_lt (rcLeaseID left) (rcLeaseID right).

Definition candidate_le (left right : a9RouteCandidate) : Prop := candidate_lt right left = false.

#[export] Instance candidate_le_dec : RelDecision candidate_le.
Proof. intros a b. unfold candidate_le. apply _. Defined.

Definition discoverA9RouteCandidatesTx (s : Store) (lookups : list (Z * bytes))
  : vault_tx (list a9RouteCandidate) :=
  require (stA9Enabled s && negb (length lookups =? 0)%nat && (length lookups <=? 2)%nat) ;;
  candidates ← discover lookups [] [];
  mret (merge_sort candidate_le candidates).

Definition active_installation (identity : bytes) (now : Z) (db : VaultDB) : option (bytes * InstallationRow) :=
  find (fun kv => beq (inIdentity kv.2) identity && (inState kv.2 =? stateActive) &&
                  (ts now <? inExpiresAt kv.2) && (ts now <? inControlExpiresAt kv.2))
    (map_to_list (dbInstallations db)).

Definition active_lease (leaseID lookup identity : bytes) (policyEpoch now : Z) (db : VaultDB)
  : option LeaseRow :=
  lease ← dbLeases db !! leaseID;
  if beq (lsInstallationLookup lease) lookup && beq (lsInstallationIdentity lease) identity &&
     (lsState lease =? stateActive) && (lsTopicKind lease =? topicConversation) &&
     (lsPushMode lease =? pushAlert) && (ts now <? lsExpiresAt lease) && (ts now <? lsControlExpiresAt lease) &&
     (lsPolicyEpoch lease =? policyEpoch)
  then Some lease else None.

Definition loadA9Gate6RouteTx (leaseID identity : bytes) (now : Z) : vault_tx (option routeRow) :=
  require ((length leaseID =? 16)%nat && (length identity =? 32)%nat && negb (is_zero now)) ;;
  or_stop (query (active_installation identity now)) (fun '(lookup, installation) =>
  require ((length lookup =? 32)%nat && (0 <? inPolicyEpoch installation) &&
           (inPolicyEpoch installation <=? a9MaxSafeInteger)) ;;
  or_stop (query (active_lease leaseID lookup identity (inPolicyEpoch installation) now)) (fun lease =>
  require ((0 <? lsRouteKeyEpoch lease) && (lsRouteKeyEpoch lease <=? max_u32)) ;;
  mret (Some (route_row leaseID lease installation (inExpiresAt installation))))).

Definition a9Gate6RouteExpiresAt (row : routeRow) : Z :=
  fold_left (fun result candidate => if is_zero result || before candidate result then candidate else result)
    [rwControlExpiresAt row; rwInstallationExpiresAt row; rwInstallationControlExpiry row] (rwExpiresAt row).

Definition at_clocks (clocks : Z * Z) (att : Attempt) : Attempt := {|
  atNow := clocks.1; atHost := clocks.2; atBegin := atBegin att; atStatements := atStatements att;
  atCommit := atCommit att |}.

(** One candidate: [Some] when its route is current and its topic binding is the topic's. *)
Definition examine (s : Store) (att : Attempt) (draws : RouteDraws) (lease : TopicLease) (topic : Topic)
    (now : Z) (candidate : a9RouteCandidate) : vault_tx (option (a9RouteCandidate * a9CurrentRouteState)) :=
  or_stop (requireA9CurrentRouteTx s (at_clocks (rtExamine draws (rcLeaseID candidate)) att)
             (rcLeaseID candidate) (Some (rcSnapshot candidate))) (fun state =>
  require (a9TrustClockAligned now (csDatabaseNow state)) ;;
  let snapshot := rcSnapshot candidate in
  let '(recomputed, verdict) := TopicBindingForEpoch lease (topic_bytes topic) (a9TopicKeyEpoch snapshot) now
                                  (gtInstant (a9AssertionExpiresAt snapshot)) true in
  if IsEligible verdict && EqualBinding recomputed (a9TopicBinding snapshot) then mret (Some (candidate, state))
  else require (IsEligible verdict || negb (String.eqb (Terminal verdict) "INCONCLUSIVE")) ;; mret None).

Fixpoint examine_each (s : Store) (att : Attempt) (draws : RouteDraws) (lease : TopicLease) (topic : Topic)
    (now : Z) (candidates : list a9RouteCandidate) : vault_tx (list (a9RouteCandidate * a9CurrentRouteState)) :=
  match candidates with
  | [] => mret []
  | candidate :: candidates =>
      staged ← examine s att draws lease topic now candidate;
      rest ← examine_each s att draws lease topic now candidates;
      mret (option_list staged ++ rest)
  end.

Definition with_snapshot (snapshot : A9RouteSnapshot) (route : SecureRoute) : SecureRoute := {|
  srLeaseID := srLeaseID route; srRouteKey := srRouteKey route; srRouteKeyEpoch := srRouteKeyEpoch route;
  srNoncePrefix := srNoncePrefix route; srDeliverySequence := srDeliverySequence route;
  srAliasDay := srAliasDay route; srRouteAlias := srRouteAlias route;
  srReceiveCapability := srReceiveCapability route; srLeaseExpiresAt := srLeaseExpiresAt route;
  srControlExpiresAt := srControlExpiresAt route; srPolicyEpoch := srPolicyEpoch route;
  srWelcomeAuthorized := srWelcomeAuthorized route;
  srWelcomeAuthorizationID := srWelcomeAuthorizationID route;
  srWelcomeEnvelopeDigest := srWelcomeEnvelopeDigest route; srA9 := Some snapshot |}.

Definition under_snapshot (snapshot : A9RouteSnapshot) (sub : Subscription) : Subscription := {|
  suId := suId sub; suCreatedAt := suCreatedAt sub; suInstallationId := suInstallationId sub;
  suTopic := suTopic sub; suTopicV4 := suTopicV4 sub; suIsActive := suIsActive sub;
  suIsSilent := suIsSilent sub; suExpectedHmacKeyPeriod := suExpectedHmacKeyPeriod sub;
  suHmacKey := suHmacKey sub; suSecureRoute := with_snapshot snapshot <$> suSecureRoute sub |}.

Record a9PreparedRouteCurrentness := {
  pcSnapshot : A9RouteSnapshot; pcRouteState : a9CurrentRouteState; pcGate6ExpiresAt : Z }.

(** A current candidate, prepared at the database's clock. *)
Definition prepare_current (s : Store) (draws : RouteDraws) (topic : Topic) (period now : Z)
    (staged : a9RouteCandidate * a9CurrentRouteState) : vault_tx (option (Subscription * a9PreparedRouteCurrentness)) :=
  let '(candidate, state) := staged in
  databaseNow ← query (fun _ => rtPrepare draws (rcLeaseID candidate));
  require (a9TrustClockAligned now databaseNow && before databaseNow (authorityExpiresAt state)) ;;
  or_stop (loadA9Gate6RouteTx (rcLeaseID candidate) (csInstallationIdentity state) databaseNow) (fun row =>
  require (rwRouteKeyEpoch row =? a9RouteKeyEpoch (rcSnapshot candidate)) ;;
  or_stop (prepareRoute s draws topic period databaseNow row) (fun sub =>
  require (bool_decide (is_Some (suSecureRoute sub))) ;;
  mret (Some (under_snapshot (rcSnapshot candidate) sub,
              {| pcSnapshot := rcSnapshot candidate; pcRouteState := state;
                 pcGate6ExpiresAt := a9Gate6RouteExpiresAt row |})))).

Fixpoint prepare_currents (s : Store) (draws : RouteDraws) (topic : Topic) (period now : Z)
    (staged : list (a9RouteCandidate * a9CurrentRouteState))
  : vault_tx (list (Subscription * a9PreparedRouteCurrentness)) :=
  match staged with
  | [] => mret []
  | one :: staged =>
      prepared ← prepare_current s draws topic period now one;
      rest ← prepare_currents s draws topic period now staged;
      mret (option_list prepared ++ rest)
  end.

Definition still_prepared (now finalHost finalNow : Z) (prepared : a9PreparedRouteCurrentness) : bool :=
  match a9RouteStillCurrentAt now finalHost finalNow (pcRouteState prepared) (Some (pcSnapshot prepared)) with
  | Some reference => before reference (pcGate6ExpiresAt prepared)
  | None => false
  end.

Definition require_still_prepared (round : Round) (now : Z) (prepared : list a9PreparedRouteCurrentness)
  : vault_tx () :=
  match prepared with
  | [] => mret tt
  | _ => finalNow ← query (fun _ => rdLaterNow round);
         require (forallb (still_prepared now (rdLaterHost round) finalNow) prepared)
  end.

Definition current_subscriptions_tx (s : Store) (round : Round) (draws : RouteDraws) (topic : Topic)
    (period now keysetSequence : Z) (keysetHash : bytes) (lease : TopicLease) (lookups : list (Z * bytes))
  : vault_tx (list Subscription) :=
  let att := rdAttempt round in
  current ← lockA9CurrentKeysetReceiptTx (atNow att) keysetSequence keysetHash;
  match (current : option (Z * Z * Z)) with
  | None => fail_with ErrStoreUnavailable
  | Some (databaseNow, _, _) =>
      require (a9TrustClockAligned now databaseNow) ;;
      store_unavailable (requireRetentionSafeTx s (atHost att)) ;;
      candidates ← discoverA9RouteCandidatesTx s lookups;
      staged ← examine_each s att draws lease topic now candidates;
      prepared ← prepare_currents s draws topic period now staged;
      require_still_prepared round now (snd <$> (prepared : list (Subscription * a9PreparedRouteCurrentness))) ;;
      mret (fst <$> prepared)
  end.

(** The candidates are for the current epoch and then the one before. *)
Fixpoint candidate_epochs_ok (currentEpoch : Z) (first : bool) (candidates : list (Z * bytes)) : bool :=
  match candidates with
  | [] => true
  | (epoch, _) :: candidates =>
      let expected := if negb first && (0 <? currentEpoch) then currentEpoch - 1 else currentEpoch in
      negb (epoch =? 0) && (epoch =? expected) && candidate_epochs_ok currentEpoch false candidates
  end.

(** ** Operations *)

Section Operations.
Variable rounds : nat -> Round.
Variable draws : nat -> RouteDraws.

(** The random source is read anew in each transaction. *)
Definition drawing {A : Type} (k : RouteDraws -> op A) : op A := fun st => k (draws st.1) st.

Definition getSubscriptionsA9WithLease (s : Store) (topic : Topic) (period now keysetSequence : Z)
    (keysetHash : bytes) (lease : TopicLease) (lookups : list (Z * bytes)) : op (list Subscription) :=
  if negb (stA9Enabled s) || (period <? 0) || is_zero now || (keysetSequence =? 0) ||
     (length lookups =? 0)%nat || (2 <? length lookups)%nat
  then op_fail ErrStoreUnavailable else
  drawing (fun draws => transact rounds storeDatabaseError (fun round =>
    current_subscriptions_tx s round draws topic period now keysetSequence keysetHash lease lookups)).

Definition getSubscriptionsA9Once (s : Store) (topic : Topic) (period : Z) : op (list Subscription) :=
  if negb (stA9Enabled s) || negb (topic_kind topic =? TopicKindGroupMessagesV1) ||
     negb (length (topic_bytes topic) =? 33)%nat || (period <? 0) then op_fail ErrRefreshInvalid else
  now ← host_clock rounds;
  match AcquireCurrentTopicBindingLease now with
  | None => op_fail ErrStoreUnavailable
  | Some (lease, keysetSequence, keysetHash) =>
      if keysetSequence =? 0 then op_fail ErrStoreUnavailable else
      let '(candidates, verdict) := CandidateTopicBindings lease (topic_bytes topic) now in
      if negb (IsEligible verdict) || (length candidates =? 0)%nat || (2 <? length candidates)%nat ||
         negb (candidate_epochs_ok (TopicEpoch now) true candidates)
      then op_fail ErrStoreUnavailable
      else getSubscriptionsA9WithLease s topic period now keysetSequence keysetHash lease candidates
  end.

Definition getSubscriptionsOnce (s : Store) (topic : Topic) (period : Z) : op (list Subscription) :=
  if period <? 0 then op_fail ErrRefreshInvalid else
  if stA9Enabled s then getSubscriptionsA9Once s topic period else
  store_op (RequireRetentionSafe rounds s) ;;
  now ← host_clock rounds;
  drawing (fun draws => transact rounds storeDatabaseError (fun round =>
    subscriptions_tx s draws topic period (atHost (rdAttempt round)) now)).

(** At most three tries, only after serialization failures. *)
Fixpoint subscription_retries (n : nat) (s : Store) (topic : Topic) (period : Z) : op (list Subscription) :=
  fun st =>
  match n with
  | O => (st, Err ErrStoreUnavailable)
  | S n =>
      match getSubscriptionsOnce s topic period st with
      | (st', Err e) =>
          if negb (isSerializationFailure e) then (st', Err e)
          else if rdCancelled (rounds st'.1) then (st', Err ErrStoreUnavailable)
          else subscription_retries n s topic period st'
      | r => r
      end
  end.

Definition GetSubscriptions : Store -> Topic -> Z -> op (list Subscription) := subscription_retries 3.

End Operations.
End Current.

(** ** The installations behind the routes *)

Section Installations.
Context `{HP : Postgres, HG : AesGcm, HJ : JobJson, HT : A9TrustSurface}.

#[local] Abbreviation ts := pg_timestamp.

Definition installation_of_lease (leaseID : bytes) (now : Z) (db : VaultDB) : option (bytes * InstallationRow) :=
  lease ← dbLeases db !! leaseID;
  installation ← dbInstallations db !! lsInstallationLookup lease;
  if (lsState lease =? stateActive) && (ts now <? lsExpiresAt lease) && (ts now <? lsControlExpiresAt lease) &&
     (inState installation =? stateActive) && (ts now <? inExpiresAt installation) &&
     (ts now <? inControlExpiresAt installation) && (inPolicyEpoch installation =? lsPolicyEpoch lease)
  then Some (lsInstallationLookup lease, installation) else None.

Definition apns_installation (opaqueLeaseID token : bytes) (refreshedAt : Z) : Installation := {|
  inId := opaqueLeaseID;
  inDeliveryMechanism := {| dmKind := APNS; dmToken := hex_encode token; dmUpdatedAt := utc refreshedAt;
                            dmRegistrationVersion := 0 |};
  inPayloadFormat := PayloadFormatV3 |}.

(** The transaction is read committed: [gaps] is what others committed before each query. *)
Fixpoint installations_tx (s : Store) (gaps : bytes -> VaultDB -> VaultDB) (now : Z) (opaqueLeaseIDs : list bytes)
  : vault_tx (list Installation) :=
  match opaqueLeaseIDs with
  | [] => mret []
  | opaque :: opaqueLeaseIDs =>
      leaseID ← known (b64_decode false opaque) ErrStoreUnavailable;
      require (length leaseID =? 16)%nat ;;
      found ← store_unavailable (query (fun db => installation_of_lease leaseID now (gaps leaseID db)));
      match (found : option (bytes * InstallationRow)) with
      | None => installations_tx s gaps now opaqueLeaseIDs
      | Some (lookup, row) =>
          token ← opened s (installationContext lookup (str "apns-token")) (default [] (inEncryptedToken row));
          rest ← installations_tx s gaps now opaqueLeaseIDs;
          mret (apns_installation opaque token (inRefreshedAt row) :: rest)
      end
  end.

Definition GetInstallations (rounds : nat -> Round) (gaps : bytes -> VaultDB -> VaultDB) (s : Store)
    (opaqueLeaseIDs : list bytes) : op (list Installation) :=
  if (length opaqueLeaseIDs =? 0)%nat then mret [] else
  store_op (RequireRetentionSafe rounds s) ;;
  now ← host_clock rounds;
  transact rounds (fun _ => ErrStoreUnavailable) (fun round =>
    store_unavailable (requireRetentionSafeTx s (atHost (rdAttempt round))) ;;
    installations_tx s gaps now opaqueLeaseIDs).

End Installations.
