(* ===== verification/Retention.v ===== *)
(** * Retention

    src/pkg/vault/retention.go: the sweep that fences and removes what has expired, the health
    it publishes, and the worker that keeps it current. The sweep marks retention unsafe
    before it removes anything. The purge of the access audit is the database function of
    migration 00009, which reads the database clock. *)

From S2P Require Import Prelude GoBytes GoTime GoCrypto VaultCrypto Gate8Header Interfaces Sql A9Types A9VaultDb A9Vault Aggregates DeliveryJob DeliveryQueue DeliveryOps Tombstones RouteKeys Refresh.
Local Open Scope Z_scope.
Local Open Scope go_scope.

Definition defaultRetentionSweepInterval : Z := 15 * minute.
Definition maxRetentionSweepInterval : Z := hour.
Definition defaultRetentionRetryInitial : Z := 250 * 1000000.
Definition defaultRetentionRetryMaximum : Z := 30 * second.
Definition retentionDeadlineMargin : Z := 30 * second.
Definition retentionOutcomeUnsafe : Z := 1.

Record RetentionOptions := {
  roSweepInterval : Z; roEnvironment : bytes; roLookupRoot : bytes; roKeyVersion : Z }.

Record RetentionSweeper := {
  swInterval : Z; swEnvironmentID : Z; swLookupRoot : bytes; swKeyVersion : Z; swRetryInitial : Z;
  swRetryMaximum : Z }.

Record RetentionResult := { rrCompletedAt : Z; rrNextDueAt : Z }.

Record RetentionHealth := {
  hlSafe : bool; hlLastStartedAt : option Z; hlLastCompletedAt : option Z; hlNextDeadlineAt : option Z;
  hlFixedOutcome : Z }.

Definition NewRetentionSweeper (options : RetentionOptions) : result error RetentionSweeper :=
  match encodeEnvironment (roEnvironment options) with
  | None => Err ErrRetentionInvalid
  | Some environmentID =>
      reject roKeyVersion options =? 0 with ErrRetentionInvalid;;
      let interval := if roSweepInterval options =? 0 then defaultRetentionSweepInterval
                      else roSweepInterval options in
      reject (interval <? minute) || (maxRetentionSweepInterval <? interval) with ErrRetentionInvalid;;
      Ok {| swInterval := interval; swEnvironmentID := environmentID; swLookupRoot := roLookupRoot options;
            swKeyVersion := roKeyVersion options; swRetryInitial := defaultRetentionRetryInitial;
            swRetryMaximum := defaultRetentionRetryMaximum |}
  end.

(** ** The worker *)

Definition delayUntilNextSweep (sw : RetentionSweeper) (now deadline : Z) : Z :=
  let maximumMargin := swInterval sw ÷ 2 in
  let margin := if maximumMargin <? retentionDeadlineMargin then maximumMargin else retentionDeadlineMargin in
  let delay := time_sub deadline now - margin in
  if delay <? 0 then 0 else delay.

Definition initialRetryDelay (sw : RetentionSweeper) : Z :=
  if swRetryInitial sw <=? 0 then defaultRetentionRetryInitial else swRetryInitial sw.

Definition maximumRetryDelay (sw : RetentionSweeper) : Z :=
  if swRetryMaximum sw <? initialRetryDelay sw then initialRetryDelay sw else swRetryMaximum sw.

Definition nextRetentionRetry (current maximum : Z) : Z :=
  if (maximum <=? current) || (maximum ÷ 2 <? current) then maximum else current * 2.

(** [None] of the health is a failed read of it. *)
Definition sharedHealthyDelay (sw : RetentionSweeper) (now : Z) (health : option RetentionHealth) : option Z :=
  health ← health;
  deadline ← hlNextDeadlineAt health;
  if hlSafe health then Some (delayUntilNextSweep sw now deadline) else None.

(** What one turn of the worker meets: whether its wait ended normally, the shared health and
    the clock before the sweep, the sweep, whether the context ended, and then the clock and
    the shared health again. *)
Record Turn := {
  tnWaited : bool; tnHealth : option RetentionHealth; tnHealthNow : Z; tnSweep : result error RetentionResult;
  tnCancelled : bool; tnSweepNow : Z; tnAfter : option RetentionHealth; tnAfterNow : Z }.

Definition backed_off (sw : RetentionSweeper) (retryDelay : Z) : Z * Z :=
  (retryDelay, nextRetentionRetry retryDelay (maximumRetryDelay sw)).

(** The delay before the next turn and the retry delay; [None]: [Run] returns. *)
Definition run_turn (sw : RetentionSweeper) (turn : Turn) (delays : Z * Z) : option (Z * Z) :=
  let retryDelay := delays.2 in
  if negb (tnWaited turn) then None else
  let shared := sharedHealthyDelay sw (tnHealthNow turn) (tnHealth turn) in
  if match shared with Some delay => 0 <? delay | None => false end
  then Some (default 0 shared, initialRetryDelay sw)
  else if tnCancelled turn then None
  else match tnSweep turn with
       | Ok result => Some (delayUntilNextSweep sw (tnSweepNow turn) (rrNextDueAt result), initialRetryDelay sw)
       | Err ErrRetentionBusy =>
           match sharedHealthyDelay sw (tnAfterNow turn) (tnAfter turn) with
           | Some delay => Some (if 0 <? delay then (delay, initialRetryDelay sw) else backed_off sw retryDelay)
           | None => Some (backed_off sw retryDelay)
           end
       | Err _ => Some (backed_off sw retryDelay)
       end.

Definition run_start (sw : RetentionSweeper) (now : Z) (health : option RetentionHealth) : Z * Z :=
  (default 0 (sharedHealthyDelay sw now health), initialRetryDelay sw).

Inductive readiness := Ready_ | NotReady | Waiting (retryDelay : Z).

(** One turn of [EnsureReady]; [tnWaited] is the wait at its end. *)
Definition ready_turn (sw : RetentionSweeper) (turn : Turn) (retryDelay : Z) : readiness :=
  if bool_decide (is_Some (sharedHealthyDelay sw (tnHealthNow turn) (tnHealth turn))) then Ready_ else
  match tnSweep turn with
  | Ok _ => Ready_
  | Err e =>
      if bool_decide (e = ErrRetentionBusy) &&
         bool_decide (is_Some (sharedHealthyDelay sw (tnAfterNow turn) (tnAfter turn))) then Ready_
      else if tnCancelled turn || negb (tnWaited turn) then NotReady
      else Waiting (nextRetentionRetry retryDelay (maximumRetryDelay sw))
  end.

(** ** Rows past their time *)

Definition retention {A : Type} (m : vault_tx A) : vault_tx A := mapped (fun _ => ErrRetentionUnavailable) m.

(** The sweep's environment and lookup key as a store: the one it finalizes jobs with, which
    has no keys and needs none. *)
Definition finalizer (sw : RetentionSweeper) : Store := {|
  stEnvironment := []; stEnvironmentID := swEnvironmentID sw; stLookupRoot := swLookupRoot sw;
  stA9Enabled := false; stEncryption := {| krActiveVersion := 0; krKeys := ∅ |};
  stTeenConversationEnabled := false; stAuthorityKeys := ∅; stLeaseTTL := 0 |}.

Section Retention.
Context `{HP : Postgres, HG : AesGcm, HJ : JobJson, HT : A9TrustSurface}.

#[local] Abbreviation ts := pg_timestamp.

Definition lease_expired (now : Z) (lease : LeaseRow) : bool := lsExpiresAt lease <=? ts now.
Definition installation_expired (now : Z) (row : InstallationRow) : bool := inExpiresAt row <=? ts now.

Definition rows_where {V : Type} (p : V -> bool) (m : gmap bytes V) : list V :=
  snd <$> List.filter (fun kv => p kv.2) (map_to_list m).

Definition tombstone_lease (sw : RetentionSweeper) (now : Z) (lease : LeaseRow) : vault_tx () :=
  require ((length (lsRouteIdentity lease) =? 32)%nat && (0 <? lsRouteKeyEpoch lease) &&
           (lsRouteKeyEpoch lease <=? maxRouteKeyEpoch) && (0 <? lsKeyVersion lease) &&
           (lsKeyVersion lease <=? maxDeletionTombstoneKeyVersion)) ;;
  retireRouteKeyHistory (finalizer sw) (lsRouteIdentity lease) (lsRouteKeyEpoch lease) now ;;
  upsertDeletionTombstone (finalizer sw) deletionTargetRoute (lsRouteIdentity lease) (lsKeyVersion lease)
    (lsRouteKeyEpoch lease) now.

Definition tombstoneExpiredLeases (sw : RetentionSweeper) (now : Z) : vault_tx () :=
  leases ← retention (query (fun db => rows_where (lease_expired now) (dbLeases db)));
  each_tx (fun lease => retention (tombstone_lease sw now lease)) leases.

Definition tombstone_installation (sw : RetentionSweeper) (now : Z) (row : InstallationRow) : vault_tx () :=
  require ((length (inIdentity row) =? 32)%nat && (0 <? inPolicyEpoch row) &&
           (inPolicyEpoch row <=? maxInstallationTombstoneFenceEpoch) && (0 <? inKeyVersion row) &&
           (inKeyVersion row <=? maxDeletionTombstoneKeyVersion)) ;;
  upsertDeletionTombstone (finalizer sw) deletionTargetInstallation (inIdentity row) (inKeyVersion row)
    (inPolicyEpoch row) now.

Definition tombstoneExpiredInstallations (sw : RetentionSweeper) (now : Z) : vault_tx () :=
  rows ← retention (query (fun db => rows_where (installation_expired now) (dbInstallations db)));
  each_tx (fun row => retention (tombstone_installation sw now row)) rows.

Definition markExpiringAuthorityDeliveryJobs (round : Round) (now : Z) : vault_tx () :=
  leaseIDs ← retention (query (fun db => keys_where (lease_expired now) (dbLeases db)));
  each_tx (fun leaseID => retention (markDeliveryJobsSafetyForLeaseTx (rdJobClock round leaseID) leaseID)) leaseIDs ;;
  lookups ← retention (query (fun db => keys_where (installation_expired now) (dbInstallations db)));
  each_tx (fun lookup =>
    retention (markDeliveryJobsSafetyForInstallationTx (rdJobClock round lookup) lookup [])) lookups.

Definition drop_expired_history (now : Z) (db : VaultDB) : VaultDB :=
  with_History (filter (fun kv => (rhExpiresAt kv.2 <=? ts now) = false) (dbHistory db)) db.

Definition drop_expired_welcome_authorizations (now : Z) (db : VaultDB) : VaultDB :=
  with_WelcomeAuthorizations
    (filter (fun kv => (waExpiresAt kv.2 <=? ts now) = false) (dbWelcomeAuthorizations db)) db.

Definition drop_expired_welcome_budgets (now : Z) (db : VaultDB) : VaultDB :=
  with_WelcomeBudgets (filter (fun kv => (wbExpiresAt kv.2 <=? ts now) = false) (dbWelcomeBudgets db)) db.

Definition aggregate_expired (now : Z) (key : Z * Z * Z * Z * Z) (row : AggregateRow) : bool :=
  (agExpiresOn row <=? now / day) || (key.1.1.1.1 <=? now / day - 30).

Definition drop_expired_aggregates (now : Z) (db : VaultDB) : VaultDB :=
  with_Aggregates (filter (fun kv => aggregate_expired now kv.1 kv.2 = false) (dbAggregates db)) db.

(** [purge_expired_access_audit_development] and its twin, at the database clock. *)
Definition purge_expired_access_audit (clock : Z) (db : VaultDB) : VaultDB :=
  with_AccessAudit (filter (fun kv => (aaExpiresOn kv.2 <=? clock / day) = false) (dbAccessAudit db)) db.

Definition audited (db : VaultDB) (request : bytes) : bool :=
  negb (all_rows (fun _ audit => negb (beq (aaRequestID audit) request)) (dbAccessAudit db)).

(** Requests of half a year ago that no audit row refers to any more. *)
Definition access_request_expired (now : Z) (db : VaultDB) (request : bytes) (row : AccessRequestRow) : bool :=
  (arCoarseCreatedHour row <=? ts now - 180 * day) && negb (audited db request).

Definition drop_expired_access_requests (now : Z) (db : VaultDB) : VaultDB :=
  with_AccessRequests
    (filter (fun kv => access_request_expired now db kv.1 kv.2 = false) (dbAccessRequests db)) db.

(** The deletions, in order; then the access audit, whose purge depends on the environment
    (the number of rows it returns is never negative), and the requests left without audit. *)
Definition delete_expired (sw : RetentionSweeper) (round : Round) (now : Z) : vault_tx () :=
  retention (silently (drop_expired_dedupes now)) ;;
  retention (silently (drop_expired_history now)) ;;
  retention (silently (drop_expired_welcome_authorizations now)) ;;
  retention (silently (drop_expired_welcome_budgets now)) ;;
  retention (exec (delete_leases (fun _ => lease_expired now))) ;;
  retention (exec (delete_installations (installation_expired now))) ;;
  retention (silently (drop_expired_deletions now)) ;;
  retention (silently (drop_expired_aggregates now)) ;;
  ensure (valid_environment (finalizer sw)) ErrRetentionUnavailable ;;
  retention (silently (purge_expired_access_audit (rdLaterNow round))) ;;
  retention (silently (drop_expired_access_requests now)).

Definition deleteExpiredVaultRows (sw : RetentionSweeper) (round : Round) (now : Z) : vault_tx () :=
  tombstoneExpiredLeases sw now ;;
  tombstoneExpiredInstallations sw now ;;
  retention (markExpiredDeliveryJobsTx now) ;;
  markExpiringAuthorityDeliveryJobs round now ;;
  retention (completeDeliveryMarkersTx (finalizer sw) round) ;;
  delete_expired sw round now.

(** ** The sweep *)

Definition started (now : Z) (row : RetentionRow) : RetentionRow := {|
  rsLastStartedAt := Some (ts now); rsLastCompletedAt := rsLastCompletedAt row;
  rsNextDeadlineAt := rsNextDeadlineAt row; rsIsSafe := false; rsFixedOutcome := retentionOutcomeUnsafe |}.

Definition completed (completedAt nextDeadlineAt : Z) (safe : bool) (row : RetentionRow) : RetentionRow := {|
  rsLastStartedAt := rsLastStartedAt row; rsLastCompletedAt := Some (ts completedAt);
  rsNextDeadlineAt := Some (ts nextDeadlineAt); rsIsSafe := safe;
  rsFixedOutcome := if safe then retentionOutcomeComplete else retentionOutcomeUnsafe |}.

(** [UPDATE retention_state]; no row is an error. *)
Definition update_retention (f : RetentionRow -> RetentionRow) : vault_tx () :=
  affected ← retention (affecting (fun db =>
    (with_Retention (f <$> dbRetention db) db, bool_decide (is_Some (dbRetention db)))));
  ensure affected ErrRetentionUnavailable.

(** One connection: the advisory lock, and the update that commits by itself. *)
Definition start_tx (locked : bool) (round : Round) : vault_tx () :=
  free ← retention (query (fun _ => locked));
  ensure free ErrRetentionBusy ;;
  update_retention (started (atHost (rdAttempt round))).

(** [None]: an erasure is overdue, retention stays unsafe. *)
Definition sweep_tx (sw : RetentionSweeper) (round : Round) (startedAt : Z) : vault_tx (option RetentionResult) :=
  retention (requireLookupKeyBoundTx (finalizer sw)) ;;
  deleteExpiredVaultRows sw round startedAt ;;
  let completedAt := rdLaterHost round in
  let nextDeadlineAt := completedAt + swInterval sw in
  overdue ← retention (query (overdue_erasure completedAt));
  update_retention (completed completedAt nextDeadlineAt (negb overdue)) ;;
  mret (if (overdue : bool) then None else Some {| rrCompletedAt := completedAt; rrNextDueAt := nextDeadlineAt |}).

Definition retentionHealthFromState (now : Z) (row : RetentionRow) : RetentionHealth := {|
  hlSafe := retentionHealthSafe now row; hlLastStartedAt := rsLastStartedAt row;
  hlLastCompletedAt := rsLastCompletedAt row; hlNextDeadlineAt := rsNextDeadlineAt row;
  hlFixedOutcome := rsFixedOutcome row |}.

Section Operations.
Variable rounds : nat -> Round.

Definition Sweep (sw : RetentionSweeper) (locked : bool) : op RetentionResult :=
  startedAt ← host_clock rounds;
  transact rounds (fun _ => ErrRetentionUnavailable) (start_tx locked) ;;
  outcome ← transact rounds (fun _ => ErrRetentionUnavailable) (fun round => sweep_tx sw round startedAt);
  match (outcome : option RetentionResult) with
  | None => op_fail ErrRetentionUnsafe
  | Some result => mret result
  end.

Definition Health (sw : RetentionSweeper) : op RetentionHealth :=
  row ← transact rounds (fun _ => ErrRetentionUnavailable) (fun _ =>
    retention (requireLookupKeyBoundTx (finalizer sw)) ;;
    row ← retention (query dbRetention);
    known row ErrRetentionUnavailable);
  now ← host_clock rounds;
  mret (retentionHealthFromState now row).

Definition Ready (sw : RetentionSweeper) : op () :=
  health ← Health sw;
  if hlSafe (health : RetentionHealth) then mret tt else op_fail ErrRetentionUnsafe.

End Operations.
End Retention.
