(* ===== verification/ReplaceRequest.v ===== *)
(** * Requests to replace the routes of an installation

    src/pkg/a9api/replace.go: reading the body of a replacement request. The text must be the
    canonical form of its object; every member is decoded to bytes or a bounded integer; each
    topic must be the one its conversation resolves to and carry the binding the trust manager
    computes for it; bindings and routes are distinct and in order. *)

From S2P Require Import Prelude GoBytes GoTime GoCrypto JsonText Jcs A9Schema A9Trust.
Local Open Scope Z_scope.
Local Open Scope go_scope.

Record RouteHMACKey := { hkThirtyDayPeriodsSinceEpoch : Z; hkKey : bytes }.

Record Subscription := {
  sbBindingID : bytes; sbBindingVersion : Z; sbAssertionHash : bytes; sbTopicBinding : bytes;
  sbTopicKeyEpoch : Z; sbRouteKeyEpoch : Z; sbTopic : bytes; sbTransportConversationID : bytes;
  sbRouteKey : bytes; sbHMACKeys : list RouteHMACKey; sbReceiveCapability : bytes;
}.

Record ReplaceRequest := {
  rqEnvironment : bytes; rqInstallationBindingID : bytes; rqSequencerEpoch : bytes;
  rqSubscriptionGeneration : Z; rqExpectedSubscriptionGeneration : Z; rqIdempotencyKey : bytes;
  rqLegacyInstallationID : bytes; rqAccountIncarnationID : bytes; rqAPNSToken : bytes;
  rqPayloadSchema : bytes; rqPolicyControl : bytes; rqSubscriptions : list Subscription;
  rqRequestHash : bytes;
}.

(** [TopicBinder.TopicBindingForEpoch]: topic, epoch, now, expiry of the assertion, whether it
    was accepted. *)
Definition TopicBinder : Type := bytes -> Z -> Z -> Z -> bool -> bytes * Verdict.

(** Every failure is [ErrInvalidReplace]; with the verdict a tracking binder has seen by then,
    when the binder refused. *)
Inductive decode_error := ErrInvalidReplace (tracked : option Verdict).

Abbreviation decoded A := (result decode_error A).

(** A part that does not depend on the binder. *)
Definition valid {A : Type} (o : option A) : decoded A := or_err (ErrInvalidReplace None) o.

(** ** Members *)

Definition decodeFixed (value : bytes) (size : nat) : option bytes := DecodeBase64URL value size.

Definition decodeVariable (value : bytes) : option bytes :=
  if (length value =? 0)%nat then None else b64_decode true value.

Definition safeInteger (value : json) (positive : bool) : option Z :=
  match value with
  | JNumber raw =>
      bail (length raw =? 0)%nat with None;;
      match parse_uint64 raw with
      | None => None
      | Some parsed => if (maxSafeInteger <? parsed) || (positive && (parsed =? 0)) then None else Some parsed
      end
  | _ => None
  end.

(** An integer that fits 32 bits. *)
Definition safe32 (value : json) : option Z :=
  parsed ← safeInteger value true;
  if 2 ^ 32 - 1 <? parsed then None else Some parsed.

Definition decodeUUID (value : bytes) (size : nat) : option bytes :=
  decoded ← ParseCanonicalUUID value;
  if (length decoded =? size)%nat then Some decoded else None.

Definition decodeLowerHex (value : bytes) (size : nat) : option bytes :=
  bail negb (length value =? size * 2)%nat || negb (forallb is_lower_hex value) with None;;
  decoded ← hex_decode value;
  if (length decoded =? size)%nat then Some decoded else None.

(** Four big-endian bytes of the epoch, then the binding. *)
Definition routeCASKey (epoch : Z) (binding : bytes) : bytes := be 4 epoch ++ binding.

Definition subscriptionAfter (previous current : Subscription) : bool :=
  if bytes_lt (sbTopicBinding previous) (sbTopicBinding current) then true
  else if bytes_lt (sbTopicBinding current) (sbTopicBinding previous) then false
  else bytes_lt (sbBindingID previous) (sbBindingID current).

(** ** Subscriptions *)

Fixpoint decode_hmac_keys (previous : option Z) (items : list json) : option (list RouteHMACKey) :=
  match items with
  | [] => Some []
  | JObject key :: items =>
      period ← safeInteger (field key "thirty_day_periods_since_epoch") false;
      bail (2 ^ 31 - 1 <? period) ||
           match previous with Some p => period <=? p | None => false end with None;;
      bytes ← decodeFixed (objectString key "key_base64url") 32;
      rest ← decode_hmac_keys (Some period) items;
      Some ({| hkThirtyDayPeriodsSinceEpoch := period; hkKey := bytes |} :: rest)
  | _ :: _ => None
  end.

(** The members read before the binder is asked; the HMAC keys and the capability come after. *)
Definition decode_route (o : object) : option Subscription :=
  bindingID ← decodeFixed (objectString o "binding_id") 16;
  assertionHash ← decodeFixed (objectString o "assertion_hash") 32;
  topicBinding ← decodeFixed (objectString o "topic_binding") 32;
  topic ← decodeFixed (objectString o "topic_base64url") 33;
  conversation ← decodeLowerHex (objectString o "transport_conversation_id") 32;
  routeKey ← decodeFixed (objectString o "route_key_base64url") 32;
  bindingVersion ← safeInteger (field o "binding_version") true;
  topicKeyEpoch ← safe32 (field o "topic_key_epoch");
  routeKeyEpoch ← safe32 (field o "route_key_epoch");
  resolved ← ResolveTopic (objectString o "transport_conversation_id");
  bail negb (beq (TopicBytes resolved) topic) with None;;
  Some {| sbBindingID := bindingID; sbBindingVersion := bindingVersion; sbAssertionHash := assertionHash;
          sbTopicBinding := topicBinding; sbTopicKeyEpoch := topicKeyEpoch; sbRouteKeyEpoch := routeKeyEpoch;
          sbTopic := topic; sbTransportConversationID := conversation; sbRouteKey := routeKey;
          sbHMACKeys := []; sbReceiveCapability := [] |}.

Definition with_keys (keys : list RouteHMACKey) (capability : bytes) (s : Subscription) : Subscription := {|
  sbBindingID := sbBindingID s; sbBindingVersion := sbBindingVersion s; sbAssertionHash := sbAssertionHash s;
  sbTopicBinding := sbTopicBinding s; sbTopicKeyEpoch := sbTopicKeyEpoch s; sbRouteKeyEpoch := sbRouteKeyEpoch s;
  sbTopic := sbTopic s; sbTransportConversationID := sbTransportConversationID s; sbRouteKey := sbRouteKey s;
  sbHMACKeys := keys; sbReceiveCapability := capability |}.

(** [now.Add(time.Nanosecond)] stands for the expiry of an accepted assertion. *)
Definition decodeSubscription (o : object) (binder : TopicBinder) (now : Z) : decoded Subscription :=
  subscription ← valid (decode_route o);
  let '(recomputed, verdict) := binder (sbTopic subscription) (sbTopicKeyEpoch subscription) now (now + 1) true in
  reject negb (IsEligible verdict) with ErrInvalidReplace (Some verdict);;
  reject negb (beq recomputed (sbTopicBinding subscription)) with ErrInvalidReplace None;;
  items ← valid (match field o "hmac_keys" with JArray items => Some items | _ => None end);
  keys ← valid (decode_hmac_keys None items);
  capability ← valid (decodeVariable (objectString o "receive_capability_base64url"));
  Ok (with_keys keys capability subscription).

Fixpoint decode_subscriptions (binder : TopicBinder) (now : Z) (seenBindings seenRouteCAS : list bytes)
    (previous : option Subscription) (items : list json) : decoded (list Subscription) :=
  match items with
  | [] => Ok []
  | JObject o :: items =>
      subscription ← decodeSubscription o binder now;
      let cas := routeCASKey (sbTopicKeyEpoch subscription) (sbTopicBinding subscription) in
      reject bool_decide (sbBindingID subscription ∈ seenBindings) with ErrInvalidReplace None;;
      reject bool_decide (cas ∈ seenRouteCAS) with ErrInvalidReplace None;;
      reject match previous with Some p => negb (subscriptionAfter p subscription) | None => false end
        with ErrInvalidReplace None;;
      rest ← decode_subscriptions binder now (sbBindingID subscription :: seenBindings) (cas :: seenRouteCAS)
               (Some subscription) items;
      Ok (subscription :: rest)
  | _ :: _ => Err (ErrInvalidReplace None)
  end.

(** ** The request *)

Section Decode.
Context `{MapRange}.

(** The members of the request itself, before its subscriptions. *)
Definition decode_header (raw expectedEnvironment : bytes) (o : object) : option ReplaceRequest :=
  bail negb (beq (objectString o "environment") expectedEnvironment) with None;;
  inst ← decodeFixed (objectString o "installation_binding_id") 16;
  epoch ← decodeFixed (objectString o "sequencer_epoch") 16;
  key ← decodeUUID (objectString o "idempotency_key") 16;
  legacy ← decodeLowerHex (objectString o "legacy_installation_id") 32;
  incarnation ← decodeUUID (objectString o "account_incarnation_id") 16;
  token ← decodeFixed (objectString o "apns_token_base64url") 32;
  generation ← safeInteger (field o "subscription_generation") true;
  expected ← safeInteger (field o "expected_subscription_generation") false;
  bail (expected =? maxSafeInteger) || negb (generation =? w64 (expected + 1)) with None;;
  policy ← decodeVariable (objectString o "policy_control_base64url");
  Some {| rqEnvironment := expectedEnvironment; rqInstallationBindingID := inst; rqSequencerEpoch := epoch;
          rqSubscriptionGeneration := generation; rqExpectedSubscriptionGeneration := expected;
          rqIdempotencyKey := key; rqLegacyInstallationID := legacy; rqAccountIncarnationID := incarnation;
          rqAPNSToken := token; rqPayloadSchema := objectString o "payload_schema"; rqPolicyControl := policy;
          rqSubscriptions := []; rqRequestHash := sha256 raw |}.

Definition with_subscriptions (subscriptions : list Subscription) (r : ReplaceRequest) : ReplaceRequest := {|
  rqEnvironment := rqEnvironment r; rqInstallationBindingID := rqInstallationBindingID r;
  rqSequencerEpoch := rqSequencerEpoch r; rqSubscriptionGeneration := rqSubscriptionGeneration r;
  rqExpectedSubscriptionGeneration := rqExpectedSubscriptionGeneration r; rqIdempotencyKey := rqIdempotencyKey r;
  rqLegacyInstallationID := rqLegacyInstallationID r; rqAccountIncarnationID := rqAccountIncarnationID r;
  rqAPNSToken := rqAPNSToken r; rqPayloadSchema := rqPayloadSchema r; rqPolicyControl := rqPolicyControl r;
  rqSubscriptions := subscriptions; rqRequestHash := rqRequestHash r |}.

Definition DecodeReplace (raw expectedEnvironment : bytes) (binder : TopicBinder) (now : Z)
  : decoded ReplaceRequest :=
  reject (negb (beq expectedEnvironment (str "dev")) && negb (beq expectedEnvironment (str "production"))) ||
         is_zero now with ErrInvalidReplace None;;
  match Decode SubscriptionsReplaceKind raw with
  | Err _ => Err (ErrInvalidReplace None)
  | Ok o =>
      reject match Canonicalize (JObject o) with Ok canonical => negb (beq canonical raw) | Err _ => true end
        with ErrInvalidReplace None;;
      request ← valid (decode_header raw expectedEnvironment o);
      items ← valid (match field o "subscriptions" with JArray items => Some items | _ => None end);
      subscriptions ← decode_subscriptions binder now [] [] None items;
      Ok (with_subscriptions subscriptions request)
  end.

End Decode.
