(* ===== verification/A9Replace.v ===== *)
(** * Replacing the routes of an A9 installation

    src/pkg/vault/a9_replace.go: one serializable transaction checks the authority of the
    installation, every subscription against its active binding and the refresh against the
    vault, and then publishes leases and routes together; or it answers why not and leaves
    the routes alone. Wiping the request's secrets afterwards is not modelled. *)

From S2P Require Import Prelude GoBytes GoTime GoCrypto JsonText Jcs A9Trust VaultCrypto Gate8Header Topics Interfaces Authority Sql A9Types A9VaultDb A9Vault A9Current Aggregates DeliveryJob DeliveryQueue DeliveryOps DeliveryAttempt Tombstones RouteKeys Refresh ReplaceRequest.
Local Open Scope Z_scope.
Local Open Scope go_scope.

Definition a9UncertaintyAuthorityReference : Z := 10.

(** [a9api.KeysetReceipt]. *)
Record KeysetReceipt := { krSequence : Z; krHash : bytes }.

Record a9ValidatedSubscription := {
  vsBindingID : bytes; vsBindingVersion : Z; vsAssertionHash : bytes; vsTopicBinding : bytes;
  vsTopicKeyEpoch : Z; vsRouteKeyEpoch : Z; vsAssertionStreamSequence : Z; vsKeysetSequence : Z;
  vsKeysetHash : bytes;
}.

Definition zero_validated : a9ValidatedSubscription := {|
  vsBindingID := []; vsBindingVersion := 0; vsAssertionHash := []; vsTopicBinding := []; vsTopicKeyEpoch := 0;
  vsRouteKeyEpoch := 0; vsAssertionStreamSequence := 0; vsKeysetSequence := 0; vsKeysetHash := [] |}.

(** [json.Decoder] with [DisallowUnknownFields] on the two objects of authority. *)
Class Gate6Json := {
  decode_policy_control : bytes -> option PolicyControlV1;
  decode_receive_capability : bytes -> option ReceiveCapabilityV1;
}.

(** The random source and the runtime in one attempt: what the leases draw, and the order in
    which the subscriptions are locked, sorted by binding. *)
Record ReplaceDraws := {
  rpLeases : LeaseDraws;
  rpOrder : list (nat * Subscription) -> list (nat * Subscription);
}.

Definition canonicalA9UUID (value : bytes) : bytes := uuid_text (hex_encode value).

(** [int64(x)] of an unsigned 64-bit integer. *)
Definition to_i64 (x : Z) : Z := if x <? 2 ^ 63 then x else x - 2 ^ 64.

(** ** Statements *)

(** The identity of one installation is bound once; the identity is unique too. *)
Definition insert_gate6 (inst identity : bytes) (db : VaultDB) : option (VaultDB * bool) :=
  match dbGate6 db !! inst with
  | Some _ => Some (db, false)
  | None =>
      if all_rows (fun _ other => negb (beq other identity)) (dbGate6 db)
      then Some (with_Gate6 (<[inst := identity]> (dbGate6 db)) db, true) else None
  end.

(** A route is for one lease; an installation has one route for a binding and one for a topic
    binding of an epoch. It refers to its lease, its installation and its active binding. *)
Definition insert_route (leaseID : bytes) (row : RouteRow) (db : VaultDB) : option VaultDB :=
  let c := roColumns row in
  let clash other :=
    beq (roInstallation (roColumns other)) (roInstallation c) &&
    (beq (roBinding (roColumns other)) (roBinding c) ||
     ((acTopicKeyEpoch (roActive (roColumns other)) =? acTopicKeyEpoch (roActive c)) &&
      beq (acTopicBinding (roActive (roColumns other))) (acTopicBinding (roActive c)))) in
  if bool_decide (dbRoutes db !! leaseID = None) && all_rows (fun _ other => negb (clash other)) (dbRoutes db) &&
     bool_decide (lsInstallationIdentity <$> dbLeases db !! leaseID = Some (roIdentity row)) &&
     bool_decide (dbGate6 db !! roInstallation c = Some (roIdentity row)) && route_supported db row
  then Some (with_Routes (<[leaseID := row]> (dbRoutes db)) db) else None.

Section Replace.
Context `{HP : Postgres, HG : AesGcm, HJ : JobJson, HT : A9TrustSurface, HVJ : VaultJson, HGJ : Gate6Json,
          HX : XmtpTopic, HTP : !TopicParser, HE : Ed25519}.

#[local] Abbreviation ts := pg_timestamp.

(** ** The request *)

(** The text must be the canonical form of its value. *)
Definition decodeA9Gate6Object {A : Type} (decode : bytes -> option A) (raw : bytes) : option A :=
  bail (length raw =? 0)%nat with None;;
  match ParseStrictJSON raw with
  | Err _ => None
  | Ok value =>
      match Canonicalize value with
      | Ok canonical => if beq canonical raw then decode raw else None
      | Err _ => None
      end
  end.

Definition subscription_refresh (incoming : Subscription) : option SubscriptionRefresh :=
  capability ← decodeA9Gate6Object decode_receive_capability (sbReceiveCapability incoming);
  Some {| sfTopic := sbTopic incoming; sfRouteKey := sbRouteKey incoming; sfRouteKeyEpoch := sbRouteKeyEpoch incoming;
          sfHMACKeys := (fun key => {| hiThirtyDayPeriodsSinceEpoch := hkThirtyDayPeriodsSinceEpoch key;
                                       hiKey := hkKey key |}) <$> sbHMACKeys incoming;
          sfCapability := capability |}.

Definition a9RefreshRequest (request : ReplaceRequest) : option RefreshRequest :=
  policy ← decodeA9Gate6Object decode_policy_control (rqPolicyControl request);
  subscriptions ← mapM subscription_refresh (rqSubscriptions request);
  Some {| rfEnvironment := rqEnvironment request;
          rfInstallationID := hex_encode (rqLegacyInstallationID request);
          rfAccountIncarnationID := canonicalA9UUID (rqAccountIncarnationID request);
          rfGeneration := rqSubscriptionGeneration request;
          rfIdempotencyKey := canonicalA9UUID (rqIdempotencyKey request); rfAPNSToken := rqAPNSToken request;
          rfPayloadSchema := rqPayloadSchema request; rfSubscriptions := Some subscriptions;
          rfPolicyControl := policy |}.

Definition validA9Replace (s : Store) (request : ReplaceRequest) (receipt : KeysetReceipt) : bool :=
  beq (rqEnvironment request) (stEnvironment s) && (0 <? rqSubscriptionGeneration request) &&
  (rqSubscriptionGeneration request <=? a9MaxSafeInteger) &&
  (rqExpectedSubscriptionGeneration request <? a9MaxSafeInteger) &&
  (rqSubscriptionGeneration request =? w64 (rqExpectedSubscriptionGeneration request + 1)) &&
  (0 <? krSequence receipt) && (krSequence receipt <=? a9MaxSafeInteger) &&
  beq (rqPayloadSchema request) (str "hytch_push_wrapper_v1") &&
  (length (rqSubscriptions request) <=? maxRefreshTopics)%nat.

(** ** Subscriptions against bindings *)

(** The row the binding and its assertion join to. *)
Definition supported_subscription (request : ReplaceRequest) (receipt : KeysetReceipt) (committed now : Z)
    (sub : Subscription) (db : VaultDB) : option (Z * Z * bytes) :=
  binding ← dbBindings db !! (rqInstallationBindingID request, sbBindingID sub);
  active ← bdActive binding;
  assertion ← dbAssertions db !! acAssertionHash active;
  if beq (bdEpoch binding) (rqSequencerEpoch request) && (bdVersion binding =? to_i64 (sbBindingVersion sub)) &&
     (bdState binding =? a9BindingActive) && beq (acAssertionHash active) (sbAssertionHash sub) &&
     (acTopicKeyEpoch active =? sbTopicKeyEpoch sub) && beq (acTopicBinding active) (sbTopicBinding sub) &&
     beq (vaInstallationBindingID assertion) (rqInstallationBindingID request) &&
     beq (vaSequencerEpoch assertion) (bdEpoch binding) && beq (vaBindingID assertion) (sbBindingID sub) &&
     (vaBindingVersion assertion =? bdVersion binding) && (vaStreamSequence assertion =? acStreamSequence active) &&
     (vaTopicKeyEpoch assertion =? acTopicKeyEpoch active) && beq (vaTopicBinding assertion) (acTopicBinding active) &&
     (vaKeysetSequence assertion =? acKeysetSequence active) && beq (vaKeysetHash assertion) (acKeysetHash active) &&
     (ts now <? vaExpiresAt assertion) && (vaStreamSequence assertion <=? committed) &&
     (vaKeysetSequence assertion =? krSequence receipt) && beq (vaKeysetHash assertion) (krHash receipt)
  then Some (vaStreamSequence assertion, vaKeysetSequence assertion, vaKeysetHash assertion) else None.

Definition a9SubscriptionRevokedTx (inst binding : bytes) (version : Z) : vault_tx bool :=
  query (fun db => negb (all_rows (fun k _ =>
    negb (beq k.1.1 inst && beq k.1.2 binding && (to_i64 version <=? k.2))) (dbTombstones db))).

Inductive validation :=
| Validated (byIndex : list a9ValidatedSubscription)
| MissingSubscription
| RevokedSubscription.

Definition validated_subscription (sub : Subscription) (found : Z * Z * bytes) : a9ValidatedSubscription := {|
  vsBindingID := sbBindingID sub; vsBindingVersion := sbBindingVersion sub; vsAssertionHash := sbAssertionHash sub;
  vsTopicBinding := sbTopicBinding sub; vsTopicKeyEpoch := sbTopicKeyEpoch sub;
  vsRouteKeyEpoch := sbRouteKeyEpoch sub; vsAssertionStreamSequence := found.1.1;
  vsKeysetSequence := found.1.2; vsKeysetHash := found.2 |}.

(** A keyset hash of the wrong length ends the loop with no subscriptions and no error; a
    check constraint of the table excludes it. *)
Fixpoint validate_each (request : ReplaceRequest) (receipt : KeysetReceipt) (committed now : Z)
    (order : list (nat * Subscription)) (byIndex : list a9ValidatedSubscription) : vault_tx validation :=
  match order with
  | [] => mret (Validated byIndex)
  | (index, sub) :: order =>
      found ← query (supported_subscription request receipt committed now sub);
      match (found : option (Z * Z * bytes)) with
      | None =>
          revoked ← a9SubscriptionRevokedTx (rqInstallationBindingID request) (sbBindingID sub)
                      (sbBindingVersion sub);
          mret (if (revoked : bool) then RevokedSubscription else MissingSubscription)
      | Some found =>
          if negb (length found.2 =? 32)%nat then mret (Validated []) else
          validate_each request receipt committed now order (<[index := validated_subscription sub found]> byIndex)
      end
  end.

Definition indexed (subs : list Subscription) : list (nat * Subscription) := combine (seq 0 (length subs)) subs.

Definition validateA9SubscriptionsTx (draws : ReplaceDraws) (request : ReplaceRequest) (receipt : KeysetReceipt)
    (committed now : Z) : vault_tx validation :=
  let subs := rqSubscriptions request in
  validate_each request receipt committed now (rpOrder draws (indexed subs))
    (replicate (length subs) zero_validated).

(** ** The bridge to the vault's installations *)

Definition loadA9Gate6BindingTx (inst : bytes) : vault_tx (option bytes) :=
  found ← query (fun db => dbGate6 db !! inst);
  mret (match (found : option bytes) with
        | Some identity => if (length identity =? 32)%nat then Some identity else None
        | None => None
        end).

Definition bindA9InstallationToGate6Tx (inst identity : bytes) : vault_tx () :=
  require (length identity =? 32)%nat ;;
  inserted ← update (insert_gate6 inst identity);
  if (inserted : bool) then mret tt else
  stored ← store_unavailable (query (fun db => dbGate6 db !! inst));
  require (bool_decide (stored = Some identity)).

(** ** The refresh inside the replacement *)

Definition gate6_refuses (request : RefreshRequest) (existing : InstallationRow) (controlEventDigest : bytes)
    (incarnationChanged : bool) : bool :=
  let epoch := pcPolicyEpoch (rfPolicyControl request) in
  (epoch <? inPolicyEpoch existing) ||
  (incarnationChanged && (epoch <=? inPolicyEpoch existing)) ||
  ((epoch =? inPolicyEpoch existing) && negb (equalDigest (inControlEventDigest existing) controlEventDigest)) ||
  ((epoch =? inPolicyEpoch existing) && negb (inState existing =? stateActive) &&
   negb (inState existing =? stateAwaitingRefresh)) ||
  (inState existing =? stateBlockedRekeyNeeded).

Definition adopt_gate6 (s : Store) (draws : LeaseDraws) (request : RefreshRequest)
    (controlEventDigest lookup incarnationLookup : bytes) (existingLookup : bytes) (existing : InstallationRow)
    (now : Z) : vault_tx () :=
  storedIncarnation ← known (environmentLookupDigest s (str "incarnation") (inLookupKeyEpoch existing)
                               (rfAccountIncarnationID request)) ErrStoreUnavailable;
  ensure (negb (gate6_refuses request existing controlEventDigest
                  (negb (beq storedIncarnation (inIncarnationLookup existing))))) ErrRefreshConflict ;;
  carry_installation s draws request lookup incarnationLookup (LookupEpoch now) existingLookup existing.

(** The installation is at the expected generation; none is at generation zero. *)
Definition at_generation (expected : Z) (identity : bytes) (found : option (bytes * InstallationRow)) : bool :=
  match found with
  | None => expected =? 0
  | Some (_, existing) => (inGeneration existing =? expected) && beq (inIdentity existing) identity
  end.

(** The leases' identifiers by topic. *)
Definition applyGate6RefreshTx (s : Store) (draws : LeaseDraws) (request : RefreshRequest)
    (normalized : list normalizedSubscription) (requestDigest : bytes) (expectedGeneration now : Z)
  : vault_tx (gmap bytes bytes) :=
  lookup ← known (environmentLookupDigest s (str "installation") (LookupEpoch now) (rfInstallationID request))
    ErrStoreUnavailable;
  incarnationLookup ← known (environmentLookupDigest s (str "incarnation") (LookupEpoch now)
                               (rfAccountIncarnationID request)) ErrStoreUnavailable;
  identity ← known (installationDeletionIdentity s (rfInstallationID request)) ErrStoreUnavailable;
  requireTombstoneAdvance s deletionTargetInstallation identity (pcPolicyEpoch (rfPolicyControl request)) now ;;
  found ← findInstallation s (rfInstallationID request) now;
  ensure (at_generation expectedGeneration identity found) ErrRefreshConflict ;;
  controlEventDigest ← known (controlDigest (rfPolicyControl request)) ErrRefreshInvalid;
  match (found : option (bytes * InstallationRow)) with
  | None => mret tt
  | Some (existingLookup, existing) =>
      adopt_gate6 s draws request controlEventDigest lookup incarnationLookup existingLookup existing now
  end ;;
  store_refresh s storeDatabaseError draws request normalized identity lookup incarnationLookup requestDigest
    controlEventDigest now ;;
  current ← loadExistingLeases s lookup;
  mret (elLeaseID <$> current).

(** ** One attempt *)

(** The watermark lets the stream be read as complete, under the keyset of the receipt. *)
Definition watermark_covers (authority : AuthorityRow) (receipt : KeysetReceipt) (now : Z) : option WatermarkColumns :=
  c ← auWatermark authority;
  if (wcStatus c =? WatermarkStatusCurrent) && before now (wcExpiresAt c) &&
     (wcKeysetSequence c =? krSequence receipt) && beq (wcKeysetHash c) (krHash receipt)
  then Some c else None.

Section Once.
Variables (s : Store) (draws : ReplaceDraws) (request : ReplaceRequest) (receipt : KeysetReceipt)
          (refresh : RefreshRequest) (dbNow : Z).

Definition replace_receipt (result : Result) : vault_tx () :=
  insertA9ReceiptTx (canonicalA9UUID (rqIdempotencyKey request)) a9OperationReplace
    (rqInstallationBindingID request) (rqSequencerEpoch request) (rqRequestHash request) result.

(** The answer when nothing is replaced. *)
Definition negative (authority : AuthorityRow) (state outcome latchReason : Z) : vault_tx Result :=
  (if latchReason =? 0 then mret tt
   else latchA9UncertaintyTx (rqInstallationBindingID request) latchReason dbNow) ;;
  let result := a9Result s (rqInstallationBindingID request) (rqSequencerEpoch request) (auGeneration authority)
                  (if latchReason =? 0 then state else a9ResultUncertain) outcome (auContiguous authority) in
  replace_receipt result ;;
  mret result.

Definition route_row (identity : bytes) (watermarkSequence : Z) (sub : a9ValidatedSubscription) : RouteRow := {|
  roColumns := {|
    roInstallation := rqInstallationBindingID request; roEpoch := rqSequencerEpoch request;
    roGeneration := rqSubscriptionGeneration request; roBinding := vsBindingID sub;
    roVersion := to_i64 (vsBindingVersion sub);
    roActive := {| acAssertionHash := vsAssertionHash sub; acStreamSequence := to_i64 (vsAssertionStreamSequence sub);
                   acTopicKeyEpoch := vsTopicKeyEpoch sub; acTopicBinding := vsTopicBinding sub;
                   acKeysetSequence := to_i64 (vsKeysetSequence sub); acKeysetHash := vsKeysetHash sub |};
    roRouteKeyEpoch := vsRouteKeyEpoch sub; roWatermarkSequence := watermarkSequence |};
  roIdentity := identity |}.

Definition add_route (identity : bytes) (watermarkSequence : Z) (leaseIDs : gmap bytes bytes)
    (entry : a9ValidatedSubscription * Subscription) : vault_tx () :=
  leaseID ← known (leaseIDs !! sbTopic entry.2) ErrStoreUnavailable;
  require (length leaseID =? 16)%nat ;;
  exec (insert_route leaseID (route_row identity watermarkSequence entry.1)).

Definition replaced (row : AuthorityRow) : AuthorityRow := {|
  auEpoch := auEpoch row; auContiguous := auContiguous row; auGeneration := rqSubscriptionGeneration request;
  auState := a9AuthorityActive; auReason := 0; auWatermark := auWatermark row; auUpdatedAt := dbNow |}.

(** Everything was checked: the receipt, the end of the old routes and their jobs, the leases,
    the new routes, the authority. *)
Definition publish (authority : AuthorityRow) (watermark : WatermarkColumns) (identity requestDigest : bytes)
    (normalized : list normalizedSubscription) (validated : list a9ValidatedSubscription) : vault_tx Result :=
  let inst := rqInstallationBindingID request in
  let result := a9Result s inst (rqSequencerEpoch request) (rqSubscriptionGeneration request) a9ResultActive
                  a9OutcomeApplied (auContiguous authority) in
  replace_receipt result ;;
  cancelA9RoutesTx inst [] dbNow ;;
  exec (delete_routes inst None) ;;
  leaseIDs ← applyGate6RefreshTx s (rpLeases draws) refresh normalized requestDigest
               (rqExpectedSubscriptionGeneration request) dbNow;
  bindA9InstallationToGate6Tx inst identity ;;
  each_tx (add_route identity (wcSequence watermark) leaseIDs) (combine validated (rqSubscriptions request)) ;;
  exec (fun db => Some (update_authority inst replaced db)) ;;
  mret result.

Definition replace_validated (authority : AuthorityRow) (watermark : WatermarkColumns) (requestDigest : bytes)
    (normalized : list normalizedSubscription) : vault_tx Result :=
  outcome ← validateA9SubscriptionsTx draws request receipt (wcCommittedThrough watermark) dbNow;
  match (outcome : validation) with
  | RevokedSubscription => negative authority a9ResultRevoked a9OutcomeStale 0
  | MissingSubscription =>
      negative authority a9ResultUncertain a9OutcomeGap a9UncertaintyAuthorityReference
  | Validated validated =>
      identity ← known (installationDeletionIdentity s (rfInstallationID refresh)) ErrStoreUnavailable;
      boundIdentity ← loadA9Gate6BindingTx (rqInstallationBindingID request);
      if match (boundIdentity : option bytes) with
         | Some stored => negb (length stored =? 0)%nat && negb (beq stored identity)
         | None => false
         end
      then negative authority a9ResultUncertain a9OutcomeConflict a9UncertaintyAuthorityReference
      else publish authority watermark identity requestDigest normalized validated
  end.

Definition replace_checked (authority : AuthorityRow) : vault_tx Result :=
  if negb (beq (auEpoch authority) (rqSequencerEpoch request)) then
    negative authority a9ResultUncertain a9OutcomeConflict a9UncertaintyEpoch
  else if (auState authority =? a9AuthorityUncertain) && negb (auReason authority =? a9UncertaintyEpoch) then
    negative authority a9ResultUncertain a9OutcomeInconclusive 0
  else if negb (rqExpectedSubscriptionGeneration request =? auGeneration authority) ||
          negb (rqSubscriptionGeneration request =? w64 (auGeneration authority + 1)) then
    negative authority (if auState authority =? a9AuthorityUncertain then a9ResultUncertain else a9ResultActive)
      a9OutcomeStale 0
  else
  match watermark_covers authority receipt dbNow with
  | None => negative authority a9ResultUncertain a9OutcomeInconclusive a9UncertaintyArtifactExpired
  | Some watermark =>
      normalized ← known (validateRefresh s refresh dbNow) ErrStoreUnavailable;
      requestDigest ← known (semanticRefreshDigest refresh) ErrStoreUnavailable;
      replace_validated authority watermark requestDigest normalized
  end.

Definition replace_authority : vault_tx AuthorityRow :=
  authority ← loadA9AuthorityTx (rqInstallationBindingID request);
  match (authority : option AuthorityRow) with
  | Some authority => mret authority
  | None =>
      insertA9AuthorityTx (rqInstallationBindingID request) (rqSequencerEpoch request) a9AuthorityUncertain
        a9UncertaintyAuthorityReference dbNow ;;
      mret (fresh_authority (rqSequencerEpoch request) a9AuthorityUncertain a9UncertaintyAuthorityReference dbNow)
  end.

Definition replace_after_guards : vault_tx Result :=
  authority ← replace_authority;
  replay ← a9ReceiptResultTx s (canonicalA9UUID (rqIdempotencyKey request)) a9OperationReplace
             (rqInstallationBindingID request) (rqSequencerEpoch request) (rqRequestHash request) authority dbNow;
  match (replay : option Result) with
  | Some result => mret result
  | None => replace_checked authority
  end.
End Once.

Definition replaceA9Once (s : Store) (draws : ReplaceDraws) (request : ReplaceRequest) (receipt : KeysetReceipt)
    (refresh : RefreshRequest) (att : Attempt) : vault_tx Result :=
  dbNow ← requireA9KeysetTx (atNow att) (krSequence receipt) (krHash receipt);
  requireRetentionSafeTx s (atHost att) ;;
  replace_after_guards s draws request receipt refresh dbNow.

(** ** The operation *)

Section Operations.
Variable rounds : nat -> Round.
Variable draws : nat -> ReplaceDraws.
Variable fuel : nat.

(** Only serialization failures are tried again. *)
Fixpoint replace_attempts (n : nat) (s : Store) (request : ReplaceRequest) (receipt : KeysetReceipt)
    (refresh : RefreshRequest) : op Result :=
  match n with
  | O => op_fail ErrStoreUnavailable
  | S n => fun '(i, db) =>
      let att := rdAttempt (rounds i) in
      match run_tx (replaceA9Once s (draws i) request receipt refresh att) att (rdOthers (rounds i) db) with
      | (db', Ok result) => ((S i, db'), Ok result)
      | (db', Err e) =>
          if isSerializationFailure e then replace_attempts n s request receipt refresh (S i, db')
          else ((S i, db'), Err ErrStoreUnavailable)
      end
  end.

Definition Replace (s : Store) (request : ReplaceRequest) (receipt : KeysetReceipt) : op Result :=
  match a9RefreshRequest request with
  | None => op_fail ErrStoreUnavailable
  | Some refresh =>
      if negb (validA9Replace s request receipt) then op_fail ErrStoreUnavailable else
      result ← replace_attempts a9TransactionAttempts s request receipt refresh;
      if beq (reOutcome result) ResultOutcomeApplied then
        store_op (finalizeDeliveryMarkers rounds fuel s) ;;
        op_attempt (RecordAggregate rounds s aggregateEventLeaseRefresh aggregateOutcomeActive 0) ;;
        mret result
      else mret result
  end.

End Operations.
End Replace.
