(* ===== verification/A9Handler.v ===== *)
(** * The internal API at the request boundary

    src/pkg/a9api/handler.go and the response body of src/pkg/a9api/result.go: three endpoints
    under which the control plane applies control events, watermarks and replacements. A request
    is checked, its service token verified and consumed, its body verified, and then the vault is
    called once; every answer is a fixed error or the canonical form of the vault's result. *)

From S2P Require Import Prelude GoBytes GoTime GoCrypto GoJson JsonText Jcs A9Schema A9Types A9Trust A9Keyset A9Verify ServiceAuth ReplaceRequest Sql A9VaultDb A9Replace.
Local Open Scope Z_scope.
Local Open Scope go_scope.

(** ** Requests and responses *)

(** [request.URL]; [None] in a request for a nil pointer. *)
Record RequestURL := {
  urPath : bytes; urRawPath : bytes; urRawQuery : bytes; urForceQuery : bool; urFragment : bytes; urOpaque : bytes;
}.

(** The parts of an [http.Request] the handler reads: header values by name, the bytes of the
    body with whether reading fails after them, whether the request's context has ended when the
    token is to be consumed. *)
Record HttpRequest := {
  hrMethod : bytes; hrURL : option RequestURL; hrRequestURI : bytes; hrTLS : bool;
  hrAuthorization : list bytes; hrContentType : list bytes; hrContentEncoding : list bytes;
  hrBody : option (bytes * bool); hrContentLength : Z; hrCancelled : bool;
}.

Record Response := { rsStatus : Z; rsAllow : option bytes; rsHeader : list (bytes * bytes); rsBody : bytes }.

Definition ControlApplyPath : bytes := str "/internal/v1/xmtp-push/a9-authority:apply".
Definition WatermarkApplyPath : bytes := str "/internal/v1/xmtp-push/a9-watermarks:apply".
Definition SubscriptionsReplacePath : bytes := str "/internal/v1/xmtp-push/subscriptions:replace".

Definition MaxRequestBodyBytes : Z := 16 * 1024 * 1024.
Definition maxAuthorizationBytes : Z := 8 * 1024.

Definition error_body (code : string) : bytes := str "{" ++ member "error" (jstring (str code)) ++ str "}".
Definition fixedRejectedBody : bytes := error_body "request_rejected".
Definition fixedAuthenticationBody : bytes := error_body "authentication_rejected".
Definition fixedUnavailableBody : bytes := error_body "temporarily_unavailable".

Definition json_headers : list (bytes * bytes) := [
  (str "Content-Type", str "application/json"); (str "Cache-Control", str "no-store");
  (str "X-Content-Type-Options", str "nosniff")].

Definition writeJSON (status : Z) (body : bytes) : Response :=
  {| rsStatus := status; rsAllow := None; rsHeader := json_headers; rsBody := body |}.

Definition writeFixedError (status : Z) : Response :=
  writeJSON status (if status =? 401 then fixedAuthenticationBody
                    else if status =? 503 then fixedUnavailableBody else fixedRejectedBody).

Definition allowing (method : bytes) (r : Response) : Response :=
  {| rsStatus := rsStatus r; rsAllow := Some method; rsHeader := rsHeader r; rsBody := rsBody r |}.

(** ** What is asked of a request before its token is looked at *)

Inductive endpointKind := endpointControl | endpointWatermark | endpointReplace.

Record endpoint := { enKind : endpointKind; enMethod : bytes; enPath : bytes }.

Definition routeForPath (request : HttpRequest) : option endpoint :=
  url ← hrURL request;
  if beq (urPath url) ControlApplyPath then
    Some {| enKind := endpointControl; enMethod := str "POST"; enPath := ControlApplyPath |}
  else if beq (urPath url) WatermarkApplyPath then
    Some {| enKind := endpointWatermark; enMethod := str "POST"; enPath := WatermarkApplyPath |}
  else if beq (urPath url) SubscriptionsReplacePath then
    Some {| enKind := endpointReplace; enMethod := str "PUT"; enPath := SubscriptionsReplacePath |}
  else None.

(** The bytes [url.URL.EscapedPath] leaves alone in a path. *)
Definition path_byte (c : byte) : bool :=
  is_digit c || is_b64url c || existsb (fun d => bool_decide (c = d)) (str ".~$&+,/:;=@").

Definition upper_hex (n : Z) : byte := upper_byte (hex_char n).

(** [EscapedPath] of a URL without a raw path: the only use of the method is behind that
    condition. *)
Definition EscapedPath (path : bytes) : bytes :=
  if beq path (str "*") then str "*" else
  concat (map (fun c => if path_byte c then [c] else [x25; upper_hex (b2z c / 16); upper_hex (b2z c mod 16)]) path).

Definition exactRequestTarget (request : HttpRequest) (path : bytes) : bool :=
  match hrURL request with
  | None => false
  | Some url =>
      beq (hrRequestURI request) path && beq (urPath url) path && beq (urRawPath url) [] &&
      beq (EscapedPath (urPath url)) path && beq (urRawQuery url) [] && negb (urForceQuery url) &&
      beq (urFragment url) [] && beq (urOpaque url) []
  end.

Definition exactJSONContentType (request : HttpRequest) : bool :=
  match hrContentType request with
  | [value] => beq value (str "application/json") && (length (hrContentEncoding request) =? 0)%nat
  | _ => false
  end.

(** The loop runs over the runes of a segment and looks at the first byte of each; a byte of the
    alphabet is a rune, so the first other byte is seen. *)
Definition canonicalBearer (values : list bytes) : option bytes :=
  match values with
  | [value] =>
      bail (Z.of_nat (length value) <=? 7) || (maxAuthorizationBytes <? Z.of_nat (length value)) ||
           negb (has_prefix value (str "Bearer ")) with None;;
      let compact := trim_prefix value (str "Bearer ") in
      let segments := split_on compact dot in
      bail negb (length segments =? 3)%nat with None;;
      if forallb (fun segment => negb (beq segment []) && forallb is_b64url segment) segments then Some compact else None
  | _ => None
  end.

(** [io.ReadAll] of a limited reader: past the limit neither bytes nor a failure are seen. *)
Definition read_limited (limit : Z) (body : bytes * bool) : bytes * bool :=
  if Z.of_nat (length body.1) <? limit then body else (take (Z.to_nat limit) body.1, false).

(** The body, or the status of the refusal. *)
Definition readBoundedBody (request : HttpRequest) : result Z bytes :=
  match hrBody request with
  | None => Err 400
  | Some body =>
      reject (hrContentLength request =? 0) || (hrContentLength request <? -1) with 400;;
      reject MaxRequestBodyBytes <? hrContentLength request with 413;;
      let '(raw, failed) := read_limited (MaxRequestBodyBytes + 1) body in
      reject (failed : bool) with 400;;
      reject beq raw [] with 400;;
      reject MaxRequestBodyBytes <? Z.of_nat (length raw) with 413;;
      reject (0 <=? hrContentLength request) && negb (hrContentLength request =? Z.of_nat (length raw)) with 400;;
      Ok raw
  end.

(** ** Results on the wire *)

Definition jsonNumber (value : Z) : json := JNumber (format_uint value).

Definition result_object (result : Result) : object :=
  fold_right (fun kv o => put (str kv.1) kv.2 o) [] [
    ("protocol", JString (str "hytch.a9-vault-cas-result"));
    ("schema_version", jsonNumber 1);
    ("environment", JString (reEnvironment result));
    ("installation_binding_id", JString (EncodeBase64URL (reInstallationBindingID result)));
    ("sequencer_epoch", JString (EncodeBase64URL (reSequencerEpoch result)));
    ("subscription_generation", jsonNumber (reSubscriptionGeneration result));
    ("state", JString (reState result));
    ("outcome", JString (reOutcome result));
    ("accepted_stream_sequence", jsonNumber (reAcceptedStreamSequence result));
    ("idempotent_replay", JBool (beq (reOutcome result) ResultOutcomeReplay))]%string.

Definition CanonicalJSON `{MapRange} (result : Result) : option bytes :=
  bail negb (result_valid result) with None;;
  let o := result_object result in
  match Validate ResultKind (JObject o), Canonicalize (JObject o) with
  | Ok _, Ok canonical => Some canonical
  | _, _ => None
  end.

(** The environment, installation and epoch of the verified request. *)
Record resultIdentity := { riEnvironment : bytes; riInstallationBindingID : bytes; riSequencerEpoch : bytes }.

Definition matches (identity : resultIdentity) (result : Result) : bool :=
  beq (reEnvironment result) (riEnvironment identity) &&
  beq (reInstallationBindingID result) (riInstallationBindingID identity) &&
  beq (reSequencerEpoch result) (riSequencerEpoch identity).

(** An UNCERTAIN watermark whose verdict is its own signed reason goes to the vault. *)
Definition verifiedSignedUncertainty (watermark : VerifiedWatermark) (verdict : Verdict) : bool :=
  let reason_is := String.eqb (VerdictReason verdict) in
  bail negb (vwStatus watermark =? WatermarkStatusUncertain) || negb (String.eqb (Terminal verdict) "INCONCLUSIVE") ||
       beq (vwSignedObjectHash watermark) (repeat x00 32) with false;;
  if vwUncertaintyReason watermark =? 1 then reason_is "SOURCE_UNAVAILABLE"%string
  else if vwUncertaintyReason watermark =? 2 then reason_is "OUTBOX_GAP"%string
  else if vwUncertaintyReason watermark =? 3 then reason_is "REPLICA_AMBIGUITY"%string
  else if vwUncertaintyReason watermark =? 4 then reason_is "OVERFLOW"%string
  else if vwUncertaintyReason watermark =? 5 then reason_is "CLOCK_UNCERTAIN"%string
  else false.

(** The exact snapshot a replacement is bound to. *)
Definition keysetReceipt `{MapRange} (keyset : object) (environment : bytes) : option KeysetReceipt :=
  bail negb (is_ok (Validate KeysetKind (JObject keyset))) with None;;
  bail match field keyset "environment" with JString e => negb (beq e environment) | _ => true end with None;;
  match field keyset "keyset_sequence" with
  | JNumber number =>
      sequence ← parse_uint64 number;
      bail (sequence =? 0) || (maxSafeInteger <? sequence) with None;;
      match Canonicalize (JObject keyset) with
      | Ok canonical => Some {| krSequence := sequence; krHash := sha256 canonical |}
      | Err _ => None
      end
  | _ => None
  end.

(** ** The collaborators, with the states they keep *)

Section Handler.
(** The trust manager, the replay store, the vault. *)
Context {T R V : Type}.

(** [TrustProvider] and [KeyStateLatch]. [None] is an error or a nil result; a lease binds
    topics until it is closed, which is after the decoding it was acquired for. *)
Record TrustProvider := {
  tpVerifier : Z -> T -> T * option object;
  tpAcquireTopicBindingLease : Z -> Z -> bytes -> T -> T * option TopicBinder;
  tpLatchArtifactUncertainty : Verdict -> T -> T;
}.

(** [a9api.Store]. [None] is an error. *)
Record VaultStore := {
  vsApplyControl : VerifiedControl -> V -> V * option Result;
  vsApplyWatermark : VerifiedWatermark -> V -> V * option Result;
  vsReplace : ReplaceRequest -> KeysetReceipt -> V -> V * option Result;
}.

Record Handler := { hdEnvironment : bytes; hdTrust : TrustProvider; hdReplay : Consumer R; hdStore : VaultStore }.

Definition NewHandler (environment : bytes) (trust : option TrustProvider) (replay : option (Consumer R))
    (store : option VaultStore) : option Handler :=
  bail negb (beq environment (str "dev")) && negb (beq environment (str "production")) with None;;
  trust ← trust;
  replay ← replay;
  store ← store;
  Some {| hdEnvironment := environment; hdTrust := trust; hdReplay := replay; hdStore := store |}.

Record World := { woTrust : T; woReplay : R; woVault : V }.

Definition with_trust (t : T) (w : World) : World := {| woTrust := t; woReplay := woReplay w; woVault := woVault w |}.
Definition with_replay (r : R) (w : World) : World := {| woTrust := woTrust w; woReplay := r; woVault := woVault w |}.
Definition with_vault (v : V) (w : World) : World := {| woTrust := woTrust w; woReplay := woReplay w; woVault := v |}.

Variable handler : Handler.

(** ** Dispatch *)

Definition statusForArtifactFailure (verdict : Verdict) (w : World) : World * Z :=
  if RequiresKeysetUncertainty verdict then
    (with_trust (tpLatchArtifactUncertainty (hdTrust handler) verdict (woTrust w)) w, 503)
  else (w, if String.eqb (Terminal verdict) "INCONCLUSIVE" then 503 else 400).

Definition artifact_failure (verdict : Verdict) (w : World) : World * result Z (Result * resultIdentity) :=
  let '(w, status) := statusForArtifactFailure verdict w in (w, Err status).

(** One call of the vault, with the identity its result must have. *)
Definition call_store (call : V -> V * option Result) (identity : resultIdentity) (w : World)
  : World * result Z (Result * resultIdentity) :=
  let '(v, answer) := call (woVault w) in
  (with_vault v w, match answer with Some result => Ok (result, identity) | None => Err 503 end).

Definition control_identity (c : VerifiedControl) : resultIdentity := {|
  riEnvironment := vcEnvironment c; riInstallationBindingID := vcInstallationBindingID c;
  riSequencerEpoch := vcSequencerEpoch c |}.
Definition watermark_identity (m : VerifiedWatermark) : resultIdentity := {|
  riEnvironment := vwEnvironment m; riInstallationBindingID := vwInstallationBindingID m;
  riSequencerEpoch := vwSequencerEpoch m |}.
Definition replace_identity (r : ReplaceRequest) : resultIdentity := {|
  riEnvironment := rqEnvironment r; riInstallationBindingID := rqInstallationBindingID r;
  riSequencerEpoch := rqSequencerEpoch r |}.

(** [trackingTopicBinder.failure]: the first refusal, unless its terminal is empty. *)
Definition tracked_failure (e : decode_error) : option Verdict :=
  let '(ErrInvalidReplace tracked) := e in
  verdict ← tracked;
  if String.eqb (Terminal verdict) "" then None else Some verdict.

Context `{HE : Ed25519, HR : MapRange}.

Definition dispatch (kind : endpointKind) (raw : bytes) (keyset : object) (now : Z) (w : World)
  : World * result Z (Result * resultIdentity) :=
  let expectations := {| ceEnvironment := hdEnvironment handler; ceEvaluationTime := now; ceKeyset := Some keyset |} in
  match kind with
  | endpointControl =>
      match VerifyControl raw expectations with
      | Err verdict => artifact_failure verdict w
      | Ok verified => call_store (vsApplyControl (hdStore handler) verified) (control_identity verified) w
      end
  | endpointWatermark =>
      match VerifyWatermark raw expectations with
      | Err verdict => artifact_failure verdict w
      | Ok (verified, verdict) =>
          if negb (IsEligible verdict) && negb (verifiedSignedUncertainty verified verdict)
          then artifact_failure verdict w
          else call_store (vsApplyWatermark (hdStore handler) verified) (watermark_identity verified) w
      end
  | endpointReplace =>
      match keysetReceipt keyset (hdEnvironment handler) with
      | None => (w, Err 503)
      | Some receipt =>
          let '(t, lease) := tpAcquireTopicBindingLease (hdTrust handler) now (krSequence receipt) (krHash receipt)
                               (woTrust w) in
          let w := with_trust t w in
          match lease with
          | None => (w, Err 503)
          | Some binder =>
              match DecodeReplace raw (hdEnvironment handler) binder now with
              | Err e => match tracked_failure e with
                         | Some verdict => artifact_failure verdict w
                         | None => (w, Err 400)
                         end
              | Ok request => call_store (vsReplace (hdStore handler) request receipt) (replace_identity request) w
              end
          end
      end
  end.

(** ** The handler *)

(** The response to what the dispatch gave. *)
Definition respond (dispatched : result Z (Result * resultIdentity)) : Response :=
  match dispatched with
  | Err status => writeFixedError status
  | Ok (result, identity) =>
      if negb (matches identity result) then writeFixedError 503 else
      match CanonicalJSON result, HTTPStatus result with
      | Some body, Ok status => writeJSON status body
      | _, _ => writeFixedError 503
      end
  end.

(** The endpoint, the token and the body, or the refusal. *)
Definition admit_request (request : HttpRequest) : result Response (endpoint * bytes * bytes) :=
  endpoint ← or_err (writeFixedError 404) (routeForPath request);
  reject negb (beq (hrMethod request) (enMethod endpoint)) with allowing (enMethod endpoint) (writeFixedError 405);;
  reject negb (exactRequestTarget request (enPath endpoint)) || negb (hrTLS request) with writeFixedError 400;;
  compact ← or_err (writeFixedError 401) (canonicalBearer (hrAuthorization request));
  reject negb (exactJSONContentType request) with writeFixedError 415;;
  match readBoundedBody request with
  | Err status => Err (writeFixedError status)
  | Ok raw => Ok (endpoint, compact, raw)
  end.

(** What the token is verified against. *)
Definition token_expectations (endpoint : endpoint) (raw : bytes) (now : Z) (keyset : object) : JWTExpectations := {|
  jeEnvironment := hdEnvironment handler; jeMethod := enMethod endpoint; jePath := enPath endpoint;
  jeRequestBody := raw; jeNow := now; jeKeyset := Some keyset |}.

(** After admission: the keyset, the token, the dispatch. *)
Definition serve_admitted (cancelled : bool) (endpoint : endpoint) (compact raw : bytes) (now : Z) (w : World)
  : World * Response :=
  if is_zero now then (w, writeFixedError 503) else
  match tpVerifier (hdTrust handler) now (woTrust w) with
  | (t, None) => (with_trust t w, writeFixedError 503)
  | (t, Some keyset) =>
      let w := with_trust t w in
      let expected := token_expectations endpoint raw now keyset in
      match VerifyAndConsume compact expected cancelled (hdReplay handler) (woReplay w) with
      | (r, Err ErrReplayStoreUnavailable) => (with_replay r w, writeFixedError 503)
      | (r, Err _) => (with_replay r w, writeFixedError 401)
      | (r, Ok _) =>
          let '(w, dispatched) := dispatch (enKind endpoint) raw keyset now (with_replay r w) in
          (w, respond dispatched)
      end
  end.

Definition ServeHTTP (request : HttpRequest) (now : Z) (w : World) : World * Response :=
  match admit_request request with
  | Err refusal => (w, refusal)
  | Ok (endpoint, compact, raw) => serve_admitted (hrCancelled request) endpoint compact raw now w
  end.

End Handler.
Arguments TrustProvider : clear implicits.
Arguments VaultStore : clear implicits.
Arguments Handler : clear implicits.
Arguments World : clear implicits.
