(* ===== verification/Moves.v ===== *)
(** * What transactions and operations do to the database

    The combinators of the vault's transactions and operations for any preorder on
    databases: a transaction moves along it when its writes do, an operation when its
    transactions do and whatever others commit between them does. *)

From S2P Require Import Prelude GoBytes GoTime GoCrypto VaultCrypto Gate8Header Interfaces Sql A9Types A9VaultDb A9Vault A9VaultSpec A9Current Aggregates DeliveryJob DeliveryQueue DeliveryOps DeliveryAttempt Tombstones RouteKeys.
Local Open Scope Z_scope.
Local Open Scope go_scope.

Lemma known_ok {A : Type} (o : option A) e a (st st' : tx_state VaultDB) :
  known o e st = Ok (a, st') -> o = Some a /\ st' = st.
Proof. unfold known. destruct o; [by intros [-> ->]%ret_ok|done]. Qed.

Section Moves.
Variable R : VaultDB -> VaultDB -> Prop.
Context `{!PreOrder R}.

(** ** Transactions *)

Lemma moves_collapsed {A : Type} (m : vault_tx A) : moves R m -> moves R (collapsed m).
Proof.
  intros Hm s a s' H. unfold collapsed in H. destruct (m s) as [[b st]|e] eqn:E; [|done].
  injection H as -> ->. by apply (Hm _ _ _ E).
Qed.

Lemma moves_require c : moves R (require c).
Proof. unfold require. destruct c; auto with moves typeclass_instances. Qed.

Lemma moves_required {A : Type} (c : bool) (k : () -> vault_tx A) :
  (c = true -> moves R (k tt)) -> moves R (require c ≫= k).
Proof. intros Hk s a s' ([] & s1 & [Hc ->]%require_ok & Hx)%tx_bind_ok. exact (Hk Hc _ _ _ Hx). Qed.

Lemma moves_known {A : Type} (o : option A) e : moves R (known o e).
Proof. unfold known. destruct o; auto with moves typeclass_instances. Qed.

Lemma moves_each {A : Type} (m : A -> vault_tx ()) l : (forall x, moves R (m x)) -> moves R (each_tx m l).
Proof.
  intros Hm. induction l as [|x l IH]; cbn [each_tx]; [apply (moves_ret R)|].
  apply (moves_bind R); [apply Hm|intros _; exact IH].
Qed.

Lemma moves_silently f : (forall db, R db (f db)) -> moves R (silently f).
Proof. intros Hf. apply moves_exec. intros db db' [= <-]. apply Hf. Qed.

Lemma moves_affecting f : (forall db, R db (f db).1) -> moves R (affecting f).
Proof. intros Hf. apply moves_update. intros db db' a [= He]. specialize (Hf db). by rewrite He in Hf. Qed.

Lemma moves_or_stop {A B : Type} (m : vault_tx (option A)) (k : A -> vault_tx (option B)) :
  moves R m -> (forall a, moves R (k a)) -> moves R (or_stop m k).
Proof.
  intros Hm Hk. apply (moves_bind R); [done|]. intros [a|]; [apply Hk|apply (moves_ret R)].
Qed.

Lemma moves_guard_tx {B : Type} (m : vault_tx bool) (k : vault_tx (option B)) :
  moves R m -> moves R k -> moves R (guard_tx m k).
Proof.
  intros Hm Hk. apply (moves_bind R); [done|]. intros [|]; [done|apply (moves_ret R)].
Qed.

(** ** Operations *)

Definition op_moves {A : Type} (m : op A) : Prop := forall i db, R db (m (i, db)).1.2.

Lemma op_ret_moves {A : Type} (a : A) : op_moves (mret a : op A).
Proof. intros i db. apply reflexivity. Qed.

Lemma op_fail_moves {A : Type} e : op_moves (@op_fail A e).
Proof. intros i db. apply reflexivity. Qed.

Lemma op_bind_moves {A B : Type} (m : op A) (k : A -> op B) :
  op_moves m -> (forall a, op_moves (k a)) -> op_moves (m ≫= k).
Proof.
  intros Hm Hk i db. unfold mbind, op_bind. specialize (Hm i db).
  destruct (m (i, db)) as [[i' db'] [a|e]]; [|done]. etrans; [exact Hm|apply Hk].
Qed.

Lemma op_mapped_moves {A : Type} f (m : op A) : op_moves m -> op_moves (op_mapped f m).
Proof. intros Hm i db. unfold op_mapped. specialize (Hm i db). by destruct (m (i, db)) as [[i' db'] [a|e]]. Qed.

Lemma op_attempt_moves {A : Type} (m : op A) : op_moves m -> op_moves (op_attempt m).
Proof. intros Hm i db. exact (Hm i db). Qed.

Lemma each_op_moves {A : Type} (m : A -> op ()) l : (forall a, op_moves (m a)) -> op_moves (each_op m l).
Proof.
  intros Hm. induction l as [|a l IH]; cbn [each_op]; [apply op_ret_moves|]. by apply op_bind_moves.
Qed.

Variable rounds : nat -> Round.

Lemma peek_moves {A : Type} (f : Round -> A) : op_moves (peek rounds f).
Proof. intros i db. apply reflexivity. Qed.

(** What others commit moves the database too. *)
Definition others_move : Prop := forall n db, R db (rdOthers (rounds n) db).

Lemma transact_moves {A : Type} (commits : A -> bool) fail body :
  others_move -> (forall round, moves R (body round)) -> op_moves (transact_when rounds commits fail body).
Proof.
  intros Ho Hb i db. unfold transact_when. destruct (run_tx_when _ _ _ _ _) as [db' r] eqn:E. cbn.
  etrans; [apply (Ho i)|]. by refine (moves_run _ _ _ _ _ _ _ _ (Hb _) E).
Qed.

End Moves.

#[export] Hint Resolve moves_require moves_known : moves.

Create HintDb ops.
#[export] Hint Resolve op_ret_moves op_fail_moves peek_moves : ops.

(** Splits an operation into its transactions. *)
Ltac split_ops :=
  repeat (first
    [ solve [eauto with ops typeclass_instances]
    | match goal with
      | |- op_moves _ (_ ≫= _) => apply op_bind_moves; [exact _| |intros ?]
      | |- op_moves _ (op_mapped _ _) => apply op_mapped_moves
      | |- op_moves _ (transact_when _ _ _ _) => apply transact_moves; [exact _|assumption|intros ?]
      | |- op_moves _ (transact _ _ _) => apply transact_moves; [exact _|assumption|intros ?]
      | |- op_moves _ (if ?x then _ else _) => destruct x eqn:?
      | |- op_moves _ (match ?x with _ => _ end) => destruct x eqn:?
      end ]).

(** ** Transactions that write nothing but the key binding *)

Section Reads.
Variable R : VaultDB -> VaultDB -> Prop.
Context `{!PreOrder R, HP : Postgres, HG : AesGcm, HJ : JobJson, HT : A9TrustSurface}.
Hypothesis retention_moves : forall s host, moves R (requireRetentionSafeTx s host).

#[local] Hint Resolve retention_moves : moves.

Lemma moves_current s att lease snapshot : moves R (requireA9CurrentRouteTx s att lease snapshot).
Proof.
  unfold requireA9CurrentRouteTx, or_stop, guard_tx, lockA9CurrentKeysetReceiptTx, lockA9CurrentAuthorityTx,
    lockA9CurrentBindingTx, requireNoWinningA9TombstoneTx, lockA9CurrentRouteProjectionTx,
    loadA9CurrentAssertionTx, requireA9CurrentDescriptorsTx.
  split_moves.
Qed.

#[local] Hint Resolve moves_current : moves.

Lemma moves_acquire s round trust job expectation now :
  moves R (acquire_tx s round trust job expectation now).
Proof.
  unfold acquire_tx, unavailable. apply moves_bind; [exact _|split_moves|intros _].
  apply (moves_or_stop R); [unfold acquire_route, unavailable|intros route].
  { split_moves. apply (moves_or_stop R); [split_moves|]. intros. split_moves. }
  apply (moves_or_stop R); [unfold acquire_rows, unavailable|intros [lease installation]].
  { split_moves. apply (moves_or_stop R); [split_moves|]. intros. split_moves. }
  unfold same_route, from_result, current_topic, database, unavailable. split_moves.
  repeat (apply (moves_guard_tx R); [unfold acquire_current, unavailable; split_moves|]). split_moves.
Qed.

End Reads.

(** One transaction of an operation: what it answers and leaves behind. *)
Lemma transact_ok {A : Type} rounds fail (body : Round -> vault_tx A) i db st' r :
  transact rounds fail body (i, db) = (st', r) ->
  st'.1 = S i /\
  ((st'.2 = rdOthers (rounds i) db /\ exists e, r = Err e) \/
   exists a s, body (rounds i) {| txDb := rdOthers (rounds i) db; txFaults := atStatements (rdAttempt (rounds i)) |} =
                 Ok (a, s) /\ st'.2 = txDb s /\ (r = Ok a \/ exists e, r = Err e)).
Proof.
  unfold transact, transact_when. destruct (run_tx_when _ _ _ _ _) as [db' r'] eqn:E. intros [= <- <-].
  split; [done|]. apply run_tx_when_cases in E as [[-> [He|(a & s & _ & _ & [=])]]|(a & s & Hb & -> & _ & Hr)].
  - by left.
  - right. eauto.
Qed.
