(* ===== verification/ReplaceMoves.v ===== *)
(** * What a replacement does to the A9 tables

    The refresh inside a replacement leaves the A9 tables alone and at most ends delivery
    jobs; every committed attempt of [A9Replace] either published a complete replacement or
    changed nothing but receipts and the uncertainty of the installation. *)

From S2P Require Import Prelude GoBytes GoTime GoCrypto A9Trust VaultCrypto Gate8Header Topics Interfaces Authority Sql A9Types A9VaultDb A9Vault A9VaultSpec A9VaultInv A9Current Aggregates DeliveryJob DeliveryQueue DeliveryOps DeliveryAttempt Tombstones RouteKeys Refresh ReplaceRequest A9Replace Moves.
Local Open Scope Z_scope.
Local Open Scope go_scope.

(** ** Beside the A9 tables *)

Definition a9_tables (db : VaultDB) :=
  (dbKeyset db, dbKeyBinding db, dbRetention db, dbAuthority db, dbReceipts db, dbControls db, dbAssertions db,
   dbBindings db, dbTombstones db, dbWatermarks db, dbRoutes db, dbGate6 db).

(** A job loses its route, or keeps route, lease and state. *)
Definition job_keeps (j j' : JobRow) : Prop :=
  jbA9 j' = None \/ (jbA9 j' = jbA9 j /\ jbLeaseID j' = jbLeaseID j /\ jbState j' = jbState j).

Definition jobs_keep (jobs jobs' : gmap bytes JobRow) : Prop :=
  forall k j', jobs' !! k = Some j' -> exists j, jobs !! k = Some j /\ job_keeps j j'.

Definition beside_a9 (db db' : VaultDB) : Prop :=
  a9_tables db' = a9_tables db /\ jobs_keep (dbJobs db) (dbJobs db').

Lemma job_keeps_refl j : job_keeps j j.
Proof. by right. Qed.

Lemma jobs_keep_refl jobs : jobs_keep jobs jobs.
Proof. intros k j E. exists j. split; [done|apply job_keeps_refl]. Qed.

#[export] Instance beside_a9_preorder : PreOrder beside_a9.
Proof.
  split; [intros db; split; [done|apply jobs_keep_refl]|]. intros a b c [E1 H1] [E2 H2]. split; [congruence|].
  intros k j3 E3. destruct (H2 _ _ E3) as (j2 & E & K2). destruct (H1 _ _ E) as (j1 & E' & K1). exists j1.
  split; [done|]. destruct K2 as [|(F1 & F2 & F3)]; [by left|]. unfold job_keeps. by rewrite F1, F2, F3.
Qed.

Lemma beside_same db db' : a9_tables db' = a9_tables db -> dbJobs db' = dbJobs db -> beside_a9 db db'.
Proof. intros E Ej. split; [done|]. rewrite Ej. apply jobs_keep_refl. Qed.

Lemma jobs_keep_update (p : bytes -> JobRow -> bool) (f : JobRow -> JobRow) jobs :
  (forall j, job_keeps j (f j)) -> jobs_keep jobs (map_imap (fun k j => Some (if p k j then f j else j)) jobs).
Proof.
  intros Hf k j'. rewrite map_lookup_imap. destruct (jobs !! k) as [j|]; [|done]. cbn. intros [= <-].
  exists j. split; [done|]. destruct (p k j); [apply Hf|apply job_keeps_refl].
Qed.

Lemma beside_update_jobs p f db : (forall j, job_keeps j (f j)) -> beside_a9 db (update_jobs p f db).
Proof. intros Hf. split; [done|by apply jobs_keep_update]. Qed.

Lemma jobs_keep_filter P `{forall x, Decision (P x)} (jobs : gmap bytes JobRow) : jobs_keep jobs (filter P jobs).
Proof. intros k j [E _]%map_lookup_filter_Some. exists j. split; [done|apply job_keeps_refl]. Qed.

Lemma beside_delete_leases p db db' : delete_leases p db = Some db' -> beside_a9 db db'.
Proof.
  unfold delete_leases. destruct (negb _); [done|]. intros [= <-]. split; [done|]. apply jobs_keep_filter.
Qed.

Lemma beside_rename from to incarnation epoch db db' :
  rename_installation from to incarnation epoch db = Some db' -> beside_a9 db db'.
Proof.
  unfold rename_installation. destruct (dbInstallations db !! from); [|by intros [= <-]].
  destruct (dbInstallations db !! to); [done|]. intros [= <-]. split; [done|]. cbn. intros k j'.
  rewrite lookup_fmap. destruct (dbJobs db !! k) as [j|]; [|done]. intros [= <-]. exists j. split; [done|].
  destruct (bool_decide _); [by right|apply job_keeps_refl].
Qed.

Section Moves.
Context `{HP : Postgres, HG : AesGcm, HJ : JobJson, HT : A9TrustSurface}.

#[local] Abbreviation ts := pg_timestamp.

Lemma beside_fence s kind identity version fence now :
  moves beside_a9 (upsertDeletionTombstone s kind identity version fence now).
Proof.
  unfold upsertDeletionTombstone, store_unavailable. split_moves. apply moves_silently. intros db.
  by apply beside_same.
Qed.

Lemma beside_advance_check s kind identity epoch now :
  moves beside_a9 (requireTombstoneAdvance s kind identity epoch now).
Proof. unfold requireTombstoneAdvance, store_unavailable. split_moves. Qed.

Lemma beside_mark_lease host leaseID : moves beside_a9 (markDeliveryJobsSafetyForLeaseTx host leaseID).
Proof.
  unfold markDeliveryJobsSafetyForLeaseTx, unavailable. split_moves. apply moves_silently. intros db.
  apply beside_update_jobs. by left.
Qed.

Lemma beside_mark_installation host lookup except :
  moves beside_a9 (markDeliveryJobsSafetyForInstallationTx host lookup except).
Proof.
  unfold markDeliveryJobsSafetyForInstallationTx, unavailable. split_moves. apply moves_silently. intros db.
  apply beside_update_jobs. by left.
Qed.

Lemma beside_record s identity commitment epoch allow now expiresAt :
  moves beside_a9 (recordRouteKeyHistory s identity commitment epoch allow now expiresAt).
Proof.
  unfold recordRouteKeyHistory, store_unavailable.
  split_moves; first [apply moves_silently; intros db; by apply beside_same|apply moves_exec].
  intros db db'. unfold insert_history. destruct (dbHistory db !! _); [intros [= <-]; by apply beside_same|].
  destruct (all_rows _ _); [|done]. intros [= <-]. by apply beside_same.
Qed.

Lemma beside_find s installationID at_ : moves beside_a9 (findInstallation s installationID at_).
Proof.
  unfold findInstallation. split_moves. induction (CandidateEpochs at_) as [|epoch epochs IH]; cbn [find_installation];
    unfold store_unavailable; split_moves.
Qed.

Lemma beside_load s lookup : moves beside_a9 (loadExistingLeases s lookup).
Proof. unfold loadExistingLeases, store_unavailable. split_moves. Qed.

Lemma beside_opened s context value : moves beside_a9 (opened s context value).
Proof. unfold opened. split_moves. Qed.

Lemma beside_sealed s entropy context plain : moves beside_a9 (sealed s entropy context plain).
Proof. unfold sealed. split_moves. Qed.

#[local] Hint Resolve beside_fence beside_advance_check beside_mark_lease beside_mark_installation beside_record
  beside_find beside_load beside_opened beside_sealed : moves.

Lemma beside_lineage s draws sub existing : moves beside_a9 (lease_lineage s draws sub existing).
Proof. unfold lease_lineage, same_route_key, random_prefix, store_unavailable. split_moves. Qed.

Context `{HVJ : VaultJson}.

Lemma beside_seal s draws terms sub identity routeIdentity leaseID nonce :
  moves beside_a9 (seal_lease s draws terms sub identity routeIdentity leaseID nonce).
Proof. unfold seal_lease. cbv zeta. split_moves. Qed.

#[local] Hint Resolve beside_lineage beside_seal : moves.

Lemma beside_upsert_lease leaseID row : moves beside_a9 (exec (upsert_lease leaseID row)).
Proof.
  apply moves_exec. intros db db'. unfold upsert_lease. destruct (_ && _); [|done]. intros [= <-].
  by apply beside_same.
Qed.

#[local] Hint Resolve beside_upsert_lease : moves.

Lemma beside_upsert s draws terms sub existing : moves beside_a9 (upsertLease s draws terms sub existing).
Proof. unfold upsertLease, store_unavailable. split_moves. Qed.

Lemma beside_erase s draws now lease : moves beside_a9 (eraseLease s draws now lease).
Proof.
  unfold eraseLease, store_unavailable. split_moves. apply moves_exec. intros db db'. apply beside_delete_leases.
Qed.

#[local] Hint Resolve beside_upsert beside_erase : moves.

Lemma beside_replace_leases s draws terms normalized : moves beside_a9 (replace_leases s draws terms normalized).
Proof.
  unfold replace_leases. split_moves; apply moves_each; [exact _| |exact _|]; intros x; split_moves.
Qed.

#[local] Hint Resolve beside_replace_leases : moves.

Context `{HGJ : Gate6Json, HX : XmtpTopic, HTP : !TopicParser, HE : Ed25519}.

Lemma beside_carry s draws request lookup incarnation epoch k row :
  moves beside_a9 (carry_installation s draws request lookup incarnation epoch k row).
Proof.
  unfold carry_installation, token_changed, store_unavailable. split_moves. apply moves_exec. intros db db'.
  apply beside_rename.
Qed.

Lemma beside_store s fail draws request normalized identity lookup incarnation digest control now :
  moves beside_a9 (store_refresh s fail draws request normalized identity lookup incarnation digest control now).
Proof.
  unfold store_refresh. cbv zeta. split_moves. apply moves_exec. intros db db'. unfold upsert_installation.
  destruct (all_rows _ _); [|done]. intros [= <-]. by apply beside_same.
Qed.

#[local] Hint Resolve beside_carry beside_store : moves.

Lemma beside_apply s draws request normalized digest expected now :
  moves beside_a9 (applyGate6RefreshTx s draws request normalized digest expected now).
Proof. unfold applyGate6RefreshTx, adopt_gate6. split_moves. Qed.

End Moves.

(** ** One attempt *)

Section Spec.
Context `{HP : Postgres, HG : AesGcm, HJ : JobJson, HT : A9TrustSurface, HVJ : VaultJson, HGJ : Gate6Json,
          HX : XmtpTopic, HTP : !TopicParser, HE : Ed25519}.
Variables (s : Store) (draws : ReplaceDraws) (request : ReplaceRequest) (receipt : KeysetReceipt)
          (refresh : RefreshRequest) (now : Z).

#[local] Abbreviation inst := (rqInstallationBindingID request).

Definition replace_receipt_row (result : Result) (outcome state : Z) : ReceiptRow := {|
  rcOperation := a9OperationReplace; rcInstallation := inst; rcEpoch := rqSequencerEpoch request;
  rcHash := rqRequestHash request; rcOutcome := outcome; rcState := state;
  rcGeneration := reSubscriptionGeneration result; rcSequence := reAcceptedStreamSequence result |}.

(** The key of the request has no receipt yet. *)
Definition key_free (db : VaultDB) (uuid : bytes) : Prop :=
  pg_uuid (canonicalA9UUID (rqIdempotencyKey request)) = Some uuid /\ dbReceipts db !! uuid = None.

Definition latched_by (reason : Z) (db : VaultDB) : VaultDB :=
  if reason =? 0 then db else latch_db inst reason now db.

Definition replace_answer (generation sequence state outcome : Z) : Result :=
  a9Result s inst (rqSequencerEpoch request) generation state outcome sequence.

(** The reasons for which a request is refused, with state, outcome and latch. *)
Inductive negative_case : Z -> Z -> Z -> Prop :=
| negative_epoch : negative_case a9ResultUncertain a9OutcomeConflict a9UncertaintyEpoch
| negative_uncertain : negative_case a9ResultUncertain a9OutcomeInconclusive 0
| negative_generation state : state = a9ResultActive \/ state = a9ResultUncertain ->
    negative_case state a9OutcomeStale 0
| negative_watermark : negative_case a9ResultUncertain a9OutcomeInconclusive a9UncertaintyArtifactExpired
| negative_revoked : negative_case a9ResultRevoked a9OutcomeStale 0
| negative_missing : negative_case a9ResultUncertain a9OutcomeGap a9UncertaintyAuthorityReference
| negative_identity : negative_case a9ResultUncertain a9OutcomeConflict a9UncertaintyAuthorityReference.

(** Nothing is replaced. *)
Inductive refused_replace (au : AuthorityRow) (db : VaultDB) : Result -> VaultDB -> Prop :=
| replace_replayed uuid row :
    pg_uuid (canonicalA9UUID (rqIdempotencyKey request)) = Some uuid -> dbReceipts db !! uuid = Some row ->
    rcOperation row = a9OperationReplace -> rcInstallation row = inst -> rcEpoch row = rqSequencerEpoch request ->
    rcHash row = rqRequestHash request ->
    refused_replace au db (replace_answer (rcGeneration row) (rcSequence row) (rcState row) a9OutcomeReplay) db
| replace_key_conflict uuid row :
    pg_uuid (canonicalA9UUID (rqIdempotencyKey request)) = Some uuid -> dbReceipts db !! uuid = Some row ->
    refused_replace au db (replace_answer (auGeneration au) (auContiguous au) a9ResultUncertain a9OutcomeConflict)
      (latch_db inst a9UncertaintyIdempotency now db)
| replace_negative uuid state outcome reason :
    key_free db uuid -> negative_case state outcome reason ->
    let r := replace_answer (auGeneration au) (auContiguous au) state outcome in
    refused_replace au db r (put_receipt uuid (replace_receipt_row r outcome state) (latched_by reason db)).

(** The subscriptions with the rows that support them, in the request's order. *)
Definition support (committed : Z) (db : VaultDB) (found : list (Z * Z * bytes)) : Prop :=
  Forall2 (fun sub f => supported_subscription request receipt committed now sub db = Some f)
    (rqSubscriptions request) found.

(** What a request has to satisfy before anything is written. *)
Record admissible (au : AuthorityRow) (watermark : WatermarkColumns) (identity : bytes)
    (normalized : list normalizedSubscription) (found : list (Z * Z * bytes)) (db : VaultDB) : Prop := {
  am_epoch : auEpoch au = rqSequencerEpoch request;
  am_state : auState au = a9AuthorityUncertain -> auReason au = a9UncertaintyEpoch;
  am_generation : rqExpectedSubscriptionGeneration request = auGeneration au /\
    rqSubscriptionGeneration request = w64 (auGeneration au + 1);
  am_watermark : watermark_covers au receipt now = Some watermark;
  am_refresh : validateRefresh s refresh now = Some normalized;
  am_support : support (wcCommittedThrough watermark) db found;
  am_identity : installationDeletionIdentity s (rfInstallationID refresh) = Some identity;
}.

Definition routes_of (watermark : WatermarkColumns) (identity : bytes) (found : list (Z * Z * bytes))
  : list (RouteRow * Subscription) :=
  zip_with (fun sub f => (route_row request identity (wcSequence watermark) (validated_subscription sub f), sub))
    (rqSubscriptions request) found.

(** What is written, from [db] to [db']: [refreshed] is the database after the leases, and
    [leaseIDs] their identifiers by topic. *)
Record publishes (au : AuthorityRow) (watermark : WatermarkColumns) (identity : bytes)
    (normalized : list normalizedSubscription) (found : list (Z * Z * bytes)) (uuid : bytes)
    (leaseIDs : gmap bytes bytes) (db refreshed db' : VaultDB) : Prop := {
  pb_key : key_free db uuid;
  pb_cleared :
    let r := replace_answer (rqSubscriptionGeneration request) (auContiguous au) a9ResultActive a9OutcomeApplied in
    let cleared := drop_routes inst None (cancel_jobs inst None now
      (put_receipt uuid (replace_receipt_row r a9OutcomeApplied a9ResultActive) db)) in
    jobs_supported cleared = true /\
    exists digest st st', txDb st = cleared /\ txDb st' = refreshed /\
      applyGate6RefreshTx s (rpLeases draws) refresh normalized digest (rqExpectedSubscriptionGeneration request)
        now st = Ok (leaseIDs, st');
  pb_gate6 : dbGate6 db' !! inst = Some identity /\
    (dbGate6 refreshed !! inst = Some identity \/ dbGate6 refreshed !! inst = None) /\
    dbGate6 db' = <[inst := identity]> (dbGate6 refreshed);
  pb_routes : forall lease row, dbRoutes db' !! lease = Some row <->
    dbRoutes refreshed !! lease = Some row \/
    exists sub, (row, sub) ∈ routes_of watermark identity found /\ leaseIDs !! sbTopic sub = Some lease;
  pb_new : forall row sub, (row, sub) ∈ routes_of watermark identity found ->
    exists lease, leaseIDs !! sbTopic sub = Some lease /\ dbRoutes db' !! lease = Some row /\
      dbRoutes refreshed !! lease = None /\ route_supported refreshed row = true /\
      lsInstallationIdentity <$> dbLeases refreshed !! lease = Some identity;
  pb_authority : dbAuthority db' = alter (replaced request now) inst (dbAuthority refreshed);
  pb_rest : (dbKeyset db', dbKeyBinding db', dbRetention db', dbReceipts db', dbControls db', dbAssertions db',
             dbBindings db', dbTombstones db', dbWatermarks db', dbJobs db', dbLeases db', dbInstallations db',
             dbHistory db') =
            (dbKeyset refreshed, dbKeyBinding refreshed, dbRetention refreshed, dbReceipts refreshed,
             dbControls refreshed, dbAssertions refreshed, dbBindings refreshed, dbTombstones refreshed,
             dbWatermarks refreshed, dbJobs refreshed, dbLeases refreshed, dbInstallations refreshed,
             dbHistory refreshed);
}.

Inductive replace_step_at (au : AuthorityRow) (db : VaultDB) : Result -> VaultDB -> Prop :=
| step_refused r db' : refused_replace au db r db' -> replace_step_at au db r db'
| step_published watermark identity normalized found uuid leaseIDs refreshed db' :
    admissible au watermark identity normalized found db ->
    publishes au watermark identity normalized found uuid leaseIDs db refreshed db' ->
    replace_step_at au db
      (replace_answer (rqSubscriptionGeneration request) (auContiguous au) a9ResultActive a9OutcomeApplied) db'.

(** *** Its parts *)

Lemma replace_receipt_ok generation sequence state outcome st st' u :
  1 <= state <= 3 -> 1 <= outcome <= 6 ->
  replace_receipt request (replace_answer generation sequence state outcome) st = Ok (u, st') ->
  exists uuid, key_free (txDb st) uuid /\
    txDb st' = put_receipt uuid (replace_receipt_row (replace_answer generation sequence state outcome) outcome state)
                 (txDb st).
Proof.
  intros Hs Ho. unfold replace_receipt, insertA9ReceiptTx, replace_answer. rewrite encode_a9Result by done.
  intros Hx%exec_ok. unfold insert_receipt in Hx. destruct (pg_uuid _) as [uuid|] eqn:Eu; [|done].
  destruct (dbReceipts _ !! uuid) eqn:Er; [done|]. simplify_eq. exists uuid. done.
Qed.

Lemma negative_ok au state outcome reason st st' r :
  negative_case state outcome reason ->
  negative s request now au state outcome reason st = Ok (r, st') ->
  refused_replace au (txDb st) r (txDb st').
Proof.
  intros Hc. unfold negative. cbv zeta. intros (? & s1 & Hl & Hx)%tx_bind_ok.
  assert (Hstate : (if reason =? 0 then state else a9ResultUncertain) = state).
  { destruct Hc; try reflexivity. }
  rewrite Hstate in Hx.
  assert (E1 : txDb s1 = latched_by reason (txDb st)).
  { unfold latched_by. destruct (reason =? 0); [by apply ret_ok in Hl as [_ ->]|by apply latch_ok in Hl as [_ ->]]. }
  apply tx_bind_ok in Hx as (? & s2 & Hr & [-> ->]%ret_ok).
  apply (replace_receipt_ok (auGeneration au) (auContiguous au) state outcome) in Hr as (uuid & [Hu Hn] & ->).
  - rewrite E1. eapply replace_negative; [|done]. split; [done|]. rewrite E1 in Hn. unfold latched_by in Hn.
    by destruct (reason =? 0).
  - destruct Hc; unfold a9ResultActive, a9ResultUncertain, a9ResultRevoked in *; lia.
  - destruct Hc; unfold a9OutcomeConflict, a9OutcomeInconclusive, a9OutcomeStale, a9OutcomeGap; lia.
Qed.

Lemma replace_authority_ok st st' au :
  replace_authority request now st = Ok (au, st') ->
  created now inst (rqSequencerEpoch request) a9AuthorityUncertain a9UncertaintyAuthorityReference (txDb st) au
    (txDb st').
Proof.
  unfold replace_authority, loadA9AuthorityTx, insertA9AuthorityTx, created, insert_authority.
  intros (row & s1 & [-> E1]%query_ok & Hx)%tx_bind_ok. destruct (dbAuthority (txDb st) !! inst) as [au'|] eqn:E.
  - apply ret_ok in Hx as [-> ->]. left. by rewrite E1.
  - right. apply tx_bind_ok in Hx as (? & s2 & Hi%exec_ok & [-> ->]%ret_ok).
    rewrite E1, E in Hi. simplify_eq. done.
Qed.

Lemma replace_replay_ok au st st' r :
  a9ReceiptResultTx s (canonicalA9UUID (rqIdempotencyKey request)) a9OperationReplace inst
    (rqSequencerEpoch request) (rqRequestHash request) au now st = Ok (r, st') ->
  match r with
  | Some r => refused_replace au (txDb st) r (txDb st')
  | None => txDb st' = txDb st
  end.
Proof.
  unfold a9ReceiptResultTx. intros (found & s1 & Hf & Hx)%tx_bind_ok.
  destruct (pg_uuid _) as [uuid|] eqn:Eu; [|done]. apply query_ok in Hf as [-> E1].
  destruct (dbReceipts (txDb st) !! uuid) as [row|] eqn:Er; [|by apply ret_ok in Hx as [-> ->]].
  destruct (_ && _ && _ && _) eqn:Em.
  - apply ret_ok in Hx as [-> ->]. rewrite E1. boolprop.
    beqs.
    by apply (replace_replayed _ _ uuid row).
  - apply tx_bind_ok in Hx as (? & s2 & [_ E2]%latch_ok & [-> ->]%ret_ok). rewrite E2, E1.
    by apply (replace_key_conflict _ _ uuid row).
Qed.

(** *** The subscriptions *)

Lemma query_same {A : Type} (f : VaultDB -> A) st a st' : query f st = Ok (a, st') -> a = f (txDb st) /\ txDb st' = txDb st.
Proof. apply query_ok. Qed.

(** Every subscription that was visited is supported and stands at its index. *)
Lemma validate_each_ok committed order byIndex st st' out :
  validate_each request receipt committed now order byIndex st = Ok (out, st') ->
  length (krHash receipt) = 32%nat -> NoDup order.*1 -> (forall i sub, (i, sub) ∈ order -> (i < length byIndex)%nat) ->
  txDb st' = txDb st /\
  match out with
  | Validated vs => length vs = length byIndex /\
      (forall i sub, (i, sub) ∈ order -> exists f,
         supported_subscription request receipt committed now sub (txDb st) = Some f /\
         vs !! i = Some (validated_subscription sub f)) /\
      (forall i, i ∉ order.*1 -> vs !! i = byIndex !! i)
  | _ => True
  end.
Proof.
  intros Hx Hlen. revert byIndex st Hx. induction order as [|[i sub] order IH]; intros byIndex st Hx Hd Hin; cbn [validate_each] in Hx.
  { apply ret_ok in Hx as [-> ->]. split; [done|]. split; [done|]. split; [|done]. by intros i sub ?%elem_of_nil. }
  apply tx_bind_ok in Hx as (found & s1 & [-> E1]%query_same & Hx).
  destruct (supported_subscription _ _ _ _ _ _) as [f|] eqn:Ef; last first.
  { unfold a9SubscriptionRevokedTx in Hx. apply tx_bind_ok in Hx as (revoked & s2 & [_ E2]%query_same & [-> ->]%ret_ok).
    split; [congruence|]. by destruct revoked. }
  assert (Hf : length f.2 = 32%nat).
  { unfold supported_subscription in Ef. apply bind_Some in Ef as (b & _ & Ef).
    apply bind_Some in Ef as (act & _ & Ef). apply bind_Some in Ef as (a & _ & Ef).
    destruct (_ && _) eqn:Eb in Ef; [|done]. injection Ef as <-. apply andb_true_iff in Eb as [_ Eb%beq_true].
    cbn. congruence. }
  rewrite Hf in Hx. cbn [Nat.eqb negb] in Hx. cbn in Hd. apply NoDup_cons in Hd as [Hnin Hd].
  assert (Hi : (i < length byIndex)%nat) by (apply (Hin i sub); left).
  apply IH in Hx as [E2 Hout]; [|done|].
  - split; [congruence|]. destruct out as [vs| |]; [|done..]. destruct Hout as (El & Hall & Hrest).
    rewrite length_insert in El. split; [done|]. rewrite E1 in Hall. split.
    + intros j sub' [[= -> ->]|Hj]%elem_of_cons; [|by apply Hall]. exists f. split; [done|].
      rewrite Hrest by done. by rewrite list_lookup_insert_eq.
    + cbn. intros j Hj. apply not_elem_of_cons in Hj as [Hne Hj]. rewrite Hrest by done.
      by rewrite list_lookup_insert_ne.
  - intros j sub' Hj. rewrite length_insert. apply (Hin j sub'). by right.
Qed.

Lemma indexed_lookup subs i sub : (i, sub) ∈ indexed subs <-> subs !! i = Some sub.
Proof.
  unfold indexed. rewrite list_elem_of_lookup. split.
  - intros [k Hk]. change (combine ?a ?b) with (zip a b) in Hk. unfold zip in Hk.
    apply lookup_zip_with_Some in Hk as (x & y & [= -> ->] & Hx & Hy). apply lookup_seq in Hx as [-> _]. exact Hy.
  - intros E. exists i. change (combine ?a ?b) with (zip a b). unfold zip. apply lookup_zip_with_Some.
    exists i, sub. split; [done|]. split; [|done]. apply lookup_seq. split; [done|]. by eapply lookup_lt_Some.
Qed.

Lemma indexed_fst subs : (indexed subs).*1 = seq 0 (length subs).
Proof. unfold indexed. change (combine ?a ?b) with (zip a b). apply fst_zip. by rewrite length_seq. Qed.

Lemma validate_ok committed st st' out :
  validateA9SubscriptionsTx draws request receipt committed now st = Ok (out, st') ->
  length (krHash receipt) = 32%nat -> (forall l, rpOrder draws l ≡ₚ l) ->
  txDb st' = txDb st /\
  match out with
  | Validated vs => exists found, support committed (txDb st) found /\
      vs = zip_with validated_subscription (rqSubscriptions request) found
  | _ => True
  end.
Proof.
  unfold validateA9SubscriptionsTx. cbv zeta. intros Hx Hlen Hperm. set (subs := rqSubscriptions request) in *.
  apply validate_each_ok in Hx as [E Hout]; [|done| |].
  - split; [done|]. destruct out as [vs| |]; [|done..]. destruct Hout as (El & Hall & _). rewrite length_replicate in El.
    assert (Hall' : forall i sub, subs !! i = Some sub -> exists f,
      supported_subscription request receipt committed now sub (txDb st) = Some f /\
      vs !! i = Some (validated_subscription sub f)).
    { intros i sub Hi. apply Hall. rewrite Hperm. by apply indexed_lookup. }
    clear Hall. unfold support. fold subs. revert vs El Hall'. induction subs as [|sub rest IH]; intros vs El Hall.
    { exists []. destruct vs; [|done]. by split. }
    destruct vs as [|v vs]; [done|]. destruct (Hall 0%nat sub eq_refl) as (f & Hf & [= ->]).
    destruct (IH vs) as (found & Hs & ->); [by injection El|intros i sub' Hi; by apply (Hall (S i))|].
    exists (f :: found). split; [by constructor|done].
  - rewrite (fmap_Permutation fst _ _ (Hperm _)), indexed_fst. apply NoDup_ListNoDup, seq_NoDup.
  - intros i sub. rewrite Hperm, indexed_lookup, length_replicate. apply lookup_lt_Some.
Qed.

(** *** The routes *)

Lemma insert_route_some leaseID row db db' :
  insert_route leaseID row db = Some db' ->
  db' = with_Routes (<[leaseID := row]> (dbRoutes db)) db /\ dbRoutes db !! leaseID = None /\
  route_supported db row = true /\ lsInstallationIdentity <$> dbLeases db !! leaseID = Some (roIdentity row).
Proof.
  unfold insert_route. cbv zeta. destruct (_ && _) eqn:E; [|done]. boolprop. by intros [= <-].
Qed.

Lemma add_routes_ok identity watermarkSequence leaseIDs entries st st' u :
  each_tx (add_route request identity watermarkSequence leaseIDs) entries st = Ok (u, st') ->
  let row_of v := route_row request identity watermarkSequence v in
  txDb st' = with_Routes (dbRoutes (txDb st')) (txDb st) /\
  (forall lease row, dbRoutes (txDb st') !! lease = Some row <->
     dbRoutes (txDb st) !! lease = Some row \/
     exists v sub, (v, sub) ∈ entries /\ row = row_of v /\ leaseIDs !! sbTopic sub = Some lease) /\
  (forall v sub, (v, sub) ∈ entries -> exists lease, leaseIDs !! sbTopic sub = Some lease /\
     dbRoutes (txDb st) !! lease = None /\ route_supported (txDb st) (row_of v) = true /\
     lsInstallationIdentity <$> dbLeases (txDb st) !! lease = Some identity).
Proof.
  cbv zeta. revert st. induction entries as [|[v sub] entries IH]; intros st Hx; cbn [each_tx] in Hx.
  { apply ret_ok in Hx as [_ ->]. split; [by destruct (txDb st)|]. split; [|by intros v sub ?%elem_of_nil].
    intros lease row. split; [by left|]. intros [|(v & sub & []%elem_of_nil & _)]; done. }
  apply tx_bind_ok in Hx as (? & s1 & Ha & Hx). unfold add_route in Ha. cbn [fst snd] in Ha.
  apply tx_bind_ok in Ha as (leaseID & s2 & Hk & Ha). unfold known in Hk.
  destruct (leaseIDs !! sbTopic sub) as [l|] eqn:El; [|done]. apply ret_ok in Hk as [-> ->].
  apply tx_bind_ok in Ha as (? & s3 & [_ ->]%require_ok & Hi%exec_ok%insert_route_some).
  destruct Hi as (E1 & Hnone & Hsup & Hlease). destruct (IH _ Hx) as (E2 & Hiff & Hnew).
  assert (Er : dbRoutes (txDb s1) = <[l := route_row request identity watermarkSequence v]> (dbRoutes (txDb st)))
    by by rewrite E1.
  split; [by rewrite E2, E1; cbn|]. split.
  - intros lease row. rewrite Hiff, Er, lookup_insert_Some. split.
    + intros [[[<- <-]|[_ E]]|(v' & sub' & Hin & Hr)]; [|by left|].
      * right. exists v, sub. split; [left|done].
      * right. exists v', sub'. split; [by right|done].
    + intros [E|(v' & sub' & [[= -> ->]|Hin]%elem_of_cons & -> & Hl)].
      * left. right. split; [|done]. intros ->. congruence.
      * left. left. split; [congruence|done].
      * right. eauto.
  - intros v' sub' [[= -> ->]|Hin]%elem_of_cons; [by exists l|].
    destruct (Hnew _ _ Hin) as (lease & Hl & Hn & Hs & Hle). exists lease. split; [done|].
    rewrite Er in Hn. apply lookup_insert_None in Hn as [Hn _]. split; [done|].
    rewrite E1 in Hs, Hle. split; [exact Hs|exact Hle].
Qed.

(** *** The whole attempt *)

Lemma insert_gate6_some identity db db' b :
  insert_gate6 inst identity db = Some (db', b) ->
  (b = true /\ dbGate6 db !! inst = None /\ db' = with_Gate6 (<[inst := identity]> (dbGate6 db)) db) \/
  (b = false /\ db' = db).
Proof.
  unfold insert_gate6. destruct (dbGate6 db !! inst); [intros [= <- <-]; by right|].
  destruct (all_rows _ _); [|done]. intros [= <- <-]. by left.
Qed.

Lemma with_same_gate6 db identity : dbGate6 db !! inst = Some identity ->
  with_Gate6 (<[inst := identity]> (dbGate6 db)) db = db.
Proof. intros E. rewrite insert_id by done. by destruct db. Qed.

Lemma bind_gate6_ok identity st st' u :
  bindA9InstallationToGate6Tx inst identity st = Ok (u, st') ->
  (dbGate6 (txDb st) !! inst = Some identity \/ dbGate6 (txDb st) !! inst = None) /\
  txDb st' = with_Gate6 (<[inst := identity]> (dbGate6 (txDb st))) (txDb st).
Proof.
  unfold bindA9InstallationToGate6Tx, store_unavailable. intros (? & s1 & [_ ->]%require_ok & H)%tx_bind_ok.
  apply tx_bind_ok in H as (b & s2 & Hi%update_ok & H).
  apply insert_gate6_some in Hi as [(-> & Hn & E)|[-> E]].
  - apply ret_ok in H as [_ ->]. split; [by right|done].
  - apply tx_bind_ok in H as (stored & s3 & [-> E3]%mapped_ok%query_ok & [Hb%bool_decide_eq_true ->]%require_ok).
    rewrite E3, E in *. split; [by left|]. by rewrite with_same_gate6.
Qed.

Lemma zip_routes_in subs found row sub identity n :
  (row, sub) ∈ zip_with (fun sub f => (route_row request identity n (validated_subscription sub f), sub)) subs found <->
  exists v, (v, sub) ∈ combine (zip_with validated_subscription subs found) subs /\
    row = route_row request identity n v.
Proof.
  revert found. induction subs as [|sub0 subs IH]; intros [|f found]; cbn.
  1-3: split; [by intros ?%elem_of_nil|by intros (v & ?%elem_of_nil & _)].
  rewrite elem_of_cons, IH. split.
  - intros [[= -> ->]|(v & Hin & ->)]; eexists; (split; [|done]); rewrite elem_of_cons; [by left|by right].
  - intros (v & Hin & ->). apply elem_of_cons in Hin as [[= -> ->]|Hin]; [by left|right; eauto].
Qed.

Lemma publish_ok au watermark identity digest normalized found st st' r :
  publish s draws request refresh now au watermark identity digest normalized
    (zip_with validated_subscription (rqSubscriptions request) found) st = Ok (r, st') ->
  r = replace_answer (rqSubscriptionGeneration request) (auContiguous au) a9ResultActive a9OutcomeApplied /\
  exists uuid leaseIDs refreshed,
    publishes au watermark identity normalized found uuid leaseIDs (txDb st) refreshed (txDb st').
Proof.
  unfold publish. cbv zeta. intros (? & s1 & Hr & H)%tx_bind_ok.
  apply replace_receipt_ok in Hr as (uuid & Hfree & E1); [|unfold a9ResultActive; lia|unfold a9OutcomeApplied; lia].
  apply tx_bind_ok in H as (? & s2 & [E2 _]%cancel_ok & H). change (scope_of []) with (@None bytes) in E2.
  apply tx_bind_ok in H as (? & s3 & [Hj E3]%checked_exec_ok & H).
  apply tx_bind_ok in H as (leaseIDs & s4 & Hg & H).
  apply tx_bind_ok in H as (? & s5 & [Hg6 E5]%bind_gate6_ok & H).
  apply tx_bind_ok in H as (? & s6 & Ha & H). apply add_routes_ok in Ha as (E6 & Hiff & Hnew).
  apply tx_bind_ok in H as (? & s7 & E7%exec_ok & [-> ->]%ret_ok). injection E7 as E7.
  split; [done|]. exists uuid, leaseIDs, (txDb s4). rewrite E2, E1 in Hj, E3.
  split; rewrite <-?E7.
  - done.
  - split; [exact Hj|]. exists digest, s3, s4. done.
  - cbn. rewrite E6, E5. cbn. split; [by rewrite lookup_insert_eq|]. done.
  - intros lease row. cbn [dbRoutes update_authority with_Authority]. rewrite Hiff, E5. cbn [dbRoutes with_Gate6].
    unfold routes_of. split; (intros [|Hx]; [by left|right]).
    + destruct Hx as (v & sub & Hin & -> & Hl). exists sub. split; [|done]. apply zip_routes_in. eauto.
    + destruct Hx as (sub & Hin & Hl). apply zip_routes_in in Hin as (v & Hin & ->). eauto.
  - intros row sub Hin. unfold routes_of in Hin. apply zip_routes_in in Hin as (v & Hin & ->).
    destruct (Hnew _ _ Hin) as (lease & Hl & Hn & Hs & Hle). rewrite E5 in Hn, Hs, Hle. exists lease.
    split; [done|]. split; [|done]. cbn [dbRoutes update_authority with_Authority]. apply Hiff. right. eauto.
  - cbn. by rewrite E6, E5.
  - cbn. rewrite E6, E5. done.
Qed.

Lemma load_gate6_ok st st' found :
  loadA9Gate6BindingTx inst st = Ok (found, st') -> txDb st' = txDb st.
Proof. unfold loadA9Gate6BindingTx. by intros (o & s1 & [_ E]%query_ok & [_ ->]%ret_ok)%tx_bind_ok. Qed.

(** Hash lengths and the order of the locks are what Go's types and [sort.Slice] give. *)
Definition replace_typed : Prop := length (krHash receipt) = 32%nat /\ forall l, rpOrder draws l ≡ₚ l.

Lemma replace_validated_ok au watermark digest normalized st st' r :
  replace_validated s draws request receipt refresh now au watermark digest normalized st = Ok (r, st') ->
  replace_typed -> auEpoch au = rqSequencerEpoch request ->
  (auState au = a9AuthorityUncertain -> auReason au = a9UncertaintyEpoch) ->
  rqExpectedSubscriptionGeneration request = auGeneration au /\
    rqSubscriptionGeneration request = w64 (auGeneration au + 1) ->
  watermark_covers au receipt now = Some watermark -> validateRefresh s refresh now = Some normalized ->
  replace_step_at au (txDb st) r (txDb st').
Proof.
  unfold replace_validated. intros (out & s1 & Hv & H)%tx_bind_ok [Hlen Hperm] He Hst Hgen Hw Hn.
  apply validate_ok in Hv as [E1 Hout]; [|done..]. destruct out as [vs| |]; rewrite <-E1.
  - destruct Hout as (found & Hsup & ->). rewrite <-E1 in Hsup.
    apply tx_bind_ok in H as (identity & s2 & Hid & H). unfold known in Hid.
    destruct (installationDeletionIdentity s _) as [identity'|] eqn:Eid; [|done]. apply ret_ok in Hid as [-> ->].
    apply tx_bind_ok in H as (stored & s3 & E3%load_gate6_ok & H). rewrite <-E3 in *.
    destruct (match stored with Some _ => _ | None => false end).
    + apply step_refused. eapply negative_ok; [|exact H]. constructor.
    + apply publish_ok in H as (-> & uuid & leaseIDs & refreshed & Hp). eapply step_published; [|exact Hp]. done.
  - apply step_refused. eapply negative_ok; [|exact H]. apply negative_missing.
  - apply step_refused. eapply negative_ok; [|exact H]. apply negative_revoked.
Qed.

Lemma replace_checked_ok au st st' r :
  replace_checked s draws request receipt refresh now au st = Ok (r, st') -> replace_typed ->
  replace_step_at au (txDb st) r (txDb st').
Proof.
  unfold replace_checked. intros H Ht. destruct (beq (auEpoch au) _) eqn:Ee; cbn [negb] in H; last first.
  { apply step_refused. eapply negative_ok; [|exact H]. constructor. }
  apply beq_true in Ee. destruct ((auState au =? a9AuthorityUncertain) && _) eqn:Es.
  { apply step_refused. eapply negative_ok; [|exact H]. constructor. }
  destruct (negb _ || negb _) eqn:Eg.
  { apply step_refused. eapply negative_ok; [|exact H]. constructor. destruct (auState au =? _); by auto. }
  boolprop. destruct (watermark_covers au receipt now) as [watermark|] eqn:Ew; last first.
  { apply step_refused. eapply negative_ok; [|exact H]. constructor. }
  apply tx_bind_ok in H as (normalized & s1 & Hn & H). unfold known in Hn.
  destruct (validateRefresh s refresh now) as [n|] eqn:En; [|done]. apply ret_ok in Hn as [-> ->].
  apply tx_bind_ok in H as (digest & s2 & Hd & H). unfold known in Hd.
  destruct (semanticRefreshDigest refresh) as [d|]; [|done]. apply ret_ok in Hd as [-> ->].
  eapply replace_validated_ok; [exact H|done|done| |done|exact Ew|exact En].
  intros Hu. rewrite Hu in Es. cbn in Es. by boolprop.
Qed.

Lemma replace_after_guards_ok st st' r :
  replace_after_guards s draws request receipt refresh now st = Ok (r, st') -> replace_typed ->
  exists au db, created now inst (rqSequencerEpoch request) a9AuthorityUncertain a9UncertaintyAuthorityReference
      (txDb st) au db /\ replace_step_at au db r (txDb st').
Proof.
  unfold replace_after_guards. intros (au & s1 & Hc%replace_authority_ok & H)%tx_bind_ok Ht.
  exists au, (txDb s1). split; [done|].
  apply tx_bind_ok in H as (replay & s2 & Hr%replace_replay_ok & H). destruct replay as [r'|].
  - apply ret_ok in H as [-> ->]. by apply step_refused.
  - rewrite <-Hr. by apply replace_checked_ok.
Qed.

End Spec.

(** One committed replacement attempt. *)
Definition replace_step `{HP : Postgres, HG : AesGcm, HJ : JobJson, HT : A9TrustSurface, HVJ : VaultJson,
    HGJ : Gate6Json, HX : XmtpTopic, HTP : !TopicParser, HE : Ed25519} (s : Store) (draws : ReplaceDraws)
    (request : ReplaceRequest) (receipt : KeysetReceipt) (refresh : RefreshRequest) (att : Attempt)
    (db : VaultDB) (r : Result) (db' : VaultDB) : Prop :=
  exists db1 db2 au,
    guarded s att (krSequence receipt) (krHash receipt) db db1 /\
    created (atNow att) (rqInstallationBindingID request) (rqSequencerEpoch request) a9AuthorityUncertain
      a9UncertaintyAuthorityReference db1 au db2 /\
    replace_step_at s draws request receipt refresh (atNow att) au db2 r db'.

Lemma replaceA9Once_ok `{HP : Postgres, HG : AesGcm, HJ : JobJson, HT : A9TrustSurface, HVJ : VaultJson,
    HGJ : Gate6Json, HX : XmtpTopic, HTP : !TopicParser, HE : Ed25519} s draws request receipt refresh att st st' r :
  replaceA9Once s draws request receipt refresh att st = Ok (r, st') -> replace_typed draws receipt ->
  replace_step s draws request receipt refresh att (txDb st) r (txDb st').
Proof.
  unfold replaceA9Once. intros (now & s1 & Hk & Hx)%tx_bind_ok Ht.
  apply tx_bind_ok in Hx as (u & s2 & Hr & Hx).
  destruct (guards_ok s att (krSequence receipt) (krHash receipt) st s2 now) as [-> Hg].
  { apply tx_bind_ok. exists now, s1. split; [done|]. apply tx_bind_ok. by exists u, s2. }
  apply replace_after_guards_ok in Hx as (au & db2 & Hc & Hs); [|done]. by exists (txDb s2), db2, au.
Qed.
