(* ===== verification/Lineage.v ===== *)
(** * The lineage of route keys

    What keeps a delivery nonce from being used twice: every lease holds a route key that the
    key history commits to, under the lease's route and its latest epoch; no two leases share
    a route and no two history rows a commitment; and the sequences already issued under a key
    are below the next one its lease will give. A key whose history row is past its time may
    be forgotten; the rows of leases and of the keys in the log are needed. Here the invariant and the statements of the
    vault that keep it; [LineageMoves] and [LineageRefresh] have the transactions. *)

From S2P Require Import Prelude GoBytes GoTime GoCrypto VaultCrypto Gate8Header Interfaces Sql A9Types A9VaultDb A9Vault A9VaultSpec A9Current Aggregates DeliveryJob DeliveryQueue DeliveryOps DeliveryAttempt Tombstones RouteKeys DeliveryErase Refresh Policy Routing Retention Moves.
Local Open Scope Z_scope.
Local Open Scope go_scope.

(** A delivery nonce that was handed out: the route key, the nonce prefix, the sequence. *)
Record issue := { isKey : bytes; isPrefix : Z; isSequence : Z }.

Section Lineage.
Context `{HP : Postgres, HG : AesGcm}.
Variable s : Store.

(** The pairs of an installation and a topic that occur: their route identities differ. *)
Variable used : bytes -> bytes -> Prop.

#[local] Abbreviation ts := pg_timestamp.

Definition lease_field (leaseID : bytes) (field : bytes) (value : bytes) : option bytes :=
  match Open (stEncryption s) (leaseContext leaseID field) value with Ok plain => Some plain | Err _ => None end.

Definition lease_key (leaseID : bytes) (lease : LeaseRow) : option bytes :=
  lease_field leaseID (str "route-key") (lsEncryptedRouteKey lease).

Definition lease_topic (leaseID : bytes) (lease : LeaseRow) : option bytes :=
  lease_field leaseID (str "topic") (lsEncryptedTopic lease).

Definition lease_nonce (leaseID : bytes) (lease : LeaseRow) : option nonceState :=
  encoded ← lease_field leaseID (str "nonce-state") (lsEncryptedNonceState lease); decodeNonceState encoded.

(** The history says that [key] was used by the route at the epoch. *)
Definition committed (db : VaultDB) (key identity : bytes) (epoch : Z) : Prop :=
  exists row, routeKeyCommitment s key = Some (rhCommitment row) /\ dbHistory db !! (identity, epoch) = Some row.

Definition installed (db : VaultDB) (lease : LeaseRow) : Prop := exists row,
  dbInstallations db !! lsInstallationLookup lease = Some row /\ inIdentity row = lsInstallationIdentity lease.

(** The lease is for one topic of one installation. *)
Definition routed_for (leaseID : bytes) (lease : LeaseRow) : Prop := exists installationID topic,
  used installationID topic /\ installationDeletionIdentity s installationID = Some (lsInstallationIdentity lease) /\
  routeHistoryIdentity s installationID topic = Some (lsRouteIdentity lease) /\
  lease_topic leaseID lease = Some topic.

(** Its key is committed to, and its sequence is ahead of what was issued under the key. *)
Definition ahead (log : list issue) (db : VaultDB) (leaseID : bytes) (lease : LeaseRow) : Prop :=
  exists key nonce, lease_key leaseID lease = Some key /\ lease_nonce leaseID lease = Some nonce /\
    committed db key (lsRouteIdentity lease) (lsRouteKeyEpoch lease) /\
    forall i, i ∈ log -> isKey i = key -> isSequence i < nsNextSequence nonce.

Definition latest (db : VaultDB) (lease : LeaseRow) : Prop :=
  forall epoch, is_Some (dbHistory db !! (lsRouteIdentity lease, epoch)) -> epoch <= lsRouteKeyEpoch lease.

Record sound_lease (log : list issue) (db : VaultDB) (leaseID : bytes) (lease : LeaseRow) : Prop := {
  sl_installed : installed db lease;
  sl_routed : routed_for leaseID lease;
  sl_ahead : ahead log db leaseID lease;
  sl_latest : latest db lease;
}.

Record lineage (log : list issue) (db : VaultDB) : Prop := {
  ln_leases : forall leaseID lease, dbLeases db !! leaseID = Some lease -> sound_lease log db leaseID lease;
  ln_single : forall id id' lease lease', dbLeases db !! id = Some lease -> dbLeases db !! id' = Some lease' ->
    lsRouteIdentity lease = lsRouteIdentity lease' -> id = id';
  ln_identities : forall k k' row row', dbInstallations db !! k = Some row -> dbInstallations db !! k' = Some row' ->
    inIdentity row = inIdentity row' -> k = k';
  ln_unique : forall k k' row row', dbHistory db !! k = Some row -> dbHistory db !! k' = Some row' ->
    rhCommitment row = rhCommitment row' -> k = k';
  ln_log : forall i, i ∈ log -> exists identity epoch, committed db (isKey i) identity epoch;
  ln_once : NoDup ((fun i => (isKey i, isSequence i)) <$> log);
}.

(** The history rows of the leases, and those of the keys in the log. *)
Definition lease_at (db : VaultDB) (k : bytes * Z) : Prop :=
  exists id lease, dbLeases db !! id = Some lease /\ k = (lsRouteIdentity lease, lsRouteKeyEpoch lease).

Definition needed (log : list issue) (db : VaultDB) (k : bytes * Z) (row : HistoryRow) : Prop :=
  lease_at db k \/ exists i, i ∈ log /\ routeKeyCommitment s (isKey i) = Some (rhCommitment row).

(** No needed row is past its time, for a transaction that looks at the clock. *)
Definition unexpired (now : option Z) (log : list issue) (db : VaultDB) : Prop :=
  forall k row t, dbHistory db !! k = Some row -> needed log db k row -> now = Some t -> ts t < rhExpiresAt row.

Definition good (now : option Z) (log : list issue) (db : VaultDB) : Prop :=
  lineage log db /\ unexpired now log db.

(** What a transaction may rely on and has to keep. *)
Definition keeps_good (now : option Z) (log : list issue) (db db' : VaultDB) : Prop :=
  good now log db -> good now log db'.

#[export] Instance keeps_good_preorder now log : PreOrder (keeps_good now log).
Proof. split; [by intros db H|intros a b c Hab Hbc H; exact (Hbc (Hab H))]. Qed.

(** ** Two leases share no key *)

Lemma committed_once log db key identity epoch identity' epoch' :
  lineage log db -> committed db key identity epoch -> committed db key identity' epoch' ->
  identity = identity' /\ epoch = epoch'.
Proof.
  intros H (row & Hc & Hr) (row' & Hc' & Hr'). rewrite Hc in Hc'. injection Hc' as Hc'.
  pose proof (ln_unique _ _ H _ _ _ _ Hr Hr' Hc') as [= -> ->]. done.
Qed.

Lemma key_has_one_lease log db id id' lease lease' key :
  lineage log db -> dbLeases db !! id = Some lease -> dbLeases db !! id' = Some lease' ->
  lease_key id lease = Some key -> lease_key id' lease' = Some key -> id = id'.
Proof.
  intros H Hl Hl' Hk Hk'. destruct (sl_ahead _ _ _ _ (ln_leases _ _ H _ _ Hl)) as (k & n & E & _ & Hc & _).
  destruct (sl_ahead _ _ _ _ (ln_leases _ _ H _ _ Hl')) as (k' & n' & E' & _ & Hc' & _).
  rewrite Hk in E. rewrite Hk' in E'. injection E as <-. injection E' as <-.
  destruct (committed_once _ _ _ _ _ _ _ H Hc Hc') as [E _]. by apply (ln_single _ _ H _ _ _ _ Hl Hl').
Qed.

(** ** Carrying the invariant over *)

(** The columns of a lease the invariant speaks about, but for the lookup. *)
Definition same_route_columns (lease lease' : LeaseRow) : Prop :=
  lsInstallationIdentity lease' = lsInstallationIdentity lease /\ lsRouteIdentity lease' = lsRouteIdentity lease /\
  lsRouteKeyEpoch lease' = lsRouteKeyEpoch lease /\ lsEncryptedTopic lease' = lsEncryptedTopic lease /\
  lsEncryptedRouteKey lease' = lsEncryptedRouteKey lease /\
  lsEncryptedNonceState lease' = lsEncryptedNonceState lease.

(** No history row is new or has another commitment, and the needed ones are there. *)
Definition no_new_history (db db' : VaultDB) : Prop :=
  forall k row', dbHistory db' !! k = Some row' ->
    exists row, dbHistory db !! k = Some row /\ rhCommitment row = rhCommitment row'.

Definition keeps_needed (log : list issue) (db db' : VaultDB) : Prop :=
  forall k row, dbHistory db !! k = Some row -> needed log db k row ->
    exists row', dbHistory db' !! k = Some row' /\ rhCommitment row' = rhCommitment row.

Lemma no_new_history_refl db db' : dbHistory db' = dbHistory db -> no_new_history db db'.
Proof. intros H k row'. rewrite H. eauto. Qed.

Lemma keeps_needed_refl log db db' : dbHistory db' = dbHistory db -> keeps_needed log db db'.
Proof. intros H k row E _. rewrite H. eauto. Qed.

Lemma committed_carries log db db' key identity epoch :
  keeps_needed log db db' -> committed db key identity epoch ->
  (forall row, dbHistory db !! (identity, epoch) = Some row -> routeKeyCommitment s key = Some (rhCommitment row) ->
     needed log db (identity, epoch) row) ->
  committed db' key identity epoch.
Proof.
  intros H (row & Hc & Hr) Hn. destruct (H _ _ Hr (Hn _ Hr Hc)) as (row' & Hr' & E).
  exists row'. by rewrite E.
Qed.

Lemma sound_lease_carries log db db' leaseID lease lease' :
  same_route_columns lease lease' -> no_new_history db db' -> keeps_needed log db db' ->
  dbLeases db !! leaseID = Some lease -> installed db' lease' ->
  sound_lease log db leaseID lease -> sound_lease log db' leaseID lease'.
Proof.
  intros (Ei & Er & Ee & Et & Ek & En) Hold Hh E0 Hi [_ Hr Ha Hl]. split; [done| | |].
  - unfold routed_for, lease_topic. by rewrite Ei, Er, Et.
  - destruct Ha as (key & nonce & Hk & Hn & Hc & Hlog). exists key, nonce. unfold lease_key, lease_nonce.
    rewrite Ek, En, Er, Ee. split; [done|]. split; [done|]. split; [|done].
    eapply committed_carries; [done..|]. intros row _ _. left. by exists leaseID, lease.
  - unfold latest. rewrite Er, Ee. intros epoch [row E]. apply Hl. destruct (Hold _ _ E) as (row0 & E' & _). eauto.
Qed.

Lemma lineage_carries log db db' :
  (forall id lease', dbLeases db' !! id = Some lease' ->
     exists lease, dbLeases db !! id = Some lease /\ same_route_columns lease lease' /\ installed db' lease') ->
  (forall k k' row row', dbInstallations db' !! k = Some row -> dbInstallations db' !! k' = Some row' ->
     inIdentity row = inIdentity row' -> k = k') ->
  no_new_history db db' -> keeps_needed log db db' -> lineage log db -> lineage log db'.
Proof.
  intros Hl Hi Hold Hh H. split.
  - intros id lease' E. destruct (Hl _ _ E) as (lease & E0 & Hs & Hin).
    eapply sound_lease_carries; [done..|]. by apply (ln_leases _ _ H).
  - intros id id' lease lease' E E' Eq. destruct (Hl _ _ E) as (l & E0 & Hs & _).
    destruct (Hl _ _ E') as (l' & E0' & Hs' & _). apply (ln_single _ _ H _ _ _ _ E0 E0').
    destruct Hs as (_ & <- & _). by destruct Hs' as (_ & <- & _).
  - done.
  - intros k k' row row' E E' Eq.
    destruct (Hold _ _ E) as (r & Er & Ec), (Hold _ _ E') as (r' & Er' & Ec').
    apply (ln_unique _ _ H _ _ _ _ Er Er'). congruence.
  - intros i Hin. destruct (ln_log _ _ H _ Hin) as (identity & epoch & Hc). exists identity, epoch.
    eapply committed_carries; [done..|]. intros row _ Hrow. right. by exists i.
  - apply (ln_once _ _ H).
Qed.

(** Some leases go, none gets another route or epoch. *)
Definition fewer_leases (db db' : VaultDB) : Prop :=
  forall id lease', dbLeases db' !! id = Some lease' ->
    exists lease, dbLeases db !! id = Some lease /\ lsRouteIdentity lease' = lsRouteIdentity lease /\
      lsRouteKeyEpoch lease' = lsRouteKeyEpoch lease.

Lemma needed_before log db db' k row row' :
  fewer_leases db db' -> rhCommitment row = rhCommitment row' -> needed log db' k row' -> needed log db k row.
Proof.
  intros Hl Ec [(id & lease' & E & ->)|(i & Hi & Hc)].
  - left. destruct (Hl _ _ E) as (lease & E' & -> & ->). by exists id, lease.
  - right. exists i. by rewrite Ec.
Qed.

Lemma unexpired_same now log db db' :
  fewer_leases db db' -> dbHistory db' ⊆ dbHistory db -> unexpired now log db -> unexpired now log db'.
Proof.
  intros Hl Hh Hu k row t E Hn Et. apply (Hu k row t); [by eapply lookup_weaken| |done]. by eapply needed_before.
Qed.

Lemma fewer_leases_same db db' : dbLeases db' = dbLeases db -> fewer_leases db db'.
Proof. intros H id lease. rewrite H. eauto. Qed.

Definition one_identity (db : VaultDB) : Prop :=
  forall k k' row row', dbInstallations db !! k = Some row -> dbInstallations db !! k' = Some row' ->
    inIdentity row = inIdentity row' -> k = k'.

(** A statement that leaves the history alone. *)
Lemma good_rows now log db db' :
  (forall id lease', dbLeases db' !! id = Some lease' -> exists lease, dbLeases db !! id = Some lease /\
     same_route_columns lease lease' /\ (one_identity db -> installed db lease -> installed db' lease')) ->
  (one_identity db -> one_identity db') -> dbHistory db' = dbHistory db -> keeps_good now log db db'.
Proof.
  intros Hl Hi Eh [H Hu]. pose proof (ln_identities _ _ H : one_identity db) as Hid. split.
  - apply (lineage_carries log db); [|by apply Hi|by apply no_new_history_refl|by apply keeps_needed_refl|done].
    intros id lease' E. destruct (Hl _ _ E) as (lease & E0 & Hs & Hin). exists lease. split; [done|]. split; [done|].
    apply Hin; [done|]. apply (sl_installed _ _ _ _ (ln_leases _ _ H _ _ E0)).
  - apply (unexpired_same now log db); [|by rewrite Eh|done].
    intros id lease' E. destruct (Hl _ _ E) as (lease & E0 & (_ & Er & Ee & _) & _). eauto.
Qed.

Lemma one_identity_same db db' : dbInstallations db' = dbInstallations db -> one_identity db -> one_identity db'.
Proof. unfold one_identity. by intros ->. Qed.

(** A statement on other tables. *)
Lemma good_elsewhere now log db db' :
  dbLeases db' = dbLeases db -> dbInstallations db' = dbInstallations db -> dbHistory db' = dbHistory db ->
  keeps_good now log db db'.
Proof.
  intros El Ei Eh. apply good_rows; [|by apply one_identity_same|done]. intros id lease E. rewrite El in E.
  exists lease. split; [done|]. split; [done|]. unfold installed. by rewrite Ei.
Qed.

(** Some leases go, others change in columns that do not matter. *)
Lemma good_leases now log db db' :
  (forall id lease', dbLeases db' !! id = Some lease' -> exists lease, dbLeases db !! id = Some lease /\
     same_route_columns lease lease' /\ lsInstallationLookup lease' = lsInstallationLookup lease) ->
  dbInstallations db' = dbInstallations db -> dbHistory db' = dbHistory db -> keeps_good now log db db'.
Proof.
  intros Hl Ei Eh. apply good_rows; [|by apply one_identity_same|done]. intros id lease' E.
  destruct (Hl _ _ E) as (lease & E0 & Hs & Ek). exists lease. split; [done|]. split; [done|].
  intros _ (row & Er & Eid). exists row. rewrite Ek, Ei. split; [done|]. by destruct Hs as (-> & _).
Qed.

(** ** The statements *)

Lemma good_map_leases now log (f : LeaseRow -> LeaseRow) db :
  (forall lease, same_route_columns lease (f lease) /\ lsInstallationLookup (f lease) = lsInstallationLookup lease) ->
  keeps_good now log db (with_Leases (f <$> dbLeases db) db).
Proof.
  intros Hf. apply good_leases; [|done|done]. intros id lease'. cbn. rewrite lookup_fmap.
  destruct (dbLeases db !! id) as [lease|] eqn:E; [|done]. intros [= <-]. exists lease. split; [done|].
  by destruct (Hf lease).
Qed.

Lemma good_delete_leases now log p db db' : delete_leases p db = Some db' -> keeps_good now log db db'.
Proof.
  unfold delete_leases. destruct (negb _); [done|]. intros [= <-]. apply good_leases; [|done|done].
  intros id lease'. cbn. intros [E _]%map_lookup_filter_Some. by exists lease'.
Qed.

Lemma good_delete_installations now log p db db' : delete_installations p db = Some db' -> keeps_good now log db db'.
Proof.
  unfold delete_installations, delete_leases. intros (db1 & H1 & [= <-])%bind_Some.
  destruct (negb _); [done|]. injection H1 as <-. apply good_rows; [| |done]; cbn.
  - intros id lease [E Hg]%map_lookup_filter_Some. cbn in Hg. exists lease. split; [done|]. split; [done|].
    intros _ (row & Er & Eid). exists row. split; [|done]. cbn.
    apply map_lookup_filter_Some. split; [done|]. cbn. unfold lease_of_gone in Hg. apply negb_false_iff in Hg.
    rewrite all_rows_true in Hg. specialize (Hg _ _ Er). cbn beta in Hg. rewrite beq_refl in Hg.
    by destruct (p row).
  - intros Hid k k' row row' [E _]%map_lookup_filter_Some [E' _]%map_lookup_filter_Some. by apply Hid.
Qed.

Lemma good_alter_installation now log f lookup db :
  (forall row, inIdentity (f row) = inIdentity row) ->
  keeps_good now log db (with_Installations (alter f lookup (dbInstallations db)) db).
Proof.
  intros Hf. apply good_rows; [| |done]; cbn.
  - intros id lease E. exists lease. split; [done|]. split; [done|]. intros _ (row & Er & Eid).
    unfold installed. cbn. destruct (decide (lookup = lsInstallationLookup lease)) as [->|Hne].
    + exists (f row). by rewrite lookup_alter_eq, Er, Hf.
    + exists row. by rewrite lookup_alter_ne.
  - assert (Hback : forall k r', alter f lookup (dbInstallations db) !! k = Some r' ->
      exists r, dbInstallations db !! k = Some r /\ inIdentity r = inIdentity r').
    { intros k r' [[-> (r & E & ->)]|[_ E]]%lookup_alter_Some; [exists r; by rewrite Hf|by exists r']. }
    intros Hid k k' r r' (r0 & E & Hr)%Hback (r0' & E' & Hr')%Hback Eq. apply (Hid _ _ _ _ E E'). congruence.
Qed.

(** A new row for an installation, or a row for one with the same identity. *)
Lemma good_upsert_installation now log lookup row db db' :
  upsert_installation lookup row db = Some db' ->
  (forall row0, dbInstallations db !! lookup = Some row0 -> inIdentity row0 = inIdentity row) ->
  keeps_good now log db db'.
Proof.
  unfold upsert_installation. destruct (all_rows _ _) eqn:Ea; [|done]. intros [= <-] Hrow.
  rewrite all_rows_true in Ea.
  assert (Hother : forall k r, dbInstallations db !! k = Some r -> k <> lookup -> inIdentity r <> inIdentity row).
  { intros k r E Hne Eq. specialize (Ea _ _ E). cbn beta in Ea. rewrite Eq, beq_refl in Ea.
    cbn in Ea. rewrite orb_false_r in Ea. by apply beq_true in Ea. }
  apply good_rows; [| |done]; cbn.
  - intros id lease E. exists lease. split; [done|]. split; [done|]. intros _ (r & Er & Eid). unfold installed. cbn.
    destruct (decide (lookup = lsInstallationLookup lease)) as [Eq|Hne].
    + exists row. rewrite Eq, lookup_insert_eq. split; [done|]. rewrite <-Eq in Er. by rewrite <-(Hrow _ Er).
    + exists r. by rewrite lookup_insert_ne.
  - intros Hid k k' r r' E E' Eq. cbn in E, E'. apply lookup_insert_Some in E as [[<- <-]|[Hk E]], E' as [[<- <-]|[Hk' E']].
    + done.
    + exfalso. by apply (Hother _ _ E').
    + exfalso. by apply (Hother _ _ E).
    + by apply (Hid _ _ _ _ E E').
Qed.

Lemma good_insert_installation now log lookup row db db' :
  insert_installation lookup row db = Some db' -> keeps_good now log db db'.
Proof.
  unfold insert_installation. destruct (dbInstallations db !! lookup) eqn:E; [done|]. intros Hu.
  eapply good_upsert_installation; [exact Hu|]. by rewrite E.
Qed.

Lemma rename_leases_some from to db id lease' :
  ((fun lease => if beq (lsInstallationLookup lease) from then lease_under to lease else lease) <$> dbLeases db)
    !! id = Some lease' ->
  exists lease, dbLeases db !! id = Some lease /\ same_route_columns lease lease' /\
    lsInstallationLookup lease' = (if beq (lsInstallationLookup lease) from then to else lsInstallationLookup lease).
Proof.
  rewrite lookup_fmap. destruct (dbLeases db !! id) as [lease|]; [|done]. intros [= <-]. exists lease.
  split; [done|]. by destruct (beq (lsInstallationLookup lease) from).
Qed.

Lemma good_rename now log from to incarnation epoch db db' :
  rename_installation from to incarnation epoch db = Some db' -> keeps_good now log db db'.
Proof.
  unfold rename_installation. destruct (dbInstallations db !! from) as [row|] eqn:Ef; [|by intros [= <-]].
  destruct (dbInstallations db !! to) eqn:Et; [done|]. intros [= <-].
  assert (Hne : from <> to) by congruence. apply good_rows; [| |done]; cbn.
  - intros id lease' (lease & E & Hs & El)%rename_leases_some. exists lease. split; [done|]. split; [done|].
    intros _ (r & Er & Eid). destruct Hs as (Ei & _). unfold installed. cbn. rewrite El, Ei. destruct (beq _ _) eqn:Eb.
    + apply beq_true in Eb. rewrite Eb, Ef in Er. injection Er as <-. eexists. by rewrite lookup_insert_eq.
    + apply beq_false in Eb. exists r. rewrite lookup_insert_ne by congruence. by rewrite lookup_delete_ne.
  - intros Hid k k' r r' E E' Eq. cbn in E, E'. apply lookup_insert_Some in E as [[<- <-]|[Hk E]], E' as [[<- <-]|[Hk' E']];
      [done|apply lookup_delete_Some in E' as [Hd E']|apply lookup_delete_Some in E as [Hd E]|].
    + exfalso. apply Hd. by apply (Hid _ _ _ _ Ef E').
    + exfalso. apply Hd. symmetry. by apply (Hid _ _ _ _ E Ef).
    + apply lookup_delete_Some in E as [_ E], E' as [_ E']. by apply (Hid _ _ _ _ E E').
Qed.

(** ** The key history *)

Lemma good_history now log db db' :
  dbLeases db' = dbLeases db -> dbInstallations db' = dbInstallations db -> no_new_history db db' ->
  (unexpired now log db -> keeps_needed log db db' /\ unexpired now log db') -> keeps_good now log db db'.
Proof.
  intros El Ei Hold Hx [H Hu]. destruct (Hx Hu) as [Hk Hu']. split; [|done].
  apply (lineage_carries log db); [| |done|done|done].
  - intros id lease E. rewrite El in E. exists lease. split; [done|]. split; [done|].
    unfold installed. rewrite Ei. by apply (sl_installed _ _ _ _ (ln_leases _ _ H _ _ E)).
  - rewrite Ei. apply (ln_identities _ _ H).
Qed.

Lemma good_extend now log identity now' expiresAt db :
  (forall t, now = Some t -> ts t < ts expiresAt) ->
  keeps_good now log db (extend_history identity now' expiresAt db).
Proof.
  intros Ht. assert (Hrow : forall k row', dbHistory (extend_history identity now' expiresAt db) !! k = Some row' ->
    exists row, dbHistory db !! k = Some row /\
      row' = if of_route identity k then touched now' expiresAt row else row).
  { intros k row'. cbn. rewrite map_lookup_imap. destruct (dbHistory db !! k) as [row|]; [|done].
    intros [= <-]. by exists row. }
  apply good_history; [done|done| |intros Hu; split].
  - intros k row' (row & E & ->)%Hrow. exists row. split; [done|]. by destruct (of_route identity k).
  - intros k row E _. cbn. rewrite map_lookup_imap, E. eexists. split; [done|]. by destruct (of_route identity k).
  - intros k row' t (row & E & ->)%Hrow Hn Et. destruct (of_route identity k) eqn:Ek; [by apply Ht|].
    apply (Hu k row t E); [|done]. by apply (needed_before log db (extend_history identity now' expiresAt db) k row row);
      [apply fewer_leases_same| |].
Qed.

(** Rows past their time are dropped. *)
Lemma keeps_needed_filter now log db (p : (bytes * Z) * HistoryRow -> bool) :
  (forall kv, p kv = true -> rhExpiresAt kv.2 <= ts now) -> unexpired (Some now) log db ->
  keeps_needed log db (with_History (filter (fun kv => p kv = false) (dbHistory db)) db).
Proof.
  intros Hp Hu k row E Hn. cbn. exists row. split; [|done]. apply map_lookup_filter_Some. split; [done|].
  destruct (p (k, row)) eqn:Ep; [|done]. apply Hp in Ep. pose proof (Hu _ _ now E Hn eq_refl). cbn in Ep. lia.
Qed.

Lemma good_drop now log db (p : (bytes * Z) * HistoryRow -> bool) :
  (forall kv, p kv = true -> rhExpiresAt kv.2 <= ts now) ->
  keeps_good (Some now) log db (with_History (filter (fun kv => p kv = false) (dbHistory db)) db).
Proof.
  intros Hp. apply good_history; [done|done| |intros Hu; split].
  - intros k row' E. cbn in E. apply map_lookup_filter_Some in E as [E _]. by exists row'.
  - by apply (keeps_needed_filter now).
  - apply (unexpired_same _ _ db); [by apply fewer_leases_same|apply map_filter_subseteq|done].
Qed.

Lemma good_drop_expired now log db : keeps_good (Some now) log db (drop_expired_history now db).
Proof. apply (good_drop now log db (fun kv => rhExpiresAt kv.2 <=? ts now)). intros kv H. by apply Z.leb_le. Qed.

Lemma stale_is_expired identity commitment now (kv : (bytes * Z) * HistoryRow) :
  stale_history identity commitment now kv.1 kv.2 = true -> rhExpiresAt kv.2 <= ts now.
Proof. unfold stale_history. intros [H _]%andb_prop. by apply Z.leb_le. Qed.

Lemma keeps_needed_drop log identity commitment now db :
  unexpired (Some now) log db -> keeps_needed log db (drop_stale_history identity commitment now db).
Proof. apply (keeps_needed_filter now log db), stale_is_expired. Qed.

Lemma good_drop_stale identity commitment now log db :
  keeps_good (Some now) log db (drop_stale_history identity commitment now db).
Proof. apply (good_drop now log db), stale_is_expired. Qed.

End Lineage.
