(* ===== verification/LineageMoves.v ===== *)
(** * Transactions that keep the lineage

    The transactions of the queue, the erasures, the fences, the policy, the sweep and the A9
    control vault: most touch neither leases nor installations nor the key history, the others
    only in ways [Lineage] allows. *)

From S2P Require Import Prelude GoBytes GoTime GoCrypto VaultCrypto Gate8Header Interfaces Sql A9Types A9VaultDb A9Vault A9VaultSpec A9Current Aggregates DeliveryJob DeliveryQueue DeliveryOps DeliveryAttempt Tombstones RouteKeys DeliveryErase Refresh Policy Routing Retention Moves Lineage.
Local Open Scope Z_scope.
Local Open Scope go_scope.

(** Neither leases nor installations nor the key history change. *)
Definition elsewhere (db db' : VaultDB) : Prop :=
  dbLeases db' = dbLeases db /\ dbInstallations db' = dbInstallations db /\ dbHistory db' = dbHistory db.

#[export] Instance elsewhere_preorder : PreOrder elsewhere.
Proof. split; [done|]. intros a b c (E1 & E2 & E3) (F1 & F2 & F3). split_and!; congruence. Qed.

Lemma moves_weaken {A : Type} (R R' : VaultDB -> VaultDB -> Prop) (m : vault_tx A) :
  (forall db db', R db db' -> R' db db') -> moves R m -> moves R' m.
Proof. intros Hw Hm s a s' H. apply Hw. by apply (Hm _ _ _ H). Qed.

Create HintDb writes.
#[export] Hint Unfold update_job delete_job update_jobs delete_jobs insert_job insert_dedupe drop_expired_dedupes
  put_cell drop_expired_deletions put_deletion drop_expired_aggregates put_authority insert_authority
  update_authority put_receipt insert_receipt put_control put_assertion put_watermark put_tombstone insert_tombstone put_binding upsert_binding drop_bindings
  delete_bindings drop_routes delete_routes checked cancel_jobs : writes.

(** One write on other tables. *)
Ltac write_elsewhere :=
  match goal with
  | |- moves _ (silently _) => apply moves_silently; intros ?
  | |- moves _ (affecting _) => apply moves_affecting; intros ?
  | |- moves _ (exec _) => apply moves_exec; intros ? ? Hwrite
  | |- moves _ (update _) => apply moves_update; intros ? ? ? Hwrite
  end;
  repeat match goal with
  | H : insert_control _ _ _ = Some _ |- _ => apply insert_control_put in H as [_ ->]
  | H : insert_assertion _ _ = Some _ |- _ => apply insert_assertion_put in H as [_ ->]
  | H : insert_watermark _ _ = Some _ |- _ => apply insert_watermark_put in H as [_ ->]
  end;
  autounfold with writes in *;
  repeat (case_match; simplify_eq/=);
  repeat match goal with
  | H : mbind _ _ = Some _ |- _ => apply bind_Some in H as (? & ? & ?); autounfold with writes in *
  | H : Some _ = Some _ |- _ => injection H as H
  | H : _ = ?db |- elsewhere _ ?db => first [subst db | rewrite <-H]
  end;
  repeat (case_match; simplify_eq/=); done.

Ltac quiet := repeat (first [progress split_moves | write_elsewhere]).

Section Quiet.
Context `{HP : Postgres, HG : AesGcm, HJ : JobJson, HT : A9TrustSurface}.

#[local] Abbreviation ts := pg_timestamp.

(** ** Shared steps *)

Lemma quiet_bound s : moves elsewhere (requireLookupKeyBoundTx s).
Proof. unfold requireLookupKeyBoundTx. quiet. Qed.

#[local] Hint Resolve quiet_bound : moves.

Lemma quiet_retention s host : moves elsewhere (requireRetentionSafeTx s host).
Proof. unfold requireRetentionSafeTx. apply moves_collapsed. quiet. Qed.

Definition quiet_current := moves_current elsewhere quiet_retention.

#[local] Hint Resolve quiet_retention quiet_current : moves.

Lemma quiet_aggregate s o now draw : moves elsewhere (recordOperationalAggregateTx s o now draw).
Proof. unfold recordOperationalAggregateTx. cbv zeta. quiet. Qed.

Lemma quiet_observation s o now draw : moves elsewhere (recordDeliveryObservationTx s o now draw).
Proof. unfold recordDeliveryObservationTx. split_moves. apply quiet_aggregate. Qed.

#[local] Hint Resolve quiet_observation : moves.

Lemma quiet_mark s host jobID reason : moves elsewhere (markDeliveryJobFinalTx s host jobID reason).
Proof. unfold markDeliveryJobFinalTx, unavailable. cbv zeta. quiet. Qed.

Lemma quiet_mark_lease host leaseID : moves elsewhere (markDeliveryJobsSafetyForLeaseTx host leaseID).
Proof. unfold markDeliveryJobsSafetyForLeaseTx, unavailable. quiet. Qed.

Lemma quiet_mark_installation host lookup except :
  moves elsewhere (markDeliveryJobsSafetyForInstallationTx host lookup except).
Proof. unfold markDeliveryJobsSafetyForInstallationTx, unavailable. quiet. Qed.

Lemma quiet_mark_expired now : moves elsewhere (markExpiredDeliveryJobsTx now).
Proof. unfold markExpiredDeliveryJobsTx, unavailable. quiet. Qed.

#[local] Hint Resolve quiet_mark quiet_mark_lease quiet_mark_installation quiet_mark_expired : moves.

Lemma quiet_complete s host draw jobID : moves elsewhere (completeDeliveryFinalizationTx s host draw jobID).
Proof. unfold completeDeliveryFinalizationTx, unavailable. quiet. Qed.

#[local] Hint Resolve quiet_complete : moves.

Lemma quiet_markers s round : moves elsewhere (completeDeliveryMarkersTx s round).
Proof. unfold completeDeliveryMarkersTx, unavailable. quiet. apply moves_each; [exact _|]. intros. quiet. Qed.

Lemma quiet_overdue s now : moves elsewhere (markOverdueErasureUnsafe s now).
Proof. unfold markOverdueErasureUnsafe, unavailable. quiet. Qed.

Lemma quiet_fence s kind identity version fence now :
  moves elsewhere (upsertDeletionTombstone s kind identity version fence now).
Proof. unfold upsertDeletionTombstone, store_unavailable. quiet. Qed.

Lemma quiet_advance_check s kind identity epoch now :
  moves elsewhere (requireTombstoneAdvance s kind identity epoch now).
Proof. unfold requireTombstoneAdvance, store_unavailable. quiet. Qed.

#[local] Hint Resolve quiet_markers quiet_overdue quiet_fence quiet_advance_check : moves.

(** ** The queue *)

Lemma quiet_recover s round : moves elsewhere (recover_tx s round).
Proof.
  unfold recover_tx, unavailable. quiet. apply moves_each; [exact _|]. intros [jobID j]. quiet.
Qed.

Lemma quiet_enqueue s round trust leaseID jobID job source maxQueued now :
  moves elsewhere (enqueue_tx s round trust leaseID jobID job source maxQueued now).
Proof.
  unfold enqueue_tx, enqueue_guard, from_result, same_route, current_topic, store_job, still_current,
    unavailable, database. cbv zeta. quiet.
Qed.

Lemma quiet_claim_one s round now deadline jobID j : moves elsewhere (claim_one s round now deadline jobID j).
Proof. unfold claim_one, unavailable. cbv zeta. quiet. Qed.

#[local] Hint Resolve quiet_claim_one : moves.

Lemma quiet_claim s round limit claimTTL : moves elsewhere (claim_tx s round limit claimTTL).
Proof.
  unfold claim_tx, unavailable. cbv zeta. split_moves.
  match goal with |- moves _ (claim_each _ _ _ _ ?rows) => induction rows as [|[jobID j] rows IH] end;
    cbn [claim_each]; split_moves.
Qed.

Lemma quiet_release s round jobID : moves elsewhere (release_tx s round jobID).
Proof. unfold release_tx, unavailable. quiet. Qed.

Lemma quiet_recover_erasures s round : moves elsewhere (recover_erasures_tx s round).
Proof. unfold recover_erasures_tx, release_erasures, unavailable. quiet. Qed.

Lemma quiet_claim_erasure s deadline jobID j : moves elsewhere (claim_erasure s deadline jobID j).
Proof. unfold claim_erasure, unavailable. quiet. Qed.

#[local] Hint Resolve quiet_claim_erasure : moves.

Lemma quiet_claim_erasures s round limit claimTTL : moves elsewhere (claim_erasures_tx s round limit claimTTL).
Proof.
  unfold claim_erasures_tx, release_erasures, unavailable. cbv zeta. quiet.
  match goal with |- moves _ (claim_erasures _ _ ?rows) => induction rows as [|[jobID j] rows IH] end;
    cbn [claim_erasures]; split_moves.
Qed.

Lemma quiet_reschedule_erasure s round jobID availableAt :
  moves elsewhere (reschedule_erasure_tx s round jobID availableAt).
Proof. unfold reschedule_erasure_tx, unavailable. quiet. Qed.

(** ** The control vault *)

Lemma quiet_keyset now sequence hash : moves elsewhere (requireA9KeysetTx now sequence hash).
Proof. unfold requireA9KeysetTx. split_moves. Qed.

Lemma quiet_latch inst reason now : moves elsewhere (latchA9UncertaintyTx inst reason now).
Proof. unfold latchA9UncertaintyTx, insertA9AuthorityTx. quiet. Qed.

#[local] Hint Resolve quiet_keyset quiet_latch : moves.

Lemma quiet_receipt key operation inst epoch hash result :
  moves elsewhere (insertA9ReceiptTx key operation inst epoch hash result).
Proof. unfold insertA9ReceiptTx. quiet. Qed.

Lemma quiet_receipt_result s key operation inst epoch hash authority now :
  moves elsewhere (a9ReceiptResultTx s key operation inst epoch hash authority now).
Proof. unfold a9ReceiptResultTx. quiet. Qed.

Lemma quiet_cancel inst binding now : moves elsewhere (cancelA9RoutesTx inst binding now).
Proof. unfold cancelA9RoutesTx. quiet. Qed.

Lemma quiet_load now inst epoch state reason : moves elsewhere (load_or_create now inst epoch state reason).
Proof. unfold load_or_create, loadA9AuthorityTx, insertA9AuthorityTx. quiet. Qed.

#[local] Hint Resolve quiet_receipt quiet_receipt_result quiet_cancel quiet_load : moves.

Lemma quiet_upsert event now : moves elsewhere (persistA9UpsertTx event now).
Proof. unfold persistA9UpsertTx. quiet. Qed.

Lemma quiet_revoke event contiguous now : moves elsewhere (persistA9RevokeTx event contiguous now).
Proof. unfold persistA9RevokeTx. quiet. Qed.

#[local] Hint Resolve quiet_upsert quiet_revoke : moves.

Lemma quiet_in_epoch s event now authority : moves elsewhere (apply_in_epoch s event now authority).
Proof.
  unfold apply_in_epoch, refuse_control, record_receipt, loadA9BindingTx, highestA9TombstoneVersionTx. cbv zeta.
  quiet.
Qed.

#[local] Hint Resolve quiet_in_epoch : moves.

Lemma quiet_control s event att : moves elsewhere (applyA9ControlOnce s event att).
Proof.
  unfold applyA9ControlOnce, apply_after_guards, control_authority, apply_new_epoch, refuse_control, record_receipt,
    a9EpochPreviouslyObservedTx, resetA9EpochTx. cbv zeta. quiet.
Qed.

Lemma quiet_watermark s watermark att : moves elsewhere (applyA9WatermarkOnce s watermark att).
Proof.
  unfold applyA9WatermarkOnce, watermark_after_guards, a9WatermarkAlreadyAcceptedTx, apply_fresh_watermark,
    append_watermark, latch_watermark. cbv zeta. quiet.
Qed.

End Quiet.

(** ** Transactions that touch leases, installations or the history *)

Section Keeps.
Context `{HP : Postgres, HG : AesGcm, HJ : JobJson, HT : A9TrustSurface}.
Variable st : Store.
Variable used : bytes -> bytes -> Prop.
Variable log : list issue.

#[local] Abbreviation ts := pg_timestamp.
#[local] Abbreviation keeps now := (keeps_good st used now log).

Lemma elsewhere_keeps now db db' : elsewhere db db' -> keeps now db db'.
Proof. intros (El & Ei & Eh). by apply good_elsewhere. Qed.

Lemma keeps_quiet now {A : Type} (m : vault_tx A) : moves elsewhere m -> moves (keeps now) m.
Proof. apply moves_weaken, elsewhere_keeps. Qed.

(** *** The queue *)

Lemma block_leases_keeps now lookup at_ db : keeps now db (block_leases lookup at_ db).
Proof. apply (good_map_leases st used). intros lease. by destruct (beq _ _). Qed.

Lemma keeps_block now lookup jobID host clock : moves (keeps now) (block_and_cancel lookup jobID host clock).
Proof.
  unfold block_and_cancel, unavailable.
  apply moves_bind; [exact _|apply moves_mapped, moves_silently; intros db; by apply (good_alter_installation st used)|].
  intros _. apply moves_bind; [exact _|apply moves_mapped, moves_silently; intros db; apply block_leases_keeps|].
  intros _. apply moves_bind; [exact _|apply keeps_quiet, quiet_mark_installation|].
  intros _. apply keeps_quiet. quiet.
Qed.

Lemma quiet_seal s round jobID marker : moves elsewhere (seal_marker s round jobID marker).
Proof. unfold seal_marker. split_moves. Qed.

Lemma quiet_hits_one f : (forall db, elsewhere db (f db).1) -> moves elsewhere (hits_one f).
Proof. intros Hf. unfold hits_one, unavailable. split_moves. by apply moves_affecting. Qed.

Lemma update_job_elsewhere jobID p f db : elsewhere db (update_job jobID p f db).1.
Proof. unfold update_job. by repeat case_match. Qed.

Lemma delete_job_elsewhere jobID p db : elsewhere db (delete_job jobID p db).1.
Proof. unfold delete_job. by repeat case_match. Qed.

#[local] Hint Resolve update_job_elsewhere delete_job_elsewhere quiet_hits_one quiet_seal quiet_mark : moves.

Lemma keeps_convert_guard now s round g availableAt : moves (keeps now) (convertInvalidTokenTx s round g availableAt).
Proof.
  unfold convertInvalidTokenTx. apply moves_bind; [exact _|apply keeps_quiet, quiet_seal|intros encrypted].
  apply moves_bind; [exact _|apply keeps_block|intros _]. apply keeps_quiet. auto with moves.
Qed.

Lemma keeps_complete now s round g result : moves (keeps now) (guard_Complete s round g result).
Proof.
  unfold guard_Complete. split_moves; first [apply keeps_convert_guard|
    apply keeps_quiet; unfold guard_markFinal; split_moves].
Qed.

Lemma keeps_attempt now s round trust job expectation at_ e :
  moves (keeps now) (attempt_tx s round trust job expectation at_ e).
Proof.
  unfold attempt_tx. apply moves_bind; [exact _|apply keeps_quiet, moves_acquire, quiet_retention; exact _|].
  intros [g|]; [|split_moves]. destruct e as [result| |]; split_moves; [apply keeps_complete|].
  apply keeps_quiet. unfold guard_RecordAttempt. split_moves.
Qed.

Lemma keeps_convert now s round jobID device token class availableAt :
  moves (keeps now) (convert_tx s round jobID device token class availableAt).
Proof.
  unfold convert_tx, current_token, unavailable. split_moves.
  - apply keeps_quiet, quiet_mark.
  - apply keeps_quiet, quiet_seal.
  - apply keeps_block.
  - apply moves_affecting. intros db. apply elsewhere_keeps, update_job_elsewhere.
Qed.

(** *** Deletions *)

Section Deletions.
Hypothesis ts_later : forall t, ts t < ts (t + 8 * day).

Lemma keeps_retire s identity epoch now : moves (keeps (Some now)) (retireRouteKeyHistory s identity epoch now).
Proof.
  unfold retireRouteKeyHistory, store_unavailable. split_moves. apply moves_affecting. intros db. cbn.
  apply good_extend. by intros t [= <-].
Qed.

Lemma keeps_fence now s kind identity version fence at_ :
  moves (keeps now) (upsertDeletionTombstone s kind identity version fence at_).
Proof. apply keeps_quiet, quiet_fence. Qed.

Lemma keeps_mark_installation now host lookup except :
  moves (keeps now) (markDeliveryJobsSafetyForInstallationTx host lookup except).
Proof. apply keeps_quiet, quiet_mark_installation. Qed.

Lemma keeps_mark_lease now host leaseID : moves (keeps now) (markDeliveryJobsSafetyForLeaseTx host leaseID).
Proof. apply keeps_quiet, quiet_mark_lease. Qed.

Lemma keeps_delete_leases now p : moves (keeps now) (exec (delete_leases p)).
Proof. apply moves_exec. intros db db'. apply good_delete_leases. Qed.

Lemma keeps_bound now s : moves (keeps now) (requireLookupKeyBoundTx s).
Proof. apply keeps_quiet, quiet_bound. Qed.

Lemma keeps_retention now s host : moves (keeps now) (requireRetentionSafeTx s host).
Proof. apply keeps_quiet, quiet_retention. Qed.

#[local] Hint Resolve keeps_retire keeps_fence keeps_mark_installation keeps_mark_lease keeps_delete_leases
  keeps_bound keeps_retention : moves.

Lemma keeps_erase s round lookup token :
  moves (keeps (Some (atHost (rdAttempt round)))) (erase_tx s round lookup token).
Proof.
  unfold erase_tx, current_token, unavailable. cbv zeta. split_moves.
  - apply moves_each; [exact _|]. intros lease. unfold fence_route, unavailable. split_moves.
  - apply moves_silently. intros db. by apply (good_alter_installation st used).
Qed.

Lemma keeps_reapply now s round : moves (keeps now) (reapply_tx s round).
Proof.
  unfold reapply_tx, markTombstonedDeliveryJobsTx, store_unavailable. cbv zeta. split_moves.
  - apply moves_silently. intros db. by apply elsewhere_keeps.
  - apply moves_each; [exact _|]. intros leaseID. split_moves.
  - apply moves_each; [exact _|]. intros lookup. split_moves.
  - apply moves_exec. intros db db'. apply good_delete_leases.
  - apply moves_exec. intros db db'. apply good_delete_installations.
Qed.

Lemma keeps_advance s mark control digest lookup existing now expiresAt :
  moves (keeps (Some now)) (advance s mark control digest lookup existing now expiresAt).
Proof.
  unfold advance, revokeAllLeases, store_unavailable. split_moves.
  - apply moves_each; [exact _|]. intros lease. unfold retire_lease, store_unavailable. split_moves.
  - apply moves_silently. intros db. by apply (good_alter_installation st used).
  - apply moves_silently. intros db. by apply (good_alter_installation st used).
  - apply moves_silently. intros db. apply (good_map_leases st used). intros lease. by destruct (beq _ _).
Qed.

Lemma keeps_find now s installationID at_ : moves (keeps now) (findInstallation s installationID at_).
Proof.
  unfold findInstallation. split_moves. induction (CandidateEpochs at_) as [|epoch epochs IH]; cbn [find_installation];
    unfold store_unavailable; split_moves.
Qed.

#[local] Hint Resolve keeps_advance keeps_find : moves.

Lemma keeps_policy s round control digest now expiresAt :
  moves (keeps (Some now)) (policy_tx s round control digest now expiresAt).
Proof.
  unfold policy_tx, fence_unknown, store_unavailable. cbv zeta. split_moves.
  apply moves_exec. intros db db'. apply good_insert_installation.
Qed.

(** *** The sweep *)

Lemma keeps_delete_expired sw round now : moves (keeps (Some now)) (delete_expired sw round now).
Proof.
  unfold delete_expired, retention. split_moves; apply moves_silently || apply moves_exec.
  - intros db. by apply elsewhere_keeps.
  - intros db. apply good_drop_expired.
  - intros db. by apply elsewhere_keeps.
  - intros db. by apply elsewhere_keeps.
  - intros db db'. apply good_delete_installations.
  - intros db. by apply elsewhere_keeps.
  - intros db. by apply elsewhere_keeps.
  - intros db. by apply elsewhere_keeps.
  - intros db. by apply elsewhere_keeps.
Qed.

Lemma keeps_sweep sw round startedAt : moves (keeps (Some startedAt)) (sweep_tx sw round startedAt).
Proof.
  unfold sweep_tx, deleteExpiredVaultRows, tombstoneExpiredLeases, tombstoneExpiredInstallations,
    markExpiringAuthorityDeliveryJobs, update_retention, retention. cbv zeta. split_moves.
  - apply moves_each; [exact _|]. intros lease. unfold tombstone_lease. split_moves.
  - apply moves_each; [exact _|]. intros row. unfold tombstone_installation. split_moves.
  - apply keeps_quiet, quiet_mark_expired.
  - apply moves_each; [exact _|]. intros leaseID. split_moves.
  - apply moves_each; [exact _|]. intros lookup. split_moves.
  - apply keeps_quiet, quiet_markers.
  - apply keeps_delete_expired.
  - apply moves_affecting. intros db. by apply elsewhere_keeps.
Qed.

End Deletions.
End Keeps.
