(* ===== verification/LineageRefresh.v ===== *)
(** * Refreshes keep the lineage

    The steps of a refresh that touch the key history and the leases: a recorded key is the
    latest of its route and belongs to no other, a replaced lease continues the nonces of its
    key or starts those of a key that was never recorded, an erased lease leaves its row. *)

From S2P Require Import Prelude GoBytes GoTime GoCrypto VaultCrypto Gate8Header Interfaces Authority Sql A9Types A9VaultDb A9Vault A9VaultSpec A9Current Aggregates DeliveryJob DeliveryQueue DeliveryOps DeliveryAttempt Tombstones RouteKeys DeliveryErase Refresh Policy Routing Retention Moves Lineage LineageMoves.
From stdpp Require Import sorting.
Local Open Scope Z_scope.
Local Open Scope go_scope.

(** ** The history as it is read *)

#[export] Instance later_epoch_trans : Transitive later_epoch.
Proof. intros a b c. unfold later_epoch. lia. Qed.

#[export] Instance later_epoch_total : Total later_epoch.
Proof. intros a b. unfold later_epoch. lia. Qed.

Lemma elem_of_history identity db epoch commitment :
  (epoch, commitment) ∈ route_history identity db <->
  exists row, dbHistory db !! (identity, epoch) = Some row /\ rhCommitment row = commitment.
Proof.
  unfold route_history. rewrite merge_sort_Permutation, list_elem_of_fmap. split.
  - intros ([[id e] row] & [= -> ->] & Hin). apply list_elem_of_In, filter_In in Hin as [Hin Hid].
    apply list_elem_of_In, elem_of_map_to_list in Hin. unfold of_route in Hid. cbn in Hid. apply beq_true in Hid as ->.
    by exists row.
  - intros (row & E & <-). exists ((identity, epoch), row). split; [done|]. apply list_elem_of_In, filter_In.
    split; [by apply list_elem_of_In, elem_of_map_to_list|apply beq_refl].
Qed.

Lemma history_head identity db epoch commitment rest :
  route_history identity db = (epoch, commitment) :: rest ->
  (exists row, dbHistory db !! (identity, epoch) = Some row /\ rhCommitment row = commitment) /\
  forall e row, dbHistory db !! (identity, e) = Some row -> e <= epoch.
Proof.
  intros E. split; [apply elem_of_history; rewrite E; left|]. intros e row Er.
  assert (Hin : (e, rhCommitment row) ∈ route_history identity db) by (apply elem_of_history; eauto).
  pose proof (StronglySorted_merge_sort later_epoch
    ((fun kv => (kv.1.2, rhCommitment kv.2)) <$>
       List.filter (fun kv => of_route identity kv.1) (map_to_list (dbHistory db)))) as Hs.
  fold (route_history identity db) in Hs. rewrite E in Hin, Hs. apply StronglySorted_inv in Hs as [_ Hs].
  rewrite list.Forall_forall in Hs. apply elem_of_cons in Hin as [[= -> _]|Hin]; [lia|]. by apply Hs in Hin.
Qed.

Lemma admitted identity db commitment epoch allowSameEpoch :
  history_admits (route_history identity db) commitment epoch allowSameEpoch = true ->
  (forall e row, dbHistory db !! (identity, e) = Some row -> e <= epoch) /\
  (forall row, dbHistory db !! (identity, epoch) = Some row -> rhCommitment row = commitment /\ allowSameEpoch = true).
Proof.
  intros H. destruct (route_history identity db) as [|[maxEpoch maxCommitment] rest] eqn:E.
  { assert (Hno : forall e row, dbHistory db !! (identity, e) = Some row -> False).
    { intros e row Er. assert (Hin : (e, rhCommitment row) ∈ route_history identity db)
        by (apply elem_of_history; eauto). rewrite E in Hin. by apply elem_of_nil in Hin. }
    split; intros; exfalso; eauto. }
  destruct (history_head _ _ _ _ _ E) as [(row0 & Er0 & Ec0) Hle]. cbn [history_admits] in H.
  destruct (epoch <? maxEpoch) eqn:E1; [done|]. boolprop. split.
  - intros e row Er. specialize (Hle _ _ Er). lia.
  - intros row Er. destruct (epoch =? maxEpoch) eqn:E2.
    + apply Z.eqb_eq in E2 as ->. apply andb_true_iff in H as [-> Hb%beq_true].
      rewrite Er0 in Er. injection Er as <-. by subst.
    + boolprop. specialize (Hle _ _ Er). lia.
Qed.

Lemma holder_of commitment db k row :
  (forall k k' row row', dbHistory db !! k = Some row -> dbHistory db !! k' = Some row' ->
     rhCommitment row = rhCommitment row' -> k = k') ->
  dbHistory db !! k = Some row -> rhCommitment row = commitment -> commitment_position commitment db = Some k.
Proof.
  intros Hu E Ec. unfold commitment_position.
  destruct (find _ _) as [[k' row']|] eqn:Ef; cbn.
  - apply find_some in Ef as [Hin Hb]. apply list_elem_of_In, elem_of_map_to_list in Hin. cbn in Hb.
    apply beq_true in Hb. f_equal. apply (Hu _ _ _ _ Hin E). congruence.
  - pose proof (find_none _ _ Ef (k, row)) as Hn. cbn in Hn. rewrite Ec, beq_refl in Hn.
    discriminate Hn. by apply list_elem_of_In, elem_of_map_to_list.
Qed.

Section Refreshes.
Context `{HP : Postgres, HG : AesGcm, HGL : !AesGcmLaws, HJ : JobJson, HT : A9TrustSurface}.
Variable s : Store.
Variable used : bytes -> bytes -> Prop.
Variable log : list issue.

#[local] Abbreviation ts := pg_timestamp.
#[local] Abbreviation good := (good s used).
#[local] Abbreviation lineage := (lineage s used).
#[local] Abbreviation committed := (committed s).
#[local] Abbreviation needed := (needed s).

(** ** Recording a key *)

(** The history after the key of a route was recorded. *)
Record recorded (identity commitment : bytes) (epoch now : Z) (same : bool) (db db' : VaultDB) : Prop := {
  rc_leases : dbLeases db' = dbLeases db;
  rc_installations : dbInstallations db' = dbInstallations db;
  rc_rows : forall k row', dbHistory db' !! k = Some row' -> rhCommitment row' = commitment /\ k = (identity, epoch) \/
    exists row, dbHistory db !! k = Some row /\ rhCommitment row = rhCommitment row';
  rc_needed : keeps_needed s log db db';
  rc_row : exists row, dbHistory db' !! (identity, epoch) = Some row /\ rhCommitment row = commitment;
  rc_latest : forall e row, dbHistory db' !! (identity, e) = Some row -> e <= epoch;
  rc_holder : forall k row, dbHistory db' !! k = Some row -> rhCommitment row = commitment -> k = (identity, epoch);
  rc_known : forall i, i ∈ log -> routeKeyCommitment s (isKey i) = Some commitment ->
    same = true /\ is_Some (dbHistory db !! (identity, epoch));
  rc_live : forall e row, dbHistory db' !! (identity, e) = Some row -> ts now < rhExpiresAt row;
  rc_unexpired : unexpired s (Some now) log db';
}.

Lemma insert_history_some key commitment now expiresAt db db' :
  insert_history key commitment now expiresAt db = Some db' ->
  (forall row, dbHistory db !! key = Some row -> rhCommitment row = commitment) ->
  exists row, rhCommitment row = commitment /\ rhExpiresAt row = ts expiresAt /\
    db' = with_History (<[key := row]> (dbHistory db)) db.
Proof.
  unfold insert_history. destruct (dbHistory db !! key) as [row|].
  - intros [= <-] H. exists (touched now expiresAt row). split; [exact (H row eq_refl)|done].
  - destruct (all_rows _ _); [|done]. intros [= <-] _. eexists. split; [|split; [|reflexivity]]; reflexivity.
Qed.

Lemma extended_row identity now expiresAt db k row' :
  dbHistory (extend_history identity now expiresAt db) !! k = Some row' <->
  exists row, dbHistory db !! k = Some row /\ row' = if of_route identity k then touched now expiresAt row else row.
Proof.
  cbn. rewrite map_lookup_imap. destruct (dbHistory db !! k) as [row|]; cbn; [|naive_solver].
  split; [intros [= <-]; by exists row|]. by intros (r & [= <-] & ->).
Qed.

Lemma extended_commitment identity now expiresAt db k row' :
  dbHistory (extend_history identity now expiresAt db) !! k = Some row' ->
  exists row, dbHistory db !! k = Some row /\ rhCommitment row' = rhCommitment row.
Proof. intros (row & E & ->)%extended_row. exists row. split; [done|]. by destruct (of_route identity k). Qed.

Lemma record_steps identity commitment epoch same now expiresAt st st' u :
  recordRouteKeyHistory s identity commitment epoch same now expiresAt st = Ok (u, st') ->
  let db1 := drop_stale_history identity commitment now (txDb st) in
  history_admits (route_history identity db1) commitment epoch same = true /\
  (forall k, commitment_position commitment db1 = Some k -> k = (identity, epoch)) /\
  insert_history (identity, epoch) commitment now expiresAt (extend_history identity now expiresAt db1) = Some (txDb st').
Proof.
  unfold recordRouteKeyHistory, store_unavailable. intros (? & s1 & [_ ->]%require_ok & H)%tx_bind_ok.
  apply tx_bind_ok in H as (? & s2 & [= E2]%mapped_ok%exec_ok & H).
  apply tx_bind_ok in H as (history & s3 & [-> E3]%mapped_ok%query_ok & H).
  apply tx_bind_ok in H as (? & s4 & [_ ->]%require_ok & H).
  apply tx_bind_ok in H as (? & s5 & [Ha ->]%ensure_ok & H).
  apply tx_bind_ok in H as (holder & s6 & [-> E6]%mapped_ok%query_ok & H).
  apply tx_bind_ok in H as (? & s7 & [Hh ->]%ensure_ok & H).
  apply tx_bind_ok in H as (? & s8 & [= E8]%mapped_ok%exec_ok & H%mapped_ok%exec_ok).
  rewrite <-E2 in *. rewrite E3 in *. rewrite E6 in *. rewrite <-E8 in H. cbn zeta. split; [done|]. split; [|done].
  intros [id e] Hk. rewrite Hk in Hh. apply andb_true_iff in Hh as [Hb He]. apply beq_true in Hb. boolprop. congruence.
Qed.

Lemma record_ok identity commitment epoch same now expiresAt st st' u :
  recordRouteKeyHistory s identity commitment epoch same now expiresAt st = Ok (u, st') ->
  ts now < ts expiresAt -> good (Some now) log (txDb st) ->
  recorded identity commitment epoch now same (txDb st) (txDb st').
Proof.
  intros Hx Hts Hg. apply record_steps in Hx as (Ha & Hh & Hi).
  pose proof (good_drop_stale s used identity commitment now log (txDb st) Hg) as Hg1.
  pose proof (keeps_needed_drop s log identity commitment now (txDb st) (proj2 Hg)) as Hk1.
  set (db := txDb st) in *. set (db' := txDb st') in *. set (db1 := drop_stale_history identity commitment now db) in *.
  pose proof (good_extend s used (Some now) log identity now expiresAt db1 ltac:(by intros t [= <-]) Hg1) as [_ Hu2].
  destruct Hg1 as [Hl1 _]. apply admitted in Ha as [Hle Hsame].
  assert (Hsub : dbHistory db1 ⊆ dbHistory db) by apply map_filter_subseteq.
  apply insert_history_some in Hi as (row & Ec & Ee & Edb);
    [|intros r (r0 & E0 & Er)%extended_commitment; rewrite Er; by apply Hsame].
  assert (Eh : dbHistory db' = <[(identity, epoch) := row]> (dbHistory (extend_history identity now expiresAt db1)))
    by (by rewrite Edb).
  assert (Hrows : forall k row', dbHistory db' !! k = Some row' -> k = (identity, epoch) /\ row' = row \/
    k <> (identity, epoch) /\ dbHistory (extend_history identity now expiresAt db1) !! k = Some row').
  { rewrite Eh. intros k row' [[<- <-]|[Hne E]]%lookup_insert_Some; [by left|right]. by split. }
  assert (Hhold : forall k r, dbHistory db1 !! k = Some r -> rhCommitment r = commitment -> k = (identity, epoch)).
  { intros k r E Er. apply Hh, (holder_of commitment db1 k r (ln_unique _ _ _ _ Hl1) E Er). }
  split; [by rewrite Edb|by rewrite Edb|..].
  - intros k row' [[-> ->]|[_ (r & E & Er)%extended_commitment]]%Hrows; [by left|right]. exists r.
    split; [by eapply lookup_weaken|done].
  - intros k r E Hn. destruct (Hk1 _ _ E Hn) as (r1 & E1 & Er1). rewrite Eh.
    destruct (decide (k = (identity, epoch))) as [->|Hne].
    + rewrite lookup_insert_eq. exists row. split; [done|]. rewrite Ec, <-Er1. symmetry. by apply Hsame.
    + rewrite lookup_insert_ne by done. eexists. split; [apply extended_row; by exists r1|].
      by destruct (of_route identity k).
  - exists row. by rewrite Eh, lookup_insert_eq.
  - intros e r [[[= ->] ->]|[_ (r0 & E & _)%extended_commitment]]%Hrows; [lia|]. by eapply Hle.
  - intros k r [[-> ->]|[_ (r0 & E & Er)%extended_commitment]]%Hrows Hc; [done|]. apply (Hhold k r0 E). congruence.
  - intros i Hi Hc. destruct (ln_log _ _ _ _ Hl1 i Hi) as (id & e & r & Hc' & Er).
    rewrite Hc in Hc'. injection Hc' as Hc'. rewrite (Hhold _ _ Er (eq_sym Hc')) in Er.
    split; [by apply (Hsame r)|]. exists r. by eapply lookup_weaken.
  - intros e r [[_ ->]|[_ (r0 & E & ->)%extended_row]]%Hrows; [lia|]. unfold of_route. cbn. by rewrite beq_refl.
  - intros k r t [[-> ->]|[_ E]]%Hrows Hn [= <-]; [lia|]. apply (Hu2 k r now E); [|done].
    by rewrite Edb in Hn.
Qed.

(** ** Leases after a key was recorded *)

Lemma recorded_sound identity commitment epoch now same db db' id lease :
  recorded identity commitment epoch now same db db' -> dbLeases db !! id = Some lease ->
  (lsRouteIdentity lease = identity -> epoch <= lsRouteKeyEpoch lease) ->
  sound_lease s used log db id lease -> sound_lease s used log db' id lease.
Proof.
  intros Hr E He [Hi Ht Ha Hl]. split; [|done| |].
  - destruct Hi as (row & Erow & Eid). exists row. by rewrite (rc_installations _ _ _ _ _ _ _ Hr).
  - destruct Ha as (key & nonce & Hk & Hn & Hc & Hlog). exists key, nonce. split; [done|]. split; [done|].
    split; [|done]. eapply committed_carries; [apply (rc_needed _ _ _ _ _ _ _ Hr)|done|].
    intros row _ _. left. by exists id, lease.
  - intros e [row Erow]. destruct (decide (lsRouteIdentity lease = identity)) as [Eq|Hne].
    + rewrite Eq in Erow. pose proof (rc_latest _ _ _ _ _ _ _ Hr _ _ Erow). specialize (He Eq). lia.
    + destruct (rc_rows _ _ _ _ _ _ _ Hr _ _ Erow) as [[_ [= Eq _]]|(r & Er & _)]; [done|]. apply Hl. eauto.
Qed.

Lemma recorded_unique identity commitment epoch now same db db' k k' row row' :
  recorded identity commitment epoch now same db db' -> lineage log db ->
  dbHistory db' !! k = Some row -> dbHistory db' !! k' = Some row' -> rhCommitment row = rhCommitment row' -> k = k'.
Proof.
  intros Hr H E E' Eq. destruct (decide (rhCommitment row = commitment)) as [Ec|Hne].
  - rewrite (rc_holder _ _ _ _ _ _ _ Hr _ _ E Ec). symmetry. apply (rc_holder _ _ _ _ _ _ _ Hr _ _ E'). congruence.
  - destruct (rc_rows _ _ _ _ _ _ _ Hr _ _ E) as [[? _]|(r & Er & Ecr)]; [done|].
    destruct (rc_rows _ _ _ _ _ _ _ Hr _ _ E') as [[? _]|(r' & Er' & Ecr')]; [congruence|].
    apply (ln_unique _ _ _ _ H _ _ _ _ Er Er'). congruence.
Qed.

Lemma recorded_log identity commitment epoch now same db db' i :
  recorded identity commitment epoch now same db db' -> lineage log db -> i ∈ log ->
  exists identity' epoch', committed db' (isKey i) identity' epoch'.
Proof.
  intros Hr H Hi. destruct (ln_log _ _ _ _ H _ Hi) as (id & e & Hc). exists id, e.
  eapply committed_carries; [apply (rc_needed _ _ _ _ _ _ _ Hr)|done|]. intros row _ Hrow. right. by exists i.
Qed.

(** The key of a lease is recorded again. *)
Lemma recorded_good identity commitment epoch now same db db' :
  recorded identity commitment epoch now same db db' ->
  (forall id lease, dbLeases db !! id = Some lease -> lsRouteIdentity lease = identity -> epoch <= lsRouteKeyEpoch lease) ->
  good (Some now) log db -> good (Some now) log db'.
Proof.
  intros Hr He [H Hu]. split; [|apply (rc_unexpired _ _ _ _ _ _ _ Hr)].
  pose proof (rc_leases _ _ _ _ _ _ _ Hr) as El. split.
  - rewrite El. intros id lease E. apply (recorded_sound _ _ _ _ _ _ _ _ _ Hr E (He _ _ E)), (ln_leases _ _ _ _ H _ _ E).
  - rewrite El. apply (ln_single _ _ _ _ H).
  - rewrite (rc_installations _ _ _ _ _ _ _ Hr). apply (ln_identities _ _ _ _ H).
  - intros k k' row row'. by eapply recorded_unique.
  - intros i. by eapply recorded_log.
  - apply (ln_once _ _ _ _ H).
Qed.

(** What is written as the lease of a route whose key was recorded. *)
Record new_lease (identity key : bytes) (epoch : Z) (nonce : nonceState) (db : VaultDB) (id : bytes) (row : LeaseRow)
    : Prop := {
  nl_identity : lsRouteIdentity row = identity;
  nl_epoch : lsRouteKeyEpoch row = epoch;
  nl_installed : installed db row;
  nl_routed : routed_for s used id row;
  nl_key : lease_key s id row = Some key;
  nl_nonce : lease_nonce s id row = Some nonce;
  nl_ahead : forall i, i ∈ log -> isKey i = key -> isSequence i < nsNextSequence nonce;
}.

(** The lease of the route is written after its key was recorded. *)
Lemma good_put_lease identity commitment epoch now same key nonce id row db db' :
  good (Some now) log db -> recorded identity commitment epoch now same db db' ->
  routeKeyCommitment s key = Some commitment -> new_lease identity key epoch nonce db id row ->
  (forall id' lease, dbLeases db !! id' = Some lease -> lsRouteIdentity lease = identity -> id' = id) ->
  good (Some now) log (with_Leases (<[id := row]> (dbLeases db')) db').
Proof.
  intros [H Hu] Hr Hc Hn Honly. pose proof (rc_leases _ _ _ _ _ _ _ Hr) as El. rewrite El.
  assert (Hother : forall id' lease, <[id := row]> (dbLeases db) !! id' = Some lease ->
    id' = id /\ lease = row \/ id' <> id /\ dbLeases db !! id' = Some lease /\ lsRouteIdentity lease <> identity).
  { intros id' lease [[<- <-]|[Hne E]]%lookup_insert_Some; [by left|right]. split; [done|]. split; [done|].
    intros Eq. apply Hne. symmetry. by apply (Honly _ _ E). }
  split; [split|]; cbn.
  - intros id' lease [[-> ->]|(_ & E & Hne)]%Hother.
    + destruct Hn as [Ei Ee (r & Er & Eid) Hrt Hk Hno Ha]. split; [|done| |].
      * exists r. cbn. by rewrite (rc_installations _ _ _ _ _ _ _ Hr).
      * exists key, nonce. split; [done|]. split; [done|]. split; [|done]. rewrite Ei, Ee.
        destruct (rc_row _ _ _ _ _ _ _ Hr) as (r0 & Er0 & Ec0). exists r0. by rewrite Ec0.
      * intros e [r0 Er0]. cbn in Er0. rewrite Ei in Er0. rewrite Ee. by apply (rc_latest _ _ _ _ _ _ _ Hr _ _ Er0).
    + destruct (recorded_sound _ _ _ _ _ _ _ id' lease Hr E ltac:(done) (ln_leases _ _ _ _ H _ _ E)). by split.
  - intros i i' lease lease' [[-> ->]|(_ & E & Hne)]%Hother [[-> ->]|(_ & E' & Hne')]%Hother Eq.
    + done.
    + by rewrite (nl_identity _ _ _ _ _ _ _ Hn) in Eq.
    + by rewrite (nl_identity _ _ _ _ _ _ _ Hn) in Eq.
    + by apply (ln_single _ _ _ _ H _ _ _ _ E E').
  - rewrite (rc_installations _ _ _ _ _ _ _ Hr). apply (ln_identities _ _ _ _ H).
  - intros k k' r r'. by eapply recorded_unique.
  - intros i Hi. exact (recorded_log _ _ _ _ _ _ _ _ Hr H Hi).
  - apply (ln_once _ _ _ _ H).
  - intros k r t E Hneed [= <-]. cbn in E. destruct Hneed as [(id' & lease & El' & ->)|Hlog].
    + cbn in El'. apply Hother in El' as [[-> ->]|(_ & El' & _)].
      * rewrite (nl_identity _ _ _ _ _ _ _ Hn) in E. by apply (rc_live _ _ _ _ _ _ _ Hr _ _ E).
      * apply (rc_unexpired _ _ _ _ _ _ _ Hr _ _ now E); [|done]. left. exists id', lease. by rewrite El.
    + apply (rc_unexpired _ _ _ _ _ _ _ Hr _ _ now E); [by right|done].
Qed.

(** ** The stored leases of the installation *)

(** What was loaded still describes the stored leases, as far as their topics are to do. *)
Record tracked (existing : gmap bytes existingLease) (lookup : bytes) (todo : bytes -> Prop) (db : VaultDB) : Prop := {
  tk_stored : forall topic e, existing !! topic = Some e -> todo topic -> exists lease,
    dbLeases db !! elLeaseID e = Some lease /\ lsRouteIdentity lease = elRouteIdentity e /\
    lsRouteKeyEpoch lease = elRouteKeyEpoch e /\ lsEncryptedNonceState lease = elEncryptedNonceState e /\
    lsEncryptedRouteKey lease = elEncryptedRouteKey e /\ lease_topic s (elLeaseID e) lease = Some topic;
  tk_all : forall id lease topic, dbLeases db !! id = Some lease -> lsInstallationLookup lease = lookup ->
    lease_topic s id lease = Some topic -> todo topic -> is_Some (existing !! topic);
}.

Lemma tracked_same existing lookup todo db db' :
  dbLeases db' = dbLeases db -> tracked existing lookup todo db -> tracked existing lookup todo db'.
Proof. intros El [H1 H2]. split; rewrite El; done. Qed.

Lemma existing_lease_some id lease e :
  existing_lease s id lease = Some e ->
  elLeaseID e = id /\ lsRouteIdentity lease = elRouteIdentity e /\
  lsRouteKeyEpoch lease = elRouteKeyEpoch e /\ lsEncryptedNonceState lease = elEncryptedNonceState e /\
  lsEncryptedRouteKey lease = elEncryptedRouteKey e /\ lease_topic s id lease = Some (elTopic e).
Proof.
  unfold existing_lease, lease_topic, lease_field. destruct (_ || _); [done|].
  destruct (Open _ _ _); [|done]. by intros [= <-].
Qed.

Lemma existing_leases_some rows out out' :
  existing_leases s rows out = Some out' ->
  (forall topic e, out' !! topic = Some e -> out !! topic = Some e \/
     exists id lease, (id, lease) ∈ rows /\ existing_lease s id lease = Some e /\ elTopic e = topic) /\
  (forall topic, is_Some (out !! topic) -> is_Some (out' !! topic)) /\
  (forall id lease, (id, lease) ∈ rows -> exists e, existing_lease s id lease = Some e /\ is_Some (out' !! elTopic e)).
Proof.
  revert out. induction rows as [|[id lease] rows IH]; intros out; cbn [existing_leases].
  { intros [= ->]. split; [by left|]. split; [done|]. by intros ?? ?%elem_of_nil. }
  intros (e & He & H)%bind_Some. apply IH in H as (H1 & H2 & H3). split; [|split].
  - intros topic e' E. destruct (H1 _ _ E) as [E'|(id' & l' & Hin & Hx)].
    + apply lookup_insert_Some in E' as [[<- <-]|[_ E']]; [|by left]. right. exists id, lease. split; [left|done].
    + right. exists id', l'. split; [by right|done].
  - intros topic [e' E]. apply H2. destruct (decide (elTopic e = topic)) as [->|Hne].
    + rewrite lookup_insert_eq. by eexists.
    + rewrite lookup_insert_ne by done. by eexists.
  - intros id' l' [[= -> ->]|Hin]%elem_of_cons; [|by apply H3]. exists e. split; [done|]. apply H2.
    rewrite lookup_insert_eq. by eexists.
Qed.

Lemma load_tracked lookup st st' existing :
  loadExistingLeases s lookup st = Ok (existing, st') ->
  txDb st' = txDb st /\ tracked existing lookup (fun _ => True) (txDb st).
Proof.
  unfold loadExistingLeases, store_unavailable.
  intros (rows & s1 & [-> E1]%mapped_ok%query_ok & [Hx ->]%known_ok)%tx_bind_ok. split; [done|].
  apply existing_leases_some in Hx as (H1 & _ & H3).
  assert (Hin : forall id lease, (id, lease) ∈ List.filter (fun kv => beq (lsInstallationLookup kv.2) lookup)
      (map_to_list (dbLeases (txDb st))) <-> dbLeases (txDb st) !! id = Some lease /\ lsInstallationLookup lease = lookup).
  { intros id lease. rewrite list_elem_of_In, filter_In, <-list_elem_of_In, elem_of_map_to_list. cbn.
    split; intros [E Hb]; (split; [done|]); [by apply beq_true|]. rewrite Hb. apply beq_refl. }
  split.
  - intros topic e E _. destruct (H1 _ _ E) as [E'|(id & lease & Hrow & He & <-)]; [by rewrite lookup_empty in E'|].
    apply Hin in Hrow as [Hrow _]. apply existing_lease_some in He as (<- & He). by exists lease.
  - intros id lease topic E El Et _. destruct (H3 id lease) as (e & He & Hs); [by apply Hin|].
    apply existing_lease_some in He as (_ & _ & _ & _ & _ & Et'). rewrite Et in Et'. by injection Et' as ->.
Qed.

(** ** Reading and writing sealed values *)

Lemma opened_ok context value plain st st' :
  opened s context value st = Ok (plain, st') -> Open (stEncryption s) context value = Ok plain /\ st' = st.
Proof. unfold opened. destruct (Open _ _ _); [by intros [-> ->]%ret_ok|done]. Qed.

Hypothesis version_range : 0 <= krActiveVersion (stEncryption s) < 2 ^ 32.

Lemma sealed_ok entropy context plain value st st' :
  sealed s entropy context plain st = Ok (value, st') -> Open (stEncryption s) context value = Ok plain /\ st' = st.
Proof.
  unfold sealed. destruct (Seal _ _ _ _) eqn:E; [|done]. intros [-> ->]%ret_ok. split; [|done].
  by apply (seal_reopens (stEncryption s) (stEncryption s)) in E.
Qed.

Lemma prefix_ok draws topic prefix st st' :
  random_prefix draws topic st = Ok (prefix, st') -> 0 <= prefix < 2 ^ 32 /\ st' = st.
Proof.
  unfold random_prefix. intros (b & s1 & [Hb ->]%known_ok & [-> ->]%ret_ok)%tx_bind_ok. split; [|done].
  apply read_full_some in Hb as [_ Hb]. pose proof (be_decode_range b). rewrite Hb in *. done.
Qed.

Definition sized (nonce : nonceState) : Prop := 0 <= nsPrefix nonce < 2 ^ 32 /\ 0 <= nsNextSequence nonce < 2 ^ 64.

(** What [lease_lineage] answers for a stored lease and for none. *)
Definition lineage_of (draws : LeaseDraws) (sub : normalizedSubscription) (existing : option existingLease)
    (leaseID : bytes) (nonce : nonceState) : Prop :=
  match existing with
  | None => read_full 16 (ldLeaseID draws (nmTopic sub)) = Some leaseID
  | Some e =>
      leaseID = elLeaseID e /\
      (elRouteKeyEpoch e < nmRouteKeyEpoch sub \/
       nmRouteKeyEpoch sub = elRouteKeyEpoch e /\
       lease_field s leaseID (str "route-key") (elEncryptedRouteKey e) = Some (nmRouteKey sub) /\
       (lease_field s leaseID (str "nonce-state") (elEncryptedNonceState e) ≫= decodeNonceState) = Some nonce)
  end.

Lemma lease_lineage_ok draws sub existing leaseID nonce st st' :
  lease_lineage s draws sub existing st = Ok ((leaseID, nonce), st') ->
  elsewhere (txDb st) (txDb st') /\ sized nonce /\ lineage_of draws sub existing leaseID nonce.
Proof.
  unfold lease_lineage. destruct existing as [e|].
  - intros (? & s1 & [He ->]%ensure_ok & H)%tx_bind_ok. boolprop.
    apply tx_bind_ok in H as (same & s2 & Hsame & H). unfold same_route_key in Hsame.
    apply tx_bind_ok in Hsame as (old & s3 & [Hold ->]%opened_ok & [-> ->]%ret_ok).
    destruct (nmRouteKeyEpoch sub =? elRouteKeyEpoch e) eqn:Ee; boolprop.
    + apply tx_bind_ok in H as (? & s4 & [Hb ->]%ensure_ok & H). apply beq_true in Hb as ->.
      apply tx_bind_ok in H as (encoded & s5 & [Hn ->]%opened_ok & H).
      apply tx_bind_ok in H as (n & s6 & [Hd ->]%known_ok & [[= -> ->] ->]%ret_ok).
      split; [done|]. split; [by apply decoded_nonce_range in Hd|]. split; [done|]. right. split; [done|].
      unfold lease_field. by rewrite Hold, Hn.
    + apply tx_bind_ok in H as (? & s4 & [_ ->]%ensure_ok & H).
      apply tx_bind_ok in H as (? & s5 & Hm%mapped_ok%quiet_mark_lease & H).
      apply tx_bind_ok in H as (prefix & s6 & [Hp ->]%prefix_ok & [[= -> ->] ->]%ret_ok).
      split; [done|]. split; [by split|]. split; [done|]. left. lia.
  - intros (id & s1 & [Hid ->]%known_ok & H)%tx_bind_ok.
    apply tx_bind_ok in H as (prefix & s6 & [Hp ->]%prefix_ok & [[= -> ->] ->]%ret_ok). by split.
Qed.

Section Upsert.
Context `{HVJ : VaultJson}.
Hypothesis ts_mono : forall a b, a <= b -> ts a <= ts b.
Hypothesis ts_later : forall t, ts t < ts (t + 8 * day).

(** What a sealed lease is, read back. *)
Record sealed_lease (terms : RefreshTerms) (sub : normalizedSubscription) (ident routeIdentity leaseID : bytes)
    (nonce : nonceState) (row : LeaseRow) : Prop := {
  se_lookup : lsInstallationLookup row = tmLookup terms;
  se_ident : lsInstallationIdentity row = ident;
  se_route : lsRouteIdentity row = routeIdentity;
  se_epoch : lsRouteKeyEpoch row = nmRouteKeyEpoch sub;
  se_topic : lease_topic s leaseID row = Some (nmTopic sub);
  se_key : lease_key s leaseID row = Some (nmRouteKey sub);
  se_nonce : lease_nonce s leaseID row = Some nonce;
}.

Lemma seal_lease_ok draws terms sub ident routeIdentity leaseID nonce row st st' :
  seal_lease s draws terms sub ident routeIdentity leaseID nonce st = Ok (row, st') -> sized nonce ->
  st' = st /\ sealed_lease terms sub ident routeIdentity leaseID nonce row.
Proof.
  unfold seal_lease. intros (? & s1 & [_ ->]%known_ok & H)%tx_bind_ok [Hp Hn].
  apply tx_bind_ok in H as (topic & s2 & [Ht ->]%sealed_ok & H).
  apply tx_bind_ok in H as (key & s3 & [Hk ->]%sealed_ok & H).
  apply tx_bind_ok in H as (state & s4 & [Hs ->]%sealed_ok & H).
  apply tx_bind_ok in H as (? & s5 & [_ ->]%known_ok & H).
  apply tx_bind_ok in H as (hmac & s6 & [_ ->]%sealed_ok & H).
  apply tx_bind_ok in H as (? & s7 & [_ ->]%known_ok & H).
  apply tx_bind_ok in H as (capability & s8 & [_ ->]%sealed_ok & [-> ->]%ret_ok).
  split; [done|]. split; try done; unfold lease_topic, lease_key, lease_nonce, lease_field;
    cbn [lsEncryptedTopic lsEncryptedRouteKey lsEncryptedNonceState].
  - by rewrite Ht.
  - by rewrite Hk.
  - rewrite Hs. cbn. by apply decode_encode_nonce.
Qed.

(** The installation whose leases are replaced. *)
Definition installed_as (terms : RefreshTerms) (db : VaultDB) : Prop := exists row,
  dbInstallations db !! tmLookup terms = Some row /\
  installationDeletionIdentity s (tmInstallationID terms) = Some (inIdentity row).

Hypothesis routes_differ : forall id topic id' topic' identity,
  used id topic -> used id' topic' -> routeHistoryIdentity s id topic = Some identity ->
  routeHistoryIdentity s id' topic' = Some identity -> id = id' /\ topic = topic'.

(** A lease of the route is a lease of the installation for the topic. *)
Lemma lease_of_route db terms topic identity id lease :
  lineage log db -> installed_as terms db -> used (tmInstallationID terms) topic ->
  routeHistoryIdentity s (tmInstallationID terms) topic = Some identity ->
  dbLeases db !! id = Some lease -> lsRouteIdentity lease = identity ->
  lsInstallationLookup lease = tmLookup terms /\ lease_topic s id lease = Some topic.
Proof.
  intros H (row & Er & Ei) Hu Hid E <-. destruct (ln_leases _ _ _ _ H _ _ E) as [(r & Er' & Ei') Ht _ _].
  destruct Ht as (iid & t & Hu' & Hd & Hr & Ht). destruct (routes_differ _ _ _ _ _ Hu Hu' Hid Hr) as [<- <-].
  split; [|done]. rewrite Hd in Ei. injection Ei as Ei. apply (ln_identities _ _ _ _ H _ _ _ _ Er' Er). congruence.
Qed.

Lemma upsert_lease_some leaseID row db db' :
  upsert_lease leaseID row db = Some db' -> db' = with_Leases (<[leaseID := row]> (dbLeases db)) db.
Proof. unfold upsert_lease. destruct (_ && _); [by intros [= <-]|done]. Qed.

(** The steps of an upsert. *)
Lemma upsert_steps draws terms sub existing st st' u :
  upsertLease s draws terms sub existing st = Ok (u, st') ->
  exists ident identity commitment leaseID nonce row st1 st2,
    installationDeletionIdentity s (tmInstallationID terms) = Some ident /\
    routeHistoryIdentity s (tmInstallationID terms) (nmTopic sub) = Some identity /\
    (forall e, existing = Some e -> elRouteIdentity e = identity) /\
    routeKeyCommitment s (nmRouteKey sub) = Some commitment /\
    elsewhere (txDb st) (txDb st1) /\ lineage_of draws sub existing leaseID nonce /\
    recordRouteKeyHistory s identity commitment (nmRouteKeyEpoch sub) (bool_decide (is_Some existing))
      (tmNow terms) (tmExpiresAt terms + 8 * day) st1 = Ok (tt, st2) /\
    sealed_lease terms sub ident identity leaseID nonce row /\
    txDb st' = with_Leases (<[leaseID := row]> (dbLeases (txDb st2))) (txDb st2).
Proof.
  unfold upsertLease. intros (ident & s1 & [Hi ->]%known_ok & H)%tx_bind_ok.
  apply tx_bind_ok in H as (identity & s2 & [Hr ->]%known_ok & H).
  apply tx_bind_ok in H as (? & s3 & Hq%quiet_advance_check & H).
  apply tx_bind_ok in H as (? & s4 & [He ->]%require_ok & H).
  apply tx_bind_ok in H as (commitment & s5 & [Hc ->]%known_ok & H).
  apply tx_bind_ok in H as ([leaseID nonce] & st1 & (Hq' & Hn & Hl)%lease_lineage_ok & H).
  apply tx_bind_ok in H as ([] & st2 & Hrec & H).
  apply tx_bind_ok in H as (row & s6 & [-> Hs]%seal_lease_ok & Hx%mapped_ok%exec_ok%upsert_lease_some); [|done].
  exists ident, identity, commitment, leaseID, nonce, row, st1, st2. repeat (split; [done|]).
  split; [intros e ->; by apply beq_true|]. split; [done|]. split; [by etrans|]. done.
Qed.

(** A drawn identifier is not in use. *)
Definition unused (draws : LeaseDraws) (topic : bytes) (db : VaultDB) : Prop :=
  forall id, read_full 16 (ldLeaseID draws topic) = Some id -> dbLeases db !! id = None.

(** What an upsert of a lease may rely on, and leaves for the next. *)
Record ready (terms : RefreshTerms) (existing : gmap bytes existingLease) (todo : bytes -> Prop) (db : VaultDB)
    : Prop := {
  rd_good : good (Some (tmNow terms)) log db;
  rd_tracked : tracked existing (tmLookup terms) todo db;
  rd_installed : installed_as terms db;
}.

Lemma ready_elsewhere terms existing todo db db' :
  elsewhere db db' -> ready terms existing todo db -> ready terms existing todo db'.
Proof.
  intros Hq [Hg Ht (row & Hi)]. pose proof Hq as (El & Ei & _). split.
  - by eapply elsewhere_keeps.
  - by eapply tracked_same.
  - exists row. by rewrite Ei.
Qed.

(** Where a lease with the identity of the route is found. *)
Definition sits (identity leaseID : bytes) (db : VaultDB) : Prop :=
  forall id lease, dbLeases db !! id = Some lease -> lsRouteIdentity lease = identity -> id = leaseID.

Lemma route_sits terms existing todo draws sub identity leaseID nonce db :
  ready terms existing todo db -> todo (nmTopic sub) -> used (tmInstallationID terms) (nmTopic sub) ->
  routeHistoryIdentity s (tmInstallationID terms) (nmTopic sub) = Some identity ->
  (forall e, existing !! nmTopic sub = Some e -> elRouteIdentity e = identity) ->
  lineage_of draws sub (existing !! nmTopic sub) leaseID nonce -> sits identity leaseID db.
Proof.
  intros [[Hg _] Ht Hi] Hdo Hu Hid He Hl id lease E Eq.
  destruct (lease_of_route _ _ _ _ _ _ Hg Hi Hu Hid E Eq) as [Elook Etopic].
  destruct (tk_all _ _ _ _ Ht _ _ _ E Elook Etopic Hdo) as [e Ee]. rewrite Ee in Hl. destruct Hl as [-> _].
  destruct (tk_stored _ _ _ _ Ht _ _ Ee Hdo) as (lease' & E' & Eid & _).
  apply (ln_single _ _ _ _ Hg _ _ _ _ E E'). rewrite Eid. by rewrite (He _ Ee).
Qed.

(** The nonces of the key that were given out are behind the lease's. *)
Lemma route_ahead terms existing todo draws sub identity commitment leaseID nonce db db' i :
  ready terms existing todo db -> todo (nmTopic sub) ->
  (forall e, existing !! nmTopic sub = Some e -> elRouteIdentity e = identity) ->
  lineage_of draws sub (existing !! nmTopic sub) leaseID nonce ->
  routeKeyCommitment s (nmRouteKey sub) = Some commitment ->
  recorded identity commitment (nmRouteKeyEpoch sub) (tmNow terms)
    (bool_decide (is_Some (existing !! nmTopic sub))) db db' ->
  i ∈ log -> isKey i = nmRouteKey sub -> isSequence i < nsNextSequence nonce.
Proof.
  intros [[Hg _] Ht _] Hdo He Hl Hc Hr Hi Ek. rewrite <-Ek in Hc.
  destruct (rc_known _ _ _ _ _ _ _ Hr i Hi Hc) as [Hsome [row Hrow]]. apply bool_decide_eq_true_1 in Hsome as [e Ee].
  rewrite Ee in Hl. destruct Hl as [-> Hl]. destruct (tk_stored _ _ _ _ Ht _ _ Ee Hdo) as (lease & E & Eid & Eep & En & Erk & _).
  rewrite (He _ Ee) in Eid. pose proof (ln_leases _ _ _ _ Hg _ _ E) as [_ _ (key & n & Hk & Hn & _ & Hlog) Hlatest].
  destruct Hl as [Hlt|(Eq & Hkey & Hnonce)].
  - exfalso. specialize (Hlatest (nmRouteKeyEpoch sub)). rewrite Eid, Eep in Hlatest. specialize (Hlatest ltac:(eauto)). lia.
  - unfold lease_key in Hk. rewrite Erk, Hkey in Hk. injection Hk as <-. unfold lease_nonce in Hn.
    rewrite En in Hn. assert (Some nonce = Some n) as [= <-] by (rewrite <-Hnonce; exact Hn). by apply Hlog.
Qed.

Lemma tracked_put existing lookup todo draws sub leaseID nonce row db db' :
  tracked existing lookup todo db -> todo (nmTopic sub) ->
  lineage_of draws sub (existing !! nmTopic sub) leaseID nonce -> unused draws (nmTopic sub) db ->
  lease_topic s leaseID row = Some (nmTopic sub) ->
  dbLeases db' = <[leaseID := row]> (dbLeases db) ->
  tracked existing lookup (fun topic => todo topic /\ topic <> nmTopic sub) db'.
Proof.
  intros Ht Hdo Hl Hfresh Etopic El. split; rewrite El.
  - intros topic e Ee [Hdo' Hne]. destruct (tk_stored _ _ _ _ Ht _ _ Ee Hdo') as (lease & E & H).
    exists lease. split; [|done]. rewrite lookup_insert_ne; [done|]. intros ->.
    destruct (existing !! nmTopic sub) as [e'|] eqn:Ee'.
    + destruct Hl as [Eid _]. destruct (tk_stored _ _ _ _ Ht _ _ Ee' Hdo) as (lease' & E' & H').
      rewrite <-Eid, E in E'. injection E' as <-. destruct H as (_ & _ & _ & _ & H), H' as (_ & _ & _ & _ & H').
      rewrite Eid in H. congruence.
    + rewrite (Hfresh _ Hl) in E. done.
  - intros id lease topic [[<- <-]|[_ E]]%lookup_insert_Some Elook Et [Hdo' Hne]; [congruence|].
    by apply (tk_all _ _ _ _ Ht _ _ _ E Elook Et).
Qed.

Lemma upsert_lease_ok draws terms sub existing todo st st' u :
  upsertLease s draws terms sub (existing !! nmTopic sub) st = Ok (u, st') ->
  ready terms existing todo (txDb st) -> todo (nmTopic sub) -> used (tmInstallationID terms) (nmTopic sub) ->
  unused draws (nmTopic sub) (txDb st) -> tmNow terms <= tmExpiresAt terms ->
  ready terms existing (fun topic => todo topic /\ topic <> nmTopic sub) (txDb st') /\
  forall id, dbLeases (txDb st) !! id = None -> read_full 16 (ldLeaseID draws (nmTopic sub)) <> Some id ->
    dbLeases (txDb st') !! id = None.
Proof.
  intros (ident & identity & commitment & leaseID & nonce & row & st1 & st2 & Hident & Hid & He & Hc & Hq & Hl &
    Hrec & Hs & Edb)%upsert_steps Hready Hdo Hu Hfresh Hle.
  pose proof (ready_elsewhere _ _ _ _ _ Hq Hready) as Hready1. destruct Hq as (El1 & _ & _).
  assert (Hts : ts (tmNow terms) < ts (tmExpiresAt terms + 8 * day)).
  { apply Z.lt_le_trans with (ts (tmNow terms + 8 * day)); [apply ts_later|apply ts_mono; lia]. }
  pose proof (record_ok _ _ _ _ _ _ _ _ _ Hrec Hts (rd_good _ _ _ _ Hready1)) as Hr.
  pose proof (rc_leases _ _ _ _ _ _ _ Hr) as El2.
  assert (Hsits : sits identity leaseID (txDb st1)) by by eapply route_sits.
  assert (El : dbLeases (txDb st') = <[leaseID := row]> (dbLeases (txDb st))) by (rewrite Edb; cbn; congruence).
  assert (Hnew : new_lease identity (nmRouteKey sub) (nmRouteKeyEpoch sub) nonce (txDb st1) leaseID row).
  { destruct Hs as [Es Ei Er Ee Et Ek En]. split; try done.
    - destruct (rd_installed _ _ _ _ Hready1) as (r & E & Eid). exists r. rewrite Es, Ei. split; [done|].
      rewrite Hident in Eid. by injection Eid as <-.
    - exists (tmInstallationID terms), (nmTopic sub). by rewrite Ei, Er.
    - intros i. by eapply route_ahead. }
  split; [split|].
  - rewrite Edb. by eapply (good_put_lease identity); [apply Hready1|..].
  - eapply tracked_put; [apply Hready|done|done|done|apply Hs|done].
  - destruct (rd_installed _ _ _ _ Hready1) as (r & E & Eid). exists r. rewrite Edb. cbn.
    by rewrite (rc_installations _ _ _ _ _ _ _ Hr).
  - intros id Hnone Hdraw. rewrite El. apply lookup_insert_None. split; [done|]. intros <-.
    destruct (existing !! nmTopic sub) as [e|] eqn:Ee; [|done]. destruct Hl as [-> _].
    destruct (tk_stored _ _ _ _ (rd_tracked _ _ _ _ Hready) _ _ Ee Hdo) as (lease & E & _). congruence.
Qed.

(** ** Erasing the other leases *)

Lemma erase_ok draws terms existing todo topic e st st' u :
  eraseLease s draws (tmNow terms) e st = Ok (u, st') -> existing !! topic = Some e -> todo topic ->
  ready terms existing todo (txDb st) ->
  ready terms existing (fun t => todo t /\ t <> topic) (txDb st').
Proof.
  unfold eraseLease, store_unavailable. intros (? & s1 & Hm%mapped_ok%quiet_mark_lease & H)%tx_bind_ok Ee Hdo Hready.
  apply (ready_elsewhere _ _ _ _ _ Hm) in Hready.
  apply tx_bind_ok in H as (key & s2 & [_ ->]%opened_ok & H).
  apply tx_bind_ok in H as (commitment & s3 & [_ ->]%known_ok & H).
  apply tx_bind_ok in H as (? & s4 & Hrec & H).
  apply tx_bind_ok in H as (? & s5 & Hq%quiet_fence & Hx%mapped_ok%exec_ok).
  destruct (tk_stored _ _ _ _ (rd_tracked _ _ _ _ Hready) _ _ Ee Hdo) as (lease & E & Eid & Eep & _ & _ & Et).
  pose proof (record_ok _ _ _ _ _ _ _ _ _ Hrec (ts_later _) (rd_good _ _ _ _ Hready)) as Hr.
  pose proof Hready as [Hg Ht (row & Erow & Eident)].
  apply (recorded_good _ _ _ _ _ _ _ Hr) in Hg; last first.
  { intros id l El Er. rewrite <-Eid in Er. pose proof (ln_single _ _ _ _ (proj1 Hg) _ _ _ _ El E Er) as ->.
    rewrite E in El. injection El as <-. lia. }
  apply (elsewhere_keeps _ _ _ _ _ _ Hq) in Hg. apply (good_delete_leases s used _ _ _ _ _ Hx) in Hg.
  destruct Hq as (El5 & Ei5 & _). unfold delete_leases in Hx. destruct (negb _); [done|]. injection Hx as Hx.
  assert (Ei : dbInstallations (txDb st') = dbInstallations (txDb s1))
    by (rewrite <-Hx; cbn; by rewrite Ei5, (rc_installations _ _ _ _ _ _ _ Hr)).
  assert (El : dbLeases (txDb st') = filter (fun kv => beq kv.1 (elLeaseID e) = false) (dbLeases (txDb s1)))
    by (rewrite <-Hx; cbn; by rewrite El5, (rc_leases _ _ _ _ _ _ _ Hr)).
  split; [done|split|exists row; by rewrite Ei]; rewrite El.
  - intros t e' Ee' [Hdo' Hne]. destruct (tk_stored _ _ _ _ Ht _ _ Ee' Hdo') as (l' & E' & H'). exists l'.
    split; [|done]. apply map_lookup_filter_Some. split; [done|]. cbn. apply beq_false. intros Eq.
    rewrite Eq, E in E'. injection E' as <-. destruct H' as (_ & _ & _ & _ & H'). rewrite Eq in H'. congruence.
  - intros id l t [E' _]%map_lookup_filter_Some Elook Et' [Hdo' _]. by apply (tk_all _ _ _ _ Ht _ _ _ E' Elook Et').
Qed.

(** ** Replacing the leases *)

Lemma ready_weaken terms existing (todo todo' : bytes -> Prop) db :
  (forall t, todo' t -> todo t) -> ready terms existing todo db -> ready terms existing todo' db.
Proof.
  intros Hw [Hg [Hs Ha] Hi]. split; [done|split|done].
  - intros topic e E Hdo. apply (Hs _ _ E), Hw, Hdo.
  - intros id lease topic E El Et Hdo. apply (Ha _ _ _ E El Et), Hw, Hdo.
Qed.

(** What a refresh may draw: identifiers that are not in use, another for each topic. *)
Definition drawn_apart (draws : LeaseDraws) (topics : list bytes) : Prop := forall topic topic' id,
  topic ∈ topics -> topic' ∈ topics -> read_full 16 (ldLeaseID draws topic) = Some id ->
  read_full 16 (ldLeaseID draws topic') = Some id -> topic = topic'.

Lemma upserts_ok draws terms existing subs todo st st' u :
  each_tx (fun sub => upsertLease s draws terms sub (existing !! nmTopic sub)) subs st = Ok (u, st') ->
  ready terms existing todo (txDb st) -> NoDup (nmTopic <$> subs) ->
  (forall topic, topic ∈ (nmTopic <$> subs) ->
     todo topic /\ used (tmInstallationID terms) topic /\ unused draws topic (txDb st)) ->
  drawn_apart draws (nmTopic <$> subs) -> tmNow terms <= tmExpiresAt terms ->
  ready terms existing (fun topic => todo topic /\ topic ∉ (nmTopic <$> subs)) (txDb st').
Proof.
  revert todo st. induction subs as [|sub subs IH]; intros todo st Hx Hready Hd Hsubs Hapart Hle; cbn [each_tx] in Hx.
  { apply ret_ok in Hx as [_ ->]. eapply ready_weaken; [|done]. by intros t [? _]. }
  apply tx_bind_ok in Hx as (? & s1 & Hup & Hx). cbn in Hd. apply NoDup_cons in Hd as [Hnin Hd].
  destruct (Hsubs (nmTopic sub)) as (Hdo & Hu & Hfresh); [left|].
  destruct (upsert_lease_ok _ _ _ _ _ _ _ _ Hup Hready Hdo Hu Hfresh Hle) as [Hready' Hnew].
  eapply ready_weaken; [|apply (IH _ _ Hx Hready' Hd); [| |done]].
  - cbn. intros t [Ht Hnot]. by apply not_elem_of_cons in Hnot as [Hne Hnot].
  - intros topic Hin. destruct (Hsubs topic) as (Hdo' & Hu' & Hfresh'); [by right|].
    assert (Hne : topic <> nmTopic sub) by (intros ->; done). split; [done|]. split; [done|].
    intros id Hid. apply Hnew; [by apply Hfresh'|]. intros Hid'. apply Hne.
    apply (Hapart topic (nmTopic sub) id); [by right|left|done|done].
  - intros t t' id Hin Hin'. apply Hapart; by right.
Qed.

Lemma erases_ok draws terms existing (keep : list bytes) topics todo st st' u :
  each_tx (fun topic => if bool_decide (topic ∈ keep) then mret tt
                        else match existing !! topic with
                             | Some lease => eraseLease s draws (tmNow terms) lease
                             | None => mret tt
                             end) topics st = Ok (u, st') ->
  NoDup topics -> (forall topic, topic ∈ topics -> topic ∉ keep -> todo topic) ->
  ready terms existing todo (txDb st) -> good (Some (tmNow terms)) log (txDb st').
Proof.
  revert todo st. induction topics as [|topic topics IH]; intros todo st Hx Hd Hdo Hready; cbn [each_tx] in Hx.
  { apply ret_ok in Hx as [_ ->]. apply Hready. }
  apply tx_bind_ok in Hx as (? & s1 & Hone & Hx). apply NoDup_cons in Hd as [Hnin Hd].
  assert (Hnext : ready terms existing (fun t => todo t /\ t <> topic) (txDb s1)).
  { assert (Hsame : ready terms existing (fun t => todo t /\ t <> topic) (txDb st)).
    { eapply ready_weaken; [|done]. by intros t [? _]. }
    destruct (bool_decide (topic ∈ keep)) eqn:Ek; [by apply ret_ok in Hone as [_ ->]|]. boolprop.
    destruct (existing !! topic) as [e|] eqn:Ee; [|by apply ret_ok in Hone as [_ ->]].
    eapply erase_ok; [done|done|apply Hdo; [left|done]|done]. }
  eapply IH; [exact Hx|done| |exact Hnext].
  intros t Hin Hkeep. split; [apply Hdo; [by right|done]|]. by intros ->.
Qed.

Lemma replace_ok draws terms subs st st' u :
  replace_leases s draws terms subs st = Ok (u, st') ->
  (forall l, ldVisit draws l ≡ₚ l) -> good (Some (tmNow terms)) log (txDb st) -> installed_as terms (txDb st) ->
  NoDup (nmTopic <$> subs) ->
  (forall topic, topic ∈ (nmTopic <$> subs) -> used (tmInstallationID terms) topic /\ unused draws topic (txDb st)) ->
  drawn_apart draws (nmTopic <$> subs) -> tmNow terms <= tmExpiresAt terms ->
  good (Some (tmNow terms)) log (txDb st').
Proof.
  unfold replace_leases. intros (existing & s1 & [E1 Ht]%load_tracked & Hx)%tx_bind_ok Hv Hg Hi Hd Hsubs Hapart Hle.
  apply tx_bind_ok in Hx as (? & s2 & Hup & Her).
  assert (Hready : ready terms existing (fun _ => True) (txDb s1)) by (rewrite E1; by split).
  eapply erases_ok; [exact Her| | |apply (upserts_ok _ _ _ _ _ _ _ _ Hup Hready Hd); [|done|done]].
  - rewrite Hv. apply NoDup_fst_map_to_list.
  - intros topic _ Hk. by split.
  - intros topic Hin. rewrite E1. split; [done|]. by apply Hsubs.
Qed.

(** ** The installation *)

(** Nothing is stored under the lookup but the installation itself. *)
Definition free_for (lookup identity : bytes) (db : VaultDB) : Prop :=
  forall row, dbInstallations db !! lookup = Some row -> inIdentity row = identity.

Lemma find_installation_ok installationID identity epochs st st' found :
  find_installation s installationID identity epochs st = Ok (found, st') ->
  txDb st' = txDb st /\
  match found with
  | Some (k, row) => dbInstallations (txDb st) !! k = Some row /\ inIdentity row = identity
  | None => True
  end /\
  forall epoch rest lookup, epochs = epoch :: rest ->
    environmentLookupDigest s (str "installation") epoch installationID = Some lookup ->
    dbInstallations (txDb st) !! lookup = None \/ exists row, found = Some (lookup, row).
Proof.
  revert st. induction epochs as [|epoch epochs IH]; intros st; cbn [find_installation].
  { intros [-> ->]%ret_ok. by split. }
  unfold store_unavailable.
  intros (lookup & s1 & [Hl ->]%known_ok & (row & s2 & [-> E2]%mapped_ok%query_ok & H)%tx_bind_ok)%tx_bind_ok.
  destruct (dbInstallations (txDb st) !! lookup) as [row|] eqn:E.
  - apply tx_bind_ok in H as (? & s3 & [Hb ->]%require_ok & [-> ->]%ret_ok). apply beq_true in Hb.
    split; [done|]. split; [done|]. intros e rest l [= <- <-] Hl'. right. exists row. congruence.
  - apply IH in H as (E' & Hf & _). rewrite E2 in *. split; [done|]. split; [done|].
    intros e rest l [= <- <-] Hl'. left. congruence.
Qed.

Lemma candidate_epochs_head now : exists rest, CandidateEpochs now = LookupEpoch now :: rest.
Proof. unfold CandidateEpochs. destruct (LookupEpoch now =? 0) eqn:E; boolprop; [rewrite E|]; by eexists. Qed.

Lemma find_ok installationID now lookup identity st st' found :
  findInstallation s installationID now st = Ok (found, st') ->
  environmentLookupDigest s (str "installation") (LookupEpoch now) installationID = Some lookup ->
  installationDeletionIdentity s installationID = Some identity ->
  txDb st' = txDb st /\
  match found with
  | Some (k, row) => dbInstallations (txDb st) !! k = Some row /\ inIdentity row = identity /\
      (k = lookup \/ dbInstallations (txDb st) !! lookup = None)
  | None => dbInstallations (txDb st) !! lookup = None
  end.
Proof.
  unfold findInstallation. intros (? & s1 & [_ ->]%ensure_ok & H)%tx_bind_ok Hl Hid.
  apply tx_bind_ok in H as (id & s2 & [Hid' ->]%known_ok & H). rewrite Hid in Hid'. injection Hid' as <-.
  apply find_installation_ok in H as (E & Hf & Hh). destruct (candidate_epochs_head now) as [rest Er].
  specialize (Hh _ _ _ Er Hl). split; [done|]. destruct found as [[k row]|]; [|by destruct Hh as [|[? [=]]]].
  destruct Hf as [E1 E2]. split; [done|]. split; [done|]. destruct Hh as [|[r [= -> _]]]; [by right|by left].
Qed.

Lemma rename_free from to incarnation epoch identity db db' row :
  rename_installation from to incarnation epoch db = Some db' -> dbInstallations db !! from = Some row ->
  inIdentity row = identity -> free_for to identity db'.
Proof.
  unfold rename_installation. intros H E <-. rewrite E in H.
  destruct (dbInstallations db !! to) eqn:Et; [done|]. injection H as <-. intros r. cbn.
  rewrite lookup_insert_eq. by intros [= <-].
Qed.

Lemma quiet_token lookup existing token st : moves elsewhere (token_changed st lookup existing token).
Proof. unfold token_changed, opened. split_moves. Qed.

(** No lease appears. *)
Definition no_new_leases (db db' : VaultDB) : Prop :=
  forall id, dbLeases db !! id = None -> dbLeases db' !! id = None.

Lemma rename_no_new from to incarnation epoch db db' :
  rename_installation from to incarnation epoch db = Some db' -> no_new_leases db db'.
Proof.
  unfold rename_installation. destruct (dbInstallations db !! from); [|by intros [= <-] id].
  destruct (dbInstallations db !! to); [done|]. intros [= <-] id E. cbn. by rewrite lookup_fmap, E.
Qed.

Lemma carry_ok draws request lookup incarnation epoch k row identity now u st st' :
  carry_installation s draws request lookup incarnation epoch k row st = Ok (u, st') ->
  good now log (txDb st) -> dbInstallations (txDb st) !! k = Some row -> inIdentity row = identity ->
  good now log (txDb st') /\ no_new_leases (txDb st) (txDb st') /\ free_for lookup identity (txDb st').
Proof.
  unfold carry_installation, store_unavailable. intros (changed & s2 & Hq%quiet_token & H)%tx_bind_ok Hg E Eid.
  apply tx_bind_ok in H as (? & s3 & Hm & Hr).
  assert (Hq' : elsewhere (txDb s2) (txDb s3)).
  { destruct (changed : bool); [by apply mapped_ok, quiet_mark_installation in Hm|by apply ret_ok in Hm as [_ ->]]. }
  assert (Hq3 : elsewhere (txDb st) (txDb s3)) by by etrans.
  apply (elsewhere_keeps s used log now _ _ Hq3) in Hg. destruct Hq3 as (El & Ei & _). rewrite <-Ei in E.
  unfold no_new_leases. rewrite <-El. destruct (beq k lookup) eqn:Eb.
  - apply ret_ok in Hr as [_ ->]. apply beq_true in Eb as ->. split; [done|]. split; [by intros id|].
    intros r Er. congruence.
  - apply mapped_ok, exec_ok in Hr. split; [by apply (good_rename s used _ _ _ _ _ _ _ _ Hr)|].
    split; [exact (rename_no_new _ _ _ _ _ _ Hr)|]. by eapply rename_free.
Qed.

Lemma adopt_ok draws request requestDigest digest lookup incarnation epoch k row identity now answer st st' :
  adopt_installation s draws request requestDigest digest lookup incarnation epoch k row st = Ok (answer, st') ->
  good now log (txDb st) -> dbInstallations (txDb st) !! k = Some row -> inIdentity row = identity ->
  good now log (txDb st') /\ no_new_leases (txDb st) (txDb st') /\
  (answer = None -> free_for lookup identity (txDb st')).
Proof.
  unfold adopt_installation. intros (stored & s1 & [_ ->]%known_ok & H)%tx_bind_ok Hg E Eid.
  destruct (refresh_decision _ _ _ _ _); [|done|].
  - unfold countActiveLeases, store_unavailable in H.
    apply tx_bind_ok in H as (count & s2 & [_ E2]%mapped_ok%query_ok & [-> ->]%ret_ok). rewrite E2.
    split; [done|]. split; [by intros id|done].
  - apply tx_bind_ok in H as (? & s2 & Hc & [_ ->]%ret_ok).
    destruct (carry_ok _ _ _ _ _ _ _ _ _ _ _ _ Hc Hg E Eid) as (Hg2 & Hn & Hf). done.
Qed.

Lemma upsert_installed lookup row db db' :
  upsert_installation lookup row db = Some db' ->
  dbInstallations db' !! lookup = Some row /\ dbLeases db' = dbLeases db.
Proof. unfold upsert_installation. destruct (all_rows _ _); [|done]. intros [= <-]. cbn. by rewrite lookup_insert_eq. Qed.

(** ** The whole refresh *)

(** What the caller and the random source give a refresh. *)
Record refresh_input (draws : LeaseDraws) (installationID : bytes) (topics : list bytes) (db : VaultDB) : Prop := {
  ri_visits : forall l, ldVisit draws l ≡ₚ l;
  ri_distinct : NoDup topics;
  ri_topics : forall topic, topic ∈ topics -> used installationID topic /\ unused draws topic db;
  ri_apart : drawn_apart draws topics;
}.

Lemma found_ok draws request requestDigest digest lookup incarnation epoch identity now found answer st st' :
  match found with
  | None => mret None
  | Some (existingLookup, existing) =>
      adopt_installation s draws request requestDigest digest lookup incarnation epoch existingLookup existing
  end st = Ok (answer, st') ->
  match found with
  | Some (k, row) => dbInstallations (txDb st) !! k = Some row /\ inIdentity row = identity /\
      (k = lookup \/ dbInstallations (txDb st) !! lookup = None)
  | None => dbInstallations (txDb st) !! lookup = None
  end ->
  good now log (txDb st) ->
  good now log (txDb st') /\ no_new_leases (txDb st) (txDb st') /\
  (answer = None -> free_for lookup identity (txDb st')).
Proof.
  destruct found as [[k row]|].
  - intros Ha (E & Eid & _) Hg. by eapply adopt_ok.
  - intros [-> ->]%ret_ok E Hg. split; [done|]. split; [by intros id|]. intros _ r Er. congruence.
Qed.

Lemma store_ok fail draws request subs identity lookup incarnation requestDigest digest now u st st' :
  store_refresh s fail draws request subs identity lookup incarnation requestDigest digest now st = Ok (u, st') ->
  installationDeletionIdentity s (rfInstallationID request) = Some identity ->
  refresh_input draws (rfInstallationID request) (nmTopic <$> subs) (txDb st) -> 0 <= stLeaseTTL s ->
  free_for lookup identity (txDb st) -> good (Some now) log (txDb st) -> good (Some now) log (txDb st').
Proof.
  unfold store_refresh. cbv zeta. intros (token & s1 & [_ ->]%sealed_ok & H)%tx_bind_ok Hid [Hv Hd Ht Ha] Httl Hf Hg.
  apply tx_bind_ok in H as (controlExpiresAt & s2 & [_ ->]%known_ok & H).
  apply tx_bind_ok in H as (? & s3 & Hu%mapped_ok%exec_ok & Hr).
  apply (good_upsert_installation s used (Some now) log _ _ _ _ Hu) in Hg; [|done].
  apply upsert_installed in Hu as [Hrow El].
  apply (replace_ok _ _ _ _ _ _ Hr Hv); [done| |exact Hd| |exact Ha|cbn; lia].
  - eexists. split; [exact Hrow|exact Hid].
  - intros topic Hin. unfold unused. rewrite El. by apply Ht.
Qed.

Lemma input_later draws installationID topics db db' :
  no_new_leases db db' -> refresh_input draws installationID topics db ->
  refresh_input draws installationID topics db'.
Proof.
  intros Hn [Hv Hd Ht Ha]. split; [done|done| |done]. intros topic Hin. destruct (Ht _ Hin) as [Hu Hf].
  split; [done|]. intros id Hid. by apply Hn, Hf.
Qed.

Lemma refresh_ok round draws request subs digest now answer st st' :
  refresh_tx s round draws request subs digest now st = Ok (answer, st') ->
  refresh_input draws (rfInstallationID request) (nmTopic <$> subs) (txDb st) -> 0 <= stLeaseTTL s ->
  good (Some now) log (txDb st) -> good (Some now) log (txDb st').
Proof.
  unfold refresh_tx, store_unavailable. intros (? & s1 & Hq1%mapped_ok%quiet_retention & H)%tx_bind_ok Hin Httl Hg.
  apply tx_bind_ok in H as (lookup & s2 & [Hl ->]%known_ok & H).
  apply tx_bind_ok in H as (incarnation & s3 & [_ ->]%known_ok & H).
  apply tx_bind_ok in H as (identity & s4 & [Hid ->]%known_ok & H).
  apply tx_bind_ok in H as (? & s5 & Hq5%quiet_advance_check & H).
  assert (Hq : elsewhere (txDb st) (txDb s5)) by by etrans.
  apply (elsewhere_keeps s used log _ _ _ Hq) in Hg. destruct Hq as (El & _ & _).
  apply tx_bind_ok in H as (found & s6 & Hf & H). pose proof (find_ok _ _ _ _ _ _ _ Hf Hl Hid) as [E6 Hfound].
  rewrite <-E6 in Hg, El, Hfound. apply tx_bind_ok in H as (controlDigest & s7 & [_ ->]%known_ok & H).
  apply tx_bind_ok in H as (result & s8 & Ha & H).
  destruct (found_ok _ _ _ _ _ _ _ _ _ _ _ _ _ Ha Hfound Hg) as (Hg8 & Hnew & Hfree).
  destruct result as [result|]; [by apply ret_ok in H as [_ ->]|].
  apply tx_bind_ok in H as (? & s9 & Hs & [_ ->]%ret_ok).
  eapply (store_ok _ _ _ _ _ _ _ _ _ _ _ _ _ Hs Hid); [|done|by apply Hfree|done].
  eapply input_later; [exact Hnew|]. eapply input_later; [|exact Hin]. intros id. by rewrite El.
Qed.

End Upsert.
End Refreshes.
