(* ===== verification/LineageRoutes.v ===== *)
(** * Routes give every nonce once

    The transactions that prepare routes allocate the next sequence of a lease's key: the log
    of the nonces handed out grows by theirs, and the lineage is kept with the longer log. *)

From S2P Require Import Prelude GoBytes GoTime GoCrypto A9Trust VaultCrypto Gate8Header Topics Interfaces Authority Sql A9Types A9VaultDb A9Vault A9VaultSpec A9Current Aggregates DeliveryJob DeliveryQueue DeliveryOps DeliveryAttempt Tombstones RouteKeys DeliveryErase Refresh Policy Routing Retention Moves Lineage LineageMoves LineageRefresh.
From stdpp Require Import sorting.
Local Open Scope Z_scope.
Local Open Scope go_scope.

(** The nonces a subscription carries. *)
Definition issued `{HX : XmtpTopic} (sub : Subscription) : list issue :=
  match suSecureRoute sub with
  | Some route => [{| isKey := srRouteKey route; isPrefix := srNoncePrefix route;
                      isSequence := srDeliverySequence route |}]
  | None => []
  end.

Definition issued_all `{HX : XmtpTopic} (subs : list Subscription) : list issue := concat (issued <$> subs).

Lemma issued_all_app `{HX : XmtpTopic} (subs subs' : list Subscription) : issued_all (subs ++ subs') = issued_all subs ++ issued_all subs'.
Proof. unfold issued_all. by rewrite fmap_app, concat_app. Qed.

Lemma issued_under_snapshot `{HX : XmtpTopic} snapshot (sub : Subscription) : issued (under_snapshot snapshot sub) = issued sub.
Proof. unfold issued. cbn. by destruct (suSecureRoute sub). Qed.

Section Routes.
Context `{HP : Postgres, HG : AesGcm, HGL : !AesGcmLaws, HVJ : VaultJson, HX : XmtpTopic, HE : Ed25519,
          HJ : JobJson, HT : A9TrustSurface}.
Variable s : Store.
Variable used : bytes -> bytes -> Prop.
Hypothesis version_range : 0 <= krActiveVersion (stEncryption s) < 2 ^ 32.

#[local] Abbreviation lineage := (lineage s used).

(** ** The allocation *)

(** The lease after its sequence was taken. *)
Lemma lineage_allocates log db leaseID lease key nonce encrypted :
  lineage log db -> dbLeases db !! leaseID = Some lease -> lease_key s leaseID lease = Some key ->
  lease_nonce s leaseID lease = Some nonce ->
  lease_nonce s leaseID (with_nonce encrypted lease) =
    Some {| nsPrefix := nsPrefix nonce; nsNextSequence := nsNextSequence nonce + 1 |} ->
  lineage (log ++ [{| isKey := key; isPrefix := nsPrefix nonce; isSequence := nsNextSequence nonce |}])
    (with_Leases (<[leaseID := with_nonce encrypted lease]> (dbLeases db)) db).
Proof.
  intros H E Hk Hn Hn'. set (new := {| isKey := key; isPrefix := _; isSequence := _ |}).
  destruct (ln_leases _ _ _ _ H _ _ E) as [Hi Hr (k & n & Hk' & Hne & Hc & Hlog) Hl].
  rewrite Hk in Hk'. injection Hk' as <-. rewrite Hn in Hne. injection Hne as <-.
  assert (Hrows : forall id l, <[leaseID := with_nonce encrypted lease]> (dbLeases db) !! id = Some l ->
    id = leaseID /\ l = with_nonce encrypted lease \/ id <> leaseID /\ dbLeases db !! id = Some l).
  { intros id l [[<- <-]|[Hne E']]%lookup_insert_Some; [by left|right]. by split. }
  split; cbn.
  - intros id l [[-> ->]|[Hne E']]%Hrows.
    + split; [done|done| |done]. exists key, {| nsPrefix := nsPrefix nonce; nsNextSequence := nsNextSequence nonce + 1 |}.
      split; [done|]. split; [done|]. split; [done|]. cbn. intros i [Hin| ->%list_elem_of_singleton]%elem_of_app Ei.
      * specialize (Hlog i Hin Ei). lia.
      * cbn. lia.
    + destruct (ln_leases _ _ _ _ H _ _ E') as [Hi' Hr' (k' & n' & Hk' & Hn1 & Hc' & Hlog') Hl'].
      split; [done|done| |done]. exists k', n'. split; [done|]. split; [done|]. split; [done|].
      intros i [Hin| ->%list_elem_of_singleton]%elem_of_app Ei; [by apply Hlog'|]. cbn in Ei. subst k'.
      exfalso. apply Hne. by apply (key_has_one_lease s used log db id leaseID l lease key).
  - intros id id' l l' [[-> ->]|[Hne E1]]%Hrows [[-> ->]|[Hne' E1']]%Hrows Eq.
    + done.
    + symmetry. by apply (ln_single _ _ _ _ H _ _ _ _ E1' E).
    + by apply (ln_single _ _ _ _ H _ _ _ _ E1 E).
    + by apply (ln_single _ _ _ _ H _ _ _ _ E1 E1').
  - apply (ln_identities _ _ _ _ H).
  - apply (ln_unique _ _ _ _ H).
  - intros i [Hin| ->%list_elem_of_singleton]%elem_of_app; [by apply (ln_log _ _ _ _ H)|].
    by exists (lsRouteIdentity lease), (lsRouteKeyEpoch lease).
  - rewrite fmap_app. apply NoDup_app. split; [apply (ln_once _ _ _ _ H)|]. split; [|apply NoDup_singleton].
    intros x (i & -> & Hin)%list_elem_of_fmap [= Ek Es]%list_elem_of_singleton. specialize (Hlog i Hin Ek). lia.
Qed.

(** The row a route was read from is the stored lease's. *)
Definition describes (row : routeRow) (db : VaultDB) : Prop := exists lease,
  dbLeases db !! rwLeaseID row = Some lease /\ rwEncryptedRouteKey row = lsEncryptedRouteKey lease /\
  rwEncryptedNonceState row = lsEncryptedNonceState lease.

(** Only the lease of the row changes. *)
Definition others_stay (leaseID : bytes) (db db' : VaultDB) : Prop :=
  forall id, id <> leaseID -> dbLeases db' !! id = dbLeases db !! id.

Lemma set_nonce_some leaseID encrypted db db' :
  set_nonce leaseID encrypted db = (db', true) -> exists lease, dbLeases db !! leaseID = Some lease /\
    db' = with_Leases (<[leaseID := with_nonce encrypted lease]> (dbLeases db)) db.
Proof.
  unfold set_nonce. destruct (dbLeases db !! leaseID) as [lease|]; [|done].
  destruct (lsState lease =? stateActive); [|done]. intros [= <-]. by exists lease.
Qed.

Lemma block_rekey_good log leaseID db :
  lineage log db -> lineage log (with_Leases (alter block_rekey leaseID (dbLeases db)) db).
Proof.
  intros H. apply (good_leases s used None log db); [|done|done|by split]. intros id lease'. cbn.
  intros [[-> (lease & E & ->)]|[_ E]]%lookup_alter_Some; [by exists lease|by exists lease'].
Qed.

Lemma allocate_ok log draws row key o st st' :
  allocate s draws row st = Ok (o, st') -> lineage log (txDb st) -> describes row (txDb st) ->
  lease_field s (rwLeaseID row) (str "route-key") (rwEncryptedRouteKey row) = Some key ->
  others_stay (rwLeaseID row) (txDb st) (txDb st') /\
  match o with
  | Some nonce => lineage (log ++ [{| isKey := key; isPrefix := nsPrefix nonce; isSequence := nsNextSequence nonce |}])
                    (txDb st')
  | None => lineage log (txDb st')
  end.
Proof.
  unfold allocate. intros (encoded & s1 & [Hopen ->]%opened_ok & H)%tx_bind_ok Hg (lease & E & Ek & En) Hkey.
  apply tx_bind_ok in H as (nonce & s2 & [Hd ->]%known_ok & H).
  destruct (MaxCanonicalInteger <? nsNextSequence nonce) eqn:Em.
  - apply tx_bind_ok in H as (? & s3 & [= E3]%mapped_ok%exec_ok & [-> ->]%ret_ok). rewrite <-E3.
    split; [|by apply block_rekey_good]. intros id Hne. cbn. by rewrite lookup_alter_ne.
  - apply tx_bind_ok in H as (next & s3 & [Hnext ->]%sealed_ok & H); [|done].
    apply tx_bind_ok in H as (b & s4 & [= Eset]%update_ok & H).
    apply tx_bind_ok in H as (? & s5 & [-> ->]%require_ok & [-> ->]%ret_ok).
    apply set_nonce_some in Eset as (lease' & E' & ->). rewrite E in E'. injection E' as <-.
    split; [intros id Hne; cbn; by rewrite lookup_insert_ne|]. boolprop.
    pose proof (decoded_nonce_range _ _ Hd). apply lineage_allocates; [done|done| | |].
    + unfold lease_key. by rewrite <-Ek.
    + unfold lease_nonce, lease_field. rewrite <-En, Hopen. exact Hd.
    + unfold lease_nonce, lease_field. cbn [with_nonce lsEncryptedNonceState]. rewrite Hnext.
      apply decode_encode_nonce; cbn; unfold MaxCanonicalInteger in *; lia.
Qed.

(** ** Preparing *)

Definition issued_option (o : option Subscription) : list issue := issued_all (option_list o).

Lemma prepareRoute_ok log draws topic period now row o st st' :
  prepareRoute s draws topic period now row st = Ok (o, st') -> lineage log (txDb st) -> describes row (txDb st) ->
  others_stay (rwLeaseID row) (txDb st) (txDb st') /\ lineage (log ++ issued_option o) (txDb st').
Proof.
  assert (Hnone : forall st1, lineage log (txDb st1) ->
    others_stay (rwLeaseID row) (txDb st1) (txDb st1) /\ lineage (log ++ issued_option None) (txDb st1)).
  { intros st1 H. split; [by intros id|]. unfold issued_option. cbn. by rewrite app_nil_r. }
  unfold prepareRoute. intros H Hg Hrow. destruct (route_stale s now row); [by apply ret_ok in H as [-> ->]; apply Hnone|].
  apply tx_bind_ok in H as (rawTopic & s1 & [_ ->]%opened_ok & H).
  apply tx_bind_ok in H as (? & s2 & [_ ->]%require_ok & H).
  apply tx_bind_ok in H as (key & s3 & [Hkey ->]%opened_ok & H).
  apply tx_bind_ok in H as (? & s4 & [_ ->]%require_ok & H).
  apply tx_bind_ok in H as (hmac & s5 & [_ ->]%opened_ok & H).
  apply tx_bind_ok in H as (keys & s6 & [_ ->]%known_ok & H).
  destruct (_ && _); [by apply ret_ok in H as [-> ->]; apply Hnone|].
  apply tx_bind_ok in H as (capabilityBytes & s7 & [_ ->]%opened_ok & H).
  apply tx_bind_ok in H as (capability & s8 & [_ ->]%known_ok & H).
  destruct (VerifyReceiveCapability _ _ _ _) as [?|e];
    [|destruct e; try done; by apply ret_ok in H as [-> ->]; apply Hnone].
  destruct (_ || _ || _); [by apply ret_ok in H as [-> ->]; apply Hnone|].
  apply tx_bind_ok in H as (alias & s9 & [_ ->]%known_ok & H).
  apply tx_bind_ok in H as (nonce & s10 & Ha & [-> ->]%ret_ok).
  apply (allocate_ok log _ _ key) in Ha as [Hst Ha]; [|done|done|unfold lease_field; by rewrite Hkey].
  split; [done|]. destruct nonce as [nonce|]; [exact Ha|]. unfold issued_option. cbn. by rewrite app_nil_r.
Qed.

Lemma describes_stays leaseID row db db' :
  others_stay leaseID db db' -> rwLeaseID row <> leaseID -> describes row db -> describes row db'.
Proof. intros Hs Hne (lease & E & H). exists lease. by rewrite Hs. Qed.

Lemma prepare_each_ok log draws topic period now rows subs st st' :
  prepare_each s draws topic period now rows st = Ok (subs, st') -> lineage log (txDb st) ->
  NoDup (rwLeaseID <$> rows) -> (forall row, row ∈ rows -> describes row (txDb st)) ->
  lineage (log ++ issued_all subs) (txDb st').
Proof.
  revert log subs st. induction rows as [|row rows IH]; intros log subs st Hx Hg Hd Hrows; cbn [prepare_each] in Hx.
  { apply ret_ok in Hx as [-> ->]. unfold issued_all. cbn. by rewrite app_nil_r. }
  apply tx_bind_ok in Hx as (sub & s1 & Hone & Hx). apply tx_bind_ok in Hx as (rest & s2 & Hx & [-> ->]%ret_ok).
  cbn in Hd. apply NoDup_cons in Hd as [Hnin Hd].
  apply (prepareRoute_ok log) in Hone as [Hst Hone]; [|done|apply Hrows; left].
  apply (IH _ _ _ Hx) in Hone; [|done|].
  - by rewrite issued_all_app, app_assoc.
  - intros row' Hin. apply (describes_stays _ _ _ _ Hst); [|apply Hrows; by right].
    intros Eq. apply Hnin. rewrite <-Eq. by apply list_elem_of_fmap_2.
Qed.

(** The rows that were found, each under its lease. *)
Definition rows_stored (rows : gmap bytes routeRow) (db : VaultDB) : Prop :=
  forall k row, rows !! k = Some row -> rwLeaseID row = k /\ describes row db.

Lemma routable_describes lookup epoch now db row :
  row ∈ routable_rows lookup epoch now db -> describes row.2 db.
Proof.
  unfold routable_rows. intros ([id lease] & Hin%elem_of_map_to_list & H)%list_elem_of_omap.
  unfold routable_row in H. apply bind_Some in H as (installation & _ & H). cbn in H.
  destruct (routable _ _ _ _ _); [|done]. injection H as <-. by exists lease.
Qed.

Lemma rows_by_lease_ok topic now epochs out rows st st' :
  rows_by_lease s topic now epochs out st = Ok (rows, st') -> rows_stored out (txDb st) ->
  txDb st' = txDb st /\ rows_stored rows (txDb st).
Proof.
  revert out st. induction epochs as [|epoch epochs IH]; intros out st Hx Hout; cbn [rows_by_lease] in Hx.
  { by apply ret_ok in Hx as [-> ->]. }
  apply tx_bind_ok in Hx as (lookup & s1 & [_ ->]%known_ok & Hx).
  apply tx_bind_ok in Hx as (found & s2 & [-> E2]%query_ok & Hx).
  apply tx_bind_ok in Hx as (? & s3 & [_ ->]%require_ok & Hx). apply IH in Hx; rewrite ?E2 in *; [done|].
  assert (Hfound : forall row, row ∈ routable_rows lookup epoch now (txDb st) -> describes row.2 (txDb st))
    by (intros row; apply routable_describes).
  clear -Hout Hfound. revert out Hout Hfound.
  induction (routable_rows lookup epoch now (txDb st)) as [|row found IH]; intros out Hout Hfound; cbn; [done|].
  apply IH; [|intros r Hr; apply Hfound; by right].
  intros k r [[<- <-]|[_ E]]%lookup_insert_Some; [|by apply Hout]. split; [done|]. apply Hfound. left.
Qed.

Lemma visited_rows (rows : gmap bytes routeRow) db l :
  rows_stored rows db -> NoDup l -> NoDup (rwLeaseID <$> omap (fun leaseID => rows !! leaseID) l) /\
  (forall row, row ∈ omap (fun leaseID => rows !! leaseID) l -> describes row db).
Proof.
  intros Hrows Hd. split.
  - induction Hd as [|k l Hnin Hd IH]; cbn; [constructor|]. destruct (rows !! k) as [row|] eqn:E; [|done]. cbn.
    constructor; [|done]. intros (row' & Eid & (k' & Hin & E')%list_elem_of_omap)%list_elem_of_fmap.
    apply Hrows in E as [<- _], E' as [<- _]. by rewrite Eid in Hnin.
  - intros row (k & _ & E)%list_elem_of_omap. by apply Hrows in E as [_ H].
Qed.

Lemma lineage_elsewhere log db db' : elsewhere db db' -> lineage log db -> lineage log db'.
Proof. intros (El & Ei & Eh) H. by apply (good_elsewhere s used None log db db' El Ei Eh). Qed.

Lemma subscriptions_ok log draws topic period host now subs st st' :
  subscriptions_tx s draws topic period host now st = Ok (subs, st') ->
  (forall l, rtVisit draws l ≡ₚ l) -> lineage log (txDb st) -> lineage (log ++ issued_all subs) (txDb st').
Proof.
  unfold subscriptions_tx. intros (? & s1 & Hq%mapped_ok%quiet_retention & H)%tx_bind_ok Hv Hg.
  apply (lineage_elsewhere log _ _ Hq) in Hg. apply tx_bind_ok in H as (rows & s2 & Hrows & H).
  apply rows_by_lease_ok in Hrows as [E2 Hrows]; [|intros k row E; by rewrite lookup_empty in E].
  apply visited_rows with (l := rtVisit draws (fst <$> map_to_list rows)) in Hrows as [Hd Hrows];
    [|rewrite Hv; apply NoDup_fst_map_to_list].
  eapply prepare_each_ok; [exact H|by rewrite E2|done|by rewrite E2].
Qed.

(** ** Under A9 *)

Lemma quiet_examine att draws lease topic now candidate : moves elsewhere (examine s att draws lease topic now candidate).
Proof.
  unfold examine. apply (moves_or_stop elsewhere); [apply quiet_current|intros state].
  apply moves_bind; [exact _|apply (moves_require elsewhere)|intros _]. split_moves.
Qed.

Lemma quiet_examine_each att draws lease topic now candidates :
  moves elsewhere (examine_each s att draws lease topic now candidates).
Proof.
  induction candidates as [|candidate candidates IH]; cbn [examine_each]; [split_moves|].
  apply moves_bind; [exact _|apply quiet_examine|intros staged]. split_moves.
Qed.

Lemma quiet_discover lookups : moves elsewhere (discoverA9RouteCandidatesTx s lookups).
Proof.
  unfold discoverA9RouteCandidatesTx. split_moves. generalize ([] : list (Z * bytes)) as seen.
  generalize ([] : list a9RouteCandidate) as out.
  induction lookups as [|lookup lookups IH]; intros out seen; cbn [discover]; split_moves.
Qed.

Lemma gate6_ok leaseID identity now o st st' :
  loadA9Gate6RouteTx leaseID identity now st = Ok (o, st') ->
  txDb st' = txDb st /\ forall row, o = Some row -> rwLeaseID row = leaseID /\ describes row (txDb st).
Proof.
  unfold loadA9Gate6RouteTx, or_stop. intros (? & s1 & [_ ->]%require_ok & H)%tx_bind_ok.
  apply tx_bind_ok in H as (found & s2 & [-> E2]%query_ok & H).
  destruct (active_installation identity now (txDb st)) as [[lookup installation]|]; [|by apply ret_ok in H as [-> ->]].
  apply tx_bind_ok in H as (? & s3 & [_ ->]%require_ok & H).
  apply tx_bind_ok in H as (found & s4 & [-> E4]%query_ok & H). rewrite E2 in *.
  destruct (active_lease _ _ _ _ _ _) as [lease|] eqn:E; [|by apply ret_ok in H as [-> ->]].
  apply tx_bind_ok in H as (? & s5 & [_ ->]%require_ok & [-> ->]%ret_ok). rewrite E4. split; [done|].
  intros row [= <-]. split; [done|]. unfold active_lease in E. apply bind_Some in E as (l & El & E).
  destruct (_ && _); [|done]. injection E as ->. by exists lease.
Qed.

Lemma prepare_current_ok log draws topic period now staged o st st' :
  prepare_current s draws topic period now staged st = Ok (o, st') -> lineage log (txDb st) ->
  lineage (log ++ issued_all (fst <$> option_list o)) (txDb st').
Proof.
  assert (Hnone : forall st1, lineage log (txDb st1) ->
    lineage (log ++ issued_all (fst <$> option_list (None : option (Subscription * a9PreparedRouteCurrentness))))
      (txDb st1)) by (intros st1 H; cbn; unfold issued_all; cbn; by rewrite app_nil_r).
  unfold prepare_current, or_stop. destruct staged as [candidate state].
  intros (databaseNow & s1 & [_ E1]%query_ok & H)%tx_bind_ok Hg.
  apply tx_bind_ok in H as (? & s2 & [_ ->]%require_ok & H). apply tx_bind_ok in H as (row & s3 & [E3 Hrow]%gate6_ok & H).
  destruct row as [row|]; [|apply ret_ok in H as [-> ->]; apply Hnone; by rewrite E3, E1].
  destruct (Hrow row eq_refl) as [_ Hdesc]. apply tx_bind_ok in H as (? & s4 & [_ ->]%require_ok & H).
  apply tx_bind_ok in H as (sub & s5 & Hp & H).
  apply (prepareRoute_ok log) in Hp as [_ Hp]; [|by rewrite E3, E1|by rewrite E3].
  destruct sub as [sub|]; [|apply ret_ok in H as [-> ->]; exact Hp].
  apply tx_bind_ok in H as (? & s6 & [_ ->]%require_ok & [-> ->]%ret_ok). cbn. unfold issued_option in Hp. cbn in Hp.
  unfold issued_all in *. cbn in *. by rewrite issued_under_snapshot.
Qed.

Lemma prepare_currents_ok log draws topic period now staged prepared st st' :
  prepare_currents s draws topic period now staged st = Ok (prepared, st') -> lineage log (txDb st) ->
  lineage (log ++ issued_all (fst <$> prepared)) (txDb st').
Proof.
  revert log prepared st. induction staged as [|one staged IH]; intros log prepared st Hx Hg; cbn [prepare_currents] in Hx.
  { apply ret_ok in Hx as [-> ->]. unfold issued_all. cbn. by rewrite app_nil_r. }
  apply tx_bind_ok in Hx as (o & s1 & Hone & Hx). apply tx_bind_ok in Hx as (rest & s2 & Hx & [-> ->]%ret_ok).
  apply (prepare_current_ok log) in Hone; [|done]. apply (IH _ _ _ Hx) in Hone.
  by rewrite fmap_app, issued_all_app, app_assoc.
Qed.

Lemma current_subscriptions_ok log round draws topic period now sequence hash lease lookups subs st st' :
  current_subscriptions_tx s round draws topic period now sequence hash lease lookups st = Ok (subs, st') ->
  lineage log (txDb st) -> lineage (log ++ issued_all subs) (txDb st').
Proof.
  unfold current_subscriptions_tx. intros (current & s1 & Hc & H)%tx_bind_ok Hg.
  assert (Hq : moves elsewhere (lockA9CurrentKeysetReceiptTx (atNow (rdAttempt round)) sequence hash))
    by (unfold lockA9CurrentKeysetReceiptTx; split_moves).
  apply Hq in Hc. apply (lineage_elsewhere log _ _ Hc) in Hg. destruct current as [[[databaseNow ?] ?]|]; [|done].
  apply tx_bind_ok in H as (? & s2 & [_ ->]%require_ok & H).
  apply tx_bind_ok in H as (? & s3 & H3%mapped_ok%quiet_retention & H).
  apply tx_bind_ok in H as (candidates & s4 & H4%quiet_discover & H).
  apply tx_bind_ok in H as (staged & s5 & H5%quiet_examine_each & H).
  assert (Hall : elsewhere (txDb s1) (txDb s5)) by (etrans; [exact H3|]; by etrans).
  apply (lineage_elsewhere log _ _ Hall) in Hg. apply tx_bind_ok in H as (prepared & s6 & Hp & H).
  apply (prepare_currents_ok log) in Hp; [|done].
  apply tx_bind_ok in H as (? & s7 & Hr & [-> ->]%ret_ok).
  assert (Hq7 : moves elsewhere (require_still_prepared round now (snd <$> prepared)))
    by (unfold require_still_prepared; split_moves; apply (moves_require elsewhere)).
  apply Hq7 in Hr. by apply (lineage_elsewhere _ _ _ Hr).
Qed.

End Routes.
