(* ===== verification/LineageReplace.v ===== *)
(** * Replacements keep the lineage

    A replacement of A9 routes refreshes the leases of the installation inside its own
    transaction; all else it does is on other tables. *)

From S2P Require Import Prelude GoBytes GoTime GoCrypto A9Trust VaultCrypto Gate8Header Topics Interfaces Authority Sql A9Types A9VaultDb A9Vault A9VaultSpec A9Current Aggregates DeliveryJob DeliveryQueue DeliveryOps DeliveryAttempt Tombstones RouteKeys DeliveryErase Refresh Policy Routing Retention ReplaceRequest A9Replace Moves Lineage LineageMoves LineageRefresh.
Local Open Scope Z_scope.
Local Open Scope go_scope.

Section Quiet.
Context `{HP : Postgres, HG : AesGcm, HJ : JobJson, HT : A9TrustSurface, HVJ : VaultJson, HGJ : Gate6Json,
          HX : XmtpTopic, HTP : !TopicParser, HE : Ed25519}.

#[local] Hint Resolve quiet_receipt quiet_receipt_result quiet_cancel quiet_latch quiet_keyset quiet_retention : moves.

Lemma quiet_replace_receipt request result : moves elsewhere (replace_receipt request result).
Proof. unfold replace_receipt. quiet. Qed.

#[local] Hint Resolve quiet_replace_receipt : moves.

Lemma quiet_negative s request now authority state outcome reason :
  moves elsewhere (negative s request now authority state outcome reason).
Proof. unfold negative. cbv zeta. quiet. Qed.

Lemma quiet_validate draws request receipt committed now :
  moves elsewhere (validateA9SubscriptionsTx draws request receipt committed now).
Proof.
  unfold validateA9SubscriptionsTx. generalize (replicate (length (rqSubscriptions request)) zero_validated).
  induction (rpOrder draws (indexed (rqSubscriptions request))) as [|[i sub] order IH]; intros byIndex;
    cbn [validate_each]; unfold a9SubscriptionRevokedTx; split_moves.
Qed.

Lemma quiet_gate6 inst identity : moves elsewhere (bindA9InstallationToGate6Tx inst identity).
Proof.
  unfold bindA9InstallationToGate6Tx, store_unavailable. split_moves. apply moves_update. intros db db' b.
  unfold insert_gate6. repeat case_match; intros; simplify_eq; done.
Qed.

Lemma quiet_add_route request identity sequence leaseIDs entry :
  moves elsewhere (add_route request identity sequence leaseIDs entry).
Proof.
  unfold add_route. split_moves. apply moves_exec. intros db db'. unfold insert_route.
  repeat case_match; intros; simplify_eq; done.
Qed.

Lemma quiet_replace_authority request now : moves elsewhere (replace_authority request now).
Proof. unfold replace_authority, loadA9AuthorityTx, insertA9AuthorityTx. quiet. Qed.

End Quiet.

Section Replace.
Context `{HP : Postgres, HG : AesGcm, HGL : !AesGcmLaws, HJ : JobJson, HT : A9TrustSurface, HVJ : VaultJson,
          HGJ : Gate6Json, HX : XmtpTopic, HTP : !TopicParser, HE : Ed25519}.
Variable s : Store.
Variable used : bytes -> bytes -> Prop.
Variable log : list issue.

#[local] Abbreviation ts := pg_timestamp.
#[local] Abbreviation good := (good s used).
#[local] Abbreviation refresh_input := (refresh_input used).

Hypothesis version_range : 0 <= krActiveVersion (stEncryption s) < 2 ^ 32.
Hypothesis ts_mono : forall a b, a <= b -> ts a <= ts b.
Hypothesis ts_later : forall t, ts t < ts (t + 8 * day).
Hypothesis routes_differ : forall id topic id' topic' identity,
  used id topic -> used id' topic' -> routeHistoryIdentity s id topic = Some identity ->
  routeHistoryIdentity s id' topic' = Some identity -> id = id' /\ topic = topic'.
Hypothesis ttl_range : 0 <= stLeaseTTL s.

Lemma adopt_gate6_ok draws request digest lookup incarnation k row identity now u st st' :
  adopt_gate6 s draws request digest lookup incarnation k row now st = Ok (u, st') ->
  good (Some now) log (txDb st) -> dbInstallations (txDb st) !! k = Some row -> inIdentity row = identity ->
  good (Some now) log (txDb st') /\ no_new_leases (txDb st) (txDb st') /\ free_for lookup identity (txDb st').
Proof.
  unfold adopt_gate6. intros (stored & s1 & [_ ->]%known_ok & H)%tx_bind_ok.
  apply tx_bind_ok in H as (? & s2 & [_ ->]%ensure_ok & H). by apply (carry_ok _ _ _ _ _ _ _ _ _ _ _ _ _ _ _ H).
Qed.

Lemma apply_gate6_ok draws request subs digest expected now ids st st' :
  applyGate6RefreshTx s draws request subs digest expected now st = Ok (ids, st') ->
  refresh_input draws (rfInstallationID request) (nmTopic <$> subs) (txDb st) ->
  good (Some now) log (txDb st) -> good (Some now) log (txDb st').
Proof.
  unfold applyGate6RefreshTx. intros (lookup & s1 & [Hl ->]%known_ok & H)%tx_bind_ok Hin Hg.
  apply tx_bind_ok in H as (incarnation & s2 & [_ ->]%known_ok & H).
  apply tx_bind_ok in H as (identity & s3 & [Hid ->]%known_ok & H).
  apply tx_bind_ok in H as (? & s4 & Hq%quiet_advance_check & H).
  apply (elsewhere_keeps s used log _ _ _ Hq) in Hg. destruct Hq as (El & _ & _).
  apply tx_bind_ok in H as (found & s5 & Hf & H). pose proof (find_ok _ _ _ _ _ _ _ _ Hf Hl Hid) as [E5 Hfound].
  rewrite <-E5 in Hg, El, Hfound. apply tx_bind_ok in H as (? & s6 & [_ ->]%ensure_ok & H).
  apply tx_bind_ok in H as (control & s7 & [_ ->]%known_ok & H). apply tx_bind_ok in H as (? & s8 & Ha & H).
  assert (Hc : good (Some now) log (txDb s8) /\ no_new_leases (txDb s5) (txDb s8) /\ free_for lookup identity (txDb s8)).
  { destruct found as [[k row]|].
    - destruct Hfound as (E & Eid & _). by eapply adopt_gate6_ok.
    - apply ret_ok in Ha as [_ ->]. split; [done|]. split; [by intros id|]. intros r Er. congruence. }
  destruct Hc as (Hg8 & Hnew & Hfree). apply tx_bind_ok in H as (? & s9 & Hs & H).
  apply tx_bind_ok in H as (current & s10 & [E10 _]%load_tracked & [_ ->]%ret_ok). rewrite E10.
  eapply (store_ok s used log); [done..|exact Hs|exact Hid| |done|exact Hfree|exact Hg8].
  eapply input_later; [exact Hnew|]. eapply input_later; [|exact Hin]. intros id. by rewrite El.
Qed.

(** Steps before it on other tables. *)
Lemma input_elsewhere draws installationID topics db db' :
  elsewhere db db' -> refresh_input draws installationID topics db -> refresh_input draws installationID topics db'.
Proof. intros (El & _ & _). apply input_later. intros id. by rewrite El. Qed.

Variables (draws : ReplaceDraws) (request : ReplaceRequest) (receipt : KeysetReceipt) (refresh : RefreshRequest)
          (now : Z).

(** What the refresh inside draws is fresh for the database it starts from. *)
Definition replace_input (db : VaultDB) : Prop := forall normalized,
  validateRefresh s refresh now = Some normalized ->
  refresh_input (rpLeases draws) (rfInstallationID refresh) (nmTopic <$> normalized) db.

Definition keeps_input {A : Type} (m : vault_tx A) : Prop := forall st r st',
  m st = Ok (r, st') -> replace_input (txDb st) -> good (Some now) log (txDb st) -> good (Some now) log (txDb st').

Lemma keeps_input_quiet {A : Type} (m : vault_tx A) : moves elsewhere m -> keeps_input m.
Proof. intros Hm st r st' H _ Hg. by apply (elsewhere_keeps s used log _ _ _ (Hm _ _ _ H)). Qed.

Lemma keeps_input_after {A B : Type} (m : vault_tx A) (k : A -> vault_tx B) :
  moves elsewhere m -> (forall a, keeps_input (k a)) -> keeps_input (m ≫= k).
Proof.
  intros Hm Hk st r st' (a & s1 & Ha%Hm & H)%tx_bind_ok Hin Hg. apply (Hk _ _ _ _ H).
  - intros n Hn. eapply input_elsewhere; [exact Ha|by apply Hin].
  - by apply (elsewhere_keeps s used log _ _ _ Ha).
Qed.

Lemma keeps_publish au watermark identity digest normalized validated :
  validateRefresh s refresh now = Some normalized ->
  keeps_input (publish s draws request refresh now au watermark identity digest normalized validated).
Proof.
  intros Hn. unfold publish. cbv zeta. apply keeps_input_after; [apply quiet_replace_receipt|intros _].
  apply keeps_input_after; [apply quiet_cancel|intros _]. apply keeps_input_after; [quiet|intros _].
  intros st r st' (ids & s1 & Ha & H)%tx_bind_ok Hin Hg. specialize (Hin _ Hn).
  pose proof (apply_gate6_ok _ _ _ _ _ _ _ _ _ Ha Hin Hg) as Hg1. revert H Hg1.
  assert (Hq : moves elsewhere (bindA9InstallationToGate6Tx (rqInstallationBindingID request) identity ;;
    each_tx (add_route request identity (wcSequence watermark) ids) (combine validated (rqSubscriptions request)) ;;
    exec (fun db => Some (update_authority (rqInstallationBindingID request) (replaced request now) db)) ;;
    mret (a9Result s (rqInstallationBindingID request) (rqSequencerEpoch request) (rqSubscriptionGeneration request)
      a9ResultActive a9OutcomeApplied (auContiguous au)))).
  { apply moves_bind; [exact _|apply quiet_gate6|intros _]. apply moves_bind; [exact _| |intros _; quiet].
    apply moves_each; [exact _|]. intros entry. apply quiet_add_route. }
  intros H Hg1. by apply (elsewhere_keeps s used log _ _ _ (Hq _ _ _ H)).
Qed.

Lemma keeps_validated au watermark digest normalized :
  validateRefresh s refresh now = Some normalized ->
  keeps_input (replace_validated s draws request receipt refresh now au watermark digest normalized).
Proof.
  intros Hn. unfold replace_validated. apply keeps_input_after; [apply quiet_validate|]. intros [validated| |];
    [|apply keeps_input_quiet, quiet_negative..].
  apply keeps_input_after; [split_moves|intros identity]. unfold loadA9Gate6BindingTx.
  apply keeps_input_after; [split_moves|intros bound].
  destruct (match bound with Some _ => _ | None => _ end);
    [apply keeps_input_quiet, quiet_negative|by apply keeps_publish].
Qed.

Lemma keeps_checked au : keeps_input (replace_checked s draws request receipt refresh now au).
Proof.
  unfold replace_checked. repeat (case_match; try apply keeps_input_quiet, quiet_negative).
  intros st r st' (n & s1 & [Hn ->]%known_ok & H')%tx_bind_ok.
  apply tx_bind_ok in H' as (digest & s2 & [_ ->]%known_ok & H'). by apply (keeps_validated _ _ _ _ Hn _ _ _ H').
Qed.

Lemma keeps_after_guards : keeps_input (replace_after_guards s draws request receipt refresh now).
Proof.
  unfold replace_after_guards. apply keeps_input_after; [apply quiet_replace_authority|intros au].
  apply keeps_input_after; [apply quiet_receipt_result|intros [result|]]; [|apply keeps_checked].
  apply keeps_input_quiet. quiet.
Qed.

End Replace.

(** One attempt, with the clock it reads. *)
Section Once.
Context `{HP : Postgres, HG : AesGcm, HGL : !AesGcmLaws, HJ : JobJson, HT : A9TrustSurface, HVJ : VaultJson,
          HGJ : Gate6Json, HX : XmtpTopic, HTP : !TopicParser, HE : Ed25519}.

Lemma keyset_clock now sequence hash st n st' :
  requireA9KeysetTx now sequence hash st = Ok (n, st') -> n = now /\ elsewhere (txDb st) (txDb st').
Proof.
  intros H. split; [|by apply quiet_keyset in H]. unfold requireA9KeysetTx in H.
  apply tx_bind_ok in H as (? & s2 & [_ ->]%require_ok & H). apply tx_bind_ok in H as (row & s3 & _ & H).
  destruct row as [keyset|]; [|done]. by apply tx_bind_ok in H as (? & s4 & [_ ->]%require_ok & [-> _]%ret_ok).
Qed.

Lemma replace_keeps s used log draws request receipt refresh att r st st' :
  0 <= krActiveVersion (stEncryption s) < 2 ^ 32 ->
  (forall a b, a <= b -> pg_timestamp a <= pg_timestamp b) ->
  (forall t, pg_timestamp t < pg_timestamp (t + 8 * day)) ->
  (forall id topic id' topic' identity, used id topic -> used id' topic' ->
     routeHistoryIdentity s id topic = Some identity -> routeHistoryIdentity s id' topic' = Some identity ->
     id = id' /\ topic = topic') ->
  0 <= stLeaseTTL s ->
  replaceA9Once s draws request receipt refresh att st = Ok (r, st') ->
  replace_input s used draws refresh (atNow att) (txDb st) ->
  good s used (Some (atNow att)) log (txDb st) -> good s used (Some (atNow att)) log (txDb st').
Proof.
  intros Hv Hm Hl Hr Ht H Hin Hg. unfold replaceA9Once in H.
  apply tx_bind_ok in H as (now & s1 & [-> H1]%keyset_clock & H).
  apply tx_bind_ok in H as (? & s2 & H2%quiet_retention & H).
  assert (Hq : elsewhere (txDb st) (txDb s2)) by by etrans.
  refine (keeps_after_guards s used log Hv Hm Hl Hr Ht _ _ _ _ _ _ _ _ H _ _).
  - intros n Hn. eapply input_elsewhere; [exact Hq|by apply Hin].
  - by apply (elsewhere_keeps s used log _ _ _ Hq).
Qed.

End Once.
