(* ===== verification/DeliveryInv.v ===== *)
(** * The life of a delivery job

    Which rows the check constraints of migrations 00006, 00010 and 00012 allow ([row_ok]),
    and the only ways a row may change ([row_move]), appear ([row_begins]) and disappear
    ([row_ends]). [evolves] relates two databases when every job moved that way and, for
    the A9 control vault, its invariant and histories were kept. The transactions of the
    queue evolve the database, statement by statement. *)

From S2P Require Import Prelude GoBytes GoTime GoCrypto A9Trust VaultCrypto Gate8Header Interfaces Sql A9Types A9VaultDb A9Vault A9VaultSpec A9VaultInv A9Current Aggregates DeliveryJob DeliveryQueue DeliveryOps DeliveryAttempt Tombstones RouteKeys DeliveryErase.
From stdpp Require Import sorting.
Local Open Scope Z_scope.
Local Open Scope go_scope.

(** ** Rows *)

Definition delivery_class (class : option Z) : Prop :=
  class = None \/ class = Some DeliveryTrafficConversation \/ class = Some DeliveryTrafficWelcome.

(** The class and the reason of a final marker. *)
Definition final_pair (class reason : Z) : Prop :=
  (1 <= reason <= 3 /\ 1 <= class <= 2) \/ (4 <= reason <= 5 /\ 0 <= class <= 2).

Inductive job_shape (j : JobRow) : Prop :=
| shape_live :
    job_live j = true -> is_Some (jbLeaseID j) -> jbInstallationLookup j = None -> jbRetryExponent j = 0 ->
    delivery_class (jbTrafficClass j) -> jbFinalReason j = None ->
    (forall c, jbA9 j = Some c -> columns_complete c = true) -> job_shape j
| shape_erasure :
    erasure_live j = true -> jbLeaseID j = None -> is_Some (jbInstallationLookup j) ->
    delivery_class (jbTrafficClass j) -> jbFinalReason j = None -> jbA9 j = None -> job_shape j
| shape_final class reason :
    is_final j = true -> jbLeaseID j = None -> jbInstallationLookup j = None -> jbEncryptedJob j = [x00] ->
    jbRetryExponent j = 0 -> jbTrafficClass j = Some class -> jbFinalReason j = Some reason ->
    final_pair class reason -> jbA9 j = None -> job_shape j.

Record row_ok (j : JobRow) : Prop := {
  row_attempts : 0 <= jbAttempts j <= MaxDeliveryAttempts;
  row_retry : 0 <= jbRetryExponent j <= maxErasureRetryExponent;
  row_lifetime : jbExpiresAt j <= jbCreatedAt j + maxDeliveryJobLifetime;
  row_shape : job_shape j;
}.

(** ** Changes *)

Inductive row_move : JobRow -> JobRow -> Prop :=
| move_claim j class availableAt :
    jbState j = deliveryJobPending -> jbAttempts j < MaxDeliveryAttempts -> 1 <= class <= 2 ->
    row_move j (with_class class (with_state deliveryJobClaimed availableAt j))
| move_release j availableAt :
    jbState j = deliveryJobClaimed -> row_move j (with_state deliveryJobPending availableAt j)
| move_attempt j :
    jbState j = deliveryJobClaimed -> jbAttempts j < MaxDeliveryAttempts ->
    row_move j (with_attempts (jbAttempts j + 1) j)
| move_final j class reason availableAt :
    job_live j = true -> 1 <= reason <= 5 -> (4 <= reason \/ 1 <= class <= 2) ->
    (0 <= class <= 2 \/ jbTrafficClass j = Some class) ->
    row_move j (final_row class reason availableAt j)
| move_erase j lookup encrypted availableAt :
    jbState j = deliveryJobClaimed -> row_move j (erasure_row lookup encrypted availableAt j)
| move_erasure j state availableAt retry :
    erasure_live j = true -> state = erasureJobPending \/ state = erasureJobClaimed ->
    retry = jbRetryExponent j \/ retry = Z.min (jbRetryExponent j + 1) maxErasureRetryExponent ->
    row_move j {| jbLeaseID := jbLeaseID j; jbInstallationLookup := jbInstallationLookup j;
      jbEncryptedJob := jbEncryptedJob j; jbState := state; jbAttempts := jbAttempts j;
      jbRetryExponent := retry; jbAvailableAt := availableAt; jbExpiresAt := jbExpiresAt j;
      jbCreatedAt := jbCreatedAt j; jbTrafficClass := jbTrafficClass j; jbFinalReason := jbFinalReason j;
      jbA9 := jbA9 j |}.

(** A row disappears when its delivery was confirmed, when its outcome was counted, when its
    destination is erased, or with a lease it names without being live ([row_ok] excludes
    the last). *)
Inductive row_ends (j : JobRow) : Prop :=
| ends_sent : jbState j = deliveryJobClaimed -> row_ends j
| ends_counted : is_final j = true -> row_ends j
| ends_erased : erasure_live j = true \/ is_Some (jbInstallationLookup j) -> row_ends j
| ends_orphaned : is_Some (jbLeaseID j) -> job_live j = false -> row_ends j.

Record row_begins (j : JobRow) : Prop := {
  begins_ok : row_ok j;
  begins_state : jbState j = deliveryJobPending;
  begins_attempts : jbAttempts j = 0;
}.

Inductive job_move : option JobRow -> option JobRow -> Prop :=
| job_changes j j' : row_move j j' -> job_move (Some j) (Some j')
| job_ends j : row_ends j -> job_move (Some j) None
| job_begins j : row_begins j -> job_move None (Some j).

Definition jobs_ok (db : VaultDB) : Prop := forall k j, dbJobs db !! k = Some j -> row_ok j.

Definition jobs_move (db db' : VaultDB) : Prop := forall k, rtc job_move (dbJobs db !! k) (dbJobs db' !! k).

Definition evolves (db db' : VaultDB) : Prop :=
  jobs_move db db' /\ (vault_inv db -> vault_inv db' /\ append_only db db').

#[export] Instance evolves_preorder : PreOrder evolves.
Proof.
  split.
  - intros db. split; [by intros k|]. intros H. by split.
  - intros a b c [Hj Hi] [Hj' Hi']. split; [intros k; etrans; [apply Hj|apply Hj']|].
    intros Ha. destruct (Hi Ha) as [Hb Hab]. destruct (Hi' Hb) as [Hc Hbc]. split; [done|]. by etrans.
Qed.

(** ** Moves keep rows allowed *)

Lemma state_cases j :
  (job_live j = true <-> jbState j = deliveryJobPending \/ jbState j = deliveryJobClaimed) /\
  (erasure_live j = true <-> jbState j = erasureJobPending \/ jbState j = erasureJobClaimed) /\
  (is_final j = true <-> jbState j = deliveryJobFinal).
Proof. unfold job_live, erasure_live, is_final. rewrite !orb_true_iff, !Z.eqb_eq. naive_solver. Qed.

Lemma live_of_state j : jbState j = deliveryJobPending \/ jbState j = deliveryJobClaimed -> job_live j = true.
Proof. apply state_cases. Qed.

(** The shape of a row whose state is known. *)
Lemma live_shape j : row_ok j -> job_live j = true ->
  is_Some (jbLeaseID j) /\ jbInstallationLookup j = None /\ jbRetryExponent j = 0 /\
  delivery_class (jbTrafficClass j) /\ jbFinalReason j = None /\
  (forall c, jbA9 j = Some c -> columns_complete c = true).
Proof.
  intros [_ _ _ Hs] Hl. apply state_cases in Hl.
  destruct Hs as [| He|class reason He]; [done|apply state_cases in He..];
    unfold deliveryJobPending, deliveryJobClaimed, erasureJobPending, erasureJobClaimed, deliveryJobFinal in *; lia.
Qed.

Lemma erasure_shape j : row_ok j -> erasure_live j = true ->
  jbLeaseID j = None /\ is_Some (jbInstallationLookup j) /\ delivery_class (jbTrafficClass j) /\
  jbFinalReason j = None /\ jbA9 j = None.
Proof.
  intros [_ _ _ Hs] Hl. apply state_cases in Hl.
  destruct Hs as [He|He|class reason He]; [apply state_cases in He|done|apply state_cases in He];
    unfold deliveryJobPending, deliveryJobClaimed, erasureJobPending, erasureJobClaimed, deliveryJobFinal in *; lia.
Qed.

Lemma row_move_ok j j' : row_move j j' -> row_ok j -> row_ok j'.
Proof.
  intros Hm Hok. pose proof Hok as [Ha Hr Hl _].
  destruct Hm as [j class at_ Hs Hlt Hc|j at_ Hs|j Hs Hlt|j class reason at_ Hlive Hrs Hp Hc|j lookup enc at_ Hs
    |j state at_ retry He Hs Hre].
  - destruct (live_shape _ Hok (live_of_state _ (or_introl Hs))) as (H1 & H2 & H3 & H4 & H5 & H6).
    split; try done. apply shape_live; try done.
    cbn. unfold delivery_class, DeliveryTrafficConversation, DeliveryTrafficWelcome.
    assert (class = 1 \/ class = 2) as [-> | ->] by lia; auto.
  - destruct (live_shape _ Hok (live_of_state _ (or_intror Hs))) as (H1 & H2 & H3 & H4 & H5 & H6).
    split; try done. by apply shape_live.
  - destruct (live_shape _ Hok (live_of_state _ (or_intror Hs))) as (H1 & H2 & H3 & H4 & H5 & H6).
    split; cbn; [lia|done..|]. apply shape_live; try done. by apply live_of_state; right.
  - destruct (live_shape _ Hok Hlive) as (H1 & H2 & H3 & H4 & H5 & H6).
    split; [done|cbn; unfold maxErasureRetryExponent; lia|done|].
    eapply (shape_final _ class reason); try done. unfold final_pair.
    assert (0 <= class <= 2); [|lia]. destruct Hc as [Hc|Hc]; [done|].
    rewrite Hc in H4. unfold delivery_class, DeliveryTrafficConversation, DeliveryTrafficWelcome in H4.
    destruct H4 as [H4|[H4|H4]]; simplify_eq; lia.
  - destruct (live_shape _ Hok (live_of_state _ (or_intror Hs))) as (H1 & H2 & H3 & H4 & H5 & H6).
    split; cbn; [unfold MaxDeliveryAttempts; lia|unfold maxErasureRetryExponent; lia|done|]. by apply shape_erasure.
  - destruct (erasure_shape _ Hok He) as (H1 & H2 & H3 & H4 & H5).
    split; [done|cbn; unfold maxErasureRetryExponent in *; lia|done|].
    apply shape_erasure; try done. by apply state_cases.
Qed.

Lemma job_move_ok o o' : rtc job_move o o' -> (forall j, o = Some j -> row_ok j) -> forall j, o' = Some j -> row_ok j.
Proof.
  induction 1 as [o|o o1 o' Hm _ IH]; [done|]. intros Ho. apply IH. intros j ->.
  inversion Hm as [j0 j' Hr|?|j' Hb]; subst; [|by apply Hb]. eapply row_move_ok; [done|]. by apply Ho.
Qed.

Lemma jobs_move_ok db db' : jobs_move db db' -> jobs_ok db -> jobs_ok db'.
Proof. intros Hm Hok k j Hj. eapply job_move_ok; [apply (Hm k)| |exact Hj]. intros j0. apply Hok. Qed.

(** ** Statements *)

(** The tables the A9 control vault rests on, other than the jobs. *)
Record a9_frame (db db' : VaultDB) : Prop := {
  frame_authority : dbAuthority db' = dbAuthority db;
  frame_controls : dbControls db' = dbControls db;
  frame_bindings : dbBindings db' = dbBindings db;
  frame_tombstones : dbTombstones db' = dbTombstones db;
  frame_routes : dbRoutes db' = dbRoutes db;
  frame_receipts : dbReceipts db' = dbReceipts db;
  frame_assertions : dbAssertions db' = dbAssertions db;
  frame_watermarks : dbWatermarks db' = dbWatermarks db;
  frame_binding : forall c, dbKeyBinding db = Some c -> dbKeyBinding db' = Some c;
}.

(** An A9 job of the second database is live, and was there with its columns or names its route. *)
Definition a9_jobs_kept (db db' : VaultDB) : Prop :=
  forall k j', dbJobs db' !! k = Some j' -> is_Some (jbA9 j') -> job_live j' = true /\
    (job_supported db j' = true \/
     exists j, dbJobs db !! k = Some j /\ jbA9 j = jbA9 j' /\ jbLeaseID j = jbLeaseID j').

Lemma evolves_intro db db' :
  a9_frame db db' -> jobs_move db db' -> (vault_inv db -> a9_jobs_kept db db') -> evolves db db'.
Proof.
  intros [F1 F2 F3 F4 F5 F6 F7 F8 F9] Hm Hk. split; [done|].
  intros Hi. specialize (Hk Hi). destruct Hi as (Hs & (Hd & Ha & Hr & Hj & Hl) & Hrc).
  assert (Hsup : forall j, job_supported db' j = job_supported db j) by (intros; unfold job_supported; by rewrite F5).
  split.
  - split; [by rewrite F1, F2|]. split; [|by rewrite F6].
    split; [unfold denials_win; by rewrite F3, F4|]. split; [by rewrite F3|].
    split; [unfold routes_supported, route_supported; by rewrite F3, F5|].
    split; [|intros k j Hj' Hs'; by apply (Hk k j)].
    unfold jobs_supported. apply all_rows_true. intros k j' Hj'. rewrite Hsup.
    destruct (jbA9 j') as [c|] eqn:Ec; [|unfold job_supported; by rewrite Ec].
    destruct (Hk k j' Hj') as [_ [Hc|(j & Hj0 & HA & HL)]]; [by eexists|done|].
    unfold jobs_supported in Hj. rewrite all_rows_true in Hj. specialize (Hj _ _ Hj0).
    unfold job_supported in *. by rewrite <- HA, <- HL.
  - unfold append_only. by rewrite F2, F4, F6, F7, F8.
Qed.

Lemma frame_refl db : a9_frame db db.
Proof. by split. Qed.

(** Updates of other tables. *)
Lemma evolves_other db db' : a9_frame db db' -> dbJobs db' = dbJobs db -> evolves db db'.
Proof.
  intros Hf Hj. apply evolves_intro; [done|intros k; by rewrite Hj|].
  intros (_ & (_ & _ & _ & _ & Hl) & _) k j' Hk Ha. rewrite Hj in Hk. split; [by eapply Hl|]. right. by exists j'.
Qed.

Lemma row_moves_a9 j j' :
  rtc row_move j j' -> (is_Some (jbA9 j) -> job_live j = true) ->
  (is_Some (jbA9 j') -> job_live j' = true /\ jbA9 j = jbA9 j' /\ jbLeaseID j = jbLeaseID j').
Proof.
  induction 1 as [j|j j1 j' Hm _ IH]; [naive_solver|]. intros Hl Ha.
  assert (Hstep : is_Some (jbA9 j1) -> job_live j1 = true /\ jbA9 j = jbA9 j1 /\ jbLeaseID j = jbLeaseID j1).
  { destruct Hm as [j class at_ Hs Hlt Hc|j at_ Hs|j Hs Hlt|j class reason at_ Hlive Hrs Hp Hc|j lookup enc at_ Hs
      |j state at_ retry He Hs Hre]; cbn; intros Hj; try (by destruct Hj); try done.
    - split; [by apply live_of_state; right|done].
    - specialize (Hl Hj). apply state_cases in Hl, He.
      unfold deliveryJobPending, deliveryJobClaimed, erasureJobPending, erasureJobClaimed in *. lia. }
  destruct (IH (fun H => proj1 (Hstep H)) Ha) as (H1 & H2 & H3).
  destruct Hstep as (_ & H4 & H5); [by rewrite H2|]. by rewrite H4, H5.
Qed.

Lemma rows_move j j' : rtc row_move j j' -> rtc job_move (Some j) (Some j').
Proof. apply (rtc_congruence Some). intros. by apply job_changes. Qed.

(** Every row changes by moves or disappears by an end. *)
Lemma evolves_rows db m :
  (forall k, match dbJobs db !! k, m !! k with
             | Some j, Some j' => rtc row_move j j'
             | Some j, None => row_ends j
             | None, o => o = None
             end) -> evolves db (with_Jobs m db).
Proof.
  intros Hrows. apply evolves_intro; [by split| |].
  - intros k. cbn. specialize (Hrows k).
    destruct (dbJobs db !! k) as [j|], (m !! k) as [j'|]; try done; [by apply rows_move|].
    by apply rtc_once, job_ends.
  - intros (_ & (_ & _ & _ & _ & Hl) & _) k j' Hk Ha. cbn in Hk. specialize (Hrows k). rewrite Hk in Hrows.
    destruct (dbJobs db !! k) as [j|] eqn:Ej; [|done].
    destruct (row_moves_a9 _ _ Hrows (Hl k j Ej) Ha) as (H1 & H2 & H3). split; [done|]. right. by exists j.
Qed.

Lemma update_jobs_evolves where_ set_ db :
  (forall k j, dbJobs db !! k = Some j -> where_ k j = true -> rtc row_move j (set_ j)) ->
  evolves db (update_jobs where_ set_ db).
Proof.
  intros Hw. apply evolves_rows. intros k. rewrite map_lookup_imap.
  destruct (dbJobs db !! k) as [j|] eqn:Ej; cbn; [|done]. destruct (where_ k j) eqn:E; [by eapply Hw|done].
Qed.

Lemma delete_jobs_evolves where_ db :
  (forall k j, dbJobs db !! k = Some j -> where_ k j = true -> row_ends j) -> evolves db (delete_jobs where_ db).
Proof.
  intros Hw. apply evolves_rows. intros k.
  destruct (filter (fun kv => where_ kv.1 kv.2 = false) (dbJobs db) !! k) as [j'|] eqn:Ef.
  - apply map_lookup_filter_Some in Ef as [-> _]. done.
  - destruct (dbJobs db !! k) as [j|] eqn:Ej; [|done]. apply (Hw k); [done|].
    apply map_lookup_filter_None in Ef as [Ef|Ef]; [congruence|].
    apply not_false_iff_true. by apply (Ef j).
Qed.

Lemma update_job_evolves jobID where_ set_ db :
  (forall j, dbJobs db !! jobID = Some j -> where_ j = true -> rtc row_move j (set_ j)) ->
  evolves db (update_job jobID where_ set_ db).1.
Proof.
  intros Hw. unfold update_job. destruct (dbJobs db !! jobID) as [j|] eqn:Ej; [|done].
  destruct (where_ j) eqn:E; [|done]. apply evolves_rows. intros k.
  destruct (decide (k = jobID)) as [->|Hk].
  - rewrite Ej, lookup_insert_eq. by apply Hw.
  - rewrite lookup_insert_ne by done. by destruct (dbJobs db !! k).
Qed.

Lemma delete_job_evolves jobID where_ db :
  (forall j, dbJobs db !! jobID = Some j -> where_ j = true -> row_ends j) ->
  evolves db (delete_job jobID where_ db).1.
Proof.
  intros Hw. unfold delete_job. destruct (dbJobs db !! jobID) as [j|] eqn:Ej; [|done].
  destruct (where_ j) eqn:E; [|done]. apply evolves_rows. intros k.
  destruct (decide (k = jobID)) as [->|Hk].
  - rewrite Ej, lookup_delete_eq. by apply Hw.
  - rewrite lookup_delete_ne by done. by destruct (dbJobs db !! k).
Qed.

Lemma insert_job_evolves jobID row db db' :
  insert_job jobID row db = Some db' -> (jbExpiresAt row <= jbCreatedAt row + maxDeliveryJobLifetime ->
    (forall c, jbA9 row = Some c -> columns_complete c = true) -> row_begins row) -> evolves db db'.
Proof.
  unfold insert_job. destruct (dbJobs db !! jobID) eqn:Ej; [done|].
  destruct (_ && _ && _ && _) eqn:E; [|done]. intros [= <-] Hb. boolprop.
  assert (Hrow : row_begins row).
  { apply Hb; [done|]. intros c Hc. by rewrite Hc in *. }
  apply evolves_intro; [by split| |].
  - intros k. cbn. destruct (decide (k = jobID)) as [->|Hk].
    + rewrite Ej, lookup_insert_eq. by apply rtc_once, job_begins.
    + by rewrite lookup_insert_ne.
  - intros (_ & (_ & _ & _ & _ & Hl) & _) k j' Hk Ha. cbn in Hk.
    destruct (decide (k = jobID)) as [->|Hne].
    + rewrite lookup_insert_eq in Hk. injection Hk as <-. split; [|by left].
      apply live_of_state. left. by apply begins_state.
    + rewrite lookup_insert_ne in Hk by done. split; [by eapply Hl|]. right. by exists j'.
Qed.
