(* ===== verification/DeliveryMoves.v ===== *)
(** * Transactions of the queue evolve the database

    Every transaction body of the delivery queue and of the erasures is shown to change
    jobs only by the moves of [DeliveryInv]. *)

From S2P Require Import Prelude GoBytes GoTime GoCrypto A9Trust VaultCrypto Gate8Header Interfaces Sql A9Types A9VaultDb A9Vault A9VaultSpec A9VaultInv A9Current Aggregates DeliveryJob DeliveryQueue DeliveryOps DeliveryAttempt Tombstones RouteKeys DeliveryErase Moves DeliveryInv.
From stdpp Require Import sorting.
Local Open Scope Z_scope.
Local Open Scope go_scope.

(** ** Other components *)

Lemma moves_bound s : moves evolves (requireLookupKeyBoundTx s).
Proof.
  unfold requireLookupKeyBoundTx. split_moves. apply moves_exec. intros db db' [= <-].
  destruct (dbKeyBinding db) eqn:E; [done|]. apply evolves_other; [|done]. split; try done. congruence.
Qed.

#[export] Hint Resolve moves_bound : moves.

Lemma moves_retention s host : moves evolves (requireRetentionSafeTx s host).
Proof. unfold requireRetentionSafeTx. apply moves_collapsed. split_moves. Qed.

Definition moves_evolves_current := moves_current evolves moves_retention.

#[export] Hint Resolve moves_retention moves_evolves_current : moves.

Lemma put_cell_evolves key row db db' : put_cell key row db = Some db' -> evolves db db'.
Proof. unfold put_cell. destruct (cell_ok key row); [|done]. intros [= <-]. apply evolves_other; by split. Qed.

Lemma moves_aggregate s o now draw : moves evolves (recordOperationalAggregateTx s o now draw).
Proof.
  unfold recordOperationalAggregateTx. cbv zeta. split_moves.
  - apply moves_update. intros db db' ?. destruct (dbAggregates db !! _); [by intros [= <- _]|].
    destruct (put_cell _ _ db) as [db1|] eqn:E; [|done]. intros [= <- _]. by eapply put_cell_evolves.
  - apply moves_exec. intros db db'. apply put_cell_evolves.
Qed.

Lemma moves_observation s o now draw : moves evolves (recordDeliveryObservationTx s o now draw).
Proof. unfold recordDeliveryObservationTx. split_moves. apply moves_aggregate. Qed.

#[export] Hint Resolve moves_observation : moves.

(** ** Marking and finalizing *)

Section Moves.
Context `{HP : Postgres, HG : AesGcm, HJ : JobJson, HT : A9TrustSurface}.

Lemma moves_unavailable {A : Type} (m : vault_tx A) : moves evolves m -> moves evolves (unavailable m).
Proof. apply moves_mapped. Qed.

Lemma moves_database {A : Type} (m : vault_tx A) : moves evolves m -> moves evolves (database m).
Proof. apply moves_mapped. Qed.

Lemma moves_from_result {A : Type} (r : result error A) : moves evolves (from_result r).
Proof. unfold from_result. split_moves. Qed.

Lemma persisted_class_some class c : persisted_class class = Some c -> class = Some c /\ 1 <= c <= 2.
Proof.
  unfold persisted_class, DeliveryTrafficConversation, DeliveryTrafficWelcome. destruct class as [d|]; [|done].
  destruct (_ || _) eqn:E; [|done]. intros [= ->]. boolprop; split; try done; lia.
Qed.

Lemma persisted_class_none class : persisted_class class = None ->
  class = None \/ exists c, class = Some c /\ ~ (1 <= c <= 2).
Proof.
  unfold persisted_class, DeliveryTrafficConversation, DeliveryTrafficWelcome. destruct class as [d|]; [|by left].
  destruct (_ || _) eqn:E; [done|]. boolprop. intros _. right. exists d. split; [done|]. lia.
Qed.

Lemma final_class_range s jobID j : 0 <= final_class s jobID j <= 2.
Proof.
  unfold final_class, DeliveryTrafficUnknown. destruct (persisted_class (jbTrafficClass j)) as [c|] eqn:E.
  - apply persisted_class_some in E. lia.
  - destruct (read_payload s jobID (jbEncryptedJob j)) as [| |job]; [lia..|].
    destruct (persisted_class (Some (sjTrafficClass job))) as [c|] eqn:Ec; cbn; [|lia].
    apply persisted_class_some in Ec. lia.
Qed.

Lemma final_reason_pair class reason : 1 <= reason <= 5 -> 0 <= class <= 2 ->
  1 <= final_reason class reason <= 5 /\ (4 <= final_reason class reason \/ 1 <= class <= 2).
Proof.
  unfold final_reason, DeliveryTrafficUnknown, DeliveryFinalSafetyInvalidated, DeliveryFinalMaterialInvalid.
  intros Hr Hc. destruct (_ && _ && _) eqn:E; boolprop; lia.
Qed.

Lemma valid_reason reason : validDeliveryFinalReason reason = true <-> 1 <= reason <= 5.
Proof.
  unfold validDeliveryFinalReason, DeliveryFinalTerminalRejected, DeliveryFinalMaterialInvalid.
  rewrite andb_true_iff, !Z.leb_le. lia.
Qed.

Lemma moves_mark s host jobID reason : moves evolves (markDeliveryJobFinalTx s host jobID reason).
Proof.
  unfold markDeliveryJobFinalTx, unavailable. cbv zeta. split_moves. boolprop.
  match goal with H : validDeliveryFinalReason _ = true |- _ => apply valid_reason in H end.
  apply moves_affecting. intros db. apply update_job_evolves. intros j0 _ Hlive. apply rtc_once.
  match goal with |- row_move _ (final_row (final_class _ _ ?j) _ _ _) =>
    destruct (final_reason_pair (final_class s jobID j) reason) as [H1 H2]; [done|apply final_class_range|] end.
  apply move_final; [done|done|done|]. left. apply final_class_range.
Qed.

#[local] Hint Resolve moves_mark : moves.

Lemma safety_row_move host j : job_live j = true -> row_move j (safety_row host j).
Proof.
  intros Hl. apply move_final; [done|done|by left|].
  destruct (jbTrafficClass j) as [c|]; cbn; [by right|by left].
Qed.

Lemma expired_row_move now j : job_live j = true -> row_move j (expired_row now j).
Proof.
  intros Hl. unfold expired_row, DeliveryTrafficUnknown, DeliveryFinalTTLExpired, DeliveryFinalMaterialInvalid.
  destruct (persisted_class (jbTrafficClass j)) as [c|] eqn:E.
  - apply persisted_class_some in E as [-> Hc]. apply move_final; [done|lia|by right|by left; cbn; lia].
  - apply move_final; [done|lia|by left|]. destruct (jbTrafficClass j) as [c|]; cbn; [by right|by left].
Qed.

Lemma moves_safety_lease host leaseID : moves evolves (markDeliveryJobsSafetyForLeaseTx host leaseID).
Proof.
  unfold markDeliveryJobsSafetyForLeaseTx, unavailable. split_moves. apply moves_silently. intros db.
  apply update_jobs_evolves. intros k j _ Hw. unfold on_lease in Hw. boolprop. by apply rtc_once, safety_row_move.
Qed.

Lemma moves_safety_installation host lookup except :
  moves evolves (markDeliveryJobsSafetyForInstallationTx host lookup except).
Proof.
  unfold markDeliveryJobsSafetyForInstallationTx, unavailable. split_moves. apply moves_silently. intros db.
  apply update_jobs_evolves. intros k j _ Hw. unfold on_installation in Hw. boolprop.
  by apply rtc_once, safety_row_move.
Qed.

Lemma moves_expired now : moves evolves (markExpiredDeliveryJobsTx now).
Proof.
  unfold markExpiredDeliveryJobsTx, unavailable. split_moves. apply moves_silently. intros db.
  apply update_jobs_evolves. intros k j _ Hw. boolprop. by apply rtc_once, expired_row_move.
Qed.

Lemma moves_complete s host draw jobID : moves evolves (completeDeliveryFinalizationTx s host draw jobID).
Proof.
  unfold completeDeliveryFinalizationTx, unavailable. split_moves. apply moves_affecting. intros db.
  apply delete_job_evolves. intros j0 _ Hw. boolprop. by apply ends_counted.
Qed.

#[local] Hint Resolve moves_safety_lease moves_safety_installation moves_complete : moves.

Lemma moves_markers s round : moves evolves (completeDeliveryMarkersTx s round).
Proof. unfold completeDeliveryMarkersTx, unavailable. split_moves. apply moves_each; [exact _|]. intros. split_moves. Qed.

Lemma moves_overdue s now : moves evolves (markOverdueErasureUnsafe s now).
Proof.
  unfold markOverdueErasureUnsafe, unavailable. split_moves. apply moves_silently. intros db.
  destruct (overdue_erasure now db); [|done]. apply evolves_other; by split.
Qed.

#[local] Hint Resolve moves_overdue : moves.

Lemma moves_recover s round : moves evolves (recover_tx s round).
Proof.
  unfold recover_tx, unavailable. cbv zeta. split_moves.
  - apply moves_each; [exact _|]. intros [jobID j]. split_moves.
  - apply moves_silently. intros db. apply update_jobs_evolves. intros k j _ Hw. unfold claim_lapsed in Hw. boolprop.
    by apply rtc_once, move_release.
Qed.

(** ** Enqueueing *)

Lemma moves_current_topic s leaseID lease job : moves evolves (current_topic s leaseID lease job).
Proof. unfold current_topic. split_moves. Qed.

Lemma moves_same_route s leaseID lease job route : moves evolves (same_route s leaseID lease job route).
Proof. unfold same_route. split_moves. apply moves_current_topic. Qed.

#[local] Hint Resolve moves_same_route moves_from_result : moves.

Lemma pending_row_begins leaseID encrypted now expiresAt class snapshot :
  1 <= class <= 2 ->
  let row := pending_row leaseID encrypted now expiresAt class snapshot in
  jbExpiresAt row <= jbCreatedAt row + maxDeliveryJobLifetime ->
  (forall c, jbA9 row = Some c -> columns_complete c = true) -> row_begins row.
Proof.
  intros Hc row Hl Ha. split; [|done..]. split; [done|done|done|].
  apply shape_live; try done; cbn. unfold delivery_class, DeliveryTrafficConversation, DeliveryTrafficWelcome.
  assert (class = 1 \/ class = 2) as [-> | ->] by lia; auto.
Qed.

Lemma moves_store_job s round leaseID jobID job maxQueued now authority route :
  1 <= sjTrafficClass job <= 2 -> moves evolves (store_job s round leaseID jobID job maxQueued now authority route).
Proof.
  intros Hc. unfold store_job, database, still_current, unavailable. split_moves. apply moves_exec.
  intros db db' Hi. eapply insert_job_evolves; [exact Hi|]. by apply pending_row_begins.
Qed.

Lemma class_expectation_some class e : class_expectation class = Some e -> 1 <= class <= 2.
Proof.
  unfold class_expectation, DeliveryTrafficConversation, DeliveryTrafficWelcome.
  destruct (class =? 1) eqn:E1; [boolprop; lia|]. destruct (class =? 2) eqn:E2; [boolprop; lia|done].
Qed.

Lemma moves_enqueue_guard s round trust leaseID job now : moves evolves (enqueue_guard s round trust leaseID job now).
Proof. unfold enqueue_guard, unavailable. split_moves. Qed.

Lemma moves_enqueue s round trust leaseID jobID job source maxQueued now :
  moves evolves (enqueue_tx s round trust leaseID jobID job source maxQueued now).
Proof.
  unfold enqueue_tx, database. cbv zeta. apply moves_bind; [exact _|apply moves_enqueue_guard|intros route].
  apply moves_bind; [exact _|split_moves|intros _].
  destruct (class_expectation (sjTrafficClass job)) as [e|] eqn:He; [|split_moves].
  apply class_expectation_some in He. split_moves.
  - apply moves_silently. intros db. apply evolves_other; by split.
  - apply moves_affecting. intros db. unfold insert_dedupe. destruct (dbDedupes db !! _); [done|].
    apply evolves_other; by split.
  - by apply moves_store_job.
Qed.

(** ** Claiming *)

Lemma sublist_List_filter {A : Type} (f : A -> bool) (l : list A) : List.filter f l `sublist_of` l.
Proof. induction l as [|x l IH]; cbn; [done|]. destruct (f x); by constructor. Qed.

(** Selected rows are rows of the table that satisfy the condition, each once. *)
Lemma jobs_where_elem p db id j : (id, j) ∈ jobs_where p db <-> dbJobs db !! id = Some j /\ p id j = true.
Proof.
  unfold jobs_where. rewrite list_elem_of_In, filter_In, <- list_elem_of_In, elem_of_map_to_list. done.
Qed.

Lemma jobs_where_nodup p db : NoDup (jobs_where p db).*1.
Proof.
  unfold jobs_where. eapply sublist_NoDup; [apply (NoDup_fst_map_to_list (dbJobs db))|].
  apply fmap_sublist, sublist_List_filter.
Qed.

Lemma sorted_jobs_sublist key limit rows :
  exists rows', rows' ≡ₚ rows /\ sorted_jobs key limit rows `sublist_of` rows'.
Proof.
  unfold sorted_jobs.
  match goal with |- context [merge_sort ?R rows] => exists (merge_sort R rows) end.
  split; [apply merge_sort_Permutation|apply sublist_take].
Qed.

Lemma sorted_jobs_elem key limit rows x : x ∈ sorted_jobs key limit rows -> x ∈ rows.
Proof.
  destruct (sorted_jobs_sublist key limit rows) as (rows' & Hp & Hs). intros Hx.
  rewrite <- Hp. by eapply elem_of_submseteq, sublist_submseteq.
Qed.

Lemma sorted_jobs_nodup key limit rows : NoDup rows.*1 -> NoDup (sorted_jobs key limit rows).*1.
Proof.
  destruct (sorted_jobs_sublist key limit rows) as (rows' & Hp & Hs). intros Hn. rewrite <- Hp in Hn.
  eapply sublist_NoDup; [exact Hn|]. by apply fmap_sublist.
Qed.

(** Only one job changed. *)
Definition but_for (jobID : bytes) (db db' : VaultDB) : Prop :=
  forall k, k <> jobID -> dbJobs db' !! k = dbJobs db !! k.

#[local] Instance but_for_preorder jobID : PreOrder (but_for jobID).
Proof. split; [by intros db k|]. intros a b c Hab Hbc k Hk. by rewrite Hbc, Hab. Qed.

Lemma update_job_but_for jobID where_ set_ db : but_for jobID db (update_job jobID where_ set_ db).1.
Proof.
  intros k Hk. unfold update_job. destruct (dbJobs db !! jobID) as [j|]; [|done].
  destruct (where_ j); [|done]. cbn. by rewrite lookup_insert_ne.
Qed.

Lemma affecting_but_for jobID where_ set_ : moves (but_for jobID) (affecting (update_job jobID where_ set_)).
Proof.
  apply moves_update. intros db db' a [= He]. pose proof (update_job_but_for jobID where_ set_ db) as H.
  by rewrite He in H.
Qed.

Lemma mark_but_for s host jobID reason : moves (but_for jobID) (markDeliveryJobFinalTx s host jobID reason).
Proof.
  unfold markDeliveryJobFinalTx, unavailable. cbv zeta. split_moves. apply affecting_but_for.
Qed.

Lemma claim_one_but_for s round now deadline jobID j : moves (but_for jobID) (claim_one s round now deadline jobID j).
Proof.
  unfold claim_one, unavailable. cbv zeta. split_moves; first [apply mark_but_for|apply affecting_but_for].
Qed.

Lemma valid_job_class job now : validateSerializedDeliveryJob job now = true -> 1 <= sjTrafficClass job <= 2.
Proof.
  unfold validateSerializedDeliveryJob, DeliveryTrafficConversation, DeliveryTrafficWelcome. intros Hv.
  destruct (sjTrafficClass job =? 1) eqn:E1; [boolprop; lia|].
  destruct (sjTrafficClass job =? 2) eqn:E2; [boolprop; lia|]. exfalso. revert Hv.
  repeat match goal with |- (if ?c then _ else _) = _ -> _ => destruct c end; done.
Qed.

Lemma claim_one_evolves s round now deadline jobID j st r st' :
  dbJobs (txDb st) !! jobID = Some j -> jbState j = deliveryJobPending ->
  claim_one s round now deadline jobID j st = Ok (r, st') -> evolves (txDb st) (txDb st').
Proof.
  intros Hj Hs. unfold claim_one, unavailable. cbv zeta.
  assert (Hmark : forall reason, moves evolves (mapped to_unavailable
    (markDeliveryJobFinalTx s (rdJobClock round jobID) jobID reason) ;; (mret None : vault_tx (option ClaimedDeliveryJob))))
    by (intros; split_moves).
  destruct (read_payload s jobID (jbEncryptedJob j)) as [| |job]; [apply Hmark..|].
  destruct (payload_matches j job now) eqn:Ep; cbn [negb]; [|apply Hmark].
  destruct (Bool.eqb _ _); cbn [negb]; [|apply Hmark].
  intros (a & s1 & H1%mapped_ok%update_ok & [_ ->]%ret_ok)%tx_bind_ok. injection H1 as He.
  pose proof (update_job_evolves jobID (fun j => jbAttempts j <? MaxDeliveryAttempts)
    (claim_row deadline (sjTrafficClass job)) (txDb st)) as Hu. rewrite He in Hu. apply Hu.
  intros j0 Hj0 Hlt. rewrite Hj in Hj0. injection Hj0 as <-. boolprop. apply rtc_once. unfold payload_matches in Ep.
  boolprop. apply move_claim; [done|done|]. by eapply valid_job_class.
Qed.

Lemma claim_each_evolves s round now deadline rows st r st' :
  NoDup rows.*1 ->
  (forall id j, (id, j) ∈ rows -> dbJobs (txDb st) !! id = Some j /\ jbState j = deliveryJobPending) ->
  claim_each s round now deadline rows st = Ok (r, st') -> evolves (txDb st) (txDb st').
Proof.
  revert st r. induction rows as [|[id j] rows IH]; intros st r Hn Hrows; cbn [claim_each].
  { by intros [_ ->]%ret_ok. }
  intros (c & s1 & H1 & (rest & s2 & H2 & [_ ->]%ret_ok)%tx_bind_ok)%tx_bind_ok.
  apply NoDup_cons in Hn as [Hid Hn]. destruct (Hrows id j) as [Hj Hs]; [by left|].
  transitivity (txDb s1); [by eapply claim_one_evolves|]. eapply IH; [done| |exact H2].
  intros id' j' Hin. destruct (Hrows id' j') as [Hj' Hs']; [by right|]. split; [|done]. rewrite <- Hj'.
  apply (claim_one_but_for _ _ _ _ _ _ _ _ _ H1). intros ->. apply Hid. apply list_elem_of_fmap. by exists (id, j').
Qed.

Lemma moves_claim s round limit claimTTL : moves evolves (claim_tx s round limit claimTTL).
Proof.
  intros st r st' (rows & s1 & [-> E]%mapped_ok%query_ok & Hx)%tx_bind_ok. rewrite <- E.
  eapply claim_each_evolves; [| |exact Hx].
  - apply sorted_jobs_nodup, jobs_where_nodup.
  - intros id j [Hj Hc]%sorted_jobs_elem%jobs_where_elem. rewrite E. split; [done|].
    unfold claimable in Hc. by boolprop.
Qed.

(** ** Attempts *)

Lemma moves_hits_one f : (forall db, evolves db (f db).1) -> moves evolves (hits_one f).
Proof. intros Hf. unfold hits_one, unavailable. split_moves. by apply moves_affecting. Qed.

Lemma guard_valid_next g : guard_valid g = true ->
  gdNextAttempts g = gdPriorAttempts g + 1 /\ 0 < gdNextAttempts g <= MaxDeliveryAttempts.
Proof. unfold guard_valid. intros. boolprop. lia. Qed.

Lemma guarded_row_true g j : guarded_row g j = true -> jbState j = deliveryJobClaimed /\ jbAttempts j = gdPriorAttempts g.
Proof. unfold guarded_row. intros. by boolprop. Qed.

(** One more attempt is recorded on a claimed row. *)
Lemma attempt_move g j : guard_valid g = true -> guarded_row g j = true ->
  row_move j (with_attempts (gdNextAttempts g) j).
Proof.
  intros [Hn Hle]%guard_valid_next [Hs Ha]%guarded_row_true. rewrite Hn, <- Ha. apply move_attempt; [done|lia].
Qed.

Lemma moves_guard_final round g reason :
  guard_valid g = true -> moves evolves (guard_markFinal round g reason).
Proof.
  intros Hg. unfold guard_markFinal. split_moves. boolprop.
  match goal with H : validDeliveryFinalReason _ = true |- _ => apply valid_reason in H end.
  apply moves_hits_one. intros db. apply update_job_evolves. intros j _ Hw.
  assert (Hc : 1 <= sjTrafficClass (gdJob g) <= 2)
    by (unfold DeliveryTrafficConversation, DeliveryTrafficWelcome in *; boolprop; lia).
  eapply rtc_l; [by apply (attempt_move g)|]. apply rtc_once.
  apply (move_final (with_attempts (gdNextAttempts g) j)); [|done|by right|left; lia].
  apply live_of_state. right. by apply guarded_row_true in Hw as [? _].
Qed.

Lemma moves_seal_marker s round jobID marker : moves evolves (seal_marker s round jobID marker).
Proof. unfold seal_marker. split_moves. Qed.

Lemma moves_block lookup jobID host clock : moves evolves (block_and_cancel lookup jobID host clock).
Proof.
  unfold block_and_cancel, unavailable. split_moves.
  - apply moves_silently. intros db. apply evolves_other; by split.
  - apply moves_silently. intros db. apply evolves_other; by split.
  - apply moves_silently. intros db. apply delete_jobs_evolves. intros k j _ Hw. boolprop.
    apply ends_erased. right. by eexists.
Qed.

#[local] Hint Resolve moves_seal_marker moves_block moves_guard_final : moves.

Lemma moves_convert_guard s round g availableAt : moves evolves (convertInvalidTokenTx s round g availableAt).
Proof.
  unfold convertInvalidTokenTx. split_moves. apply moves_hits_one. intros db. apply update_job_evolves.
  intros j _ [Hs _]%guarded_row_true. by apply rtc_once, move_erase.
Qed.

Lemma moves_Complete s round g result : moves evolves (guard_Complete s round g result).
Proof.
  unfold guard_Complete. split_moves; boolprop; [|by apply moves_guard_final..| |apply moves_convert_guard].
  - apply moves_hits_one. intros db. apply delete_job_evolves. intros j _ [Hs _]%guarded_row_true. by apply ends_sent.
  - apply moves_hits_one. intros db. apply update_job_evolves. intros j _ Hw.
    eapply rtc_l; [by apply (attempt_move g)|]. apply rtc_once.
    assert (Hs : jbState j = deliveryJobClaimed) by (by apply guarded_row_true in Hw as [? _]).
    exact (move_release (with_attempts (gdNextAttempts g) j) _ Hs).
Qed.

Lemma moves_RecordAttempt g : moves evolves (guard_RecordAttempt g).
Proof.
  unfold guard_RecordAttempt. split_moves. apply moves_hits_one. intros db. apply update_job_evolves.
  intros j _ Hw. apply rtc_once. by apply attempt_move.
Qed.

Lemma moves_attempt s round trust job expectation now e :
  moves evolves (attempt_tx s round trust job expectation now e).
Proof.
  unfold attempt_tx. apply moves_bind; [exact _|apply (moves_acquire evolves moves_retention)|intros o].
  destruct o as [g|]; [|split_moves]. destruct e as [result| |]; split_moves;
    [apply moves_Complete|apply moves_RecordAttempt].
Qed.

End Moves.
