(* ===== verification/ErasureMoves.v ===== *)
(** * Erasures and recoveries evolve the database

    The transactions that return, retry and erase jobs change them only by the moves of
    [DeliveryInv]: releasing and rescheduling a claim, the deletion-only worker, the
    conversion of a job into an erasure marker, and the erasure of a token, whose cascade
    meets no live job because the queued work was ended before. *)

From S2P Require Import Prelude GoBytes GoTime GoCrypto A9Trust VaultCrypto Gate8Header Interfaces Sql A9Types A9VaultDb A9Vault A9VaultSpec A9VaultInv A9Current Aggregates DeliveryJob DeliveryQueue DeliveryOps DeliveryAttempt Tombstones RouteKeys DeliveryErase Moves DeliveryInv DeliveryMoves.
Local Open Scope Z_scope.
Local Open Scope go_scope.

Section Moves.
Context `{HP : Postgres, HG : AesGcm, HJ : JobJson, HT : A9TrustSurface}.

#[local] Hint Resolve moves_mark moves_overdue moves_seal_marker moves_block : moves.

(** ** Releasing a claim *)

(** A claimed erasure returned to the worker's queue. *)
Lemma erasure_state_move state availableAt j :
  erasure_live j = true -> state = erasureJobPending \/ state = erasureJobClaimed ->
  row_move j (with_state state availableAt j).
Proof. intros He Hs. apply (move_erasure j state availableAt (jbRetryExponent j) He Hs). by left. Qed.

Lemma erasure_of_state j :
  jbState j = erasureJobPending \/ jbState j = erasureJobClaimed -> erasure_live j = true.
Proof. apply state_cases. Qed.

Lemma released_row_move now j :
  (jbState j =? deliveryJobClaimed) || (jbState j =? erasureJobClaimed) = true -> row_move j (released_row now j).
Proof.
  unfold released_row. destruct (jbState j =? deliveryJobClaimed) eqn:E; cbn [orb]; intros H; boolprop.
  - by apply move_release.
  - apply erasure_state_move; [|by left]. apply erasure_of_state. by right.
Qed.

Lemma moves_release s round jobID : moves evolves (release_tx s round jobID).
Proof.
  unfold release_tx, unavailable. split_moves. apply moves_affecting. intros db. apply update_job_evolves.
  intros j _ Hw. by apply rtc_once, released_row_move.
Qed.

(** ** The deletion-only worker *)

Lemma moves_release_erasures now : moves evolves (release_erasures now).
Proof.
  unfold release_erasures, unavailable. split_moves. apply moves_silently. intros db. apply update_jobs_evolves.
  intros k j _ Hw. unfold erasure_lapsed in Hw. boolprop. apply rtc_once, erasure_state_move; [|by left].
  apply erasure_of_state. by right.
Qed.

#[local] Hint Resolve moves_release_erasures : moves.

Lemma moves_recover_erasures s round : moves evolves (recover_erasures_tx s round).
Proof.
  unfold recover_erasures_tx, unavailable. cbv zeta. split_moves. apply moves_silently. intros db.
  apply update_jobs_evolves. intros k j _ Hw. boolprop. apply rtc_once. unfold with_available.
  apply erasure_state_move; [apply erasure_of_state; by left|by left].
Qed.

Lemma moves_claim_erasure s deadline jobID j st r st' :
  (forall j, dbJobs (txDb st) !! jobID = Some j -> erasure_live j = true) ->
  claim_erasure s deadline jobID j st = Ok (r, st') ->
  evolves (txDb st) (txDb st') /\ but_for jobID (txDb st) (txDb st').
Proof.
  intros Hj. unfold claim_erasure. intros (u & s1 & [_ ->]%ensure_ok & Hx)%tx_bind_ok.
  destruct (read_payload s jobID (jbEncryptedJob j)) as [| |job]; [done..|].
  apply tx_bind_ok in Hx as (u' & s2 & [_ ->]%ensure_ok & Hx).
  apply tx_bind_ok in Hx as (b & s3 & H1%mapped_ok & [_ ->]%ret_ok). split.
  - apply update_ok in H1. injection H1 as H1.
    pose proof (update_job_evolves jobID (fun _ => true) (with_state erasureJobClaimed (pg_timestamp deadline))
      (txDb st)) as Hu. rewrite H1 in Hu. apply Hu. intros j0 Hj0 _. apply rtc_once, erasure_state_move; [|by right].
    by apply Hj.
  - by apply affecting_but_for in H1.
Qed.

Lemma claim_erasures_evolve s deadline rows st r st' :
  NoDup rows.*1 -> (forall id j, (id, j) ∈ rows -> dbJobs (txDb st) !! id = Some j /\ erasure_live j = true) ->
  claim_erasures s deadline rows st = Ok (r, st') -> evolves (txDb st) (txDb st').
Proof.
  revert st r. induction rows as [|[id j] rows IH]; intros st r Hn Hrows; cbn [claim_erasures].
  { by intros [_ ->]%ret_ok. }
  intros (c & s1 & H1 & (rest & s2 & H2 & [_ ->]%ret_ok)%tx_bind_ok)%tx_bind_ok.
  apply NoDup_cons in Hn as [Hid Hn]. destruct (Hrows id j) as [Hj Hs]; [by left|].
  apply moves_claim_erasure in H1 as [H1 Hbut]; [|intros j0 Hj0; congruence].
  transitivity (txDb s1); [done|]. eapply IH; [done| |exact H2].
  intros id' j' Hin. destruct (Hrows id' j') as [Hj' Hs']; [by right|]. split; [|done]. rewrite <- Hj'.
  apply Hbut. intros ->. apply Hid. apply list_elem_of_fmap. by exists (id, j').
Qed.

Lemma moves_claim_erasures s round limit claimTTL : moves evolves (claim_erasures_tx s round limit claimTTL).
Proof.
  unfold claim_erasures_tx, unavailable. cbv zeta. apply moves_bind; [exact _|split_moves|intros _].
  apply moves_bind; [exact _|split_moves|intros _].
  intros st r st' (rows & s1 & [-> E]%mapped_ok%query_ok & Hx)%tx_bind_ok. rewrite <- E.
  eapply claim_erasures_evolve; [| |exact Hx].
  - apply sorted_jobs_nodup, jobs_where_nodup.
  - intros id j [Hj Hc]%sorted_jobs_elem%jobs_where_elem. rewrite E. split; [done|].
    unfold claimable_erasure in Hc. boolprop. apply erasure_of_state. by left.
Qed.

Lemma moves_reschedule_erasure s round jobID availableAt : moves evolves (reschedule_erasure_tx s round jobID availableAt).
Proof.
  unfold reschedule_erasure_tx, unavailable. split_moves. apply moves_affecting. intros db. apply update_job_evolves.
  intros j _ Hw. boolprop. apply rtc_once. apply (move_erasure j erasureJobPending _ (Z.min (jbRetryExponent j + 1) maxErasureRetryExponent)).
  - apply erasure_of_state. by right.
  - by left.
  - by right.
Qed.

Lemma moves_delete_erasure jobID : moves evolves (unavailable (affecting (delete_job jobID erasure_live))).
Proof.
  unfold unavailable. split_moves. apply moves_affecting. intros db. apply delete_job_evolves.
  intros j _ Hw. apply ends_erased. by left.
Qed.

(** ** Converting a job *)

Definition keeps (jobID : bytes) (db db' : VaultDB) : Prop := dbJobs db' !! jobID = dbJobs db !! jobID.

#[local] Instance keeps_preorder jobID : PreOrder (keeps jobID).
Proof. unfold keeps. split; [by intros db|]. intros a b c Hab Hbc. by rewrite Hbc. Qed.

(** Ending everything else queued for a destination leaves the job itself alone. *)
Lemma block_keeps lookup jobID host clock :
  length jobID = 16%nat -> moves (keeps jobID) (block_and_cancel lookup jobID host clock).
Proof.
  intros Hl. unfold block_and_cancel, markDeliveryJobsSafetyForInstallationTx, unavailable. split_moves;
    apply moves_exec; intros db db' [= <-]; unfold keeps; [done|done| |].
  - unfold update_jobs. cbn. rewrite map_lookup_imap. destruct (dbJobs db !! jobID); [|done]. cbn.
    rewrite Hl, beq_refl. cbn. by rewrite andb_false_r.
  - unfold delete_jobs. cbn. destruct (dbJobs db !! jobID) as [j|] eqn:Ej.
    + apply map_lookup_filter_Some. split; [done|]. cbn. by rewrite beq_refl, andb_false_r.
    + apply map_lookup_filter_None. by left.
Qed.

Lemma claimed_destination_some jobID db j lease installation :
  claimed_destination jobID db = Some (j, lease, installation) ->
  dbJobs db !! jobID = Some j /\ jbState j = deliveryJobClaimed.
Proof.
  unfold claimed_destination, find_job. destruct (dbJobs db !! jobID) as [j0|]; [|done]. cbn.
  destruct (jbLeaseID j0) as [leaseID|]; [|done]. cbn. destruct (dbLeases db !! leaseID) as [l|]; [|done]. cbn.
  destruct (dbInstallations db !! _); [|done]. cbn. destruct (jbState j0 =? deliveryJobClaimed) eqn:E; [|done].
  intros [= -> -> ->]. by boolprop.
Qed.

Lemma convert_evolves {A : Type} jobID lookup host clock encrypted availableAt st (a b : A) st' :
  length jobID = 16%nat ->
  (exists j, dbJobs (txDb st) !! jobID = Some j /\ jbState j = deliveryJobClaimed) ->
  (block_and_cancel lookup jobID host clock ;;
   unavailable (affecting (update_job jobID (fun _ => true) (erasure_row lookup encrypted availableAt))) ;;
   mret a) st = Ok (b, st') -> evolves (txDb st) (txDb st').
Proof.
  intros Hl (j & Hj & Hs) (u & s1 & H1 & (b' & s2 & H2%mapped_ok%update_ok & [_ ->]%ret_ok)%tx_bind_ok)%tx_bind_ok.
  transitivity (txDb s1); [by apply moves_block in H1|]. apply block_keeps in H1; [|done]. injection H2 as H2.
  pose proof (update_job_evolves jobID (fun _ => true) (erasure_row lookup encrypted availableAt) (txDb s1)) as Hu.
  rewrite H2 in Hu. apply Hu. unfold keeps in H1. rewrite H1, Hj. intros j0 [= <-] _. by apply rtc_once, move_erase.
Qed.

Lemma moves_current_token s lookup encrypted : moves evolves (current_token s lookup encrypted).
Proof. unfold current_token. split_moves. Qed.

#[local] Hint Resolve moves_current_token : moves.

Lemma moves_convert s round jobID failedDeviceToken failedToken trafficClass availableAt :
  length jobID = 16%nat ->
  moves evolves (convert_tx s round jobID failedDeviceToken failedToken trafficClass availableAt).
Proof.
  intros Hl st r st' (found & s1 & [-> E]%mapped_ok%query_ok & Hx)%tx_bind_ok. rewrite <- E in *.
  destruct (claimed_destination jobID (txDb s1)) as [[[j lease] installation]|] eqn:Ec.
  2: { apply ret_ok in Hx as [_ ->]. done. }
  apply claimed_destination_some in Ec as [Hj Hs]. cbv zeta in Hx.
  apply tx_bind_ok in Hx as (token & s2 & Htoken & Hx).
  assert (s2 = s1) as ->.
  { unfold current_token in Htoken. destruct (Open _ _ _) in Htoken; [by apply ret_ok in Htoken as [_ ->]|done]. }
  destruct (beq token failedToken); cbn [negb] in Hx.
  - apply tx_bind_ok in Hx as (encrypted & s3 & Hseal & Hx).
    assert (s3 = s1) as ->.
    { unfold seal_marker in Hseal. destruct (marshal_job _) in Hseal; [|done].
      destruct (Seal _ _ _ _) in Hseal; [by apply ret_ok in Hseal as [_ ->]|done]. }
    eapply convert_evolves; [exact Hl| |exact Hx]. by exists j.
  - revert Hx. unfold unavailable. apply moves_bind; [exact _|split_moves|intros; split_moves].
Qed.

(** ** Erasing a token *)

Lemma moves_retire s identity epoch now : moves evolves (retireRouteKeyHistory s identity epoch now).
Proof.
  unfold retireRouteKeyHistory, store_unavailable. split_moves. apply moves_affecting. intros db.
  apply evolves_other; by split.
Qed.

Lemma moves_upsert_deletion s kind identity keyVersion fence now :
  moves evolves (upsertDeletionTombstone s kind identity keyVersion fence now).
Proof.
  unfold upsertDeletionTombstone, store_unavailable. split_moves. apply moves_silently. intros db.
  apply evolves_other; by split.
Qed.

#[local] Hint Resolve moves_retire moves_upsert_deletion : moves.

Lemma moves_fence_route s now lease : moves evolves (fence_route s now lease).
Proof. unfold fence_route, unavailable. split_moves. Qed.

(** A cascade over leases on which no job is live. *)
Lemma delete_leases_evolves p db db' :
  (forall k j leaseID, dbJobs db !! k = Some j -> jbLeaseID j = Some leaseID -> gone_lease p db leaseID = true ->
   job_live j = false) ->
  delete_leases p db = Some db' -> evolves db db'.
Proof.
  intros Hj. unfold delete_leases. destruct (all_rows _ _); [|done]. cbn [negb]. intros [= <-].
  set (gone := fun (_ : bytes) (j : JobRow) => match jbLeaseID j with Some l => gone_lease p db l | None => false end).
  transitivity (delete_jobs gone db); [|apply evolves_other; by split].
  apply delete_jobs_evolves. intros k j Hk Hw. unfold gone in Hw.
  destruct (jbLeaseID j) as [leaseID|] eqn:El; [|done]. apply ends_orphaned; [by rewrite El|]. by eapply Hj.
Qed.

(** Once the queued work of an installation was ended, no live job hangs on its leases. *)
Lemma safety_ends host lookup st u st' :
  markDeliveryJobsSafetyForInstallationTx host lookup [] st = Ok (u, st') ->
  forall k j leaseID, dbJobs (txDb st') !! k = Some j -> jbLeaseID j = Some leaseID ->
    gone_lease (fun _ lease => beq (lsInstallationLookup lease) lookup) (txDb st') leaseID = true ->
    job_live j = false.
Proof.
  unfold markDeliveryJobsSafetyForInstallationTx, unavailable.
  intros (u' & s1 & [_ ->]%ensure_ok & [= <-]%mapped_ok%exec_ok)%tx_bind_ok k j leaseID. unfold update_jobs. cbn.
  rewrite map_lookup_imap. destruct (dbJobs (txDb st) !! k) as [j0|]; [|done]. cbn. intros [= <-] Hl Hg.
  rewrite andb_true_r in *. destruct (on_installation lookup (txDb st) j0) eqn:E; [done|].
  unfold on_installation, gone_lease in *. cbn in Hg. rewrite Hl, Hg in E. by rewrite andb_true_r in E.
Qed.

Lemma moves_end_leases clock lookup :
  moves evolves (unavailable (markDeliveryJobsSafetyForInstallationTx clock lookup []) ;;
    unavailable (exec (fun db => delete_leases (fun _ lease => beq (lsInstallationLookup lease) lookup) db))).
Proof.
  intros st r st' (u & s1 & H1%mapped_ok & H2%mapped_ok%exec_ok)%tx_bind_ok.
  transitivity (txDb s1); [by apply moves_safety_installation in H1|].
  eapply delete_leases_evolves; [|exact H2]. by eapply safety_ends.
Qed.

Lemma bind_assoc_moves {A B C : Type} (m : vault_tx A) (n : vault_tx B) (k : vault_tx C) :
  moves evolves (m ;; n) -> moves evolves k -> moves evolves (m ;; n ;; k).
Proof.
  intros Hmn Hk st c st' (a & s1 & H1 & (b & s2 & H2 & H3)%tx_bind_ok)%tx_bind_ok.
  transitivity (txDb s2); [|by apply Hk in H3]. apply (Hmn st b s2). apply tx_bind_ok. eauto.
Qed.

Lemma moves_erase_tx s round lookup failedToken : moves evolves (erase_tx s round lookup failedToken).
Proof.
  unfold erase_tx. cbv zeta. apply moves_bind; [exact _|unfold unavailable; split_moves|intros _].
  apply moves_bind; [exact _|unfold unavailable; split_moves|intros [installation|]]; [|split_moves].
  destruct (_ =? 0)%nat; [split_moves|]. apply moves_bind; [exact _|split_moves|intros token].
  destruct (negb _); [split_moves|]. apply moves_bind; [exact _|unfold unavailable; split_moves|intros leases].
  apply moves_bind; [exact _|apply moves_each; [exact _|apply moves_fence_route]|intros _].
  apply moves_bind; [exact _| |intros _].
  { unfold unavailable. split_moves. apply moves_silently. intros db. apply evolves_other; by split. }
  apply bind_assoc_moves; [apply moves_end_leases|]. unfold unavailable. split_moves.
Qed.

End Moves.
