(* ===== verification/DeliveryCalls.v ===== *)
(** * What the delivery queue guarantees over time

    Every public operation of the queue as a sequence of transactions, whatever other
    transactions commit between them and whichever statements, begins and commits fail:
    jobs change only by the moves of [DeliveryInv], the control vault keeps its invariant
    and histories, and finalization reaches every marker. *)

From S2P Require Import Prelude GoBytes GoTime GoCrypto A9Trust VaultCrypto Gate8Header Interfaces Sql A9Types A9VaultDb A9Vault A9VaultSpec A9VaultInv A9Current Aggregates DeliveryJob DeliveryQueue DeliveryOps DeliveryAttempt Tombstones RouteKeys DeliveryErase Moves DeliveryInv DeliveryMoves ErasureMoves.
Local Open Scope Z_scope.
Local Open Scope go_scope.

(** ** Calls *)

Inductive queue_call :=
| CallEnqueue (leaseID : bytes) (job : SerializedDeliveryJob) (sourceEventID : bytes) (maxQueued : Z)
| CallClaim (limit claimTTL : Z)
| CallAttempt (job : ClaimedDeliveryJob) (e : ending)
| CallReschedule (jobID : bytes) (attempts availableAt : Z)
| CallRelease (jobID : bytes)
| CallFinalize (jobID : bytes) (reason : Z)
| CallRecover
| CallRecoverErasures
| CallClaimErasures (limit claimTTL : Z)
| CallConvert (jobID failedDeviceToken : bytes) (trafficClass availableAt : Z)
| CallRescheduleErasure (jobID : bytes) (availableAt : Z)
| CallDeleteErasure (jobID : bytes)
| CallErase (lookup failedDeviceToken : bytes).

Section Calls.
Context `{HP : Postgres, HG : AesGcm, HJ : JobJson, HT : A9TrustSurface}.

(** The database after the call, and whether it ended without error. *)
Definition perform (rounds : nat -> Round) (fuel : nat) (s : Store) (call : queue_call) : op () :=
  match call with
  | CallEnqueue leaseID job source maxQueued =>
      EnqueueDeliveryJob rounds fuel s leaseID job source maxQueued ;; mret tt
  | CallClaim limit claimTTL => ClaimDeliveryJobs rounds fuel s limit claimTTL ;; mret tt
  | CallAttempt job e => DeliveryAttempt rounds fuel s job e ;; mret tt
  | CallReschedule jobID attempts availableAt => RescheduleDeliveryJob rounds s jobID attempts availableAt
  | CallRelease jobID => ReleaseDeliveryJob rounds s jobID
  | CallFinalize jobID reason => FinalizeDeliveryJob rounds s jobID reason
  | CallRecover => RecoverDeliveryJobs rounds fuel s
  | CallRecoverErasures => RecoverInvalidTokenErasures rounds s
  | CallClaimErasures limit claimTTL => ClaimErasureJobs rounds s limit claimTTL ;; mret tt
  | CallConvert jobID token class availableAt =>
      ConvertInvalidTokenToErasure rounds fuel s jobID token class availableAt ;; mret tt
  | CallRescheduleErasure jobID availableAt => RescheduleInvalidTokenErasure rounds s jobID availableAt
  | CallDeleteErasure jobID => DeleteErasureJob rounds s jobID
  | CallErase lookup token => EraseInvalidAPNSToken rounds fuel s lookup token
  end.

(** ** Operations evolve the database *)

Section Rounds.
Variable rounds : nat -> Round.

(** Other transactions evolve the database too. *)
Definition others_evolve : Prop := others_move evolves rounds.

Hypothesis Hothers : others_evolve.

Lemma complete_finalization_evolves s jobID : op_moves evolves (completeDeliveryFinalization rounds s jobID).
Proof. unfold completeDeliveryFinalization. split_ops. apply moves_complete. Qed.

#[local] Hint Resolve complete_finalization_evolves : ops.

Lemma finalize_markers_evolves n s : op_moves evolves (finalize_markers rounds n s).
Proof.
  induction n as [|n IH]; cbn [finalize_markers]; split_ops; [unfold unavailable; split_moves|].
  apply each_op_moves; [exact _|]. intros. split_ops.
Qed.

#[local] Hint Resolve finalize_markers_evolves : ops.

Lemma finalize_evolves s jobID reason : op_moves evolves (FinalizeDeliveryJob rounds s jobID reason).
Proof. unfold FinalizeDeliveryJob. split_ops. apply moves_mark. Qed.

Lemma recover_evolves fuel s : op_moves evolves (RecoverDeliveryJobs rounds fuel s).
Proof. unfold RecoverDeliveryJobs, finalizeDeliveryMarkers. split_ops. apply moves_recover. Qed.

Lemma retention_evolves s : op_moves evolves (RequireRetentionSafe rounds s).
Proof. unfold RequireRetentionSafe. split_ops. apply moves_retention. Qed.

#[local] Hint Resolve finalize_evolves recover_evolves retention_evolves : ops.

Lemma observe_evolves s o jobID : op_moves evolves (RecordObservation rounds s o jobID).
Proof.
  intros i db. unfold RecordObservation, RecordDeliveryObservation.
  destruct (negb (validDeliveryObservation o)); cbn.
  - apply Hothers.
  - destruct (run_tx_with _ _ _ _) as [db' r] eqn:E. cbn. etrans; [apply (Hothers i)|].
    refine (moves_run _ _ _ _ _ _ _ _ (moves_observation _ _ _ _) E).
Qed.

Lemma enqueue_commit_evolves s trust leaseID jobID job source maxQueued now :
  op_moves evolves (enqueue_commit rounds s trust leaseID jobID job source maxQueued now).
Proof.
  intros i db. unfold enqueue_commit.
  pose proof (transact_moves evolves rounds (fun _ : option Z => true) deliveryQueueDatabaseError (fun round =>
    enqueue_tx s round trust leaseID jobID (capped_job now job) source maxQueued now) Hothers
    (fun round => moves_enqueue _ _ _ _ _ _ _ _ _) i db) as Ht. unfold transact.
  destruct (transact_when _ _ _ _ _) as [[i' db'] [[bucket|]|e]]; [|done|];
    [|destruct e; try done]; unfold op_attempt; cbn in *; (etrans; [exact Ht|]); apply observe_evolves.
Qed.

#[local] Hint Resolve enqueue_commit_evolves : ops.

Lemma enqueue_once_evolves fuel s leaseID job source maxQueued :
  op_moves evolves (enqueueDeliveryJobOnce rounds fuel s leaseID job source maxQueued).
Proof. unfold enqueueDeliveryJobOnce, host_clock. split_ops. Qed.

Lemma enqueue_evolves n fuel s leaseID job source maxQueued :
  op_moves evolves (enqueue_retries rounds fuel n s leaseID job source maxQueued).
Proof.
  induction n as [|n IH]; intros i db; cbn [enqueue_retries]; [done|].
  pose proof (enqueue_once_evolves fuel s leaseID job source maxQueued i db) as H1.
  destruct (enqueueDeliveryJobOnce _ _ _ _ _ _ _ _) as [[i' db'] [r|e]]; [done|].
  destruct (negb _); [done|]. destruct (rdCancelled _); [done|]. etrans; [exact H1|apply IH].
Qed.

Lemma attempt_evolves fuel s job e : op_moves evolves (DeliveryAttempt rounds fuel s job e).
Proof.
  unfold DeliveryAttempt, host_clock, finalizeDeliveryMarkers. split_ops. apply moves_attempt.
Qed.

#[local] Hint Resolve enqueue_evolves attempt_evolves : ops.

Lemma reschedule_evolves s jobID attempts availableAt :
  op_moves evolves (RescheduleDeliveryJob rounds s jobID attempts availableAt).
Proof.
  unfold RescheduleDeliveryJob, host_clock, unavailable. split_ops. apply moves_mapped, moves_affecting.
  intros db. apply update_job_evolves. intros j _ Hw. boolprop. by apply rtc_once, move_release.
Qed.

Lemma convert_evolves_op fuel s jobID token class availableAt :
  op_moves evolves (ConvertInvalidTokenToErasure rounds fuel s jobID token class availableAt).
Proof.
  unfold ConvertInvalidTokenToErasure, finalizeDeliveryMarkers. split_ops. boolprop. by apply moves_convert.
Qed.

Lemma perform_evolves fuel s call : op_moves evolves (perform rounds fuel s call).
Proof.
  destruct call; cbn [perform]; unfold EnqueueDeliveryJob.
  - split_ops.
  - unfold ClaimDeliveryJobs, finalizeDeliveryMarkers. split_ops. apply moves_claim.
  - split_ops.
  - apply reschedule_evolves.
  - unfold ReleaseDeliveryJob. split_ops. apply moves_release.
  - split_ops.
  - split_ops.
  - unfold RecoverInvalidTokenErasures. split_ops. apply moves_recover_erasures.
  - unfold ClaimErasureJobs. split_ops. apply moves_claim_erasures.
  - split_ops. apply convert_evolves_op.
  - unfold RescheduleInvalidTokenErasure. split_ops. apply moves_reschedule_erasure.
  - unfold DeleteErasureJob. split_ops. apply moves_delete_erasure.
  - unfold EraseInvalidAPNSToken, finalizeDeliveryMarkers. split_ops. apply moves_erase_tx.
Qed.

End Rounds.
End Calls.
