(* ===== verification/A9VaultProps.v ===== *)
(** * What the control vault guarantees

    The theorems about ApplyControl and ApplyWatermark (src/pkg/vault/a9_store.go) and about
    the deliveries that depend on them (src/pkg/vault/a9_current.go): for every sequence of
    calls, every pattern of statement and commit failures, and every interleaving with other
    transactions that respect the tables' own constraints. *)

From S2P Require Import Prelude GoBytes GoTime GoCrypto VaultCrypto Gate8Header Interfaces Sql A9Types A9VaultDb A9Vault A9VaultSpec A9VaultInv A9Current.
Local Open Scope Z_scope.
Local Open Scope go_scope.

(** ** Calls and runs *)

Inductive a9_call :=
| CallControl (event : VerifiedControl)
| CallWatermark (watermark : VerifiedWatermark).

Definition call_typed (call : a9_call) : Prop :=
  match call with CallControl event => control_typed event | CallWatermark w => watermark_typed w end.

Section Runs.
Context `{Postgres}.

Definition run_call (s : Store) (call : a9_call) (schedule : nat -> (VaultDB -> VaultDB) * Attempt)
    (db : VaultDB) : VaultDB * result error Result :=
  match call with
  | CallControl event => ApplyControl s event schedule db
  | CallWatermark w => ApplyWatermark s w schedule db
  end.

(** What other transactions may do: keep the invariant, and never rewrite a history. *)
Definition others_allowed (schedule : nat -> (VaultDB -> VaultDB) * Attempt) : Prop :=
  forall n db, vault_inv db -> vault_inv (fst (schedule n) db) /\ append_only db (fst (schedule n) db).

Inductive vault_trans (db db' : VaultDB) : Prop :=
| trans_call s call schedule r :
    call_typed call -> sound_commits schedule -> others_allowed schedule ->
    run_call s call schedule db = (db', r) -> vault_trans db db'
| trans_other : (vault_inv db -> vault_inv db') -> append_only db db' -> vault_trans db db'.

Definition binding_of (event : VerifiedControl) : bytes * bytes :=
  (vcInstallationBindingID event, vcBindingID event).

(** A schedule without other transactions and without failures. *)
Definition undisturbed (now host : Z) : nat -> (VaultDB -> VaultDB) * Attempt :=
  fun _ => (fun db => db, calm now host).

(** ** Lemmas *)

Lemma call_inv s call schedule db db' r :
  call_typed call -> sound_commits schedule -> others_keep vault_inv schedule ->
  run_call s call schedule db = (db', r) -> vault_inv db -> vault_inv db'.
Proof.
  destruct call as [event|w]; intros Ht Hs Ho Hx.
  - eapply control_keeps; try done. intros Hv att db0 a db1 Hst. by eapply control_step_inv.
  - eapply watermark_keeps; try done. intros Hv att db0 a db1 Hst. by eapply watermark_step_inv.
Qed.

Lemma others_allowed_inv schedule : others_allowed schedule -> others_keep vault_inv schedule.
Proof. intros Ho n db Hi. by apply Ho. Qed.

Lemma call_append s call schedule db db' r :
  call_typed call -> sound_commits schedule -> others_allowed schedule ->
  run_call s call schedule db = (db', r) -> vault_inv db -> append_only db db'.
Proof.
  intros Ht Hs Ho Hx Hi.
  assert (Hk : others_keep (fun db0 => vault_inv db0 /\ append_only db db0) schedule).
  { intros n db0 [Hi0 Ha0]. destruct (Ho n db0 Hi0). split; [done|]. by etrans. }
  assert (Hp : vault_inv db' /\ append_only db db'); [|apply Hp].
  destruct call as [event|w].
  - eapply (control_keeps (fun db0 => vault_inv db0 /\ append_only db db0)); try done.
    intros Hv att db0 a db1 Hst [Hi0 Ha0]. split; [by eapply control_step_inv|].
    etrans; [done|]. by eapply control_step_append.
  - eapply (watermark_keeps (fun db0 => vault_inv db0 /\ append_only db db0)); try done.
    intros Hv att db0 a db1 Hst [Hi0 Ha0]. split; [by eapply watermark_step_inv|].
    etrans; [done|]. by eapply watermark_step_append.
Qed.

Lemma run_inv_append db db' :
  rtc vault_trans db db' -> vault_inv db -> vault_inv db' /\ append_only db db'.
Proof.
  induction 1 as [db|db db1 db' Hst _ IH]; intros Hi; [done|].
  assert (Hi1 : vault_inv db1 /\ append_only db db1).
  { destruct Hst as [s call schedule r Ht Hs Ho Hx|Hinv Ha]; [|auto].
    split; [|by eapply call_append]. eapply call_inv; try done. by apply others_allowed_inv. }
  destruct Hi1 as [Hi1 Ha1]. destruct (IH Hi1). split; [done|]. by etrans.
Qed.

(** What an applied revocation has written when its transaction commits. *)
Definition revoked_now (event : VerifiedControl) (db : VaultDB) : Prop :=
  is_Some (dbTombstones db !! (vcInstallationBindingID event, vcBindingID event, vcBindingVersion event)) /\
  (forall lease route, dbRoutes db !! lease = Some route ->
     names (vcInstallationBindingID event) (Some (vcBindingID event)) (roColumns route) = false) /\
  (forall k j c, dbJobs db !! k = Some j -> jbA9 j = Some c ->
     names (vcInstallationBindingID event) (Some (vcBindingID event)) c = false).

Lemma revoke_db_revoked event c now db :
  (forall k j, dbJobs db !! k = Some j -> is_Some (jbA9 j) -> job_live j = true) ->
  revoked_now event (revoke_db event c now db).
Proof.
  intros Hl. split; [|split].
  - unfold revoke_db, put_tombstone.
    cbn [dbTombstones put_binding drop_routes cancel_jobs with_Bindings with_Routes with_Jobs with_Tombstones].
    rewrite lookup_insert_eq. by eexists.
  - intros lease route [_ Hn]%map_lookup_filter_Some. exact Hn.
  - intros k j c0 Hj Ha. exact (cancel_clears _ _ now db k j c0 Hl Hj Ha).
Qed.

Lemma epoch_step_revoked s event now au db r db' :
  (forall k j, dbJobs db !! k = Some j -> is_Some (jbA9 j) -> job_live j = true) ->
  epoch_step s event now au db r db' -> vcAction event = ControlActionRevoke ->
  reOutcome r = ResultOutcomeApplied -> revoked_now event db'.
Proof.
  intros Hl [uuid reason outcome Hf Hr|uuid Hf Hx Hd|uuid db1 Hf Hx Hrev Hgap Hhigh Hcan
    |uuid a db1 Hf Hi Hup Has Hck Hna Hrs|uuid db1 Hf Hi Hup Hcan] Hrevoke.
  - destruct Hr; discriminate.
  - discriminate.
  - intros _. exact (revoke_db_revoked event false now db1 Hl).
  - by rewrite Hup in Hrevoke.
  - intros _. exact (revoke_db_revoked event true now db1 Hl).
Qed.

Lemma control_step_revoked s event att db r db' :
  control_typed event -> validA9Control s event = true -> vault_inv db ->
  control_step s event att db r db' -> vcAction event = ControlActionRevoke ->
  reOutcome r = ResultOutcomeApplied -> revoked_now event db'.
Proof.
  intros Ht Hv Hi (db1 & db2 & au & (c & ->)%guarded_bound & Hc & Hstep) Hr Hout.
  destruct (control_created_inv _ _ _ _ _ Hc (bound_inv _ _ Hi)) as [(Hs2 & Hb2 & Hr2) Ha].
  pose proof (proj2 (proj2 (proj2 (proj2 Hb2)))) as Hl.
  destruct Hstep as [uuid row|uuid row|uuid|uuid|r db' He H1 H0 Ho Hcan Hstep|r db' He Hstep];
    try discriminate Hout.
  - eapply epoch_step_revoked; [|exact Hstep|done|done]. exact (jobs_live_cancel _ _ _ db2 Hl).
  - by eapply epoch_step_revoked.
Qed.

(** Consequences of the invariant for a version that has a tombstone. *)
Lemma tombstone_denies db inst binding v :
  vault_inv db -> is_Some (dbTombstones db !! (inst, binding, v)) ->
  (forall row, dbBindings db !! (inst, binding) = Some row -> bdState row = a9BindingActive -> v < bdVersion row) /\
  (forall lease route, dbRoutes db !! lease = Some route ->
     names inst (Some binding) (roColumns route) = true -> v < roVersion (roColumns route)).
Proof.
  intros (_ & (Hd & Hina & Hrs & _) & _) Ht. split; [intros row Hb Hs; by eapply Hd|].
  intros lease route Hr Hn. unfold names in Hn. apply andb_true_iff in Hn as [Hn1%beq_true Hn2%beq_true].
  unfold routes_supported in Hrs. rewrite all_rows_true in Hrs. specialize (Hrs _ _ Hr).
  unfold route_supported in Hrs. rewrite Hn1, Hn2 in Hrs.
  destruct (dbBindings db !! (inst, binding)) as [row|] eqn:Eb; [|done]. boolprop.
  destruct (decide (bdState row = a9BindingActive)) as [Hs|Hs].
  - pose proof (Hd _ _ _ _ Eb Hs Ht). lia.
  - pose proof (Hina _ _ Eb Hs). congruence.
Qed.

Lemma moved_ok step schedule db db' a :
  moved step schedule db db' (Ok a) ->
  exists n att, step att (interference schedule n 0 db) a db'.
Proof. intros (n & _ & [[_ [=]]|(a' & att & Hst & [[= ->]|[=]])]). eauto. Qed.

Lemma interference_inv schedule n i db :
  others_keep vault_inv schedule -> vault_inv db -> vault_inv (interference schedule n i db).
Proof. intros Ho. revert i db. induction n as [|n IH]; intros i db Hi; simpl; [done|]. apply IH. by apply Ho. Qed.

(** An applied revocation has written its tombstone when it answers. *)
Lemma revocation_written s event schedule db db' r :
  control_typed event -> sound_commits schedule -> others_allowed schedule -> vault_inv db ->
  ApplyControl s event schedule db = (db', Ok r) ->
  vcAction event = ControlActionRevoke -> reOutcome r = ResultOutcomeApplied ->
  vault_inv db' /\ revoked_now event db'.
Proof.
  intros Ht Hs Ho Hi Hx Hact Hout.
  pose proof (call_inv s (CallControl event) _ _ _ _ Ht Hs (others_allowed_inv _ Ho) Hx Hi) as Hi'.
  apply committed_control in Hx as [(_ & _ & [=])|[Hv (n & att & Hst)%moved_ok]]; [|apply Ht|done].
  split; [done|]. exact (control_step_revoked s event att _ r db' Ht Hv
      (interference_inv _ _ _ _ (others_allowed_inv _ Ho) Hi) Hst Hact Hout).
Qed.

(** ** Properties *)

(** C11: [vault_inv] is an invariant of the vault: whatever a call is given, whichever of its
    statements or commits fail, however often it retries and whatever invariant-preserving
    transactions run in between, it leads from a database with the invariant to one with
    it. In particular the contiguous control events of the current epoch are always
    exactly the sequences 1 to the stored contiguous sequence, active bindings are newer
    than all their tombstones, and no route or live job outlives its binding. *)
Theorem vault_invariant (s : Store) (call : a9_call) (schedule : nat -> (VaultDB -> VaultDB) * Attempt)
    (db db' : VaultDB) (r : result error Result) :
  call_typed call -> sound_commits schedule -> others_keep vault_inv schedule ->
  run_call s call schedule db = (db', r) -> vault_inv db -> vault_inv db'.
Proof. apply call_inv. Qed.

(** C2: a revocation is final. When [ApplyControl] answers APPLIED to a REVOKE of a binding
    version, no route and no delivery job of the binding is left; and in every database the
    vault reaches from there, no version up to the revoked one is active, no route has such
    a version, and no route snapshot of such a version is current, so nothing is delivered
    under it again. *)
Theorem revocation_is_final (s : Store) (event : VerifiedControl)
    (schedule : nat -> (VaultDB -> VaultDB) * Attempt) (db db' later : VaultDB) (r : Result) :
  control_typed event -> sound_commits schedule -> others_allowed schedule -> vault_inv db ->
  ApplyControl s event schedule db = (db', Ok r) ->
  vcAction event = ControlActionRevoke -> reOutcome r = ResultOutcomeApplied ->
  rtc vault_trans db' later ->
  revoked_now event db' /\
  (forall row, dbBindings later !! binding_of event = Some row -> bdState row = a9BindingActive ->
     vcBindingVersion event < bdVersion row) /\
  (forall lease route, dbRoutes later !! lease = Some route ->
     names (vcInstallationBindingID event) (Some (vcBindingID event)) (roColumns route) = true ->
     vcBindingVersion event < roVersion (roColumns route)) /\
  (forall s2 att lease snapshot st st' state, txDb st = later ->
     a9InstallationBindingID snapshot = vcInstallationBindingID event ->
     a9BindingID snapshot = vcBindingID event -> a9BindingVersion snapshot <= vcBindingVersion event ->
     requireA9CurrentRouteTx s2 att lease (Some snapshot) st <> Ok (Some state, st')).
Proof.
  intros Ht Hs Ho Hi Hx Hact Hout Hrun.
  destruct (revocation_written _ _ _ _ _ _ Ht Hs Ho Hi Hx Hact Hout) as [Hi' Hrev].
  destruct (run_inv_append _ _ Hrun Hi') as [Hil (_ & _ & Htomb & _)].
  assert (Hts : is_Some (dbTombstones later !! (vcInstallationBindingID event, vcBindingID event,
      vcBindingVersion event))).
  { destruct Hrev as [[row Hr] _]. exists row. by eapply lookup_weaken. }
  destruct (tombstone_denies _ _ _ _ Hil Hts) as [Hb Hr]. split; [done|]. split; [done|]. split; [done|].
  intros s2 att' lease snapshot st st' state <- Hinst Hbind Hver Hcur.
  apply require_current_ok in Hcur as [_ Hcur]. pose proof (current_denials _ _ _ _ _ Hcur) as Hden.
  rewrite Hinst, Hbind in Hden. specialize (Hden _ Hts). lia.
Qed.

(** C12: uncertainty is a latch for the control plane: once the authority of an installation
    is uncertain, no control event and no watermark makes it certain again, and while it is
    uncertain none of its routes is current. *)
Theorem uncertainty_is_latched (s : Store) (call : a9_call)
    (schedule : nat -> (VaultDB -> VaultDB) * Attempt) (db db' : VaultDB) (r : result error Result)
    (inst : bytes) :
  call_typed call -> sound_commits schedule -> others_keep (uncertain inst) schedule ->
  run_call s call schedule db = (db', r) -> uncertain inst db ->
  uncertain inst db' /\
  forall s2 att lease snapshot st st' state, txDb st = db' -> a9InstallationBindingID snapshot = inst ->
    requireA9CurrentRouteTx s2 att lease (Some snapshot) st <> Ok (Some state, st').
Proof.
  intros Ht Hs Ho Hx Hu. assert (Hu' : uncertain inst db').
  { destruct call as [event|w].
    - eapply (control_keeps (uncertain inst)); try done. intros _ att db0 a db1. apply control_step_uncertain.
    - eapply (watermark_keeps (uncertain inst)); try done. intros _ att db0 a db1. apply watermark_step_uncertain. }
  split; [done|]. intros s2 att lease snapshot st st' state <- <- Hcur.
  apply require_current_ok in Hcur as [_ Hcur]. destruct Hu' as (au & Ha & Hst).
  destruct (current_authority _ _ _ _ _ Hcur) as (row & c & Hr & Hadm & _). simplify_eq.
  destruct (admits_active _ _ _ _ Hadm) as [He _]. rewrite He in Hst. discriminate.
Qed.

(** C13: a call commits at most one transaction and answers with that transaction's result.
    A call of an invalid event changes nothing; otherwise other transactions run, and then
    the database either stays as they left it (the answer is the fixed error), or one step
    of the abstract machine was committed, whose result is the answer unless it was lost. *)
Theorem control_refines_machine (s : Store) (event : VerifiedControl)
    (schedule : nat -> (VaultDB -> VaultDB) * Attempt) (db db' : VaultDB) (r : result error Result) :
  control_typed event -> sound_commits schedule -> ApplyControl s event schedule db = (db', r) ->
  (validA9Control s event = false /\ db' = db /\ r = Err ErrStoreUnavailable) \/
  (validA9Control s event = true /\ moved (control_step s event) schedule db db' r).
Proof. intros Ht Hs. by apply committed_control; [apply Ht|]. Qed.
(** ** More lemmas: receipts, epochs, results *)

Definition as_replay (r : Result) : Result := {|
  reEnvironment := reEnvironment r; reInstallationBindingID := reInstallationBindingID r;
  reSequencerEpoch := reSequencerEpoch r; reSubscriptionGeneration := reSubscriptionGeneration r;
  reState := reState r; reOutcome := ResultOutcomeReplay;
  reAcceptedStreamSequence := reAcceptedStreamSequence r |}.

(** The receipt an answer leaves behind. *)
Definition recorded (s : Store) (event : VerifiedControl) (r : Result) (db : VaultDB) : Prop :=
  exists uuid row, pg_uuid (vcIdempotencyKey event) = Some uuid /\ dbReceipts db !! uuid = Some row /\
    receipt_matches event row /\ as_replay r = replay_result s event row.

Lemma record_recorded s event uuid au outcome state sequence db :
  receipt_free event db uuid ->
  recorded s event (answer s event au state outcome sequence)
    (record event uuid au outcome state sequence db).
Proof.
  intros [Hu _]. exists uuid, (receipt_row event outcome state (auGeneration au) sequence).
  split; [done|]. split; [|done]. unfold record, put_receipt. cbn [dbReceipts with_Receipts].
  by rewrite lookup_insert_eq.
Qed.

Lemma epoch_step_recorded s event now au db r db' :
  epoch_step s event now au db r db' -> recorded s event r db'.
Proof.
  intros [uuid reason outcome Hf Hr|uuid Hf Hx Hd|uuid db1 Hf Hx Hrev Hgap Hhigh Hcan
    |uuid a db1 Hf Hi Hup Has Hck Hna Hrs|uuid db1 Hf Hi Hup Hcan].
  - exact (record_recorded s event uuid au _ _ _ (latch_db _ _ _ _) Hf).
  - exact (record_recorded s event uuid au _ _ _ _ Hf).
  - exact (record_recorded s event uuid au _ _ _ (latch_db _ _ _ _) Hf).
  - exact (record_recorded s event uuid au _ _ _ _ Hf).
  - exact (record_recorded s event uuid au _ _ _ _ Hf).
Qed.

Lemma control_step_recorded s event att db r db' :
  control_step s event att db r db' -> reOutcome r <> ResultOutcomeConflict -> recorded s event r db'.
Proof.
  intros (db1 & db2 & au & _ & _ & Hstep) Hout.
  destruct Hstep as [uuid row Hu Hr Hm|uuid row|uuid Hf|uuid Hf|r db' He H1 H0 Ho Hcan Hstep|r db' He Hstep].
  - by exists uuid, row.
  - by destruct Hout.
  - exact (record_recorded s event uuid au _ _ _ (latch_db _ _ _ _) Hf).
  - by destruct Hout.
  - by eapply epoch_step_recorded.
  - by eapply epoch_step_recorded.
Qed.

Lemma recorded_append s event r db db' : recorded s event r db -> append_only db db' -> recorded s event r db'.
Proof.
  intros (uuid & row & Hu & Hr & Hm) (_ & _ & _ & Hs & _). exists uuid, row. split; [done|].
  split; [by eapply lookup_weaken|done].
Qed.

Lemma control_step_replays s event att db r r' db' :
  recorded s event r db -> is_Some (dbAuthority db !! vcInstallationBindingID event) ->
  is_Some (dbKeyBinding db) -> control_step s event att db r' db' -> r' = as_replay r /\ db' = db.
Proof.
  intros (uuid & row & Hu & Hr & Hm & ->) [au0 Ha] [c Hc] (db1 & db2 & au & Hg & Hcr & Hstep).
  apply guarded_bound in Hg as [c' ->].
  assert (Hb : bound c' db = db) by (unfold bound; by rewrite Hc). rewrite Hb in Hcr.
  assert (db2 = db) as ->.
  { unfold control_created, created in Hcr. destruct (_ =? 1); naive_solver. }
  assert (Hfree : forall uuid', receipt_free event db uuid' -> False).
  { intros uuid' [Hu' Hn]. rewrite Hu in Hu'. injection Hu' as <-. congruence. }
  destruct Hstep as [uuid' row' Hu' Hr'|uuid' row' Hu' Hr' Hm'|uuid' Hf|uuid' Hf|r1 db' He H1 H0 Ho Hcan Hstep
    |r1 db' He Hstep].
  - rewrite Hu in Hu'. injection Hu' as <-. rewrite Hr in Hr'. by injection Hr' as <-.
  - rewrite Hu in Hu'. injection Hu' as <-. rewrite Hr in Hr'. by injection Hr' as <-.
  - by destruct (Hfree _ Hf).
  - by destruct (Hfree _ Hf).
  - exfalso. destruct Hstep; eapply Hfree; eassumption.
  - exfalso. destruct Hstep; eapply Hfree; eassumption.
Qed.

(** No other transaction runs during the call. *)
Definition alone (schedule : nat -> (VaultDB -> VaultDB) * Attempt) : Prop :=
  forall n db, fst (schedule n) db = db.

Lemma alone_interference schedule n i db : alone schedule -> interference schedule n i db = db.
Proof. intros Ha. revert i. induction n as [|n IH]; intros i; simpl; [done|]. by rewrite Ha, IH. Qed.

Lemma control_step_bound s event att db r db' : control_step s event att db r db' -> is_Some (dbKeyBinding db').
Proof.
  intros (db1 & db2 & au & (k & rr & c & _ & _ & _ & _ & Hb & _) & Hc & Hstep).
  assert (H2 : dbKeyBinding db2 = Some c).
  { unfold control_created, created in Hc. by destruct (_ =? 1); destruct Hc as [[_ ->]|(_ & _ & ->)]. }
  clear Hb Hc. exists c.
  destruct Hstep as [| | | |? ? ? ? ? ? ? Hstep|? ? ? Hstep]; try done; by destruct Hstep.
Qed.

(** C32: applying a recorded control event again is idempotent. When a call answered with
    anything but a conflict, then whatever happened in between, any later call with the
    same event by the same store changes nothing and, if it answers at all, repeats the
    first answer's state, generation and sequence with outcome REPLAY. *)
Theorem control_replay_is_idempotent (s : Store) (event : VerifiedControl)
    (schedule schedule' : nat -> (VaultDB -> VaultDB) * Attempt) (db db' later later' : VaultDB)
    (r : Result) (r' : result error Result) :
  control_typed event -> sound_commits schedule -> others_allowed schedule -> vault_inv db ->
  ApplyControl s event schedule db = (db', Ok r) -> reOutcome r <> ResultOutcomeConflict ->
  rtc vault_trans db' later -> is_Some (dbAuthority later !! vcInstallationBindingID event) ->
  sound_commits schedule' -> alone schedule' ->
  ApplyControl s event schedule' later = (later', r') ->
  later' = later /\ (r' = Err ErrStoreUnavailable \/ r' = Ok (as_replay r)).
Proof.
  intros Ht Hs Ho Hi Hx Hout Hrun Ha Hs' Hal Hx'.
  pose proof (call_inv s (CallControl event) _ _ _ _ Ht Hs (others_allowed_inv _ Ho) Hx Hi) as Hi'.
  destruct (run_inv_append _ _ Hrun Hi') as [_ Happ].
  apply committed_control in Hx as [(_ & _ & [=])|[Hv (n & att & Hst)%moved_ok]]; [|apply Ht|done].
  pose proof (recorded_append _ _ _ _ _ (control_step_recorded _ _ _ _ _ _ Hst Hout) Happ) as Hrec.
  apply control_step_bound in Hst as [c Hc]. destruct Happ as (_ & _ & _ & _ & _ & Hkey).
  apply committed_control in Hx' as [(Hv' & -> & ->)|[_ (m & _ & Hm)]]; [auto| |apply Ht|done].
  rewrite (alone_interference _ _ _ _ Hal) in Hm.
  destruct Hm as [[-> ->]|(a & att' & Hst' & Hr)]; [auto|].
  destruct (control_step_replays _ _ _ _ _ _ _ Hrec Ha (ex_intro _ c (Hkey c Hc)) Hst') as [-> ->].
  split; [done|]. tauto.
Qed.

(** Within an epoch the authority rows keep their epoch, and routes are only removed. *)
Lemma epoch_step_frame s event now au db r db' :
  epoch_step s event now au db r db' ->
  (forall inst au0, dbAuthority db !! inst = Some au0 ->
     exists au', dbAuthority db' !! inst = Some au' /\ auEpoch au' = auEpoch au0 /\
       (auState au0 = a9AuthorityUncertain -> auState au' = a9AuthorityUncertain)) /\
  dbRoutes db' ⊆ dbRoutes db.
Proof.
  assert (Halter : forall f i (m : gmap bytes AuthorityRow) inst au0,
    (forall a, auEpoch (f a) = auEpoch a /\
       (auState a = a9AuthorityUncertain -> auState (f a) = a9AuthorityUncertain)) ->
    m !! inst = Some au0 -> exists au', alter f i m !! inst = Some au' /\ auEpoch au' = auEpoch au0 /\
       (auState au0 = a9AuthorityUncertain -> auState au' = a9AuthorityUncertain)).
  { intros f i m inst au0 Hf Hm. destruct (decide (inst = i)) as [->|].
    - rewrite lookup_alter_eq, Hm. eexists. split; [done|]. apply Hf.
    - rewrite lookup_alter_ne by done. eauto. }
  assert (Hl : forall reason n a, auEpoch (latched reason n a) = auEpoch a /\
    (auState a = a9AuthorityUncertain -> auState (latched reason n a) = a9AuthorityUncertain)) by done.
  assert (Hs : forall q n a, auEpoch (set_contiguous q n a) = auEpoch a /\
    (auState a = a9AuthorityUncertain -> auState (set_contiguous q n a) = a9AuthorityUncertain)) by done.
  intros [uuid reason outcome Hf Hr|uuid Hf Hx Hd|uuid db1 Hf Hx Hrev Hgap Hhigh Hcan
    |uuid a db1 Hf Hi Hup Has Hck Hna Hrs|uuid db1 Hf Hi Hup Hcan].
  - split; [|done]. intros inst au0 Ha. exact (Halter _ _ _ _ _ (Hl reason now) Ha).
  - split; [|done]. intros inst au0 Ha. by exists au0.
  - split; [|exact (map_filter_subseteq _ _)].
    intros inst au0 Ha. exact (Halter _ _ _ _ _ (Hl a9UncertaintyControlGap now) Ha).
  - split; [|done]. intros inst au0 Ha. exact (Halter _ _ _ _ _ (Hs (vcStreamSequence event) now) Ha).
  - split; [|exact (map_filter_subseteq _ _)].
    intros inst au0 Ha. exact (Halter _ _ _ _ _ (Hs (vcStreamSequence event) now) Ha).
Qed.

Lemma created_authority now i epoch state reason db au db' inst au0 :
  created now i epoch state reason db au db' -> dbAuthority db !! inst = Some au0 ->
  dbAuthority db' !! inst = Some au0.
Proof.
  intros [[_ ->]|(Hn & _ & ->)] Ha; [done|]. unfold put_authority. cbn [dbAuthority with_Authority].
  by rewrite lookup_insert_ne by congruence.
Qed.

Lemma recorded_observed s event r db :
  recorded s event r db ->
  epoch_observed db (vcInstallationBindingID event) (vcSequencerEpoch event) = true.
Proof.
  intros (uuid & row & _ & Hr & (_ & Hi & He & _) & _). apply not_false_iff_true.
  intros (_ & _ & Hn)%epoch_observed_false. by apply (Hn _ _ Hr).
Qed.

(** What the step from one epoch to another has done. *)
Definition entered (event : VerifiedControl) (db db' : VaultDB) (inst : bytes) (au' : AuthorityRow) : Prop :=
  inst = vcInstallationBindingID event /\ auEpoch au' = vcSequencerEpoch event /\
  vcStreamSequence event = 1 /\ epoch_observed db inst (auEpoch au') = false /\
  epoch_observed db' inst (auEpoch au') = true /\ auState au' = a9AuthorityUncertain /\
  (forall lease route, dbRoutes db' !! lease = Some route -> roInstallation (roColumns route) <> inst).

Lemma entered_epoch s event now au db r db' inst au0 au' :
  control_step_at s event now au db r db' ->
  dbAuthority db !! vcInstallationBindingID event = Some au ->
  dbAuthority db !! inst = Some au0 -> dbAuthority db' !! inst = Some au' -> auEpoch au' <> auEpoch au0 ->
  entered event db db' inst au'.
Proof.
  intros Hstep Hau Ha0 Ha' Hne.
  assert (Hl : forall i reason n, alter (latched reason n) i (dbAuthority db) !! inst = Some au' -> False).
  { intros i reason n. destruct (decide (inst = i)) as [->|].
    - rewrite lookup_alter_eq, Ha0. intros [= <-]. done.
    - rewrite lookup_alter_ne by done. congruence. }
  destruct Hstep as [uuid row|uuid row|uuid Hf|uuid Hf|r1 db' He H1 H0 Ho Hcan Hstep|r1 db' He Hstep].
  - congruence.
  - by destruct (Hl _ _ _ Ha').
  - by destruct (Hl _ _ _ Ha').
  - by destruct (Hl _ _ _ Ha').
  - destruct (epoch_step_frame _ _ _ _ _ _ _ Hstep) as [Hframe Hroutes].
    set (inst0 := vcInstallationBindingID event) in *.
    assert (Hin : inst = inst0).
    { destruct (decide (inst = inst0)) as [|Hn]; [done|]. destruct Hne.
      destruct (Hframe inst au0) as (au1 & Ha1 & He1 & _); [|congruence].
      change (alter (reset_row (vcSequencerEpoch event) now) inst0 (dbAuthority db) !! inst = Some au0).
      by rewrite lookup_alter_ne. }
    subst inst. destruct (Hframe inst0 (reset_row (vcSequencerEpoch event) now au)) as (au1 & Ha1 & He1 & Hs1).
    { change (alter (reset_row (vcSequencerEpoch event) now) inst0 (dbAuthority db) !! inst0 =
        Some (reset_row (vcSequencerEpoch event) now au)). by rewrite lookup_alter_eq, Hau. }
    rewrite Ha' in Ha1. injection Ha1 as <-. change (auEpoch au' = vcSequencerEpoch event) in He1.
    unfold entered. rewrite He1. split; [done|]. split; [done|]. split; [done|]. split; [exact Ho|].
    split; [by eapply recorded_observed, epoch_step_recorded|]. split; [by apply Hs1|].
    intros lease route Hr Hi. eapply lookup_weaken in Hr; [|exact Hroutes].
    apply map_lookup_filter_Some in Hr as [_ Hn]. unfold names in Hn. cbn [snd] in Hn.
    by rewrite Hi, beq_refl in Hn.
  - destruct (epoch_step_frame _ _ _ _ _ _ _ Hstep) as [Hframe _].
    destruct (Hframe _ _ Ha0) as (au1 & Ha1 & He1 & _). congruence.
Qed.

(** C25: an epoch is entered at most once. When a call leaves an installation's authority in
    another epoch, that epoch is the event's, the event is the first of its stream, nothing
    of that epoch had been observed before, the authority is uncertain and the installation
    has no route left; and the epoch is observed from then on. *)
Theorem epoch_is_never_reused (s : Store) (event : VerifiedControl)
    (schedule : nat -> (VaultDB -> VaultDB) * Attempt) (db db' : VaultDB) (r : result error Result)
    (inst : bytes) (au au' : AuthorityRow) :
  control_typed event -> sound_commits schedule -> alone schedule ->
  ApplyControl s event schedule db = (db', r) ->
  dbAuthority db !! inst = Some au -> dbAuthority db' !! inst = Some au' -> auEpoch au' <> auEpoch au ->
  entered event db db' inst au'.
Proof.
  intros Ht Hs Hal Hx Ha Ha' Hne.
  apply committed_control in Hx as [(_ & -> & _)|[_ (m & _ & Hm)]]; [congruence| |apply Ht|done].
  rewrite (alone_interference _ _ _ _ Hal) in Hm.
  destruct Hm as [[-> _]|(a & att & (db1 & db2 & au2 & Hg & Hc & Hst) & _)]; [congruence|].
  apply guarded_bound in Hg as [c ->].
  assert (Hb : dbAuthority (bound c db) = dbAuthority db) by (unfold bound; by destruct (dbKeyBinding db)).
  assert (Hau2 : dbAuthority db2 !! vcInstallationBindingID event = Some au2 /\
    dbAuthority db2 !! inst = Some au /\
    forall e, epoch_observed db2 inst e = epoch_observed db inst e).
  { assert (Ho : forall e, epoch_observed db2 inst e = epoch_observed db inst e).
    { intros e. unfold control_created, created, bound in Hc. unfold epoch_observed.
      by destruct (_ =? 1); destruct Hc as [[_ ->]|(_ & _ & ->)]; destruct (dbKeyBinding db). }
    rewrite <- Hb in Ha. unfold control_created in Hc.
    destruct (_ =? 1); (split; [|split; [by eapply created_authority|done]]);
      destruct Hc as [[E ->]|(_ & _ & ->)]; [done| |done|];
      unfold put_authority; cbn [dbAuthority with_Authority]; by rewrite lookup_insert_eq. }
  destruct Hau2 as (Hau2 & Ha2 & Ho).
  destruct (entered_epoch _ _ _ _ _ _ _ _ _ _ Hst Hau2 Ha2 Ha' Hne) as (E1 & E2 & E3 & E4 & E5).
  rewrite Ho in E4. done.
Qed.

Lemma a9Result_valid s inst epoch g state outcome n :
  one_of (stEnvironment s) [str "dev"; str "production"] = true -> in_range g -> in_range n ->
  1 <= state <= 3 -> 1 <= outcome <= 6 -> (4 <= outcome -> state = a9ResultUncertain) ->
  result_valid (a9Result s inst epoch g state outcome n) = true.
Proof.
  unfold in_range. intros He Hg Hn Hs Ho Hu. unfold result_valid.
  cbn [reEnvironment reSubscriptionGeneration reAcceptedStreamSequence a9Result]. rewrite He.
  rewrite (proj2 (Z.ltb_ge _ _)) by lia. rewrite (proj2 (Z.ltb_ge _ _)) by lia. cbn [negb orb].
  assert (outcome = 1 \/ outcome = 2 \/ outcome = 3 \/ 4 <= outcome) as [->|[->|[->|H4]]] by lia.
  1-3: assert (state = 1 \/ state = 2 \/ state = 3) as [->|[->| ->]] by lia; reflexivity.
  rewrite (Hu H4). assert (outcome = 4 \/ outcome = 5 \/ outcome = 6) as [->|[->| ->]] by lia; reflexivity.
Qed.

Lemma one_of_true v l : one_of v l = true <-> In v l.
Proof.
  unfold one_of. rewrite existsb_exists. split; [by intros (x & Hx & ->%beq_true)|].
  intros Hv. exists v. split; [done|apply beq_refl].
Qed.

Lemma valid_http (r : Result) :
  result_valid r = true -> exists code, HTTPStatus r = Ok code /\
    (code = 200 <-> reOutcome r = ResultOutcomeApplied \/ reOutcome r = ResultOutcomeReplay) /\
    (code = 503 <-> reOutcome r = ResultOutcomeInconclusive) /\ (code = 200 \/ code = 409 \/ code = 503).
Proof.
  intros Hv. unfold HTTPStatus. rewrite Hv. cbn [negb].
  assert (Hin : In (reOutcome r) [ResultOutcomeApplied; ResultOutcomeReplay; ResultOutcomeStale;
    ResultOutcomeGap; ResultOutcomeConflict; ResultOutcomeInconclusive]).
  { unfold result_valid in Hv. destruct (negb _); [done|]. destruct (_ || _); [done|].
    destruct (negb _); [done|]. destruct (one_of (reOutcome r) _) eqn:E1.
    { apply one_of_true in E1. simpl in *. tauto. }
    destruct (one_of (reOutcome r) [ResultOutcomeGap; _; _]) eqn:E2; [|done].
    apply one_of_true in E2. simpl in *. tauto. }
  simpl in Hin. destruct Hin as [<-|[<-|[<-|[<-|[<-|[<-|[]]]]]]]; eexists; (split; [reflexivity|]);
    (split; [split; [intros; try lia; auto|intros [?|?]; try discriminate; reflexivity]|]);
    (split; [split; [intros; try lia; auto|intros ?; try discriminate; reflexivity]|auto]).
Qed.

Lemma epoch_step_valid s event now au db r db' :
  control_typed event -> validA9Control s event = true ->
  one_of (stEnvironment s) [str "dev"; str "production"] = true ->
  carries event db au -> vault_inv db -> epoch_step s event now au db r db' -> result_valid r = true.
Proof.
  intros Ht Hv He Hc Hi Hstep. destruct (carries_row _ _ _ Hc Hi) as (Hcont & Hgen & _).
  destruct (valid_control _ _ Ht Hv) as (_ & Hseq & _).
  assert (Hq : in_range (vcStreamSequence event)) by (unfold in_range; lia).
  destruct Hstep as [uuid reason outcome Hf Hr|uuid|uuid|uuid|uuid]; apply a9Result_valid; try done;
    try apply applied_state_range.
  by destruct Hr.
Qed.

Lemma control_step_valid s event att db r db' :
  control_typed event -> validA9Control s event = true ->
  one_of (stEnvironment s) [str "dev"; str "production"] = true ->
  control_step s event att db r db' -> vault_inv db -> result_valid r = true.
Proof.
  intros Ht Hv He (db1 & db2 & au & (c & ->)%guarded_bound & Hc & Hstep) Hi.
  destruct (control_created_inv _ _ _ _ _ Hc (bound_inv _ _ Hi)) as [Hi2 Ha].
  pose proof (carries_self _ _ _ Ha) as Hca. destruct (carries_row _ _ _ Hca Hi2) as (Hcont & Hgen & _).
  destruct Hstep as [uuid row Hu Hr|uuid row|uuid Hf|uuid Hf|r1 db' Hep H1 H0 Ho Hcan Hstep|r1 db' Hep Hstep].
  - destruct Hi2 as (_ & _ & Hrec). destruct (Hrec _ _ Hr) as (Hst & Hg & Hq). by apply a9Result_valid.
  - by apply a9Result_valid.
  - by apply a9Result_valid.
  - by apply a9Result_valid.
  - destruct (reset_inv _ _ _ _ Ho Hcan Ha Hi2) as [Hi3 Hc3].
    by eapply (epoch_step_valid s event _ _ _ _ _ Ht Hv He Hc3 Hi3).
  - by eapply (epoch_step_valid s event _ _ _ _ _ Ht Hv He Hca Hi2).
Qed.

Lemma watermark_step_valid s w att db r db' :
  one_of (stEnvironment s) [str "dev"; str "production"] = true ->
  watermark_step s w att db r db' -> vault_inv db -> result_valid r = true.
Proof.
  intros He (db1 & db2 & au & (c & ->)%guarded_bound & Hc & Hstep) Hi.
  assert (Hgap : a9UncertaintyWatermarkGap <> 0) by done.
  destruct (created_inv _ _ _ _ _ _ _ _ (or_intror (conj eq_refl Hgap)) Hc (bound_inv _ _ Hi)) as [Hi2 Ha].
  destruct Hi2 as ((Hrow & _) & _). destruct (Hrow _ _ Ha) as (Hcont & Hgen & _).
  destruct Hstep as [k row|reason outcome Hr| |Hn].
  - case_match; by apply a9Result_valid.
  - apply a9Result_valid; try done. by destruct Hr.
  - by apply a9Result_valid.
  - destruct (keeps_uncertain w au); by apply a9Result_valid.
Qed.

(** every answer of the vault is a valid API result and has the HTTP status of its
    outcome: 200 for an applied or replayed call, 503 for an inconclusive one, 409 for the
    other refusals. *)
Theorem answers_are_valid (s : Store) (call : a9_call) (schedule : nat -> (VaultDB -> VaultDB) * Attempt)
    (db db' : VaultDB) (r : Result) :
  one_of (stEnvironment s) [str "dev"; str "production"] = true ->
  call_typed call -> sound_commits schedule -> others_keep vault_inv schedule -> vault_inv db ->
  run_call s call schedule db = (db', Ok r) ->
  result_valid r = true /\ exists code, HTTPStatus r = Ok code /\
    (code = 200 <-> reOutcome r = ResultOutcomeApplied \/ reOutcome r = ResultOutcomeReplay) /\
    (code = 503 <-> reOutcome r = ResultOutcomeInconclusive) /\ (code = 200 \/ code = 409 \/ code = 503).
Proof.
  intros He Ht Hs Ho Hi Hx. assert (Hv : result_valid r = true); [|split; [done|by apply valid_http]].
  destruct call as [event|w].
  - apply committed_control in Hx as [(_ & _ & [=])|[Hv (n & att & Hst)%moved_ok]]; [|apply Ht|done].
    eapply (control_step_valid s event); try done. by apply interference_inv.
  - apply committed_watermark in Hx as [(_ & _ & [=])|[Hv (n & att & Hst)%moved_ok]]; [|done].
    eapply (watermark_step_valid s w); try done. by apply interference_inv.
Qed.

(** ** Running without failures *)

Lemma require_true (c : bool) st : c = true -> require c st = Ok (tt, st).
Proof. by intros ->. Qed.

(** What the tables ask of the rows of an UPSERT beyond what the transaction guarantees: the
    column checks on the stored event and assertion, and that the keys they name are listed
    in the accepted keyset. *)
Definition upsert_storable (event : VerifiedControl) (a : VerifiedAssertion) (db : VaultDB) : bool :=
  control_columns event true && control_keys_listed db event &&
  (assertion_columns a && assertion_keys_listed db a).

(** Everything an UPSERT needs, apart from the routes and what the tables ask of its rows. *)
Record upsert_ready (s : Store) (event : VerifiedControl) (a : VerifiedAssertion) (now host : Z)
    (db : VaultDB) (au : AuthorityRow) (uuid : bytes) : Prop := {
  ready_valid : control_typed event /\ validA9Control s event = true;
  ready_action : vcAction event = ControlActionUpsert /\ vcAssertion event = Some a;
  ready_fresh : control_expired event now = false;
  ready_keyset : exists row, dbKeyset db = Some row /\
    keyset_current row now (vcKeysetSequence event) (vcKeysetHash event) = true;
  ready_store : (stEnvironmentID s = 1 \/ stEnvironmentID s = 2) /\
    exists c, RootCommitment (stLookupRoot s) = Ok c /\ dbKeyBinding db = Some c;
  ready_retention : exists row, dbRetention db = Some row /\ retentionHealthSafe host row = true;
  ready_authority : dbAuthority db !! vcInstallationBindingID event = Some au /\
    auEpoch au = vcSequencerEpoch event /\ auContiguous au = vcExpectedPreviousSequence event;
  ready_version : highest_version event db = vcExpectedBindingVersion event /\
    (forall v, is_Some (dbTombstones db !! (vcInstallationBindingID event, vcBindingID event, v)) -> 0 < v);
  ready_key : receipt_free event db uuid;
  ready_event : dbControls db !! control_key event = None /\
    (forall k row, dbControls db !! k = Some row ->
       vcSignedObjectHash (crEvent row) <> vcSignedObjectHash event);
  ready_assertion : dbAssertions db !! vaHash a = None;
  (** the database clock is not behind the last update of the authority row *)
  ready_clock : auUpdatedAt au <= now;
}.

Definition has_route (db : VaultDB) (inst binding : bytes) : bool :=
  negb (all_rows (fun _ r => negb (names inst (Some binding) (roColumns r))) (dbRoutes db)).

(** The updated binding row supports no route of its earlier version. *)
Lemma routes_supported_upsert event a now db :
  routes_supported db = true -> binding_version event db < vcBindingVersion event ->
  routes_supported (upsert_db event a now db) =
  negb (has_route db (vcInstallationBindingID event) (vcBindingID event)).
Proof.
  intros Hs Hv. unfold has_route. rewrite negb_involutive. apply eq_true_iff_eq.
  unfold routes_supported in *. rewrite !all_rows_true in *.
  change (dbRoutes (upsert_db event a now db)) with (dbRoutes db).
  set (k := (vcInstallationBindingID event, vcBindingID event)).
  assert (Hl : forall r, dbBindings (upsert_db event a now db) !!
      (roInstallation (roColumns r), roBinding (roColumns r)) =
    if decide (k = (roInstallation (roColumns r), roBinding (roColumns r)))
    then Some (active_binding event a now) else
      dbBindings db !! (roInstallation (roColumns r), roBinding (roColumns r))).
  { intros r. unfold upsert_db, put_binding. cbn [dbBindings with_Bindings].
    change (dbBindings (put_assertion a (put_control event true db))) with (dbBindings db).
    case_decide as E; [by rewrite <- E, lookup_insert_eq|by rewrite lookup_insert_ne]. }
  assert (Hn : forall r, names (vcInstallationBindingID event) (Some (vcBindingID event)) (roColumns r) = true <->
    k = (roInstallation (roColumns r), roBinding (roColumns r))).
  { intros r. unfold names. rewrite andb_true_iff, !beq_true. unfold k. split; [by intros [-> ->]|by intros [= -> ->]]. }
  split; intros Hall l r Hr; specialize (Hall l r Hr); specialize (Hs l r Hr).
  - apply negb_true_iff, not_true_iff_false. intros E%Hn. unfold route_supported in Hall, Hs.
    rewrite Hl, decide_True in Hall by done. unfold binding_version in Hv. fold k in Hv. rewrite E in Hv.
    destruct (dbBindings db !! _) as [row|]; [|done]. boolprop. cbn [active_binding bdVersion] in *. lia.
  - apply negb_true_iff, not_true_iff_false in Hall. unfold route_supported. rewrite Hl, decide_False; [exact Hs|].
    intros E. by apply Hall, Hn.
Qed.

Lemma retention_calm s host db retention c :
  stEnvironmentID s = 1 \/ stEnvironmentID s = 2 -> RootCommitment (stLookupRoot s) = Ok c ->
  dbKeyBinding db = Some c -> dbRetention db = Some retention -> retentionHealthSafe host retention = true ->
  requireRetentionSafeTx s host (calm_state db) = Ok (tt, calm_state db).
Proof.
  intros He Hr Hb Hret Hsafe. unfold requireRetentionSafeTx, collapsed, requireLookupKeyBoundTx.
  assert (Hx : forall T (k : vault_tx T), (requireLookupKeyBoundTx s ;; k) (calm_state db) = k (calm_state db)).
  { intros T k. apply bind_calm with (a := tt). unfold requireLookupKeyBoundTx.
    rewrite (bind_calm _ _ _ tt (calm_state db)).
    2: { apply require_true. by destruct He as [-> | ->]. }
    rewrite Hr. rewrite (bind_calm _ _ _ tt (calm_state db)); [|apply exec_calm; by rewrite Hb].
    rewrite (bind_calm _ _ _ _ _ (query_calm _ _)), Hb. apply require_true. by apply bool_decide_true. }
  unfold requireLookupKeyBoundTx in Hx. rewrite Hx.
  rewrite (bind_calm _ _ _ _ _ (query_calm _ _)), Hret. by rewrite require_true.
Qed.

Lemma guards_calm s event now host db keyset retention c :
  1 <= vcKeysetSequence event <= a9MaxSafeInteger ->
  dbKeyset db = Some keyset -> keyset_current keyset now (vcKeysetSequence event) (vcKeysetHash event) = true ->
  stEnvironmentID s = 1 \/ stEnvironmentID s = 2 -> RootCommitment (stLookupRoot s) = Ok c ->
  dbKeyBinding db = Some c -> dbRetention db = Some retention -> retentionHealthSafe host retention = true ->
  applyA9ControlOnce s event (calm now host) (calm_state db) =
  apply_after_guards s event now (calm_state db).
Proof.
  intros Hq Hk Hkc He Hr Hb Hret Hsafe. unfold applyA9ControlOnce, requireA9KeysetTx, calm, atNow, atHost.
  rewrite (bind_calm _ _ _ now (calm_state db)).
  2: { rewrite (bind_calm _ _ _ tt (calm_state db)).
       2: { apply require_true. rewrite (proj2 (Z.eqb_neq _ _)), (proj2 (Z.ltb_ge _ _)) by lia. done. }
       rewrite (bind_calm _ _ _ _ _ (query_calm _ _)), Hk.
       by rewrite (bind_calm _ _ _ _ _ (require_true _ _ Hkc)). }
  by rewrite (bind_calm _ _ _ _ _ (retention_calm _ _ _ _ _ He Hr Hb Hret Hsafe)).
Qed.

Lemma tombstone_calm event db :
  (forall v, is_Some (dbTombstones db !! (vcInstallationBindingID event, vcBindingID event, v)) -> 0 < v) ->
  highestA9TombstoneVersionTx (vcInstallationBindingID event) (vcBindingID event) (calm_state db) =
  Ok (tombstone_version event db, calm_state db).
Proof.
  intros Hp. unfold highestA9TombstoneVersionTx, tombstone_version.
  pose proof (highest_tombstone_spec db (vcInstallationBindingID event) (vcBindingID event)) as Hs.
  rewrite (bind_calm _ _ _ _ _ (query_calm _ _)).
  destruct (highest_tombstone _ _ _) as [top|]; [|done]. destruct Hs as [Ht _].
  by rewrite (bind_calm _ _ _ _ _ (require_true _ _ (proj2 (Z.ltb_lt _ _) (Hp _ Ht)))).
Qed.

Lemma receipt_calm s event au state outcome sequence db uuid :
  1 <= state <= 3 -> 1 <= outcome <= 6 -> receipt_free event db uuid ->
  record_receipt event (control_result s event au state outcome sequence) (calm_state db) =
  Ok (tt, calm_state (record event uuid au outcome state sequence db)).
Proof.
  intros Hs Ho [Hu Hf]. unfold record_receipt, insertA9ReceiptTx, control_result.
  rewrite encode_a9Result by done. apply exec_calm. unfold insert_receipt. by rewrite Hu, Hf.
Qed.

(** The control event supports the assertion that comes with it. *)
Lemma upsert_control_present s event a db :
  validA9Control s event = true -> vcAction event = ControlActionUpsert -> vcAssertion event = Some a ->
  control_present (put_control event true db) a = true.
Proof.
  unfold validA9Control. intros Hv Hact Ha. rewrite Hact, Ha in Hv. case_in Hv. cbn in Hv.
  case_in Hv. boolprop. beqs. unfold ControlReasonNone in *.
  unfold control_present. cbn [dbControls put_control with_Controls].
  replace (vaInstallationBindingID a, vaSequencerEpoch a, vaStreamSequence a) with (control_key event)
    by (unfold control_key; congruence).
  rewrite lookup_insert_eq. cbn [crEvent stored_control vcBindingID vcBindingVersion vcAssertionHash vcAction vcReason].
  rewrite Hact. rewrite !andb_true_iff, !beq_true, !Z.eqb_eq. repeat split; congruence.
Qed.

Lemma insert_control_calm event db :
  is_Some (dbAuthority db !! vcInstallationBindingID event) -> receipt_present db event = true ->
  dbControls db !! control_key event = None ->
  (forall k row, dbControls db !! k = Some row ->
     vcSignedObjectHash (crEvent row) <> vcSignedObjectHash event) ->
  insert_control event true db =
  if control_columns event true && control_keys_listed db event then Some (put_control event true db) else None.
Proof.
  intros Hau Hr Hc Hh. unfold insert_control, control_supported. rewrite Hc, Hr, bool_decide_true by done.
  rewrite (proj2 (all_rows_true _ (dbControls db))).
  - by destruct (control_columns event true), (control_keys_listed db event).
  - intros k row Hk. apply negb_true_iff, beq_false. by eapply Hh.
Qed.

Lemma insert_assertion_calm event a db :
  control_present (put_control event true db) a = true -> dbAssertions db !! vaHash a = None ->
  insert_assertion a (put_control event true db) =
  if assertion_columns a && assertion_keys_listed db a then Some (put_assertion a (put_control event true db))
  else None.
Proof.
  intros Hc Hn. unfold insert_assertion, assertion_supported. rewrite Hc.
  change (dbAssertions (put_control event true db)) with (dbAssertions db). rewrite Hn.
  change (assertion_keys_listed (put_control event true db) a) with (assertion_keys_listed db a).
  by destruct (assertion_columns a), (assertion_keys_listed db a).
Qed.

Lemma persist_upsert_calm event a now db :
  vcAssertion event = Some a -> control_present (put_control event true db) a = true ->
  is_Some (dbAuthority db !! vcInstallationBindingID event) -> receipt_present db event = true ->
  dbControls db !! control_key event = None ->
  (forall k row, dbControls db !! k = Some row ->
     vcSignedObjectHash (crEvent row) <> vcSignedObjectHash event) ->
  dbAssertions db !! vaHash a = None ->
  persistA9UpsertTx event now (calm_state db) =
  if upsert_storable event a db && routes_supported (upsert_db event a now db)
  then Ok (tt, calm_state (upsert_db event a now db)) else Err ErrStoreUnavailable.
Proof.
  intros Ha Hp Hau Hr Hc Hh Hn. unfold persistA9UpsertTx, upsert_storable. rewrite Ha.
  pose proof (insert_control_calm event db Hau Hr Hc Hh) as Ec.
  pose proof (insert_assertion_calm event a db Hp Hn) as Ea.
  destruct (control_columns event true && control_keys_listed db event); cbn [andb].
  2: { by rewrite (bind_error _ _ _ _ (exec_violation _ _ Ec)). }
  rewrite (bind_calm _ _ _ tt _ (exec_calm _ _ _ Ec)).
  destruct (assertion_columns a && assertion_keys_listed db a); cbn [andb].
  2: { by rewrite (bind_error _ _ _ _ (exec_violation _ _ Ea)). }
  rewrite (bind_calm _ _ _ tt _ (exec_calm _ _ _ Ea)).
  destruct (routes_supported (upsert_db event a now db)) eqn:E.
  - apply exec_calm. by apply checked_some.
  - apply exec_violation. change (checked routes_supported (upsert_db event a now db) = None).
    unfold checked. by rewrite E.
Qed.

(** The receipt just recorded is the one the event refers to. *)
Lemma recorded_receipt_present event uuid au outcome state sequence db :
  pg_uuid (vcIdempotencyKey event) = Some uuid ->
  receipt_present (record event uuid au outcome state sequence db) event = true.
Proof.
  intros Hu. unfold receipt_present. rewrite Hu. cbn [mbind option_bind record put_receipt dbReceipts with_Receipts].
  rewrite lookup_insert_eq. cbn. by rewrite !beq_refl.
Qed.

Lemma apply_in_epoch_calm s event a now host db au uuid :
  vault_inv db -> upsert_ready s event a now host db au uuid ->
  let seq := vcStreamSequence event in
  let recorded := record event uuid au a9OutcomeApplied (applied_state event au) seq db in
  apply_in_epoch s event now au (calm_state db) =
  if upsert_storable event a db && negb (has_route db (vcInstallationBindingID event) (vcBindingID event))
  then Ok (answer s event au (applied_state event au) a9OutcomeApplied seq,
           calm_state (update_authority (vcInstallationBindingID event) (set_contiguous seq now)
             (upsert_db event a now recorded)))
  else Err ErrStoreUnavailable.
Proof.
  intros Hi [[Ht Hv] [Hact Has] Hx _ _ _ (Ha & He & Hc) [Hhigh Hpos] Hkey [Hck Hh] Hna _].
  destruct (valid_control _ _ Ht Hv) as (_ & Hseq & Hprev & Hver & Hexp & _).
  destruct (carries_row _ _ _ (carries_self _ _ _ Ha) Hi) as (_ & _ & Hw). unfold apply_in_epoch, loadA9BindingTx.
  cbv zeta.
  rewrite Hx. rewrite (bind_calm _ _ _ _ _ (query_calm _ _)), (bind_calm _ _ _ _ _ (tombstone_calm _ _ Hpos)).
  change (match dbBindings db !! _ with Some row => bdVersion row | None => 0 end) with (binding_version event db).
  assert (Hmax : (if binding_version event db <? tombstone_version event db then tombstone_version event db
    else binding_version event db) = highest_version event db).
  { unfold highest_version. destruct (Z.ltb_spec (binding_version event db) (tombstone_version event db)); lia. }
  rewrite Hmax, Hhigh, Hw, Hc, Hprev, Hact. unfold highest_version in Hhigh.
  rewrite (proj2 (Z.leb_gt (vcBindingVersion event) _)) by lia.
  rewrite (proj2 (Z.leb_gt (vcStreamSequence event) _)) by lia.
  rewrite (proj2 (Z.ltb_ge _ (vcStreamSequence event))) by lia. rewrite !Z.eqb_refl. cbn [andb negb orb].
  change (if auState au =? a9AuthorityUncertain then a9ResultUncertain
    else if ControlActionUpsert =? ControlActionRevoke then a9ResultRevoked else a9ResultActive)
    with (if auState au =? a9AuthorityUncertain then a9ResultUncertain else a9ResultActive).
  replace (if auState au =? a9AuthorityUncertain then a9ResultUncertain else a9ResultActive)
    with (applied_state event au) by (unfold applied_state; by rewrite Hact).
  rewrite (bind_calm _ _ _ _ _ (receipt_calm s event au (applied_state event au) a9OutcomeApplied
    (vcStreamSequence event) db uuid (applied_state_range _ _) ltac:(done) Hkey)).
  set (db1 := record event uuid au a9OutcomeApplied (applied_state event au) (vcStreamSequence event) db).
  pose proof (persist_upsert_calm event a now db1 Has (upsert_control_present s event a db1 Hv Hact Has)
    (mk_is_Some _ _ Ha) (recorded_receipt_present _ _ _ _ _ _ _ (proj1 Hkey)) Hck Hh Hna) as Hp.
  rewrite (routes_supported_upsert event a now db1) in Hp.
  2: { exact (proj1 (proj2 (proj2 (proj1 (proj2 Hi))))). }
  2: { change (binding_version event db1) with (binding_version event db). lia. }
  change (has_route db1) with (has_route db) in Hp.
  change (upsert_storable event a db1) with (upsert_storable event a db) in Hp.
  destruct (upsert_storable event a db && _); [by rewrite (bind_calm _ _ _ _ _ Hp)|].
  by rewrite (bind_error _ _ _ _ Hp).
Qed.

(** C40: what an UPSERT does when nothing else stands in its way. The event is valid, fresh
    and next of its stream and of its binding, and its receipt, control event and assertion
    are new. If the tables take its rows (their columns pass the checks once stored, and the
    keyset it names is the accepted one and lists its signing key and the three commitment
    keys of its assertion) and the installation has no route for the binding, the vault
    answers APPLIED and stores the receipt, the event, the assertion, the new active tuple
    and the new contiguous sequence. Otherwise it fails with the fixed error and no effect;
    in particular, while a route of the binding is live, the foreign key from routes to the
    active tuple rejects the update, so a binding with a live route cannot be renewed. *)
Theorem renewal_needs_no_live_route (s : Store) (event : VerifiedControl) (a : VerifiedAssertion)
    (now host : Z) (db : VaultDB) (au : AuthorityRow) (uuid : bytes) :
  vault_inv db -> upsert_ready s event a now host db au uuid ->
  let seq := vcStreamSequence event in
  ApplyControl s event (undisturbed now host) db =
  if upsert_storable event a db && negb (has_route db (vcInstallationBindingID event) (vcBindingID event))
  then (update_authority (vcInstallationBindingID event) (set_contiguous seq now)
          (upsert_db event a now
            (record event uuid au a9OutcomeApplied (applied_state event au) seq db)),
        Ok (answer s event au (applied_state event au) a9OutcomeApplied seq))
  else (db, Err ErrStoreUnavailable).
Proof.
  intros Hi Hr. pose proof (apply_in_epoch_calm _ _ _ _ _ _ _ _ Hi Hr) as Hrun. cbn zeta in Hrun |- *.
  destruct Hr as [[Ht Hv] _ _ (keyset & Hk & Hkc) (He & c & Hroot & Hb) (ret & Hret & Hsafe) (Ha & Hep & _)
    _ [Hu Hf] _ _ _].
  destruct (valid_control _ _ Ht Hv) as (_ & _ & _ & _ & _ & Hks & _).
  assert (Hguards : applyA9ControlOnce s event (calm now host) (calm_state db) =
    apply_in_epoch s event now au (calm_state db)).
  { rewrite (guards_calm s event now host db keyset ret c) by done. unfold apply_after_guards.
    rewrite (bind_calm _ _ _ au (calm_state db)).
    2: { unfold control_authority, load_or_create, loadA9AuthorityTx.
         by destruct (vcStreamSequence event =? 1); rewrite (bind_calm _ _ _ _ _ (query_calm _ _)), Ha. }
    rewrite (bind_calm _ _ _ None (calm_state db)).
    2: { unfold a9ReceiptResultTx. rewrite Hu. by rewrite (bind_calm _ _ _ _ _ (query_calm _ _)), Hf. }
    by rewrite Hep, beq_refl. }
  unfold ApplyControl. rewrite Hv. unfold a9TransactionAttempts. cbn [negb with_retries undisturbed].
  unfold run_tx. cbn [calm atBegin atStatements atCommit].
  change {| txDb := db; txFaults := [] |} with (calm_state db). rewrite Hguards, Hrun.
  by destruct (_ && _).
Qed.

(** The snapshot the delivery path calls current is current in every table: the keyset
    is the current one, the authority is active in the snapshot's epoch and generation with
    an unexpired current watermark that covers the assertion, the binding has exactly that
    active version, no tombstone denies it, the route and the assertion are stored as in
    the snapshot, and every expiry the state carries lies after the database clock. *)
Theorem current_route_is_current (s : Store) (att : Attempt) (lease : bytes)
    (snapshot : option A9RouteSnapshot) (st st' : tx_state VaultDB) (state : a9CurrentRouteState) :
  requireA9CurrentRouteTx s att lease snapshot st = Ok (Some state, st') ->
  stA9Enabled s = true /\
  exists snap, snapshot = Some snap /\ route_current (txDb st) (atNow att) lease snap state.
Proof.
  destruct snapshot as [snap|]; [|by intros [[=] _]%ret_ok].
  intros [He Hc]%require_current_ok. eauto.
Qed.

(** ** The reference time *)

Definition near (t : Z) : Prop := - 2 ^ 62 <= t < 2 ^ 62.

Lemma aligned_bound a b : near a -> near b -> a9TrustClockAligned a b = true -> Z.abs (a - b) <= a9MaximumClockSkew.
Proof.
  unfold near, a9TrustClockAligned. intros Ha Hb. destruct (_ || _ || _ || _); [done|].
  unfold time_sub, max_duration, min_duration, duration_neg.
  rewrite Z.min_r, Z.max_r by lia. destruct (Z.ltb_spec (a - b) 0) as [Hn|Hn].
  - rewrite (proj2 (Z.eqb_neq _ _)) by (unfold min_duration; lia). intros ?%Z.leb_le. lia.
  - intros ?%Z.leb_le. lia.
Qed.

Lemma reference_time ev host db reference :
  near ev -> near host -> near db -> a9CurrentReferenceTime ev host db = Some reference ->
  reference = Z.max db host /\ ev <= host /\ Z.abs (ev - db) <= a9MaximumClockSkew /\
  Z.abs (host - db) <= a9MaximumClockSkew.
Proof.
  intros He Hh Hd. unfold a9CurrentReferenceTime. destruct (_ || _) eqn:E; [done|]. boolprop.
  unfold before, after in *. boolprop. intros Hr.
  split; [|split; [done|split; by apply aligned_bound]].
  injection Hr as <-. destruct (Z.ltb_spec db host).
  - rewrite (proj2 (Z.ltb_ge host ev)) by lia. lia.
  - rewrite (proj2 (Z.ltb_ge db ev)) by lia. lia.
Qed.

Lemma expires_bound state t :
  zero_time < csKeysetExpiresAt state -> zero_time < csKeysetFreshUntil state ->
  zero_time < csWatermarkExpiresAt state -> zero_time < csAssertionExpiresAt state ->
  t < authorityExpiresAt state ->
  t < csKeysetExpiresAt state /\ t < csKeysetFreshUntil state /\
  t < csWatermarkExpiresAt state /\ t < csAssertionExpiresAt state.
Proof.
  intros H1 H2 H3 H4.
  assert (Hstep : forall r c, zero_time < r -> zero_time < c ->
    (if is_zero r || before c r then c else r) = Z.min r c).
  { intros r c Hr Hc. unfold is_zero, before. rewrite (proj2 (Z.eqb_neq r _)) by lia.
    destruct (Z.ltb_spec c r); simpl; lia. }
  unfold authorityExpiresAt. cbn [fold_left].
  rewrite (Hstep (csKeysetExpiresAt state) (csKeysetFreshUntil state)) by lia.
  rewrite (Hstep _ (csWatermarkExpiresAt state)) by lia.
  rewrite (Hstep _ (csAssertionExpiresAt state)) by lia. lia.
Qed.

(** How long an answer "current" may be used. A delivery that is evaluated at
    [evaluationTime], when the host clock shows [hostNow] and the database clock
    [databaseNow], proceeds at a reference time only if that is the later of the two clocks,
    both are within five seconds of the database clock, it precedes the expiry of the
    keyset, of its freshness, of the watermark and of the assertion, and the topic key epoch
    is the current one, or the previous one during the first minute of the new period. *)
Theorem still_current_window (evaluationTime hostNow databaseNow reference : Z)
    (state : a9CurrentRouteState) (snapshot : A9RouteSnapshot) :
  near evaluationTime -> near hostNow -> near databaseNow ->
  zero_time < csKeysetExpiresAt state -> zero_time < csKeysetFreshUntil state ->
  zero_time < csWatermarkExpiresAt state -> zero_time < csAssertionExpiresAt state ->
  a9RouteStillCurrentAt evaluationTime hostNow databaseNow state (Some snapshot) = Some reference ->
  reference = Z.max databaseNow hostNow /\ evaluationTime <= hostNow /\
  Z.abs (evaluationTime - databaseNow) <= a9MaximumClockSkew /\
  Z.abs (hostNow - databaseNow) <= a9MaximumClockSkew /\
  reference < csKeysetExpiresAt state /\ reference < csKeysetFreshUntil state /\
  reference < csWatermarkExpiresAt state /\ reference < csAssertionExpiresAt state /\
  (a9TopicKeyEpoch snapshot = TopicEpoch reference \/
   (a9TopicKeyEpoch snapshot + 1 = TopicEpoch reference /\
    reference < TopicEpochBoundary (TopicEpoch reference) + 60 * second /\
    reference < gtInstant (a9AssertionExpiresAt snapshot))).
Proof.
  intros He Hh Hd H1 H2 H3 H4. unfold a9RouteStillCurrentAt.
  destruct (a9CurrentReferenceTime _ _ _) as [t|] eqn:Et; [|done].
  destruct (reference_time _ _ _ _ He Hh Hd Et) as (Hr & Hle & Ha & Hb).
  destruct (negb (before t (authorityExpiresAt state))) eqn:Ex; [done|].
  destruct ((a9TopicKeyEpoch snapshot =? TopicEpoch t) || _) eqn:Ek; [|done]. intros [= <-].
  apply negb_false_iff, Z.ltb_lt in Ex.
  destruct (expires_bound state t H1 H2 H3 H4 Ex) as (X1 & X2 & X3 & X4).
  repeat (split; [done|]). apply orb_true_iff in Ek as [Ek|Ek]; boolprop; [by left|].
  unfold PreviousTopicEpochVerificationUsable, TopicEpochUsable in Ek. cbn [andb orb] in Ek.
  apply andb_true_iff in Ek as [Eb%Z.ltb_lt Eu].
  destruct (Z.eqb_spec (a9TopicKeyEpoch snapshot) (TopicEpoch t)); [by left|right].
  destruct ((TopicEpoch t =? 0) || _) eqn:Ec; [done|]. boolprop. apply Z.ltb_lt in Eu.
  split; [|done]. assert (Hrange : 0 <= TopicEpoch t < 2 ^ 32).
  { unfold TopicEpoch. destruct (_ <? 0); [lia|apply Z.mod_pos_bound; lia]. }
  rewrite Z.mod_small in * by lia. lia.
Qed.

End Runs.

(** ** Concrete runs *)

Module VaultSample.

#[export] Instance pg : Postgres := {| pg_uuid := Some; pg_timestamp := fun t => t / 1000 * 1000 |}.

Definition t0 : Z := 1700000000 * second.
Definition inst : bytes := repeat x01 16.
Definition epoch : bytes := repeat x02 16.
Definition binding : bytes := repeat x03 16.
Definition lease : bytes := repeat x04 16.
Definition keyset : bytes := repeat x05 32.

Definition store : Store := {|
  stEnvironment := str "dev"; stEnvironmentID := 1; stLookupRoot := repeat x06 32; stA9Enabled := true;
  stEncryption := {| krActiveVersion := 1; krKeys := {[1 := repeat x15 32]} |};
  stTeenConversationEnabled := false; stAuthorityKeys := ∅; stLeaseTTL := 7 * day |}.

Definition commitment : bytes := Eval vm_compute in match RootCommitment (stLookupRoot store) with Ok c => c | Err _ => [] end.

Lemma commitment_eq : RootCommitment (stLookupRoot store) = Ok commitment.
Proof. vm_compute. reflexivity. Qed.

Definition keyset_row : KeysetRow := {| ksSequence := 1; ksHash := Some keyset; ksState := 1;
  ksUncertainty := 0; ksExpiresAt := Some (t0 + hour); ksRefreshedAt := t0 - minute |}.
Definition retention_row : RetentionRow := {| rsLastStartedAt := Some (t0 - 2 * hour);
  rsLastCompletedAt := Some (t0 - hour); rsNextDeadlineAt := Some (t0 + hour); rsIsSafe := true;
  rsFixedOutcome := 2 |}.

Definition online : OnlineKeyRow := {| okNotBefore := t0 - hour; okNotAfter := t0 + hour |}.
Definition commitment_key (e : option Z) : CommitmentKeyRow :=
  {| ckTopicKeyEpoch := e; ckNotBefore := t0 - hour; ckNotAfter := t0 + hour |}.

(** The keyset is accepted and lists the keys the sample's objects name. *)
Definition online_keys : gmap (Z * Z * bytes) OnlineKeyRow := {[(1, 1, repeat x0d 32) := online]}.
Definition commitment_keys : gmap (Z * Z * bytes) CommitmentKeyRow :=
  {[(1, 1, repeat x0a 32) := commitment_key None; (1, 2, repeat x08 32) := commitment_key None;
    (1, 3, repeat x0c 32) := commitment_key (Some 655)]}.

Definition db : VaultDB := {|
  dbKeyset := Some keyset_row; dbAcceptedKeysets := {[1 := keyset]}; dbOnlineKeys := online_keys;
  dbCommitmentKeys := commitment_keys;
  dbKeyBinding := Some commitment; dbRetention := Some retention_row;
  dbAuthority := ∅; dbReceipts := ∅; dbControls := ∅; dbAssertions := ∅; dbBindings := ∅;
  dbTombstones := ∅; dbWatermarks := ∅; dbRoutes := ∅; dbJobs := ∅;
  dbInstallations := ∅; dbLeases := ∅;
  dbHistory := ∅; dbDedupes := ∅; dbWelcomeAuthorizations := ∅;
  dbWelcomeBudgets := ∅; dbDeletions := ∅; dbAggregates := ∅;
  dbAccessRequests := ∅; dbAccessAudit := ∅; dbGate6 := ∅ |}.

Definition assertion (e : bytes) (n version : Z) (h : byte) : VerifiedAssertion := {|
  vaHash := repeat h 32; vaInstallationBindingID := inst; vaSequencerEpoch := e; vaStreamSequence := n;
  vaBindingID := binding; vaBindingVersion := version; vaLeaseID := lease;
  vaTupleCommitment := repeat x07 32; vaTupleCommitmentKeyID := repeat x08 32;
  vaRosterCommitment := repeat x09 32; vaRosterCommitmentKeyID := repeat x0a 32;
  vaTopicBinding := repeat x0b 32; vaTopicKeyEpoch := 655; vaTopicCommitmentKeyID := repeat x0c 32;
  vaConversationGeneration := 1; vaRosterVersion := 1; vaIssuedAt := t0 - 5 * second;
  vaExpiresAt := t0 + 20 * second; vaSigningKeyID := repeat x0d 32; vaKeysetSequence := 1;
  vaKeysetHash := keyset |}.

Definition control (key : string) (e : bytes) (n version action : Z) (h : byte)
    (a : option VerifiedAssertion) : VerifiedControl := {|
  vcEnvironment := str "dev"; vcIdempotencyKey := str key; vcInstallationBindingID := inst;
  vcSequencerEpoch := e; vcStreamSequence := n; vcExpectedPreviousSequence := n - 1;
  vcBindingID := binding; vcBindingVersion := version; vcExpectedBindingVersion := version - 1;
  vcAction := action; vcAssertionHash := repeat h 32; vcReason := action - 1;
  vcIssuedAt := t0 - 5 * second; vcExpiresAt := t0 + 20 * second; vcSigningKeyID := repeat x0d 32;
  vcSignedObjectHash := repeat h 32; vcKeysetSequence := 1; vcKeysetHash := keyset; vcAssertion := a |}.

Definition upsert (key : string) (e : bytes) (n version : Z) (h : byte) : VerifiedControl :=
  control key e n version 1 h (Some (assertion e n version h)).
Definition revoke (key : string) (e : bytes) (n version : Z) (h : byte) : VerifiedControl :=
  control key e n version 2 h None.

Definition first_upsert : VerifiedControl := upsert "k1" epoch 1 1 x10.
Definition first_revoke : VerifiedControl := revoke "k2" epoch 1 1 x11.
Definition renewal : VerifiedControl := upsert "k3" epoch 2 2 x12.
Definition next_epoch : VerifiedControl := upsert "k4" (repeat x20 16) 1 1 x13.

(** What a transaction computes once its guards have passed. *)
Definition run (event : VerifiedControl) (d : VaultDB) : result error (Result * tx_state VaultDB) :=
  apply_after_guards store event t0 (calm_state d).

Definition guarded_by (d : VaultDB) : Prop :=
  dbKeyset d = Some keyset_row /\ dbKeyBinding d = Some commitment /\ dbRetention d = Some retention_row.

Lemma apply_ok event d r st :
  guarded_by d -> validA9Control store event = true -> vcKeysetSequence event = 1 ->
  vcKeysetHash event = keyset -> run event d = Ok (r, st) ->
  ApplyControl store event (undisturbed t0 t0) d = (txDb st, Ok r).
Proof.
  intros (Hk & Hb & Hr) Hv Hs Hh Hrun. unfold ApplyControl. rewrite Hv. unfold a9TransactionAttempts.
  cbn [negb with_retries undisturbed]. unfold run_tx. cbn [calm atBegin atStatements atCommit].
  change {| txDb := d; txFaults := [] |} with (calm_state d).
  rewrite (guards_calm store event t0 t0 d keyset_row retention_row commitment).
  - unfold run in Hrun. by rewrite Hrun.
  - rewrite Hs. unfold a9MaxSafeInteger. lia.
  - exact Hk.
  - rewrite Hs, Hh. vm_compute. reflexivity.
  - by left.
  - apply commitment_eq.
  - exact Hb.
  - exact Hr.
  - vm_compute. reflexivity.
Qed.

Definition result_of (e : bytes) (state outcome : bytes) (n : Z) : Result := {|
  reEnvironment := str "dev"; reInstallationBindingID := inst; reSequencerEpoch := e;
  reSubscriptionGeneration := 0; reState := state; reOutcome := outcome; reAcceptedStreamSequence := n |}.

Definition after_run (event : VerifiedControl) (d : VaultDB) : VaultDB :=
  match run event d with Ok (_, st) => txDb st | Err _ => d end.

Definition answer_of (event : VerifiedControl) (d : VaultDB) : option Result :=
  match run event d with Ok (r, _) => Some r | Err _ => None end.

(** A run whose result is known. *)
Lemma applied event d r :
  guarded_by d -> validA9Control store event = true -> vcKeysetSequence event = 1 ->
  vcKeysetHash event = keyset -> answer_of event d = Some r ->
  ApplyControl store event (undisturbed t0 t0) d = (after_run event d, Ok r).
Proof.
  unfold answer_of, after_run. intros Hg Hv Hs Hh Hrun. destruct (run event d) as [[r1 st]|e] eqn:E; [|done].
  injection Hrun as ->. by apply apply_ok.
Qed.

#[local] Opaque ApplyControl ApplyWatermark.

Lemma first_replayed :
  ApplyControl store first_upsert (undisturbed t0 t0) (after_run first_upsert db) =
  (after_run first_upsert (after_run first_upsert db),
   Ok (result_of epoch ResultStateActive ResultOutcomeReplay 1)).
Proof. apply applied; [done|vm_compute; reflexivity..]. Qed.

Definition upserted : VaultDB := after_run first_upsert db.

Definition upserted_authority : AuthorityRow := {|
  auEpoch := epoch; auContiguous := 1; auGeneration := 0; auState := 1; auReason := 0;
  auWatermark := None; auUpdatedAt := t0 |}.

Lemma first_upserted :
  ApplyControl store first_upsert (undisturbed t0 t0) db =
  (upserted, Ok (result_of epoch ResultStateActive ResultOutcomeApplied 1)).
Proof.
  apply applied; [done|vm_compute; reflexivity..].
Qed.

Lemma inv_db : vault_inv db.
Proof.
  split; [|split].
  - split; [|split]; intros *; cbn [dbAuthority dbControls db]; by rewrite lookup_empty.
  - split; [|split; [|split; [|split]]].
    + intros i b row v. cbn [dbBindings db]. by rewrite lookup_empty.
    + intros k row. cbn [dbBindings db]. by rewrite lookup_empty.
    + vm_compute. reflexivity.
    + vm_compute. reflexivity.
    + intros k j. cbn [dbJobs db]. by rewrite lookup_empty.
  - intros k row. cbn [dbReceipts db]. by rewrite lookup_empty.
Qed.

Lemma typed (key : string) (e : bytes) (n version action : Z) (h : byte) a :
  0 < n < 2 ^ 63 -> 0 < version < 2 ^ 63 -> control_typed (control key e n version action h a).
Proof. intros ? ?. unfold control_typed, u64. cbn. lia. Qed.

Lemma undisturbed_sound : sound_commits (undisturbed t0 t0).
Proof. intros n e applied. cbn. discriminate. Qed.

Lemma undisturbed_allowed : others_allowed (undisturbed t0 t0).
Proof. intros n d Hi. by split. Qed.

Lemma undisturbed_keeps P : others_keep P (undisturbed t0 t0).
Proof. by intros n d Hp. Qed.

Lemma undisturbed_alone : alone (undisturbed t0 t0).
Proof. by intros n d. Qed.

Lemma inv_upserted : vault_inv upserted.
Proof.
  apply (call_inv store (CallControl first_upsert) (undisturbed t0 t0) db _
    (Ok (result_of epoch ResultStateActive ResultOutcomeApplied 1))).
  - apply typed; lia.
  - apply undisturbed_sound.
  - apply undisturbed_keeps.
  - exact first_upserted.
  - apply inv_db.
Qed.

(** A database in which the binding has a route, as the replacement of routes leaves it. *)
Definition route : RouteRow := {|
  roColumns := {| roInstallation := inst; roEpoch := epoch; roGeneration := 1; roBinding := binding;
    roVersion := 1; roActive := {| acAssertionHash := repeat x10 32; acStreamSequence := 1;
      acTopicKeyEpoch := 655; acTopicBinding := repeat x0b 32; acKeysetSequence := 1;
      acKeysetHash := keyset |}; roRouteKeyEpoch := 1; roWatermarkSequence := 1 |};
  roIdentity := repeat x0e 32 |}.

Definition routed : VaultDB := with_Routes {[lease := route]} upserted.

Lemma inv_with_routes d routes :
  vault_inv d -> routes_supported (with_Routes routes d) = true -> jobs_supported (with_Routes routes d) = true ->
  vault_inv (with_Routes routes d).
Proof. intros (Hs & (Hd & Hi & _ & _ & Hl) & Hr) H1 H2. done. Qed.

Lemma inv_routed : vault_inv routed.
Proof. apply inv_with_routes; [apply inv_upserted|vm_compute; reflexivity..]. Qed.

(** The same store when the authority of the installation is already uncertain. *)
Definition doubtful : VaultDB :=
  with_Authority {[inst := fresh_authority epoch a9AuthorityUncertain a9UncertaintyControlGap t0]} db.

(** Everything a current route needs, as the control plane and a replacement leave it. *)
Definition mark : WatermarkColumns := {|
  wcSequence := 1; wcSignedHash := repeat x14 32; wcCommittedThrough := 1; wcStatus := 1; wcReason := 0;
  wcIssuedAt := t0 - 5 * second; wcExpiresAt := t0 + 20 * second; wcSigningKeyID := repeat x0d 32;
  wcKeysetSequence := 1; wcKeysetHash := keyset |}.

Definition authority_row : AuthorityRow := {|
  auEpoch := epoch; auContiguous := 1; auGeneration := 1; auState := a9AuthorityActive; auReason := 0;
  auWatermark := Some mark; auUpdatedAt := t0 |}.

Definition snapshot : A9RouteSnapshot := {|
  a9InstallationBindingID := inst; a9SequencerEpoch := epoch; a9SubscriptionGeneration := 1;
  a9BindingID := binding; a9BindingVersion := 1; a9AssertionHash := repeat x10 32;
  a9AssertionStreamSequence := 1;
  a9AssertionExpiresAt := {| gtInstant := t0 + 20 * second; gtOffset := None |};
  a9TopicKeyEpoch := 655; a9TopicBinding := repeat x0b 32; a9RouteKeyEpoch := 1; a9KeysetSequence := 1;
  a9KeysetHash := keyset; a9WatermarkSequence := 1 |}.

Definition live : VaultDB := {|
  dbKeyset := Some keyset_row; dbAcceptedKeysets := {[1 := keyset]}; dbOnlineKeys := online_keys;
  dbCommitmentKeys := commitment_keys;
  dbKeyBinding := Some commitment; dbRetention := Some retention_row;
  dbAuthority := {[inst := authority_row]}; dbReceipts := ∅; dbControls := ∅;
  dbAssertions := {[repeat x10 32 := assertion epoch 1 1 x10]};
  dbBindings := {[(inst, binding) := active_binding first_upsert (assertion epoch 1 1 x10) t0]};
  dbTombstones := ∅; dbWatermarks := ∅; dbRoutes := {[lease := route]}; dbJobs := ∅;
  dbInstallations := ∅; dbLeases := ∅;
  dbHistory := ∅; dbDedupes := ∅; dbWelcomeAuthorizations := ∅;
  dbWelcomeBudgets := ∅; dbDeletions := ∅; dbAggregates := ∅;
  dbAccessRequests := ∅; dbAccessAudit := ∅; dbGate6 := ∅ |}.

Definition live_state : a9CurrentRouteState := {|
  csDatabaseNow := t0; csKeysetExpiresAt := t0 + hour; csKeysetFreshUntil := t0 - minute + 6 * hour;
  csWatermarkExpiresAt := t0 + 20 * second; csAssertionExpiresAt := t0 + 20 * second;
  csInstallationIdentity := repeat x0e 32 |}.

Lemma live_current : exists st',
  requireA9CurrentRouteTx store (calm t0 t0) lease (Some snapshot) (calm_state live) = Ok (Some live_state, st').
Proof.
  unfold requireA9CurrentRouteTx.
  assert (Hg : negb (stA9Enabled store) || negb (length lease =? 16)%nat ||
    negb (validA9RouteSnapshot snapshot (a9RouteKeyEpoch snapshot) zero_time) = false)
    by (vm_compute; reflexivity).
  rewrite Hg.
  unfold or_stop at 1. rewrite (bind_calm _ _ _
    (Some (t0, t0 + hour, t0 - minute + 6 * hour)) (calm_state live)).
  2: { unfold lockA9CurrentKeysetReceiptTx.
       replace (_ || _) with false by (vm_compute; reflexivity).
       rewrite (bind_calm _ _ _ _ _ (query_calm _ _)). unfold mret, tx_ret. do 2 f_equal. }
  cbv beta iota. change (atHost (calm t0 t0)) with t0.
  rewrite (bind_calm _ _ _ _ _ (retention_calm store t0 live retention_row commitment
    (or_introl eq_refl) commitment_eq eq_refl eq_refl ltac:(vm_compute; reflexivity))).
  match goal with |- exists _, ?m = _ =>
    assert (Hm : match m with Ok (o, _) => o | Err _ => None end = Some live_state)
      by (vm_compute; reflexivity); destruct m as [[o st]|e] end; [|discriminate Hm].
  exists st. by rewrite Hm.
Qed.

End VaultSample.

Section Witnesses.
#[local] Existing Instance VaultSample.pg.

Lemma vault_invariant_witness : vault_inv VaultSample.upserted.
Proof.
  apply (vault_invariant VaultSample.store (CallControl VaultSample.first_upsert)
    (undisturbed VaultSample.t0 VaultSample.t0) VaultSample.db _
    (Ok (VaultSample.result_of VaultSample.epoch ResultStateActive ResultOutcomeApplied 1))).
  - apply VaultSample.typed; lia.
  - apply VaultSample.undisturbed_sound.
  - apply VaultSample.undisturbed_keeps.
  - exact VaultSample.first_upserted.
  - apply VaultSample.inv_db.
Defined.

Lemma revocation_is_final_witness :
  let event := VaultSample.first_revoke in
  let db' := VaultSample.after_run event VaultSample.db in
  ApplyControl VaultSample.store event (undisturbed VaultSample.t0 VaultSample.t0) VaultSample.db =
    (db', Ok (VaultSample.result_of VaultSample.epoch ResultStateRevoked ResultOutcomeApplied 1)) /\
  revoked_now event db' /\
  forall lease route, dbRoutes db' !! lease = Some route ->
    names VaultSample.inst (Some VaultSample.binding) (roColumns route) = true -> 1 < roVersion (roColumns route).
Proof.
  cbn zeta.
  assert (Hr : ApplyControl VaultSample.store VaultSample.first_revoke
      (undisturbed VaultSample.t0 VaultSample.t0) VaultSample.db =
    (VaultSample.after_run VaultSample.first_revoke VaultSample.db,
     Ok (VaultSample.result_of VaultSample.epoch ResultStateRevoked ResultOutcomeApplied 1))).
  { apply VaultSample.applied; [done|vm_compute; reflexivity..]. }
  split; [exact Hr|].
  destruct (revocation_is_final _ _ _ _ _ _ _ (VaultSample.typed "k2" VaultSample.epoch 1 1 2 x11 None
      ltac:(lia) ltac:(lia)) VaultSample.undisturbed_sound VaultSample.undisturbed_allowed
    VaultSample.inv_db Hr eq_refl eq_refl (rtc_refl _ _)) as (H1 & _ & H3 & _).
  split; [exact H1|exact H3].
Defined.

Lemma uncertainty_is_latched_witness :
  let event := VaultSample.first_upsert in
  let db' := VaultSample.after_run event VaultSample.doubtful in
  ApplyControl VaultSample.store event (undisturbed VaultSample.t0 VaultSample.t0) VaultSample.doubtful =
    (db', Ok (VaultSample.result_of VaultSample.epoch ResultStateUncertain ResultOutcomeApplied 1)) /\
  uncertain VaultSample.inst db'.
Proof.
  cbn zeta.
  assert (Hr : ApplyControl VaultSample.store VaultSample.first_upsert
      (undisturbed VaultSample.t0 VaultSample.t0) VaultSample.doubtful =
    (VaultSample.after_run VaultSample.first_upsert VaultSample.doubtful,
     Ok (VaultSample.result_of VaultSample.epoch ResultStateUncertain ResultOutcomeApplied 1))).
  { apply VaultSample.applied; [done|vm_compute; reflexivity..]. }
  split; [exact Hr|].
  apply (uncertainty_is_latched VaultSample.store (CallControl VaultSample.first_upsert) _ _ _ _
    VaultSample.inst (VaultSample.typed "k1" VaultSample.epoch 1 1 1 x10 _ ltac:(lia) ltac:(lia))
    VaultSample.undisturbed_sound (VaultSample.undisturbed_keeps _) Hr).
  eexists. split; [vm_compute; reflexivity|reflexivity].
Defined.

Lemma control_refines_machine_witness :
  moved (control_step VaultSample.store VaultSample.first_upsert) (undisturbed VaultSample.t0 VaultSample.t0)
    VaultSample.db VaultSample.upserted
    (Ok (VaultSample.result_of VaultSample.epoch ResultStateActive ResultOutcomeApplied 1)).
Proof.
  destruct (control_refines_machine _ _ _ _ _ _
    (VaultSample.typed "k1" VaultSample.epoch 1 1 1 x10 _ ltac:(lia) ltac:(lia))
    VaultSample.undisturbed_sound VaultSample.first_upserted) as [(Hv & _)|[_ Hm]]; [|exact Hm].
  vm_compute in Hv. discriminate Hv.
Defined.

Lemma control_replay_is_idempotent_witness :
  VaultSample.after_run VaultSample.first_upsert VaultSample.upserted = VaultSample.upserted /\
  Ok (VaultSample.result_of VaultSample.epoch ResultStateActive ResultOutcomeReplay 1) =
    @Ok error Result (as_replay (VaultSample.result_of VaultSample.epoch ResultStateActive ResultOutcomeApplied 1)).
Proof.
  destruct (control_replay_is_idempotent _ _ _ _ _ _ _ _ _ _
    (VaultSample.typed "k1" VaultSample.epoch 1 1 1 x10 _ ltac:(lia) ltac:(lia))
    VaultSample.undisturbed_sound VaultSample.undisturbed_allowed VaultSample.inv_db
    VaultSample.first_upserted ltac:(discriminate) (rtc_refl _ _) ltac:(eexists; vm_compute; reflexivity)
    VaultSample.undisturbed_sound VaultSample.undisturbed_alone VaultSample.first_replayed) as [H1 [H2|H2]].
  - discriminate H2.
  - split; [exact H1|exact H2].
Defined.

Lemma epoch_is_never_reused_witness :
  let db' := VaultSample.after_run VaultSample.next_epoch VaultSample.upserted in
  exists au', dbAuthority db' !! VaultSample.inst = Some au' /\
    entered VaultSample.next_epoch VaultSample.upserted db' VaultSample.inst au'.
Proof.
  cbn zeta.
  assert (Hr : ApplyControl VaultSample.store VaultSample.next_epoch
      (undisturbed VaultSample.t0 VaultSample.t0) VaultSample.upserted =
    (VaultSample.after_run VaultSample.next_epoch VaultSample.upserted,
     Ok (VaultSample.result_of (repeat x20 16) ResultStateUncertain ResultOutcomeApplied 1))).
  { apply VaultSample.applied; [split; [|split]|..]; vm_compute; reflexivity. }
  set (row e c st reason := {| auEpoch := e; auContiguous := c; auGeneration := 0; auState := st;
    auReason := reason; auWatermark := None; auUpdatedAt := VaultSample.t0 |}).
  assert (Ha : dbAuthority VaultSample.upserted !! VaultSample.inst = Some (row VaultSample.epoch 1 1 0))
    by (vm_compute; reflexivity).
  assert (Ha' : dbAuthority (VaultSample.after_run VaultSample.next_epoch VaultSample.upserted) !!
    VaultSample.inst = Some (row (repeat x20 16) 1 3 4)) by (vm_compute; reflexivity).
  exists (row (repeat x20 16) 1 3 4). split; [exact Ha'|].
  apply (epoch_is_never_reused _ _ _ _ _ _ _ _ _
    (VaultSample.typed "k4" (repeat x20 16) 1 1 1 x13 _ ltac:(lia) ltac:(lia))
    VaultSample.undisturbed_sound VaultSample.undisturbed_alone Hr Ha Ha').
  vm_compute. discriminate.
Defined.

Lemma answers_are_valid_witness :
  result_valid (VaultSample.result_of VaultSample.epoch ResultStateActive ResultOutcomeApplied 1) = true /\
  HTTPStatus (VaultSample.result_of VaultSample.epoch ResultStateActive ResultOutcomeApplied 1) = Ok 200.
Proof.
  destruct (answers_are_valid VaultSample.store (CallControl VaultSample.first_upsert) _ _ _ _
    ltac:(vm_compute; reflexivity)
    (VaultSample.typed "k1" VaultSample.epoch 1 1 1 x10 _ ltac:(lia) ltac:(lia))
    VaultSample.undisturbed_sound (VaultSample.undisturbed_keeps _) VaultSample.inv_db
    VaultSample.first_upserted) as (Hv & code & Hc & [_ H200] & _).
  split; [exact Hv|]. rewrite Hc, H200; [reflexivity|by left].
Defined.

Lemma upsert_ready_routes s event a now host db au uuid r :
  upsert_ready s event a now host db au uuid -> upsert_ready s event a now host (with_Routes r db) au uuid.
Proof. intros []. split; assumption. Qed.

Lemma renewal_ready_upserted :
  upsert_ready VaultSample.store VaultSample.renewal (VaultSample.assertion VaultSample.epoch 2 2 x12)
    VaultSample.t0 VaultSample.t0 VaultSample.upserted VaultSample.upserted_authority (str "k3").
Proof.
  assert (Hno : forall k row, dbControls VaultSample.upserted !! k = Some row ->
    vcSignedObjectHash (crEvent row) <> vcSignedObjectHash VaultSample.renewal).
  { assert (Hall : all_rows (fun _ row => negb (beq (vcSignedObjectHash (crEvent row))
      (vcSignedObjectHash VaultSample.renewal))) (dbControls VaultSample.upserted) = true)
      by (vm_compute; reflexivity).
    intros k row Hk. rewrite all_rows_true in Hall. specialize (Hall k row Hk).
    by apply negb_true_iff, beq_false in Hall. }
  split.
  - split; [apply VaultSample.typed; lia|vm_compute; reflexivity].
  - split; reflexivity.
  - vm_compute. reflexivity.
  - exists VaultSample.keyset_row. split; vm_compute; reflexivity.
  - split; [by left|]. exists VaultSample.commitment. split; [apply VaultSample.commitment_eq|vm_compute; reflexivity].
  - exists VaultSample.retention_row. split; vm_compute; reflexivity.
  - split; [vm_compute; reflexivity|split; reflexivity].
  - split; [vm_compute; reflexivity|]. intros v [row Hr].
    assert (Ht : all_rows (fun _ _ => false) (dbTombstones VaultSample.upserted) = true)
      by (vm_compute; reflexivity).
    rewrite all_rows_true in Ht. by specialize (Ht _ _ Hr).
  - split; [reflexivity|vm_compute; reflexivity].
  - split; [vm_compute; reflexivity|exact Hno].
  - vm_compute. reflexivity.
  - apply Z.le_refl.
Qed.

Lemma has_route_routed : has_route VaultSample.routed VaultSample.inst VaultSample.binding = true.
Proof. vm_compute. reflexivity. Qed.

Lemma has_route_upserted : has_route VaultSample.upserted VaultSample.inst VaultSample.binding = false.
Proof. vm_compute. reflexivity. Qed.

Lemma renewal_needs_no_live_route_witness :
  ApplyControl VaultSample.store VaultSample.renewal (undisturbed VaultSample.t0 VaultSample.t0)
    VaultSample.routed = (VaultSample.routed, Err ErrStoreUnavailable) /\
  snd (ApplyControl VaultSample.store VaultSample.renewal (undisturbed VaultSample.t0 VaultSample.t0)
    VaultSample.upserted) =
    Ok (VaultSample.result_of VaultSample.epoch ResultStateActive ResultOutcomeApplied 2).
Proof.
  split.
  - rewrite (renewal_needs_no_live_route _ _ _ _ _ _ _ _ VaultSample.inv_routed
      (upsert_ready_routes _ _ _ _ _ _ _ _ _ renewal_ready_upserted)).
    change (vcInstallationBindingID VaultSample.renewal) with VaultSample.inst.
    change (vcBindingID VaultSample.renewal) with VaultSample.binding. by rewrite has_route_routed.
  - rewrite (renewal_needs_no_live_route _ _ _ _ _ _ _ _ VaultSample.inv_upserted renewal_ready_upserted).
    change (vcInstallationBindingID VaultSample.renewal) with VaultSample.inst.
    change (vcBindingID VaultSample.renewal) with VaultSample.binding. rewrite has_route_upserted. reflexivity.
Defined.

Lemma current_route_is_current_witness :
  route_current VaultSample.live VaultSample.t0 VaultSample.lease VaultSample.snapshot VaultSample.live_state.
Proof.
  destruct VaultSample.live_current as [st' Hx].
  destruct (current_route_is_current _ _ _ _ _ _ _ Hx) as (_ & snap & [= <-] & Hc).
  exact Hc.
Defined.

Lemma still_current_window_witness :
  a9RouteStillCurrentAt VaultSample.t0 (VaultSample.t0 + second) VaultSample.t0 VaultSample.live_state
    (Some VaultSample.snapshot) = Some (VaultSample.t0 + second) /\
  VaultSample.t0 + second < csWatermarkExpiresAt VaultSample.live_state.
Proof.
  assert (He : a9RouteStillCurrentAt VaultSample.t0 (VaultSample.t0 + second) VaultSample.t0
    VaultSample.live_state (Some VaultSample.snapshot) = Some (VaultSample.t0 + second))
    by (vm_compute; reflexivity).
  split; [exact He|].
  assert (Hn : near VaultSample.t0 /\ near (VaultSample.t0 + second)) by (vm_compute; repeat split; congruence).
  destruct Hn as [Hn1 Hn2].
  destruct (still_current_window VaultSample.t0 (VaultSample.t0 + second) VaultSample.t0
    (VaultSample.t0 + second) VaultSample.live_state VaultSample.snapshot Hn1 Hn2 Hn1 ltac:(vm_compute; reflexivity)
    ltac:(vm_compute; reflexivity) ltac:(vm_compute; reflexivity) ltac:(vm_compute; reflexivity) He) as (_ & _ & _ & _ & _ & _ & Hw & _).
  exact Hw.
Defined.

End Witnesses.
