(* ===== verification/AggregateProps.v ===== *)
(** * Cells of the operational aggregates

    What recording an observation (src/pkg/vault/aggregates.go) does to the table: the
    check constraints hold, no cell is lost or shrinks, a count bucket grows by one at most
    and with the probability [2 ^ -bucket], and an observation that the queue makes of a
    finished job can always be recorded. *)

From S2P Require Import Prelude GoBytes GoTime GoCrypto VaultCrypto Gate8Header Interfaces Sql A9Types A9VaultDb A9Vault Aggregates.
Local Open Scope Z_scope.
Local Open Scope go_scope.

Definition cells_ok (db : VaultDB) : Prop :=
  forall key row, dbAggregates db !! key = Some row -> cell_ok key row = true.

(** One cell is created or grows. *)
Definition cell_grows (row row' : AggregateRow) : Prop :=
  agCountBucket row <= agCountBucket row' <= agCountBucket row + 1 /\
  agLatencyBucket row <= agLatencyBucket row' /\ agExpiresOn row' = agExpiresOn row.

Definition cells_grow (db db' : VaultDB) : Prop :=
  forall key row, dbAggregates db !! key = Some row ->
    exists row', dbAggregates db' !! key = Some row' /\ cell_grows row row'.

(** What recording does to the database as a whole. *)
Definition recorded_db (db db' : VaultDB) : Prop :=
  exists cells, db' = with_Aggregates cells db.

Lemma with_aggregates_self db : db = with_Aggregates (dbAggregates db) db.
Proof. by destruct db. Qed.

Lemma put_cell_some key row db db' : put_cell key row db = Some db' ->
  cell_ok key row = true /\ db' = with_Aggregates (<[key := row]> (dbAggregates db)) db.
Proof. unfold put_cell. destruct (cell_ok key row); [by intros [= <-]|done]. Qed.

Lemma put_cell_ok key row db db' : put_cell key row db = Some db' -> cells_ok db -> cells_ok db'.
Proof.
  intros [Hc ->]%put_cell_some Hok k r. cbn. destruct (decide (k = key)) as [->|Hk].
  - rewrite lookup_insert_eq. by intros [= <-].
  - rewrite lookup_insert_ne by done. apply Hok.
Qed.

Lemma cell_grows_refl row : cell_grows row row.
Proof. unfold cell_grows. lia. Qed.

Lemma put_cell_grows key row db db' :
  (forall old, dbAggregates db !! key = Some old -> cell_grows old row) ->
  put_cell key row db = Some db' -> cells_grow db db'.
Proof.
  intros Hrow [_ ->]%put_cell_some k r Hk. cbn. destruct (decide (k = key)) as [->|Hne].
  - exists row. rewrite lookup_insert_eq. split; [done|]. by apply Hrow.
  - exists r. rewrite lookup_insert_ne by done. split; [done|]. apply cell_grows_refl.
Qed.

(** A recorded observation created its cell or grew it. *)
Lemma record_cases s o now draw st u st' :
  recordOperationalAggregateTx s o now draw st = Ok (u, st') ->
  exists row, put_cell (cell_key o now) row (txDb st) = Some (txDb st') /\
    ((dbAggregates (txDb st) !! cell_key o now = None /\ row = first_cell o now) \/
     (exists old next, dbAggregates (txDb st) !! cell_key o now = Some old /\ row = next_cell o next old /\
        agCountBucket old <= next <= agCountBucket old + 1)).
Proof.
  unfold recordOperationalAggregateTx. cbv zeta.
  intros (x & s1 & [_ ->]%ensure_ok & (inserted & s2 & Hi & Hx)%mapped_ok%tx_bind_ok)%tx_bind_ok.
  apply update_ok in Hi. destruct (dbAggregates (txDb st) !! cell_key o now) as [old|] eqn:Eo.
  - injection Hi as E <-. apply tx_bind_ok in Hx as (current & s3 & [-> E3]%query_ok & Hx). rewrite <- E, Eo in Hx.
    destruct (randomizedAggregatePromotion _ _) as [promote|]; [|done]. apply exec_ok in Hx.
    rewrite E3, <- E in Hx. eexists. split; [exact Hx|]. right.
    exists old, (if promote && (agCountBucket old <? maxCountBucket) then agCountBucket old + 1 else agCountBucket old).
    split; [done|]. split; [done|]. destruct (_ && _); lia.
  - destruct (put_cell _ _ _) as [db1|] eqn:Ep; [|done]. injection Hi as E <-. apply ret_ok in Hx as [_ ->]. rewrite <- E.
    eexists. split; [exact Ep|]. by left.
Qed.

(** ** The promotion draw *)

Lemma filter_all_true {A : Type} (f : A -> bool) l : (forall x, In x l -> f x = true) -> List.filter f l = l.
Proof.
  induction l as [|x l IH]; [done|]. intros Hf. cbn. rewrite (Hf x) by (by left). by rewrite IH; [|intros; apply Hf; right].
Qed.

Lemma filter_all_false {A : Type} (f : A -> bool) l : (forall x, In x l -> f x = false) -> List.filter f l = [].
Proof.
  induction l as [|x l IH]; [done|]. intros Hf. cbn. rewrite (Hf x) by (by left). apply IH. intros; apply Hf; by right.
Qed.

Lemma filter_below k n : 0 <= k <= n -> length (List.filter (fun z => z <? k) (seqZ 0 n)) = Z.to_nat k.
Proof.
  intros Hk. replace n with (k + (n - k)) by lia. rewrite seqZ_app, List.filter_app, length_app by lia.
  rewrite (filter_all_true _ (seqZ 0 k)), (filter_all_false _ (seqZ (0 + k) (n - k))), length_seqZ.
  - simpl. lia.
  - intros z Hz%list_elem_of_In%elem_of_seqZ. apply Z.ltb_ge. lia.
  - intros z Hz%list_elem_of_In%elem_of_seqZ. apply Z.ltb_lt. lia.
Qed.

(** The draws of two bytes, as the numbers they spell. *)
Definition promotes (b z : Z) : bool := bool_decide (randomizedAggregatePromotion b (Some (be 2 z)) = Some true).

Lemma promotes_below b z : 1 <= b < maxCountBucket -> 0 <= z < 65536 -> promotes b z = (z <? 2 ^ (16 - b)).
Proof.
  unfold promotes, randomizedAggregatePromotion, maxCountBucket, read_full. intros Hb Hz.
  replace ((b <? 1) || (7 <? b)) with false by lia. replace (b =? 7) with false by lia.
  assert (Hl : length (be 2 z) = 2%nat) by apply length_be.
  assert (Hd : be_decode (be 2 z) = z) by (rewrite be_decode_be, Z.mod_small; lia).
  generalize dependent (be 2 z). intros raw Hl Hd. cbn [mbind option_bind]. rewrite Hl. cbn [Nat.eqb mbind option_bind].
  rewrite Hd, Z.shiftl_1_l.
  destruct (z <? _); [by apply bool_decide_eq_true_2|by apply bool_decide_eq_false_2].
Qed.

(** An aggregate never holds an exact count: recording an observation keeps the check
    constraints of every cell, loses no cell, raises the count bucket by one at most, never
    lowers a latency bucket and never moves an expiry; it touches nothing but the cells; and
    of the 65536 draws of a promotion from bucket [b < 7] exactly [2 ^ (16 - b)] promote. *)
Theorem aggregate_cells_stay_coarse (s : Store) (o : operationalAggregateObservation) (now : Z)
    (draw : option bytes) (st st' : tx_state VaultDB) (u : ()) :
  recordOperationalAggregateTx s o now draw st = Ok (u, st') ->
  (cells_ok (txDb st) -> cells_ok (txDb st')) /\ cells_grow (txDb st) (txDb st') /\
  recorded_db (txDb st) (txDb st') /\
  (forall b, 1 <= b < maxCountBucket ->
     length (List.filter (promotes b) (seqZ 0 65536)) = Z.to_nat (2 ^ (16 - b))).
Proof.
  intros (row & Hput & Hcases)%record_cases. split; [by eapply put_cell_ok|].
  split; [|split; [by apply put_cell_some in Hput as [_ ->]; eexists|]].
  - eapply put_cell_grows; [|exact Hput]. intros old Hold.
    destruct Hcases as [[Hn ->]|(old' & next & Ho & -> & Hnext)]; simplify_eq.
    unfold cell_grows, next_cell. cbn. lia.
  - intros b Hb. rewrite <- (filter_below _ 65536).
    + f_equal. apply List.filter_ext_in. intros z Hz%list_elem_of_In%elem_of_seqZ. apply promotes_below; lia.
    + split; [apply Z.pow_nonneg; lia|]. change 65536 with (2 ^ 16). apply Z.pow_le_mono_r; lia.
Qed.

(** ** Recording what the queue observes *)

Lemma hour_of_day now : 0 <= now mod day / hour <= 23.
Proof.
  unfold day, hour, minute, second. pose proof (Z.mod_pos_bound now (24 * (60 * (60 * 1000000000)))) as H.
  split; [apply Z.div_pos; lia|]. enough (now mod (24 * (60 * (60 * 1000000000))) / (60 * (60 * 1000000000)) < 24) by lia.
  apply Z.div_lt_upper_bound; lia.
Qed.

(** The dimensions of a finished job, as the constraints allow them. *)
Definition final_dimensions (o : operationalAggregateObservation) : Prop :=
  oaEventName o = aggregateEventDeliveryFinal /\ 0 <= oaTrafficClass o <= 2 /\
  ((1 <= oaTrafficClass o /\ 1 <= oaOutcome o <= 3) \/ 8 <= oaOutcome o <= 9) /\
  (exists size, oaSizeBucket o = Some size /\ 1 <= size <= 3) /\ 0 <= oaLatencyBucket o <= 4.

Lemma fixed_final class outcome size latency :
  fixed_dimensions 3 class outcome size latency =
    within 0 class 2 && ((within 1 class 2 && within 1 outcome 3) || within 8 outcome 9) &&
    match size with Some v => within 1 v 3 | None => false end.
Proof. reflexivity. Qed.

Lemma within_true low v high : within low v high = true <-> low <= v <= high.
Proof. unfold within. rewrite andb_true_iff, !Z.leb_le. done. Qed.

Lemma final_cell_ok o now row :
  final_dimensions o -> 1 <= agCountBucket row <= maxCountBucket -> 0 <= agLatencyBucket row <= 4 ->
  agExpiresOn row <= now / day + 30 -> (exists size, agSizeBucket row = Some size /\ 1 <= size <= 3) ->
  cell_ok (cell_key o now) row = true.
Proof.
  intros (He & Hc & Ho & _ & _) H1 H2 H3 (size & Hs & Hs'). unfold cell_ok, cell_key.
  rewrite He, Hs. unfold aggregateEventDeliveryFinal. rewrite fixed_final.
  rewrite !andb_true_iff, orb_true_iff, andb_true_iff, !within_true, Z.leb_le.
  pose proof (hour_of_day now). unfold maxCountBucket in *. lia.
Qed.

Lemma final_cell_sizes o now row :
  final_dimensions o -> cell_ok (cell_key o now) row = true ->
  1 <= agCountBucket row <= maxCountBucket /\ 0 <= agLatencyBucket row <= 4 /\
  agExpiresOn row <= now / day + 30 /\ exists size, agSizeBucket row = Some size /\ 1 <= size <= 3.
Proof.
  intros (He & _). unfold cell_ok, cell_key. rewrite He. unfold aggregateEventDeliveryFinal. rewrite fixed_final.
  destruct (agSizeBucket row) as [size|]; [|by rewrite !andb_false_r].
  rewrite !andb_true_iff, !within_true, Z.leb_le. intros ((((_ & H1) & H2) & H3) & _ & H4).
  split; [done|]. split; [done|]. split; [done|]. by exists size.
Qed.

Lemma record_final_calm s o now draw db :
  (stEnvironmentID s =? 1) || (stEnvironmentID s =? 2) = true -> validOperationalAggregateObservation o = true ->
  is_zero now = false -> (exists raw, draw = Some raw /\ length raw = 2%nat) -> final_dimensions o -> cells_ok db ->
  exists cells, recordOperationalAggregateTx s o now draw (calm_state db) =
      Ok (tt, calm_state (with_Aggregates cells db)) /\ cells_ok (with_Aggregates cells db).
Proof.
  intros He Hv Hz (raw & -> & Hraw) Hdim Hok. unfold recordOperationalAggregateTx. rewrite He, Hv, Hz. cbn [andb negb].
  rewrite (bind_calm _ _ _ tt (calm_state db)) by done. cbv zeta.
  assert (Hput : forall row, 1 <= agCountBucket row <= maxCountBucket -> 0 <= agLatencyBucket row <= 4 ->
    agExpiresOn row <= now / day + 30 -> (exists size, agSizeBucket row = Some size /\ 1 <= size <= 3) ->
    exists cells, put_cell (cell_key o now) row db = Some (with_Aggregates cells db) /\ cells_ok (with_Aggregates cells db)).
  { intros row H1 H2 H3 H4. assert (Hc : cell_ok (cell_key o now) row = true) by (by apply final_cell_ok).
    exists (<[cell_key o now := row]> (dbAggregates db)).
    assert (Hp : put_cell (cell_key o now) row db = Some (with_Aggregates (<[cell_key o now := row]> (dbAggregates db)) db))
      by (unfold put_cell; by rewrite Hc).
    split; [exact Hp|by eapply put_cell_ok]. }
  pose proof Hdim as (D1 & D2 & D3 & (size & D4 & D4') & D5).
  destruct (dbAggregates db !! cell_key o now) as [row|] eqn:Er.
  - destruct (final_cell_sizes o now row Hdim (Hok _ _ Er)) as (R1 & R2 & R3 & (old & R4 & R4')).
    assert (exists promote, randomizedAggregatePromotion (agCountBucket row) (Some raw) = Some promote) as [promote Hp].
    { unfold randomizedAggregatePromotion.
      replace ((agCountBucket row <? 1) || (maxCountBucket <? agCountBucket row)) with false by lia.
      destruct (agCountBucket row =? maxCountBucket); [by eexists|]. unfold read_full. cbn [mbind option_bind]. rewrite Hraw. cbn. by eexists. }
    set (next := if promote && (agCountBucket row <? maxCountBucket) then agCountBucket row + 1 else agCountBucket row).
    assert (Hnext : 1 <= next <= maxCountBucket).
    { unfold next. destruct promote; cbn [andb]; [destruct (Z.ltb_spec (agCountBucket row) maxCountBucket)|]; lia. }
    destruct (Hput (next_cell o next row)) as (cells & Hc & Hcells); [done|cbn; lia|done| |].
    { cbn. rewrite D4, R4. eexists. split; [done|]. cbn. lia. }
    exists cells. split; [|done]. apply mapped_calm.
    rewrite (bind_calm _ _ _ false (calm_state db)) by (apply update_calm; by rewrite Er).
    rewrite (bind_calm _ _ _ _ _ (query_calm _ db)), Er, Hp. by apply exec_calm.
  - destruct (Hput (first_cell o now)) as (cells & Hc & Hcells); [cbn; unfold maxCountBucket; lia|done|done|by exists size|].
    exists cells. split; [|done]. apply mapped_calm.
    rewrite (bind_calm _ _ _ true (calm_state (with_Aggregates cells db))); [done|].
    apply update_calm. by rewrite Er, Hc.
Qed.
