(* ===== verification/Finalization.v ===== *)
(** * Finalization of delivery markers

    The loop of [finalizeDeliveryMarkers] (src/pkg/vault/delivery_jobs.go): every round it
    takes the oldest markers, and every marker it completes is gone. So the loop ends after
    as many rounds as there are markers, unless other transactions keep adding some, and
    with the database and the random source at hand it leaves no marker behind. *)

From S2P Require Import Prelude GoBytes GoTime GoCrypto A9Trust VaultCrypto Gate8Header Interfaces Sql A9Types A9VaultDb A9Vault A9VaultSpec A9VaultInv A9Current Aggregates DeliveryJob DeliveryQueue DeliveryOps DeliveryAttempt Tombstones RouteKeys DeliveryErase DeliveryInv DeliveryMoves AggregateProps.
From stdpp Require Import sorting.
Local Open Scope Z_scope.
Local Open Scope go_scope.

(** ** Markers *)

Definition final_ids (db : VaultDB) : gset bytes := dom (filter (fun kv => is_final kv.2 = true) (dbJobs db)).

Lemma elem_of_final_ids k db : k ∈ final_ids db <-> exists j, dbJobs db !! k = Some j /\ is_final j = true.
Proof.
  unfold final_ids. rewrite elem_of_dom. split.
  - intros [j [Hj Hf]%map_lookup_filter_Some]. by exists j.
  - intros (j & Hj & Hf). exists j. by apply map_lookup_filter_Some.
Qed.

Lemma final_ids_jobs db db' : dbJobs db' = dbJobs db -> final_ids db' = final_ids db.
Proof. unfold final_ids. by intros ->. Qed.

(** Only markers were removed, and nothing else changed among the jobs. *)
Definition only_markers_removed (db db' : VaultDB) : Prop :=
  forall k, dbJobs db' !! k = dbJobs db !! k \/
    (dbJobs db' !! k = None /\ exists j, dbJobs db !! k = Some j /\ is_final j = true).

#[export] Instance only_markers_removed_preorder : PreOrder only_markers_removed.
Proof.
  split; [by left|]. intros a b c Hab Hbc k. destruct (Hbc k) as [Hk|(Hk & j & Hj & Hf)], (Hab k) as [H|(H & j' & Hj' & Hf')].
  - left. congruence.
  - right. split; [congruence|]. by exists j'.
  - right. split; [done|]. exists j. split; [congruence|done].
  - congruence.
Qed.

Lemma removed_shrinks db db' : only_markers_removed db db' -> final_ids db' ⊆ final_ids db.
Proof.
  intros Hr k (j & Hj & Hf)%elem_of_final_ids. apply elem_of_final_ids.
  destruct (Hr k) as [H|(H & _)]; [|congruence]. exists j. split; [congruence|done].
Qed.

(** ** Transactions that never report exhausted fuel *)

Definition no_fuel {A : Type} (m : vault_tx A) : Prop := forall st, m st <> Err OutOfFuel.

Lemma no_fuel_bind {A B : Type} (m : vault_tx A) (k : A -> vault_tx B) :
  no_fuel m -> (forall a, no_fuel (k a)) -> no_fuel (m ≫= k).
Proof.
  intros Hm Hk st. unfold mbind, tx_bind. specialize (Hm st). destruct (m st) as [[a s1]|e]; [apply Hk|congruence].
Qed.

Lemma no_fuel_unavailable {A : Type} (m : vault_tx A) : no_fuel (unavailable m).
Proof. intros st. unfold unavailable, mapped, to_unavailable. by destruct (m st). Qed.

Lemma no_fuel_ensure c e : e <> OutOfFuel -> no_fuel (ensure c e).
Proof. intros He st. unfold ensure. destruct c; [done|]. unfold fail_with. congruence. Qed.

Section Finalization.
Context `{HP : Postgres, HG : AesGcm, HJ : JobJson, HT : A9TrustSurface}.

(** ** One marker *)

Lemma record_observation_only_cells s o now draw st u st' :
  recordDeliveryObservationTx s o now draw st = Ok (u, st') -> recorded_db (txDb st) (txDb st').
Proof.
  unfold recordDeliveryObservationTx. intros (v & s1 & [_ ->]%ensure_ok & Hx)%tx_bind_ok.
  destruct (observation_of o); [|done]. apply record_cases in Hx as (row & [_ ->]%put_cell_some & _). by eexists.
Qed.

Lemma complete_tx_ok s host draw jobID st b st' :
  completeDeliveryFinalizationTx s host draw jobID st = Ok (b, st') ->
  (b = false /\ txDb st' = txDb st /\ jobID ∉ final_ids (txDb st)) \/
  (b = true /\ jobID ∈ final_ids (txDb st) /\ dbJobs (txDb st') = delete jobID (dbJobs (txDb st))).
Proof.
  unfold completeDeliveryFinalizationTx, unavailable. intros (u & s1 & [_ ->]%ensure_ok & Hx)%tx_bind_ok.
  apply tx_bind_ok in Hx as (row & s2 & [Hrow E]%mapped_ok%query_ok & Hx). unfold find_job in Hrow.
  destruct (dbJobs (txDb st) !! jobID) as [j|] eqn:Ej; cbn in Hrow; [destruct (is_final j) eqn:Ef|]; subst row.
  - destruct (jbTrafficClass j) as [class|]; [|done]. destruct (jbFinalReason j) as [reason|] eqn:Er; [|done].
    destruct (final_observation _ _ _ _ _) as [o|]; [|done].
    apply tx_bind_ok in Hx as (u' & s3 & [cells Hc]%mapped_ok%record_observation_only_cells & Hx).
    apply tx_bind_ok in Hx as (b' & s4 & Hd%mapped_ok%update_ok & Hx). destruct b'; [|done].
    apply ret_ok in Hx as [-> ->]. right. split; [done|]. split; [apply elem_of_final_ids; by exists j|].
    injection Hd as Hd. unfold delete_job in Hd. rewrite Hc, E in Hd. cbn in Hd. rewrite Ej, Ef, Er in Hd.
    rewrite bool_decide_eq_true_2 in Hd by done. by injection Hd as <-.
  - apply ret_ok in Hx as [-> ->]. left. split; [done|]. split; [done|]. rewrite elem_of_final_ids. intros (j0 & Hj0 & Hf0). congruence.
  - apply ret_ok in Hx as [-> ->]. left. split; [done|]. split; [done|]. rewrite elem_of_final_ids. intros (j0 & Hj0 & Hf0). congruence.
Qed.

Lemma complete_tx_no_fuel s host draw jobID : no_fuel (completeDeliveryFinalizationTx s host draw jobID).
Proof.
  unfold completeDeliveryFinalizationTx. apply no_fuel_bind; [by apply no_fuel_ensure|intros _].
  apply no_fuel_bind; [apply no_fuel_unavailable|intros [j|]]; [|by intros st].
  destruct (jbTrafficClass j); [|by intros st]. destruct (jbFinalReason j); [|by intros st].
  destruct (final_observation _ _ _ _ _); [|by intros st].
  apply no_fuel_bind; [apply no_fuel_unavailable|intros _]. apply no_fuel_bind; [apply no_fuel_unavailable|].
  by intros [].
Qed.

Lemma delete_removes jobID db db' :
  jobID ∈ final_ids db -> dbJobs db' = delete jobID (dbJobs db) -> only_markers_removed db db'.
Proof.
  intros (j & Hj & Hf)%elem_of_final_ids Hd k. rewrite Hd. destruct (decide (k = jobID)) as [->|Hk].
  - right. rewrite lookup_delete_eq. split; [done|]. by exists j.
  - left. by rewrite lookup_delete_ne.
Qed.

Section Rounds.
Variable rounds : nat -> Round.

(** Other transactions may do anything but add markers. *)
Definition others_add_no_marker : Prop :=
  forall n db, final_ids (rdOthers (rounds n) db) ⊆ final_ids db.

Lemma transact_error {A : Type} commits body i db st' :
  (forall round, no_fuel (body round)) ->
  @transact_when rounds A commits to_unavailable body (i, db) <> (st', Err OutOfFuel).
Proof.
  intros Hb. unfold transact_when, run_tx_when, to_unavailable. destruct (atBegin _); [congruence|].
  destruct (body _ _) as [[a s1]|e] eqn:E; [|intros [= _ ->]; by apply (Hb _ _ E)].
  destruct (commits a); [|congruence]. destruct (atCommit _) as [[e []]|]; congruence.
Qed.

Lemma complete_shrinks s jobID i db st' r :
  completeDeliveryFinalization rounds s jobID (i, db) = (st', r) ->
  final_ids st'.2 ⊆ final_ids (rdOthers (rounds i) db) /\ r <> Err OutOfFuel /\
  (r = Ok tt -> jobID ∉ final_ids st'.2).
Proof.
  unfold completeDeliveryFinalization. unfold mbind, op_bind.
  destruct (transact_when _ _ _ _ _) as [[i' db'] r'] eqn:Et. intros Hx.
  assert (Hr : r' <> Err OutOfFuel) by (intros ->; by eapply transact_error; [|exact Et]; intros; apply complete_tx_no_fuel).
  unfold transact_when in Et. destruct (run_tx_when _ _ _ _ _) as [db1 r1] eqn:Er. injection Et as <- <- <-.
  assert (Hst : st'.2 = db1 /\ (r = Ok tt -> exists b, r1 = Ok b) /\ r <> Err OutOfFuel)
    by (destruct r1; injection Hx as <- <-; cbn; naive_solver).
  destruct Hst as (-> & Hok & Hfuel). clear Hx.
  apply run_tx_when_cases in Er as [[-> Hcase]|(b & s1 & Hb & -> & Hcommit & Hcase)].
  - split; [done|]. split; [done|]. intros [b ->]%Hok.
    destruct Hcase as [[e [=]]|(b' & s1 & Hb & [= ->] & Hcommit)].
    apply complete_tx_ok in Hb as [(_ & _ & Hn)|(-> & _)]; [done|done].
  - subst b. apply complete_tx_ok in Hb as [([=] & _)|(_ & Hin & Hd)].
    split; [by eapply removed_shrinks, delete_removes|]. split; [done|]. intros _.
    rewrite elem_of_final_ids, Hd, lookup_delete_eq. naive_solver.
Qed.

Hypothesis Hothers : others_add_no_marker.

Lemma each_shrinks s l i db st' r :
  each_op (completeDeliveryFinalization rounds s) l (i, db) = (st', r) ->
  final_ids st'.2 ⊆ final_ids db /\ r <> Err OutOfFuel /\ (r = Ok tt -> forall k, In k l -> k ∉ final_ids st'.2).
Proof.
  revert i db. induction l as [|jobID l IH]; intros i db; cbn [each_op].
  { by intros [= <- <-]. }
  unfold mbind at 1, op_bind at 1. destruct (completeDeliveryFinalization _ _ _ _) as [[i1 db1] [u|e]] eqn:Ec.
  - apply complete_shrinks in Ec as (Hs & _ & Hn). cbn in Hs, Hn. destruct u. specialize (Hn eq_refl).
    intros Hx. destruct (IH _ _ Hx) as (Hs' & Hf & Hn'). pose proof (Hothers i db). split; [set_solver|].
    split; [done|]. intros Hok k [<-|Hk]; [set_solver|by apply Hn'].
  - apply complete_shrinks in Ec as (Hs & Hf & _). intros [= <- <-]. cbn in Hs. pose proof (Hothers i db).
    split; [set_solver|]. split; [congruence|done].
Qed.

(** ** The loop *)

Lemma sorted_jobs_nil key limit rows : limit <> O -> sorted_jobs key limit rows = [] -> rows = [].
Proof.
  destruct (sorted_jobs_sublist key limit rows) as (rows' & Hp & _). intros Hl. unfold sorted_jobs.
  match goal with |- take limit (merge_sort ?R rows) = [] -> _ =>
    pose proof (sorting.merge_sort_Permutation R rows) as Hm; destruct (merge_sort R rows) end.
  - intros _. by apply Permutation_nil_l in Hm.
  - by destruct limit.
Qed.

Lemma oldest_markers_nil db : oldest_markers db = [] -> final_ids db = ∅.
Proof.
  unfold oldest_markers. intros Hn%fmap_nil_inv%sorted_jobs_nil; [|done].
  apply leibniz_equiv, elem_of_equiv_empty. intros k (j & Hj & Hf)%elem_of_final_ids.
  assert (Hin : (k, j) ∈ jobs_where (fun _ => is_final) db) by (by apply jobs_where_elem).
  rewrite Hn in Hin. by apply not_elem_of_nil in Hin.
Qed.

Lemma oldest_markers_final db k : In k (oldest_markers db) -> k ∈ final_ids db.
Proof.
  unfold oldest_markers. intros ([id j] & -> & [Hj Hf]%sorted_jobs_elem%jobs_where_elem)%list_elem_of_In%list_elem_of_fmap.
  apply elem_of_final_ids. by exists j.
Qed.

Lemma find_markers_ok i db st' r :
  transact rounds to_unavailable (fun _ => unavailable (query oldest_markers)) (i, db) = (st', r) ->
  st'.2 = rdOthers (rounds i) db /\ r <> Err OutOfFuel /\ (forall l, r = Ok l -> l = oldest_markers st'.2).
Proof.
  intros Hx. split_and!.
  - unfold transact, transact_when in Hx. destruct (run_tx_when _ _ _ _ _) as [db1 r1] eqn:Er. injection Hx as <- <-.
    apply run_tx_when_cases in Er as [[-> _]|(a & s1 & [_ E]%mapped_ok%query_ok & -> & _)]; done.
  - intros ->. eapply (transact_error _ _ _ _ _); [|exact Hx]. intros. apply no_fuel_unavailable.
  - intros l ->. unfold transact, transact_when in Hx. destruct (run_tx_when _ _ _ _ _) as [db1 r1] eqn:Er.
    injection Hx as <- ->. apply run_tx_when_cases in Er as [[-> [[e [=]]|(a & s1 & _ & _ & [=])]]|
      (a & s1 & [-> E]%mapped_ok%query_ok & -> & _ & [[= ->]|[e [=]]])]. cbn. by rewrite E.
Qed.

Lemma finalize_loop s n i db st' r :
  finalize_markers rounds n s (i, db) = (st', r) ->
  ((size (final_ids db) < n)%nat -> r <> Err OutOfFuel) /\ (r = Ok tt -> final_ids st'.2 = ∅).
Proof.
  revert i db. induction n as [|n IH]; intros i db; cbn [finalize_markers].
  { intros [= <- <-]. split; [lia|done]. }
  unfold mbind at 1, op_bind at 1. destruct (transact _ _ _ _) as [[i1 db1] [l|e]] eqn:Et;
    apply find_markers_ok in Et as (E & Hf & Hl); cbn in E; [|intros [= <- <-]; split; [congruence|done]].
  specialize (Hl _ eq_refl). change (l = oldest_markers db1) in Hl. destruct l as [|k l].
  { intros [= <- <-]. split; [done|]. intros _. by apply oldest_markers_nil. }
  unfold mbind at 1, op_bind at 1. destruct (each_op _ _ _) as [[i2 db2] [u|e]] eqn:Ee;
    apply each_shrinks in Ee as (Hs & Hf' & Hn); cbn in Hs, Hn; [|intros [= <- <-]; split; [congruence|done]].
  intros Hx. destruct (IH _ _ Hx) as [H1 H2]. split; [|done]. intros Hsize. apply H1.
  assert (Hk : k ∈ final_ids db1) by (apply oldest_markers_final; rewrite <- Hl; by left).
  assert (k ∉ final_ids db2) by (destruct u; apply Hn; [done|by left]).
  pose proof (Hothers i db) as Ho. rewrite <- E in Ho.
  assert (size (final_ids db2) < size (final_ids db))%nat; [|lia].
  apply subset_size. split; [set_solver|]. intros Hsub. set_solver.
Qed.

End Rounds.

(** ** Every marker can be counted *)

(** The table as the constraints keep it: identifiers of sixteen bytes, allowed rows and
    allowed cells. *)
Definition queue_tables_ok (db : VaultDB) : Prop :=
  (forall k j, dbJobs db !! k = Some j -> length k = 16%nat) /\ jobs_ok db /\ cells_ok db.

Lemma attempt_bucket_range n : 1 <= deliveryAttemptBucket n <= 3.
Proof. unfold deliveryAttemptBucket. destruct (n =? 1); [done|]. by destruct (n =? 2). Qed.

Lemma lifetime_bucket_range now expiration : 0 <= deliveryRemainingLifetimeBucket now expiration <= 4.
Proof. unfold deliveryRemainingLifetimeBucket. by repeat destruct (_ <=? _). Qed.

(** The observation of a final marker, and that it is valid. *)
Lemma final_observation_valid host class reason attempts expiresAt :
  final_pair class reason ->
  exists o observation, final_observation host class reason attempts expiresAt = Some o /\
    validDeliveryObservation o = true /\ observation_of o = Some observation /\
    validOperationalAggregateObservation observation = true /\ final_dimensions observation.
Proof.
  intros Hp. unfold final_observation, final_dimensions.
  pose proof (attempt_bucket_range (if attempts <? 1 then 1 else attempts)) as Hb.
  pose proof (lifetime_bucket_range host expiresAt) as Hl.
  generalize dependent (deliveryAttemptBucket (if attempts <? 1 then 1 else attempts)). intros bucket Hb.
  generalize dependent (deliveryRemainingLifetimeBucket host expiresAt). intros latency Hl.
  assert (Hc : (reason = 1 \/ reason = 2 \/ reason = 3) /\ (class = 1 \/ class = 2) \/
               (reason = 4 \/ reason = 5) /\ (class = 0 \/ class = 1 \/ class = 2)) by (unfold final_pair in Hp; lia).
  assert (Hb' : bucket = 1 \/ bucket = 2 \/ bucket = 3) by lia.
  assert (Hl' : latency = 0 \/ latency = 1 \/ latency = 2 \/ latency = 3 \/ latency = 4) by lia.
  clear Hp Hb Hl.
  destruct_or?; destruct_and?; destruct_or?; subst; cbn; do 2 eexists; split_and!; try reflexivity; cbn; try lia;
    first [unfold DeliveryOutcomeTerminalRejected, DeliveryOutcomeRetryExhausted, DeliveryOutcomeTTLExpired,
             DeliveryOutcomeSafetyInvalidated, DeliveryOutcomeMaterialInvalid; lia
          |eexists; split; [reflexivity|lia]].
Qed.

(** One transaction without failures on a table without interference. *)
Record quiet_round (jobID : bytes) (round : Round) : Prop := {
  quiet_others : forall db, rdOthers round db = db;
  quiet_database : atBegin (rdAttempt round) = None /\ atStatements (rdAttempt round) = [] /\
    atCommit (rdAttempt round) = None;
  quiet_clock : is_zero (rdJobClock round jobID) = false;
  quiet_draw : exists raw, rdJobDraw round jobID = Some raw /\ length raw = 2%nat;
}.

Lemma complete_tx_calm s host draw jobID j db :
  valid_environment s = true -> is_zero host = false -> (exists raw, draw = Some raw /\ length raw = 2%nat) ->
  length jobID = 16%nat -> dbJobs db !! jobID = Some j -> is_final j = true -> row_ok j -> cells_ok db ->
  exists cells, completeDeliveryFinalizationTx s host draw jobID (calm_state db) =
      Ok (true, calm_state (with_Jobs (delete jobID (dbJobs db)) (with_Aggregates cells db))) /\
    cells_ok (with_Aggregates cells db).
Proof.
  intros He Hz Hdraw Hlen Hj Hf Hok Hcells.
  destruct Hok as [_ _ _ [Hs| Hs|class reason _ _ _ _ _ Hc Hr Hp _]];
    try (apply state_cases in Hs; apply state_cases in Hf; unfold deliveryJobPending, deliveryJobClaimed,
      erasureJobPending, erasureJobClaimed, deliveryJobFinal in *; lia).
  destruct (final_observation_valid host class reason (jbAttempts j) (jbExpiresAt j) Hp)
    as (o & observation & Ho & Hv & Hobs & Hvo & Hdim).
  destruct (record_final_calm s observation host draw db He Hvo Hz Hdraw Hdim Hcells) as (cells & Hrec & Hcells').
  exists cells. split; [|done]. unfold completeDeliveryFinalizationTx, unavailable. rewrite Hlen. cbn [Nat.eqb].
  rewrite (bind_calm _ _ _ tt (calm_state db)) by done.
  rewrite (bind_calm _ _ _ _ _ (mapped_calm _ _ _ _ (query_calm _ db))). unfold find_job. rewrite Hj.
  cbn [mbind option_bind]. rewrite Hf, Hc, Hr, Ho.
  rewrite (bind_calm _ _ _ tt (calm_state (with_Aggregates cells db))).
  2: { apply mapped_calm. unfold recordDeliveryObservationTx. rewrite Hv, Hobs.
       by rewrite (bind_calm _ _ _ tt (calm_state db)). }
  rewrite (bind_calm _ _ _ true (calm_state (with_Jobs (delete jobID (dbJobs db)) (with_Aggregates cells db)))); [done|].
  apply mapped_calm, update_calm. unfold delete_job. cbn [dbJobs with_Aggregates].
  rewrite Hj, Hf, Hr, bool_decide_eq_true_2 by done. done.
Qed.

Section Calm.
Variable rounds : nat -> Round.
Hypothesis Hquiet : forall n jobID, quiet_round jobID (rounds n).

Lemma quiet_transact {A : Type} commits fail (body : Round -> vault_tx A) i db a db' :
  body (rounds i) (calm_state db) = Ok (a, calm_state db') ->
  transact_when rounds commits fail body (i, db) = ((S i, if commits a then db' else db), Ok a).
Proof.
  destruct (Hquiet i []) as [Ho (H1 & H2 & H3) _ _]. intros Hb. unfold transact_when, run_tx_when.
  rewrite Ho, H1, H2, H3. unfold calm_state in Hb. rewrite Hb. cbn. by destruct (commits a).
Qed.

(** One marker is counted and gone, or was not there. *)
Lemma complete_calm s jobID i db :
  valid_environment s = true -> length jobID = 16%nat -> queue_tables_ok db ->
  exists db', completeDeliveryFinalization rounds s jobID (i, db) = ((S i, db'), Ok tt) /\
    queue_tables_ok db' /\ only_markers_removed db db'.
Proof.
  intros He Hlen (Hkeys & Hok & Hcells). destruct (Hquiet i jobID) as [_ _ Hz Hdraw].
  unfold completeDeliveryFinalization. unfold mbind, op_bind.
  destruct (decide (jobID ∈ final_ids db)) as [Hin|Hout].
  - pose proof Hin as (j & Hj & Hf)%elem_of_final_ids.
    destruct (complete_tx_calm s (rdJobClock (rounds i) jobID) (rdJobDraw (rounds i) jobID) jobID j db He Hz Hdraw
      Hlen Hj Hf (Hok _ _ Hj) Hcells) as (cells & Htx & Hcells').
    rewrite (quiet_transact _ _ _ i db true _ Htx). eexists. split; [reflexivity|]. split.
    + split; [intros k j'; cbn; intros [_ Hk]%lookup_delete_Some; by eapply Hkeys|]. split; [|exact Hcells'].
      intros k j'; cbn; intros [_ Hk]%lookup_delete_Some; by eapply Hok.
    + by eapply delete_removes.
  - rewrite (quiet_transact _ _ _ i db false db); [by exists db|].
    unfold completeDeliveryFinalizationTx, unavailable. rewrite Hlen. cbn [Nat.eqb].
    rewrite (bind_calm _ _ _ tt (calm_state db)) by done.
    rewrite (bind_calm _ _ _ None (calm_state db)); [done|]. apply mapped_calm. rewrite query_calm. do 2 f_equal.
    unfold find_job. destruct (dbJobs db !! jobID) as [j|] eqn:Ej; [|done]. cbn.
    destruct (is_final j) eqn:Ef; [|done]. exfalso. apply Hout, elem_of_final_ids. by exists j.
Qed.

Lemma each_calm s l i db :
  valid_environment s = true -> (forall k, In k l -> length k = 16%nat) -> queue_tables_ok db ->
  exists i' db', each_op (completeDeliveryFinalization rounds s) l (i, db) = ((i', db'), Ok tt) /\
    queue_tables_ok db' /\ only_markers_removed db db'.
Proof.
  intros He. revert i db. induction l as [|k l IH]; intros i db Hl Hok; cbn [each_op]; [by exists i, db|].
  destruct (complete_calm s k i db He (Hl k (or_introl eq_refl)) Hok) as (db1 & Hc & Hok1 & Hr1).
  unfold mbind at 1, op_bind at 1. rewrite Hc.
  destruct (IH (S i) db1) as (i' & db' & Hx & Hok' & Hr'); [intros k' Hk; apply Hl; by right|done|].
  exists i', db'. split; [exact Hx|]. split; [done|]. by etrans.
Qed.

Lemma loop_calm s n i db :
  valid_environment s = true -> queue_tables_ok db ->
  exists i' db' r, finalize_markers rounds n s (i, db) = ((i', db'), r) /\ (r = Ok tt \/ r = Err OutOfFuel) /\
    queue_tables_ok db' /\ only_markers_removed db db'.
Proof.
  intros He. revert i db. induction n as [|n IH]; intros i db Hok; cbn [finalize_markers].
  { exists i, db, (Err OutOfFuel). split; [done|]. split; [by right|]. by split. }
  unfold mbind at 1, op_bind at 1. unfold transact.
  rewrite (quiet_transact _ _ _ i db (oldest_markers db) db) by (apply mapped_calm, query_calm).
  destruct (oldest_markers db) as [|k l] eqn:El; [exists (S i), db, (Ok tt); split; [done|]; split; [by left|]; by split|].
  destruct (each_calm s (k :: l) (S i) db He) as (i1 & db1 & Hc & Hok1 & Hr1); [|done|].
  { intros k' Hk. rewrite <- El in Hk. apply oldest_markers_final, elem_of_final_ids in Hk as (j & Hj & _).
    exact (proj1 Hok _ _ Hj). }
  unfold mbind at 1, op_bind at 1. rewrite Hc.
  destruct (IH i1 db1 Hok1) as (i' & db' & r & Hx & Hr & Hok' & Hr'). exists i', db', r.
  split; [exact Hx|]. split; [done|]. split; [done|]. by etrans.
Qed.

End Calm.

(** C27: finalization ends: while other transactions add no markers, the loop of
    [finalizeDeliveryMarkers] stops after at most one round more than there are markers, and
    when it stops without an error, no marker is left. *)
Theorem finalization_terminates (rounds : nat -> Round) (s : Store) (n i : nat) (db : VaultDB)
    (st' : nat * VaultDB) (r : result error ()) :
  others_add_no_marker rounds -> (size (final_ids db) < n)%nat ->
  finalize_markers rounds n s (i, db) = (st', r) ->
  r <> Err OutOfFuel /\ (r = Ok tt -> final_ids st'.2 = ∅).
Proof. intros Ho Hn Hx. destruct (finalize_loop rounds Ho s n i db st' r Hx) as [H1 H2]. by split; [apply H1|]. Qed.

(** C28: no marker is stuck: when the database and the random source serve every request and
    nothing else runs, the loop ends without an error and without markers, having removed
    nothing but markers; so every reason and class a marker can hold is counted. *)
Theorem finalization_completes (rounds : nat -> Round) (s : Store) (n i : nat) (db : VaultDB) :
  (forall m jobID, quiet_round jobID (rounds m)) -> valid_environment s = true -> queue_tables_ok db ->
  (size (final_ids db) < n)%nat ->
  exists i' db', finalize_markers rounds n s (i, db) = ((i', db'), Ok tt) /\
    final_ids db' = ∅ /\ only_markers_removed db db'.
Proof.
  intros Hquiet He Hok Hn. destruct (loop_calm rounds Hquiet s n i db He Hok) as (i' & db' & r & Hx & Hr & _ & Hrem).
  assert (Ho : others_add_no_marker rounds) by (intros m d; by rewrite (quiet_others [] _ (Hquiet m []))).
  destruct (finalize_loop rounds Ho s n i db _ _ Hx) as [H1 H2].
  destruct Hr as [-> | ->]; [|by destruct (H1 Hn)]. exists i', db'. split; [done|]. split; [by apply H2|done].
Qed.

End Finalization.
