(* ===== verification/TombstoneProps.v ===== *)
(** * What a deletion fence guarantees

    Theorems about src/pkg/vault/tombstones.go and about the erasure of a token
    (delivery_jobs.go): a deleted identity cannot come back at or below its fence for eight
    days, and nothing fenced survives a reapplication; a fence that expired but is still
    stored hides a later deletion; and an installation with an A9 route cannot be erased. *)

From S2P Require Import Prelude GoBytes GoTime GoCrypto A9Trust VaultCrypto Gate8Header Interfaces Sql A9Types A9VaultDb A9Vault A9VaultSpec A9VaultInv A9Current Aggregates DeliveryJob DeliveryQueue DeliveryOps DeliveryAttempt Tombstones RouteKeys DeliveryErase DeliveryInv DeliveryMoves.
Local Open Scope Z_scope.
Local Open Scope go_scope.

Section Tombstones.
Context `{HP : Postgres, HG : AesGcm, HJ : JobJson, HT : A9TrustSurface}.

#[local] Abbreviation ts := pg_timestamp.

(** ** The fence *)

(** A deletion: whose, under which fence, and when. *)
Record deletion := { dlKind : Z; dlIdentity : bytes; dlKeyVersion : Z; dlFence : Z; dlNow : Z }.

Definition fence_deletion (s : Store) (d : deletion) : vault_tx () :=
  upsertDeletionTombstone s (dlKind d) (dlIdentity d) (dlKeyVersion d) (dlFence d) (dlNow d).

(** The row of the key fences at least [fence] until [deadline]. *)
Definition fenced_until (key : Z * bytes) (fence deadline : Z) (db : VaultDB) : Prop :=
  exists row, dbDeletions db !! key = Some row /\ fence <= dtFenceEpoch row /\ deadline <= dtExpiresAt row.

Lemma upsert_deletion_ok s kind identity version fence now st u st' :
  upsertDeletionTombstone s kind identity version fence now st = Ok (u, st') ->
  validDeletionTombstoneFence kind fence = true /\
  txDb st' = put_deletion (kind, identity) (new_deletion version fence now) (txDb st).
Proof.
  unfold upsertDeletionTombstone. intros (v & s1 & [Hv ->]%require_ok & [= <-]%mapped_ok%exec_ok)%tx_bind_ok.
  by boolprop.
Qed.

Hypothesis ts_mono : forall a b, a <= b -> ts a <= ts b.

Lemma put_deletion_keeps key fence deadline key' version fence' now db :
  deadline <= ts (now + 8 * day) -> fenced_until key fence deadline db ->
  fenced_until key fence deadline (put_deletion key' (new_deletion version fence' now) db).
Proof.
  intros Hd (row & Hr & Hf & He). unfold fenced_until, put_deletion. cbn.
  destruct (decide (key = key')) as [<-|Hne]; [|exists row; by rewrite lookup_insert_ne].
  rewrite lookup_insert_eq, Hr. eexists. split; [done|]. unfold merge_deletion, new_deletion. cbn.
  split; [lia|]. destruct (_ <=? _); lia.
Qed.

Lemma put_deletion_fences key version fence now db :
  (forall row, dbDeletions db !! key = Some row -> dtFenceEpoch row <= fence \/ ts (now + 8 * day) <= dtExpiresAt row) ->
  fenced_until key fence (ts (now + 8 * day)) (put_deletion key (new_deletion version fence now) db).
Proof.
  intros Hrow. unfold fenced_until, put_deletion. cbn. rewrite lookup_insert_eq. eexists. split; [done|].
  destruct (dbDeletions db !! key) as [row|] eqn:Er; [|cbn; lia]. specialize (Hrow _ eq_refl).
  unfold merge_deletion, new_deletion. cbn. split; [lia|]. destruct (dtFenceEpoch row <=? fence) eqn:E; boolprop; lia.
Qed.

Lemma fence_deletions_keep s key fence now l st u st' :
  (forall d, In d l -> now <= dlNow d) -> each_tx (fence_deletion s) l st = Ok (u, st') ->
  fenced_until key fence (ts (now + 8 * day)) (txDb st) -> fenced_until key fence (ts (now + 8 * day)) (txDb st').
Proof.
  revert st u. induction l as [|d l IH]; intros st u Hl; cbn [each_tx]; [by intros [_ ->]%ret_ok|].
  intros (v & s1 & [_ E]%upsert_deletion_ok & Hx)%tx_bind_ok Hf.
  eapply IH; [intros; apply Hl; by right|exact Hx|]. rewrite E. apply put_deletion_keeps; [|done].
  apply ts_mono. specialize (Hl d (or_introl eq_refl)). lia.
Qed.

Lemma fenced_live key fence deadline t db :
  fenced_until key fence deadline db -> ts t < deadline -> exists f, live_fence key t db = Some f /\ fence <= f.
Proof.
  intros (row & Hr & Hf & He) Ht. unfold live_fence. rewrite Hr. cbn.
  replace (ts t <? dtExpiresAt row) with true by lia. by exists (dtFenceEpoch row).
Qed.

Lemma advance_refused s kind identity proposed t db f :
  valid_environment s = true -> length identity = 32%nat -> validDeletionTombstoneFence kind proposed = true ->
  live_fence (kind, identity) t db = Some f -> validDeletionTombstoneFence kind f = true -> proposed <= f ->
  requireTombstoneAdvance s kind identity proposed t (calm_state db) = Err ErrRefreshConflict.
Proof.
  intros He Hl Hp Hf Hv Hle. unfold requireTombstoneAdvance, store_unavailable. rewrite He, Hl, Hp. cbn [Nat.eqb andb].
  rewrite (bind_calm _ _ _ tt (calm_state db)) by done.
  rewrite (bind_calm _ _ _ _ _ (mapped_calm _ _ _ _ (query_calm _ db))), Hf.
  assert (Hpos : 0 <? f = true).
  { unfold validDeletionTombstoneFence in Hv. destruct (_ =? _) in Hv; [by boolprop; lia|].
    destruct (_ =? _) in Hv; [by boolprop; lia|done]. }
  rewrite Hpos, Hv. rewrite (bind_calm _ _ _ tt (calm_state db)) by done.
  unfold ensure. by replace (proposed <=? f) with true by lia.
Qed.

(** The check constraint on the stored fences. *)
Definition fences_valid (db : VaultDB) : Prop :=
  forall key row, dbDeletions db !! key = Some row -> validDeletionTombstoneFence key.1 (dtFenceEpoch row) = true.

Lemma put_deletion_valid key version fence now db :
  validDeletionTombstoneFence key.1 fence = true -> fences_valid db ->
  fences_valid (put_deletion key (new_deletion version fence now) db).
Proof.
  intros Hv Hok k row. unfold put_deletion. cbn. destruct (decide (k = key)) as [->|Hne].
  - rewrite lookup_insert_eq. intros [= <-]. destruct (dbDeletions db !! key) as [old|] eqn:Eo; [|done].
    cbn. specialize (Hok _ _ Eo). by destruct (Z.max_spec (dtFenceEpoch old) fence) as [[_ ->]|[_ ->]].
  - rewrite lookup_insert_ne by done. apply Hok.
Qed.

Lemma fence_deletion_valid s d st u st' :
  fence_deletion s d st = Ok (u, st') -> fences_valid (txDb st) -> fences_valid (txDb st').
Proof. intros [Hv ->]%upsert_deletion_ok. by apply put_deletion_valid. Qed.

Lemma fence_deletions_valid s l st u st' :
  each_tx (fence_deletion s) l st = Ok (u, st') -> fences_valid (txDb st) -> fences_valid (txDb st').
Proof.
  revert st u. induction l as [|d l IH]; intros st u; cbn [each_tx]; [by intros [_ ->]%ret_ok|].
  intros (v & s1 & H1 & Hx)%tx_bind_ok Hv. eapply IH; [exact Hx|]. by eapply fence_deletion_valid.
Qed.

(** A deletion is not undone for eight days: once the fence of an identity was raised,
    and whatever other deletions are recorded after it, bringing the identity back at or
    below the fence is refused as a conflict. The fence stored before must not be higher and
    about to expire; the next theorem shows why. *)
Theorem deletion_fence_holds (s : Store) (d : deletion) (later : list deletion) (proposed t : Z)
    (st st1 st2 : tx_state VaultDB) (u v : ()) :
  fences_valid (txDb st) ->
  (forall row, dbDeletions (txDb st) !! (dlKind d, dlIdentity d) = Some row ->
     dtFenceEpoch row <= dlFence d \/ ts (dlNow d + 8 * day) <= dtExpiresAt row) ->
  fence_deletion s d st = Ok (u, st1) ->
  (forall d', In d' later -> dlNow d <= dlNow d') -> each_tx (fence_deletion s) later st1 = Ok (v, st2) ->
  ts t < ts (dlNow d + 8 * day) -> 0 < proposed <= dlFence d ->
  requireTombstoneAdvance s (dlKind d) (dlIdentity d) proposed t (calm_state (txDb st2)) = Err ErrRefreshConflict.
Proof.
  intros Hvalid Hrow Hd Hlater Hl Ht Hp.
  pose proof (fence_deletions_valid _ _ _ _ _ Hl (fence_deletion_valid _ _ _ _ _ Hd Hvalid)) as Hv2.
  pose proof Hd as [Hvd E]%upsert_deletion_ok.
  unfold fence_deletion, upsertDeletionTombstone in Hd.
  apply tx_bind_ok in Hd as (x & s1 & [Hargs ->]%require_ok & _). boolprop.
  assert (Hf : fenced_until (dlKind d, dlIdentity d) (dlFence d) (ts (dlNow d + 8 * day)) (txDb st2)).
  { eapply fence_deletions_keep; [exact Hlater|exact Hl|]. rewrite E. by apply put_deletion_fences. }
  destruct (fenced_live _ _ _ _ _ Hf Ht) as (f & Hlive & Hle).
  apply (advance_refused s _ _ _ t _ f); try done; [| |lia].
  - unfold validDeletionTombstoneFence in Hvd |- *. repeat destruct (_ =? _); boolprop; try done; compare_lia; done.
  - unfold live_fence in Hlive. destruct (dbDeletions (txDb st2) !! _) as [row|] eqn:Er; [|done]. cbn in Hlive.
    destruct (_ <? _); [|done]. injection Hlive as <-. by apply (Hv2 _ _ Er).
Qed.

(** C34: a fence that has expired but is still stored hides a later deletion: when the stored
    fence of an identity is higher than the one of the deletion and has expired, recording
    the deletion changes nothing, and the identity may come back at once. *)
Theorem expired_fence_hides_deletion (s : Store) (d : deletion) (row : DeletionRow) (db : VaultDB) (proposed : Z) :
  dbDeletions db !! (dlKind d, dlIdentity d) = Some row ->
  dlFence d < dtFenceEpoch row -> dtExpiresAt row <= ts (dlNow d) ->
  valid_environment s = true -> length (dlIdentity d) = 32%nat -> 0 < dlKeyVersion d <= maxDeletionTombstoneKeyVersion ->
  validDeletionTombstoneFence (dlKind d) (dlFence d) = true ->
  validDeletionTombstoneFence (dlKind d) proposed = true ->
  exists st, fence_deletion s d (calm_state db) = Ok (tt, st) /\
    dbDeletions (txDb st) !! (dlKind d, dlIdentity d) = Some row /\
    requireTombstoneAdvance s (dlKind d) (dlIdentity d) proposed (dlNow d) st = Ok (tt, st).
Proof.
  intros Hr Hf He Henv Hl Hk Hv Hp.
  set (db' := put_deletion (dlKind d, dlIdentity d) (new_deletion (dlKeyVersion d) (dlFence d) (dlNow d)) db).
  assert (Hrow : dbDeletions db' !! (dlKind d, dlIdentity d) = Some row).
  { unfold db', put_deletion. cbn. rewrite lookup_insert_eq, Hr. f_equal. unfold merge_deletion, new_deletion. cbn.
    rewrite Z.max_l by lia. replace (dtFenceEpoch row <=? dlFence d) with false by lia. by destruct row. }
  exists (calm_state db'). split_and!; [|exact Hrow|].
  - unfold fence_deletion, upsertDeletionTombstone. rewrite Henv, Hl, Hv. cbn [Nat.eqb andb].
    replace (dlKeyVersion d =? 0) with false by lia.
    replace (dlKeyVersion d <=? maxDeletionTombstoneKeyVersion) with true by lia. done.
  - unfold requireTombstoneAdvance, store_unavailable. rewrite Henv, Hl, Hp. cbn [Nat.eqb andb].
    rewrite (bind_calm _ _ _ tt (calm_state db')) by done.
    rewrite (bind_calm _ _ _ None (calm_state db')); [done|]. apply mapped_calm. rewrite query_calm.
    do 2 f_equal. unfold live_fence. rewrite Hrow. cbn. by replace (ts (dlNow d) <? dtExpiresAt row) with false by lia.
Qed.

(** ** Reapplying the fences *)

Lemma live_fence_deletions key t db db' : dbDeletions db' = dbDeletions db -> live_fence key t db' = live_fence key t db.
Proof. unfold live_fence. by intros ->. Qed.

Lemma delete_leases_some p db db' :
  delete_leases p db = Some db' ->
  dbLeases db' = filter (fun kv => p kv.1 kv.2 = false) (dbLeases db) /\ dbDeletions db' = dbDeletions db /\
  (forall leaseID route, dbRoutes db !! leaseID = Some route -> gone_lease p db leaseID = false).
Proof.
  unfold delete_leases. destruct (all_rows _ _) eqn:Ea; [|done]. intros [= <-]. split; [done|]. split; [done|].
  rewrite all_rows_true in Ea. intros leaseID route Hr. specialize (Ea _ _ Hr). by apply negb_true_iff in Ea.
Qed.

Lemma delete_installations_some p db db' :
  delete_installations p db = Some db' ->
  dbLeases db' ⊆ dbLeases db /\ dbDeletions db' = dbDeletions db /\
  (forall lookup row, dbInstallations db' !! lookup = Some row -> p row = false).
Proof.
  unfold delete_installations. destruct (delete_leases _ db) as [db1|] eqn:Ed; [|done]. cbn. intros [= <-].
  apply delete_leases_some in Ed as (El & Edl & _). cbn. split; [rewrite El; apply map_filter_subseteq|].
  split; [exact Edl|]. by intros lookup row [_ Hp]%map_lookup_filter_Some.
Qed.

(** Nothing fenced survives a reapplication: when [ReapplyDeletionTombstones] has
    committed, every restored lease has a route key epoch above the live fence of its route,
    and every installation a policy epoch above the live fence of its identity. *)
Theorem reapply_removes_fenced (s : Store) (round : Round) (st st' : tx_state VaultDB) (u : ()) :
  reapply_tx s round st = Ok (u, st') ->
  let now := atHost (rdAttempt round) in
  (forall leaseID lease f, dbLeases (txDb st') !! leaseID = Some lease ->
     live_fence (deletionTargetRoute, lsRouteIdentity lease) now (txDb st') = Some f -> f < lsRouteKeyEpoch lease) /\
  (forall lookup row f, dbInstallations (txDb st') !! lookup = Some row ->
     live_fence (deletionTargetInstallation, inIdentity row) now (txDb st') = Some f -> f < inPolicyEpoch row).
Proof.
  unfold reapply_tx, store_unavailable. cbv zeta. intros (u1 & s1 & _ & (u2 & s2 & _ & (u3 & s3 & _ & Hx)%tx_bind_ok)%tx_bind_ok)%tx_bind_ok.
  apply tx_bind_ok in Hx as (u4 & s4 & Hl%mapped_ok%exec_ok & Hi%mapped_ok%exec_ok).
  apply delete_leases_some in Hl as (El & Ed & _). apply delete_installations_some in Hi as (Hsub & Ed' & Hinst).
  split.
  - intros leaseID lease f Hlease Hf. assert (Hl4 : dbLeases (txDb s4) !! leaseID = Some lease) by (by eapply lookup_weaken).
    rewrite El in Hl4. apply map_lookup_filter_Some in Hl4 as [_ Hp]. cbn in Hp. unfold fenced_lease in Hp.
    rewrite <- (live_fence_deletions _ _ (txDb s3) (txDb st')), Hf in Hp by congruence. boolprop. lia.
  - intros lookup row f Hrow Hf. specialize (Hinst _ _ Hrow). unfold fenced_installation in Hinst.
    rewrite <- (live_fence_deletions _ _ (txDb s4) (txDb st')), Hf in Hinst by congruence. boolprop. lia.
Qed.

(** ** An erasure that a route blocks *)

(** Errors of the erasure's statements. *)
Definition only_error {A : Type} (e : error) (m : vault_tx A) : Prop := forall st e', m st = Err e' -> e' = e.

Lemma only_error_bind {A B : Type} e (m : vault_tx A) (k : A -> vault_tx B) :
  only_error e m -> (forall a, only_error e (k a)) -> only_error e (m ≫= k).
Proof.
  intros Hm Hk st e'. unfold mbind, tx_bind. destruct (m st) as [[a s1]|e1] eqn:E; [apply Hk|].
  intros [= <-]. by apply Hm in E.
Qed.

Lemma only_error_ret {A : Type} e (a : A) : only_error e (mret a : vault_tx A).
Proof. done. Qed.

Lemma only_error_ensure e c : only_error e (ensure c e).
Proof. intros st e'. unfold ensure. destruct c; [done|]. by intros [= <-]. Qed.

Lemma only_error_unavailable {A : Type} (m : vault_tx A) : only_error ErrDeliveryQueueUnavailable (unavailable m).
Proof. intros st e'. unfold unavailable, mapped, to_unavailable. destruct (m st); [done|]. by intros [= <-]. Qed.

Lemma only_error_each {A : Type} e (m : A -> vault_tx ()) l : (forall a, only_error e (m a)) -> only_error e (each_tx m l).
Proof. intros Hm. induction l as [|a l IH]; cbn [each_tx]; [done|]. apply only_error_bind; [apply Hm|done]. Qed.

Create HintDb only.
#[local] Hint Resolve only_error_ret only_error_ensure only_error_unavailable : only.

Lemma only_error_token s lookup encrypted : only_error ErrDeliveryQueueUnavailable (current_token s lookup encrypted).
Proof. intros st e'. unfold current_token. destruct (Open _ _ _); [done|]. by intros [= <-]. Qed.

Lemma only_error_fence s now lease : only_error ErrDeliveryQueueUnavailable (fence_route s now lease).
Proof. unfold fence_route. repeat (apply only_error_bind; [auto with only|intros ?]). auto with only. Qed.

#[local] Hint Resolve only_error_token only_error_fence only_error_each : only.

Lemma only_error_erase s round lookup failedToken :
  only_error ErrDeliveryQueueUnavailable (erase_tx s round lookup failedToken).
Proof.
  unfold erase_tx. cbv zeta. repeat (apply only_error_bind; [auto with only|intros ?]).
  match goal with |- only_error _ (match ?o with _ => _ end) => destruct o as [installation|] end; [|auto with only].
  destruct (_ =? 0)%nat; [auto with only|]. apply only_error_bind; [auto with only|intros token].
  destruct (negb _); [auto with only|]. repeat (apply only_error_bind; [auto with only|intros ?]). auto with only.
Qed.

(** Routes, leases and the stored installation are not touched before the cascade. *)
Definition same_routes (db db' : VaultDB) : Prop := dbRoutes db' = dbRoutes db /\ dbLeases db' = dbLeases db.

#[local] Instance same_routes_preorder : PreOrder same_routes.
Proof. split; [by intros db|]. intros a b c [H1 H2] [H3 H4]. unfold same_routes. split; congruence. Qed.

Lemma same_routes_fence s now lease : moves same_routes (fence_route s now lease).
Proof.
  unfold fence_route, unavailable, retireRouteKeyHistory, upsertDeletionTombstone, store_unavailable, require. split_moves.
  - apply moves_update. intros db db' b [= <- _]. done.
  - apply moves_exec. intros db db' [= <-]. done.
Qed.

Lemma same_routes_each {A : Type} (m : A -> vault_tx ()) l :
  (forall a, moves same_routes (m a)) -> moves same_routes (each_tx m l).
Proof. intros Hm. induction l as [|a l IH]; cbn [each_tx]; split_moves. Qed.

Lemma same_routes_safety host lookup : moves same_routes (markDeliveryJobsSafetyForInstallationTx host lookup []).
Proof.
  unfold markDeliveryJobsSafetyForInstallationTx, unavailable. split_moves. apply moves_exec. by intros db db' [= <-].
Qed.

(** A route of one of the leases stops the erasure of the token. *)
Lemma erase_never s round lookup failedToken leaseID lease route st st' :
  dbLeases (txDb st) !! leaseID = Some lease -> lsInstallationLookup lease = lookup ->
  dbRoutes (txDb st) !! leaseID = Some route -> erase_tx s round lookup failedToken st <> Ok (true, st').
Proof.
  intros Hl Hlk Hr. unfold erase_tx. cbv zeta. intros Hx.
  apply tx_bind_ok in Hx as (u1 & s1 & H1%mapped_ok & Hx).
  assert (E1 : same_routes (txDb st) (txDb s1)).
  { revert H1. assert (Hm : moves same_routes (requireLookupKeyBoundTx s)); [|apply Hm].
    unfold requireLookupKeyBoundTx, require. split_moves. apply moves_exec. intros db db' [= <-]. by destruct (dbKeyBinding db). }
  apply tx_bind_ok in Hx as (found & s2 & [_ E2]%mapped_ok%query_ok & Hx).
  destruct found as [installation|]; [|by apply ret_ok in Hx as [[=] _]].
  destruct (_ =? 0)%nat; [by apply ret_ok in Hx as [[=] _]|].
  apply tx_bind_ok in Hx as (token & s3 & H3 & Hx).
  assert (s3 = s2) as ->
    by (unfold current_token in H3; destruct (Open _ _ _) in H3; [by apply ret_ok in H3 as [_ ->]|done]).
  destruct (negb _); [by apply ret_ok in Hx as [[=] _]|].
  apply tx_bind_ok in Hx as (leases & s4 & [_ E4]%mapped_ok%query_ok & Hx).
  apply tx_bind_ok in Hx as (u5 & s5 & E5%same_routes_each & Hx); [|intros; apply same_routes_fence].
  apply tx_bind_ok in Hx as (u6 & s6 & [= E6]%mapped_ok%exec_ok & Hx).
  apply tx_bind_ok in Hx as (u7 & s7 & E7%mapped_ok%same_routes_safety & Hx).
  apply tx_bind_ok in Hx as (u8 & s8 & (_ & _ & Hgone)%mapped_ok%exec_ok%delete_leases_some & _).
  destruct E1 as [R1 L1], E5 as [R5 L5], E7 as [R7 L7]. rewrite <- E6 in R7, L7. cbn in R7, L7.
  assert (R : dbRoutes (txDb s7) !! leaseID = Some route) by congruence.
  assert (L : dbLeases (txDb s7) !! leaseID = Some lease) by congruence.
  apply Hgone in R. unfold gone_lease in R. rewrite L, Hlk, beq_refl in R. done.
Qed.

Lemma bound_tables_installations s st u st' :
  requireLookupKeyBoundTx s st = Ok (u, st') -> dbInstallations (txDb st') = dbInstallations (txDb st).
Proof.
  unfold requireLookupKeyBoundTx. destruct (RootCommitment _) as [commitment|]; [|by intros (? & ? & [_ ->]%require_ok & [=])%tx_bind_ok].
  intros (u1 & s1 & [_ ->]%require_ok & (u2 & s2 & [= E]%exec_ok & (b & s3 & [_ E3]%query_ok & [_ ->]%require_ok)%tx_bind_ok)%tx_bind_ok)%tx_bind_ok.
  rewrite E3, <- E. by destruct (dbKeyBinding _).
Qed.

(** A stored token that is the failed one is not passed over. *)
Lemma erase_asks s round lookup failedToken installation encrypted st st' :
  dbInstallations (txDb st) !! lookup = Some installation -> inEncryptedToken installation = Some encrypted ->
  encrypted <> [] -> Open (stEncryption s) (installationContext lookup (str "apns-token")) encrypted = Ok failedToken ->
  erase_tx s round lookup failedToken st <> Ok (false, st').
Proof.
  intros Hi He Hne Ho. unfold erase_tx. cbv zeta. intros Hx. apply tx_bind_ok in Hx as (u1 & s1 & H1%mapped_ok & Hx).
  assert (E1 : dbInstallations (txDb s1) = dbInstallations (txDb st)).
  { apply (bound_tables_installations _ _ _ _ H1). }
  apply tx_bind_ok in Hx as (found & s2 & [-> E2]%mapped_ok%query_ok & Hx). rewrite E1, Hi in Hx.
  replace (default [] (inEncryptedToken installation)) with encrypted in Hx by (by rewrite He).
  destruct (Nat.eqb_spec (length encrypted) 0) as [Hz|Hz]; [by destruct encrypted|].
  apply tx_bind_ok in Hx as (token & s3 & H3 & Hx). unfold current_token in H3. rewrite Ho in H3.
  apply ret_ok in H3 as [-> ->]. rewrite beq_refl in Hx. cbn [negb] in Hx.
  repeat (apply tx_bind_ok in Hx as (? & ? & _ & Hx)). by apply ret_ok in Hx as [[=] _].
Qed.

(** C35: a token whose installation has a lease with an A9 route is never erased: the
    deletion of its leases violates the reference of the route, which does not cascade, so
    every erasure of the token fails and changes nothing, for whatever rounds and retries. *)
Theorem erasure_blocked_by_route (rounds : nat -> Round) (fuel : nat) (s : Store)
    (lookup failedDeviceToken failedToken encrypted leaseID : bytes) (installation : InstallationRow)
    (lease : LeaseRow) (route : RouteRow) (i : nat) (db : VaultDB) :
  let db0 := rdOthers (rounds i) db in
  hex_decode failedDeviceToken = Some failedToken -> length lookup = 32%nat -> length failedToken = 32%nat ->
  dbInstallations db0 !! lookup = Some installation -> inEncryptedToken installation = Some encrypted ->
  encrypted <> [] -> Open (stEncryption s) (installationContext lookup (str "apns-token")) encrypted = Ok failedToken ->
  dbLeases db0 !! leaseID = Some lease -> lsInstallationLookup lease = lookup -> dbRoutes db0 !! leaseID = Some route ->
  EraseInvalidAPNSToken rounds fuel s lookup failedDeviceToken (i, db) = ((S i, db0), Err ErrDeliveryQueueUnavailable).
Proof.
  intros db0 Hhex Hl1 Hl2 Hi He Hne Ho Hl Hlk Hr. unfold EraseInvalidAPNSToken. rewrite Hhex, Hl1, Hl2. cbn [Nat.eqb negb orb].
  unfold mbind at 1, op_bind at 1, transact_when, run_tx_when. fold db0.
  destruct (atBegin _); [done|].
  set (st0 := {| txDb := db0; txFaults := atStatements (rdAttempt (rounds i)) |}).
  destruct (erase_tx _ _ _ _ st0) as [[[] st']|e] eqn:Ex.
  - by destruct (erase_never s (rounds i) lookup failedToken leaseID lease route st0 st' Hl Hlk Hr Ex).
  - by destruct (erase_asks s (rounds i) lookup failedToken installation encrypted st0 st' Hi He Hne Ho Ex).
  - by apply only_error_erase in Ex as ->.
Qed.

End Tombstones.
