(* ===== verification/RetentionProps.v ===== *)
(** * What the retention sweep guarantees

    Theorems about src/pkg/vault/retention.go: a sweep that answers left nothing behind that
    had expired when it began, and one that does not answer left retention unsafe or its work
    undone; a lease whose key history expired before a sweep stops every later sweep; and the
    worker's backoff in closed form. *)

From S2P Require Import Prelude GoBytes GoTime GoCrypto VaultCrypto Gate8Header Interfaces Sql A9Types A9VaultDb A9Vault A9VaultSpec Aggregates DeliveryJob DeliveryQueue DeliveryOps Tombstones RouteKeys Refresh Retention Moves Finalization.
Local Open Scope Z_scope.
Local Open Scope go_scope.

(** ** The worker's backoff *)

Lemma initial_retry_positive sw : 0 < initialRetryDelay sw.
Proof.
  unfold initialRetryDelay, defaultRetentionRetryInitial. destruct (swRetryInitial sw <=? 0) eqn:E; boolprop; lia.
Qed.

Lemma maximum_retry_least sw : initialRetryDelay sw <= maximumRetryDelay sw.
Proof. unfold maximumRetryDelay. destruct (swRetryMaximum sw <? initialRetryDelay sw) eqn:E; boolprop; lia. Qed.

Lemma next_retry_doubles current maximum :
  0 < current -> nextRetentionRetry (Z.min maximum current) maximum = Z.min maximum (current * 2).
Proof.
  intros Hc. unfold nextRetentionRetry.
  destruct (maximum <=? Z.min maximum current) eqn:E1; boolprop; cbn [orb]; [lia|].
  rewrite Z.quot_div_nonneg by lia. pose proof (Z.div_mod maximum 2). pose proof (Z.mod_pos_bound maximum 2).
  destruct (maximum / 2 <? Z.min maximum current) eqn:E2; boolprop; lia.
Qed.

(** A turn after which the worker only can try again. *)
Definition failing_turn (sw : RetentionSweeper) (turn : Turn) : Prop :=
  tnWaited turn = true /\ tnCancelled turn = false /\ is_ok (tnSweep turn) = false /\
  sharedHealthyDelay sw (tnHealthNow turn) (tnHealth turn) = None /\
  sharedHealthyDelay sw (tnAfterNow turn) (tnAfter turn) = None.

Fixpoint run_turns (sw : RetentionSweeper) (turns : list Turn) (delays : Z * Z) : option (Z * Z) :=
  match turns with
  | [] => Some delays
  | turn :: turns => delays ← run_turn sw turn delays; run_turns sw turns delays
  end.

Definition retry_after (sw : RetentionSweeper) (failures : nat) : Z :=
  Z.min (maximumRetryDelay sw) (initialRetryDelay sw * 2 ^ Z.of_nat failures).

Lemma failing_turn_backs_off sw turn delays :
  failing_turn sw turn -> run_turn sw turn delays = Some (backed_off sw delays.2).
Proof.
  intros (Hw & Hc & Hs & Hh & Ha). unfold run_turn. rewrite Hw, Hh, Hc, Ha. cbn.
  destruct (tnSweep turn) as [r|[]]; done.
Qed.

Lemma retry_after_S sw n : nextRetentionRetry (retry_after sw n) (maximumRetryDelay sw) = retry_after sw (S n).
Proof.
  unfold retry_after. rewrite next_retry_doubles, Nat2Z.inj_succ, Z.pow_succ_r; [| lia |].
  - f_equal. lia.
  - pose proof (initial_retry_positive sw). pose proof (Z.pow_pos_nonneg 2 (Z.of_nat n)). nia.
Qed.

Lemma run_turns_from sw turns delay n :
  Forall (failing_turn sw) turns -> turns <> [] ->
  run_turns sw turns (delay, retry_after sw n) =
    Some (retry_after sw (n + length turns - 1), retry_after sw (n + length turns)).
Proof.
  intros Hf. revert delay n. induction Hf as [|turn turns Ht Hf IH]; [done|]. intros delay n _.
  cbn [run_turns]. rewrite (failing_turn_backs_off _ _ _ Ht). cbn [mbind option_bind snd].
  unfold backed_off. rewrite retry_after_S. destruct turns as [|turn' turns].
  - cbn. do 2 f_equal; f_equal; lia.
  - rewrite IH by done. cbn [length]. do 2 f_equal; f_equal; lia.
Qed.

(** After k failed turns in a row the worker waits the initial delay times 2^(k-1), at most
    the maximal delay, before it sweeps again: it neither gives up nor spins, and no delay
    overflows. *)
Theorem worker_backs_off (sw : RetentionSweeper) (turns : list Turn) (now : Z) (health : option RetentionHealth)
    (Hfailing : Forall (failing_turn sw) turns) (Hsome : turns <> []) :
  exists next, run_turns sw turns (run_start sw now health) =
    Some (Z.min (maximumRetryDelay sw) (initialRetryDelay sw * 2 ^ (Z.of_nat (length turns) - 1)), next) /\
    0 < initialRetryDelay sw <= maximumRetryDelay sw.
Proof.
  pose proof (initial_retry_positive sw) as Hp. pose proof (maximum_retry_least sw) as Hm.
  assert (E : initialRetryDelay sw = retry_after sw 0) by (unfold retry_after; cbn; lia).
  unfold run_start. eexists. split; [|lia].
  pose proof (run_turns_from sw turns (default 0 (sharedHealthyDelay sw now health)) 0 Hfailing Hsome) as Hr.
  rewrite <-E in Hr. rewrite Hr. do 2 f_equal. unfold retry_after. do 3 f_equal. destruct turns; cbn [length] in *; [done|lia].
Qed.

Section Sweep.
Context `{HP : Postgres, HG : AesGcm, HJ : JobJson, HT : A9TrustSurface}.

#[local] Abbreviation ts := pg_timestamp.

(** ** What a sweep leaves *)

(** The deliveries that wait or are under way have not expired. *)
Definition unexpired (now : Z) (db : VaultDB) : Prop :=
  forall k j, dbJobs db !! k = Some j -> job_live j = true -> ts now < jbExpiresAt j.

(** Nothing that had expired at [now] in the tables of the vault: no aggregate past its days,
    no live delivery past its end (a final marker, which holds no content, may wait for its
    aggregate), no audit row past its day at the database clock of the purge, and no access
    request of half a year before that no audit row refers to. *)
Record clean (now purgedAt : Z) (db : VaultDB) : Prop := {
  clean_jobs : unexpired now db;
  clean_welcome_authorizations : forall k row, dbWelcomeAuthorizations db !! k = Some row -> ts now < waExpiresAt row;
  clean_welcome_budgets : forall k row, dbWelcomeBudgets db !! k = Some row -> ts now < wbExpiresAt row;
  clean_leases : forall k row, dbLeases db !! k = Some row -> ts now < lsExpiresAt row;
  clean_installations : forall k row, dbInstallations db !! k = Some row -> ts now < inExpiresAt row;
  clean_history : forall k row, dbHistory db !! k = Some row -> ts now < rhExpiresAt row;
  clean_dedupes : forall k row, dbDedupes db !! k = Some row -> ts now < ddExpiresAt row;
  clean_deletions : forall k row, dbDeletions db !! k = Some row -> ts now < dtExpiresAt row;
  clean_aggregates : forall k row, dbAggregates db !! k = Some row -> aggregate_expired now k row = false;
  clean_access_audit : forall k row, dbAccessAudit db !! k = Some row -> purgedAt / day < aaExpiresOn row;
  clean_access_requests : forall k row, dbAccessRequests db !! k = Some row -> arCoarseCreatedHour row <= ts now - 180 * day ->
    exists event audit, dbAccessAudit db !! event = Some audit /\ aaRequestID audit = k;
}.

Definition retention_unsafe (db : VaultDB) : Prop :=
  exists row, dbRetention db = Some row /\ rsIsSafe row = false.

Definition retention_completed (completedAt nextDueAt : Z) (safe : bool) (db : VaultDB) : Prop :=
  exists row, dbRetention db = Some row /\ rsIsSafe row = safe /\ rsLastCompletedAt row = Some (ts completedAt) /\
    rsNextDeadlineAt row = Some (ts nextDueAt).

Definition no_overdue_erasure (completedAt : Z) (db : VaultDB) : Prop :=
  forall k j, dbJobs db !! k = Some j -> erasure_live j = true -> ts completedAt < jbCreatedAt j + 15 * minute.

Lemma retention_ok {A : Type} (m : vault_tx A) st x : retention m st = Ok x -> m st = Ok x.
Proof. apply mapped_ok. Qed.

Lemma silently_ok f (st st' : tx_state VaultDB) u : silently f st = Ok (u, st') -> txDb st' = f (txDb st).
Proof. intros H%exec_ok. by injection H. Qed.

Lemma delete_leases_keeps p db db' :
  delete_leases p db = Some db' ->
  dbLeases db' = filter (fun kv => p kv.1 kv.2 = false) (dbLeases db) /\
  dbDedupes db' ⊆ dbDedupes db /\ dbHistory db' = dbHistory db /\ dbInstallations db' = dbInstallations db /\
  dbWelcomeAuthorizations db' ⊆ dbWelcomeAuthorizations db /\ dbWelcomeBudgets db' = dbWelcomeBudgets db /\
  dbJobs db' ⊆ dbJobs db.
Proof.
  unfold delete_leases. destruct (negb _); [done|]. intros [= <-]. cbn. split; [done|].
  split; [apply map_filter_subseteq|]. do 2 (split; [done|]). split; [apply map_filter_subseteq|].
  split; [done|apply map_filter_subseteq].
Qed.

Lemma delete_installations_keeps p db db' :
  delete_installations p db = Some db' ->
  dbInstallations db' = filter (fun kv => p kv.2 = false) (dbInstallations db) /\
  dbLeases db' ⊆ dbLeases db /\ dbDedupes db' ⊆ dbDedupes db /\ dbHistory db' = dbHistory db /\
  dbWelcomeAuthorizations db' ⊆ dbWelcomeAuthorizations db /\ dbWelcomeBudgets db' = dbWelcomeBudgets db /\
  dbJobs db' ⊆ dbJobs db.
Proof.
  unfold delete_installations. intros (db1 & H1 & [= <-])%bind_Some. cbn.
  apply delete_leases_keeps in H1 as (El & Hd & Eh & Ei & Hw & Eb & Hj). rewrite Ei, El. split; [done|].
  split; [apply map_filter_subseteq|]. do 4 (split; [done|]). etrans; [apply map_filter_subseteq|done].
Qed.

(** ** Live deliveries *)

Lemma unexpired_sub now db db' : dbJobs db' ⊆ dbJobs db -> unexpired now db -> unexpired now db'.
Proof. intros Hs H k j Hj. by apply (H k j), (lookup_weaken _ _ _ _ Hj). Qed.

(** An update that only ends deliveries. *)
Lemma unexpired_update now where_ set_ db :
  (forall j, job_live (set_ j) = false) -> unexpired now db -> unexpired now (update_jobs where_ set_ db).
Proof.
  intros Hs H k j. unfold update_jobs. cbn. rewrite map_lookup_imap.
  destruct (dbJobs db !! k) as [j0|] eqn:E; [|done]. cbn. intros [= <-].
  destruct (where_ k j0); [by rewrite Hs|]. by apply (H k).
Qed.

(** The statement that ends every expired delivery. *)
Lemma mark_expired_unexpired now st st' u :
  markExpiredDeliveryJobsTx now st = Ok (u, st') -> unexpired now (txDb st').
Proof.
  unfold markExpiredDeliveryJobsTx, unavailable.
  intros (? & s1 & [_ ->]%ensure_ok & E%mapped_ok%silently_ok)%tx_bind_ok. rewrite E. clear E.
  intros k j. unfold update_jobs. cbn. rewrite map_lookup_imap. destruct (dbJobs _ !! k) as [j0|]; [|done].
  cbn. intros [= <-]. destruct (job_live j0 && (jbExpiresAt j0 <=? ts now)) eqn:E; [done|].
  intros Hl. rewrite Hl in E. cbn [andb] in E. by apply Z.leb_gt.
Qed.

#[local] Abbreviation kept now := (fun db db' => unexpired now db -> unexpired now db').

#[local] Instance kept_preorder now : PreOrder (kept now).
Proof. split; [by intros db|]. intros a b c H1 H2 H. by apply H2, H1. Qed.

Lemma kept_safety_lease now host leaseID : moves (kept now) (markDeliveryJobsSafetyForLeaseTx host leaseID).
Proof.
  unfold markDeliveryJobsSafetyForLeaseTx, unavailable. split_moves. apply moves_silently. intros db.
  by apply unexpired_update.
Qed.

Lemma kept_safety_installation now host lookup except :
  moves (kept now) (markDeliveryJobsSafetyForInstallationTx host lookup except).
Proof.
  unfold markDeliveryJobsSafetyForInstallationTx, unavailable. split_moves. apply moves_silently. intros db.
  by apply unexpired_update.
Qed.

Lemma kept_complete now s host draw jobID : moves (kept now) (completeDeliveryFinalizationTx s host draw jobID).
Proof.
  intros st b st' [(_ & -> & _)|(_ & _ & E)]%complete_tx_ok; [done|]. apply unexpired_sub. rewrite E.
  apply delete_subseteq.
Qed.

#[local] Hint Resolve kept_safety_lease kept_safety_installation kept_complete : moves.

Lemma kept_authority now round at_ : moves (kept now) (markExpiringAuthorityDeliveryJobs round at_).
Proof.
  unfold markExpiringAuthorityDeliveryJobs, retention. split_moves; apply moves_each; try exact _; intros; split_moves.
Qed.

Lemma kept_markers now s round : moves (kept now) (completeDeliveryMarkersTx s round).
Proof. unfold completeDeliveryMarkersTx, unavailable. split_moves. apply moves_each; [exact _|]. intros. split_moves. Qed.

(** ** The deletions *)

(** The tables the deletions thin out, from one of their statements on. *)
Lemma lookup_sub {K V : Type} `{Countable K} (m m' : gmap K V) (p : V -> Prop) :
  m' ⊆ m -> (forall k v, m !! k = Some v -> p v) -> forall k v, m' !! k = Some v -> p v.
Proof. intros Hs Hp k v Hv. by apply (Hp k), (lookup_weaken _ _ _ _ Hv). Qed.

Lemma filter_expired {K V : Type} `{Countable K} (at_ : V -> Z) (t : Z) (m : gmap K V) k v :
  filter (fun kv => (at_ kv.2 <=? t) = false) m !! k = Some v -> t < at_ v.
Proof. intros [_ Hv]%map_lookup_filter_Some. by apply Z.leb_gt. Qed.

Lemma audited_row db request : audited db request = true ->
  exists event audit, dbAccessAudit db !! event = Some audit /\ aaRequestID audit = request.
Proof.
  unfold audited. intros Ha%negb_true_iff. apply not_true_iff_false in Ha. rewrite all_rows_true in Ha.
  apply map_not_Forall in Ha as (event & audit & He & Hn); [|by intros; apply _].
  exists event, audit. split; [done|]. apply not_true_iff_false, negb_false_iff, beq_true in Hn. done.
Qed.

Lemma delete_expired_clean sw round now st st' u :
  delete_expired sw round now st = Ok (u, st') -> unexpired now (txDb st) -> clean now (rdLaterNow round) (txDb st').
Proof.
  unfold delete_expired. intros (? & s1 & E1%retention_ok%silently_ok & Hx)%tx_bind_ok Hu.
  apply tx_bind_ok in Hx as (? & s2 & E2%retention_ok%silently_ok & Hx).
  apply tx_bind_ok in Hx as (? & s3 & E3%retention_ok%silently_ok & Hx).
  apply tx_bind_ok in Hx as (? & s4 & E4%retention_ok%silently_ok & Hx).
  apply tx_bind_ok in Hx as (? & s5 & (El & Hd & Eh & Ei & Hw & Eb & Hj)%retention_ok%exec_ok%delete_leases_keeps & Hx).
  apply tx_bind_ok in Hx as (? & s6 & (Ei' & Hl' & Hd' & Eh' & Hw' & Eb' & Hj')%retention_ok%exec_ok%delete_installations_keeps & Hx).
  apply tx_bind_ok in Hx as (? & s7 & E7%retention_ok%silently_ok & Hx).
  apply tx_bind_ok in Hx as (? & s8 & E8%retention_ok%silently_ok & Hx).
  apply tx_bind_ok in Hx as (? & s9 & [_ ->]%ensure_ok & Hx).
  apply tx_bind_ok in Hx as (? & s10 & E10%retention_ok%silently_ok & E11%retention_ok%silently_ok).
  rewrite E11, E10, E8, E7. rewrite E4, E3, E2, E1 in *.
  split.
  - apply (unexpired_sub now (txDb s6)); [done|]. apply (unexpired_sub now (txDb s5)); [done|].
    by apply (unexpired_sub now (txDb st)); [exact Hj|].
  - apply (lookup_sub _ _ (fun row => ts now < waExpiresAt row) Hw'), (lookup_sub _ _ _ Hw).
    intros k row. apply filter_expired.
  - cbn. rewrite Eb', Eb. intros k row. apply filter_expired.
  - apply (lookup_sub _ _ (fun row => ts now < lsExpiresAt row) Hl'). rewrite El. intros k row.
    apply (filter_expired lsExpiresAt).
  - cbn. rewrite Ei'. intros k row. apply (filter_expired inExpiresAt).
  - cbn. rewrite Eh', Eh. intros k row. apply filter_expired.
  - apply (lookup_sub _ _ (fun row => ts now < ddExpiresAt row) Hd'), (lookup_sub _ _ _ Hd).
    intros k row. apply filter_expired.
  - intros k row. apply filter_expired.
  - intros k row. cbn. by intros [_ Hk]%map_lookup_filter_Some.
  - intros k row. apply (filter_expired aaExpiresOn).
  - intros k row. cbn. intros [_ Hk]%map_lookup_filter_Some Hold. unfold access_request_expired in Hk.
    apply Z.leb_le in Hold. cbn [fst snd] in Hk. rewrite Hold in Hk. cbn [andb] in Hk.
    by apply negb_false_iff, audited_row in Hk.
Qed.

(** What follows the end of the expired deliveries revives none. *)
Lemma delete_expired_rows_clean sw round now st st' u :
  deleteExpiredVaultRows sw round now st = Ok (u, st') -> clean now (rdLaterNow round) (txDb st').
Proof.
  unfold deleteExpiredVaultRows. intros (? & s1 & _ & Hd)%tx_bind_ok.
  apply tx_bind_ok in Hd as (? & s2 & _ & Hd).
  apply tx_bind_ok in Hd as (? & s3 & Hm%retention_ok%mark_expired_unexpired & Hd).
  apply tx_bind_ok in Hd as (? & s4 & Ha & Hd). apply (kept_authority now) in Ha.
  apply tx_bind_ok in Hd as (? & s5 & Hf%retention_ok & Hd). apply (kept_markers now) in Hf.
  apply (delete_expired_clean _ _ _ _ _ _ Hd). by apply Hf, Ha.
Qed.

Lemma update_retention_ok f st st' u :
  update_retention f st = Ok (u, st') ->
  exists row, dbRetention (txDb st) = Some row /\ txDb st' = with_Retention (Some (f row)) (txDb st).
Proof.
  unfold update_retention. intros (b & s1 & [= E <-]%retention_ok%update_ok & [Hb ->]%ensure_ok)%tx_bind_ok.
  rewrite bool_decide_eq_true in Hb. destruct (dbRetention (txDb st)) as [row|]; [|by destruct Hb].
  exists row. split; [done|]. by rewrite <-E.
Qed.

Lemma sweep_tx_ok sw round startedAt st st' o :
  sweep_tx sw round startedAt st = Ok (o, st') ->
  let completedAt := rdLaterHost round in
  clean startedAt (rdLaterNow round) (txDb st') /\
  retention_completed completedAt (completedAt + swInterval sw) (bool_decide (is_Some o)) (txDb st') /\
  match o with
  | Some result => result = {| rrCompletedAt := completedAt; rrNextDueAt := completedAt + swInterval sw |} /\
                   no_overdue_erasure completedAt (txDb st')
  | None => True
  end.
Proof.
  unfold sweep_tx. intros (? & s1 & _ & Hx)%tx_bind_ok. apply tx_bind_ok in Hx as (? & s2 & Hd & Hx).
  apply delete_expired_rows_clean in Hd. apply tx_bind_ok in Hx as (overdue & s3 & [-> E3]%retention_ok%query_ok & Hx).
  apply tx_bind_ok in Hx as (? & s4 & (row & Er & E4)%update_retention_ok & [-> ->]%ret_ok).
  rewrite E4, E3. cbn zeta. split; [by destruct Hd; split|].
  set (overdue := overdue_erasure (rdLaterHost round) (txDb s2)) in *.
  split; [eexists; split; [done|]; by destruct overdue eqn:Eo; cbn; rewrite ?Eo|].
  destruct overdue eqn:Eo; [done|]. split; [done|]. intros k j Hj Hlive. cbn in Hj.
  unfold overdue, overdue_erasure in Eo. apply negb_false_iff in Eo. rewrite all_rows_true in Eo.
  specialize (Eo _ _ Hj). cbn beta in Eo. rewrite Hlive in Eo. cbn [andb] in Eo. boolprop. lia.
Qed.

Lemma start_tx_ok locked round st st' u :
  start_tx locked round st = Ok (u, st') -> locked = true /\ retention_unsafe (txDb st').
Proof.
  unfold start_tx. intros (free & s1 & [-> _]%retention_ok%query_ok & Hx)%tx_bind_ok.
  apply tx_bind_ok in Hx as (? & s2 & [Hf ->]%ensure_ok & (row & _ & E)%update_retention_ok).
  split; [done|]. rewrite E. by eexists.
Qed.

(** What a sweep that does not answer may have done: nothing, only marked retention unsafe,
    or all of its work while the answer was lost. *)
Definition interrupted (startedAt purgedAt : Z) (before db : VaultDB) : Prop :=
  db = before \/ retention_unsafe db \/ clean startedAt purgedAt db.

(** C30: a sweep that answers has removed every row that had expired when it began from the
    tables of leases, installations, key history, dedupes, welcome authorizations, welcome
    budgets, deletion tombstones and aggregates, every audit row past its day and every old
    access request left without one, and has ended every delivery that had expired; it found
    no overdue erasure, and published a safe state with its next deadline. In every other
    case it changed nothing, or retention is unsafe, or its whole work was committed. The
    lock it holds keeps others from marking retention safe meanwhile. *)
Theorem sweep_removes_the_expired (rounds : nat -> Round) (sw : RetentionSweeper) (locked : bool)
    (i : nat) (db db' : VaultDB) (r : result error RetentionResult)
    (Hlock : forall db, retention_unsafe db -> retention_unsafe (rdOthers (rounds (S i)) db))
    (Hsweep : exists i', Sweep rounds sw locked (i, db) = ((i', db'), r)) :
  let startedAt := atHost (rdAttempt (rounds i)) in
  let purgedAt := rdLaterNow (rounds (S i)) in
  match r with
  | Ok result => clean startedAt purgedAt db' /\ no_overdue_erasure (rrCompletedAt result) db' /\
      retention_completed (rrCompletedAt result) (rrNextDueAt result) true db' /\
      rrNextDueAt result = rrCompletedAt result + swInterval sw
  | Err _ => interrupted startedAt purgedAt (rdOthers (rounds i) db) db'
  end.
Proof.
  destruct Hsweep as [i' Hs]. cbn zeta. unfold Sweep, host_clock, peek in Hs.
  unfold mbind, op_bind in Hs. cbn [fst snd] in Hs.
  destruct (transact rounds _ (start_tx locked) (i, db)) as [st1 r1] eqn:E1.
  apply transact_ok in E1 as (Ei & [[Ed [e ->]]|(u & s & Hb & Ed & Hr)]).
  { injection Hs as -> <-. by left. }
  apply start_tx_ok in Hb as [_ Hun]. rewrite <-Ed in Hun. destruct st1 as [j db1]. cbn in Ei, Hun, Ed. subst j.
  destruct Hr as [->|[e ->]]; [|injection Hs as _ -> <-; right; by left].
  destruct (transact rounds _ _ (S i, db1)) as [st2 r2] eqn:E2.
  apply transact_ok in E2 as (_ & [[Ed2 [e ->]]|(o & s2 & Hb2 & Ed2 & Hr2)]).
  { injection Hs as -> <-. right. left. cbn in Ed2. rewrite Ed2. by apply Hlock. }
  apply sweep_tx_ok in Hb2 as (Hc & Hret & Ho). rewrite <-Ed2 in *.
  destruct Hr2 as [->|[e ->]].
  - destruct o as [result|]; cbn in Hs.
    + injection Hs as -> <-. cbn in *. destruct Ho as [-> Ho]. done.
    + unfold op_fail in Hs. injection Hs as -> <-. right. by right.
  - injection Hs as -> <-. right. by right.
Qed.

(** ** A sweep that can no longer complete *)

(** No key of the route has a history that is still live. *)
Definition history_dead (identity : bytes) (now : Z) (db : VaultDB) : Prop :=
  forall epoch row, dbHistory db !! (identity, epoch) = Some row -> rhExpiresAt row <= ts now.

(** An expired lease whose key history has expired too. *)
Definition stuck (now : Z) (db : VaultDB) : Prop := exists leaseID lease,
  dbLeases db !! leaseID = Some lease /\ lease_expired now lease = true /\
  history_dead (lsRouteIdentity lease) now db.

Lemma history_dead_not_live identity epoch now db :
  history_dead identity now db -> history_live identity epoch now db = false.
Proof.
  intros Hd. unfold history_live. destruct (dbHistory db !! (identity, epoch)) as [row|] eqn:E; [|done].
  apply Hd in E. by apply Z.ltb_ge.
Qed.

Lemma extend_other_dead identity other now expiresAt db :
  identity <> other -> history_dead identity now db -> history_dead identity now (extend_history other now expiresAt db).
Proof.
  intros Hne Hd epoch row. cbn. rewrite map_lookup_imap.
  destruct (dbHistory db !! (identity, epoch)) as [r|] eqn:E; cbn; [|done].
  unfold of_route. cbn. destruct (beq identity other) eqn:Eb; [by apply beq_true in Eb|].
  intros [= <-]. by eapply Hd.
Qed.

Lemma tombstone_lease_dead sw now lease identity st st' u :
  tombstone_lease sw now lease st = Ok (u, st') -> history_dead identity now (txDb st) ->
  lsRouteIdentity lease <> identity /\ history_dead identity now (txDb st').
Proof.
  unfold tombstone_lease, retireRouteKeyHistory, upsertDeletionTombstone.
  intros (? & s1 & [_ ->]%require_ok & Hx)%tx_bind_ok Hd.
  apply tx_bind_ok in Hx as (? & s2 & Hr & Hx).
  apply tx_bind_ok in Hr as (? & s3 & [_ ->]%require_ok & Hr).
  apply tx_bind_ok in Hr as (live & s4 & [-> E4]%mapped_ok%query_ok & Hr).
  apply tx_bind_ok in Hr as (? & s5 & [Hl ->]%require_ok & Hr).
  apply tx_bind_ok in Hr as (b & s6 & [= E6 _]%mapped_ok%update_ok & [_ ->]%require_ok).
  apply tx_bind_ok in Hx as (? & s7 & [_ ->]%require_ok & [= E8]%mapped_ok%exec_ok).
  assert (Hne : lsRouteIdentity lease <> identity).
  { intros <-. by rewrite (history_dead_not_live _ _ _ _ Hd) in Hl. }
  split; [done|]. rewrite <-E8, <-E6, E4. by apply extend_other_dead; [congruence|].
Qed.

Lemma tombstone_leases_dead sw now leases lease identity st st' u :
  each_tx (fun lease => retention (tombstone_lease sw now lease)) leases st = Ok (u, st') ->
  lease ∈ leases -> lsRouteIdentity lease = identity -> history_dead identity now (txDb st) -> False.
Proof.
  revert st. induction leases as [|l leases IH]; intros st; [by intros _ ?%elem_of_nil|].
  intros (? & s1 & H1%retention_ok & Hx)%tx_bind_ok Hin Hid Hd.
  apply (tombstone_lease_dead _ _ _ _ _ _ _ H1) in Hd as [Hne Hd].
  apply elem_of_cons in Hin as [->|Hin]; [done|]. by eapply IH.
Qed.

Lemma stuck_never_swept sw round now db faults a st' :
  stuck now db -> sweep_tx sw round now {| txDb := db; txFaults := faults |} <> Ok (a, st').
Proof.
  intros (leaseID & lease & Hl & He & Hd) (? & s1 & H1 & Hx)%tx_bind_ok.
  assert (Hsame : dbLeases (txDb s1) = dbLeases db /\ dbHistory (txDb s1) = dbHistory db).
  { apply retention_ok in H1. unfold requireLookupKeyBoundTx in H1.
    apply tx_bind_ok in H1 as (? & s2 & [_ ->]%require_ok & H1).
    destruct (RootCommitment _); [|done]. apply tx_bind_ok in H1 as (? & s3 & [= E3]%exec_ok & H1).
    apply tx_bind_ok in H1 as (? & s4 & [_ E4]%query_ok & [_ ->]%require_ok).
    rewrite E4, <-E3. cbn. by destruct (dbKeyBinding db). }
  destruct Hsame as [El Eh]. apply tx_bind_ok in Hx as (? & s2 & Hx & _).
  unfold deleteExpiredVaultRows, tombstoneExpiredLeases in Hx. apply tx_bind_ok in Hx as (? & s3 & Ht & _).
  apply tx_bind_ok in Ht as (leases & s4 & [-> E4]%retention_ok%query_ok & Ht).
  eapply (tombstone_leases_dead _ _ _ lease _ _ _ _ Ht); [|done|].
  - rewrite El. apply list_elem_of_fmap. exists (leaseID, lease). split; [done|].
    apply list_elem_of_In, filter_In. split; [|done]. by apply list_elem_of_In, elem_of_map_to_list.
  - intros epoch row. rewrite E4, Eh. apply Hd.
Qed.

(** C36: once the key history of an expired lease has itself expired (eight days after the
    lease, with no completed sweep in between), no sweep ever answers again: every one fails,
    removes nothing, and leaves retention unsafe, which closes registration and routing; the
    lease stays and so does the obstacle. *)
Theorem overdue_sweep_is_stuck (rounds : nat -> Round) (sw : RetentionSweeper) (locked : bool)
    (since : Z) (i : nat) (db db' : VaultDB) (r : result error RetentionResult)
    (ts_mono : forall a b, a <= b -> ts a <= ts b)
    (Hsince : since <= atHost (rdAttempt (rounds i)))
    (Hothers : forall n db, stuck since db -> stuck since (rdOthers (rounds n) db))
    (Hlock : forall db, retention_unsafe db -> retention_unsafe (rdOthers (rounds (S i)) db))
    (Hstuck : stuck since db)
    (Hsweep : exists i', Sweep rounds sw locked (i, db) = ((i', db'), r)) :
  is_ok r = false /\ stuck since db' /\ (db' = rdOthers (rounds i) db \/ retention_unsafe db').
Proof.
  destruct Hsweep as [i' Hs]. unfold Sweep, host_clock, peek in Hs.
  unfold mbind, op_bind in Hs. cbn [fst snd] in Hs.
  destruct (transact rounds _ (start_tx locked) (i, db)) as [st1 r1] eqn:E1.
  apply transact_ok in E1 as (Ei & [[Ed [e ->]]|(u & s & Hb & Ed & Hr)]).
  { injection Hs as -> <-. cbn in Ed. rewrite Ed. split; [done|]. split; [by apply Hothers|by left]. }
  assert (Hst1 : stuck since st1.2).
  { rewrite Ed. unfold start_tx in Hb. apply tx_bind_ok in Hb as (free & s1 & [-> E]%retention_ok%query_ok & Hx).
    apply tx_bind_ok in Hx as (? & s2 & [_ ->]%ensure_ok & (row & _ & E')%update_retention_ok).
    rewrite E', E. apply (Hothers i) in Hstuck as (k & l & Hl & He & Hd). exists k, l. done. }
  apply start_tx_ok in Hb as [_ Hun]. rewrite <-Ed in Hun. destruct st1 as [j db1]. cbn in Ei, Hun, Ed, Hst1. subst j.
  destruct Hr as [->|[e ->]]; [|injection Hs as _ -> <-; split; [done|]; split; [done|by right]].
  destruct (transact rounds _ _ (S i, db1)) as [st2 r2] eqn:E2.
  apply transact_ok in E2 as (_ & [[Ed2 [e ->]]|(o & s2 & Hb2 & _)]).
  { injection Hs as -> <-. cbn in Ed2. rewrite Ed2. split; [done|].
    split; [by apply Hothers|right; by apply Hlock]. }
  exfalso. refine (stuck_never_swept _ _ _ _ _ _ _ _ Hb2).
  apply (Hothers (S i)) in Hst1 as (k & l & Hl & He & Hd). specialize (ts_mono _ _ Hsince).
  exists k, l. unfold lease_expired in *. split; [done|]. split; [boolprop; apply Z.leb_le; lia|].
  intros epoch row Hrow. apply Hd in Hrow. lia.
Qed.

End Sweep.
