(* ===== verification/NonceProps.v ===== *)
(** * No delivery nonce is given twice

    A delivery is sealed under a route key with a nonce made of the lease's prefix and the
    delivery sequence. The transactions of the vault as steps on the database and the log of
    the nonces they answered with: while the key history of a key is kept, no sequence of the
    key is given again, whatever refreshes, revocations, erasures, sweeps and routings run. *)

From S2P Require Import Prelude ReplaceRequest A9Replace GoBytes GoTime GoCrypto A9Trust VaultCrypto Gate8Header Topics Interfaces Authority Sql A9Types A9VaultDb A9Vault A9VaultSpec A9Current Aggregates DeliveryJob DeliveryQueue DeliveryOps DeliveryAttempt Tombstones RouteKeys DeliveryErase Refresh Policy Routing Retention Moves Lineage LineageMoves LineageRefresh LineageRoutes LineageReplace.
Local Open Scope Z_scope.
Local Open Scope go_scope.

Section Nonces.
Context `{HP : Postgres, HG : AesGcm, HGL : !AesGcmLaws, HVJ : VaultJson, HX : XmtpTopic, HTP : !TopicParser,
          HE : Ed25519, HJ : JobJson, HT : A9TrustSurface, HGJ : Gate6Json}.
Variable s : Store.

(** The pairs of an installation and a topic that occur. *)
Variable used : bytes -> bytes -> Prop.

#[local] Abbreviation ts := pg_timestamp.
#[local] Abbreviation lineage := (lineage s used).

(** A transaction that hands out no nonce. *)
Definition silent {A : Type} (m : vault_tx A) : vault_tx (list Subscription) := m ;; mret [].

(** What a refresh draws: identifiers not in use, another for each topic. *)
Record refresh_draws (draws : LeaseDraws) (installationID : bytes) (topics : list bytes) (db : VaultDB) : Prop := {
  dr_visits : forall l, ldVisit draws l ≡ₚ l;
  dr_used : forall topic, topic ∈ topics -> used installationID topic;
  dr_unused : forall topic, topic ∈ topics -> unused draws topic db;
  dr_apart : drawn_apart draws topics;
}.

(** The transactions of the vault, with the clock by which each removes history rows. *)
Inductive transaction (db : VaultDB) : option Z -> vault_tx (list Subscription) -> Prop :=
| tx_control event att : transaction db None (silent (applyA9ControlOnce s event att))
| tx_watermark watermark att : transaction db None (silent (applyA9WatermarkOnce s watermark att))
| tx_retention host : transaction db None (silent (requireRetentionSafeTx s host))
| tx_bound : transaction db None (silent (requireLookupKeyBoundTx s))
| tx_aggregate o now draw : transaction db None (silent (recordOperationalAggregateTx s o now draw))
| tx_observation o now draw : transaction db None (silent (recordDeliveryObservationTx s o now draw))
| tx_enqueue round trust leaseID jobID job source maxQueued now :
    transaction db None (silent (enqueue_tx s round trust leaseID jobID job source maxQueued now))
| tx_recover round : transaction db None (silent (recover_tx s round))
| tx_claim round limit claimTTL : transaction db None (silent (claim_tx s round limit claimTTL))
| tx_attempt round trust job expectation now e :
    transaction db None (silent (attempt_tx s round trust job expectation now e))
| tx_update_job jobID where_ set_ : transaction db None (silent (unavailable (affecting (update_job jobID where_ set_))))
| tx_delete_job jobID where_ : transaction db None (silent (unavailable (affecting (delete_job jobID where_))))
| tx_release round jobID : transaction db None (silent (release_tx s round jobID))
| tx_mark host jobID reason : transaction db None (silent (markDeliveryJobFinalTx s host jobID reason))
| tx_complete host draw jobID : transaction db None (silent (completeDeliveryFinalizationTx s host draw jobID))
| tx_recover_erasures round : transaction db None (silent (recover_erasures_tx s round))
| tx_claim_erasures round limit claimTTL : transaction db None (silent (claim_erasures_tx s round limit claimTTL))
| tx_reschedule_erasure round jobID availableAt :
    transaction db None (silent (reschedule_erasure_tx s round jobID availableAt))
| tx_convert round jobID device token class availableAt :
    transaction db None (silent (convert_tx s round jobID device token class availableAt))
| tx_erase round lookup token :
    transaction db (Some (atHost (rdAttempt round))) (silent (erase_tx s round lookup token))
| tx_reapply round : transaction db None (silent (reapply_tx s round))
| tx_policy round control digest now expiresAt :
    transaction db (Some now) (silent (policy_tx s round control digest now expiresAt))
| tx_sweep_start locked round : transaction db None (silent (start_tx locked round))
| tx_sweep sw round startedAt : transaction db (Some startedAt) (silent (sweep_tx sw round startedAt))
| tx_refresh round draws request normalized digest now :
    validateRefresh s request now = Some normalized ->
    refresh_draws draws (rfInstallationID request) (nmTopic <$> normalized) db ->
    transaction db (Some now) (silent (refresh_tx s round draws request normalized digest now))
| tx_replace draws request receipt refresh att :
    (forall normalized, validateRefresh s refresh (atNow att) = Some normalized ->
       refresh_draws (rpLeases draws) (rfInstallationID refresh) (nmTopic <$> normalized) db) ->
    transaction db (Some (atNow att)) (silent (replaceA9Once s draws request receipt refresh att))
| tx_routes draws topic period host now :
    (forall l, rtVisit draws l ≡ₚ l) -> transaction db None (subscriptions_tx s draws topic period host now)
| tx_current_routes round draws topic period now sequence hash lease lookups :
    transaction db None (current_subscriptions_tx s round draws topic period now sequence hash lease lookups)
| tx_installations gaps now leaseIDs : transaction db None (silent (installations_tx s gaps now leaseIDs)).

(** ** Steps *)

(** Sweeps run in time: the history of a stored lease outlives it by days, and no
    transaction finds it past its time. *)
Definition on_time (clock : option Z) (db : VaultDB) : Prop :=
  forall id lease row t, clock = Some t -> dbLeases db !! id = Some lease ->
    dbHistory db !! (lsRouteIdentity lease, lsRouteKeyEpoch lease) = Some row -> ts t < rhExpiresAt row.

(** The history of the key is not past its time. *)
Definition key_live (t : Z) (db : VaultDB) (key : bytes) : bool :=
  match routeKeyCommitment s key with
  | Some commitment =>
      negb (all_rows (fun _ row => negb (beq (rhCommitment row) commitment && (ts t <? rhExpiresAt row))) (dbHistory db))
  | None => false
  end.

(** The nonces of keys whose history has to be kept. *)
Definition remembered (clock : option Z) (db : VaultDB) (log : list issue) : list issue :=
  match clock with
  | Some t => filter (fun i => key_live t db (isKey i) = true) log
  | None => log
  end.

(** One committed transaction, whichever statements fail: the log forgets the keys whose
    history is past its time and grows by the nonces of the answer. *)
Inductive vault_step : VaultDB * list issue -> VaultDB * list issue -> Prop :=
| vault_step_commit db log clock body faults subs st' :
    transaction db clock body -> on_time clock db ->
    body {| txDb := db; txFaults := faults |} = Ok (subs, st') ->
    vault_step (db, log) (txDb st', remembered clock db log ++ issued_all subs).

(** ** The lineage through a step *)

Lemma lineage_forgets log log' db : log' `sublist_of` log -> lineage log db -> lineage log' db.
Proof.
  intros Hs H. assert (Hin : forall i, i ∈ log' -> i ∈ log) by (intros i; by apply (sublist_subseteq _ _ Hs)).
  split.
  - intros id lease E. destruct (ln_leases _ _ _ _ H _ _ E) as [Hi Hr (key & nonce & Hk & Hn & Hc & Hlog) Hl].
    split; [done|done| |done]. exists key, nonce. split; [done|]. split; [done|]. split; [done|]. auto.
  - apply (ln_single _ _ _ _ H).
  - apply (ln_identities _ _ _ _ H).
  - apply (ln_unique _ _ _ _ H).
  - intros i Hi. by apply (ln_log _ _ _ _ H), Hin.
  - eapply sublist_NoDup; [apply (ln_once _ _ _ _ H)|by apply fmap_sublist].
Qed.

Lemma remembered_sublist clock db log : remembered clock db log `sublist_of` log.
Proof. destruct clock; [apply sublist_filter|done]. Qed.

Lemma remembered_good clock db log :
  lineage log db -> on_time clock db -> good s used clock (remembered clock db log) db.
Proof.
  intros H Hot. split; [by apply (lineage_forgets log), H; apply remembered_sublist|].
  intros k row t E [(id & lease & El & ->)|(i & Hi & Hc)] ->; [by eapply Hot|].
  apply list_elem_of_filter in Hi as [Hlive _]. unfold key_live in Hlive. rewrite Hc in Hlive.
  apply negb_true_iff in Hlive. destruct (decide (ts t < rhExpiresAt row)) as [|Hdead]; [done|exfalso].
  apply not_true_iff_false in Hlive. apply Hlive. rewrite all_rows_true. intros k' row' E'.
  destruct (decide (rhCommitment row' = rhCommitment row)) as [Ec|Hne].
  - pose proof (ln_unique _ _ _ _ H _ _ _ _ E' E Ec) as ->. rewrite E in E'. injection E' as <-.
    rewrite beq_refl. cbn. by apply negb_true_iff, Z.ltb_nlt.
  - apply beq_false in Hne. by rewrite Hne.
Qed.

Hypothesis version_range : 0 <= krActiveVersion (stEncryption s) < 2 ^ 32.
Hypothesis ttl_range : 0 <= stLeaseTTL s.
Hypothesis ts_mono : forall a b, a <= b -> ts a <= ts b.
Hypothesis ts_later : forall t, ts t < ts (t + 8 * day).
Hypothesis routes_differ : forall id topic id' topic' identity,
  used id topic -> used id' topic' -> routeHistoryIdentity s id topic = Some identity ->
  routeHistoryIdentity s id' topic' = Some identity -> id = id' /\ topic = topic'.

Lemma silent_ok {A : Type} log (m : vault_tx A) subs st st' :
  silent m st = Ok (subs, st') -> log ++ issued_all subs = log /\ exists a, m st = Ok (a, st').
Proof.
  unfold silent. intros (a & s1 & Ha & [-> ->]%ret_ok)%tx_bind_ok. unfold issued_all. cbn. rewrite app_nil_r. eauto.
Qed.

Lemma silent_keeps {A : Type} clock log (m : vault_tx A) subs st st' :
  moves (keeps_good s used clock log) m -> silent m st = Ok (subs, st') -> good s used clock log (txDb st) ->
  lineage (log ++ issued_all subs) (txDb st').
Proof. intros Hm [-> [a Ha]]%(silent_ok log) Hg. apply (Hm _ _ _ Ha Hg). Qed.

Lemma silent_quiet {A : Type} clock log (m : vault_tx A) subs st st' :
  moves elsewhere m -> silent m st = Ok (subs, st') -> good s used clock log (txDb st) ->
  lineage (log ++ issued_all subs) (txDb st').
Proof. intros Hm. apply silent_keeps, keeps_quiet, Hm. Qed.

(** The topics of a validated refresh are distinct. *)
Lemma validated_topics request now seen subs normalized :
  validate_subscriptions s request now seen subs = Some normalized ->
  NoDup (nmTopic <$> normalized) /\ forall topic, topic ∈ (nmTopic <$> normalized) -> topic ∉ seen.
Proof.
  revert seen normalized. induction subs as [|sub subs IH]; intros seen normalized; cbn [validate_subscriptions].
  { intros [= <-]. split; [constructor|]. by intros topic ?%elem_of_nil. }
  destruct (bool_decide (sfTopic sub ∈ seen)) eqn:Es; [done|]. boolprop.
  intros (n & Hn & (rest & Hrest & [= <-])%bind_Some)%bind_Some. apply IH in Hrest as [Hd Hnot].
  assert (Et : nmTopic n = sfTopic sub).
  { unfold validate_subscription in Hn. apply bind_Some in Hn as (parsed & _ & Hn).
    repeat (case_match; [done|]). apply bind_Some in Hn as (? & _ & Hn). apply bind_Some in Hn as (? & _ & Hn).
    by injection Hn as <-. }
  cbn. rewrite Et. split.
  - constructor; [|done]. intros Hin. apply Hnot in Hin. apply Hin. left.
  - intros topic [->|Hin]%elem_of_cons; [done|]. apply Hnot in Hin. by apply not_elem_of_cons in Hin as [_ Hin].
Qed.

Lemma validated_distinct request now normalized :
  validateRefresh s request now = Some normalized -> NoDup (nmTopic <$> normalized).
Proof.
  unfold validateRefresh. destruct (rfSubscriptions request); [|done].
  repeat (case_match; [done|]). intros Hv. by apply validated_topics in Hv as [Hv _].
Qed.

Lemma draws_input draws request now normalized db :
  validateRefresh s request now = Some normalized ->
  refresh_draws draws (rfInstallationID request) (nmTopic <$> normalized) db ->
  refresh_input used draws (rfInstallationID request) (nmTopic <$> normalized) db.
Proof.
  intros Hn [Hv Hu Hf Ha]. split; [done|by eapply validated_distinct| |done].
  intros topic Hin. split; [by apply Hu|by apply Hf].
Qed.

Lemma quiet_start locked round : moves elsewhere (start_tx locked round).
Proof. unfold start_tx, update_retention, retention. split_moves. by apply moves_affecting. Qed.

Lemma quiet_installations gaps now leaseIDs : moves elsewhere (installations_tx s gaps now leaseIDs).
Proof.
  induction leaseIDs as [|opaque leaseIDs IH]; cbn [installations_tx]; unfold store_unavailable, opened; split_moves;
    apply (moves_require elsewhere).
Qed.

Lemma quiet_update_job jobID where_ set_ : moves elsewhere (unavailable (affecting (update_job jobID where_ set_))).
Proof. unfold unavailable. apply moves_mapped, moves_affecting. intros db. apply update_job_elsewhere. Qed.

Lemma quiet_delete_job jobID where_ : moves elsewhere (unavailable (affecting (delete_job jobID where_))).
Proof. unfold unavailable. apply moves_mapped, moves_affecting. intros db. apply delete_job_elsewhere. Qed.

#[local] Hint Resolve quiet_control quiet_watermark quiet_retention quiet_bound quiet_aggregate quiet_observation
  quiet_enqueue quiet_recover quiet_claim quiet_release quiet_mark quiet_complete quiet_recover_erasures
  quiet_claim_erasures quiet_reschedule_erasure quiet_start quiet_installations quiet_update_job
  quiet_delete_job : quiet.

#[local] Hint Resolve keeps_attempt keeps_convert keeps_erase keeps_reapply keeps_policy keeps_sweep : quiet.

Lemma transaction_keeps clock body db log faults subs st' :
  transaction db clock body -> good s used clock log db ->
  body {| txDb := db; txFaults := faults |} = Ok (subs, st') -> lineage (log ++ issued_all subs) (txDb st').
Proof.
  intros Ht Hg Hb. destruct Ht;
    try solve [refine (silent_quiet _ _ _ _ _ _ _ Hb Hg); auto with quiet |
               refine (silent_keeps _ _ _ _ _ _ _ Hb Hg); auto with quiet].
  - apply (silent_ok log) in Hb as [-> [answer Hr]].
    refine (proj1 (refresh_ok s used log version_range ts_mono ts_later routes_differ _ _ _ _ _ _ _ _ _ Hr _ ttl_range Hg)).
    by eapply draws_input.
  - apply (silent_ok log) in Hb as [-> [answer Hr]].
    refine (proj1 (replace_keeps s used log _ _ _ _ _ _ _ _ version_range ts_mono ts_later routes_differ ttl_range Hr _ Hg)).
    intros normalized Hn. eapply draws_input; [exact Hn|auto].
  - eapply subscriptions_ok; [done|exact Hb|done|apply Hg].
  - eapply current_subscriptions_ok; [done|exact Hb|apply Hg].
Qed.

(** *** Runs *)

Lemma vault_step_keeps before after :
  vault_step before after -> lineage before.2 before.1 -> lineage after.2 after.1.
Proof.
  intros [db log clock body faults subs st' Ht Hot Hb] H. cbn in *.
  eapply transaction_keeps; [exact Ht| |exact Hb]. by apply remembered_good.
Qed.

Lemma vault_run_keeps before after :
  rtc vault_step before after -> lineage before.2 before.1 -> lineage after.2 after.1.
Proof. induction 1; [done|]. intros H'. apply IHrtc. by eapply vault_step_keeps. Qed.

(** C1: over any run of the vault's transactions (refreshes, policy changes, revocations,
    A9 replacements, erasures, sweeps, restores, queue and control traffic, and routings with and
    without A9),
    in any order and with any failing statements, no delivery sequence is handed out twice
    under one route key, as long as the key's history is kept; leases and history rows stay
    consistent, so that two leases never share a key. *)
Theorem nonces_are_never_reused (db db' : VaultDB) (log : list issue)
    (Hfresh : dbLeases db = ∅ /\ dbInstallations db = ∅ /\ dbHistory db = ∅)
    (Hrun : rtc vault_step (db, []) (db', log)) :
  NoDup ((fun i => (isKey i, isSequence i)) <$> log) /\
  (forall id id' lease lease' key, dbLeases db' !! id = Some lease -> dbLeases db' !! id' = Some lease' ->
     lease_key s id lease = Some key -> lease_key s id' lease' = Some key -> id = id') /\
  (forall id lease key nonce i, dbLeases db' !! id = Some lease -> lease_key s id lease = Some key ->
     lease_nonce s id lease = Some nonce -> i ∈ log -> isKey i = key -> isSequence i < nsNextSequence nonce).
Proof.
  destruct Hfresh as (El & Ei & Eh). apply vault_run_keeps in Hrun; cbn in *.
  - split; [apply (ln_once _ _ _ _ Hrun)|]. split.
    + intros id id' lease lease' key E E' Hk Hk'. by eapply key_has_one_lease.
    + intros id lease key nonce i E Hk Hn Hi Ekey. destruct (sl_ahead _ _ _ _ _ _ (ln_leases _ _ _ _ Hrun _ _ E))
        as (k & n & Hk' & Hn' & _ & Hlog). rewrite Hk in Hk'. injection Hk' as <-. rewrite Hn in Hn'.
      injection Hn' as <-. by apply Hlog.
  - split; rewrite ?El, ?Ei, ?Eh; try (intros *; rewrite !lookup_empty; done); [|constructor].
    by intros i ?%elem_of_nil.
Qed.

End Nonces.
