(* ===== verification/ReplaceProps.v ===== *)
(** * Properties of the replacement of routes

    A committed replacement attempt keeps the vault's invariant; an APPLIED one was admitted
    by authority, watermark and bindings, and leaves exactly the requested routes, each of them
    as [a9_current.go] asks for; any other answer changes no route, lease, installation or job. *)

From S2P Require Import Prelude GoBytes GoTime GoCrypto A9Trust VaultCrypto Gate8Header Topics Interfaces Authority Sql A9Types A9VaultDb A9Vault A9VaultSpec A9VaultInv A9Current A9VaultProps Aggregates DeliveryJob DeliveryQueue DeliveryOps DeliveryAttempt Tombstones RouteKeys DeliveryErase Refresh Policy Routing Retention ReplaceRequest A9Replace Moves ReplaceMoves Lineage LineageMoves LineageRefresh.
Local Open Scope Z_scope.
Local Open Scope go_scope.

(** ** The invariant through a replacement *)

Section Tables.

Lemma routes_supported_same db db' :
  dbBindings db' = dbBindings db -> dbRoutes db' ⊆ dbRoutes db ->
  routes_supported db = true -> routes_supported db' = true.
Proof.
  intros Eb Hr. unfold routes_supported. rewrite !all_rows_true. intros H k row E.
  specialize (H k row ltac:(by eapply lookup_weaken)). unfold route_supported in *. by rewrite Eb.
Qed.

Lemma jobs_supported_keep db db' :
  dbRoutes db ⊆ dbRoutes db' -> jobs_keep (dbJobs db) (dbJobs db') ->
  jobs_supported db = true -> jobs_supported db' = true.
Proof.
  intros Hr Hj. unfold jobs_supported. rewrite !all_rows_true. intros H k j' E.
  destruct (Hj _ _ E) as (j & Ej & Hk). specialize (H k j Ej). unfold job_supported in *.
  destruct Hk as [->|(-> & -> & _)]; [done|]. destruct (jbA9 j) as [c|], (jbLeaseID j) as [lease|]; try done.
  destruct (dbRoutes db !! lease) as [row|] eqn:El; [|done]. by rewrite (lookup_weaken _ _ _ _ El Hr).
Qed.

Lemma jobs_live_keep jobs jobs' :
  jobs_keep jobs jobs' -> (forall k j, jobs !! k = Some j -> is_Some (jbA9 j) -> job_live j = true) ->
  forall k j, jobs' !! k = Some j -> is_Some (jbA9 j) -> job_live j = true.
Proof.
  intros Hj H k j' E Ha. destruct (Hj _ _ E) as (j & Ej & [Hn|(Ea & _ & Es)]); [rewrite Hn in Ha; by destruct Ha|].
  unfold job_live. rewrite Es. apply (H _ _ Ej). by rewrite <-Ea.
Qed.

Lemma bindings_beside db db' : beside_a9 db db' -> bindings_ok db -> bindings_ok db'.
Proof.
  intros [E Hj] (Hd & Hi & Hr & Hs & Hl). unfold a9_tables in E. injection E as _ _ _ _ _ _ _ Eb Et _ Er _.
  split; [unfold denials_win; by rewrite Eb, Et|]. split; [by rewrite Eb|].
  split; [apply (routes_supported_same db); [done|by rewrite Er|done]|].
  split; [apply (jobs_supported_keep db); [by rewrite Er|done|done]|]. by apply (jobs_live_keep (dbJobs db)).
Qed.

Lemma beside_inv db db' : beside_a9 db db' -> vault_inv db -> vault_inv db'.
Proof.
  intros Hb (Hs & Hi & Hr). split; [|split; [by apply (bindings_beside db)|]];
    destruct Hb as [E _]; unfold a9_tables in E; injection E as _ _ _ Ea Er Ec _ _ _ _ _ _.
  - by rewrite Ea, Ec.
  - by rewrite Er.
Qed.

(** The old routes end with their jobs. *)
Lemma cleared_inv inst now db :
  vault_inv db -> jobs_supported (drop_routes inst None (cancel_jobs inst None now db)) = true ->
  vault_inv (drop_routes inst None (cancel_jobs inst None now db)).
Proof.
  intros (Hs & (Hd & Hi & Hr & _ & Hl) & Hrc) Hj. split; [exact Hs|]. split; [|exact Hrc].
  split; [exact Hd|]. split; [exact Hi|]. split; [|split; [exact Hj|exact (jobs_live_cancel _ _ _ db Hl)]].
  apply (routes_supported_same db); [done| |done]. apply map_filter_subseteq.
Qed.

Lemma receipt_inv uuid row db :
  1 <= rcState row <= 3 -> in_range (rcGeneration row) -> in_range (rcSequence row) ->
  vault_inv db -> vault_inv (put_receipt uuid row db).
Proof.
  intros Hs Hg Hq (H1 & H2 & Hr). split; [exact H1|]. split; [exact H2|]. intros k row'. cbn.
  intros [[<- <-]|[_ E]]%lookup_insert_Some; [done|by apply (Hr k)].
Qed.

End Tables.

Section Inv.
Context `{HP : Postgres, HG : AesGcm, HJ : JobJson, HT : A9TrustSurface, HVJ : VaultJson, HGJ : Gate6Json,
          HX : XmtpTopic, HTP : !TopicParser, HE : Ed25519}.
Variables (s : Store) (draws : ReplaceDraws) (request : ReplaceRequest) (receipt : KeysetReceipt)
          (refresh : RefreshRequest).

#[local] Abbreviation inst := (rqInstallationBindingID request).

Lemma negative_case_range state outcome reason :
  negative_case state outcome reason -> 1 <= state <= 3 /\ 1 <= outcome <= 6.
Proof.
  unfold a9ResultUncertain, a9ResultActive, a9ResultRevoked.
  intros []; unfold a9OutcomeConflict, a9OutcomeInconclusive, a9OutcomeStale, a9OutcomeGap, a9ResultUncertain,
    a9ResultActive, a9ResultRevoked in *; lia.
Qed.

Lemma refused_replace_inv now au db r db' :
  dbAuthority db !! inst = Some au -> vault_inv db ->
  refused_replace s request now au db r db' -> vault_inv db'.
Proof.
  intros Ha Hi. pose proof (proj1 (proj1 Hi) _ _ Ha) as (Hc & Hg & _).
  intros [uuid row|uuid row|uuid state outcome reason Hf Hn r']; [done|by apply latch_inv|].
  pose proof (negative_case_range _ _ _ Hn) as [Hst _]. apply receipt_inv; [done..|].
  unfold latched_by. destruct (reason =? 0) eqn:E; [done|]. boolprop. by apply latch_inv.
Qed.

Lemma stream_replaced now authority controls :
  in_range (rqSubscriptionGeneration request) ->
  stream_ok authority controls -> stream_ok (alter (replaced request now) inst authority) controls.
Proof.
  intros Hg. apply stream_alter. intros au (Hc & _ & _ & Hw). split; [|done]. split; [done|]. split; [done|].
  split; [by left|done].
Qed.

(** What the refresh inside leaves behind, before the new routes. *)
Lemma refreshed_inv now au watermark identity normalized found uuid leaseIDs db refreshed db' :
  publishes s draws request refresh now au watermark identity normalized found uuid leaseIDs db refreshed db' ->
  in_range (auContiguous au) -> in_range (rqSubscriptionGeneration request) -> vault_inv db ->
  vault_inv refreshed /\
  beside_a9 (drop_routes inst None (cancel_jobs inst None now (put_receipt uuid
    (replace_receipt_row request (replace_answer s request (rqSubscriptionGeneration request) (auContiguous au)
       a9ResultActive a9OutcomeApplied) a9OutcomeApplied a9ResultActive) db))) refreshed.
Proof.
  intros Hp Hc Hg Hi. pose proof (pb_cleared _ _ _ _ _ _ _ _ _ _ _ _ _ _ _ Hp) as [Hj (digest & st & st' & E & E' & Hap)].
  apply beside_apply in Hap. rewrite E, E' in Hap. split; [|exact Hap].
  eapply beside_inv; [exact Hap|]. apply cleared_inv; [|exact Hj]. apply receipt_inv; [done|done|done|done].
Qed.

Lemma published_inv now au watermark identity normalized found uuid leaseIDs db refreshed db' :
  publishes s draws request refresh now au watermark identity normalized found uuid leaseIDs db refreshed db' ->
  in_range (auContiguous au) -> in_range (rqSubscriptionGeneration request) -> vault_inv db -> vault_inv db'.
Proof.
  intros Hp Hc Hg Hi. pose proof (refreshed_inv _ _ _ _ _ _ _ _ _ _ _ Hp Hc Hg Hi) as [(Hs & (Hd & Hb & Hr & Hj & Hl) & Hrc) _].
  pose proof (pb_rest _ _ _ _ _ _ _ _ _ _ _ _ _ _ _ Hp) as E. injection E as _ _ _ Erc Ec _ Eb Et _ Ej _ _ _.
  pose proof (pb_routes _ _ _ _ _ _ _ _ _ _ _ _ _ _ _ Hp) as Hiff.
  assert (Hsub : dbRoutes refreshed ⊆ dbRoutes db').
  { apply map_subseteq_spec. intros k row Ek. apply Hiff. by left. }
  split; [|split; [|by rewrite Erc]].
  - rewrite (pb_authority _ _ _ _ _ _ _ _ _ _ _ _ _ _ _ Hp), Ec. by apply stream_replaced.
  - split; [unfold denials_win; by rewrite Eb, Et|]. split; [by rewrite Eb|]. split; [|split; [|by rewrite Ej]].
    + unfold routes_supported in *. rewrite !all_rows_true in *. intros k row Ek.
      assert (Hrow : route_supported refreshed row = true).
      { apply Hiff in Ek as [Ek|(sub & Hin & _)]; [by apply (Hr k)|].
        by destruct (pb_new _ _ _ _ _ _ _ _ _ _ _ _ _ _ _ Hp _ _ Hin) as (? & _ & _ & _ & ? & _). }
      unfold route_supported in *. by rewrite Eb.
    + apply (jobs_supported_keep refreshed); [done| |done]. rewrite Ej. apply jobs_keep_refl.
Qed.

Lemma replace_step_inv att db r db' :
  in_range (rqSubscriptionGeneration request) ->
  replace_step s draws request receipt refresh att db r db' -> vault_inv db -> vault_inv db'.
Proof.
  intros Hg (db1 & db2 & au & (c & ->)%guarded_bound & Hc & Hstep) Hi.
  assert (Hgap : a9UncertaintyAuthorityReference <> 0) by done.
  destruct (created_inv _ _ _ _ _ _ _ _ (or_intror (conj eq_refl Hgap)) Hc (bound_inv _ _ Hi)) as [Hi2 Ha].
  destruct Hstep as [r db' Hr|watermark identity normalized found uuid leaseIDs refreshed db' Ham Hp].
  - by eapply refused_replace_inv.
  - eapply published_inv; [exact Hp| |done|done]. apply (proj1 (proj1 Hi2) _ _ Ha).
Qed.

End Inv.

(** ** Calls *)

Section Calls.
Context `{HP : Postgres, HG : AesGcm, HJ : JobJson, HT : A9TrustSurface, HVJ : VaultJson, HGJ : Gate6Json,
          HX : XmtpTopic, HTP : !TopicParser, HE : Ed25519}.
Variables (rounds : nat -> Round) (draws : nat -> ReplaceDraws) (fuel : nat).

(** The other transactions and the attempt of each round. *)
Definition round_schedule (n : nat) : (VaultDB -> VaultDB) * Attempt := (rdOthers (rounds n), rdAttempt (rounds n)).

(** A call let others run and committed one attempt on what it then [saw], or none. *)
Definition replacement (s : Store) (request : ReplaceRequest) (receipt : KeysetReceipt) (refresh : RefreshRequest)
    (i : nat) (db db' : VaultDB) (r : result error Result) : Prop :=
  exists n, let saw := interference round_schedule n i db in
    (db' = saw /\ r = Err ErrStoreUnavailable) \/
    exists k a, replace_step s (draws k) request receipt refresh (rdAttempt (rounds k)) saw a db' /\
      (r = Ok a \/ r = Err ErrStoreUnavailable).

Definition calls_typed (receipt : KeysetReceipt) : Prop :=
  (forall n, replace_typed (draws n) receipt) /\ forall n, commit_sound (rdAttempt (rounds n)).

Lemma replace_attempts_ok fuel' s request receipt refresh i db i' db' r :
  calls_typed receipt ->
  replace_attempts rounds draws fuel' s request receipt refresh (i, db) = ((i', db'), r) ->
  replacement s request receipt refresh i db db' r.
Proof.
  intros [Ht Hs]. revert i db. induction fuel' as [|n IH]; intros i db; cbn [replace_attempts].
  { intros [= <- <- <-]. exists 0%nat. by left. }
  destruct (run_tx _ _ _) as [db1 [a|e]] eqn:Er.
  - intros [= <- <- <-]. exists 1%nat. right. cbn [interference round_schedule fst].
    apply run_tx_cases in Er as [(_ & e & [=])|(a' & st & Hb & -> & [[= <-]|[e [=]]])].
    exists i, a. split; [|by left]. by apply replaceA9Once_ok in Hb.
  - destruct (isSerializationFailure e) eqn:Ee; cbv zeta.
    + pose proof (run_tx_retry _ _ _ _ _ (Hs i) Er Ee) as ->. intros H. apply IH in H as (m & Hm).
      exists (S m). exact Hm.
    + intros [= <- <- <-]. exists 1%nat. cbn [interference round_schedule fst].
      apply run_tx_cases in Er as [(-> & _)|(a' & st & Hb & -> & _)]; [by left|right].
      exists i, a'. split; [|by right]. by apply replaceA9Once_ok in Hb.
Qed.

(** What a call that answers has done, whatever is finalized after it. *)
Lemma Replace_ok s request receipt i db st r :
  calls_typed receipt -> Replace rounds draws fuel s request receipt (i, db) = (st, Ok r) ->
  exists refresh n k left,
    a9RefreshRequest request = Some refresh /\ validA9Replace s request receipt = true /\
    replace_step s (draws k) request receipt refresh (rdAttempt (rounds k))
      (interference round_schedule n i db) r left /\
    (reOutcome r <> ResultOutcomeApplied -> st.2 = left).
Proof.
  intros Ht. unfold Replace. destruct (a9RefreshRequest request) as [refresh|] eqn:Er; [|done].
  destruct (validA9Replace s request receipt) eqn:Ev; [|done]. cbn [negb]. unfold mbind at 1, op_bind.
  destruct (replace_attempts _ _ _ _ _ _ _ _) as [[i1 left] [a|]] eqn:Ea; [|done].
  pose proof (replace_attempts_ok _ _ _ _ _ _ _ _ _ _ Ht Ea) as (n & [[_ [=]]|(k & a' & Hst & [[= <-]|[=]])]).
  intros Hx. assert (a = r /\ (reOutcome r <> ResultOutcomeApplied -> st.2 = left)) as [-> Hleft].
  { destruct (beq (reOutcome a) ResultOutcomeApplied) eqn:Eb; [|by injection Hx as <- ->].
    apply beq_true in Eb. unfold mbind, op_bind in Hx. destruct (store_op _ _) as [st1 [u|]]; [|done].
    destruct (op_attempt _ st1) as [st2 [u2|]]; [|done]. injection Hx as _ ->. by split. }
  exists refresh, n, k, left. done.
Qed.

End Calls.

(** ** What an applied replacement relied on, and what it left *)

Section Applied.
Context `{HP : Postgres, HG : AesGcm, HJ : JobJson, HT : A9TrustSurface, HVJ : VaultJson, HGJ : Gate6Json,
          HX : XmtpTopic, HTP : !TopicParser, HE : Ed25519}.
Variables (s : Store) (request : ReplaceRequest) (receipt : KeysetReceipt) (refresh : RefreshRequest) (now : Z).

#[local] Abbreviation inst := (rqInstallationBindingID request).
#[local] Abbreviation ts := pg_timestamp.

(** The subscription names the active binding and its unexpired assertion, under the keyset of
    the receipt and below what the watermark covers. *)
Definition subscription_backed (committed : Z) (sub : Subscription) (db : VaultDB) : Prop :=
  exists b active a,
    dbBindings db !! (inst, sbBindingID sub) = Some b /\ bdState b = a9BindingActive /\
    bdEpoch b = rqSequencerEpoch request /\ bdVersion b = to_i64 (sbBindingVersion sub) /\
    bdActive b = Some active /\ acAssertionHash active = sbAssertionHash sub /\
    acTopicKeyEpoch active = sbTopicKeyEpoch sub /\ acTopicBinding active = sbTopicBinding sub /\
    dbAssertions db !! acAssertionHash active = Some a /\ ts now < vaExpiresAt a /\
    vaStreamSequence a <= committed /\ vaKeysetSequence a = krSequence receipt /\ vaKeysetHash a = krHash receipt.

(** The receipt's keyset and the store's retention are fresh; the authority is at the expected
    generation, not uncertain but for a new epoch, with a current watermark; every subscription
    is backed. *)
Record authorizes (host : Z) (db : VaultDB) : Prop := {
  az_keyset : exists ks, dbKeyset db = Some ks /\ keyset_current ks now (krSequence receipt) (krHash receipt) = true;
  az_retention : exists rt, dbRetention db = Some rt /\ retentionHealthSafe host rt = true;
  az_authority : exists au c, dbAuthority db !! inst = Some au /\ auEpoch au = rqSequencerEpoch request /\
    (auState au = a9AuthorityActive \/ auReason au = a9UncertaintyEpoch) /\
    auGeneration au = rqExpectedSubscriptionGeneration request /\
    rqSubscriptionGeneration request = auGeneration au + 1 /\
    auWatermark au = Some c /\ wcStatus c = WatermarkStatusCurrent /\ now < wcExpiresAt c /\
    wcKeysetSequence c = krSequence receipt /\ wcKeysetHash c = krHash receipt /\
    forall sub, sub ∈ rqSubscriptions request -> subscription_backed (wcCommittedThrough c) sub db;
}.

Definition route_for (sub : Subscription) (row : RouteRow) : Prop :=
  let c := roColumns row in
  roInstallation c = inst /\ roEpoch c = rqSequencerEpoch request /\
  roGeneration c = rqSubscriptionGeneration request /\ roBinding c = sbBindingID sub /\
  roVersion c = to_i64 (sbBindingVersion sub) /\ acAssertionHash (roActive c) = sbAssertionHash sub /\
  acTopicKeyEpoch (roActive c) = sbTopicKeyEpoch sub /\ acTopicBinding (roActive c) = sbTopicBinding sub /\
  roRouteKeyEpoch c = sbRouteKeyEpoch sub.

(** The lease of a route is of the request's installation and of the subscription's topic. *)
Definition lease_for (sub : Subscription) (row : RouteRow) (lease : bytes) (db : VaultDB) : Prop :=
  installationDeletionIdentity s (rfInstallationID refresh) = Some (roIdentity row) /\
  exists l, dbLeases db !! lease = Some l /\ lsInstallationIdentity l = roIdentity row /\
    lease_topic s lease l = Some (sbTopic sub).

(** The authority has moved one generation on; the installation's routes are those of the
    subscriptions, one for each, and the routes of others are as they were. *)
Record publishes_exactly (seen left : VaultDB) : Prop := {
  px_authority : exists au, dbAuthority left !! inst = Some au /\ auEpoch au = rqSequencerEpoch request /\
    auState au = a9AuthorityActive /\ auReason au = 0 /\ auGeneration au = rqSubscriptionGeneration request;
  px_identity : exists identity, installationDeletionIdentity s (rfInstallationID refresh) = Some identity /\
    dbGate6 left !! inst = Some identity;
  px_each : forall sub, sub ∈ rqSubscriptions request -> exists lease row,
    dbRoutes left !! lease = Some row /\ route_for sub row /\ lease_for sub row lease left;
  px_only : forall lease row, dbRoutes left !! lease = Some row -> roInstallation (roColumns row) = inst ->
    exists sub, sub ∈ rqSubscriptions request /\ route_for sub row /\ lease_for sub row lease left;
  px_others : forall lease row, roInstallation (roColumns row) <> inst ->
    dbRoutes left !! lease = Some row <-> dbRoutes seen !! lease = Some row;
}.

(** The applied case of a step. *)
Lemma replace_applied draws att db r db' :
  replace_step s draws request receipt refresh att db r db' -> reOutcome r = ResultOutcomeApplied ->
  now = atNow att ->
  exists db1 au watermark identity normalized found uuid leaseIDs refreshed,
    guarded s att (krSequence receipt) (krHash receipt) db db1 /\ dbAuthority db1 !! inst = Some au /\
    admissible s request receipt refresh now au watermark identity normalized found db1 /\
    publishes s draws request refresh now au watermark identity normalized found uuid leaseIDs db1 refreshed db'.
Proof.
  intros (db1 & db2 & au & Hg & Hc & Hs) Ho ->. destruct Hs as [r db' Hr|]; [exfalso|].
  - destruct Hr as [| |uuid state outcome reason _ Hn r']; [done..|].
    destruct Hn; cbn in Ho; done.
  - destruct Hc as [[Ha ->]|(_ & -> & _)]; [naive_solver|].
    match goal with H : admissible _ _ _ _ _ _ _ _ _ _ _ |- _ => by pose proof (am_state _ _ _ _ _ _ _ _ _ _ _ H eq_refl) end.
Qed.

(** *** The rows behind it *)

Lemma supported_backed committed sub db f :
  supported_subscription request receipt committed now sub db = Some f ->
  subscription_backed committed sub db /\
  exists b active, dbBindings db !! (inst, sbBindingID sub) = Some b /\ bdActive b = Some active /\
    f = (acStreamSequence active, acKeysetSequence active, acKeysetHash active) /\
    acStreamSequence active <= committed /\ acKeysetSequence active = krSequence receipt /\
    acKeysetHash active = krHash receipt.
Proof.
  unfold supported_subscription. intros (b & Eb & (active & Ea & (a & Es & H)%bind_Some)%bind_Some)%bind_Some.
  destruct (_ && _) eqn:E; [|done]. injection H as <-. boolprop.
  beqs. split.
  - exists b, active, a. repeat split; done.
  - exists b, active. split; [done|]. split; [done|]. repeat split; [congruence|lia|lia|congruence].
Qed.

Lemma routes_of_in watermark identity found row sub :
  (row, sub) ∈ routes_of request watermark identity found -> exists f, f ∈ found /\ sub ∈ rqSubscriptions request /\
    row = route_row request identity (wcSequence watermark) (validated_subscription sub f).
Proof.
  unfold routes_of. intros (i & H)%list_elem_of_lookup. apply lookup_zip_with_Some in H as (sub' & f & [= -> ->] & Hs & Hf).
  exists f. split; [by eapply list_elem_of_lookup_2|]. split; [by eapply list_elem_of_lookup_2|done].
Qed.

Lemma routes_of_each committed watermark identity found db sub :
  support request receipt now committed db found -> sub ∈ rqSubscriptions request -> exists f,
    supported_subscription request receipt committed now sub db = Some f /\
    (route_row request identity (wcSequence watermark) (validated_subscription sub f), sub)
      ∈ routes_of request watermark identity found.
Proof.
  intros Hs (i & Hi)%list_elem_of_lookup. unfold support in Hs.
  destruct (Forall2_lookup_l _ _ _ _ _ Hs Hi) as (f & Hf & Hsup). exists f. split; [done|].
  apply list_elem_of_lookup. exists i. apply lookup_zip_with_Some. by exists sub, f.
Qed.

Lemma route_row_for identity sequence sub f :
  route_for sub (route_row request identity sequence (validated_subscription sub f)).
Proof. by repeat split. Qed.

Lemma leaseIDs_topics draws normalized digest expected st leaseIDs st' topic lease :
  applyGate6RefreshTx s draws refresh normalized digest expected now st = Ok (leaseIDs, st') ->
  leaseIDs !! topic = Some lease ->
  exists l, dbLeases (txDb st') !! lease = Some l /\ lease_topic s lease l = Some topic.
Proof.
  unfold applyGate6RefreshTx. intros H El. do 9 apply tx_bind_ok in H as (? & ? & _ & H).
  apply tx_bind_ok in H as (current & st1 & [E [Ht _]]%load_tracked & [-> ->]%ret_ok).
  rewrite lookup_fmap in El. destruct (current !! topic) as [e|] eqn:Ec; [|done]. injection El as <-.
  destruct (Ht _ _ Ec I) as (l & Hl & _ & _ & _ & _ & Htopic). exists l. by rewrite E.
Qed.

(** *** What publication leaves *)

Lemma published_leases draws au watermark identity normalized found uuid leaseIDs db refreshed db' row sub :
  publishes s draws request refresh now au watermark identity normalized found uuid leaseIDs db refreshed db' ->
  installationDeletionIdentity s (rfInstallationID refresh) = Some identity ->
  (row, sub) ∈ routes_of request watermark identity found ->
  exists lease, leaseIDs !! sbTopic sub = Some lease /\ dbRoutes db' !! lease = Some row /\
    route_for sub row /\ lease_for sub row lease db'.
Proof.
  intros Hp Hid Hin. destruct (pb_new _ _ _ _ _ _ _ _ _ _ _ _ _ _ _ Hp _ _ Hin) as (lease & Hl & Hr & _ & _ & Hi).
  exists lease. split; [done|]. split; [done|].
  apply routes_of_in in Hin as (f & _ & _ & ->). split; [apply route_row_for|]. split; [done|].
  destruct (pb_cleared _ _ _ _ _ _ _ _ _ _ _ _ _ _ _ Hp) as [_ (digest & st & st' & _ & <- & Ha)].
  destruct (leaseIDs_topics _ _ _ _ _ _ _ _ _ Ha Hl) as (l & El & Ht). rewrite El in Hi. injection Hi as Hi.
  pose proof (pb_rest _ _ _ _ _ _ _ _ _ _ _ _ _ _ _ Hp) as E. injection E as _ _ _ _ _ _ _ _ _ _ E _ _.
  exists l. by rewrite E.
Qed.

(** The routes after the refresh are those of other installations. *)
Lemma refreshed_routes draws au watermark identity normalized found uuid leaseIDs db refreshed db' lease row :
  publishes s draws request refresh now au watermark identity normalized found uuid leaseIDs db refreshed db' ->
  dbRoutes refreshed !! lease = Some row <-> dbRoutes db !! lease = Some row /\ roInstallation (roColumns row) <> inst.
Proof.
  intros Hp. destruct (pb_cleared _ _ _ _ _ _ _ _ _ _ _ _ _ _ _ Hp) as [_ (digest & st & st' & E & <- & Ha)].
  apply beside_apply in Ha as [Ht _]. rewrite E in Ht. injection Ht as _ _ _ _ _ _ _ _ _ _ Er _. rewrite Er.
  unfold drop_routes. cbn. rewrite map_lookup_filter_Some. cbn. unfold names. cbn. rewrite andb_true_r, beq_false. done.
Qed.

Lemma published_exactly draws au watermark identity normalized found uuid leaseIDs db refreshed db' :
  dbAuthority db !! inst = Some au ->
  admissible s request receipt refresh now au watermark identity normalized found db ->
  publishes s draws request refresh now au watermark identity normalized found uuid leaseIDs db refreshed db' ->
  publishes_exactly db db'.
Proof.
  intros Hau Ham Hp. pose proof (am_identity _ _ _ _ _ _ _ _ _ _ _ Ham) as Hid.
  pose proof (fun row sub => published_leases _ _ _ _ _ _ _ _ _ _ _ row sub Hp Hid) as Hl.
  pose proof (fun lease row => refreshed_routes _ _ _ _ _ _ _ _ _ _ _ lease row Hp) as Hold.
  pose proof (pb_routes _ _ _ _ _ _ _ _ _ _ _ _ _ _ _ Hp) as Hiff. split.
  - destruct (pb_cleared _ _ _ _ _ _ _ _ _ _ _ _ _ _ _ Hp) as [_ (digest & st & st' & E & E' & Ha)].
    apply beside_apply in Ha as [Ht _]. rewrite E, E' in Ht. injection Ht as _ _ _ Ea _ _ _ _ _ _ _ _.
    exists (replaced request now au). rewrite (pb_authority _ _ _ _ _ _ _ _ _ _ _ _ _ _ _ Hp), lookup_alter_eq, Ea.
    cbn. rewrite Hau. split; [done|]. split; [apply (am_epoch _ _ _ _ _ _ _ _ _ _ _ Ham)|done].
  - exists identity. split; [done|apply (pb_gate6 _ _ _ _ _ _ _ _ _ _ _ _ _ _ _ Hp)].
  - intros sub Hin. pose proof (am_support _ _ _ _ _ _ _ _ _ _ _ Ham) as Hs.
    destruct (routes_of_each _ watermark identity _ _ _ Hs Hin) as (f & _ & Hr).
    destruct (Hl _ _ Hr) as (lease & _ & Hrow & Hfor & Hlease). eauto.
  - intros lease row [[_ Hne]%Hold|(sub & Hin & Hlid)]%Hiff Hinst; [done|].
    destruct (Hl _ _ Hin) as (lease' & Hlid' & _ & Hfor & Hlease). rewrite Hlid in Hlid'. injection Hlid' as <-.
    exists sub. split; [|done]. by apply routes_of_in in Hin as (f & _ & ? & _).
  - intros lease row Hne. rewrite Hiff, Hold. split; [|by left]. intros [[? _]|(sub & Hin & _)]; [done|].
    by apply routes_of_in in Hin as (f & _ & _ & ->).
Qed.

Lemma admissible_authorizes att db db1 au watermark identity normalized found :
  guarded s att (krSequence receipt) (krHash receipt) db db1 -> now = atNow att -> vault_inv db ->
  dbAuthority db1 !! inst = Some au ->
  admissible s request receipt refresh now au watermark identity normalized found db1 ->
  authorizes (atHost att) db.
Proof.
  intros Hg Hnow Hi Hau Ham. destruct (guarded_bound _ _ _ _ _ _ Hg) as [c Ec].
  destruct Hg as (ks & rt & _ & Hks & Hcur & _ & _ & _ & Hrt & Hsafe).
  assert (Hsame : dbAuthority db1 = dbAuthority db /\ dbBindings db1 = dbBindings db /\ dbAssertions db1 = dbAssertions db)
    by (rewrite Ec; unfold bound; by destruct (dbKeyBinding db)).
  destruct Hsame as (Ea & Eb & Es). rewrite Ea in Hau. rewrite <-Hnow in Hcur.
  pose proof (proj1 (proj1 Hi) _ _ Hau) as (_ & Hgen & Hst & _).
  destruct (am_generation _ _ _ _ _ _ _ _ _ _ _ Ham) as [Hexp Hnew].
  split; [by exists ks|by exists rt|]. exists au, watermark. pose proof (am_watermark _ _ _ _ _ _ _ _ _ _ _ Ham) as Hw.
  unfold watermark_covers in Hw. apply bind_Some in Hw as (c' & Hw & Hc). destruct (_ && _) eqn:E; [|done].
  injection Hc as ->. unfold before in E. boolprop. apply beq_true in H0.
  split; [done|]. split; [apply (am_epoch _ _ _ _ _ _ _ _ _ _ _ Ham)|].
  split; [destruct Hst as [[-> _]|[Hu _]]; [by left|right; apply (am_state _ _ _ _ _ _ _ _ _ _ _ Ham Hu)]|].
  split; [done|]. split; [rewrite Hnew; unfold w64, in_range, a9MaxSafeInteger in *; rewrite Z.mod_small; lia|].
  do 5 (split; [done|]). intros sub Hin.
  destruct (routes_of_each _ watermark identity _ _ _ (am_support _ _ _ _ _ _ _ _ _ _ _ Ham) Hin) as (f & Hf & _).
  apply supported_backed in Hf as [(b & active & a & Hb & Hrest) _]. exists b, active, a. by rewrite <-Eb, <-Es.
Qed.

(** *** The routes are current *)

(** The route passes what [requireA9CurrentRouteTx] asks of authority, binding, denials and
    route, for every snapshot of it. *)
Definition route_passes (lease : bytes) (row : RouteRow) (db : VaultDB) : Prop :=
  forall snapshot, snapshot_columns snapshot = roColumns row ->
    (exists au c, dbAuthority db !! inst = Some au /\ authority_admits au c snapshot now) /\
    (exists b, dbBindings db !! (inst, a9BindingID snapshot) = Some b /\ bdEpoch b = a9SequencerEpoch snapshot /\
       bdVersion b = a9BindingVersion snapshot /\ bdState b = a9BindingActive /\
       bdActive b = Some (snapshot_tuple snapshot)) /\
    (forall v, is_Some (dbTombstones db !! (inst, a9BindingID snapshot, v)) -> v < a9BindingVersion snapshot) /\
    dbRoutes db !! lease = Some row.

(** The watermark was not issued after the database's clock. *)
Definition watermark_issued (db : VaultDB) : Prop :=
  forall au c, dbAuthority db !! inst = Some au -> auWatermark au = Some c -> wcIssuedAt c <= now.

Lemma published_tables draws au watermark identity normalized found uuid leaseIDs db refreshed db' :
  publishes s draws request refresh now au watermark identity normalized found uuid leaseIDs db refreshed db' ->
  dbBindings refreshed = dbBindings db /\ dbBindings db' = dbBindings db /\ dbTombstones db' = dbTombstones db /\
  dbAuthority db' = alter (replaced request now) inst (dbAuthority db).
Proof.
  intros Hp. pose proof (pb_rest _ _ _ _ _ _ _ _ _ _ _ _ _ _ _ Hp) as E. injection E as _ _ _ _ _ _ Eb Et _ _ _ _ _.
  destruct (pb_cleared _ _ _ _ _ _ _ _ _ _ _ _ _ _ _ Hp) as [_ (digest & st & st' & E1 & E2 & Ha)].
  apply beside_apply in Ha as [Ht _]. rewrite E1, E2 in Ht. injection Ht as _ _ _ Ha' _ _ _ Hb' Ht' _ _ _.
  rewrite Eb, Et, (pb_authority _ _ _ _ _ _ _ _ _ _ _ _ _ _ _ Hp), Ha', Hb', Ht'. done.
Qed.

Lemma route_supported_inv db row :
  route_supported db row = true ->
  exists b, dbBindings db !! (roInstallation (roColumns row), roBinding (roColumns row)) = Some b /\
    bdEpoch b = roEpoch (roColumns row) /\ bdVersion b = roVersion (roColumns row) /\
    bdActive b = Some (roActive (roColumns row)).
Proof.
  unfold route_supported. destruct (dbBindings db !! _) as [b|]; [|done]. intros H. exists b. boolprop.
  beqs. done.
Qed.

Lemma published_binding draws au watermark identity normalized found uuid leaseIDs db refreshed db' row sub :
  admissible s request receipt refresh now au watermark identity normalized found db ->
  publishes s draws request refresh now au watermark identity normalized found uuid leaseIDs db refreshed db' ->
  (row, sub) ∈ routes_of request watermark identity found ->
  exists b, dbBindings db !! (inst, roBinding (roColumns row)) = Some b /\ bdState b = a9BindingActive /\
    bdEpoch b = roEpoch (roColumns row) /\ bdVersion b = roVersion (roColumns row) /\
    bdActive b = Some (roActive (roColumns row)) /\ acStreamSequence (roActive (roColumns row)) <= wcCommittedThrough watermark /\
    acKeysetSequence (roActive (roColumns row)) = krSequence receipt /\
    acKeysetHash (roActive (roColumns row)) = krHash receipt.
Proof.
  intros Ham Hp Hin. destruct (published_tables _ _ _ _ _ _ _ _ _ _ _ Hp) as (Ebr & _ & _ & _).
  destruct (pb_new _ _ _ _ _ _ _ _ _ _ _ _ _ _ _ Hp _ _ Hin) as (lease & _ & _ & _ & Hsup & _).
  pose proof (am_support _ _ _ _ _ _ _ _ _ _ _ Ham) as Hs. unfold routes_of in Hin.
  apply list_elem_of_lookup in Hin as (i & Hin). apply lookup_zip_with_Some in Hin as (sub' & f & [= -> <-] & Hi1 & Hi2).
  pose proof (Forall2_lookup_lr _ _ _ _ _ _ Hs Hi1 Hi2) as Hf.
  apply supported_backed in Hf as [(b & _ & _ & Hb & Hst & Hep & Hv & _) (b' & active & Hb' & Hact & _ & Hle & Hks & Hkh)].
  rewrite Hb in Hb'. injection Hb' as <-. apply route_supported_inv in Hsup as (b' & Hb' & He' & Hv' & Ha').
  rewrite Ebr in Hb'. assert (b' = b) as -> by (cbn in Hb'; congruence). rewrite Hact in Ha'. injection Ha' as ->.
  exists b. done.
Qed.

Lemma published_passes draws au watermark identity normalized found uuid leaseIDs db refreshed db' lease row sub :
  dbAuthority db !! inst = Some au -> vault_inv db -> watermark_issued db ->
  admissible s request receipt refresh now au watermark identity normalized found db ->
  publishes s draws request refresh now au watermark identity normalized found uuid leaseIDs db refreshed db' ->
  (row, sub) ∈ routes_of request watermark identity found -> dbRoutes db' !! lease = Some row ->
  route_passes lease row db'.
Proof.
  intros Hau Hi Hiss Ham Hp Hin Hrow snapshot Hcol.
  destruct (published_tables _ _ _ _ _ _ _ _ _ _ _ Hp) as (_ & Eb & Et & Ea).
  destruct (published_binding _ _ _ _ _ _ _ _ _ _ _ _ _ Ham Hp Hin) as (b & Hb & Hst & Hep & Hv & Hact & Hle & Hks & Hkh).
  assert (Hc : roEpoch (roColumns row) = rqSequencerEpoch request /\ roGeneration (roColumns row) = rqSubscriptionGeneration request /\
    roWatermarkSequence (roColumns row) = wcSequence watermark)
    by by apply routes_of_in in Hin as (f & _ & _ & ->).
  rewrite <-Hcol in *. destruct Hc as (Hce & Hcg & Hcw). cbn in Hce, Hcg, Hcw, Hb, Hep, Hv, Hact, Hle, Hks, Hkh.
  rewrite Eb, Et. split; [|split; [by exists b|split; [|exact Hrow]]].
  - pose proof (am_watermark _ _ _ _ _ _ _ _ _ _ _ Ham) as Hw.
    unfold watermark_covers in Hw. apply bind_Some in Hw as (c' & Hw & Hc). destruct (_ && _) eqn:E; [|done].
    injection Hc as ->. unfold before in E. boolprop. apply beq_true in H0.
    exists (replaced request now au), watermark. split; [rewrite Ea, lookup_alter_eq, Hau; done|].
    destruct (proj1 (proj1 Hi) _ _ Hau) as (_ & _ & _ & Hcov). specialize (Hcov _ Hw) as [_ Hcov].
    pose proof (Hiss _ _ Hau Hw). pose proof (am_epoch _ _ _ _ _ _ _ _ _ _ _ Ham).
    split; cbn; try done; try congruence; [|lia|split; congruence]. split; [done|by apply Hcov].
  - intros v Hd. destruct Hi as (_ & (Hd' & _) & _). rewrite <-Hv. by eapply Hd'.
Qed.

End Applied.

(** ** The claims *)

Section Claims.
Context `{HP : Postgres, HG : AesGcm, HJ : JobJson, HT : A9TrustSurface, HVJ : VaultJson, HGJ : Gate6Json,
          HX : XmtpTopic, HTP : !TopicParser, HE : Ed25519}.
Variables (rounds : nat -> Round) (draws : nat -> ReplaceDraws) (fuel : nat).

(** C6: a replacement that answers APPLIED found, in the database its attempt saw, the receipt's
    keyset and the retention state fresh, the authority of the installation at the expected
    generation and not uncertain but for a new epoch, a current watermark, and for every
    subscription the active binding with an unexpired assertion. It left the authority active
    one generation on, exactly one set of routes for the installation, those of the
    subscriptions, each on a lease of the request's installation and of the subscription's
    topic, and the routes of other installations as they were. *)
Theorem replacement_is_authorized (s : Store) (request : ReplaceRequest) (receipt : KeysetReceipt) (i : nat)
    (db : VaultDB) (st : nat * VaultDB) (r : Result) :
  calls_typed rounds draws receipt -> (forall n, vault_inv (interference (round_schedule rounds) n i db)) ->
  Replace rounds draws fuel s request receipt (i, db) = (st, Ok r) -> reOutcome r = ResultOutcomeApplied ->
  exists refresh n k left, let seen := interference (round_schedule rounds) n i db in
    let att := rdAttempt (rounds k) in
    a9RefreshRequest request = Some refresh /\
    authorizes request receipt (atNow att) (atHost att) seen /\
    publishes_exactly s request refresh seen left.
Proof.
  intros Ht Hi Hx Ho. destruct (Replace_ok _ _ _ _ _ _ _ _ _ _ Ht Hx) as (refresh & n & k & left & Hr & _ & Hst & _).
  exists refresh, n, k, left. cbv zeta. split; [done|].
  destruct (replace_applied _ _ _ _ _ _ _ _ _ _ Hst Ho eq_refl)
    as (db1 & au & watermark & identity & normalized & found & uuid & leaseIDs & refreshed & Hg & Hau & Ham & Hp).
  split; [by eapply admissible_authorizes|]. destruct (guarded_bound _ _ _ _ _ _ Hg) as [c Ec].
  assert (Er : dbRoutes db1 = dbRoutes (interference (round_schedule rounds) n i db))
    by (rewrite Ec; unfold bound; by destruct (dbKeyBinding _)).
  destruct (published_exactly _ _ _ _ _ _ _ _ _ _ _ _ _ _ _ _ Hau Ham Hp) as [H1 H2 H3 H4 H5].
  split; [done..|]. by rewrite <-Er.
Qed.

(** C7: the routes a replacement leaves are current: in the committed database, for every
    subscription there is a route, and every snapshot of it passes the checks of
    [requireA9CurrentRouteTx] on authority, watermark coverage, binding, denials and route,
    provided the watermark seen was not issued in the database's future. *)
Theorem replaced_routes_are_current (s : Store) (request : ReplaceRequest) (receipt : KeysetReceipt) (i : nat)
    (db : VaultDB) (st : nat * VaultDB) (r : Result) :
  calls_typed rounds draws receipt ->
  (forall n, vault_inv (interference (round_schedule rounds) n i db)) ->
  (forall n k, watermark_issued request (atNow (rdAttempt (rounds k))) (interference (round_schedule rounds) n i db)) ->
  Replace rounds draws fuel s request receipt (i, db) = (st, Ok r) -> reOutcome r = ResultOutcomeApplied ->
  exists refresh n k left, a9RefreshRequest request = Some refresh /\
    replace_step s (draws k) request receipt refresh (rdAttempt (rounds k))
      (interference (round_schedule rounds) n i db) r left /\
    forall lease row, dbRoutes left !! lease = Some row ->
      roInstallation (roColumns row) = rqInstallationBindingID request ->
      route_passes request (atNow (rdAttempt (rounds k))) lease row left.
Proof.
  intros Ht Hi Hw Hx Ho. destruct (Replace_ok _ _ _ _ _ _ _ _ _ _ Ht Hx) as (refresh & n & k & left & Hr & _ & Hst & _).
  exists refresh, n, k, left. split; [done|]. split; [done|]. intros lease row Hrow Hinst.
  destruct (replace_applied _ _ _ _ _ _ _ _ _ _ Hst Ho eq_refl)
    as (db1 & au & watermark & identity & normalized & found & uuid & leaseIDs & refreshed & Hg & Hau & Ham & Hp).
  destruct (guarded_bound _ _ _ _ _ _ Hg) as [c ->].
  pose proof (bound_inv c _ (Hi n)) as Hi'. specialize (Hw n k).
  apply (pb_routes _ _ _ _ _ _ _ _ _ _ _ _ _ _ _ Hp) in Hrow as Hr'. destruct Hr' as [Hold|(sub & Hin & _)].
  { by apply (refreshed_routes _ _ _ _ _ _ _ _ _ _ _ _ _ _ _ lease row Hp) in Hold as [_ ?]. }
  eapply published_passes; [exact Hau|exact Hi'| |exact Ham|exact Hp|exact Hin|exact Hrow].
  unfold watermark_issued, bound in *. by destruct (dbKeyBinding _).
Qed.

Definition tables (db : VaultDB) :=
  (dbRoutes db, dbLeases db, dbInstallations db, dbJobs db, dbBindings db, dbHistory db, dbGate6 db).

(** The row of the installation is as before, or uncertain at the same generation. *)
Definition latched_only (inst : bytes) (authority authority' : gmap bytes AuthorityRow) : Prop :=
  (forall other, other <> inst -> authority' !! other = authority !! other) /\
  (authority' !! inst = authority !! inst \/
   exists au', authority' !! inst = Some au' /\ auState au' = a9AuthorityUncertain /\
     auGeneration au' = from_option auGeneration 0 (authority !! inst)).

Lemma latched_only_alter inst reason now authority :
  is_Some (authority !! inst) -> latched_only inst authority (alter (latched reason now) inst authority).
Proof.
  intros [au E]. split; [intros other Hne; by apply lookup_alter_ne|]. right. exists (latched reason now au).
  by rewrite lookup_alter_eq, E.
Qed.

Lemma created_latched now inst epoch reason db au db' :
  created now inst epoch a9AuthorityUncertain reason db au db' ->
  tables db' = tables db /\ latched_only inst (dbAuthority db) (dbAuthority db') /\ dbAuthority db' !! inst = Some au.
Proof.
  intros [[E ->]|(E & -> & ->)]; [split; [done|split; [split; [done|by left]|done]]|]. split; [done|]. cbn.
  split; [split; [intros other Hne; by apply lookup_insert_ne|right; eexists; rewrite E]|]; by rewrite lookup_insert_eq.
Qed.

Lemma refused_latched s request now au db r db' :
  dbAuthority db !! rqInstallationBindingID request = Some au ->
  refused_replace s request now au db r db' ->
  tables db' = tables db /\ latched_only (rqInstallationBindingID request) (dbAuthority db) (dbAuthority db').
Proof.
  intros Ha. assert (Hl : forall reason, latched_only (rqInstallationBindingID request) (dbAuthority db)
    (alter (latched reason now) (rqInstallationBindingID request) (dbAuthority db)))
    by (intros; apply latched_only_alter; eauto).
  intros [uuid row|uuid row|uuid state outcome reason Hf Hn r'].
  - split; [done|]. split; [done|by left].
  - split; [done|apply Hl].
  - unfold latched_by. destruct (reason =? 0); (split; [done|]); [split; [done|by left]|apply Hl].
Qed.

Lemma latched_only_trans inst a b c :
  is_Some (b !! inst) -> latched_only inst a b -> latched_only inst b c -> latched_only inst a c.
Proof.
  intros [au Eb] [H1 H2] [H3 H4]. split; [intros other Hne; rewrite H3, H1; done|].
  destruct H4 as [->|(au' & -> & Hs & Hg)]; [done|]. right. exists au'. split; [done|]. split; [done|].
  rewrite Hg, Eb. cbn. destruct H2 as [E|(au2 & E & _ & Hg2)]; rewrite Eb in E; [by rewrite <-E|].
  injection E as <-. done.
Qed.

(** C20: a replacement that answers anything else changes no route, lease, installation, job,
    binding, key history nor installation identity, and no authority row of another
    installation: at most it records its answer and makes the installation uncertain. *)
Theorem refused_replacement_changes_no_route (s : Store) (request : ReplaceRequest) (receipt : KeysetReceipt)
    (i : nat) (db : VaultDB) (st : nat * VaultDB) (r : Result) :
  calls_typed rounds draws receipt ->
  Replace rounds draws fuel s request receipt (i, db) = (st, Ok r) -> reOutcome r <> ResultOutcomeApplied ->
  exists n, let seen := interference (round_schedule rounds) n i db in
    tables st.2 = tables seen /\
    latched_only (rqInstallationBindingID request) (dbAuthority seen) (dbAuthority st.2).
Proof.
  intros Ht Hx Ho. destruct (Replace_ok _ _ _ _ _ _ _ _ _ _ Ht Hx) as (refresh & n & k & left & _ & _ & Hst & Hleft).
  exists n. cbv zeta. rewrite (Hleft Ho). destruct Hst as (db1 & db2 & au & (c & ->)%guarded_bound & Hc & Hs).
  destruct Hs as [r left Hr|]; [|exfalso; by apply Ho].
  assert (Hb : tables (bound c (interference (round_schedule rounds) n i db)) = tables (interference (round_schedule rounds) n i db)
    /\ dbAuthority (bound c (interference (round_schedule rounds) n i db)) = dbAuthority (interference (round_schedule rounds) n i db))
    by (unfold bound; by destruct (dbKeyBinding _)).
  destruct Hb as [Hb1 Hb2]. rewrite <-Hb1, <-Hb2.
  destruct (created_latched _ _ _ _ _ _ _ Hc) as (E1 & E2 & Ha).
  destruct (refused_latched _ _ _ _ _ _ _ Ha Hr) as [E3 E4]. split; [by rewrite E3|].
  eapply latched_only_trans; [|exact E2|exact E4]. by eexists.
Qed.

(** *** Replacements among the other calls *)

Lemma put_receipt_append uuid row db : dbReceipts db !! uuid = None -> append_only db (put_receipt uuid row db).
Proof. intros E. repeat split; [done..| |done|done]. cbn. by apply insert_subseteq. Qed.

Lemma beside_append db db' : beside_a9 db db' -> append_only db db'.
Proof.
  intros [E _]. unfold a9_tables in E. injection E as _ Ek _ _ Er Ec Es _ Et Ew _ _.
  unfold append_only. by rewrite Ek, Er, Ec, Es, Et, Ew.
Qed.

Lemma negative_append s request now au db r db' :
  refused_replace s request now au db r db' -> append_only db db'.
Proof.
  intros [uuid row|uuid row|uuid state outcome reason [_ Hf] Hn r']; [done..|].
  unfold latched_by. destruct (reason =? 0); [by apply put_receipt_append|].
  apply (put_receipt_append uuid _ (latch_db (rqInstallationBindingID request) reason now db)), Hf.
Qed.

Lemma replace_step_append s draws' request receipt refresh att db r db' :
  replace_step s draws' request receipt refresh att db r db' -> append_only db db'.
Proof.
  intros (db1 & db2 & au & (c & ->)%guarded_bound & Hc & Hs). etrans; [apply bound_append|].
  assert (Hc' : append_only (bound c db) db2) by by destruct Hc as [[_ ->]|(_ & _ & ->)].
  etrans; [exact Hc'|]. destruct Hs as [r db' Hr|]; [by eapply negative_append|].
  match goal with H : publishes _ _ _ _ _ _ _ _ _ _ _ _ _ _ _ |- _ => rename H into Hp end.
  destruct (pb_cleared _ _ _ _ _ _ _ _ _ _ _ _ _ _ _ Hp) as [_ (digest & st & st' & E1 & E2 & Ha)].
  pose proof (pb_rest _ _ _ _ _ _ _ _ _ _ _ _ _ _ _ Hp) as E. injection E as _ Ek _ Er Ec Es _ Et Ew _ _ _ _.
  etrans; [apply put_receipt_append, (pb_key _ _ _ _ _ _ _ _ _ _ _ _ _ _ _ Hp)|].
  apply beside_apply, beside_append in Ha. rewrite E1, E2 in Ha. unfold append_only in *. rewrite Ek, Er, Ec, Es, Et, Ew.
  exact Ha.
Qed.

Lemma valid_generation s request receipt :
  validA9Replace s request receipt = true -> in_range (rqSubscriptionGeneration request).
Proof. unfold validA9Replace, in_range. intros H. boolprop. lia. Qed.

Lemma interference_allowed n i db :
  others_allowed (round_schedule rounds) -> vault_inv db ->
  vault_inv (interference (round_schedule rounds) n i db) /\ append_only db (interference (round_schedule rounds) n i db).
Proof.
  intros Ho. revert i db. induction n as [|n IH]; intros i db Hi; [done|]. cbn [interference].
  destruct (Ho i db Hi) as [Hi' Ha]. destruct (IH (S i) _ Hi') as [Hi2 Ha2]. split; [done|by etrans].
Qed.

Lemma replacement_allowed s request receipt refresh i db db' r :
  calls_typed rounds draws receipt -> validA9Replace s request receipt = true ->
  others_allowed (round_schedule rounds) -> replacement rounds draws s request receipt refresh i db db' r ->
  vault_inv db -> vault_inv db' /\ append_only db db'.
Proof.
  intros Ht Hv%valid_generation Ho (n & Hx) Hi. destruct (interference_allowed n i db Ho Hi) as [Hi' Ha].
  destruct Hx as [[-> _]|(k & a & Hst & _)]; [done|]. split; [by eapply replace_step_inv|].
  etrans; [exact Ha|]. by eapply replace_step_append.
Qed.

End Claims.
