(* ===== verification/A9HandlerProps.v ===== *)
(** * What the internal API lets through

    A request reaches the vault only as one call on an object that was verified in its body,
    after its token was verified and consumed; an answer other than a fixed error is the vault's
    own result. *)

From S2P Require Import Prelude GoBytes GoTime GoCrypto GoJson JsonText Jcs A9Schema A9Types A9Trust A9Keyset A9Verify ServiceAuth ReplaceRequest Sql A9VaultDb A9Replace A9Handler.
Local Open Scope Z_scope.
Local Open Scope go_scope.

(** ** Results on the wire *)

Lemma string_canonical s : isASCII s = true -> exists t, Canonicalize (JString s) = Ok t.
Proof. intros E. cbn [Canonicalize appendCanonical]. unfold Canonicalize. cbn. unfold appendASCIIString. rewrite E. by eexists. Qed.

Lemma number_canonical z : 0 <= z <= maxIJSONInteger -> exists t, Canonicalize (jsonNumber z) = Ok t.
Proof.
  intros Hz. unfold Canonicalize, jsonNumber. cbn [appendCanonical]. unfold canonicalInteger.
  pose proof (format_uint_digits z) as Hd. pose proof (format_uint_nonempty z) as Hn.
  pose proof (format_uint_zero z) as H0. unfold maxIJSONInteger in *. rewrite parse_uint64_format by lia.
  destruct (format_uint z) as [|c r] eqn:E; [done|].
  assert (Hc : contains_any (c :: r) (str ".eE+-") = false).
  { apply not_true_iff_false. intros (x & Hin & Hx)%existsb_exists. rewrite forallb_forall in Hd. apply Hd in Hin.
    apply existsb_exists in Hx as (y & Hy & ->%bool_decide_eq_true_1). cbn in Hy. by decompose [or] Hy; subst. }
  assert (Hm : beq (c :: r) (str "-0") = false).
  { apply beq_false. intros [= -> ->]. done. }
  assert (Hs : negb (beq (c :: r) (str "0")) && starts_with_zero (c :: r) = false).
  { destruct (starts_with_zero (c :: r)) eqn:Es; [|by rewrite andb_false_r]. destruct c; try done. by rewrite (H0 _ eq_refl). }
  rewrite Hc, Hm, Hs, Hd, (proj2 (beq_false _ _) Hn). cbn [orb negb]. compare_lia. by eexists.
Qed.

Lemma object_canonical o :
  Forall (fun kv => isASCII kv.1 = true /\ exists t, Canonicalize kv.2 = Ok t) o -> exists t, Canonicalize (JObject o) = Ok t.
Proof.
  intros Ho. unfold Canonicalize in *. cbn [appendCanonical].
  assert (E : forallb (fun kv => isASCII kv.1) o = true).
  { apply forallb_forall. intros kv Hin%list_elem_of_In. rewrite Forall_forall in Ho. by apply Ho. }
  rewrite E. cbn [negb].
  assert (Hm : exists texts, Forall2 (fun (kv : bytes * json) y =>
    (name ← appendASCIIString kv.1; t ← appendCanonical kv.2; Ok (name ++ str ":" ++ t)) = Ok y) o texts).
  { clear E. induction Ho as [|kv o [Ha [t Ht]] _ [texts IH]]; [by exists []|]. unfold appendASCIIString at 1.
    eexists (_ :: texts). constructor; [|exact IH]. unfold appendASCIIString. rewrite Ha. cbn. rewrite Ht. reflexivity. }
  destruct Hm as [texts Hm%mapM_ok]. rewrite Hm. by eexists.
Qed.

Lemma result_members result : result_object result = [
  (str "accepted_stream_sequence", jsonNumber (reAcceptedStreamSequence result));
  (str "environment", JString (reEnvironment result));
  (str "idempotent_replay", JBool (beq (reOutcome result) ResultOutcomeReplay));
  (str "installation_binding_id", JString (EncodeBase64URL (reInstallationBindingID result)));
  (str "outcome", JString (reOutcome result));
  (str "protocol", JString (str "hytch.a9-vault-cas-result"));
  (str "schema_version", jsonNumber 1);
  (str "sequencer_epoch", JString (EncodeBase64URL (reSequencerEpoch result)));
  (str "state", JString (reState result));
  (str "subscription_generation", jsonNumber (reSubscriptionGeneration result))].
Proof. reflexivity. Qed.

Lemma result_wire result : wire (JObject (result_object result)).
Proof.
  rewrite result_members. apply wire_object. split; [|repeat constructor].
  unfold sorted_names. cbn [map fst]. repeat constructor.
Qed.

Lemma b64_ascii l : isASCII (EncodeBase64URL l) = true.
Proof.
  unfold EncodeBase64URL, isASCII. eapply forallb_impl; [|apply b64_encode_alphabet].
  intros c Hc. by destruct c; vm_compute in Hc |- *.
Qed.

(** The strings of a valid result. *)
Lemma valid_result_strings result :
  result_valid result = true ->
  one_of (reEnvironment result) [str "dev"; str "production"] = true /\
  one_of (reState result) [ResultStateActive; ResultStateRevoked; ResultStateUncertain] = true /\
  one_of (reOutcome result) [ResultOutcomeApplied; ResultOutcomeReplay; ResultOutcomeStale; ResultOutcomeGap;
    ResultOutcomeConflict; ResultOutcomeInconclusive] = true /\
  reSubscriptionGeneration result <= a9MaxSafeInteger /\ reAcceptedStreamSequence result <= a9MaxSafeInteger.
Proof.
  unfold result_valid. intros H. destruct (one_of (reEnvironment result) _); [|done]. cbn [negb] in H.
  destruct (_ || _) eqn:Eg in H; [done|]. boolprop. destruct (one_of (reState result) _); [|done]. cbn [negb] in H.
  split; [done|]. split; [done|]. split; [|done]. unfold one_of in *. cbn [existsb] in *. rewrite !orb_false_r in *.
  repeat match goal with |- context [beq ?a ?b] => destruct (beq a b); [by rewrite ?orb_true_r|] end.
  by cbn in H.
Qed.

Lemma one_of_in v l : one_of v l = true -> v ∈ l.
Proof. unfold one_of. intros (x & Hin & ->%beq_true)%existsb_exists. by apply list_elem_of_In. Qed.

Record result_typed (result : Result) : Prop := {
  rt_ids : length (reInstallationBindingID result) = 16%nat /\ length (reSequencerEpoch result) = 16%nat;
  rt_numbers : 0 <= reSubscriptionGeneration result /\ 0 <= reAcceptedStreamSequence result;
}.

Lemma base64URLField_ok o name n b :
  field o name = JString (EncodeBase64URL b) -> length b = n ->
  base64URLField o name n ReasonNoncanonicalBase64URL = Ok b.
Proof.
  intros Hf Hl. unfold base64URLField, stringField. rewrite Hf. cbn. unfold EncodeBase64URL.
  rewrite length_b64_encode, Hl, Nat.eqb_refl. cbn [negb]. by rewrite b64_decode_encode, Hl, Nat.eqb_refl, beq_refl.
Qed.

Lemma parse_int64_format z : 0 <= z < 2 ^ 63 -> parse_int64 (format_uint z) = Some z.
Proof.
  intros Hz. pose proof (parse_format_uint z (proj1 Hz)) as Hp. pose proof (format_uint_digits z) as Hd.
  unfold parse_int64. destruct (format_uint z) as [|c r] eqn:E; [by apply format_uint_nonempty in E|].
  cbn [forallb] in Hd. apply andb_true_iff in Hd as [Hc _].
  destruct c; try discriminate Hc; cbn beta iota zeta; rewrite Hp; by compare_lia.
Qed.

Lemma integerField_ok o name z lo hi :
  field o name = jsonNumber z -> 0 <= lo <= z -> z <= hi <= maxSafeInteger -> integerField o name lo hi = Ok z.
Proof.
  intros Hf Hl Hh. unfold integerField. rewrite Hf. cbn [jsonNumber]. unfold maxSafeInteger in *.
  rewrite parse_int64_format by lia. by compare_lia.
Qed.

Lemma enumStringField_ok o name s allowed :
  field o name = JString s -> s ∈ map str allowed -> enumStringField o name allowed = Ok s.
Proof.
  intros Hf (x & -> & Hin)%list_elem_of_fmap. unfold enumStringField, stringField. rewrite Hf. cbn.
  assert (existsb (fun candidate => beq (str x) (str candidate)) allowed = true) as ->; [|done].
  apply existsb_exists. exists x. split; [by apply list_elem_of_In|apply beq_refl].
Qed.

Lemma result_schema `{MapRangeLaws} result :
  result_valid result = true -> result_typed result -> Validate ResultKind (JObject (result_object result)) = Ok tt.
Proof.
  intros (He & Hs & Ho & Hg & Ha)%valid_result_strings [[Hi Hq] [Hg0 Ha0]]. apply one_of_in in He, Hs, Ho.
  cbn [Validate]. unfold validateResult. apply bind_ok. exists (result_object result). split.
  { apply closedObject_ok. split; [done|]. rewrite result_members. split; repeat constructor; by eexists. }
  assert (maxSafeInteger = a9MaxSafeInteger) as Hmax by reflexivity. assert (1 <= a9MaxSafeInteger) as Hone by by vm_compute.
  unfold fixedString, fixedInteger, environmentField, base64URLFields, integerFields, stringField. rewrite Hmax.
  rewrite result_members. set (o := [_; _; _; _; _; _; _; _; _; _] : object).
  change (field o "protocol") with (JString (str "hytch.a9-vault-cas-result")). cbn [mbind result_bind].
  rewrite beq_refl. cbn [negb mbind result_bind].
  rewrite (integerField_ok o "schema_version" 1 1 1) by first [reflexivity|lia].
  rewrite (enumStringField_ok o "environment" (reEnvironment result)) by done.
  cbn [mbind result_bind for_each Z.eqb Pos.eqb negb].
  rewrite (base64URLField_ok o "installation_binding_id" 16 (reInstallationBindingID result)) by done.
  rewrite (base64URLField_ok o "sequencer_epoch" 16 (reSequencerEpoch result)) by done. cbn [mbind result_bind].
  rewrite (integerField_ok o "subscription_generation" (reSubscriptionGeneration result)) by first [reflexivity|lia].
  rewrite (integerField_ok o "accepted_stream_sequence" (reAcceptedStreamSequence result)) by first [reflexivity|lia].
  cbn [mbind result_bind]. rewrite (enumStringField_ok o "state" (reState result)) by done.
  rewrite (enumStringField_ok o "outcome" (reOutcome result)) by done. cbn [mbind result_bind].
  change (field o "idempotent_replay") with (JBool (beq (reOutcome result) ResultOutcomeReplay)).
  unfold ResultOutcomeReplay. by destruct (beq (reOutcome result) (str "REPLAY")).
Qed.

(** A result always has its text. For every valid result of fixed-size identifiers and
    unsigned numbers the body exists, passes the schema of the contract, and reads back as the
    members of that result: a vault's answer is never lost to the encoding. *)
Theorem valid_result_has_its_text `{MapRangeLaws} (result : Result)
    (Hv : result_valid result = true) (Ht : result_typed result) : exists body,
  CanonicalJSON result = Some body /\ ParseStrictJSON body = Ok (JObject (result_object result)) /\
  Validate ResultKind (JObject (result_object result)) = Ok tt.
Proof.
  pose proof (result_schema result Hv Ht) as Hs. pose proof (valid_result_strings result Hv) as (He & Hst & Ho & Hg & Ha).
  assert (Hc : exists body, Canonicalize (JObject (result_object result)) = Ok body).
  { apply object_canonical. destruct Ht as [_ [Hg0 Ha0]]. apply one_of_in in He, Hst, Ho.
    assert (Hascii : forall v l, v ∈ l -> forallb isASCII l = true -> isASCII v = true).
    { intros v l Hin Hl. rewrite forallb_forall in Hl. by apply Hl, list_elem_of_In. }
    assert (maxIJSONInteger = a9MaxSafeInteger) as Hmax by reflexivity.
    rewrite result_members. repeat apply Forall_cons_2; try apply Forall_nil_2; (split; [reflexivity|]); cbn [snd];
      try (apply number_canonical; unfold maxIJSONInteger, a9MaxSafeInteger in *; lia);
      try (apply string_canonical; first [apply b64_ascii|reflexivity|eapply Hascii; [eassumption|reflexivity]]).
    by eexists. }
  destruct Hc as [body Hc]. exists body. unfold CanonicalJSON. rewrite Hv. cbn [negb]. rewrite Hs, Hc.
  split; [done|]. split; [|done]. destruct (wire_well_formed _ (result_wire result)) as [Hw Hp].
  pose proof (canonical_reads _ _ Hc Hw) as Hr. by rewrite Hp in Hr.
Qed.

Lemma DecodeReplace_environment `{MapRange} raw environment binder now request :
  DecodeReplace raw environment binder now = Ok request -> rqEnvironment request = environment.
Proof.
  unfold DecodeReplace. intros [_ Hx]%reject_ok. destruct (Decode _ _) as [o|]; [|done].
  apply reject_ok in Hx as [_ Hx]. apply bind_ok in Hx as (r & Hr & Hx). apply bind_ok in Hx as (items & _ & Hx).
  apply bind_ok in Hx as (subs & _ & [= <-]). cbn. unfold valid in Hr.
  destruct (decode_header raw environment o) as [r'|] eqn:E; [|done]. injection Hr as ->. unfold decode_header in E.
  destruct (negb _) in E; [done|].
  repeat first [apply bind_Some in E as (? & _ & E) | destruct (_ || _) in E; [done|] | injection E as <-]. done.
Qed.

Section Served.
Context {T R V : Type}.
Variable h : Handler T R V.
Context `{HE : Ed25519, HR : MapRange}.

Abbreviation answer := (result Z (Result * resultIdentity)).

(** The calls of the vault an endpoint makes for a body it has verified against a keyset, and
    the identity the result must have. *)
Inductive verified_call (raw : bytes) (keyset : object) (now : Z) (t : T)
  : endpointKind -> (V -> V * option Result) -> resultIdentity -> Prop :=
| call_control c :
    VerifyControl raw {| ceEnvironment := hdEnvironment h; ceEvaluationTime := now; ceKeyset := Some keyset |} = Ok c ->
    verified_call raw keyset now t endpointControl (vsApplyControl (hdStore h) c) (control_identity c)
| call_watermark m verdict :
    VerifyWatermark raw {| ceEnvironment := hdEnvironment h; ceEvaluationTime := now; ceKeyset := Some keyset |} =
      Ok (m, verdict) ->
    IsEligible verdict = true \/ verifiedSignedUncertainty m verdict = true ->
    verified_call raw keyset now t endpointWatermark (vsApplyWatermark (hdStore h) m) (watermark_identity m)
| call_replace receipt t' binder request :
    keysetReceipt keyset (hdEnvironment h) = Some receipt ->
    tpAcquireTopicBindingLease (hdTrust h) now (krSequence receipt) (krHash receipt) t = (t', Some binder) ->
    DecodeReplace raw (hdEnvironment h) binder now = Ok request ->
    verified_call raw keyset now t endpointReplace (vsReplace (hdStore h) request receipt) (replace_identity request).

Definition answered (call : V -> V * option Result) (identity : resultIdentity) (v : V) : answer :=
  match (call v).2 with Some result => Ok (result, identity) | None => Err 503 end.

(** The dispatch failed and left vault and replay store, or made one verified call. *)
Definition dispatched (kind : endpointKind) (raw : bytes) (keyset : object) (now : Z) (w w' : World T R V) (d : answer)
  : Prop :=
  woReplay w' = woReplay w /\
  ((woVault w' = woVault w /\ (d = Err 400 \/ d = Err 503)) \/
   exists call identity, verified_call raw keyset now (woTrust w) kind call identity /\
     woVault w' = (call (woVault w)).1 /\ d = answered call identity (woVault w)).

Lemma artifact_failure_ok verdict w w' d :
  artifact_failure h verdict w = (w', d) ->
  woReplay w' = woReplay w /\ woVault w' = woVault w /\ (d = Err 400 \/ d = Err 503).
Proof.
  unfold artifact_failure, statusForArtifactFailure.
  destruct (RequiresKeysetUncertainty verdict); [intros [= <- <-]; auto|].
  destruct (String.eqb _ _); intros [= <- <-]; auto.
Qed.

Lemma call_store_ok call identity (w w' : World T R V) d :
  call_store call identity w = (w', d) ->
  woReplay w' = woReplay w /\ woVault w' = (call (woVault w)).1 /\ d = answered call identity (woVault w).
Proof. unfold call_store, answered. destruct (call (woVault w)) as [v a]. by intros [= <- <-]. Qed.

Lemma failed_dispatch kind raw keyset now w w' verdict d :
  artifact_failure h verdict w = (w', d) -> dispatched kind raw keyset now w w' d.
Proof. intros (Hr & Hv & Hd)%artifact_failure_ok. split; [done|]. by left. Qed.

Lemma dispatch_cases kind raw keyset now w w' d :
  dispatch h kind raw keyset now w = (w', d) -> dispatched kind raw keyset now w w' d.
Proof.
  assert (Hcall : forall call identity, verified_call raw keyset now (woTrust w) kind call identity ->
    call_store call identity w = (w', d) -> dispatched kind raw keyset now w w' d).
  { intros call identity Hc (Hr & Hv & Hd)%call_store_ok. split; [done|]. right. by exists call, identity. }
  destruct kind; cbn [dispatch].
  - destruct (VerifyControl _ _) as [c|verdict] eqn:Ev; [|by apply failed_dispatch].
    by apply Hcall, call_control.
  - destruct (VerifyWatermark _ _) as [[m verdict]|verdict] eqn:Ev; [|by apply failed_dispatch].
    destruct (negb _ && _) eqn:Eb; [by apply failed_dispatch|]. apply Hcall, call_watermark with verdict; [done|].
    apply andb_false_iff in Eb as [E|E]; apply negb_false_iff in E; auto.
  - clear Hcall. destruct (keysetReceipt _ _) as [receipt|] eqn:Ek; [|intros [= <- <-]; split; auto].
    destruct (tpAcquireTopicBindingLease _ _ _ _ _) as [t' [binder|]] eqn:El; [|intros [= <- <-]; split; auto].
    cbv zeta. destruct (DecodeReplace _ _ _ _) as [request|e] eqn:Ed.
    + intros (Hr & Hv & Hd)%call_store_ok. split; [done|]. right. eexists _, _. by split; [eapply call_replace|].
    + destruct (tracked_failure e); [|intros [= <- <-]; split; auto].
      intros (Hr & Hv & Hd)%artifact_failure_ok. split; [done|]. by left.
Qed.

(** ** Admission *)

(** A request that comes to its token: exact target over TLS, one bearer and one content type,
    a body that was read whole and is in bounds. *)
Record admitted (request : HttpRequest) (en : endpoint) (compact raw : bytes) : Prop := {
  ad_route : routeForPath request = Some en;
  ad_target : hrMethod request = enMethod en /\ hrRequestURI request = enPath en /\ hrTLS request = true;
  ad_bearer : hrAuthorization request = [str "Bearer " ++ compact];
  ad_content : hrContentType request = [str "application/json"] /\ hrContentEncoding request = [];
  ad_body : hrBody request = Some (raw, false) /\ 0 < Z.of_nat (length raw) <= MaxRequestBodyBytes /\
    (hrContentLength request = -1 \/ hrContentLength request = Z.of_nat (length raw));
}.

Lemma canonicalBearer_ok values compact :
  canonicalBearer values = Some compact -> values = [str "Bearer " ++ compact].
Proof.
  unfold canonicalBearer. destruct values as [|value [|]]; try done. destruct (_ || _) eqn:E; [done|]. boolprop.
  cbv zeta. destruct (negb _); [done|]. destruct (forallb _ _); [|done]. intros [= <-].
  match goal with H : has_prefix _ _ = true |- _ => apply has_prefix_true in H as [r ->] end. by rewrite trim_prefix_app.
Qed.

Lemma readBoundedBody_ok request raw :
  readBoundedBody request = Ok raw ->
  hrBody request = Some (raw, false) /\ 0 < Z.of_nat (length raw) <= MaxRequestBodyBytes /\
  (hrContentLength request = -1 \/ hrContentLength request = Z.of_nat (length raw)).
Proof.
  unfold readBoundedBody. destruct (hrBody request) as [[data failed]|]; [|done].
  intros [E1 H]%reject_ok. apply reject_ok in H as [E2 H]. unfold read_limited in H. cbn [fst] in H.
  set (limit := MaxRequestBodyBytes) in *. assert (0 < limit) as Hlim by done. clearbody limit.
  destruct (Z.ltb_spec (Z.of_nat (length data)) (limit + 1)).
  - apply reject_ok in H as [-> H]. apply reject_ok in H as [E3 H]. apply reject_ok in H as [E4 H].
    apply reject_ok in H as [E5 [= ->]]. boolprop. apply beq_false in E3. split; [done|].
    apply andb_false_iff in E5. rewrite negb_false_iff, Z.eqb_eq, Z.leb_gt in E5.
    destruct raw; [done|]. cbn [length] in *. split; lia.
  - apply reject_ok in H as [_ H]. apply reject_ok in H as [E4 H]. clear H.
    apply Z.ltb_ge in E4. rewrite length_take_le in E4 by lia. boolprop. lia.
Qed.

Lemma admit_request_ok request en compact raw :
  admit_request request = Ok (en, compact, raw) -> admitted request en compact raw.
Proof.
  unfold admit_request. intros (en' & Hr & H)%bind_ok. apply reject_ok in H as [Em H]. apply reject_ok in H as [Et H].
  apply bind_ok in H as (compact' & Hc & H). apply reject_ok in H as [Ec H].
  destruct (readBoundedBody request) as [raw'|] eqn:Eb; [|done]. injection H as -> -> ->.
  destruct (routeForPath request) as [en'|] eqn:Er; [|done]. injection Hr as ->.
  destruct (canonicalBearer _) as [c|] eqn:Ea; [|done]. injection Hc as ->.
  apply canonicalBearer_ok in Ea. apply readBoundedBody_ok in Eb. unfold exactRequestTarget in Et.
  destruct (hrURL request); [|by boolprop]. boolprop. beqs.
  constructor; try done. unfold exactJSONContentType in Ec. destruct (hrContentType request) as [|v [|]]; try done.
  boolprop. beqs. subst. by destruct (hrContentEncoding request).
Qed.

Definition fixed_bodies : list bytes := [fixedRejectedBody; fixedAuthenticationBody; fixedUnavailableBody].

(** A refusal says only which of three things happened. *)
Definition fixed_error (resp : Response) : Prop := rsBody resp ∈ fixed_bodies /\ 400 <= rsStatus resp.

Lemma writeFixedError_fixed status : 400 <= status -> fixed_error (writeFixedError status).
Proof. intros Hs. split; [|done]. unfold writeFixedError. repeat destruct (_ =? _); repeat constructor. Qed.

Lemma allowing_fixed method resp : fixed_error resp -> fixed_error (allowing method resp).
Proof. done. Qed.

Lemma readBoundedBody_status request status : readBoundedBody request = Err status -> 400 <= status.
Proof.
  unfold readBoundedBody. destruct (hrBody request) as [body|]; [|intros [= <-]; lia].
  destruct (read_limited _ body) as [raw failed]. repeat (destruct (_ : bool); [intros [= <-]; lia|]). done.
Qed.

Lemma admit_request_refusal request refusal : admit_request request = Err refusal -> fixed_error refusal.
Proof.
  unfold admit_request. destruct (routeForPath request) as [en|]; cbn; [|intros [= <-]; by apply writeFixedError_fixed].
  destruct (negb _); [intros [= <-]; by apply allowing_fixed, writeFixedError_fixed|].
  destruct (_ || _); [intros [= <-]; by apply writeFixedError_fixed|].
  destruct (canonicalBearer _); cbn; [|intros [= <-]; by apply writeFixedError_fixed].
  destruct (negb _); [intros [= <-]; by apply writeFixedError_fixed|].
  destruct (readBoundedBody request) as [|status] eqn:E; [done|]. intros [= <-].
  by eapply writeFixedError_fixed, readBoundedBody_status.
Qed.

(** The identity is in the handler's environment. *)
Lemma verified_environment raw keyset now t kind call identity :
  verified_call raw keyset now t kind call identity -> riEnvironment identity = hdEnvironment h.
Proof.
  intros [c Hv|m verdict Hv _|receipt t' binder request _ _ Hd]; cbn.
  - apply VerifyControl_accepted in Hv as (o & k & _ & Ha). exact (proj1 (ca_environment _ _ _ _ _ Ha)).
  - apply VerifyWatermark_accepted in Hv as (o & k & _ & Ha). exact (wa_environment _ _ _ _ _ _ Ha).
  - by apply DecodeReplace_environment in Hd.
Qed.

(** ** Serving *)

(** The request came through: its token was consumed and one verified call was made. *)
Record served (request : HttpRequest) (now : Z) (w w' : World T R V) (resp : Response) (en : endpoint)
    (compact raw : bytes) (keyset : object) (token : VerifiedJWT) (call : V -> V * option Result)
    (identity : resultIdentity) : Prop := {
  sv_admitted : admitted request en compact raw;
  sv_keyset : exists t, tpVerifier (hdTrust h) now (woTrust w) = (t, Some keyset) /\
    verified_call raw keyset now t (enKind en) call identity;
  sv_token : ValidateJWT compact (token_expectations h en raw now keyset) = Ok token;
  sv_consumed : hdReplay h (vjEnvironment token) (vjJTI token) (vjRetainUntil token) now (woReplay w) =
    (woReplay w', Some true);
  sv_vault : woVault w' = (call (woVault w)).1;
  sv_response : resp = respond (answered call identity (woVault w));
}.

Lemma VerifyAndConsume_ok compact expected cancelled (r r' : R) v :
  VerifyAndConsume compact expected cancelled (hdReplay h) r = (r', Ok v) ->
  ValidateJWT compact expected = Ok v /\
  hdReplay h (vjEnvironment v) (vjJTI v) (vjRetainUntil v) (jeNow expected) r = (r', Some true).
Proof.
  unfold VerifyAndConsume, verify. destruct (negb (validExpectations expected)); [done|].
  destruct (ValidateJWT compact expected) as [v'|] eqn:Ev; [|done]. destruct (_ || _); [done|].
  destruct cancelled; [done|]. destruct (hdReplay h _ _ _ _ r) as [r1 [[|]|]] eqn:Ec; try done.
  intros [= -> ->]. done.
Qed.

Lemma fixed_served request now w w' resp :
  ServeHTTP h request now w = (w', resp) ->
  (woVault w' = woVault w /\ fixed_error resp) \/
  exists en compact raw keyset token call identity,
    served request now w w' resp en compact raw keyset token call identity.
Proof.
  assert (Hfix : forall status w1, 400 <= status -> woVault w1 = woVault w ->
    (w1, writeFixedError status) = (w', resp) -> (woVault w' = woVault w /\ fixed_error resp) \/
    exists en compact raw keyset token call identity,
      served request now w w' resp en compact raw keyset token call identity).
  { intros status w1 Hs Hw [= <- <-]. left. split; [done|by apply writeFixedError_fixed]. }
  unfold ServeHTTP. destruct (admit_request request) as [[[en compact] raw]|refusal] eqn:Ea.
  2: { intros [= <- <-]. left. split; [done|]. by apply admit_request_refusal in Ea. }
  apply admit_request_ok in Ea. unfold serve_admitted. destruct (is_zero now); [by apply Hfix|].
  destruct (tpVerifier (hdTrust h) now (woTrust w)) as [t [keyset|]] eqn:Et; [|by apply Hfix].
  cbv zeta. destruct (VerifyAndConsume _ _ _ _ _) as [r [token|e]] eqn:Ev; [|destruct e; by apply Hfix].
  apply VerifyAndConsume_ok in Ev as [Hv Hc]. destruct (dispatch _ _ _ _ _ _) as [w2 d] eqn:Ed. intros Hx.
  apply dispatch_cases in Ed as [Hr [[Hvault Hd]|(call & identity & Hcall & Hvault & Hd)]].
  - revert Hx. destruct Hd as [->| ->]; by apply Hfix.
  - right. injection Hx as <- <-. exists en, compact, raw, keyset, token, call, identity. constructor; try done.
    + by exists t.
    + cbn in Hc, Hr. by rewrite Hr.
    + by rewrite Hd.
Qed.

(** C4: a request reaches the vault only authenticated, verified and once. Serving any request
    leaves the vault as it was and answers with a fixed error, or: the request was addressed
    exactly and over TLS; its bearer token is under a signature of a listed service key, in its
    window, and names this environment, method, path and the hash of this body; the replay store
    answered that the token is consumed for the first time; and the vault changed by the one
    call of the endpoint on the object verified in the body. *)
Theorem vault_is_reached_by_verified_requests (request : HttpRequest) (now : Z) (w w' : World T R V) (resp : Response)
  (Hx : ServeHTTP h request now w = (w', resp)) :
  (woVault w' = woVault w /\ fixed_error resp) \/
  exists en compact raw keyset token call identity header claims publicKey signature,
    admitted request en compact raw /\
    token_accepted compact (token_expectations h en raw now keyset) token header claims keyset publicKey signature /\
    hdReplay h (vjEnvironment token) (vjJTI token) (vjRetainUntil token) now (woReplay w) = (woReplay w', Some true) /\
    (exists t, tpVerifier (hdTrust h) now (woTrust w) = (t, Some keyset) /\
       verified_call raw keyset now t (enKind en) call identity) /\
    woVault w' = (call (woVault w)).1.
Proof.
  apply fixed_served in Hx as [Hf|(en & compact & raw & keyset & token & call & identity & Hs)]; [by left|right].
  pose proof (sv_token _ _ _ _ _ _ _ _ _ _ _ _ Hs) as Ht.
  apply ValidateJWT_accepted in Ht as (header & claims & keyset' & publicKey & signature & Ht).
  pose proof (proj1 (ta_key _ _ _ _ _ _ _ _ Ht)) as E. cbn in E. injection E as ->.
  exists en, compact, raw, keyset', token, call, identity, header, claims, publicKey, signature.
  destruct Hs as [Ha Hk _ Hc Hw _]. done.
Qed.

Lemma respond_ok result identity :
  matches identity result = true -> forall resp, respond (Ok (result, identity)) = resp ->
  resp = writeFixedError 503 \/
  exists body status, CanonicalJSON result = Some body /\ HTTPStatus result = Ok status /\ resp = writeJSON status body.
Proof.
  intros Hm resp <-. unfold respond. rewrite Hm. cbn [negb].
  destruct (CanonicalJSON result) as [body|]; [|by left]. destruct (HTTPStatus result) as [status|]; [|by left].
  right. by exists body, status.
Qed.

Lemma matches_identity identity result :
  matches identity result = true ->
  reEnvironment result = riEnvironment identity /\
  reInstallationBindingID result = riInstallationBindingID identity /\
  reSequencerEpoch result = riSequencerEpoch identity.
Proof. unfold matches. intros H. boolprop. by beqs. Qed.

Lemma HTTPStatus_ok result status :
  HTTPStatus result = Ok status ->
  status = 200 /\ (reOutcome result = ResultOutcomeApplied \/ reOutcome result = ResultOutcomeReplay) \/
  status = 409 \/ status = 503.
Proof.
  unfold HTTPStatus. intros [_ H]%reject_ok. revert H.
  destruct (one_of _ [ResultOutcomeApplied; ResultOutcomeReplay]) eqn:E.
  - intros [= <-]. left. split; [done|]. unfold one_of in E. cbn [existsb] in E. rewrite orb_false_r in E.
    apply orb_true_iff in E as [E|E]; apply beq_true in E; auto.
  - clear E. destruct (one_of _ _); [intros [= <-]; auto|]. destruct (beq _ _); [intros [= <-]; auto|done].
Qed.

(** C21: the handler says what the vault said, or nothing. A response that is not one of the
    three fixed bodies is the canonical text of a result that the vault returned for the
    verified request, about the environment, installation and epoch of that request, with the
    status of its outcome; and 200 is the answer only when the vault applied the request or had
    applied it before. *)
Theorem response_is_the_vaults (request : HttpRequest) (now : Z) (w w' : World T R V) (resp : Response)
  (Hx : ServeHTTP h request now w = (w', resp)) :
  fixed_error resp \/
  exists en compact raw keyset token call identity result,
    served request now w w' resp en compact raw keyset token call identity /\
    (call (woVault w)).2 = Some result /\
    CanonicalJSON result = Some (rsBody resp) /\ HTTPStatus result = Ok (rsStatus resp) /\
    reEnvironment result = hdEnvironment h /\
    reInstallationBindingID result = riInstallationBindingID identity /\
    reSequencerEpoch result = riSequencerEpoch identity /\
    (rsStatus resp = 200 -> reOutcome result = ResultOutcomeApplied \/ reOutcome result = ResultOutcomeReplay).
Proof.
  apply fixed_served in Hx as [[_ Hf]|(en & compact & raw & keyset & token & call & identity & Hs)]; [by left|].
  assert (H503 : fixed_error (writeFixedError 503)) by by apply writeFixedError_fixed.
  pose proof (sv_response _ _ _ _ _ _ _ _ _ _ _ _ Hs) as Hr. unfold answered in Hr.
  destruct (call (woVault w)).2 as [result|] eqn:Ec; [|left; by rewrite Hr].
  destruct (matches identity result) eqn:Em.
  2: { left. unfold respond in Hr. rewrite Em in Hr. by rewrite Hr. }
  destruct (respond_ok _ _ Em _ (eq_sym Hr)) as [->|(body & status & Hj & Hst & ->)]; [by left|right].
  exists en, compact, raw, keyset, token, call, identity, result. apply matches_identity in Em as (E1 & E2 & E3).
  assert (riEnvironment identity = hdEnvironment h) as E4.
  { destruct (sv_keyset _ _ _ _ _ _ _ _ _ _ _ _ Hs) as (t & _ & Hc). by eapply verified_environment. }
  split; [done|]. split; [done|]. split; [done|]. split; [done|]. split; [congruence|]. split; [done|]. split; [done|].
  cbn [rsStatus writeJSON]. intros ->. destruct (HTTPStatus_ok _ _ Hst) as [[_ H]|[|]]; done.
Qed.

End Served.
