(* ===== verification/A9Api.v ===== *)
(** * The internal API in front of its stores

    The handler of [A9Handler] with the durable replay store of [ReplayReceipts] and with the
    control vault of [A9Vault] and [A9Replace]: over any sequence of requests a token comes to
    the vault at most once, and nothing a request holds breaks the vault's invariant. *)

From S2P Require Import Prelude GoBytes GoTime GoCrypto GoJson VaultCrypto JsonText Jcs A9Schema A9Types A9Trust A9Keyset A9Verify ServiceAuth Sql A9VaultDb ReplayReceipts A9Vault Aggregates A9VaultSpec A9VaultInv A9Accept A9Current ReplaceRequest A9Replace A9Handler DeliveryJob DeliveryQueue DeliveryOps DeliveryAttempt Tombstones RouteKeys DeliveryErase Refresh Interfaces Topics Policy Moves ReplaceMoves DeliveryInv DeliveryMoves ErasureMoves DeliveryCalls A9VaultProps ReplaceProps A9HandlerProps.
Local Open Scope Z_scope.
Local Open Scope go_scope.

(** ** Tokens and the vault *)

Section Once.
Context {T V : Type}.
Context `{HP : Postgres, HE : Ed25519, HR : MapRange}.
Variable environment : bytes.
Variable trust : TrustProvider T.
Variable store : VaultStore V.

(** The handler during one request, whose consumption has its own attempt. *)
Definition api_handler (round : ConsumeRound) : Handler T JtiDB V := {|
  hdEnvironment := environment; hdTrust := trust; hdReplay := Consume round; hdStore := store |}.

(** The states, the clock of the database, and a token for every request that has come to the
    vault. Between requests the purge runs, and the trust manager and the vault move as they
    like. *)
Inductive api_step : World T JtiDB V * Z * list token -> World T JtiDB V * Z * list token -> Prop :=
| api_served clock log round request now w w' resp en compact raw keyset verified call identity t :
    clock <= crCommitClock round ->
    ServeHTTP (api_handler round) request now w = (w', resp) ->
    served (api_handler round) request now w w' resp en compact raw keyset verified call identity ->
    token_of (vjEnvironment verified) (vjJTI verified) (vjRetainUntil verified) = Some t ->
    api_step (w, clock, log) (w', crCommitClock round, log ++ [t])
| api_refused clock log round request now w w' resp :
    clock <= crCommitClock round ->
    ServeHTTP (api_handler round) request now w = (w', resp) -> woVault w' = woVault w ->
    api_step (w, clock, log) (w', crCommitClock round, log)
| api_purge clock log att cancelled w db answer :
    clock <= atNow att -> PurgeExpired att cancelled (woReplay w) = (db, answer) ->
    api_step (w, clock, log) (with_replay db w, atNow att, log)
| api_elsewhere clock log w t v :
    api_step (w, clock, log) (with_vault v (with_trust t w), clock, log).

(** Every request makes one of the first two steps. *)
Lemma request_steps clock log round request now w w' resp :
  clock <= crCommitClock round -> ServeHTTP (api_handler round) request now w = (w', resp) ->
  exists log', api_step (w, clock, log) (w', crCommitClock round, log').
Proof.
  intros Hc Hx. pose proof (fixed_served _ _ _ _ _ _ Hx) as [[Hv _]|(en & compact & raw & keyset & v & call & id & Hs)].
  { exists log. by eapply api_refused. }
  pose proof (sv_consumed _ _ _ _ _ _ _ _ _ _ _ _ _ Hs) as Hcons. cbn in Hcons.
  apply Consume_ok in Hcons as [[_ []]|(e & u & row & Ht & _)]; [done|].
  eexists. by eapply api_served.
Qed.

(** The replay store during a request: left alone, or asked once. *)
Lemma serve_replay round request now w w' resp :
  ServeHTTP (api_handler round) request now w = (w', resp) ->
  woReplay w' = woReplay w \/
  exists environment jti retainUntil now answer,
    (second | retainUntil) /\ Consume round environment jti retainUntil now (woReplay w) = (woReplay w', answer).
Proof.
  unfold ServeHTTP. destruct (admit_request request) as [[[en compact] raw]|]; [|intros [= <- <-]; by left].
  unfold serve_admitted. destruct (is_zero now); [intros [= <- <-]; by left|].
  destruct (tpVerifier _ now (woTrust w)) as [t [keyset|]]; [|intros [= <- <-]; by left]. cbv zeta.
  unfold VerifyAndConsume. destruct (verify compact _) as [v|[]] eqn:Ev; try (intros [= <- <-]; by left).
  assert (second | vjRetainUntil v) as Hd.
  { unfold verify in Ev. apply reject_ok in Ev as [_ Ev]. destruct (ValidateJWT _ _) as [v'|] eqn:Ej; [|done].
    apply reject_ok in Ev as [_ [= ->]]. apply ValidateJWT_steps in Ej as
      (? & ? & ? & ? & ? & ? & ? & ? & ? & ? & ? & _ & _ & _ & _ & _ & _ & _ & _ & _ & _ & _ & _ & ->). cbn.
    apply Z.divide_factor_r. }
  destruct (hrCancelled request); [intros [= <- <-]; by left|]. cbn [hdReplay api_handler].
  destruct (Consume round _ _ _ _ (woReplay _)) as [r a] eqn:Ec. cbn in Ec. intros Hx. right.
  exists (vjEnvironment v), (vjJTI v), (vjRetainUntil v), now, a. split; [done|].
  replace (woReplay w') with r; [done|]. destruct a as [[|]|]; [|by injection Hx as <- <-|by injection Hx as <- <-].
  destruct (dispatch _ _ _ _ _ _) as [w2 d] eqn:Ed. injection Hx as <- <-.
  by apply dispatch_cases in Ed as [-> _].
Qed.

Hypothesis ts_seconds : forall t, (second | t) -> pg_timestamp t = t.

Lemma fenced_prefix db clock log log' : fenced (db, clock, log ++ log') -> fenced (db, clock, log).
Proof.
  intros [Hf Hd]. split; [|by apply NoDup_app in Hd as [? _]].
  intros e u r Hin. apply Hf. apply elem_of_app. by left.
Qed.

Lemma fenced_later db clock clock' log : clock <= clock' -> fenced (db, clock, log) -> fenced (db, clock', log).
Proof. intros Hc [Hf Hd]. split; [|done]. intros e u r Hin. destruct (Hf _ _ _ Hin); [left; lia|by right]. Qed.

Definition fence_of (state : World T JtiDB V * Z * list token) : JtiDB * Z * list token :=
  (woReplay state.1.1, state.1.2, state.2).

Lemma api_step_fenced before after : api_step before after -> fenced (fence_of before) -> fenced (fence_of after).
Proof.
  intros [clock log round request now w w' resp en compact raw keyset v call identity t Hc Hx Hs Ht
    |clock log round request now w w' resp Hc Hx _|clock log att cancelled w db answer Hc Hx|clock log w t v];
    unfold fence_of; cbn [fst snd]; intros Hf.
  - pose proof (sv_consumed _ _ _ _ _ _ _ _ _ _ _ _ _ Hs) as Hcons. cbn in Hcons.
    pose proof (sv_token _ _ _ _ _ _ _ _ _ _ _ _ _ Hs) as Hj. apply ValidateJWT_steps in Hj as
      (? & ? & ? & ? & ? & ? & ? & ? & ? & ? & ? & _ & _ & _ & _ & _ & _ & _ & _ & _ & _ & _ & _ & E).
    eapply step_fenced; [done|eapply replay_consume; [done| |exact Ht|exact Hcons]|exact Hf].
    rewrite E. cbn. apply Z.divide_factor_r.
  - apply serve_replay in Hx as [->|(e & j & r & n & answer & Hd & Hcons)]; [by eapply fenced_later|].
    destruct (decide (answer = Some true)) as [->|Ha].
    + pose proof Hcons as Hcons'. apply Consume_ok in Hcons' as [[_ []]|(e' & u & row & Ht & _)]; [done|].
      apply fenced_prefix with [(e', u, r)]. eapply step_fenced; [done|by eapply replay_consume|exact Hf].
    + eapply step_fenced; [done|by eapply replay_other|exact Hf].
  - eapply step_fenced; [done|by eapply replay_purge|exact Hf].
  - exact Hf.
Qed.

(** C5: a service token comes to the vault at most once. Over any sequence of requests and
    purges from an empty replay table, whatever the requests hold, whatever statements and
    commits of the replay store fail, and whatever happens to trust manager and vault in
    between, as long as the clock of the database does not run backwards, no two requests come
    to the vault with the same token: the same environment, identifier and end of retention,
    which the text of a token determines. *)
Theorem token_comes_to_the_vault_once (w w' : World T JtiDB V) (clock clock' : Z) (log : list token)
    (Hempty : woReplay w = ∅) (Hrun : rtc api_step (w, clock, []) (w', clock', log)) : NoDup log.
Proof.
  assert (Hf : fenced (fence_of (w, clock, []))) by (unfold fence_of; cbn; rewrite Hempty; split; [by intros * ?%elem_of_nil|constructor]).
  assert (H' : fenced (fence_of (w', clock', log))); [|apply H'].
  revert Hrun Hf. generalize (w, clock, [] : list token) (w', clock', log).
  induction 1; [done|]. intros Hf. by eapply IHHrun, api_step_fenced.
Qed.

End Once.

(** ** The vault behind the handler *)

Section Vault.
Context {T R : Type}.
Context `{HP : Postgres, HG : AesGcm, HJ : JobJson, HT : A9TrustSurface, HVJ : VaultJson, HGJ : Gate6Json,
          HX : XmtpTopic, HTP : !TopicParser, HE : Ed25519, HR : MapRange}.
Variable rounds : nat -> Round.
Variable draws : nat -> ReplaceDraws.
Variable fuel : nat.
Variable s : Store.

Definition answer_of {A : Type} (r : result error A) : option A := match r with Ok a => Some a | Err _ => None end.

(** A call of [ApplyControl] or [ApplyWatermark] with the rounds from the current one. *)
Definition with_rounds (call : (nat -> (VaultDB -> VaultDB) * Attempt) -> VaultDB -> VaultDB * result error Result)
    (st : nat * VaultDB) : (nat * VaultDB) * option Result :=
  let '(db, r) := call (fun n => round_schedule rounds (st.1 + n)) st.2 in
  ((st.1 + a9TransactionAttempts, db)%nat, answer_of r).

Definition vault_store : VaultStore (nat * VaultDB) := {|
  vsApplyControl := fun event => with_rounds (ApplyControl s event);
  vsApplyWatermark := fun watermark => with_rounds (ApplyWatermark s watermark);
  vsReplace := fun request receipt st =>
    let '(st, r) := Replace rounds draws fuel s request receipt st in (st, answer_of r) |}.

(** What an allowed transaction does to a vault in order. *)
Definition allowed (db db' : VaultDB) : Prop := vault_inv db -> vault_inv db' /\ append_only db db'.

#[export] Instance allowed_preorder : PreOrder allowed.
Proof.
  split; [by intros db Hi|]. intros a b c Hab Hbc Hi. destruct (Hab Hi) as [Hi' Ha]. destruct (Hbc Hi') as [Hi2 Ha2].
  split; [done|by etrans].
Qed.

Lemma evolves_allowed db db' : evolves db db' -> allowed db db'.
Proof. by intros [_ Hi]. Qed.

Lemma moves_allowed {A : Type} (m : vault_tx A) : moves evolves m -> moves allowed m.
Proof. intros Hm st a st' E. by eapply evolves_allowed, Hm. Qed.

(** What the vault needs of its environment: sound commits, a permuted range over a map, and
    other transactions that are allowed. *)
Record environment_sound : Prop := {
  es_commits : forall n, commit_sound (rdAttempt (rounds n));
  es_order : forall n l, rpOrder (draws n) l ≡ₚ l;
  es_others : others_move allowed rounds;
}.

Hypothesis Hes : environment_sound.

Lemma finalize_allowed : op_moves allowed (finalizeDeliveryMarkers rounds fuel s).
Proof.
  pose proof (es_others Hes) as Ho. unfold finalizeDeliveryMarkers. induction fuel as [|n IH]; cbn [finalize_markers].
  - apply op_fail_moves. exact _.
  - split_ops; [apply moves_allowed; unfold unavailable; split_moves|].
    apply each_op_moves; [exact _|]. intros. unfold completeDeliveryFinalization. split_ops.
    apply moves_allowed, moves_complete.
Qed.

Lemma aggregate_allowed eventName outcome bucket : op_moves allowed (RecordAggregate rounds s eventName outcome bucket).
Proof.
  intros i db. unfold RecordAggregate, RecordOperationalAggregate.
  destruct (_ || _); [apply (es_others Hes)|]. destruct (run_tx_with _ _ _ _) as [db' r] eqn:E. cbn.
  etrans; [apply (es_others Hes i)|].
  refine (moves_run _ _ _ _ _ _ _ _ (moves_allowed _ (moves_aggregate _ _ _ _)) E).
Qed.

Lemma sound_round_schedule i : sound_commits (fun n => round_schedule rounds (i + n)).
Proof. intros n. apply (es_commits Hes). Qed.

Lemma allowed_round_schedule i : others_allowed (fun n => round_schedule rounds (i + n)).
Proof. intros n db Hi. by apply (es_others Hes). Qed.

Lemma receipt_typed keyset environment receipt n :
  keysetReceipt keyset environment = Some receipt -> replace_typed (draws n) receipt.
Proof.
  unfold keysetReceipt. intros [_ [_ H]%bail_some]%bail_some. destruct (field keyset "keyset_sequence"); try done.
  apply bind_Some in H as (sequence & _ & [_ H]%bail_some). destruct (Canonicalize _) as [c|]; [|done]. injection H as <-.
  split; [apply length_sha256|]. apply (es_order Hes).
Qed.

(** A replacement, finalization and counting included. *)
Lemma replace_allowed request receipt keyset environment :
  keysetReceipt keyset environment = Some receipt -> op_moves allowed (Replace rounds draws fuel s request receipt).
Proof.
  intros Hk. unfold Replace. destruct (a9RefreshRequest request) as [refresh|]; [|apply op_fail_moves; exact _].
  destruct (validA9Replace s request receipt) eqn:Ev; cbn [negb]; [|apply op_fail_moves; exact _].
  apply op_bind_moves; [exact _| |intros result].
  - intros i db Hi. destruct (replace_attempts _ _ _ _ _ _ _ _) as [[i' db'] r] eqn:Er.
    assert (Ht : calls_typed rounds draws receipt).
    { split; [intros n; by eapply receipt_typed|apply (es_commits Hes)]. }
    apply (replacement_allowed rounds draws s request receipt refresh i db db' r); try done.
    + apply (allowed_round_schedule 0).
    + by eapply replace_attempts_ok.
  - destruct (beq _ _); [|apply op_ret_moves; exact _].
    apply op_bind_moves; [exact _|apply op_mapped_moves, finalize_allowed|intros _].
    apply op_bind_moves; [exact _|apply op_attempt_moves, aggregate_allowed|intros _]. apply op_ret_moves; exact _.
Qed.

(** A verified call of the vault is allowed. *)
Lemma verified_call_allowed (h : Handler T R (nat * VaultDB)) raw keyset now t kind call identity v :
  hdStore h = vault_store -> verified_call h raw keyset now t kind call identity -> allowed v.2 (call v).1.2.
Proof.
  intros Hh [c Hv|m verdict Hv _|receipt t' binder request Hk _ _]; rewrite Hh; cbn [vault_store vsApplyControl vsApplyWatermark vsReplace].
  - apply VerifyControl_accepted in Hv as (o & k & _ & Ha%accepted_control_typed). unfold with_rounds.
    destruct (ApplyControl _ _ _ _) as [db r] eqn:E. cbn. intros Hi. split.
    + apply (call_inv s (CallControl c) _ _ _ _ Ha (sound_round_schedule _) (others_allowed_inv _ (allowed_round_schedule _)) E Hi).
    + apply (call_append s (CallControl c) _ _ _ _ Ha (sound_round_schedule _) (allowed_round_schedule _) E Hi).
  - apply VerifyWatermark_accepted in Hv as (o & k & _ & Ha%accepted_watermark_typed). unfold with_rounds.
    destruct (ApplyWatermark _ _ _ _) as [db r] eqn:E. cbn. intros Hi. split.
    + apply (call_inv s (CallWatermark m) _ _ _ _ Ha (sound_round_schedule _) (others_allowed_inv _ (allowed_round_schedule _)) E Hi).
    + apply (call_append s (CallWatermark m) _ _ _ _ Ha (sound_round_schedule _) (allowed_round_schedule _) E Hi).
  - destruct v as [i db]. pose proof (replace_allowed request receipt keyset (hdEnvironment h) Hk i db) as Hr.
    by destruct (Replace _ _ _ _ _ _ _) as [[i' db'] r].
Qed.

(** Any number of requests. *)
Inductive requests (h : Handler T R (nat * VaultDB)) : World T R (nat * VaultDB) -> World T R (nat * VaultDB) -> Prop :=
| no_request w : requests h w w
| one_request w w' w'' request now resp :
    ServeHTTP h request now w = (w', resp) -> requests h w' w'' -> requests h w w''.

(** C3: no request breaks the vault. Whatever requests the internal API serves in front of the
    vault, with whatever bodies and tokens and whatever trust manager and replay store answer,
    the vault's invariant is kept and its histories only grow: every request is one of the
    transitions under which revocations stay final and used epochs stay used. *)
Theorem requests_keep_the_vault (h : Handler T R (nat * VaultDB)) (w w' : World T R (nat * VaultDB))
    (Hstore : hdStore h = vault_store) (Hrun : requests h w w') (Hinv : vault_inv (woVault w).2) :
  vault_inv (woVault w').2 /\ append_only (woVault w).2 (woVault w').2 /\ rtc vault_trans (woVault w).2 (woVault w').2.
Proof.
  assert (Hone : forall w w' request now resp, ServeHTTP h request now w = (w', resp) ->
    allowed (woVault w).2 (woVault w').2).
  { intros w0 w1 request now resp [[-> _]|(en & compact & raw & keyset & v & call & id & Hs)]%fixed_served; [done|].
    rewrite (sv_vault _ _ _ _ _ _ _ _ _ _ _ _ _ Hs). destruct (sv_keyset _ _ _ _ _ _ _ _ _ _ _ _ _ Hs) as (t & _ & Hc).
    by eapply verified_call_allowed. }
  induction Hrun as [w|w w1 w2 request now resp Hx _ IH]; [split_and!; done|].
  destruct (Hone _ _ _ _ _ Hx Hinv) as [Hi Ha]. destruct (IH Hi) as (Hi' & Ha' & Ht).
  split; [done|]. split; [by etrans|]. econstructor; [|exact Ht]. by apply trans_other.
Qed.

End Vault.
