(* ===== verification/EnqueueProps.v ===== *)
(** * What enqueueing guarantees

    Theorems about [enqueueDeliveryJobOnce] (src/pkg/vault/delivery_jobs.go): the row an
    accepted job becomes, its deadlines and bounds, and that a source event is accepted once
    for a lease and class while its dedupe row lives; and about [RescheduleDeliveryJob]. *)

From S2P Require Import Prelude GoBytes GoTime GoCrypto A9Trust VaultCrypto Gate8Header Interfaces Sql A9Types A9VaultDb A9Vault A9VaultSpec A9VaultInv A9Current Aggregates DeliveryJob DeliveryQueue DeliveryOps DeliveryAttempt Tombstones RouteKeys DeliveryErase DeliveryInv DeliveryMoves Finalization.
Local Open Scope Z_scope.
Local Open Scope go_scope.

Section Enqueue.
Context `{HP : Postgres, HG : AesGcm, HL : !AesGcmLaws, HJ : JobJson, HT : A9TrustSurface}.

#[local] Abbreviation ts := pg_timestamp.

(** The row an accepted job becomes. *)
Record accepted_row (s : Store) (leaseID jobID : bytes) (job : SerializedDeliveryJob) (now expiresAt : Z)
    (row : JobRow) : Prop := {
  ar_lease : jbLeaseID row = Some leaseID;
  ar_state : jbState row = deliveryJobPending /\ jbAttempts row = 0;
  ar_class : jbTrafficClass row = Some (sjTrafficClass job);
  ar_snapshot : jbA9 row = snapshot_columns <$> sjA9 job;
  ar_times : jbCreatedAt row = ts now /\ jbAvailableAt row = ts now /\ jbExpiresAt row = ts expiresAt;
  ar_lifetime : jbExpiresAt row <= jbCreatedAt row + maxDeliveryJobLifetime;
  ar_payload : exists plaintext, marshal_job (with_expiration expiresAt job) = Some plaintext /\
    Open (stEncryption s) (deliveryJobContext jobID) (jbEncryptedJob row) = Ok plaintext;
}.

Lemma seal_opens k entropy context plaintext sealed :
  0 <= krActiveVersion k < 2 ^ 32 -> Seal k entropy context plaintext = Ok sealed -> Open k context sealed = Ok plaintext.
Proof.
  intros Hv (Hc & rk & dk & dn & wn & Hr & Hk & Hd & Hw & ->)%keyring_seal_ok. apply keyring_open_ok.
  apply read_full_some in Hk as [_ Hk], Hd as [_ Hd], Hw as [_ Hw]. split; [done|].
  by exists (krActiveVersion k), rk, dk, wn, dn.
Qed.

(** Only the jobs and the dedupes matter below. *)
Definition same_queue (db db' : VaultDB) : Prop :=
  dbJobs db' = dbJobs db /\ dbDedupes db' = dbDedupes db.

#[local] Instance same_queue_preorder : PreOrder same_queue.
Proof. split; [by intros db|]. intros a b c [H1 H2] [H3 H4]. unfold same_queue. split; congruence. Qed.

Lemma bound_queue s : moves same_queue (requireLookupKeyBoundTx s).
Proof.
  unfold requireLookupKeyBoundTx, require. split_moves. apply moves_exec. intros db db' [= <-]. by destruct (dbKeyBinding db).
Qed.

Lemma retention_queue s host : moves same_queue (requireRetentionSafeTx s host).
Proof.
  intros st u st' Hx%collapsed_ok. revert Hx. unfold require. apply moves_bind; [exact _|apply bound_queue|intros _].
  split_moves.
Qed.

#[local] Hint Resolve retention_queue : moves.

Lemma guard_queue s round trust leaseID job now : moves same_queue (enqueue_guard s round trust leaseID job now).
Proof.
  unfold enqueue_guard, unavailable, requireA9CurrentRouteTx, or_stop, guard_tx, lockA9CurrentKeysetReceiptTx,
    lockA9CurrentAuthorityTx, lockA9CurrentBindingTx, requireNoWinningA9TombstoneTx, lockA9CurrentRouteProjectionTx,
    loadA9CurrentAssertionTx, requireA9CurrentDescriptorsTx, require.
  split_moves.
Qed.

Lemma same_route_queue s leaseID lease job route : moves same_queue (same_route s leaseID lease job route).
Proof. unfold same_route, current_topic. split_moves. Qed.

Lemma from_result_queue {A : Type} (r : result error A) : moves same_queue (from_result r).
Proof. unfold from_result. split_moves. Qed.

Lemma still_current_queue round job now e authority route : moves same_queue (still_current round job now e authority route).
Proof. unfold still_current, unavailable. split_moves. Qed.

(** The job inserted by [store_job]. *)
Lemma store_job_ok s round leaseID jobID job maxQueued now authority route st bucket st' :
  0 <= krActiveVersion (stEncryption s) < 2 ^ 32 ->
  store_job s round leaseID jobID job maxQueued now authority route st = Ok (bucket, st') ->
  exists row, dbJobs (txDb st) !! jobID = None /\ length jobID = 16%nat /\
    dbJobs (txDb st') = <[jobID := row]> (dbJobs (txDb st)) /\ dbDedupes (txDb st') = dbDedupes (txDb st) /\
    Z.of_nat (size (dbJobs (txDb st))) < maxQueued /\
    accepted_row s leaseID jobID job now (sjExpiration job) row.
Proof.
  intros Hver. unfold store_job. destruct (marshal_job job) as [plaintext|] eqn:Em; [|done].
  destruct (Seal _ _ _ _) as [encrypted|] eqn:Es; [|done]. intros Hx.
  apply tx_bind_ok in Hx as (queued & s1 & [-> E1]%mapped_ok%query_ok & Hx).
  apply tx_bind_ok in Hx as (u & s2 & [Hq ->]%ensure_ok & Hx). apply tx_bind_ok in Hx as (c & s3 & Hc & Hx).
  apply still_current_queue in Hc as [J3 D3]. apply tx_bind_ok in Hx as (u' & s4 & [_ ->]%ensure_ok & Hx).
  apply tx_bind_ok in Hx as (u'' & s5 & Hi%mapped_ok%exec_ok & [_ ->]%ret_ok). rewrite E1 in J3, D3.
  unfold insert_job in Hi. rewrite J3 in Hi. destruct (dbJobs (txDb st) !! jobID) eqn:Ej; [done|].
  destruct (_ && _ && _ && _) eqn:E in Hi; [|done]. injection Hi as <-. boolprop.
  eexists. split; [done|]. split; [done|]. split; [reflexivity|]. split; [done|]. split; [lia|].
  split; try done. exists plaintext. split; [by destruct job|]. by eapply seal_opens.
Qed.

(** The dedupe row of a source event. *)
Definition dedupe_row (now : Z) : DedupeRow :=
  {| ddCreatedAt := ts now; ddExpiresAt := ts (now + maxDeliveryJobLifetime) |}.

Lemma insert_dedupe_ok key now st inserted st' :
  affecting (insert_dedupe key now) st = Ok (inserted, st') ->
  dbJobs (txDb st') = dbJobs (txDb st) /\
  (inserted = true -> dbDedupes (txDb st) !! key = None /\
     dbDedupes (txDb st') = <[key := dedupe_row now]> (dbDedupes (txDb st))).
Proof.
  intros [= Hi]%update_ok. unfold insert_dedupe in Hi. destruct (dbDedupes (txDb st) !! key) eqn:Ek.
  - by injection Hi as <- <-.
  - injection Hi as <- <-. done.
Qed.

(** What was found when a job was accepted, and what was written. *)
Lemma enqueue_tx_ok s round trust leaseID jobID job source maxQueued now st bucket st' :
  0 <= krActiveVersion (stEncryption s) < 2 ^ 32 ->
  enqueue_tx s round trust leaseID jobID job source maxQueued now st = Ok (Some bucket, st') ->
  exists lookup row expiresAt lease installation,
    deliverySourceEventLookup s leaseID (sjTrafficClass job) source = Some lookup /\
    dbDedupes (drop_expired_dedupes now (txDb st)) !! (leaseID, lookup, sjTrafficClass job) = None /\
    dbDedupes (txDb st') !! (leaseID, lookup, sjTrafficClass job) = Some (dedupe_row now) /\
    dbJobs (txDb st) !! jobID = None /\ length jobID = 16%nat /\
    dbJobs (txDb st') = <[jobID := row]> (dbJobs (txDb st)) /\
    Z.of_nat (size (dbJobs (txDb st))) < maxQueued /\
    expiresAt <= sjExpiration job /\ expiresAt <= authority_expiry lease installation /\
    accepted_row s leaseID jobID job now expiresAt row.
Proof.
  intros Hver. unfold enqueue_tx. cbv zeta. intros Hx.
  apply tx_bind_ok in Hx as (route & s1 & [J1 D1]%guard_queue & Hx).
  apply tx_bind_ok in Hx as (u2 & s2 & [_ E2]%mapped_ok%query_ok & Hx).
  destruct (class_expectation _) as [e|]; [|done]. apply tx_bind_ok in Hx as (u3 & s3 & [_ ->]%ensure_ok & Hx).
  apply tx_bind_ok in Hx as (found & s4 & [_ E4]%mapped_ok%query_ok & Hx).
  destruct found as [[lease installation]|]; [|done].
  apply tx_bind_ok in Hx as (b5 & s5 & [J5 D5]%from_result_queue & Hx).
  apply tx_bind_ok in Hx as (u6 & s6 & [_ ->]%ensure_ok & Hx).
  apply tx_bind_ok in Hx as (b7 & s7 & [J7 D7]%same_route_queue & Hx).
  apply tx_bind_ok in Hx as (u8 & s8 & [_ ->]%ensure_ok & Hx).
  apply tx_bind_ok in Hx as (u9 & s9 & [_ ->]%ensure_ok & Hx).
  destruct (deliverySourceEventLookup _ _ _ _) as [lookup|] eqn:El; [|done].
  apply tx_bind_ok in Hx as (u10 & s10 & [= E10]%mapped_ok%exec_ok & Hx).
  apply tx_bind_ok in Hx as (inserted & s11 & [J11 D11]%mapped_ok%insert_dedupe_ok & Hx).
  destruct inserted; [|by apply ret_ok in Hx as [[=] _]]. destruct (D11 eq_refl) as [Dn D11'].
  apply tx_bind_ok in Hx as (bucket' & s12 & Hstore & [_ ->]%ret_ok).
  apply store_job_ok in Hstore as (row & Hnone & Hlen & Hjobs & Hded & Hsize & Hrow); [|done].
  rewrite E4, E2 in *. rewrite <- E10 in J11, Dn, D11'. cbn in J11. rewrite J7, J5, J1 in J11.
  rewrite J11 in *. exists lookup, row, (enqueue_deadline (sjExpiration job) (authority_expiry lease installation) route), lease, installation.
  split; [done|]. split; [unfold drop_expired_dedupes in *; cbn in Dn |- *; by rewrite D7, D5, D1 in Dn|].
  split; [by rewrite Hded, D11', lookup_insert_eq|]. do 4 (split; [done|]).
  unfold enqueue_deadline, before. repeat split; try apply Hrow; repeat case_match; repeat case_match; lia.
Qed.

(** An accepted job becomes exactly one new row: pending, without attempts, for its
    lease and class and with its A9 snapshot, expiring no later than it asked, than its
    lease and installation and their controls, and than fifteen minutes; the queue was below
    its limit; and its payload opens to the job that was enqueued. *)
Theorem accepted_job_is_bounded (s : Store) (round : Round) (trust : option TopicLease) (leaseID jobID : bytes)
    (job : SerializedDeliveryJob) (source : bytes) (maxQueued now bucket : Z) (st st' : tx_state VaultDB) :
  0 <= krActiveVersion (stEncryption s) < 2 ^ 32 ->
  enqueue_tx s round trust leaseID jobID job source maxQueued now st = Ok (Some bucket, st') ->
  exists row expiresAt lease installation,
    dbJobs (txDb st) !! jobID = None /\ dbJobs (txDb st') = <[jobID := row]> (dbJobs (txDb st)) /\
    Z.of_nat (size (dbJobs (txDb st'))) <= maxQueued /\
    expiresAt <= sjExpiration job /\ expiresAt <= authority_expiry lease installation /\
    accepted_row s leaseID jobID job now expiresAt row.
Proof.
  intros Hver Hx. destruct (enqueue_tx_ok _ _ _ _ _ _ _ _ _ _ _ _ Hver Hx)
    as (lookup & row & e & lease & installation & _ & _ & _ & Hn & _ & Hj & Hs & He1 & He2 & Hrow).
  exists row, e, lease, installation. repeat (split; [done|]). split; [|done].
  rewrite Hj, map_size_insert_None by done. lia.
Qed.

(** C29: a source event is accepted once: after a job for an event was accepted, no job for
    the same lease, class and event is accepted again while the dedupe row of the first one
    is stored and has not expired, with whatever payload, failures and database otherwise. *)
Theorem source_event_is_enqueued_once (s s' : Store) (round round' : Round) (trust trust' : option TopicLease)
    (leaseID jobID jobID' : bytes) (job job' : SerializedDeliveryJob) (source : bytes)
    (maxQueued maxQueued' now now' bucket : Z) (st st1 later : tx_state VaultDB) (lookup : bytes) :
  0 <= krActiveVersion (stEncryption s) < 2 ^ 32 -> 0 <= krActiveVersion (stEncryption s') < 2 ^ 32 ->
  stLookupRoot s' = stLookupRoot s -> sjTrafficClass job' = sjTrafficClass job ->
  enqueue_tx s round trust leaseID jobID job source maxQueued now st = Ok (Some bucket, st1) ->
  deliverySourceEventLookup s leaseID (sjTrafficClass job) source = Some lookup ->
  dbDedupes (txDb later) !! (leaseID, lookup, sjTrafficClass job) =
    dbDedupes (txDb st1) !! (leaseID, lookup, sjTrafficClass job) ->
  ts now' < ts (now + maxDeliveryJobLifetime) ->
  forall bucket' st2,
    enqueue_tx s' round' trust' leaseID jobID' job' source maxQueued' now' later <> Ok (Some bucket', st2).
Proof.
  intros Hver Hver' Hroot Hclass Hx Hlookup Hlater Hts bucket' st2 Hx'.
  destruct (enqueue_tx_ok _ _ _ _ _ _ _ _ _ _ _ _ Hver Hx) as (l1 & _ & _ & _ & _ & Hl1 & _ & Hrow & _).
  destruct (enqueue_tx_ok _ _ _ _ _ _ _ _ _ _ _ _ Hver' Hx') as (l2 & _ & _ & _ & _ & Hl2 & Hnone & _).
  assert (l1 = lookup) as -> by congruence.
  assert (l2 = lookup) as ->.
  { unfold deliverySourceEventLookup in Hl2, Hlookup. rewrite Hroot, Hclass in Hl2. congruence. }
  rewrite Hclass in Hnone. rewrite Hrow in Hlater. unfold drop_expired_dedupes in Hnone. cbn in Hnone.
  apply map_lookup_filter_None in Hnone as [Hn|Hn]; [congruence|].
  apply (Hn _ Hlater). cbn. unfold dedupe_row. cbn. lia.
Qed.

End Enqueue.
