(* ===== verification/DeliveryProps.v ===== *)
(** * The guarantees of the delivery queue

    Theorems about the public operations of src/pkg/vault/delivery_jobs.go: how a job may
    change, what a granted attempt rests on, that a revoked binding is never delivered, and
    that finalization ends and reaches every marker. *)

From S2P Require Import Prelude GoBytes GoTime GoCrypto A9Trust VaultCrypto Gate8Header Interfaces Sql A9Types A9VaultDb A9Vault A9VaultSpec A9VaultInv A9Current Aggregates DeliveryJob DeliveryQueue DeliveryOps DeliveryAttempt Tombstones RouteKeys DeliveryErase Moves DeliveryInv DeliveryMoves ErasureMoves DeliveryCalls A9VaultProps.
Local Open Scope Z_scope.
Local Open Scope go_scope.

Section Props.
Context `{HP : Postgres, HG : AesGcm, HJ : JobJson, HT : A9TrustSurface}.

(** ** The life of a job *)

(** A final marker does not change; it is only removed. *)
Lemma final_is_kept j o :
  is_final j = true -> rtc job_move (Some j) o -> o = Some j \/ rtc job_move None o.
Proof.
  intros Hf [<-|(o1 & H1 & Hr)]%rtc_inv; [by left|]. apply state_cases in Hf.
  inversion H1 as [j0 j' Hm|j0 He|]; subst; [exfalso|by right].
  destruct Hm as [j class at_ Hs|j at_ Hs|j Hs|j class reason at_ Hl|j lookup enc at_ Hs|j state at_ retry He];
    try (apply state_cases in Hl); try (apply state_cases in He);
    unfold deliveryJobPending, deliveryJobClaimed, erasureJobPending, erasureJobClaimed, deliveryJobFinal in *; lia.
Qed.

(** C16: whatever the call, its arguments, the failures and the interleaving with other
    transactions: the queue keeps every job row allowed, so no job has more than three
    attempts or outlives fifteen minutes by its deadline; every job changes only by the
    moves of the lifecycle, so a job that was pending or claimed disappears only when its
    delivery was confirmed, counted, or turned into an erasure; a final marker is never
    changed, only removed; and the A9 control vault keeps its invariant and histories. *)
Theorem delivery_lifecycle (rounds : nat -> Round) (fuel : nat) (s : Store) (call : queue_call)
    (i : nat) (db : VaultDB) :
  others_evolve rounds ->
  let db' := (perform rounds fuel s call (i, db)).1.2 in
  (jobs_ok db -> jobs_ok db') /\
  (forall k, rtc job_move (dbJobs db !! k) (dbJobs db' !! k)) /\
  (forall k j, dbJobs db !! k = Some j -> is_final j = true ->
     dbJobs db' !! k = Some j \/ rtc job_move None (dbJobs db' !! k)) /\
  (vault_inv db -> vault_inv db' /\ append_only db db').
Proof.
  intros Ho db'. pose proof (perform_evolves rounds Ho fuel s call i db) as [Hm Hv].
  split; [by apply jobs_move_ok|]. split; [exact Hm|]. split; [|exact Hv].
  intros k j Hj Hf. pose proof (Hm k) as Hk. rewrite Hj in Hk. by apply final_is_kept.
Qed.

(** ** What a granted attempt rests on *)

(** The row of the job, claimed for this attempt. *)
Definition claimed_for (job : ClaimedDeliveryJob) (db : VaultDB) (reference : Z) (j : JobRow) : Prop :=
  dbJobs db !! cjJobID job = Some j /\ jbLeaseID j = Some (cjLeaseID job) /\ jbState j = deliveryJobClaimed /\
  jbAttempts j = cjAttempts job - 1 /\ reference < jbExpiresAt j.

(** Lease and installation are active, unexpired and those of the job, and its token and
    nonce are still the installation's and the route's. *)
Record destination_current (s : Store) (job : ClaimedDeliveryJob) (db : VaultDB) (reference : Z)
    (lease : LeaseRow) (installation : InstallationRow) : Prop := {
  dc_lease : dbLeases db !! cjLeaseID job = Some lease;
  dc_installation : dbInstallations db !! lsInstallationLookup lease = Some installation;
  dc_active : inState installation = stateActive /\ lsState lease = stateActive;
  dc_kind : lsTopicKind lease = topicConversation /\ lsPushMode lease = pushAlert;
  dc_policy : inPolicyEpoch installation = sjPolicyEpoch (cjJob job) /\ lsPolicyEpoch lease = sjPolicyEpoch (cjJob job);
  dc_route : lsRouteKeyEpoch lease = sjRouteKeyEpoch (cjJob job);
  dc_unexpired : reference < authority_expiry lease installation;
  dc_age : inAgePolicy installation = ageTeen -> stTeenConversationEnabled s = true;
  dc_token : exists encrypted token, inEncryptedToken installation = Some encrypted /\
    Open (stEncryption s) (installationContext (lsInstallationLookup lease) (str "apns-token")) encrypted = Ok token /\
    hex_decode (sjDeviceToken (cjJob job)) = Some token;
  dc_nonce : exists encoded nonce,
    Open (stEncryption s) (leaseContext (cjLeaseID job) (str "nonce-state")) (lsEncryptedNonceState lease) = Ok encoded /\
    decodeNonceState encoded = Some nonce /\ nsPrefix nonce = sjNoncePrefix (cjJob job) /\
    sjDeliverySequence (cjJob job) < nsNextSequence nonce;
}.

(** With A9: the route of the snapshot is current, the row was made for it, and the topic
    binding recomputed under the trust lease is the one of the snapshot. *)
Definition route_authorized (s : Store) (round : Round) (job : ClaimedDeliveryJob) (db : VaultDB) (now : Z)
    (j : JobRow) (lease : LeaseRow) (route : option a9CurrentRouteState) : Prop :=
  match route, sjA9 (cjJob job) with
  | Some state, Some snapshot =>
      route_current db (atNow (rdAttempt round)) (cjLeaseID job) snapshot state /\
      jbA9 j = Some (snapshot_columns snapshot) /\
      lsInstallationIdentity lease = csInstallationIdentity state /\
      Open (stEncryption s) (leaseContext (cjLeaseID job) (str "topic")) (lsEncryptedTopic lease) =
        Ok (sjProviderTopic (cjJob job)) /\
      a9TrustClockAligned now (csDatabaseNow state) = true /\
      (exists trust, AcquireTopicBindingLease now (a9KeysetSequence snapshot) (a9KeysetHash snapshot) = Some trust /\
         (topic_rebinding trust (cjJob job) snapshot now).1 = true)
  | None, None => jbA9 j = None /\ stA9Enabled s = false
  | _, _ => False
  end.

Definition attempt_authorized (s : Store) (round : Round) (job : ClaimedDeliveryJob) (db : VaultDB) : Prop :=
  let now := atHost (rdAttempt round) in
  exists j lease installation route,
    let reference := pg_timestamp (a9DeliveryReferenceTime now route) in
    1 <= cjAttempts job <= MaxDeliveryAttempts /\
    sjTrafficClass (cjJob job) = DeliveryTrafficConversation /\
    claimed_for job db reference j /\
    destination_current s job db reference lease installation /\
    route_authorized s round job db now j lease route.

Lemma unexpired_authority_some leaseID expectation reference db lease installation :
  unexpired_authority leaseID expectation reference db = Some (lease, installation) ->
  dbLeases db !! leaseID = Some lease /\ dbInstallations db !! lsInstallationLookup lease = Some installation /\
  inState installation = stateActive /\ is_Some (inEncryptedToken installation) /\
  inPolicyEpoch installation = lsPolicyEpoch lease /\
  (lsTopicKind lease, lsPushMode lease, lsState lease) = expectation /\
  reference < authority_expiry lease installation.
Proof.
  unfold unexpired_authority, lease_authority. destruct expectation as [[kind mode] state].
  destruct (dbLeases db !! leaseID) as [l|] eqn:El; [|done]. cbn.
  destruct (dbInstallations db !! lsInstallationLookup l) as [r|] eqn:Er; [|done]. cbn.
  destruct (_ && _) eqn:E1; [|done]. cbn. destruct (_ && _) eqn:E2 in |- *; [|done]. intros [= -> ->]. boolprop.
  repeat (split; [done|]). split; [congruence|]. unfold authority_expiry, least4. lia.
Qed.

Lemma attempt_row_some job reference db j :
  attempt_row job reference db = Some j -> claimed_for job db reference j.
Proof.
  unfold attempt_row, find_job, claimed_for. destruct (dbJobs db !! cjJobID job) as [j0|]; [|done]. cbn.
  destruct (_ && _) eqn:E; [|done]. intros [= ->]. boolprop. done.
Qed.

Lemma authority_matches_ok s job leaseID lease installation :
  deliveryAuthorityMatches s job leaseID lease installation = Ok true ->
  lsPolicyEpoch lease = sjPolicyEpoch job /\ lsRouteKeyEpoch lease = sjRouteKeyEpoch job /\
  (exists token, Open (stEncryption s) (installationContext (lsInstallationLookup lease) (str "apns-token"))
     (default [] (inEncryptedToken installation)) = Ok token /\ hex_decode (sjDeviceToken job) = Some token) /\
  (exists encoded nonce, Open (stEncryption s) (leaseContext leaseID (str "nonce-state"))
     (lsEncryptedNonceState lease) = Ok encoded /\ decodeNonceState encoded = Some nonce /\
     nsPrefix nonce = sjNoncePrefix job /\ sjDeliverySequence job < nsNextSequence nonce).
Proof.
  unfold deliveryAuthorityMatches. destruct (_ || _ || _ || _) eqn:E0; [done|]. boolprop.
  destruct (Open _ (installationContext _ _) _) as [token|] eqn:E1; [|done].
  destruct (hex_decode _) as [jobToken|] eqn:E2; [|done]. destruct (beq token jobToken) eqn:E3; [|done]. apply beq_true in E3 as ->.
  destruct (Open _ (leaseContext _ _) _) as [encoded|] eqn:E4; [|done].
  destruct (decodeNonceState encoded) as [nonce|] eqn:E5; [|done]. intros [= Hn]. cbn [negb] in *. boolprop.
  split; [done|]. split; [done|]. split; [by exists jobToken|]. by exists encoded, nonce.
Qed.

(** The checks of the control vault do not touch the tables of the queue. *)
Definition same_tables (db db' : VaultDB) : Prop :=
  dbJobs db' = dbJobs db /\ dbLeases db' = dbLeases db /\ dbInstallations db' = dbInstallations db.

#[local] Instance same_tables_preorder : PreOrder same_tables.
Proof.
  split; [by intros db|]. intros a b c (H1 & H2 & H3) (H4 & H5 & H6). unfold same_tables. split_and!; congruence.
Qed.

Lemma bound_tables s : moves same_tables (requireLookupKeyBoundTx s).
Proof.
  unfold requireLookupKeyBoundTx, require. split_moves. apply moves_exec. intros db db' [= <-].
  by destruct (dbKeyBinding db).
Qed.

Lemma retention_tables s host : moves same_tables (requireRetentionSafeTx s host).
Proof.
  intros st u st' Hx%collapsed_ok. revert Hx. unfold require. apply moves_bind; [exact _|apply bound_tables|intros _].
  split_moves.
Qed.

#[local] Hint Resolve retention_tables : moves.

Lemma current_tables s att lease snapshot : moves same_tables (requireA9CurrentRouteTx s att lease snapshot).
Proof.
  unfold requireA9CurrentRouteTx, or_stop, guard_tx, lockA9CurrentKeysetReceiptTx, lockA9CurrentAuthorityTx,
    lockA9CurrentBindingTx, requireNoWinningA9TombstoneTx, lockA9CurrentRouteProjectionTx,
    loadA9CurrentAssertionTx, requireA9CurrentDescriptorsTx, require.
  split_moves.
Qed.

#[local] Hint Resolve current_tables : moves.

(** What the first part of the acquisition established; [None] is a store without A9. *)
Lemma acquire_route_ok s round trust job now st route st' :
  acquire_route s round trust job now st = Ok (Some route, st') ->
  same_tables (txDb st) (txDb st') /\
  match trust, sjA9 (cjJob job) with
  | Some t, Some snapshot => exists state, route = Some state /\
      route_current (txDb st) (atNow (rdAttempt round)) (cjLeaseID job) snapshot state /\
      a9TrustClockAligned now (csDatabaseNow state) = true /\ (topic_rebinding t (cjJob job) snapshot now).1 = true
  | _, _ => route = None
  end.
Proof.
  assert (Hm : moves same_tables (acquire_route s round trust job now))
    by (unfold acquire_route, or_stop, unavailable; split_moves).
  intros Hx. split; [by apply Hm in Hx|]. clear Hm. unfold acquire_route in Hx.
  destruct trust as [t|], (sjA9 (cjJob job)) as [snapshot|];
    try (by apply tx_bind_ok in Hx as (u & s1 & _ & [[= <-] _]%ret_ok)).
  apply or_stop_ok in Hx as (state & s1 & [_ Hc]%mapped_ok%require_current_ok & Hx).
  apply tx_bind_ok in Hx as (u & s2 & [Ha ->]%ensure_ok & Hx).
  destruct (topic_rebinding t (cjJob job) snapshot now) as [same verdict] eqn:Er. destruct same.
  - apply ret_ok in Hx as [[= ->] _]. by exists state.
  - destruct (negb _ && _); [done|]. by apply ret_ok in Hx as [[=] _].
Qed.

(** What the rows were found to be. *)
Lemma acquire_rows_ok job expectation now route st lease installation st' :
  acquire_rows job expectation now route st = Ok (Some (lease, installation), st') ->
  let reference := pg_timestamp (a9DeliveryReferenceTime now route) in
  exists j, claimed_for job (txDb st) reference j /\
    unexpired_authority (cjLeaseID job) expectation reference (txDb st) = Some (lease, installation) /\
    match route with
    | Some _ => snapshot_row_matches (jbA9 j) (sjA9 (cjJob job)) = true
    | None => jbA9 j = None
    end.
Proof.
  unfold acquire_rows. cbv zeta. destruct route as [state|]; intros Hx.
  - apply or_stop_ok in Hx as (j & s1 & [Hj E]%mapped_ok%query_ok & Hx). symmetry in Hj.
    destruct (_ || _) eqn:Eb; [by apply ret_ok in Hx as [[=] _]|]. boolprop.
    apply mapped_ok, query_ok in Hx as [Ha _]. rewrite E in Ha. exists j.
    split; [by apply attempt_row_some|]. by split.
  - apply mapped_ok, query_ok in Hx as [Ha _].
    destruct (attempt_row _ _ _) as [j|] eqn:Ej; [|done]. cbn in Ha. destruct (bool_decide _) eqn:Eb; [|done].
    boolprop. exists j. split; [by apply attempt_row_some|]. by split.
Qed.

Lemma same_route_ok s leaseID lease job state st st' :
  same_route s leaseID lease job (Some state) st = Ok (true, st') ->
  lsInstallationIdentity lease = csInstallationIdentity state /\
  Open (stEncryption s) (leaseContext leaseID (str "topic")) (lsEncryptedTopic lease) = Ok (sjProviderTopic job).
Proof.
  unfold same_route, current_topic. destruct (negb _) eqn:Eb; [by intros [[=] _]%ret_ok|]. boolprop.
  destruct (Open _ _ _) as [topic|] eqn:Eo; [|done]. apply beq_true in Eb. by intros [<-%eq_sym%beq_true _]%ret_ok.
Qed.

Lemma from_result_ok {A : Type} (r : result error A) st a st' :
  from_result r st = Ok (a, st') -> r = Ok a.
Proof. unfold from_result. destruct r; [by intros [-> _]%ret_ok|done]. Qed.

(** What a granted guard rests on, in the state the transaction started in. *)
Lemma acquire_tx_ok s round trust job class st g st' :
  let now := atHost (rdAttempt round) in
  class_expectation (sjTrafficClass (cjJob job)) = Some class ->
  sjTrafficClass (cjJob job) = DeliveryTrafficConversation ->
  attempt_arguments s job now = true -> trust_lease s (cjJob job) now = Some trust ->
  acquire_tx s round trust job class now st = Ok (Some g, st') -> attempt_authorized s round job (txDb st).
Proof.
  intros now Hclass Hconv Hargs Htrust. unfold acquire_tx. intros (u & s0 & [_ E0]%mapped_ok%query_ok & Hx)%tx_bind_ok.
  apply or_stop_ok in Hx as (route & s1 & Hr & Hx). apply acquire_route_ok in Hr as [(Ej & El & Ei) Hr].
  apply or_stop_ok in Hx as ([lease installation] & s2 & Hrows & Hx).
  apply acquire_rows_ok in Hrows as (j & Hj & Ha & Hsnap). apply unexpired_authority_some in Ha.
  destruct (_ && _) eqn:Eage; [by apply ret_ok in Hx as [[=] _]|].
  apply guard_tx_ok in Hx as (s3 & Hsame & (s4 & Hm%from_result_ok & Hx)%guard_tx_ok).
  apply authority_matches_ok in Hm as (Hm1 & Hm2 & (token & Ht1 & Ht2) & Hnonce).
  rewrite E0 in *. unfold claimed_for in Hj. rewrite Ej in Hj. rewrite El, Ei in Ha.
  destruct Ha as (A1 & A2 & A3 & [encrypted A4] & A5 & A6 & A7).
  unfold class_expectation in Hclass. rewrite Hconv in Hclass. cbn in Hclass. injection Hclass as <-.
  injection A6 as A6 A6' A6''. unfold attempt_arguments in Hargs. boolprop.
  exists j, lease, installation, route. cbv zeta. split; [lia|]. split; [done|]. split; [done|]. split.
  - split; try done; [split; congruence| |exists encrypted, token; by rewrite A4 in Ht1].
    intros Hteen. rewrite Hteen in Eage. cbn in Eage. by apply negb_false_iff in Eage.
  - unfold route_authorized, trust_lease in *. destruct (sjA9 (cjJob job)) as [snapshot|] eqn:Es; cbn in Htrust.
    + destruct (AcquireTopicBindingLease _ _ _) as [t|] eqn:Et; [|done]. injection Htrust as <-.
      destruct Hr as (state & -> & Hc & Hal & Hreb). apply same_route_ok in Hsame as [Hs1 Hs2].
      split; [done|]. split; [|split; [done|]; split; [done|]; split; [done|]; by exists t].
      unfold snapshot_row_matches in Hsnap. destruct (jbA9 j); boolprop; by subst.
    + injection Htrust as <-. subst route. split; [done|].
      match goal with H : Bool.eqb _ _ = true |- _ => apply Bool.eqb_prop in H; rewrite H end.
      by apply bool_decide_eq_false_2; intros [? ?].
Qed.

Lemma attempt_authorized_of rounds fuel s job e i db st' :
  DeliveryAttempt rounds fuel s job e (i, db) = (st', Ok true) ->
  attempt_authorized s (rounds i) job (rdOthers (rounds i) db).
Proof.
  unfold DeliveryAttempt, host_clock, peek. unfold mbind at 1, op_bind at 1. cbv beta iota.
  set (now := atHost (rdAttempt (rounds i))).
  destruct (attempt_arguments s job now) eqn:Eargs; cbn [negb]; [|done].
  destruct (class_expectation _) as [class|] eqn:Eclass; [|done].
  unfold stWelcomeEnabled. cbn [negb]. rewrite andb_true_r.
  destruct (sjTrafficClass (cjJob job) =? DeliveryTrafficWelcome) eqn:Ew; [done|].
  assert (Hconv : sjTrafficClass (cjJob job) = DeliveryTrafficConversation).
  { unfold class_expectation in Eclass. rewrite Ew in Eclass. destruct (_ =? _) eqn:Ec in Eclass; [by boolprop|done]. }
  destruct (trust_lease s (cjJob job) now) as [trust|] eqn:Etrust; [|done].
  unfold mbind at 1, op_bind at 1, transact_when at 1.
  destruct (run_tx_when _ _ _ _ _) as [db' r] eqn:Er. destruct r as [outcome|]; [|done]. intros Hout.
  assert (Hbody : exists st1, attempt_tx s (rounds i) trust job class now e
    {| txDb := rdOthers (rounds i) db; txFaults := atStatements (rdAttempt (rounds i)) |} = Ok (outcome, st1)).
  { apply run_tx_when_cases in Er as [[_ [[? [=]]|(a & st1 & Hb & [= ->] & _)]]|(a & st1 & Hb & _ & _ & [[= ->]|[? [=]]])];
      by exists st1. }
  destruct Hbody as [st1 (guard & s1 & Hacq & Hx)%tx_bind_ok].
  destruct guard as [g|]; [|apply ret_ok in Hx as [-> _]; by injection Hout].
  exact (acquire_tx_ok s (rounds i) trust job class _ g s1 Eclass Hconv Eargs Etrust Hacq).
Qed.

(** C14: an attempt is only granted for a job that is claimed for exactly this attempt, the
    first three times at most, before its deadline; whose lease and installation are active,
    unexpired and under the policy and route key of the job; whose token and nonce are still
    those of the installation and the route; and, with A9, whose route is current, was the
    one the job was made for, and has the topic binding recomputed under the trust lease.
    Welcome jobs are never granted. *)
Theorem attempt_granted_is_authorized (rounds : nat -> Round) (fuel : nat) (s : Store)
    (job : ClaimedDeliveryJob) (e : ending) (i : nat) (db : VaultDB) (st' : nat * VaultDB) :
  DeliveryAttempt rounds fuel s job e (i, db) = (st', Ok true) ->
  attempt_authorized s (rounds i) job (rdOthers (rounds i) db).
Proof. apply attempt_authorized_of. Qed.

(** ** No delivery after a revocation *)

(** The control plane and the queue, as they interleave on one database. *)
Inductive system_trans (db db' : VaultDB) : Prop :=
| system_vault : vault_trans db db' -> system_trans db db'
| system_queue rounds fuel s call i :
    others_evolve rounds -> (perform rounds fuel s call (i, db)).1.2 = db' -> system_trans db db'.

Lemma system_keeps db db' : rtc system_trans db db' -> vault_inv db -> vault_inv db' /\ append_only db db'.
Proof.
  induction 1 as [db|db db1 db' Hst _ IH]; intros Hi; [done|].
  assert (H1 : vault_inv db1 /\ append_only db db1).
  { destruct Hst as [Hv|rounds fuel s call i Ho <-]; [by apply (run_inv_append db db1 (rtc_once _ _ Hv))|].
    by apply (perform_evolves rounds Ho fuel s call i db). }
  destruct H1 as [Hi1 Ha1]. destruct (IH Hi1) as [Hi' Ha']. split; [done|]. by etrans.
Qed.

(** C15: once [ApplyControl] has answered APPLIED to a revocation, no delivery attempt for a
    job whose route snapshot has the revoked binding at the revoked version or below is
    granted again, whatever control calls, queue operations and other transactions run in
    between and alongside. *)
Theorem revoked_binding_is_never_delivered (s : Store) (event : VerifiedControl)
    (schedule : nat -> (VaultDB -> VaultDB) * Attempt) (db db' later : VaultDB) (r : Result)
    (rounds : nat -> Round) (fuel : nat) (s2 : Store) (job : ClaimedDeliveryJob) (snapshot : A9RouteSnapshot)
    (e : ending) (i : nat) :
  control_typed event -> sound_commits schedule -> others_allowed schedule -> vault_inv db ->
  ApplyControl s event schedule db = (db', Ok r) ->
  vcAction event = ControlActionRevoke -> reOutcome r = ResultOutcomeApplied ->
  rtc system_trans db' later -> others_evolve rounds ->
  sjA9 (cjJob job) = Some snapshot ->
  a9InstallationBindingID snapshot = vcInstallationBindingID event ->
  a9BindingID snapshot = vcBindingID event -> a9BindingVersion snapshot <= vcBindingVersion event ->
  (DeliveryAttempt rounds fuel s2 job e (i, later)).2 <> Ok true.
Proof.
  intros Ht Hs Ho Hi Hx Hact Hout Hrun Hothers Hsnap Hinst Hbind Hver Hgrant.
  destruct (revocation_written _ _ _ _ _ _ Ht Hs Ho Hi Hx Hact Hout) as [Hi' [[row Hrow] _]].
  destruct (system_keeps _ _ Hrun Hi') as [Hil (_ & _ & Htomb & _)].
  destruct (proj2 (Hothers i later) Hil) as [_ (_ & _ & Htomb' & _)].
  destruct (DeliveryAttempt rounds fuel s2 job e (i, later)) as [st' [b|]] eqn:Ea; [|done].
  cbn in Hgrant. injection Hgrant as ->.
  apply attempt_authorized_of in Ea as (j & lease & installation & route & _ & _ & _ & _ & Hroute).
  unfold route_authorized in Hroute. rewrite Hsnap in Hroute. destruct route as [state|]; [|done].
  destruct Hroute as [Hc _]. pose proof (current_denials _ _ _ _ _ Hc (vcBindingVersion event)) as Hd.
  rewrite Hinst, Hbind in Hd. enough (vcBindingVersion event < a9BindingVersion snapshot) by lia.
  apply Hd. exists row. eapply lookup_weaken; [|exact Htomb']. by eapply lookup_weaken.
Qed.

End Props.
