(* ===== verification/QueueSample.v ===== *)
(** * Concrete runs of the queue

    A store, a lease, an installation and a job on which the theorems about the queue, the
    fences and the aggregates apply. Encryption, JSON and the trust surface are the simplest
    functions with the behaviour the theorems assume. *)

From S2P Require Import Prelude GoBytes GoTime GoCrypto A9Trust VaultCrypto Gate8Header Interfaces Sql A9Types A9VaultDb A9Vault A9VaultSpec A9VaultInv A9Current Aggregates DeliveryJob DeliveryQueue DeliveryOps DeliveryAttempt Tombstones RouteKeys DeliveryErase Moves DeliveryInv DeliveryMoves ErasureMoves DeliveryCalls A9VaultProps AggregateProps Finalization TombstoneProps EnqueueProps DeliveryProps.
Local Open Scope Z_scope.
Local Open Scope go_scope.

Module QueueSample.

#[export] Existing Instance VaultSample.pg.
#[export] Existing Instance Sample.gcm.
#[export] Existing Instance Sample.gcm_laws.

Abbreviation t0 := VaultSample.t0.

Definition job : SerializedDeliveryJob := {|
  sjDeviceToken := hex_encode (repeat x31 32); sjTopic := str "com.example.app"; sjProviderTopic := [];
  sjPayload := str "{}"; sjPushType := str "alert"; sjPriority := 10; sjExpiration := t0 + 10 * minute;
  sjTrafficClass := DeliveryTrafficConversation; sjPolicyEpoch := 3; sjRouteKeyEpoch := 2; sjNoncePrefix := 7;
  sjDeliverySequence := 5; sjAliasDay := UTCDay t0; sjRouteAlias := repeat x41 RouteAliasSize;
  sjWelcomeAuthorizationID := []; sjWelcomeEnvelopeDigest := []; sjA9 := None; sjEraseOnly := false |}.

(** The wire form of the one job of the sample. *)
#[export] Instance json : JobJson := {|
  marshal_job := fun _ => Some (str "job");
  unmarshal_job := fun text => if beq text (str "job") then Some job else None |}.

#[export] Instance trust : A9TrustSurface := {|
  TopicLease := (); AcquireTopicBindingLease := fun _ _ _ => Some tt;
  AcquireCurrentTopicBindingLease := fun _ => Some (tt, 7, repeat x0c 32);
  CandidateTopicBindings := fun _ _ now => ([(TopicEpoch now, repeat x0b 32)], Eligible);
  TopicBindingForEpoch := fun _ _ _ _ _ _ => (repeat x0b 32, Eligible) |}.

Definition store : Store := {|
  stEnvironment := str "dev"; stEnvironmentID := 1; stLookupRoot := repeat x06 32; stA9Enabled := false;
  stEncryption := {| krActiveVersion := 1; krKeys := {[1 := repeat x15 32]} |};
  stTeenConversationEnabled := false; stAuthorityKeys := ∅; stLeaseTTL := 7 * day |}.

Definition entropy : SealEntropy := KeyringSample.entropy.

Definition round : Round := {|
  rdOthers := fun db => db; rdAttempt := calm t0 t0; rdLaterHost := t0; rdLaterNow := t0;
  rdJobClock := fun _ => t0; rdJobDraw := fun _ => Some [x00; x01]; rdSeal := entropy;
  rdJobID := Some (repeat x51 16); rdCancelled := false |}.

Definition rounds : nat -> Round := fun _ => round.

Definition sealed (context value : bytes) : bytes :=
  match Seal (stEncryption store) entropy context value with Ok c => c | Err _ => [] end.

Definition leaseID : bytes := repeat x04 16.
Definition lookup : bytes := repeat x61 32.
Definition jobID : bytes := repeat x51 16.
Definition token : bytes := repeat x31 32.

Definition encrypted_token : bytes := Eval vm_compute in sealed (installationContext lookup (str "apns-token")) token.

Definition encrypted_nonce : bytes := Eval vm_compute in
  sealed (leaseContext leaseID (str "nonce-state")) (encodeNonceState {| nsPrefix := 7; nsNextSequence := 6 |}).

Definition installation : InstallationRow := {|
  inIdentity := repeat x62 32; inIncarnationLookup := repeat x63 32; inLookupKeyEpoch := 1; inGeneration := 1;
  inIdempotencyDigest := repeat x64 32; inControlEventDigest := repeat x65 32; inEncryptedToken := Some encrypted_token;
  inAgePolicy := 1; inPolicyEpoch := 3; inState := stateActive; inKeyVersion := 1; inRefreshedAt := t0;
  inExpiresAt := t0 + hour; inControlExpiresAt := t0 + hour; inRevokedAt := None |}.

Definition lease : LeaseRow := {|
  lsInstallationLookup := lookup; lsInstallationIdentity := repeat x62 32; lsRouteIdentity := repeat x66 32;
  lsTopicLookup := repeat x67 32; lsLookupKeyEpoch := 1; lsEncryptedTopic := []; lsEncryptedRouteKey := [];
  lsEncryptedHMACKeys := []; lsEncryptedCapability := []; lsTopicKind := topicConversation; lsPushMode := pushAlert;
  lsState := stateActive; lsGeneration := 1; lsPolicyEpoch := 3; lsRouteKeyEpoch := 2;
  lsEncryptedNonceState := encrypted_nonce;
  lsKeyVersion := 1; lsIssuedAt := t0; lsRefreshedAt := t0; lsExpiresAt := t0 + hour;
  lsControlExpiresAt := t0 + hour; lsRevokedAt := None |}.

Definition claimed_row : JobRow := {|
  jbLeaseID := Some leaseID; jbInstallationLookup := None; jbEncryptedJob := [x01]; jbState := deliveryJobClaimed;
  jbAttempts := 0; jbRetryExponent := 0; jbAvailableAt := t0 + minute; jbExpiresAt := t0 + 10 * minute;
  jbCreatedAt := t0; jbTrafficClass := Some DeliveryTrafficConversation; jbFinalReason := None; jbA9 := None |}.

Definition idle : VaultDB :=
  with_Leases {[leaseID := lease]} (with_Installations {[lookup := installation]} VaultSample.db).

Definition busy : VaultDB := with_Jobs {[jobID := claimed_row]} idle.

Definition claimed : ClaimedDeliveryJob := {|
  cjJobID := jobID; cjLeaseID := leaseID; cjInstallationLookup := []; cjJob := job; cjAttempts := 1;
  cjRetryExponent := 0; cjExpiresAt := t0 + 10 * minute |}.

Definition granted : bool :=
  match DeliveryAttempt rounds 8 store claimed Release (0%nat, busy) with (_, Ok b) => b | _ => false end.

Lemma is_granted : granted = true.
Proof. vm_compute. reflexivity. Qed.

Definition accepted : option (Z * VaultDB) :=
  match enqueue_tx store round None leaseID (repeat x52 16) job (str "event") 10 t0 (calm_state busy) with
  | Ok (Some bucket, st) => Some (bucket, txDb st)
  | _ => None
  end.

Lemma is_accepted : bool_decide (is_Some accepted) = true.
Proof. vm_compute. reflexivity. Qed.

End QueueSample.

Section Witnesses.
Import QueueSample.
#[local] Existing Instance QueueSample.json.
#[local] Existing Instance QueueSample.trust.
#[local] Existing Instance VaultSample.pg.
#[local] Existing Instance Sample.gcm.
#[local] Existing Instance Sample.gcm_laws.

Lemma rounds_evolve : others_evolve rounds.
Proof. intros n db. reflexivity. Qed.

Lemma rounds_quiet (n : nat) (job_ : bytes) : quiet_round job_ (rounds n).
Proof. split; [done|done|vm_compute; reflexivity|by exists [x00; x01]]. Qed.

Lemma delivery_lifecycle_witness :
  rtc job_move (dbJobs busy !! jobID) (dbJobs (perform rounds 8 store CallRecover (0%nat, busy)).1.2 !! jobID).
Proof. exact (proj1 (proj2 (delivery_lifecycle rounds 8 store CallRecover 0 busy rounds_evolve)) jobID). Defined.

Lemma attempt_granted_is_authorized_witness : attempt_authorized store round claimed busy.
Proof.
  pose proof is_granted as H. unfold granted in H.
  destruct (DeliveryAttempt rounds 8 store claimed Release (0%nat, busy)) as [st' [b|e]] eqn:E; [|discriminate H].
  apply (attempt_granted_is_authorized rounds 8 store claimed Release 0 busy st'). rewrite E, H. reflexivity.
Defined.

Definition a9_claim : ClaimedDeliveryJob := {|
  cjJobID := jobID; cjLeaseID := leaseID; cjInstallationLookup := []; cjAttempts := 1; cjRetryExponent := 0;
  cjExpiresAt := t0 + 10 * second;
  cjJob := {|
    sjDeviceToken := sjDeviceToken job; sjTopic := sjTopic job; sjProviderTopic := repeat x70 33;
    sjPayload := sjPayload job; sjPushType := sjPushType job; sjPriority := 10; sjExpiration := t0 + 10 * second;
    sjTrafficClass := DeliveryTrafficConversation; sjPolicyEpoch := 3; sjRouteKeyEpoch := 1; sjNoncePrefix := 7;
    sjDeliverySequence := 5; sjAliasDay := UTCDay t0; sjRouteAlias := sjRouteAlias job;
    sjWelcomeAuthorizationID := []; sjWelcomeEnvelopeDigest := []; sjA9 := Some VaultSample.snapshot;
    sjEraseOnly := false |} |}.

Lemma revoked_binding_is_never_delivered_witness :
  (DeliveryAttempt rounds 8 VaultSample.store a9_claim Release
     (0%nat, VaultSample.after_run VaultSample.first_revoke VaultSample.db)).2 <> Ok true.
Proof.
  assert (Hr : ApplyControl VaultSample.store VaultSample.first_revoke
      (undisturbed VaultSample.t0 VaultSample.t0) VaultSample.db =
    (VaultSample.after_run VaultSample.first_revoke VaultSample.db,
     Ok (VaultSample.result_of VaultSample.epoch ResultStateRevoked ResultOutcomeApplied 1))).
  { apply VaultSample.applied; [done|vm_compute; reflexivity..]. }
  apply (revoked_binding_is_never_delivered VaultSample.store VaultSample.first_revoke
    (undisturbed VaultSample.t0 VaultSample.t0) VaultSample.db _ _ _ rounds 8 VaultSample.store a9_claim
    VaultSample.snapshot Release 0 (VaultSample.typed "k2" VaultSample.epoch 1 1 2 x11 None ltac:(lia) ltac:(lia))
    VaultSample.undisturbed_sound VaultSample.undisturbed_allowed VaultSample.inv_db Hr eq_refl eq_refl
    (rtc_refl _ _) rounds_evolve eq_refl eq_refl eq_refl).
  cbn. lia.
Defined.

(** A marker that waits to be counted. *)
Definition marked : VaultDB := with_Jobs {[jobID := final_row 1 1 t0 claimed_row]} idle.

Lemma one_marker : (size (final_ids marked) < 2)%nat.
Proof. vm_compute. lia. Qed.

Lemma finalization_terminates_witness : (finalize_markers rounds 2 store (0%nat, marked)).2 <> Err OutOfFuel.
Proof.
  assert (Ho : others_add_no_marker rounds) by (intros n db; reflexivity).
  destruct (finalize_markers rounds 2 store (0%nat, marked)) as [st' r] eqn:E.
  apply (finalization_terminates rounds store 2 0 marked st' r Ho one_marker E).
Defined.

Lemma marked_job k j : dbJobs marked !! k = Some j -> k = jobID /\ j = final_row 1 1 t0 claimed_row.
Proof.
  change (dbJobs marked) with ({[jobID := final_row 1 1 t0 claimed_row]} : gmap bytes JobRow).
  intros [<- <-]%lookup_singleton_Some. by split.
Qed.

Lemma marked_ok : queue_tables_ok marked.
Proof.
  split; [|split].
  - intros k j [-> _]%marked_job. reflexivity.
  - intros k j [_ ->]%marked_job. split; cbn; [unfold MaxDeliveryAttempts; lia|unfold maxErasureRetryExponent; lia| |].
    + unfold maxDeliveryJobLifetime, minute, second. lia.
    + apply (shape_final _ 1 1); try reflexivity. left. lia.
  - intros key row Hr. cbn in Hr. by rewrite lookup_empty in Hr.
Qed.

Lemma finalization_completes_witness : exists i' db',
  finalize_markers rounds 2 store (0%nat, marked) = ((i', db'), Ok tt) /\ final_ids db' = ∅.
Proof.
  destruct (finalization_completes rounds store 2 0 marked rounds_quiet eq_refl marked_ok one_marker)
    as (i' & db' & Hx & Hm & _).
  exists i', db'. split; [exact Hx|exact Hm].
Defined.

Definition observed : operationalAggregateObservation := {|
  oaEventName := aggregateEventDeliveryFinal; oaOutcome := 1; oaTrafficClass := 1; oaSizeBucket := Some 1;
  oaLatencyBucket := 2 |}.

Lemma aggregate_cells_stay_coarse_witness : exists st',
  recordOperationalAggregateTx store observed t0 None (calm_state idle) = Ok (tt, st') /\ cells_grow idle (txDb st').
Proof.
  assert (H : is_ok (recordOperationalAggregateTx store observed t0 None (calm_state idle)) = true)
    by (vm_compute; reflexivity).
  destruct (recordOperationalAggregateTx store observed t0 None (calm_state idle)) as [[[] st']|e] eqn:E.
  - exists st'. split; [reflexivity|].
    apply (aggregate_cells_stay_coarse store observed t0 None (calm_state idle) st' tt E).
  - discriminate H.
Defined.

Lemma sample_ts_mono (a b : Z) : a <= b -> pg_timestamp a <= pg_timestamp b.
Proof. intros H. cbn. apply Z.mul_le_mono_nonneg_r; [lia|]. apply Z.div_le_mono; lia. Qed.

Definition deleted_route (fence now : Z) : deletion := {|
  dlKind := deletionTargetRoute; dlIdentity := repeat x66 32; dlKeyVersion := 1; dlFence := fence; dlNow := now |}.

Definition fenced : VaultDB :=
  put_deletion (deletionTargetRoute, repeat x66 32) (new_deletion 1 5 t0) idle.

Lemma deletion_fence_holds_witness :
  requireTombstoneAdvance store deletionTargetRoute (repeat x66 32) 5 (t0 + day) (calm_state fenced) = Err ErrRefreshConflict.
Proof.
  apply (deletion_fence_holds sample_ts_mono store (deleted_route 5 t0) [] 5 (t0 + day) (calm_state idle)
    (calm_state fenced) (calm_state fenced) tt tt).
  - intros key row Hr. cbn in Hr. by rewrite lookup_empty in Hr.
  - intros row Hr. cbn in Hr. by rewrite lookup_empty in Hr.
  - reflexivity.
  - intros d [].
  - reflexivity.
  - vm_compute. reflexivity.
  - cbn. lia.
Defined.

Definition stale_row : DeletionRow := {|
  dtKeyVersion := 1; dtFenceEpoch := 9; dtCreatedAt := t0 - 9 * day; dtExpiresAt := t0 - day |}.
Definition stale : VaultDB := with_Deletions {[(deletionTargetRoute, repeat x66 32) := stale_row]} idle.

Lemma expired_fence_hides_deletion_witness : exists st,
  fence_deletion store (deleted_route 5 t0) (calm_state stale) = Ok (tt, st) /\
  requireTombstoneAdvance store deletionTargetRoute (repeat x66 32) 5 t0 st = Ok (tt, st).
Proof.
  destruct (expired_fence_hides_deletion store (deleted_route 5 t0) stale_row stale 5) as (st & H1 & _ & H2).
  - apply lookup_singleton_eq.
  - cbn. lia.
  - vm_compute. discriminate.
  - reflexivity.
  - reflexivity.
  - unfold maxDeletionTombstoneKeyVersion. cbn. lia.
  - reflexivity.
  - reflexivity.
  - exists st. split; [exact H1|exact H2].
Defined.

Lemma reapply_removes_fenced_witness : exists st',
  reapply_tx store round (calm_state fenced) = Ok (tt, st') /\
  forall leaseID lease f, dbLeases (txDb st') !! leaseID = Some lease ->
    live_fence (deletionTargetRoute, lsRouteIdentity lease) t0 (txDb st') = Some f -> f < lsRouteKeyEpoch lease.
Proof.
  assert (H : is_ok (reapply_tx store round (calm_state fenced)) = true) by (vm_compute; reflexivity).
  destruct (reapply_tx store round (calm_state fenced)) as [[[] st']|e] eqn:E.
  - exists st'. split; [reflexivity|]. apply (reapply_removes_fenced store round (calm_state fenced) st' tt E).
  - discriminate H.
Defined.

Definition routed : VaultDB := with_Routes {[leaseID := VaultSample.route]} idle.

Lemma erasure_blocked_by_route_witness :
  EraseInvalidAPNSToken rounds 8 store lookup (hex_encode token) (0%nat, routed) =
    ((1%nat, routed), Err ErrDeliveryQueueUnavailable).
Proof.
  apply (erasure_blocked_by_route rounds 8 store lookup (hex_encode token) token encrypted_token leaseID installation
    lease VaultSample.route 0 routed); [vm_compute; reflexivity..|discriminate|vm_compute; reflexivity|
    apply lookup_singleton_eq|reflexivity|apply lookup_singleton_eq].
Defined.

Lemma accepted_run : exists bucket st',
  enqueue_tx store round None leaseID (repeat x52 16) job (str "event") 10 t0 (calm_state busy) = Ok (Some bucket, st').
Proof.
  pose proof is_accepted as H. unfold accepted in H.
  destruct (enqueue_tx store round None leaseID (repeat x52 16) job (str "event") 10 t0 (calm_state busy))
    as [[[bucket|] st']|e]; [|by apply bool_decide_eq_true_1 in H as [? [=]]..].
  by exists bucket, st'.
Qed.

Lemma accepted_job_is_bounded_witness : exists st' row expiresAt,
  dbJobs (txDb st') = <[repeat x52 16 := row]> (dbJobs busy) /\ accepted_row store leaseID (repeat x52 16) job t0 expiresAt row.
Proof.
  destruct accepted_run as (bucket & st' & E).
  destruct (accepted_job_is_bounded store round None leaseID (repeat x52 16) job (str "event") 10 t0 bucket
    (calm_state busy) st' ltac:(cbn; lia) E) as (row & e & l & r & _ & Hj & _ & _ & _ & Hrow).
  exists st', row, e. split; [exact Hj|exact Hrow].
Defined.

Lemma source_event_is_enqueued_once_witness : exists st1, forall bucket' st2,
  enqueue_tx store round None leaseID (repeat x53 16) job (str "event") 10 t0 st1 <> Ok (Some bucket', st2).
Proof.
  destruct accepted_run as (bucket & st1 & E).
  destruct (deliverySourceEventLookup store leaseID (sjTrafficClass job) (str "event")) as [source|] eqn:El;
    [|exfalso; vm_compute in El; discriminate El].
  exists st1.
  apply (source_event_is_enqueued_once store store round round None None leaseID (repeat x52 16) (repeat x53 16)
    job job (str "event") 10 10 t0 t0 bucket (calm_state busy) st1 st1 source ltac:(cbn; lia) ltac:(cbn; lia)
    eq_refl eq_refl E El eq_refl).
  vm_compute. reflexivity.
Defined.

End Witnesses.
