(* ===== verification/RetentionSample.v ===== *)
(** * Concrete runs of the sweep

    A sweep of the vault of [QueueSample] that removes expired rows and ends an expired
    delivery, one of a vault whose expired lease has lost its key history, and a run of failed
    turns, on which the theorems about the sweep apply. *)

From S2P Require Import Prelude GoBytes GoTime GoCrypto A9Trust VaultCrypto Gate8Header Interfaces Sql A9Types A9VaultDb A9Vault A9VaultSpec A9VaultInv A9Current Aggregates DeliveryJob DeliveryQueue DeliveryOps DeliveryAttempt Tombstones RouteKeys DeliveryErase Refresh Retention Moves A9VaultProps RetentionProps QueueSample.
Local Open Scope Z_scope.
Local Open Scope go_scope.

Section Witnesses.
Import QueueSample.
#[local] Existing Instance QueueSample.json.
#[local] Existing Instance QueueSample.trust.
#[local] Existing Instance VaultSample.pg.
#[local] Existing Instance Sample.gcm.
#[local] Existing Instance Sample.gcm_laws.

Definition sweeper : RetentionSweeper := {|
  swInterval := 15 * minute; swEnvironmentID := 1; swLookupRoot := repeat x06 32; swKeyVersion := 1;
  swRetryInitial := defaultRetentionRetryInitial; swRetryMaximum := defaultRetentionRetryMaximum |}.

Definition failed_turn : Turn := {|
  tnWaited := true; tnHealth := None; tnHealthNow := t0; tnSweep := Err ErrRetentionUnavailable;
  tnCancelled := false; tnSweepNow := t0; tnAfter := None; tnAfterNow := t0 |}.

Lemma worker_backs_off_witness :
  run_turns sweeper (repeat failed_turn 9) (run_start sweeper t0 None) =
    Some (defaultRetentionRetryMaximum, defaultRetentionRetryMaximum).
Proof.
  destruct (worker_backs_off sweeper (repeat failed_turn 9) t0 None) as (next & Hr & _).
  - repeat constructor.
  - discriminate.
  - rewrite Hr. vm_compute in Hr. injection Hr as <-. reflexivity.
Defined.

Definition old_dedupe : DedupeRow := {| ddCreatedAt := t0 - day; ddExpiresAt := t0 - second |}.

Definition old_authorization : WelcomeAuthorizationRow := {|
  waLeaseID := leaseID; waEnvelopeLookup := repeat x72 32; waEncryptedAuthorization := [x01]; waPolicyEpoch := 1;
  waIssuedAt := t0 - hour; waExpiresAt := t0; waConsumedAt := None |}.

Definition old_budget : WelcomeBudgetRow := {|
  wbMinuteWindowStart := t0 - hour; wbMinuteCount := 1; wbHourWindowStart := t0 - hour; wbHourCount := 1;
  wbCircuitOpenUntil := None; wbUpdatedAt := t0 - hour; wbExpiresAt := t0 |}.

Definition old_job : JobRow := {|
  jbLeaseID := Some leaseID; jbInstallationLookup := None; jbEncryptedJob := [x01]; jbState := deliveryJobPending;
  jbAttempts := 0; jbRetryExponent := 0; jbAvailableAt := t0 - minute; jbExpiresAt := t0 - second;
  jbCreatedAt := t0 - minute; jbTrafficClass := Some 1; jbFinalReason := None; jbA9 := None |}.

Definition old_request : AccessRequestRow := {| arCoarseCreatedHour := t0 - 181 * day |}.
Definition old_audit : AccessAuditRow := {| aaRequestID := repeat x76 16; aaExpiresOn := t0 / day |}.

(** An expired row in six tables, and a delivery that nobody made in time. *)
Definition untidy : VaultDB :=
  with_AccessRequests {[repeat x76 16 := old_request]} (with_AccessAudit {[repeat x77 16 := old_audit]} (
  with_WelcomeAuthorizations {[repeat x73 16 := old_authorization]}
    (with_WelcomeBudgets {[repeat x74 32 := old_budget]}
      (with_Jobs {[repeat x75 16 := old_job]} (with_Dedupes {[(leaseID, repeat x71 32, 1) := old_dedupe]} idle))))).

Lemma rounds_locked n db : retention_unsafe db -> retention_unsafe (rdOthers (rounds n) db).
Proof. exact id. Qed.

Lemma sweep_removes_the_expired_witness : exists st' result,
  Sweep rounds sweeper true (0%nat, untidy) = (st', Ok result) /\ clean t0 t0 st'.2 /\ ~ unexpired t0 untidy.
Proof.
  assert (H : is_ok (Sweep rounds sweeper true (0%nat, untidy)).2 = true) by (vm_compute; reflexivity).
  destruct (Sweep rounds sweeper true (0%nat, untidy)) as [[i' db'] [result|e]] eqn:E; [|discriminate H].
  exists (i', db'), result. split; [reflexivity|]. split.
  - apply (sweep_removes_the_expired rounds sweeper true 0 untidy db' (Ok result) (rounds_locked 1)
      (ex_intro _ i' E)).
  - intros Hu. specialize (Hu (repeat x75 16) old_job (lookup_singleton_eq _ _) eq_refl).
    vm_compute in Hu. discriminate Hu.
Defined.

(** The sample's lease, of which no key history is left, eight days after its end. *)
Definition late : Z := t0 + hour + 8 * day.

Definition late_round : Round := {|
  rdOthers := fun db => db; rdAttempt := calm late late; rdLaterHost := late; rdLaterNow := late;
  rdJobClock := fun _ => late; rdJobDraw := fun _ => Some [x00; x01]; rdSeal := entropy;
  rdJobID := Some (repeat x51 16); rdCancelled := false |}.

Definition late_rounds : nat -> Round := fun _ => late_round.

Lemma idle_is_stuck : stuck late idle.
Proof.
  exists leaseID, lease. split; [apply lookup_singleton_eq|]. split; [reflexivity|].
  intros epoch row Hr. cbn in Hr. by rewrite lookup_empty in Hr.
Qed.

Lemma overdue_sweep_is_stuck_witness :
  is_ok (Sweep late_rounds sweeper true (0%nat, idle)).2 = false /\
  stuck late (Sweep late_rounds sweeper true (0%nat, idle)).1.2.
Proof.
  destruct (Sweep late_rounds sweeper true (0%nat, idle)) as [[i' db'] r] eqn:E.
  destruct (overdue_sweep_is_stuck late_rounds sweeper true late 0 idle db' r sample_ts_mono (Z.le_refl _)
    (fun _ _ => id) (fun _ => id) idle_is_stuck (ex_intro _ i' E)) as (H1 & H2 & _).
  split; [exact H1|exact H2].
Defined.

End Witnesses.
