(* ===== verification/NonceSample.v ===== *)
(** * A concrete run of refreshes and routings

    An empty vault, a signed refresh of one topic and three routings of a message on it: the
    run to which the theorem on delivery nonces applies. The wire forms are constants. *)

From S2P Require Import Prelude ReplaceRequest A9Replace GoBytes GoTime GoCrypto A9Trust VaultCrypto Gate8Header Topics Interfaces Authority Sql A9Types A9VaultDb A9Vault A9VaultSpec A9Current Aggregates DeliveryJob DeliveryQueue DeliveryOps DeliveryAttempt Tombstones RouteKeys DeliveryErase Refresh Policy Routing Retention Moves Lineage LineageMoves LineageRefresh LineageRoutes NonceProps A9VaultProps QueueSample.
Local Open Scope Z_scope.
Local Open Scope go_scope.

Module NonceSample.

#[export] Existing Instance VaultSample.pg.
#[export] Existing Instance GoCrypto.Sample.gcm.
#[export] Existing Instance GoCrypto.Sample.gcm_laws.
#[export] Existing Instance GoCrypto.Sample.ed25519.
#[export] Existing Instance Topics.Sample.topic_lib.
#[export] Existing Instance QueueSample.json.
#[export] Existing Instance QueueSample.trust.

Definition now : Z := 1709164810 * second.
Definition topic : Topic := (0, [x0a; xff]).
Definition routeKey : bytes := repeat x42 32.

#[export] Instance parser : TopicParser := {|
  ParseTopic := fun text => if beq text (topic_bytes topic) then Some topic else None |}.

Definition alias : bytes := Eval vm_compute in
  match DeriveRouteAlias routeKey (topic_bytes topic) (str "dev") (UTCDay now) with Ok a => a | Err _ => [] end.

Definition capability : ReceiveCapabilityV1 := sign_capability sample_seed {|
  rcSchemaVersion := 1; rcEnvironment := EnvironmentDev; rcInstallationID := sample_id;
  rcAccountIncarnationID := sample_uuid; rcPolicyEpoch := 4; rcTopicDigest := hex_encode (sha256 (topic_bytes topic));
  rcAliasDay := UTCDay now; rcRouteAlias := b64_encode alias;
  rcConversationGrantVersion := 2; rcRosterVersion := 3; rcPushMode := PushModeAlertAllowed;
  rcIssuedAt := str "2024-02-29T00:00:00Z"; rcExpiresAt := str "2024-02-29T00:00:30Z";
  rcNonce := b64_encode (repeat x06 16); rcSigningKeyID := str "k1"; rcAlgorithm := Ed25519Name;
  rcSignature := [] |}.

Definition unsigned_control : PolicyControlV1 := {|
  pcSchemaVersion := 1; pcEnvironment := EnvironmentDev; pcInstallationID := sample_id;
  pcAccountIncarnationID := sample_uuid; pcPolicyEpoch := 4; pcState := PolicyStateActive;
  pcAgePolicy := AgePolicyAdult; pcIssuedAt := str "2024-02-29T00:00:00Z";
  pcExpiresAt := str "2024-02-29T00:00:30Z"; pcSigningKeyID := str "k1";
  pcAlgorithm := Ed25519Name; pcSignature := [] |}.

Definition control : PolicyControlV1 := {|
  pcSchemaVersion := 1; pcEnvironment := EnvironmentDev; pcInstallationID := sample_id;
  pcAccountIncarnationID := sample_uuid; pcPolicyEpoch := 4; pcState := PolicyStateActive;
  pcAgePolicy := AgePolicyAdult; pcIssuedAt := str "2024-02-29T00:00:00Z";
  pcExpiresAt := str "2024-02-29T00:00:30Z"; pcSigningKeyID := str "k1"; pcAlgorithm := Ed25519Name;
  pcSignature := b64_encode (ed25519_sign sample_seed
    match control_SigningBytes unsigned_control with Ok b => b | Err _ => [] end) |}.

Definition hmac_key : HMACKeyInput := {| hiThirtyDayPeriodsSinceEpoch := 660; hiKey := repeat x07 32 |}.

#[export] Instance vault_json : VaultJson := {|
  marshal_refresh := fun _ => Some (str "refresh");
  marshal_hmac_keys := fun _ => Some (str "hmac-keys");
  unmarshal_hmac_keys := fun _ => Some [hmac_key];
  marshal_capability := fun _ => Some (str "capability");
  unmarshal_capability := fun _ => Some capability |}.

(** The two objects of authority are the signed ones of the sample. *)
#[export] Instance gate6_json : Gate6Json := {|
  decode_policy_control := fun raw => if beq raw (str "{}") then Some control else None;
  decode_receive_capability := fun raw => if beq raw (str "{}") then Some capability else None |}.

Definition store : Store := {|
  stEnvironment := str "dev"; stEnvironmentID := 1; stLookupRoot := repeat x06 32; stA9Enabled := false;
  stEncryption := {| krActiveVersion := 1; krKeys := {[1 := repeat x15 32]} |};
  stTeenConversationEnabled := false; stAuthorityKeys := {[str "k1" := ed25519_public sample_seed]};
  stLeaseTTL := 7 * day |}.

Definition request : RefreshRequest := {|
  rfEnvironment := str "dev"; rfInstallationID := sample_id; rfAccountIncarnationID := sample_uuid;
  rfGeneration := 1; rfIdempotencyKey := repeat x69 16; rfAPNSToken := repeat x31 32;
  rfPayloadSchema := str "hytch_push_wrapper_v1";
  rfSubscriptions := Some [{| sfTopic := topic_bytes topic; sfRouteKey := routeKey; sfRouteKeyEpoch := 1;
                              sfHMACKeys := [hmac_key]; sfCapability := capability |}];
  rfPolicyControl := control |}.

Definition draws : LeaseDraws := {|
  ldLeaseID := fun _ => Some (repeat x04 16); ldPrefix := fun _ => Some [x00; x00; x00; x07];
  ldSeal := fun _ => KeyringSample.entropy; ldMark := fun _ => now; ldVisit := id |}.

Definition route_draws : RouteDraws := {|
  rtSeal := fun _ => KeyringSample.entropy; rtVisit := id; rtExamine := fun _ => (now, now);
  rtPrepare := fun _ => now |}.

Definition round : Round := {|
  rdOthers := fun db => db; rdAttempt := calm now now; rdLaterHost := now; rdLaterNow := now;
  rdJobClock := fun _ => now; rdJobDraw := fun _ => Some [x00; x01]; rdSeal := KeyringSample.entropy;
  rdJobID := Some (repeat x51 16); rdCancelled := false |}.

Definition empty : VaultDB := with_Retention (Some {|
  rsLastStartedAt := Some (now - 2 * hour); rsLastCompletedAt := Some (now - hour);
  rsNextDeadlineAt := Some (now + hour); rsIsSafe := true; rsFixedOutcome := 2 |}) VaultSample.db.

Definition normalized : list normalizedSubscription :=
  match validateRefresh store request now with Some l => l | None => [] end.

Definition refresh : vault_tx (list Subscription) :=
  silent (refresh_tx store round draws request normalized (repeat x64 32) now).

Definition route : vault_tx (list Subscription) := subscriptions_tx store route_draws topic 660 now now.

Definition after (m : vault_tx (list Subscription)) (db : VaultDB) : VaultDB :=
  match m (calm_state db) with Ok (_, st) => txDb st | Err _ => db end.

Definition answers (m : vault_tx (list Subscription)) (db : VaultDB) : list issue :=
  match m (calm_state db) with Ok (subs, _) => issued_all subs | Err _ => [] end.

Definition ran (m : vault_tx (list Subscription)) (db : VaultDB) : bool := is_ok (m (calm_state db)).

Definition after_refresh : VaultDB := after refresh empty.

Lemma all_ran : ran refresh empty = true /\ ran route after_refresh = true /\
  ran route (after route after_refresh) = true /\ answers refresh empty = [] /\
  isSequence <$> answers route after_refresh = [0] /\ isSequence <$> answers route (after route after_refresh) = [1].
Proof. vm_compute. repeat split; reflexivity. Qed.

Lemma is_validated : validateRefresh store request now = Some normalized /\ nmTopic <$> normalized = [topic_bytes topic].
Proof. vm_compute. split; reflexivity. Qed.

(** The only pair of an installation and a topic. *)
Definition used (installationID text : bytes) : Prop := installationID = sample_id /\ text = topic_bytes topic.

Lemma step_calm log m db clock :
  transaction store used db clock m -> on_time clock db -> ran m db = true ->
  vault_step store used (db, log) (after m db, remembered store clock db log ++ answers m db).
Proof.
  intros Ht Hot Hr. unfold ran, after, answers in *.
  destruct (m (calm_state db)) as [[subs st]|e] eqn:E; [|discriminate Hr].
  exact (vault_step_commit store used db log clock m [] subs st Ht Hot E).
Qed.

Lemma refresh_is_transaction : transaction store used empty (Some now) refresh.
Proof.
  destruct is_validated as [Hv Ht]. apply tx_refresh; [exact Hv|]. rewrite Ht. split.
  - reflexivity.
  - intros t ->%list_elem_of_singleton. by split.
  - intros t _ id _. apply lookup_empty.
  - intros t t' id ->%list_elem_of_singleton ->%list_elem_of_singleton _ _. reflexivity.
Qed.

Lemma route_is_transaction db : transaction store used db None route.
Proof. apply tx_routes. reflexivity. Qed.

Definition log : list issue := answers route after_refresh ++ answers route (after route after_refresh).

Lemma one_and_two m m' db clock :
  transaction store used db clock m -> on_time clock db -> ran m db = true -> answers m db = [] ->
  (forall db', transaction store used db' None m') -> ran m' (after m db) = true ->
  ran m' (after m' (after m db)) = true ->
  rtc (vault_step store used) (db, [])
    (after m' (after m' (after m db)), answers m' (after m db) ++ answers m' (after m' (after m db))).
Proof.
  intros Ht Hot H1 Ha Ht' H2 H3. set (db1 := after m db) in *.
  pose proof (step_calm [] m db clock Ht Hot H1) as S1. fold db1 in S1. rewrite Ha in S1.
  assert (E : remembered store clock db [] = []) by (destruct clock; [apply filter_nil|done]). rewrite E in S1.
  pose proof (step_calm [] m' db1 None (Ht' _) ltac:(done) H2) as S2. cbn [remembered app] in S2.
  pose proof (step_calm (answers m' db1) m' (after m' db1) None (Ht' _) ltac:(done) H3) as S3. cbn [remembered] in S3.
  eapply rtc_l; [exact S1|]. eapply rtc_l; [exact S2|]. by apply rtc_once.
Qed.

Lemma sample_run : rtc (vault_step store used) (empty, []) (after route (after route after_refresh), log).
Proof.
  destruct all_ran as (H1 & H2 & H3 & H4 & _).
  refine (one_and_two refresh route empty (Some now) refresh_is_transaction _ H1 H4 route_is_transaction H2 H3).
  intros id lease row t _ E. change (dbLeases empty) with (∅ : gmap bytes LeaseRow) in E. by rewrite lookup_empty in E.
Qed.

End NonceSample.

Section Witnesses.
Import NonceSample.

Lemma sample_ts_later (t : Z) : pg_timestamp t < pg_timestamp (t + 8 * day).
Proof.
  cbn. unfold day, hour, minute, second. apply Z.mul_lt_mono_pos_r; [lia|].
  assert (H : t / 1000 + 1 <= (t + 8 * (24 * (60 * (60 * 1000000000)))) / 1000); [|lia].
  rewrite <-Z.div_add by lia. apply Z.div_le_mono; lia.
Qed.

Lemma nonces_are_never_reused_witness :
  NoDup ((fun i => (isKey i, isSequence i)) <$> log) /\ isSequence <$> log = [0; 1].
Proof.
  split.
  - refine (proj1 (nonces_are_never_reused store used _ _ _ _ _ empty _ log _ sample_run)).
    + cbn. lia.
    + unfold store, day, hour, minute, second. cbn. lia.
    + exact sample_ts_mono.
    + exact sample_ts_later.
    + intros id t id' t' identity [-> ->] [-> ->] _ _. by split.
    + repeat split.
  - destruct all_ran as (_ & _ & _ & _ & H1 & H2). unfold log. rewrite fmap_app, H1, H2. reflexivity.
Defined.

End Witnesses.
