(* ===== verification/ReplaceSample.v ===== *)
(** * A concrete replacement of routes

    The installation of the control vault's samples with an active binding and a current
    watermark, and a replacement request for one signed subscription: applied once, stale with
    the generation it left. *)

From S2P Require Import Prelude GoBytes GoTime GoCrypto A9Trust VaultCrypto Gate8Header Topics Interfaces Authority Sql A9Types A9VaultDb A9Vault A9VaultSpec A9VaultInv A9Current A9VaultProps Aggregates DeliveryJob DeliveryQueue DeliveryOps DeliveryAttempt Tombstones RouteKeys DeliveryErase Refresh Policy Routing Retention ReplaceRequest A9Replace Moves ReplaceMoves Lineage ReplaceProps QueueSample NonceSample.
Local Open Scope Z_scope.
Local Open Scope go_scope.

Module ReplaceSample.

Export NonceSample.

Abbreviation inst := VaultSample.inst.
Abbreviation epoch := VaultSample.epoch.

Definition mark (contiguous : Z) : WatermarkColumns := {|
  wcSequence := 1; wcSignedHash := repeat x14 32; wcCommittedThrough := contiguous; wcStatus := 1; wcReason := 0;
  wcIssuedAt := now - 5 * second; wcExpiresAt := now + 20 * second; wcSigningKeyID := repeat x0d 32;
  wcKeysetSequence := 1; wcKeysetHash := VaultSample.keyset |}.

Definition marked (row : AuthorityRow) : AuthorityRow := {|
  auEpoch := auEpoch row; auContiguous := auContiguous row; auGeneration := 0; auState := a9AuthorityActive;
  auReason := 0; auWatermark := Some (mark (auContiguous row)); auUpdatedAt := now |}.

Definition assertion : VerifiedAssertion := {|
  vaHash := repeat x10 32; vaInstallationBindingID := inst; vaSequencerEpoch := epoch; vaStreamSequence := 1;
  vaBindingID := VaultSample.binding; vaBindingVersion := 1; vaLeaseID := VaultSample.lease;
  vaTupleCommitment := repeat x07 32; vaTupleCommitmentKeyID := repeat x08 32;
  vaRosterCommitment := repeat x09 32; vaRosterCommitmentKeyID := repeat x0a 32;
  vaTopicBinding := repeat x0b 32; vaTopicKeyEpoch := 655; vaTopicCommitmentKeyID := repeat x0c 32;
  vaConversationGeneration := 1; vaRosterVersion := 1; vaIssuedAt := now - 5 * second;
  vaExpiresAt := now + 20 * second; vaSigningKeyID := repeat x0d 32; vaKeysetSequence := 1;
  vaKeysetHash := VaultSample.keyset |}.

(** A vault with the control tables of another, a watermark for its authority and no route. *)
Definition marked_db (d : VaultDB) : VaultDB := {|
  dbKeyset := Some {| ksSequence := 1; ksHash := Some VaultSample.keyset; ksState := 1; ksUncertainty := 0;
                      ksExpiresAt := Some (now + hour); ksRefreshedAt := now - minute |};
  dbAcceptedKeysets := {[1 := VaultSample.keyset]}; dbOnlineKeys := VaultSample.online_keys;
  dbCommitmentKeys := VaultSample.commitment_keys; dbKeyBinding := Some VaultSample.commitment;
  dbRetention := dbRetention NonceSample.empty; dbAuthority := alter marked inst (dbAuthority d);
  dbReceipts := ∅; dbControls := dbControls d; dbAssertions := {[repeat x10 32 := assertion]};
  dbBindings := dbBindings d; dbTombstones := dbTombstones d;
  dbWatermarks := ∅; dbRoutes := ∅; dbJobs := ∅; dbInstallations := ∅; dbLeases := ∅; dbHistory := ∅;
  dbDedupes := ∅; dbWelcomeAuthorizations := ∅; dbWelcomeBudgets := ∅; dbDeletions := ∅; dbAggregates := ∅;
  dbAccessRequests := ∅; dbAccessAudit := ∅; dbGate6 := ∅ |}.

(** The control tables are those after the sample's first UPSERT. *)
Definition db : VaultDB := marked_db VaultSample.upserted.

Definition subscription : Subscription := {|
  sbBindingID := VaultSample.binding; sbBindingVersion := 1; sbAssertionHash := repeat x10 32;
  sbTopicBinding := repeat x0b 32; sbTopicKeyEpoch := 655; sbRouteKeyEpoch := 1; sbTopic := topic_bytes topic;
  sbTransportConversationID := repeat xff 16; sbRouteKey := routeKey;
  sbHMACKeys := [{| hkThirtyDayPeriodsSinceEpoch := 660; hkKey := repeat x07 32 |}];
  sbReceiveCapability := str "{}" |}.

Definition request : ReplaceRequest := {|
  rqEnvironment := str "dev"; rqInstallationBindingID := inst; rqSequencerEpoch := epoch;
  rqSubscriptionGeneration := 1; rqExpectedSubscriptionGeneration := 0; rqIdempotencyKey := repeat x71 16;
  rqLegacyInstallationID := repeat x11 32; rqAccountIncarnationID := default [] (ParseCanonicalUUID sample_uuid);
  rqAPNSToken := repeat x31 32; rqPayloadSchema := str "hytch_push_wrapper_v1"; rqPolicyControl := str "{}";
  rqSubscriptions := [subscription]; rqRequestHash := repeat x72 32 |}.

Definition receipt : KeysetReceipt := {| krSequence := 1; krHash := VaultSample.keyset |}.
Definition rounds : nat -> Round := fun _ => round.
Definition draws : nat -> ReplaceDraws := fun _ => {| rpLeases := NonceSample.draws; rpOrder := id |}.

Definition run (request : ReplaceRequest) (db : VaultDB) : (nat * VaultDB) * result error Result :=
  Replace rounds draws 8 store request receipt (0%nat, db).

Definition applied (x : (nat * VaultDB) * result error Result) : bool :=
  match x with (_, Ok r) => beq (reOutcome r) ResultOutcomeApplied | _ => false end.

Definition stale (x : (nat * VaultDB) * result error Result) : bool :=
  match x with (_, Ok r) => beq (reOutcome r) ResultOutcomeStale | _ => false end.

Lemma is_applied : applied (run request db) = true.
Proof. vm_compute. reflexivity. Qed.

(** The same request under a new key, once the generation is taken. *)
Definition again : ReplaceRequest := {|
  rqEnvironment := str "dev"; rqInstallationBindingID := inst; rqSequencerEpoch := epoch;
  rqSubscriptionGeneration := 1; rqExpectedSubscriptionGeneration := 0; rqIdempotencyKey := repeat x73 16;
  rqLegacyInstallationID := repeat x11 32; rqAccountIncarnationID := default [] (ParseCanonicalUUID sample_uuid);
  rqAPNSToken := repeat x31 32; rqPayloadSchema := str "hytch_push_wrapper_v1"; rqPolicyControl := str "{}";
  rqSubscriptions := [subscription]; rqRequestHash := repeat x74 32 |}.

Definition after : VaultDB := (run request db).1.2.

Lemma is_stale : stale (run again after) = true.
Proof. vm_compute. reflexivity. Qed.

Lemma applied_run x : applied x = true -> exists st r, x = (st, Ok r) /\ reOutcome r = ResultOutcomeApplied.
Proof. destruct x as [st [r|]]; [|done]. intros H%beq_true. eauto. Qed.

Lemma stale_run x : stale x = true -> exists st r, x = (st, Ok r) /\ reOutcome r <> ResultOutcomeApplied.
Proof.
  destruct x as [st [r|]]; [|done]. intros H%beq_true. exists st, r. split; [done|]. rewrite H. discriminate.
Qed.

Lemma sample_typed : calls_typed rounds draws receipt.
Proof. split; [intros n; split; [reflexivity|done]|]. intros n e applied. discriminate. Qed.

Lemma alone_round n i d : interference (round_schedule rounds) n i d = d.
Proof. revert i. induction n as [|n IH]; intros i; [reflexivity|]. exact (IH (S i)). Qed.

Lemma marked_db_inv d : vault_inv d -> vault_inv (marked_db d).
Proof.
  intros (Hs & (Hd & Hi & _ & _ & _) & _). split; [|split].
  - apply (stream_alter marked); [|exact Hs]. intros au (Hc & Hg & _ & _). split; [|done].
    unfold row_ok, in_range, a9MaxSafeInteger in *. cbn. split; [exact Hc|]. split; [lia|]. split; [by left|].
    intros c [= <-]. cbn. lia.
  - split; [exact Hd|]. split; [exact Hi|]. split; [reflexivity|]. split; [reflexivity|].
    intros k j. cbn [dbJobs marked_db]. by rewrite lookup_empty.
  - intros k row. cbn [dbReceipts marked_db]. by rewrite lookup_empty.
Qed.

Lemma marked_inv : vault_inv db.
Proof. apply marked_db_inv, VaultSample.inv_upserted. Qed.

Lemma issued : watermark_issued request now db.
Proof.
  intros au c. unfold db. cbn [dbAuthority marked_db]. rewrite lookup_alter_eq. intros (au0 & _ & ->)%fmap_Some. intros [= <-].
  cbn. unfold second. lia.
Qed.

End ReplaceSample.

Section Witnesses.
Import ReplaceSample.

Lemma replacement_is_authorized_witness : exists refresh left,
  a9RefreshRequest request = Some refresh /\ authorizes request receipt now now db /\
  publishes_exactly store request refresh db left.
Proof.
  destruct (applied_run _ is_applied) as (st & r & Hx & Ho). unfold run in Hx.
  destruct (replacement_is_authorized rounds draws 8 store request receipt 0 db st r sample_typed) as
    (refresh & n & k & left & Hr & Ha & Hp); [|exact Hx|exact Ho|].
  - intros n. rewrite alone_round. exact marked_inv.
  - exists refresh, left. rewrite alone_round in Ha, Hp.
    split; [exact Hr|]. split; [exact Ha|exact Hp].
Defined.

Lemma replaced_routes_are_current_witness : exists left, forall lease row, dbRoutes left !! lease = Some row ->
  roInstallation (roColumns row) = VaultSample.inst -> route_passes request now lease row left.
Proof.
  destruct (applied_run _ is_applied) as (st & r & Hx & Ho). unfold run in Hx.
  destruct (replaced_routes_are_current rounds draws 8 store request receipt 0 db st r sample_typed) as
    (refresh & n & k & left & Hr & Hs & Hp); [| |exact Hx|exact Ho|].
  - intros n. rewrite alone_round. exact marked_inv.
  - intros n k. rewrite alone_round. exact issued.
  - exists left. exact Hp.
Defined.

Lemma refused_replacement_changes_no_route_witness : exists st r,
  run again after = (st, Ok r) /\ tables st.2 = tables after /\
  latched_only VaultSample.inst (dbAuthority after) (dbAuthority st.2).
Proof.
  destruct (stale_run _ is_stale) as (st & r & Hx & Ho). exists st, r. split; [exact Hx|]. unfold run in Hx.
  destruct (refused_replacement_changes_no_route rounds draws 8 store again receipt 0 after st r sample_typed Hx Ho)
    as (n & H). rewrite alone_round in H. exact H.
Defined.

End Witnesses.
