(* ===== verification/A9ApiSample.v ===== *)
(** * A concrete request to the internal API

    The signed UPSERT of the A9 samples in the body of a request with a service token for it,
    served in front of an empty vault: applied; and refused when it comes again. *)

From S2P Require Import Prelude GoBytes GoTime GoCrypto GoJson VaultCrypto JsonText Jcs A9Schema A9Types A9Trust A9Keyset A9Verify A9Sample ServiceAuth Sql A9VaultDb ReplayReceipts A9Vault Aggregates A9VaultSpec A9VaultInv A9Accept A9Current ReplaceRequest A9Replace A9Handler DeliveryJob DeliveryQueue DeliveryOps DeliveryAttempt Tombstones RouteKeys DeliveryErase Refresh Interfaces Topics Policy Moves ReplaceMoves A9VaultProps ReplaceProps A9HandlerProps A9Api QueueSample NonceSample.
Local Open Scope Z_scope.
Local Open Scope go_scope.

Module ApiSample.

Export NonceSample.
#[export] Existing Instance in_order.
#[export] Existing Instance GoCrypto.Sample.ed25519_laws.

Definition now : Z := A9Sample.now.

(** ** The token *)

Definition header : object := A9Sample.make [
  ("alg"%string, A9Sample.text "EdDSA"); ("kid"%string, JString (A9Sample.key_id A9Sample.service_seed));
  ("typ"%string, A9Sample.text "JWT")].

Definition claims : object := A9Sample.make [
  ("iss"%string, A9Sample.text "hytch-modern-api"); ("sub"%string, A9Sample.text "xmtp-push-a9-adapter");
  ("aud"%string, A9Sample.text "hytch.xmtp-push-bridge.a9-control"); ("environment"%string, A9Sample.text "dev");
  ("iat"%string, A9Sample.number (now / second)); ("nbf"%string, A9Sample.number (now / second));
  ("exp"%string, A9Sample.number (now / second + 60));
  ("jti"%string, A9Sample.text "0123abcd-0123-4567-89ab-0123456789ad"); ("method"%string, A9Sample.text "POST");
  ("path"%string, JString ControlApplyPath);
  ("request_sha256"%string, JString (SHA256LowerHex A9Sample.upsert_text))].

Definition token : bytes * bytes := default ([], []) (BuildJWT header claims A9Sample.service_seed).
Definition compact : bytes := token.1.

Definition is_built {A : Type} (o : option A) : bool := match o with Some _ => true | None => false end.

Lemma is_built_some {A : Type} (o : option (A * A)) d : is_built o = true -> o = Some ((default d o).1, (default d o).2).
Proof. by destruct o as [[]|]. Qed.

Lemma token_built : is_built (BuildJWT header claims A9Sample.service_seed) = true.
Proof. vm_compute. reflexivity. Qed.

(** ** The request and the world *)

Definition request : HttpRequest := {|
  hrMethod := str "POST";
  hrURL := Some {| urPath := ControlApplyPath; urRawPath := []; urRawQuery := []; urForceQuery := false;
                   urFragment := []; urOpaque := [] |};
  hrRequestURI := ControlApplyPath; hrTLS := true; hrAuthorization := [str "Bearer " ++ compact];
  hrContentType := [str "application/json"]; hrContentEncoding := []; hrBody := Some (A9Sample.upsert_text, false);
  hrContentLength := Z.of_nat (length A9Sample.upsert_text); hrCancelled := false |}.

Definition trust_provider : TrustProvider unit := {|
  tpVerifier := fun _ t => (t, Some A9Sample.keyset); tpAcquireTopicBindingLease := fun _ _ _ t => (t, None);
  tpLatchArtifactUncertainty := fun _ t => t |}.

Definition round : Round := {|
  rdOthers := fun db => db; rdAttempt := calm now now; rdLaterHost := now; rdLaterNow := now;
  rdJobClock := fun _ => now; rdJobDraw := fun _ => Some [x00; x01]; rdSeal := KeyringSample.entropy;
  rdJobID := Some (repeat x51 16); rdCancelled := false |}.
Definition rounds : nat -> Round := fun _ => round.
Definition draws : nat -> ReplaceDraws := fun _ => {| rpLeases := NonceSample.draws; rpOrder := id |}.

Definition keyset_hash : bytes := Eval vm_compute in default [] (canonicalDigest A9Sample.keyset).

(** The columns hold the digests the key identifiers spell. *)
Definition raw (prefix : string) (keyID : bytes) : bytes := default [] (decodeKeyID keyID prefix).
Definition signing_key : bytes := Eval vm_compute in raw "ed25519-sha256:" (A9Sample.key_id A9Sample.control_seed).
Definition roster_key : bytes := Eval vm_compute in raw "hmac-sha256:" (A9Sample.hmac_id x11).
Definition topic_key : bytes := Eval vm_compute in raw "hmac-sha256:" (A9Sample.hmac_id x12).
Definition tuple_key : bytes := Eval vm_compute in raw "hmac-sha256:" (A9Sample.hmac_id x13).
Definition online : OnlineKeyRow := {| okNotBefore := now - hour; okNotAfter := now + 24 * hour |}.
Definition commitment (epoch : option Z) : CommitmentKeyRow := {|
  ckTopicKeyEpoch := epoch; ckNotBefore := now - hour; ckNotAfter := now + 24 * hour |}.

(** The vault knows the keyset with its keys, and its own key, and was swept an hour ago. *)
Definition db : VaultDB := {|
  dbKeyset := Some {| ksSequence := 1; ksHash := Some keyset_hash; ksState := 1; ksUncertainty := 0;
                      ksExpiresAt := Some (now + hour); ksRefreshedAt := now - minute |};
  dbAcceptedKeysets := {[1 := keyset_hash]}; dbOnlineKeys := {[(1, 1, signing_key) := online]};
  dbCommitmentKeys := {[(1, 1, roster_key) := commitment None;
                        (1, 2, tuple_key) := commitment None;
                        (1, 3, topic_key) := commitment (Some 674)]};
  dbKeyBinding := Some VaultSample.commitment;
  dbRetention := Some {| rsLastStartedAt := Some (now - 2 * hour); rsLastCompletedAt := Some (now - hour);
                         rsNextDeadlineAt := Some (now + hour); rsIsSafe := true; rsFixedOutcome := 2 |};
  dbAuthority := ∅; dbReceipts := ∅; dbControls := ∅; dbAssertions := ∅; dbBindings := ∅; dbTombstones := ∅;
  dbWatermarks := ∅; dbRoutes := ∅; dbJobs := ∅; dbInstallations := ∅; dbLeases := ∅; dbHistory := ∅;
  dbDedupes := ∅; dbWelcomeAuthorizations := ∅; dbWelcomeBudgets := ∅; dbDeletions := ∅; dbAggregates := ∅;
  dbAccessRequests := ∅; dbAccessAudit := ∅; dbGate6 := ∅ |}.

Definition vault : VaultStore (nat * VaultDB) := vault_store rounds draws 8 VaultSample.store.

Definition consume_round : ConsumeRound := {| crAttempt := calm now now; crCommitClock := now; crCancelled := false |}.

Definition handler : Handler unit JtiDB (nat * VaultDB) := api_handler (str "dev") trust_provider vault consume_round.

Definition world : World unit JtiDB (nat * VaultDB) := {| woTrust := tt; woReplay := ∅; woVault := (0%nat, db) |}.

Abbreviation serve w := (ServeHTTP handler request now w).

Lemma first_applied : (rsStatus (serve world).2 =? 200) = true.
Proof. vm_compute. reflexivity. Qed.

Lemma second_refused : (rsStatus (serve (serve world).1).2 =? 401) = true.
Proof. vm_compute. reflexivity. Qed.

(** ** The hypotheses of the theorems *)

Lemma empty_inv : vault_inv db.
Proof.
  split; [|split].
  - split; [|split]; intros *; cbn [dbAuthority dbControls db]; by rewrite lookup_empty.
  - split; [|split; [|split; [|split]]]; [| |vm_compute; reflexivity|vm_compute; reflexivity|].
    + intros i b row v. cbn [dbBindings db]. by rewrite lookup_empty.
    + intros k row. cbn [dbBindings db]. by rewrite lookup_empty.
    + intros k j. cbn [dbJobs db]. by rewrite lookup_empty.
  - intros k row. cbn [dbReceipts db]. by rewrite lookup_empty.
Qed.

Lemma sound : environment_sound rounds draws.
Proof. by split; intros n. Qed.

Lemma whole_seconds t : (second | t) -> pg_timestamp t = t.
Proof. intros [k ->]. cbn. unfold second. replace (k * 1000000000) with (k * 1000000 * 1000) by lia. by rewrite Z.div_mul. Qed.

Definition expected : JWTExpectations := token_expectations handler
  {| enKind := endpointControl; enMethod := str "POST"; enPath := ControlApplyPath |} A9Sample.upsert_text now A9Sample.keyset.

Lemma token_valid : is_ok (ValidateJWT compact expected) = true.
Proof. vm_compute. reflexivity. Qed.

End ApiSample.

Section Witnesses.
Import ApiSample.

Lemma served_ok (x : World unit JtiDB (nat * VaultDB) * Response) :
  (rsStatus x.2 =? 200) = true -> exists w resp, x = (w, resp) /\ rsStatus resp = 200.
Proof. destruct x as [w resp]. intros H%Z.eqb_eq. by exists w, resp. Qed.

Lemma vault_is_reached_by_verified_requests_witness : exists en compact raw keyset token call identity,
  admitted request en compact raw /\
  hdReplay handler (vjEnvironment token) (vjJTI token) (vjRetainUntil token) now ∅ =
    (woReplay (serve world).1, Some true) /\
  (exists t, tpVerifier (hdTrust handler) now tt = (t, Some keyset) /\
     verified_call handler raw keyset now t (enKind en) call identity) /\
  woVault (serve world).1 = (call (0%nat, db)).1.
Proof.
  destruct (served_ok _ first_applied) as (w & resp & E & Hs). rewrite E. cbn [fst].
  destruct (vault_is_reached_by_verified_requests handler request now world w resp E)
    as [[_ [_ Hf]]|(en & c & raw & keyset & token & call & identity & h & cl & pk & sg & Ha & _ & Hc & Hk & Hv)].
  - exfalso. rewrite Hs in Hf. by apply Hf.
  - exists en, c, raw, keyset, token, call, identity. exact (conj Ha (conj Hc (conj Hk Hv))).
Defined.

Lemma response_is_the_vaults_witness : exists w resp result,
  serve world = (w, resp) /\ CanonicalJSON result = Some (rsBody resp) /\
  (reOutcome result = ResultOutcomeApplied \/ reOutcome result = ResultOutcomeReplay).
Proof.
  destruct (served_ok _ first_applied) as (w & resp & E & Hs). exists w, resp. 
  destruct (response_is_the_vaults handler request now world w resp E)
    as [[_ Hf]|(en & c & raw & keyset & token & call & identity & result & _ & _ & Hj & _ & _ & _ & _ & Ho)].
  - exfalso. rewrite Hs in Hf. by apply Hf.
  - exists result. exact (conj E (conj Hj (Ho Hs))).
Defined.

Lemma valid_result_has_its_text_witness : exists body, CanonicalJSON {|
    reEnvironment := str "dev"; reInstallationBindingID := repeat x01 16; reSequencerEpoch := repeat x02 16;
    reSubscriptionGeneration := 3; reState := ResultStateActive; reOutcome := ResultOutcomeReplay;
    reAcceptedStreamSequence := 4 |} = Some body.
Proof.
  match goal with |- exists body, CanonicalJSON ?r = _ =>
    destruct (valid_result_has_its_text r) as (body & H & _);
      [vm_compute; reflexivity|split; [split; reflexivity|split; discriminate]|exists body; exact H] end.
Defined.

Lemma token_comes_to_the_vault_once_witness : exists w log,
  rtc (api_step (str "dev") trust_provider vault) (world, now, []) (w, now, log) /\ NoDup log.
Proof.
  destruct (serve world) as [w1 resp1] eqn:E1. destruct (serve w1) as [w2 resp2] eqn:E2.
  destruct (request_steps (str "dev") trust_provider vault now [] consume_round request now world w1 resp1
    (Z.le_refl _) E1) as [log1 H1].
  destruct (request_steps (str "dev") trust_provider vault now log1 consume_round request now w1 w2 resp2
    (Z.le_refl _) E2) as [log2 H2].
  exists w2, log2. pose proof (rtc_l _ _ _ _ H1 (rtc_once _ _ H2)) as Hrun. split; [exact Hrun|].
  exact (token_comes_to_the_vault_once (str "dev") trust_provider vault whole_seconds world w2 now now log2 eq_refl Hrun).
Defined.

Lemma requests_keep_the_vault_witness :
  vault_inv (woVault (serve world).1).2 /\ append_only db (woVault (serve world).1).2.
Proof.
  destruct (serve world) as [w resp] eqn:E. 
  destruct (requests_keep_the_vault rounds draws 8 VaultSample.store sound handler world w eq_refl
    (one_request _ _ _ _ _ _ _ E (no_request _ _)) empty_inv) as (Hi & Ha & _).
  exact (conj Hi Ha).
Defined.

Lemma service_token_is_for_one_request_witness : exists v header claims keyset publicKey signature,
  ValidateJWT compact expected = Ok v /\ token_accepted compact expected v header claims keyset publicKey signature.
Proof.
  destruct (ValidateJWT compact expected) as [v|] eqn:E; [|exfalso; pose proof token_valid as H; rewrite E in H; discriminate H].
  destruct (service_token_is_for_one_request compact expected expected v v E E) as [(h & c & k & pk & sg & H) _].
  exists v, h, c, k, pk, sg. exact (conj eq_refl H).
Defined.

Lemma built_token_is_accepted_witness : exists v, ValidateJWT compact expected = Ok v.
Proof.
  eexists. apply (built_token_is_accepted _ header claims A9Sample.keyset A9Sample.service_seed compact token.2 expected
    (now / second) (now / second) (now / second + 60)).
  - exact (is_built_some _ ([], []) token_built).
  - split; [vm_compute; repeat constructor|vm_compute; repeat split].
  - split; [vm_compute; repeat constructor|vm_compute; repeat split].
  - vm_compute. reflexivity.
  - vm_compute. reflexivity.
  - vm_compute. reflexivity.
  - vm_compute. reflexivity.
  - vm_compute. reflexivity.
  - reflexivity.
  - vm_compute. reflexivity.
Defined.

End Witnesses.
