(* ===== verification/KeysetStore.v ===== *)
(** * The durable keyset store

    src/pkg/db/a9_store.go (A9KeysetStore): every keyset a replica has accepted is appended
    with its descriptors; one row per environment is the high water mark, current or uncertain.
    A keyset is taken only when it is the successor of the current one by an eligible rotation;
    a rollback, a conflict or a bad rotation makes the row uncertain in the transaction that
    rejects it. *)

From S2P Require Import Prelude GoBytes GoTime GoCrypto JsonText Jcs A9Schema A9Types A9Trust A9Keyset Sql A9VaultDb ServiceAuth ReplayReceipts.
Local Open Scope Z_scope.
Local Open Scope go_scope.

Definition a9SafeIntegerMaximum : Z := 9007199254740991.
Definition a9SerializableAttempts : nat := 5.

Definition a9KeysetStateCurrent : Z := 1.
Definition a9KeysetStateUncertain : Z := 2.
Definition a9UncertaintyKeyState : Z := 1.
Definition a9UncertaintyRollback : Z := 2.
Definition a9UncertaintyRotation : Z := 3.

(** ** What the trust manager hands over, and what it gets back *)

Record AcceptedKeyset := {
  akEnvironment : bytes; akSequence : Z; akObjectHash : bytes; akCanonicalSignedObject : bytes; akIssuedAt : Z;
  akExpiresAt : Z; akRootKeyID : bytes; akOnlineKeys : list OnlineKey; akCommitmentKeys : list CommitmentKey;
}.

Record KeysetState := {
  kvEnvironment : bytes; kvSequence : Z; kvObjectHash : bytes; kvExpiresAt : Z; kvUncertain : bool;
}.

Record a9ValidatedOnlineKey := {
  voUse : Z; voState : Z; voKeyID : bytes; voPublicKey : bytes; voNotBefore : Z; voNotAfter : Z;
}.

Record a9ValidatedCommitmentKey := {
  vmPurpose : Z; vmKeyID : bytes; vmTopicKeyEpoch : option Z; vmNotBefore : Z; vmNotAfter : Z;
}.

Record a9ValidatedCandidate := {
  cdEnvironmentID : Z; cdObjectHash : bytes; cdRootKeyID : bytes; cdObject : object;
  cdOnline : list a9ValidatedOnlineKey; cdCommitments : list a9ValidatedCommitmentKey;
}.

(** ** Codes and members *)

Definition a9OnlineUseCode (use : bytes) : option Z :=
  if beq use (str "A9_CONTROL") then Some 1 else if beq use (str "SERVICE_AUTH") then Some 2 else None.

Definition a9OnlineStateCode (state : bytes) : option Z :=
  if beq state (str "SIGN") then Some 1 else if beq state (str "VERIFY_ONLY") then Some 2 else None.

Definition a9CommitmentPurposeCode (purpose : bytes) : option Z :=
  if beq purpose (str "ROSTER") then Some 1 else if beq purpose (str "TUPLE") then Some 2
  else if beq purpose (str "TOPIC") then Some 3 else None.

Definition a9UncertaintyReason (reason : bytes) : Z :=
  if beq reason (str "KEYSET_ROLLBACK") then a9UncertaintyRollback
  else if beq reason (str "ONLINE_ROTATION") then a9UncertaintyRotation else a9UncertaintyKeyState.

Definition a9ObjectString (o : object) (name : string) : bytes :=
  match field o name with JString s => s | _ => [] end.

Definition a9ObjectUint (o : object) (name : string) : Z :=
  match field o name with
  | JNumber number =>
      match parse_uint64 number with
      | Some parsed => if a9SafeIntegerMaximum <? parsed then 0 else parsed
      | None => 0
      end
  | _ => 0
  end.

Definition parseA9WireTime (value : bytes) : option Z :=
  bail negb (length value =? 24)%nat with None;;
  parsed ← parse_wire value;
  bail negb (beq (format_wire parsed) value) with None;;
  Some parsed.

(** The decoder is not the strict one; the spelling is compared. *)
Definition decodeA9Base64URL (value : bytes) (size : nat) : option bytes :=
  decoded ← b64_decode false value;
  bail negb (length decoded =? size)%nat || negb (beq (b64_encode decoded) value) with None;;
  Some decoded.

Definition decodeA9LowerHex (value prefix : bytes) : option bytes :=
  bail negb (has_prefix value prefix) with None;;
  let raw := trim_prefix value prefix in
  bail negb (length raw =? 64)%nat || negb (beq (to_lower raw) raw) with None;;
  decoded ← hex_decode raw;
  bail negb (length decoded =? 32)%nat || negb (beq (hex_encode decoded) raw) with None;;
  Some decoded.

(** A nil slice for another text. *)
Definition decodeA9BareHash (value : bytes) : bytes := default [] (decodeA9LowerHex value []).

Definition sameA9TopicEpoch (left right : option Z) : bool := bool_decide (left = right).

(** ** Validation of a candidate *)

Definition parseA9CanonicalObject (raw : bytes) : option object :=
  match ParseStrictJSON raw with
  | Err _ => None
  | Ok value =>
      match Canonicalize value with
      | Err _ => None
      | Ok canonical =>
          bail negb (beq canonical raw) with None;;
          match value with JObject o => Some o | _ => None end
      end
  end.

(** Not before and not after, in this order. *)
Definition key_window (o : object) : option (Z * Z) :=
  notBefore ← parseA9WireTime (a9ObjectString o "not_before");
  notAfter ← parseA9WireTime (a9ObjectString o "not_after");
  bail negb (after notAfter notBefore) with None;;
  Some (notBefore, notAfter).

Definition validate_online_key (item : json) (seen : list bytes) (expected : OnlineKey) : option a9ValidatedOnlineKey :=
  match item with
  | JObject o =>
      let keyID := a9ObjectString o "key_id" in
      publicKey ← decodeA9Base64URL (a9ObjectString o "public_key_base64url") 32;
      '(notBefore, notAfter) ← key_window o;
      keyIDBytes ← decodeA9LowerHex keyID (str "ed25519-sha256:");
      bail negb (bool_decide (Ed25519KeyID publicKey = Some keyID)) with None;;
      useCode ← a9OnlineUseCode (a9ObjectString o "use");
      stateCode ← a9OnlineStateCode (a9ObjectString o "state");
      bail bool_decide (keyID ∈ seen) with None;;
      bail negb (beq (onKeyID expected) keyID) || negb (beq (onUse expected) (a9ObjectString o "use")) ||
           negb (beq (onState expected) (a9ObjectString o "state")) || negb (beq (onPublicKey expected) publicKey) ||
           negb (onNotBefore expected =? notBefore) || negb (onNotAfter expected =? notAfter) with None;;
      Some {| voUse := useCode; voState := stateCode; voKeyID := keyIDBytes; voPublicKey := publicKey;
              voNotBefore := notBefore; voNotAfter := notAfter |}
  | _ => None
  end.

Fixpoint online_keys_from (items : list json) (seen : list bytes) (expected : list OnlineKey)
  : option (list a9ValidatedOnlineKey) :=
  match items, expected with
  | [], [] => Some []
  | item :: items, key :: expected =>
      validated ← validate_online_key item seen key;
      rest ← online_keys_from items (onKeyID key :: seen) expected;
      Some (validated :: rest)
  | _, _ => None
  end.

Definition validateA9OnlineKeys (raw : json) (expected : list OnlineKey) : option (list a9ValidatedOnlineKey) :=
  match raw with
  | JArray items =>
      bail negb (length items =? length expected)%nat with None;;
      online_keys_from items [] expected
  | _ => None
  end.

Definition commitment_epoch (value : json) : option (option Z) :=
  match value with
  | JNull => Some None
  | JNumber number =>
      parsed ← parse_uint64 number;
      bail (2 ^ 32 - 1 <? parsed) || (parsed =? 0) with None;;
      Some (Some parsed)
  | _ => None
  end.

Definition validate_commitment_key (item : json) (seen : list bytes) (expected : CommitmentKey)
  : option a9ValidatedCommitmentKey :=
  match item with
  | JObject o =>
      let purpose := a9ObjectString o "purpose" in
      let keyID := a9ObjectString o "key_id" in
      keyIDBytes ← decodeA9LowerHex keyID (str "hmac-sha256:");
      purposeCode ← a9CommitmentPurposeCode purpose;
      topicKeyEpoch ← commitment_epoch (field o "topic_key_epoch");
      bail negb (Bool.eqb (beq purpose (str "TOPIC")) (bool_decide (is_Some topicKeyEpoch))) with None;;
      '(notBefore, notAfter) ← key_window o;
      bail bool_decide (keyID ∈ seen) with None;;
      bail negb (beq (cmKeyID expected) keyID) || negb (beq (cmPurpose expected) purpose) ||
           negb (sameA9TopicEpoch (cmTopicKeyEpoch expected) topicKeyEpoch) ||
           negb (cmNotBefore expected =? notBefore) || negb (cmNotAfter expected =? notAfter) with None;;
      Some {| vmPurpose := purposeCode; vmKeyID := keyIDBytes; vmTopicKeyEpoch := topicKeyEpoch;
              vmNotBefore := notBefore; vmNotAfter := notAfter |}
  | _ => None
  end.

Fixpoint commitment_keys_from (items : list json) (seen : list bytes) (expected : list CommitmentKey)
  : option (list a9ValidatedCommitmentKey) :=
  match items, expected with
  | [], [] => Some []
  | item :: items, key :: expected =>
      validated ← validate_commitment_key item seen key;
      rest ← commitment_keys_from items (cmKeyID key :: seen) expected;
      Some (validated :: rest)
  | _, _ => None
  end.

Definition validateA9CommitmentKeys (raw : json) (expected : list CommitmentKey)
  : option (list a9ValidatedCommitmentKey) :=
  match raw with
  | JArray items =>
      bail negb (length items =? length expected)%nat with None;;
      commitment_keys_from items [] expected
  | _ => None
  end.

(** Every failure is [ErrKeysetRejected]. *)
Definition validateA9AcceptedKeyset (candidate : AcceptedKeyset) : option a9ValidatedCandidate :=
  environmentID ← a9EnvironmentID (akEnvironment candidate);
  bail (akSequence candidate =? 0) || (a9SafeIntegerMaximum <? akSequence candidate) ||
       is_zero (akIssuedAt candidate) || is_zero (akExpiresAt candidate) ||
       negb (after (akExpiresAt candidate) (akIssuedAt candidate)) ||
       (24 * hour <? time_sub (akExpiresAt candidate) (akIssuedAt candidate)) ||
       (Z.of_nat (length (akCanonicalSignedObject candidate)) =? 0) ||
       (262144 <? Z.of_nat (length (akCanonicalSignedObject candidate))) with None;;
  o ← parseA9CanonicalObject (akCanonicalSignedObject candidate);
  bail negb (beq (SHA256LowerHex (akCanonicalSignedObject candidate)) (akObjectHash candidate)) ||
       negb (beq (a9ObjectString o "environment") (akEnvironment candidate)) ||
       negb (a9ObjectUint o "keyset_sequence" =? akSequence candidate) ||
       negb (beq (a9ObjectString o "root_signing_key_id") (akRootKeyID candidate)) with None;;
  issuedAt ← parseA9WireTime (a9ObjectString o "issued_at");
  bail negb (issuedAt =? akIssuedAt candidate) with None;;
  expiresAt ← parseA9WireTime (a9ObjectString o "expires_at");
  bail negb (expiresAt =? akExpiresAt candidate) with None;;
  objectHash ← decodeA9LowerHex (akObjectHash candidate) [];
  rootKeyID ← decodeA9LowerHex (akRootKeyID candidate) (str "ed25519-sha256:");
  online ← validateA9OnlineKeys (field o "keys") (akOnlineKeys candidate);
  commitments ← validateA9CommitmentKeys (field o "commitment_keys") (akCommitmentKeys candidate);
  Some {| cdEnvironmentID := environmentID; cdObjectHash := objectHash; cdRootKeyID := rootKeyID; cdObject := o;
          cdOnline := online; cdCommitments := commitments |}.

(** ** The tables *)

Record AcceptedRow := { arHash : bytes; arJcs : bytes; arRootKeyID : bytes; arIssuedAt : Z; arExpiresAt : Z }.
Record OnlineRow := { owState : Z; owPublicKey : bytes; owNotBefore : Z; owNotAfter : Z }.
Record CommitmentRow := { cwTopicKeyEpoch : option Z; cwNotBefore : Z; cwNotAfter : Z }.

(** [a9_keyset_state] by environment; [a9_accepted_keysets] by environment and sequence; the
    descriptors by environment, sequence, use or purpose, and key. *)
Record KeysetDB := {
  kdState : gmap Z KeysetRow; kdAccepted : gmap (Z * Z) AcceptedRow;
  kdOnline : gmap (Z * Z * Z * bytes) OnlineRow; kdCommitments : gmap (Z * Z * Z * bytes) CommitmentRow;
}.

Definition with_keyset_state (m : gmap Z KeysetRow) (db : KeysetDB) : KeysetDB :=
  {| kdState := m; kdAccepted := kdAccepted db; kdOnline := kdOnline db; kdCommitments := kdCommitments db |}.
Definition with_accepted (m : gmap (Z * Z) AcceptedRow) (db : KeysetDB) : KeysetDB :=
  {| kdState := kdState db; kdAccepted := m; kdOnline := kdOnline db; kdCommitments := kdCommitments db |}.
Definition with_online (m : gmap (Z * Z * Z * bytes) OnlineRow) (db : KeysetDB) : KeysetDB :=
  {| kdState := kdState db; kdAccepted := kdAccepted db; kdOnline := m; kdCommitments := kdCommitments db |}.
Definition with_commitments (m : gmap (Z * Z * Z * bytes) CommitmentRow) (db : KeysetDB) : KeysetDB :=
  {| kdState := kdState db; kdAccepted := kdAccepted db; kdOnline := kdOnline db; kdCommitments := m |}.

(** ** Transactions whose errors keep code and constraint *)

Inductive pg_error := PgError (code constraint : bytes) | OtherError.

Inductive keyset_error := Database (e : pg_error) | errA9DatabaseUnavailable | ErrKeysetRejected.

Definition isA9SerializationFailure (e : keyset_error) : bool :=
  match e with
  | Database (PgError code constraint) =>
      bail beq code (str "40001") || beq code (str "40P01") with true;;
      bail negb (beq code (str "23505")) with false;;
      beq constraint (str "a9_accepted_keysets_pkey") || beq constraint (str "a9_keyset_state_pkey")
  | _ => false
  end.

(** The database and the failures of the statements to come. *)
Record kstate := { kxDb : KeysetDB; kxFaults : list (option pg_error) }.

Definition ktx (A : Type) : Type := kstate -> result keyset_error (A * kstate).

#[export] Instance ktx_ret : MRet ktx := fun _ a s => Ok (a, s).
#[export] Instance ktx_bind : MBind ktx := fun _ _ k m s =>
  match m s with Ok (a, s') => k a s' | Err e => Err e end.

Definition kfail {A : Type} (e : keyset_error) : ktx A := fun _ => Err e.

Definition statement {A : Type} (f : KeysetDB -> result pg_error (KeysetDB * A)) : ktx A := fun s =>
  match kxFaults s with
  | Some e :: _ => Err (Database e)
  | faults =>
      match f (kxDb s) with
      | Ok (db, a) => Ok (a, {| kxDb := db; kxFaults := tail faults |})
      | Err e => Err (Database e)
      end
  end.

Definition kquery {A : Type} (f : KeysetDB -> A) : ktx A := statement (fun db => Ok (db, f db)).

(** What surrounds one transaction: the clock of the database, failures of begin, statements and
    commit; a failed commit may have been applied. *)
Record KeysetAttempt := {
  ktNow : Z; ktBegin : option pg_error; ktStatements : list (option pg_error); ktCommit : option (pg_error * bool);
}.

Definition run_ktx {A : Type} (body : ktx A) (att : KeysetAttempt) (db : KeysetDB) : KeysetDB * result keyset_error A :=
  match ktBegin att with
  | Some e => (db, Err (Database e))
  | None =>
      match body {| kxDb := db; kxFaults := ktStatements att |} with
      | Err e => (db, Err e)
      | Ok (a, s) =>
          match ktCommit att with
          | None => (kxDb s, Ok a)
          | Some (e, applied) => (if applied then kxDb s else db, Err (Database e))
          end
      end
  end.

Definition unique (constraint : string) : pg_error := PgError (str "23505") (str constraint).
Definition check_violated : pg_error := PgError (str "23514") [].
Definition foreign_key_violated : pg_error := PgError (str "23503") [].

Section Store.
Context `{Postgres}.

#[local] Abbreviation ts := pg_timestamp.

(** ** Statements *)

(** The check of [a9_keyset_state]. *)
Definition state_row_ok (row : KeysetRow) : bool :=
  let hashed := match ksHash row with Some h => (length h =? 32)%nat | None => false end in
  let numbered := (1 <=? ksSequence row) && (ksSequence row <=? a9SafeIntegerMaximum) in
  let expires := bool_decide (is_Some (ksExpiresAt row)) in
  ((ksState row =? 1) && numbered && hashed && expires && (ksUncertainty row =? 0)) ||
  ((ksState row =? 2) && (1 <=? ksUncertainty row) && (ksUncertainty row <=? 16) &&
   (((ksSequence row =? 0) && bool_decide (ksHash row = None) && negb expires) || (numbered && hashed && expires))).

(** The row refers to an accepted keyset; a row without a hash refers to none. *)
Definition state_supported (environmentID : Z) (row : KeysetRow) (db : KeysetDB) : bool :=
  match ksHash row with
  | None => true
  | Some hash =>
      match kdAccepted db !! (environmentID, ksSequence row) with
      | Some accepted => beq (arHash accepted) hash
      | None => false
      end
  end.

Definition put_state (environmentID : Z) (row : KeysetRow) (db : KeysetDB) : result pg_error KeysetDB :=
  reject negb (state_row_ok row) with check_violated;;
  reject negb (state_supported environmentID row db) with foreign_key_violated;;
  Ok (with_keyset_state (<[environmentID := row]> (kdState db)) db).

Definition insert_state (environmentID : Z) (row : KeysetRow) (db : KeysetDB) : result pg_error (KeysetDB * unit) :=
  match kdState db !! environmentID with
  | Some _ => Err (unique "a9_keyset_state_pkey")
  | None => db ← put_state environmentID row db; Ok (db, tt)
  end.

(** [UPDATE ... WHERE environment = $1 AND ...]: how many rows. *)
Definition update_state (environmentID : Z) (where_ : KeysetRow -> bool) (set_ : KeysetRow -> KeysetRow) (db : KeysetDB)
  : result pg_error (KeysetDB * Z) :=
  match kdState db !! environmentID with
  | Some row => if where_ row then db ← put_state environmentID (set_ row) db; Ok (db, 1) else Ok (db, 0)
  | None => Ok (db, 0)
  end.

Definition insert_accepted (environmentID sequence : Z) (row : AcceptedRow) (db : KeysetDB)
  : result pg_error (KeysetDB * unit) :=
  reject (sequence <? 1) || (a9SafeIntegerMaximum <? sequence) || negb (length (arHash row) =? 32)%nat ||
         (Z.of_nat (length (arJcs row)) <? 1) || (262144 <? Z.of_nat (length (arJcs row))) ||
         negb (length (arRootKeyID row) =? 32)%nat || (arExpiresAt row <=? arIssuedAt row) ||
         (arIssuedAt row + 24 * hour <? arExpiresAt row) with check_violated;;
  match kdAccepted db !! (environmentID, sequence) with
  | Some _ => Err (unique "a9_accepted_keysets_pkey")
  | None =>
      reject negb (all_rows (fun k other => negb ((k.1 =? environmentID) && beq (arHash other) (arHash row)))
                (kdAccepted db)) with unique "a9_accepted_keysets_environment_signed_keyset_hash_key";;
      Ok (with_accepted (<[(environmentID, sequence) := row]> (kdAccepted db)) db, tt)
  end.

Definition insert_online (environmentID sequence : Z) (key : a9ValidatedOnlineKey) (db : KeysetDB)
  : result pg_error (KeysetDB * unit) :=
  let id := (environmentID, sequence, voUse key, voKeyID key) in
  let row := {| owState := voState key; owPublicKey := voPublicKey key; owNotBefore := ts (voNotBefore key);
                owNotAfter := ts (voNotAfter key) |} in
  let same (k : Z * Z * Z * bytes) := (k.1.1.1 =? environmentID) && (k.1.1.2 =? sequence) in
  reject negb (length (voKeyID key) =? 32)%nat || negb (length (voPublicKey key) =? 32)%nat ||
         (owNotAfter row <=? owNotBefore row) with check_violated;;
  reject bool_decide (is_Some (kdOnline db !! id)) with unique "a9_online_key_descriptors_pkey";;
  reject negb (all_rows (fun k _ => negb (same k && beq k.2 (voKeyID key))) (kdOnline db))
    with unique "a9_online_key_descriptors_environment_keyset_sequence_key_id_key";;
  reject (voState key =? 1) &&
         negb (all_rows (fun k other => negb (same k && (k.1.2 =? voUse key) && (owState other =? 1))) (kdOnline db))
    with unique "a9_online_keys_sole_sign_idx";;
  reject negb (bool_decide (is_Some (kdAccepted db !! (environmentID, sequence)))) with foreign_key_violated;;
  Ok (with_online (<[id := row]> (kdOnline db)) db, tt).

Definition insert_commitment (environmentID sequence : Z) (key : a9ValidatedCommitmentKey) (db : KeysetDB)
  : result pg_error (KeysetDB * unit) :=
  let id := (environmentID, sequence, vmPurpose key, vmKeyID key) in
  let row := {| cwTopicKeyEpoch := vmTopicKeyEpoch key; cwNotBefore := ts (vmNotBefore key);
                cwNotAfter := ts (vmNotAfter key) |} in
  let same (k : Z * Z * Z * bytes) := (k.1.1.1 =? environmentID) && (k.1.1.2 =? sequence) in
  reject negb (length (vmKeyID key) =? 32)%nat || (cwNotAfter row <=? cwNotBefore row) ||
         negb (match vmTopicKeyEpoch key with
               | None => (vmPurpose key =? 1) || (vmPurpose key =? 2)
               | Some epoch => (vmPurpose key =? 3) && (1 <=? epoch) && (epoch <=? 4294967295)
               end) with check_violated;;
  reject bool_decide (is_Some (kdCommitments db !! id)) with unique "a9_commitment_key_descriptors_pkey";;
  reject negb (all_rows (fun k _ => negb (same k && beq k.2 (vmKeyID key))) (kdCommitments db))
    with unique "a9_commitment_key_descriptors_environment_keyset_sequence_k_key";;
  reject negb (bool_decide (is_Some (kdAccepted db !! (environmentID, sequence)))) with foreign_key_violated;;
  Ok (with_commitments (<[id := row]> (kdCommitments db)) db, tt).

(** ** Reading the row *)

(** The row with the text of the keyset it refers to; [None] without a row. *)
Definition joined_state (environmentID : Z) (db : KeysetDB) : option (KeysetRow * option bytes) :=
  row ← kdState db !! environmentID;
  Some (row, accepted ← kdAccepted db !! (environmentID, ksSequence row);
             if bool_decide (ksHash row = Some (arHash accepted)) then Some (arJcs accepted) else None).

(** NULL columns scan as empty slices. *)
Definition scanA9KeysetState (environment : bytes) (joined : KeysetRow * option bytes)
  : option (KeysetState * bytes) :=
  let '(row, text) := joined in
  let hash := default [] (ksHash row) in
  let canonical := default [] text in
  bail (ksSequence row <? 0) || (a9SafeIntegerMaximum <? ksSequence row) ||
       (negb (ksState row =? a9KeysetStateCurrent) && negb (ksState row =? a9KeysetStateUncertain)) with None;;
  let uncertain := ksState row =? a9KeysetStateUncertain in
  if ksSequence row =? 0 then
    bail negb uncertain || negb (beq hash []) || bool_decide (is_Some (ksExpiresAt row)) || negb (beq canonical [])
      with None;;
    Some ({| kvEnvironment := environment; kvSequence := 0; kvObjectHash := []; kvExpiresAt := zero_time;
             kvUncertain := uncertain |}, [])
  else
    expiresAt ← ksExpiresAt row;
    bail negb (length hash =? 32)%nat || beq canonical [] with None;;
    Some ({| kvEnvironment := environment; kvSequence := ksSequence row; kvObjectHash := hex_encode hash;
             kvExpiresAt := expiresAt; kvUncertain := uncertain |}, canonical).

(** [None] is [sql.ErrNoRows]. *)
Definition readA9KeysetStateForUpdate (environment : bytes) (environmentID : Z) : ktx (option (KeysetState * bytes)) :=
  joined ← kquery (joined_state environmentID);
  match (joined : option (KeysetRow * option bytes)) with
  | None => mret None
  | Some joined =>
      match scanA9KeysetState environment joined with
      | Some found => mret (Some found)
      | None => kfail errA9DatabaseUnavailable
      end
  end.

Definition lockA9KeysetEnvironment : ktx () := kquery (fun _ => tt).

(** One row, or the error of the store. *)
Definition one_row (rows : Z) : ktx () := if rows =? 1 then mret tt else kfail errA9DatabaseUnavailable.

(** ** Writing *)

Definition uncertain_row (reason now : Z) (row : KeysetRow) : KeysetRow := {|
  ksSequence := ksSequence row; ksHash := ksHash row; ksState := 2; ksUncertainty := reason;
  ksExpiresAt := ksExpiresAt row; ksRefreshedAt := ts now |}.

Definition latchA9KeysetStateTx (current : KeysetState) (environmentID reason now : Z) : ktx KeysetState :=
  rows ← statement (update_state environmentID (fun row => ksState row =? 1) (uncertain_row reason now));
  one_row rows ;;
  mret {| kvEnvironment := kvEnvironment current; kvSequence := kvSequence current;
          kvObjectHash := kvObjectHash current; kvExpiresAt := kvExpiresAt current; kvUncertain := true |}.

Definition is_current_row (current : KeysetState) (row : KeysetRow) : bool :=
  (ksSequence row =? kvSequence current) && bool_decide (ksHash row = Some (decodeA9BareHash (kvObjectHash current))) &&
  (ksState row =? 1).

Definition refreshed_row (now : Z) (row : KeysetRow) : KeysetRow := {|
  ksSequence := ksSequence row; ksHash := ksHash row; ksState := ksState row; ksUncertainty := ksUncertainty row;
  ksExpiresAt := ksExpiresAt row; ksRefreshedAt := ts now |}.

Definition refreshA9KeysetStateTx (current : KeysetState) (environmentID now : Z) : ktx () :=
  rows ← statement (update_state environmentID (is_current_row current) (refreshed_row now));
  one_row rows.

Fixpoint each_key {A : Type} (m : A -> ktx ()) (l : list A) : ktx () :=
  match l with [] => mret tt | a :: l => m a ;; each_key m l end.

Definition current_row (candidate : AcceptedKeyset) (validated : a9ValidatedCandidate) (now : Z) : KeysetRow := {|
  ksSequence := akSequence candidate; ksHash := Some (cdObjectHash validated); ksState := 1; ksUncertainty := 0;
  ksExpiresAt := Some (ts (akExpiresAt candidate)); ksRefreshedAt := ts now |}.

Definition appendA9KeysetTx (candidate : AcceptedKeyset) (validated : a9ValidatedCandidate)
    (current : option KeysetState) (now : Z) : ktx () :=
  let environmentID := cdEnvironmentID validated in
  let sequence := akSequence candidate in
  statement (insert_accepted environmentID sequence {|
    arHash := cdObjectHash validated; arJcs := akCanonicalSignedObject candidate; arRootKeyID := cdRootKeyID validated;
    arIssuedAt := ts (akIssuedAt candidate); arExpiresAt := ts (akExpiresAt candidate) |}) ;;
  each_key (fun key => statement (insert_online environmentID sequence key)) (cdOnline validated) ;;
  each_key (fun key => statement (insert_commitment environmentID sequence key)) (cdCommitments validated) ;;
  match current with
  | None => statement (insert_state environmentID (current_row candidate validated now))
  | Some current =>
      rows ← statement (update_state environmentID (is_current_row current) (fun _ => current_row candidate validated now));
      one_row rows
  end.

(** ** Accepting a keyset *)

(** The state, and whether the candidate was rejected: the transaction commits either way. *)
Definition reject_with (current : KeysetState) (environmentID reason now : Z) : ktx (KeysetState * bool) :=
  latched ← latchA9KeysetStateTx current environmentID reason now;
  mret (latched, true).

(** The candidate against the current keyset and its text. *)
Definition accept_after (candidate : AcceptedKeyset) (validated : a9ValidatedCandidate) (current : KeysetState)
    (previousCanonical : bytes) (now : Z) : ktx (KeysetState * bool) :=
  let environmentID := cdEnvironmentID validated in
  let accepted := {| kvEnvironment := akEnvironment candidate; kvSequence := akSequence candidate;
                     kvObjectHash := akObjectHash candidate; kvExpiresAt := akExpiresAt candidate;
                     kvUncertain := false |} in
  if kvUncertain current then mret (current, true) else
  if (akSequence candidate <? kvSequence current) ||
     ((akSequence candidate =? kvSequence current) && negb (beq (akObjectHash candidate) (kvObjectHash current)))
  then reject_with current environmentID a9UncertaintyRollback now else
  if akSequence candidate =? kvSequence current then
    if negb (akExpiresAt candidate =? kvExpiresAt current)
    then reject_with current environmentID a9UncertaintyRollback now
    else refreshA9KeysetStateTx current environmentID now ;; mret (current, false)
  else
  let rotated := match parseA9CanonicalObject previousCanonical with
                 | Some previous => IsEligible (ValidateOnlineRotation previous (cdObject validated))
                 | None => false
                 end in
  if negb rotated then reject_with current environmentID a9UncertaintyRotation now
  else appendA9KeysetTx candidate validated (Some current) now ;; mret (accepted, false).

Definition acceptKeysetOnce (candidate : AcceptedKeyset) (validated : a9ValidatedCandidate) (now : Z)
  : ktx (KeysetState * bool) :=
  lockA9KeysetEnvironment ;;
  found ← readA9KeysetStateForUpdate (akEnvironment candidate) (cdEnvironmentID validated);
  match (found : option (KeysetState * bytes)) with
  | Some (current, previousCanonical) => accept_after candidate validated current previousCanonical now
  | None =>
      appendA9KeysetTx candidate validated None now ;;
      mret ({| kvEnvironment := akEnvironment candidate; kvSequence := akSequence candidate;
               kvObjectHash := akObjectHash candidate; kvExpiresAt := akExpiresAt candidate;
               kvUncertain := false |}, false)
  end.

Definition latchKeysetUncertaintyOnce (environment : bytes) (environmentID reason now : Z) : ktx () :=
  lockA9KeysetEnvironment ;;
  found ← readA9KeysetStateForUpdate environment environmentID;
  match (found : option (KeysetState * bytes)) with
  | None =>
      statement (insert_state environmentID {| ksSequence := 0; ksHash := None; ksState := 2; ksUncertainty := reason;
                                               ksExpiresAt := None; ksRefreshedAt := ts now |})
  | Some (state, _) =>
      if kvUncertain state then mret tt
      else latchA9KeysetStateTx state environmentID reason now ;; mret tt
  end.

(** ** The operations *)

(** What the [i]-th transaction of this replica meets: other replicas' transactions before it,
    and its attempt. *)
Variable rounds : nat -> (KeysetDB -> KeysetDB) * KeysetAttempt.

Definition kop (A : Type) : Type := nat * KeysetDB -> (nat * KeysetDB) * result keyset_error A.

Definition kunavailable {A : Type} : kop A := fun st => (st, Err errA9DatabaseUnavailable).

(** Only serialization failures are tried again. *)
Fixpoint keyset_attempts {A : Type} (n : nat) (once : Z -> ktx A) : kop A := fun '(i, db) =>
  match n with
  | O => kunavailable (i, db)
  | S n =>
      let '(others, att) := rounds i in
      match run_ktx (once (ktNow att)) att (others db) with
      | (db, Ok a) => ((S i, db), Ok a)
      | (db, Err e) =>
          if isA9SerializationFailure e then keyset_attempts n once (S i, db)
          else ((S i, db), Err errA9DatabaseUnavailable)
      end
  end.

Definition LatchKeysetUncertainty (environment reason : bytes) (cancelled : bool) : kop () :=
  match a9EnvironmentID environment with
  | None => kunavailable
  | Some environmentID =>
      if cancelled then kunavailable else
      keyset_attempts a9SerializableAttempts
        (latchKeysetUncertaintyOnce environment environmentID (a9UncertaintyReason reason))
  end.

Definition AcceptKeyset (candidate : AcceptedKeyset) (cancelled : bool) : kop KeysetState := fun st =>
  match validateA9AcceptedKeyset candidate with
  | None =>
      match a9EnvironmentID (akEnvironment candidate) with
      | None => (st, Err ErrKeysetRejected)
      | Some _ =>
          match LatchKeysetUncertainty (akEnvironment candidate) (str "KEY_STATE") cancelled st with
          | (st, Ok _) => (st, Err ErrKeysetRejected)
          | (st, Err _) => (st, Err errA9DatabaseUnavailable)
          end
      end
  | Some validated =>
      if cancelled then (st, Err errA9DatabaseUnavailable) else
      match keyset_attempts a9SerializableAttempts (acceptKeysetOnce candidate validated) st with
      | (st, Ok (state, rejected)) => (st, if (rejected : bool) then Err ErrKeysetRejected else Ok state)
      | (st, Err e) => (st, Err e)
      end
  end.

(** One query; its failure is the error of the store. *)
Definition CurrentKeysetState (environment : bytes) (cancelled fails : bool) (db : KeysetDB) : option KeysetState :=
  environmentID ← a9EnvironmentID environment;
  bail cancelled || fails with None;;
  joined ← joined_state environmentID db;
  '(state, _) ← scanA9KeysetState environment joined;
  Some state.

End Store.
