(* ===== verification/KeysetProps.v ===== *)
(** * What the keyset store promises

    The transactions of the store as moves of its tables; the chain of accepted keysets; the
    latch. *)

From Stdlib Require Import ssreflect.
From S2P Require Import Prelude GoBytes GoTime GoCrypto JsonText Jcs A9Schema A9Types A9Trust A9Keyset Sql A9VaultDb ServiceAuth ReplayReceipts KeysetStore.
Local Open Scope Z_scope.
Local Open Scope go_scope.

(** ** The chain *)

Definition rotates (previous next : AcceptedRow) : Prop :=
  exists before_ after_, parseA9CanonicalObject (arJcs previous) = Some before_ /\
    parseA9CanonicalObject (arJcs next) = Some after_ /\ IsEligible (ValidateOnlineRotation before_ after_) = true.

(** The row keeps the canonical text, under its own sequence and hash. *)
Definition accepted_text (sequence : Z) (row : AcceptedRow) : Prop :=
  exists o, parseA9CanonicalObject (arJcs row) = Some o /\ a9ObjectUint o "keyset_sequence" = sequence /\
    decodeA9LowerHex (SHA256LowerHex (arJcs row)) [] = Some (arHash row).

Record keyset_chain (db : KeysetDB) : Prop := {
  kc_rows : forall id row, kdState db !! id = Some row ->
    state_row_ok row = true /\ state_supported id row db = true;
  kc_bound : forall id s acc, kdAccepted db !! (id, s) = Some acc ->
    accepted_text s acc /\ exists row, kdState db !! id = Some row /\ s <= ksSequence row;
  kc_linked : forall id s s' a a', kdAccepted db !! (id, s) = Some a -> kdAccepted db !! (id, s') = Some a' ->
    s < s' -> (forall t, s < t < s' -> kdAccepted db !! (id, t) = None) -> rotates a a';
}.

Definition empty_keysets : KeysetDB := {| kdState := ∅; kdAccepted := ∅; kdOnline := ∅; kdCommitments := ∅ |}.

(** What one transaction does to the rows of environments and to the accepted keysets. *)
Inductive keyset_move (db db' : KeysetDB) : Prop :=
| kept : kdState db' = kdState db -> kdAccepted db' = kdAccepted db -> keyset_move db db'
| latched_first id row : kdState db !! id = None -> ksState row = 2 -> state_row_ok row = true -> ksHash row = None ->
    kdState db' = <[id := row]> (kdState db) -> kdAccepted db' = kdAccepted db -> keyset_move db db'
| marked id row row' : kdState db !! id = Some row -> ksState row = 1 -> ksSequence row' = ksSequence row ->
    ksHash row' = ksHash row -> state_row_ok row' = true ->
    kdState db' = <[id := row']> (kdState db) -> kdAccepted db' = kdAccepted db -> keyset_move db db'
| appended id row acc : ksState row = 1 -> ksHash row = Some (arHash acc) -> state_row_ok row = true ->
    accepted_text (ksSequence row) acc -> kdAccepted db !! (id, ksSequence row) = None ->
    (forall old, kdState db !! id = Some old ->
       ksState old = 1 /\ ksSequence old < ksSequence row /\
       exists previous, kdAccepted db !! (id, ksSequence old) = Some previous /\ rotates previous acc) ->
    kdState db' = <[id := row]> (kdState db) ->
    kdAccepted db' = <[(id, ksSequence row) := acc]> (kdAccepted db) -> keyset_move db db'.

Lemma empty_chain : keyset_chain empty_keysets.
Proof. by split. Qed.

Lemma supported_grows id row db db' :
  (forall k a, kdAccepted db !! k = Some a -> kdAccepted db' !! k = Some a) ->
  state_supported id row db = true -> state_supported id row db' = true.
Proof.
  move=> E. rw /state_supported. destruct (ksHash row) as [h|]; [|done].
  destruct (kdAccepted db !! _) as [a|] eqn:Ea; [|done]. by rw (E _ _ Ea).
Qed.

Lemma supported_same id row row' db db' :
  kdAccepted db' = kdAccepted db -> ksSequence row' = ksSequence row -> ksHash row' = ksHash row ->
  state_supported id row' db' = state_supported id row db.
Proof. by rw /state_supported => -> -> ->. Qed.

(** No accepted keyset is ever removed or rewritten. *)
Lemma move_appends db db' k a : keyset_move db db' -> kdAccepted db !! k = Some a -> kdAccepted db' !! k = Some a.
Proof.
  move=> M E. destruct M as [_ ->|? ? _ _ _ _ _ ->|? ? ? _ _ _ _ _ _ ->|id row acc _ _ _ _ N _ _ ->]; try done.
  rw lookup_insert_ne //. by move=> X; rw X E in N.
Qed.

(** An uncertain row is never written again. *)
Lemma move_uncertain db db' id row : keyset_move db db' -> kdState db !! id = Some row -> ksState row = 2 ->
  kdState db' !! id = Some row.
Proof.
  move=> M E U. destruct M as [-> _|i ? N _ _ _ -> _|i r ? R S _ _ _ -> _|i r ? _ _ _ _ _ P -> _]; [done|..];
    (destruct (decide (i = id)) as [->|]; [|by rw lookup_insert_ne]).
  - by rw N in E.
  - rw R in E. simplify_eq. lia.
  - move: (P row E) => [S _]. lia.
Qed.

Lemma move_sequence db db' id row : keyset_move db db' -> kdState db !! id = Some row ->
  exists row', kdState db' !! id = Some row' /\ ksSequence row <= ksSequence row'.
Proof.
  move=> M E. destruct M as [-> _|i ? N _ _ _ -> _|i r ? R S Q _ _ -> _|i r ? _ _ _ _ _ P -> _];
    [by exists row|..];
    (destruct (decide (i = id)) as [->|]; [|by exists row; rw lookup_insert_ne]).
  - by rw N in E.
  - rw R in E. simplify_eq. eexists. rw lookup_insert_eq. split; [done|lia].
  - move: (P row E) => [_ [L _]]. eexists. rw lookup_insert_eq. split; [done|lia].
Qed.

Lemma move_rows db db' : keyset_move db db' -> keyset_chain db ->
  forall id row, kdState db' !! id = Some row -> state_row_ok row = true /\ state_supported id row db' = true.
Proof.
  move=> M C id row E.
  have old : kdState db !! id = Some row -> state_row_ok row = true /\ state_supported id row db' = true.
  { move=> /(kc_rows _ C) [R S]. split; [done|]. move: S. apply supported_grows => k a. by apply move_appends. }
  destruct M as [X _|i r _ _ R Hn X _|i r r' P _ Q Hh R X Y|i r acc _ Hh R _ _ _ X Y]; rw X in E; [by apply old|..];
    (apply lookup_insert_Some in E as [[-> ->]|[_ E]]; [|by apply old]); (split; [done|]).
  - by rw /state_supported Hn.
  - rw (supported_same id r row db db' Y Q Hh). by apply (kc_rows _ C _ _ P).
  - rw /state_supported Hh Y lookup_insert_eq. by apply beq_refl.
Qed.

(** Appended above all the accepted ones, and only after the greatest. *)
Lemma append_linked db id row acc : keyset_chain db ->
  (forall old, kdState db !! id = Some old -> ksState old = 1 /\ ksSequence old < ksSequence row /\
     exists previous, kdAccepted db !! (id, ksSequence old) = Some previous /\ rotates previous acc) ->
  forall s a, kdAccepted db !! (id, s) = Some a -> s < ksSequence row /\
    ((forall t, s < t < ksSequence row -> kdAccepted db !! (id, t) = None) -> rotates a acc).
Proof.
  move=> C P s a E. move: (kc_bound _ C _ _ _ E) => [_ [old [O L]]]. move: (P _ O) => [_ [L' [previous [Ep R]]]].
  split; [lia|] => F. destruct (decide (s = ksSequence old)) as [->|N]; [by rw E in Ep; simplify_eq|].
  have B : s < ksSequence old < ksSequence row by lia. by rw (F _ B) in Ep.
Qed.

Lemma move_chain db db' : keyset_move db db' -> keyset_chain db -> keyset_chain db'.
Proof.
  move=> M C. split; [exact (move_rows _ _ M C)| |].
  - move=> id s acc E.
    have old : kdAccepted db !! (id, s) = Some acc -> accepted_text s acc /\
      exists row, kdState db' !! id = Some row /\ s <= ksSequence row.
    { move=> /(kc_bound _ C) [T [row [R L]]]. split; [done|].
      move: (move_sequence _ _ _ _ M R) => [row' [R' L']]. exists row'. split; [done|lia]. }
    destruct M as [_ X|? ? _ _ _ _ _ X|? ? ? _ _ _ _ _ _ X|i r a _ _ _ T _ _ S X]; rw X in E; try by apply old.
    apply lookup_insert_Some in E as [[K ->]|[_ E]]; [|by apply old]. simplify_eq/=.
    split; [done|]. exists r. by rw S lookup_insert_eq.
  - move=> id s s' a a' E E' L F.
    destruct M as [_ X|? ? _ _ _ _ _ X|? ? ? _ _ _ _ _ _ X|i r acc _ _ _ T N P S X]; rw X in E E';
      try by (apply (kc_linked _ C id s s' a a'); [..|move=> t B; rw -X; apply F]).
    move: (append_linked _ _ _ _ C P) => above.
    have F0 : forall t, s < t < s' -> kdAccepted db !! (id, t) = None.
    { move=> t B. move: (F t B). rw X => /lookup_insert_None [? _]. done. }
    apply lookup_insert_Some in E as [[K ->]|[K E]]; apply lookup_insert_Some in E' as [[K' ->]|[K' E']];
      simplify_eq/=; [lia| | |by apply (kc_linked _ C id s s')].
    + move: (above _ _ E') => [? _]. lia.
    + by apply (above _ _ E).
Qed.

(** ** Transactions *)

Lemma kbind_ok {A B : Type} (m : ktx A) (k : A -> ktx B) s r :
  (m ≫= k) s = Ok r -> exists a s1, m s = Ok (a, s1) /\ k a s1 = Ok r.
Proof. rw {1}/mbind /ktx_bind. destruct (m s) as [[a s1]|]; [|done]. by exists a, s1. Qed.

Lemma kret_ok {A : Type} (a : A) s r : (mret a : ktx A) s = Ok r -> r = (a, s).
Proof. by move=> [=]. Qed.

Lemma statement_ok {A : Type} (f : KeysetDB -> result pg_error (KeysetDB * A)) s a s' :
  statement f s = Ok (a, s') -> f (kxDb s) = Ok (kxDb s', a).
Proof.
  rw /statement => E. destruct (kxFaults s) as [|[e|] l]; [..|]; try done;
    destruct (f (kxDb s)) as [[db b]|]; simplify_eq/=; done.
Qed.

Lemma kquery_ok {A : Type} (f : KeysetDB -> A) s a s' : kquery f s = Ok (a, s') -> kxDb s' = kxDb s /\ a = f (kxDb s).
Proof. intros E. apply statement_ok in E. by injection E. Qed.

Lemma one_row_ok n s u s' : one_row n s = Ok (u, s') -> n = 1 /\ s' = s.
Proof. rw /one_row. destruct (n =? 1) eqn:E; [|done]. intros [= ]; subst. split; [lia|done]. Qed.

Lemma put_state_ok id row db db' : put_state id row db = Ok db' ->
  state_row_ok row = true /\ state_supported id row db = true /\ db' = with_keyset_state (<[id := row]> (kdState db)) db.
Proof.
  rw /put_state => /reject_ok [R /reject_ok [S E]]. simplify_eq. apply negb_false_iff in R, S. done.
Qed.

Lemma update_state_ok id p f db db' : update_state id p f db = Ok (db', 1) ->
  exists row, kdState db !! id = Some row /\ p row = true /\ put_state id (f row) db = Ok db'.
Proof.
  rw /update_state. destruct (kdState db !! id) as [row|]; [|done]. destruct (p row) eqn:P; [|done].
  move=> /bind_ok [d [E X]]. simplify_eq/=. by exists row.
Qed.

Lemma insert_state_ok id row db db' u : insert_state id row db = Ok (db', u) ->
  kdState db !! id = None /\ put_state id row db = Ok db'.
Proof.
  rw /insert_state. destruct (kdState db !! id); [done|]. move=> /bind_ok [d [E X]]. by simplify_eq/=.
Qed.

Lemma insert_accepted_ok id s row db db' u : insert_accepted id s row db = Ok (db', u) ->
  kdAccepted db !! (id, s) = None /\ db' = with_accepted (<[(id, s) := row]> (kdAccepted db)) db.
Proof.
  rw /insert_accepted => /reject_ok [_ E]. destruct (kdAccepted db !! _); [done|].
  move: E => /reject_ok [_ E]. by simplify_eq.
Qed.

(** The rows of environments and the accepted keysets are the same. *)
Definition same_heads (db db' : KeysetDB) : Prop := kdState db' = kdState db /\ kdAccepted db' = kdAccepted db.

Section Transactions.
Context `{Postgres}.

Lemma insert_online_heads id s key db r : insert_online id s key db = Ok r -> same_heads db r.1.
Proof. rw /insert_online => /reject_ok [_ /reject_ok [_ /reject_ok [_ /reject_ok [_ /reject_ok [_ E]]]]]. by simplify_eq. Qed.

Lemma insert_commitment_heads id s key db r : insert_commitment id s key db = Ok r -> same_heads db r.1.
Proof. rw /insert_commitment => /reject_ok [_ /reject_ok [_ /reject_ok [_ /reject_ok [_ E]]]]. by simplify_eq. Qed.

Lemma each_key_heads {A : Type} (f : A -> KeysetDB -> result pg_error (KeysetDB * unit)) l s u s' :
  (forall a db r, f a db = Ok r -> same_heads db r.1) ->
  each_key (fun a => statement (f a)) l s = Ok (u, s') -> same_heads (kxDb s) (kxDb s').
Proof.
  move=> F. elim: l s => [|a l IH] s /=; [by intros [= ]; subst|].
  move=> /kbind_ok [v [s1 [E1 E2]]]. apply statement_ok in E1.
  move: (F _ _ _ E1) (IH _ E2) => [/= S1 A1] [S2 A2]. split; by rw ?S2 ?A2.
Qed.

(** The row of the environment is uncertain. *)
Definition environment_uncertain (id : Z) (db : KeysetDB) : Prop :=
  exists row, kdState db !! id = Some row /\ ksState row = 2.

(** The row of the environment is current and refers to the accepted keyset. *)
Definition keyset_recorded (id sequence : Z) (hash : bytes) (db : KeysetDB) : Prop :=
  exists row acc, kdState db !! id = Some row /\ ksState row = 1 /\ ksSequence row = sequence /\
    ksHash row = Some hash /\ kdAccepted db !! (id, sequence) = Some acc /\ arHash acc = hash.

Lemma supported_some id row db hash : ksHash row = Some hash -> state_supported id row db = true ->
  exists acc, kdAccepted db !! (id, ksSequence row) = Some acc /\ arHash acc = hash.
Proof.
  rw /state_supported => ->. destruct (kdAccepted db !! _) as [acc|]; [|done]. move=> /beq_true E. by exists acc.
Qed.

Lemma latch_state_ok current id reason now s st s' : latchA9KeysetStateTx current id reason now s = Ok (st, s') ->
  kvUncertain st = true /\ keyset_move (kxDb s) (kxDb s') /\ environment_uncertain id (kxDb s').
Proof.
  rw /latchA9KeysetStateTx => /kbind_ok [rows [s1 [E /kbind_ok [u [s2 [O R]]]]]].
  apply statement_ok in E. apply one_row_ok in O as [-> ->]. injection R as <- <-.
  apply update_state_ok in E as (row & L & P & W). apply put_state_ok in W as (W & _ & ->).
  split; [done|]. split.
  - apply (marked _ _ id row (uncertain_row reason now row)); try done. move: P. lia.
  - rw /environment_uncertain /= lookup_insert_eq. by eexists.
Qed.

Lemma refresh_state_ok current id now s u s' : refreshA9KeysetStateTx current id now s = Ok (u, s') ->
  keyset_move (kxDb s) (kxDb s') /\
  keyset_recorded id (kvSequence current) (decodeA9BareHash (kvObjectHash current)) (kxDb s').
Proof.
  rw /refreshA9KeysetStateTx => /kbind_ok [rows [s1 [E O]]]. apply statement_ok in E. apply one_row_ok in O as [-> ->].
  apply update_state_ok in E as (row & L & P & W). apply put_state_ok in W as (W & S & ->).
  move: P => /andb_prop [/andb_prop [/Z.eqb_eq Q /bool_decide_eq_true_1 Hh] /Z.eqb_eq P].
  split.
  - by apply (marked _ _ id row (refreshed_row now row)).
  - apply supported_some with (hash := decodeA9BareHash (kvObjectHash current)) in S as (acc & A & Ah); [|done].
    exists (refreshed_row now row), acc. rw /= lookup_insert_eq. by rw -Q.
Qed.

(** What validation establishes. *)
Lemma validated_candidate candidate v : validateA9AcceptedKeyset candidate = Some v ->
  a9EnvironmentID (akEnvironment candidate) = Some (cdEnvironmentID v) /\
  parseA9CanonicalObject (akCanonicalSignedObject candidate) = Some (cdObject v) /\
  a9ObjectUint (cdObject v) "keyset_sequence" = akSequence candidate /\
  SHA256LowerHex (akCanonicalSignedObject candidate) = akObjectHash candidate /\
  decodeA9LowerHex (akObjectHash candidate) [] = Some (cdObjectHash v).
Proof.
  rw /validateA9AcceptedKeyset => /bind_Some [id [E /bail_some [_ /bind_Some [o [P /bail_some [B]]]]]].
  move=> /bind_Some [issued [_ /bail_some [_ /bind_Some [expires [_ /bail_some [_]]]]]].
  move=> /bind_Some [hash [Hh /bind_Some [root [_ /bind_Some [online [_ /bind_Some [commitments [_ R]]]]]]]].
  injection R as <-. boolprop. by beqs.
Qed.

Definition candidate_row (candidate : AcceptedKeyset) (v : a9ValidatedCandidate) : AcceptedRow := {|
  arHash := cdObjectHash v; arJcs := akCanonicalSignedObject candidate; arRootKeyID := cdRootKeyID v;
  arIssuedAt := pg_timestamp (akIssuedAt candidate); arExpiresAt := pg_timestamp (akExpiresAt candidate) |}.

Lemma validated_text candidate v : validateA9AcceptedKeyset candidate = Some v ->
  accepted_text (akSequence candidate) (candidate_row candidate v).
Proof. move=> /validated_candidate [_ [P [S [Hx D]]]]. exists (cdObject v). by rw /= P Hx. Qed.

(** The tables once the row of the environment is written. *)
Lemma append_heads candidate v current now s u s' :
  appendA9KeysetTx candidate v current now s = Ok (u, s') ->
  let id := cdEnvironmentID v in let row := current_row candidate v now in
  kdAccepted (kxDb s) !! (id, akSequence candidate) = None /\
  kdAccepted (kxDb s') = <[(id, akSequence candidate) := candidate_row candidate v]> (kdAccepted (kxDb s)) /\
  kdState (kxDb s') = <[id := row]> (kdState (kxDb s)) /\ state_row_ok row = true /\
  match current with
  | None => kdState (kxDb s) !! id = None
  | Some current => exists old, kdState (kxDb s) !! id = Some old /\ is_current_row current old = true
  end.
Proof.
  rw /appendA9KeysetTx => /kbind_ok [u1 [s1 [E1 /kbind_ok [u2 [s2 [E2 /kbind_ok [u3 [s3 [E3 E]]]]]]]]].
  apply statement_ok, insert_accepted_ok in E1 as [N D1].
  apply (each_key_heads (insert_online (cdEnvironmentID v) (akSequence candidate))) in E2 as [S2 A2];
    [|by apply insert_online_heads].
  apply (each_key_heads (insert_commitment (cdEnvironmentID v) (akSequence candidate))) in E3 as [S3 A3];
    [|by apply insert_commitment_heads].
  have S : kdState (kxDb s3) = kdState (kxDb s) by rw S3 S2 D1.
  have A : kdAccepted (kxDb s3) = <[(cdEnvironmentID v, akSequence candidate) := candidate_row candidate v]> (kdAccepted (kxDb s))
    by rw A3 A2 D1.
  rw /=. split; [done|]. rw -A -S. clear - E. destruct current as [current|].
  - move: E => /kbind_ok [rows [s4 [E O]]]. apply one_row_ok in O as [-> ->]. apply statement_ok in E.
    apply update_state_ok in E as (old & L & P & W). apply put_state_ok in W as (W & _ & ->).
    split; [done|]. split; [done|]. split; [done|]. by exists old.
  - apply statement_ok in E. apply insert_state_ok in E as (L & W). by apply put_state_ok in W as (W & _ & ->).
Qed.

Lemma append_ok candidate v current now s u s' : validateA9AcceptedKeyset candidate = Some v ->
  appendA9KeysetTx candidate v current now s = Ok (u, s') ->
  (forall st old, current = Some st -> kdState (kxDb s) !! cdEnvironmentID v = Some old ->
     is_current_row st old = true -> ksSequence old < akSequence candidate /\
     exists previous, kdAccepted (kxDb s) !! (cdEnvironmentID v, ksSequence old) = Some previous /\
       rotates previous (candidate_row candidate v)) ->
  keyset_move (kxDb s) (kxDb s') /\
  keyset_recorded (cdEnvironmentID v) (akSequence candidate) (cdObjectHash v) (kxDb s').
Proof.
  move=> V /append_heads [/= N [A [S [R C]]]] P. split.
  - apply (appended _ _ (cdEnvironmentID v) (current_row candidate v now) (candidate_row candidate v)); try done;
      [by apply validated_text|].
    move=> old L. destruct current as [current|]; [|by rw C in L].
    move: C => [old' [L' I]]. rw L in L'. injection L' as <-. move: (P current old eq_refl L I) => [? ?].
    split; [|done]. move: I => /andb_prop [_ /Z.eqb_eq]. done.
  - exists (current_row candidate v now), (candidate_row candidate v). by rw A S !lookup_insert_eq.
Qed.

Lemma scan_ok environment row t st text : scanA9KeysetState environment (row, t) = Some (st, text) ->
  kvSequence st = ksSequence row /\ kvUncertain st = (ksState row =? 2) /\ (text = [] \/ t = Some text).
Proof.
  rw /scanA9KeysetState => /bail_some [_ E]. destruct (ksSequence row =? 0) eqn:Z0.
  - move: E => /bail_some [_ E]. injection E as <- <-. rw /=. split; [lia|]. by split; [|left].
  - move: E => /bind_Some [x [_ /bail_some [_ E]]]. injection E as <- <-. rw /=.
    split; [done|]. split; [done|]. destruct t as [t|]; by [right|left].
Qed.

Lemma read_state_ok environment id s found s' : readA9KeysetStateForUpdate environment id s = Ok (found, s') ->
  kxDb s' = kxDb s /\
  match found with
  | None => kdState (kxDb s) !! id = None
  | Some (st, text) => exists row, kdState (kxDb s) !! id = Some row /\ kvSequence st = ksSequence row /\
      kvUncertain st = (ksState row =? 2) /\
      (text = [] \/ exists acc, kdAccepted (kxDb s) !! (id, ksSequence row) = Some acc /\ text = arJcs acc)
  end.
Proof.
  rw /readA9KeysetStateForUpdate => /kbind_ok [joined [s1 [E R]]]. apply kquery_ok in E as [D ->].
  destruct (joined_state id (kxDb s)) as [[row t]|] eqn:J; last first.
  { injection R as <- <-. split; [done|]. move: J. rw /joined_state. by destruct (kdState _ !! id). }
  destruct (scanA9KeysetState _ _) as [[st text]|] eqn:C; [|done]. injection R as <- <-. split; [done|].
  move: J => /bind_Some [row' [L J]]. injection J as -> J. exists row. apply scan_ok in C as (Q & U & T).
  split; [done|]. split; [done|]. split; [done|]. destruct T as [T|T]; [by left|right].
  rw T in J. apply bind_Some in J as (acc & A & J). exists acc. split; [done|].
  destruct (bool_decide _); [by injection J|done].
Qed.

(** What a committed [acceptKeysetOnce] leaves for its answer. *)
Definition answered (candidate : AcceptedKeyset) (v : a9ValidatedCandidate) (answer : KeysetState * bool)
    (db : KeysetDB) : Prop :=
  if answer.2 then environment_uncertain (cdEnvironmentID v) db
  else kvSequence answer.1 = akSequence candidate /\ kvUncertain answer.1 = false /\
    keyset_recorded (cdEnvironmentID v) (akSequence candidate) (cdObjectHash v) db.

Lemma reject_with_ok current id reason now s answer s' candidate v : cdEnvironmentID v = id ->
  reject_with current id reason now s = Ok (answer, s') ->
  keyset_move (kxDb s) (kxDb s') /\ answered candidate v answer (kxDb s').
Proof.
  move=> <- /kbind_ok [st [s1 [E R]]]. injection R as <- <-. by apply latch_state_ok in E as (_ & M & U).
Qed.

Lemma accept_after_ok candidate v current text now s answer s' row :
  validateA9AcceptedKeyset candidate = Some v ->
  kdState (kxDb s) !! cdEnvironmentID v = Some row -> kvSequence current = ksSequence row ->
  kvUncertain current = (ksState row =? 2) ->
  text = [] \/ (exists acc, kdAccepted (kxDb s) !! (cdEnvironmentID v, ksSequence row) = Some acc /\ text = arJcs acc) ->
  accept_after candidate v current text now s = Ok (answer, s') ->
  keyset_move (kxDb s) (kxDb s') /\ answered candidate v answer (kxDb s').
Proof.
  move=> V L Q U T. rw /accept_after. destruct (kvUncertain current) eqn:U'.
  { intros E. injection E as <- <-. split; [by apply kept|]. exists row. split; [done|]. move: U. lia. }
  destruct (_ || _) eqn:B; [by apply reject_with_ok|].
  destruct (akSequence candidate =? kvSequence current) eqn:S.
  { destruct (negb (_ =? _)) eqn:X; [by apply reject_with_ok|].
    move=> /kbind_ok [u [s1 [E R]]]. injection R as <- <-. apply refresh_state_ok in E as [M R]. split; [done|].
    split; [rw /=; lia|]. split; [done|]. apply orb_false_iff in B as [_ B].
    move: B => /= /negb_false_iff /beq_true Hh. move: R. apply Z.eqb_eq in S.
    rw -Hh -S /decodeA9BareHash. by move: (validated_candidate _ _ V) => [_ [_ [_ [_ ->]]]]. }
  have B' : kvSequence current <= akSequence candidate by apply orb_false_iff in B as [B _]; lia.
  clear B. destruct (negb _) eqn:R; [by apply reject_with_ok|].
  move=> /kbind_ok [u [s1 [E W]]]. injection W as <- <-.
  apply append_ok in E as [M K]; [by split|done|]. move=> st old [= <-] L' _. rw L in L'. injection L' as <-.
  split; [lia|]. apply negb_false_iff in R.
  destruct (parseA9CanonicalObject text) as [o|] eqn:P; [|done]. destruct T as [->|[acc [A ->]]]; [done|].
  exists acc. split; [done|]. exists o, (cdObject v). by move: (validated_candidate _ _ V) => [_ [? _]].
Qed.

Lemma accept_once_ok candidate v now s answer s' : validateA9AcceptedKeyset candidate = Some v ->
  acceptKeysetOnce candidate v now s = Ok (answer, s') ->
  keyset_move (kxDb s) (kxDb s') /\ answered candidate v answer (kxDb s').
Proof.
  move=> V /kbind_ok [u [s1 [E1 /kbind_ok [found [s2 [E2 E]]]]]]. apply kquery_ok in E1 as [D1 _].
  apply read_state_ok in E2 as [D2 F]. rw D1 in D2 F. rw -D2 in F *. destruct found as [[current text]|].
  - move: F => [row [L [Q [U T]]]]. exact (accept_after_ok _ _ _ _ _ _ _ _ row V L Q U T E).
  - move: E => /kbind_ok [u' [s3 [E R]]]. injection R as <- <-.
    by apply append_ok in E as [M K].
Qed.

Lemma latch_once_ok environment id reason now s u s' :
  latchKeysetUncertaintyOnce environment id reason now s = Ok (u, s') ->
  keyset_move (kxDb s) (kxDb s') /\ environment_uncertain id (kxDb s').
Proof.
  move=> /kbind_ok [u1 [s1 [E1 /kbind_ok [found [s2 [E2 E]]]]]]. apply kquery_ok in E1 as [D1 _].
  apply read_state_ok in E2 as [D2 F]. rw D1 in D2 F. rw -D2 in F *. destruct found as [[current text]|].
  - move: F => [row [L [Q [U T]]]]. destruct (kvUncertain current).
    + injection E as _ <-. split; [by apply kept|]. exists row. split; [done|]. move: U. lia.
    + move: E => /kbind_ok [st [s3 [E R]]]. injection R as _ <-. by apply latch_state_ok in E as (_ & M & X).
  - apply statement_ok, insert_state_ok in E as (L & W). apply put_state_ok in W as (W & _ & ->). split.
    + eapply latched_first; [exact L| |exact W| |reflexivity|reflexivity]; done.
    + rw /environment_uncertain /= lookup_insert_eq. by eexists.
Qed.

End Transactions.

(** ** Replicas *)

Section Replicas.
Context `{Postgres}.

(** One transaction of a replica, whatever fails around it. *)
Inductive replica_tx (db : KeysetDB) : KeysetDB -> Prop :=
| accept_tx candidate v att : validateA9AcceptedKeyset candidate = Some v ->
    replica_tx db (run_ktx (acceptKeysetOnce candidate v (ktNow att)) att db).1
| latch_tx environment id reason att : a9EnvironmentID environment = Some id ->
    replica_tx db (run_ktx (latchKeysetUncertaintyOnce environment id reason (ktNow att)) att db).1.

(** The others' transactions between two of ours are those of the same store. *)
Definition by_replicas (rounds : nat -> (KeysetDB -> KeysetDB) * KeysetAttempt) : Prop :=
  forall i db, rtc replica_tx db ((rounds i).1 db).

Lemma run_ktx_move {A : Type} (body : ktx A) att db :
  (forall s r, body s = Ok r -> keyset_move (kxDb s) (kxDb r.2)) -> keyset_move db (run_ktx body att db).1.
Proof.
  move=> B. rw /run_ktx. destruct (ktBegin att); [by apply kept|].
  destruct (body _) as [[a s]|] eqn:E; [|by apply kept]. apply B in E. destruct (ktCommit att) as [[e []]|];
    [exact E|by apply kept|exact E].
Qed.

Lemma run_ktx_ok {A : Type} (body : ktx A) att db db' a : run_ktx body att db = (db', Ok a) ->
  exists s s', kxDb s = db /\ kxDb s' = db' /\ body s = Ok (a, s').
Proof.
  rw /run_ktx. destruct (ktBegin att); [done|].
  destruct (body _) as [[b s]|] eqn:E; [|done]. destruct (ktCommit att) as [[e []]|]; [done..|].
  intros X. injection X as <- <-. eexists _, s. by split; [|split; [|exact E]].
Qed.

Lemma replica_move db db' : replica_tx db db' -> keyset_move db db'.
Proof.
  intros [candidate v att V|environment id reason att _]; apply run_ktx_move => s [a s'] E.
  - by apply accept_once_ok in E as [M _].
  - by apply latch_once_ok in E as [M _].
Qed.

Lemma replicas_chain db db' : rtc replica_tx db db' -> keyset_chain db -> keyset_chain db'.
Proof. induction 1 as [|a b c T _ IH]; [done|]. move=> C. apply IH. by apply (move_chain a), C; apply replica_move. Qed.

Lemma replicas_append db db' k a : rtc replica_tx db db' -> kdAccepted db !! k = Some a -> kdAccepted db' !! k = Some a.
Proof. induction 1 as [|x b c T _ IH]; [done|]. move=> E. apply IH. by apply (move_appends x); [apply replica_move|]. Qed.

Lemma replicas_uncertain db db' id row : rtc replica_tx db db' -> kdState db !! id = Some row -> ksState row = 2 ->
  kdState db' !! id = Some row.
Proof.
  induction 1 as [|x b c T _ IH]; [done|]. move=> E U. apply IH; [|done].
  by apply (move_uncertain x); [apply replica_move|..].
Qed.

Lemma replicas_sequence db db' id row : rtc replica_tx db db' -> kdState db !! id = Some row ->
  exists row', kdState db' !! id = Some row' /\ ksSequence row <= ksSequence row'.
Proof.
  move=> R. elim: R row => [x row E|x b c T _ IH row E]; [by exists row|].
  move: (move_sequence _ _ _ _ (replica_move _ _ T) E) => [r [E' L]]. move: (IH _ E') => [r' [E'' L']].
  exists r'. split; [done|lia].
Qed.

(** ** Calls *)

Variable rounds : nat -> (KeysetDB -> KeysetDB) * KeysetAttempt.
Hypothesis replicas : by_replicas rounds.

Lemma attempts_reach {A : Type} n (once : Z -> ktx A) st :
  (forall att db, replica_tx db (run_ktx (once (ktNow att)) att db).1) ->
  rtc replica_tx st.2 (keyset_attempts rounds n once st).1.2.
Proof.
  move=> T. elim: n st => [|n IH] [i db] //=. move: (replicas i db). destruct (rounds i) as [others att] => /= R.
  move: (T att (others db)). destruct (run_ktx _ att (others db)) as [db' [a|e]] => /= T'.
  - exact (rtc_r _ _ _ R T').
  - have R' := rtc_r _ _ _ R T'.
    destruct (isA9SerializationFailure e); [|done]. by transitivity db'; [|apply (IH (S i, db'))].
Qed.

Lemma attempts_ok {A : Type} n (once : Z -> ktx A) st st' a :
  keyset_attempts rounds n once st = (st', Ok a) ->
  exists now s s', kxDb s' = st'.2 /\ once now s = Ok (a, s').
Proof.
  elim: n st => [|n IH] [i db] //=. destruct (rounds i) as [others att].
  destruct (run_ktx _ att (others db)) as [db' [b|e]] eqn:E.
  - intros X. injection X as <- <-. apply run_ktx_ok in E as (s & s' & _ & D & E). by exists (ktNow att), s, s'.
  - destruct (isA9SerializationFailure e); [|done]. by apply IH.
Qed.

(** The loop never answers with a rejection of its own. *)
Lemma attempts_rejected {A : Type} n (once : Z -> ktx A) st st' :
  keyset_attempts rounds n once st <> (st', Err ErrKeysetRejected).
Proof.
  elim: n st => [|n IH] [i db] //=. destruct (rounds i) as [others att].
  destruct (run_ktx _ att (others db)) as [db' [b|e]]; [done|]. by destruct (isA9SerializationFailure e).
Qed.

Lemma latch_reach environment reason cancelled st :
  rtc replica_tx st.2 (LatchKeysetUncertainty rounds environment reason cancelled st).1.2.
Proof.
  rw /LatchKeysetUncertainty. destruct (a9EnvironmentID environment) as [id|] eqn:E; [|done].
  destruct cancelled; [done|]. apply attempts_reach => att db. by apply latch_tx.
Qed.

Lemma accept_reach candidate cancelled st : rtc replica_tx st.2 (AcceptKeyset rounds candidate cancelled st).1.2.
Proof.
  rw /AcceptKeyset. destruct (validateA9AcceptedKeyset candidate) as [v|] eqn:V.
  - destruct cancelled; [done|]. set (T := fun att db => accept_tx db candidate v att V).
    move: (attempts_reach a9SerializableAttempts (acceptKeysetOnce candidate v) st T).
    by destruct (keyset_attempts _ _ _ st) as [st' [[state []]|e]].
  - destruct (a9EnvironmentID _); [|done]. move: (latch_reach (akEnvironment candidate) (str "KEY_STATE") cancelled st).
    by destruct (LatchKeysetUncertainty _ _ _ _ st) as [st' []].
Qed.

Lemma latch_call environment reason cancelled st st' u id : a9EnvironmentID environment = Some id ->
  LatchKeysetUncertainty rounds environment reason cancelled st = (st', Ok u) -> environment_uncertain id st'.2.
Proof.
  rw /LatchKeysetUncertainty => ->. destruct cancelled; [done|].
  intros E. apply attempts_ok in E as (now & s & s' & <- & E).
  by apply latch_once_ok in E as [_ U].
Qed.

(** The answer of a call, and the tables it leaves. *)
Lemma accept_call candidate cancelled st st' answer id : a9EnvironmentID (akEnvironment candidate) = Some id ->
  AcceptKeyset rounds candidate cancelled st = (st', answer) ->
  match answer with
  | Ok state => kvSequence state = akSequence candidate /\ kvUncertain state = false /\
      exists hash, decodeA9LowerHex (akObjectHash candidate) [] = Some hash /\
        keyset_recorded id (akSequence candidate) hash st'.2
  | Err ErrKeysetRejected => environment_uncertain id st'.2
  | Err _ => True
  end.
Proof.
  move=> I. rw /AcceptKeyset. destruct (validateA9AcceptedKeyset candidate) as [v|] eqn:V.
  - destruct cancelled; [by intros [= <- <-]|].
    destruct (keyset_attempts _ _ _ st) as [st1 [[state r]|e]] eqn:E; last first.
    { intros X. injection X as <- <-. destruct e; try done. by apply attempts_rejected in E. }
    apply attempts_ok in E as (now & s & s' & D & E). move: (validated_candidate _ _ V) => [I' [_ [_ [_ Hh]]]].
    rw I in I'. injection I' as ->. apply accept_once_ok in E as [_ A]; [|done]. rw D in A.
    intros X. injection X as <- <-. destruct r; [done|]. move: A => [Q [U K]]. split; [done|]. split; [done|].
    by exists (cdObjectHash v).
  - rw I. destruct (LatchKeysetUncertainty _ _ _ _ st) as [st1 [u|e]] eqn:E; intros X; injection X as <- <-; [|done].
    by apply (latch_call _ _ _ _ _ _ _ I E).
Qed.

End Replicas.

(** ** The theorems *)

Inductive keyset_call :=
| Accept (candidate : AcceptedKeyset) (cancelled : bool)
| Latch (environment reason : bytes) (cancelled : bool).

Section Theorems.
Context `{Postgres}.

Definition after_call (rounds : nat -> (KeysetDB -> KeysetDB) * KeysetAttempt) (call : keyset_call)
    (st : nat * KeysetDB) : nat * KeysetDB :=
  match call with
  | Accept candidate cancelled => (AcceptKeyset rounds candidate cancelled st).1
  | Latch environment reason cancelled => (LatchKeysetUncertainty rounds environment reason cancelled st).1
  end.

Fixpoint after_calls rounds (calls : list keyset_call) (st : nat * KeysetDB) : nat * KeysetDB :=
  match calls with [] => st | call :: calls => after_calls rounds calls (after_call rounds call st) end.

Lemma calls_reach rounds calls st : by_replicas rounds -> rtc replica_tx st.2 (after_calls rounds calls st).2.
Proof.
  move=> R. elim: calls st => [|call calls IH] st //=. transitivity (after_call rounds call st).2; [|by apply IH].
  destruct call; [by apply accept_reach|by apply latch_reach].
Qed.

(** C9: whatever replicas accept and latch, and whatever fails, the accepted keysets of an
    environment stay a chain: each is kept under its own sequence with its hash, none is removed
    or rewritten, none is above the row of the environment, the row refers to one of them, and
    each follows the one before it by an eligible rotation of the online keys. *)
Theorem accepted_keysets_form_a_chain rounds calls st :
  by_replicas rounds -> keyset_chain st.2 ->
  let db := (after_calls rounds calls st).2 in
  keyset_chain db /\
  (forall k a, kdAccepted st.2 !! k = Some a -> kdAccepted db !! k = Some a) /\
  (forall id row, kdState st.2 !! id = Some row ->
     exists row', kdState db !! id = Some row' /\ ksSequence row <= ksSequence row').
Proof.
  move=> R C db. have P : rtc replica_tx st.2 db by apply calls_reach.
  split; [by apply (replicas_chain _ _ P)|]. split.
  - move=> k a. by apply replicas_append.
  - move=> id row. by apply replicas_sequence.
Qed.

(** C8: a rejected keyset leaves its environment uncertain in the tables, the row is never
    written again by any replica, and no later keyset of the environment is accepted. *)
Theorem rejected_keyset_is_latched rounds candidate cancelled st st' id :
  a9EnvironmentID (akEnvironment candidate) = Some id ->
  AcceptKeyset rounds candidate cancelled st = (st', Err ErrKeysetRejected) ->
  exists row, kdState st'.2 !! id = Some row /\ ksState row = 2 /\
    forall db, rtc replica_tx st'.2 db -> kdState db !! id = Some row /\
      forall rounds' later cancelled' i, by_replicas rounds' -> akEnvironment later = akEnvironment candidate ->
        is_ok (AcceptKeyset rounds' later cancelled' (i, db)).2 = false.
Proof.
  move=> I E. move: (accept_call _ _ _ _ _ _ _ I E) => [row [L U]]. exists row. split; [done|]. split; [done|].
  move=> db R. have K := replicas_uncertain _ _ _ _ R L U. split; [done|].
  move=> rounds' later cancelled' i Q X. clear E; destruct (AcceptKeyset _ _ _ _) as [st2 [state|e]] eqn:A; [exfalso|done].
  rw -X in I. move: (accept_reach rounds' Q later cancelled' (i, db)). rw A /= => R'.
  have K' := replicas_uncertain _ _ _ _ R' K U.
  move: (accept_call _ _ _ _ _ _ _ I A) => /= [_ [_ [hash [_ [row' [acc [L' [S _]]]]]]]].
  rw K' in L'. injection L' as <-. lia.
Qed.

(** C10: an accepted keyset is on record when the call answers: the row of its environment is
    current with its sequence and hash, the text kept under it is a canonical object with that
    hash and that sequence, and no accepted keyset of the environment is above it. *)
Theorem accepted_keyset_is_recorded rounds candidate cancelled st st' state id :
  by_replicas rounds -> keyset_chain st.2 -> a9EnvironmentID (akEnvironment candidate) = Some id ->
  AcceptKeyset rounds candidate cancelled st = (st', Ok state) ->
  kvSequence state = akSequence candidate /\ kvUncertain state = false /\
  (exists row acc, kdState st'.2 !! id = Some row /\ ksState row = 1 /\ ksSequence row = akSequence candidate /\
     kdAccepted st'.2 !! (id, akSequence candidate) = Some acc /\ ksHash row = Some (arHash acc) /\
     decodeA9LowerHex (akObjectHash candidate) [] = Some (arHash acc) /\ accepted_text (akSequence candidate) acc) /\
  forall s a, kdAccepted st'.2 !! (id, s) = Some a -> s <= akSequence candidate.
Proof.
  move=> R C I E. have C' : keyset_chain st'.2.
  { move: (accept_reach rounds R candidate cancelled st). rw E /= => P. by apply (replicas_chain _ _ P). }
  move: (accept_call _ _ _ _ _ _ _ I E) => /= [Q [U [hash [D [row [acc [L [S [Q' [Hh [A Ha]]]]]]]]]]].
  split; [done|]. split; [done|]. split.
  - exists row, acc. rw Ha. move: (kc_bound _ C' _ _ _ A) => [T _]. by split_and!.
  - move=> s a F. move: (kc_bound _ C' _ _ _ F) => [_ [row' [L' B]]]. rw L in L'. injection L' as <-. lia.
Qed.

End Theorems.
