(* ===== verification/KeysetSample.v ===== *)
(** * The keyset store on the sample keysets

    A transition keyset is accepted on empty tables, then its cutover; a keyset with the
    sequence of the transition and another hash makes the environment uncertain. *)

From S2P Require Import Prelude GoBytes GoTime GoCrypto JsonText Jcs A9Schema A9Types A9Trust A9Keyset A9Verify A9Sample Sql A9VaultDb ServiceAuth ReplayReceipts KeysetStore KeysetProps A9VaultProps.
Local Open Scope Z_scope.
Local Open Scope go_scope.

Import VaultSample.

Definition instant (o : object) (name : string) : Z := default 0 (parse_wire (a9ObjectString o name)).

(** What the trust manager hands over for a verified keyset. *)
Definition handed_over (o : object) : AcceptedKeyset :=
  let text := A9Sample.wire_text o in {|
    akEnvironment := str "dev"; akSequence := a9ObjectUint o "keyset_sequence"; akObjectHash := SHA256LowerHex text;
    akCanonicalSignedObject := text; akIssuedAt := instant o "issued_at"; akExpiresAt := instant o "expires_at";
    akRootKeyID := a9ObjectString o "root_signing_key_id"; akOnlineKeys := default [] (parseOnlineKeys (field o "keys"));
    akCommitmentKeys := default [] (parseCommitmentKeys (field o "commitment_keys")) |}.

(** Nobody else, no failure. *)
Definition rounds : nat -> (KeysetDB -> KeysetDB) * KeysetAttempt := fun _ =>
  (id, {| ktNow := A9Sample.now; ktBegin := None; ktStatements := []; ktCommit := None |}).

Lemma rounds_by_replicas : by_replicas rounds.
Proof. intros i db. by apply rtc_refl. Qed.

Abbreviation accepts o st := (AcceptKeyset rounds (handed_over o) false st).

Definition dev : Z := default 0 (a9EnvironmentID (str "dev")).

Definition start : nat * KeysetDB := (O, empty_keysets).
Abbreviation first_run := (accepts A9Sample.transition start).
Abbreviation second_run := (accepts A9Sample.cutover first_run.1).
Abbreviation conflict_run := (accepts A9Sample.keyset first_run.1).

Definition answer_of (r : result keyset_error KeysetState) : option (option Z) :=
  match r with Ok state => Some (Some (kvSequence state)) | Err ErrKeysetRejected => Some None | Err _ => None end.

Lemma first_accepted : answer_of first_run.2 = Some (Some 1).
Proof. vm_compute. reflexivity. Qed.
Lemma second_accepted : answer_of second_run.2 = Some (Some 2).
Proof. vm_compute. reflexivity. Qed.
Lemma conflict_rejected : answer_of conflict_run.2 = Some None.
Proof. vm_compute. reflexivity. Qed.

Lemma answer_accepted r n : answer_of r = Some (Some n) -> exists state, r = Ok state /\ kvSequence state = n.
Proof. destruct r as [state|[]]; [intros [= <-]; by exists state|done..]. Qed.

Lemma answer_rejected r : answer_of r = Some None -> r = Err ErrKeysetRejected.
Proof. by destruct r as [state|[]]. Qed.

Lemma accepts_chain o st : keyset_chain st.2 -> keyset_chain (accepts o st).1.2.
Proof. apply replicas_chain, (accept_reach rounds rounds_by_replicas). Qed.

Lemma dev_environment o : a9EnvironmentID (akEnvironment (handed_over o)) = Some dev.
Proof. reflexivity. Qed.

Lemma paired {A B : Type} (p : A * B) b : p.2 = b -> p = (p.1, b).
Proof. destruct p. by intros <-. Qed.

Lemma recorded o st state : (accepts o st).2 = Ok state ->
  exists a, kdAccepted (accepts o st).1.2 !! (dev, kvSequence state) = Some a.
Proof.
  intros E. destruct (accept_call _ _ _ _ _ _ _ (dev_environment o) (paired _ _ E)) as (Q & _ & hash & _ & row & acc & P).
  exists acc. rewrite Q. apply P.
Qed.

Lemma kept_accepted o st k a : kdAccepted st.2 !! k = Some a -> kdAccepted (accepts o st).1.2 !! k = Some a.
Proof. apply replicas_append, (accept_reach rounds rounds_by_replicas). Qed.

Lemma two_calls o o' st :
  after_calls rounds [Accept (handed_over o) false; Accept (handed_over o') false] st = (accepts o' (accepts o st).1).1.
Proof. reflexivity. Qed.

Lemma same_environment o o' : akEnvironment (handed_over o) = akEnvironment (handed_over o').
Proof. reflexivity. Qed.

(** Both keysets are on record at the end. *)
Lemma accepted_keysets_form_a_chain_witness :
  keyset_chain second_run.1.2 /\
  exists a1 a2, kdAccepted second_run.1.2 !! (dev, 1) = Some a1 /\ kdAccepted second_run.1.2 !! (dev, 2) = Some a2.
Proof.
  pose proof (accepted_keysets_form_a_chain rounds [Accept (handed_over A9Sample.transition) false;
    Accept (handed_over A9Sample.cutover) false] start rounds_by_replicas empty_chain) as C.
  cbv zeta in C. rewrite two_calls in C. split; [exact (proj1 C)|]. clear C.
  destruct (answer_accepted _ _ first_accepted) as (s1 & E1 & Q1).
  destruct (answer_accepted _ _ second_accepted) as (s2 & E2 & Q2).
  destruct (recorded _ _ _ E1) as [a1 A1]. destruct (recorded _ _ _ E2) as [a2 A2]. rewrite Q1 in A1. rewrite Q2 in A2.
  exists a1, a2. split; [exact (kept_accepted _ _ _ _ A1)|exact A2].
Defined.

Lemma accepted_keyset_is_recorded_witness :
  exists row acc, kdState second_run.1.2 !! dev = Some row /\ ksState row = 1 /\
    kdAccepted second_run.1.2 !! (dev, ksSequence row) = Some acc /\ accepted_text (ksSequence row) acc.
Proof.
  destruct (answer_accepted _ _ second_accepted) as (state & E & Q).
  destruct (accepted_keyset_is_recorded rounds (handed_over A9Sample.cutover) false first_run.1 second_run.1 state dev
    rounds_by_replicas (accepts_chain _ start empty_chain) (dev_environment _) (paired _ _ E))
    as (_ & _ & (row & acc & L & S & N & A & _ & _ & T) & _).
  rewrite <- N in A, T. exact (ex_intro _ row (ex_intro _ acc (conj L (conj S (conj A T))))).
Defined.

Lemma rejected_keyset_is_latched_witness :
  exists row, kdState conflict_run.1.2 !! dev = Some row /\ ksState row = 2 /\
    is_ok (AcceptKeyset rounds (handed_over A9Sample.cutover) false (7%nat, conflict_run.1.2)).2 = false.
Proof.
  pose proof (answer_rejected conflict_run.2 conflict_rejected) as E.
  destruct (rejected_keyset_is_latched rounds (handed_over A9Sample.keyset) false first_run.1 conflict_run.1 dev
    (dev_environment A9Sample.keyset) (paired conflict_run _ E)) as (row & L & U & K).
  exists row. split; [exact L|]. split; [exact U|]. destruct (K _ (rtc_refl _ _)) as [_ N].
  exact (N rounds (handed_over A9Sample.cutover) false 7%nat rounds_by_replicas (same_environment _ _)).
Defined.
