(* ===== verification/NotificationQueue.v ===== *)
(** * The durable notification queue

    src/pkg/notificationqueue/queue.go over the statements of
    src/pkg/db/sqlc/notification_queue.sql and the tables of migration 00015: envelopes are
    admitted once, claimed under leases, their recipients claimed one by one under leases of
    their own. Then src/pkg/xmtp: the dispatch of one recipient (common.go) and the outcome of
    a processed envelope (durable_worker.go).

    Each statement is one atomic step with a clock of its own, and so is the admission, which
    holds an advisory lock: nothing else raises what it has counted. *)

From S2P Require Import Prelude GoBytes GoTime.
Local Open Scope Z_scope.
Local Open Scope go_scope.

(** ** Tables *)

Definition pending : bytes := str "pending".

(** Leases end at an instant or at [-infinity]. *)
Definition lapsed (until : option Z) (now : Z) : bool := match until with Some u => u <? now | None => true end.
Definition alive (until : option Z) (now : Z) : bool := match until with Some u => now <? u | None => false end.

Record EnvelopeRow := {
  evListener : bytes; evKey : bytes; evPayload : bytes; evStatus : bytes; evCreated : Z; evNextAttempt : Z;
  evAttempts : Z; evLease : bytes; evLeaseUntil : option Z; evFailure : bytes; evPrepared : bool;
}.

Record RecipientRow := { rrStatus : bytes; rrLease : bytes; rrLeaseUntil : option Z; rrFailure : bytes }.

Record NotifyDB := {
  nqEnvelopes : gmap Z EnvelopeRow; nqReceipts : gmap (Z * bytes) RecipientRow;
  nqNext : Z; (** the sequence of the ids *)
}.

Definition with_envelopes (m : gmap Z EnvelopeRow) (db : NotifyDB) : NotifyDB :=
  {| nqEnvelopes := m; nqReceipts := nqReceipts db; nqNext := nqNext db |}.
Definition with_receipts (m : gmap (Z * bytes) RecipientRow) (db : NotifyDB) : NotifyDB :=
  {| nqEnvelopes := nqEnvelopes db; nqReceipts := m; nqNext := nqNext db |}.

(** ** Errors and failures *)

Inductive notify_error :=
| ErrInvalidNotificationEnvelope | ErrNotificationEnvelopeTooLarge | ErrNotificationRecipientLimit
| ErrLeaseLost | ErrRecipientBusy
| AtCapacity | InvalidOutcome | InvalidFailureClass | InvalidReceiptStatus | MissingInstallation
| DatabaseError.

(** What surrounds one statement: the clock, and an error after or without its effect. *)
Record Statement := { smNow : Z; smFault : option bool }.

Definition perform_statement {A : Type} (sm : Statement) (f : NotifyDB -> NotifyDB * A) (db : NotifyDB)
  : NotifyDB * result notify_error A :=
  let '(db', a) := f db in
  match smFault sm with
  | None => (db', Ok a)
  | Some applied => (if applied then db' else db, Err DatabaseError)
  end.

(** ** Statements *)

(** [UPDATE ... WHERE id = ...]: the number of rows. *)
Definition update_envelope (id : Z) (where_ : EnvelopeRow -> bool) (set_ : EnvelopeRow -> EnvelopeRow)
    (db : NotifyDB) : NotifyDB * Z :=
  match nqEnvelopes db !! id with
  | Some row => if where_ row then (with_envelopes (<[id := set_ row]> (nqEnvelopes db)) db, 1) else (db, 0)
  | None => (db, 0)
  end.

Definition envelope_exists (listener key : bytes) (db : NotifyDB) : bool :=
  existsb (fun kv => beq (evListener kv.2) listener && beq (evKey kv.2) key) (map_to_list (nqEnvelopes db)).

Definition insert_envelope (row : EnvelopeRow) (db : NotifyDB) : NotifyDB :=
  if envelope_exists (evListener row) (evKey row) db then db
  else {| nqEnvelopes := <[nqNext db := row]> (nqEnvelopes db); nqReceipts := nqReceipts db; nqNext := nqNext db + 1 |}.

Definition new_row (listener key payload status failureClass : bytes) (now : Z) : EnvelopeRow := {|
  evListener := listener; evKey := key; evPayload := payload; evStatus := status; evCreated := now;
  evNextAttempt := now; evAttempts := 0; evLease := []; evLeaseUntil := None; evFailure := failureClass;
  evPrepared := false |}.

Definition EnqueueNotificationEnvelope (listener key payload : bytes) (now : Z) : NotifyDB -> NotifyDB :=
  insert_envelope (new_row listener key payload pending [] now).
Definition RecordRejectedNotificationEnvelope (listener key failureClass : bytes) (now : Z) : NotifyDB -> NotifyDB :=
  insert_envelope (new_row listener key [] (str "dead") failureClass now).

(** The rows admission counts, and what each is charged. *)
Definition is_counted (row : EnvelopeRow) : bool := beq (evStatus row) pending || beq (evFailure row) (str "oversized").
Definition charged_count (row : EnvelopeRow) : Z := if is_counted row then 1 else 0.
Definition charged_bytes (row : EnvelopeRow) : Z :=
  if is_counted row
  then Z.of_nat (length (evPayload row)) + (if beq (evFailure row) (str "oversized") then 512 else 0) else 0.

Definition total (f : EnvelopeRow -> Z) (m : gmap Z EnvelopeRow) : Z := map_fold (fun _ row n => f row + n) 0 m.

Definition NotificationPendingCapacity (db : NotifyDB) : Z * Z :=
  (total charged_count (nqEnvelopes db), total charged_bytes (nqEnvelopes db)).

Definition claimable_envelope (listener : bytes) (now : Z) (row : EnvelopeRow) : bool :=
  beq (evListener row) listener && beq (evStatus row) pending && (evAttempts row <? 12) &&
  (now - 24 * hour <=? evCreated row) && (evNextAttempt row <=? now) && lapsed (evLeaseUntil row) now.

(** The order of the claim. *)
Definition sooner (a b : Z * EnvelopeRow) : bool :=
  (evNextAttempt a.2 <? evNextAttempt b.2) || ((evNextAttempt a.2 =? evNextAttempt b.2) && (a.1 <? b.1)).

Definition soonest (l : list (Z * EnvelopeRow)) : option (Z * EnvelopeRow) :=
  foldr (fun kv best => match best with Some b => if sooner kv b then Some kv else Some b | None => Some kv end) None l.

(** The rows others have locked are skipped. *)
Definition claim_candidate (listener : bytes) (now : Z) (locked : Z -> bool) (db : NotifyDB)
  : option (Z * EnvelopeRow) :=
  soonest (List.filter (fun kv => claimable_envelope listener now kv.2 && negb (locked kv.1)) (map_to_list (nqEnvelopes db))).

Definition claimed_envelope (lease : bytes) (now : Z) (row : EnvelopeRow) : EnvelopeRow := {|
  evListener := evListener row; evKey := evKey row; evPayload := evPayload row; evStatus := evStatus row;
  evCreated := evCreated row; evNextAttempt := evNextAttempt row; evAttempts := evAttempts row + 1; evLease := lease;
  evLeaseUntil := Some (now + 90 * second); evFailure := evFailure row; evPrepared := evPrepared row |}.

Definition ClaimNotificationEnvelope (listener lease : bytes) (locked : Z -> bool) (now : Z) (db : NotifyDB)
  : NotifyDB * option (Z * EnvelopeRow) :=
  match claim_candidate listener now locked db with
  | None => (db, None)
  | Some (id, row) =>
      let row' := claimed_envelope lease now row in
      (with_envelopes (<[id := row']> (nqEnvelopes db)) db, Some (id, row'))
  end.

(** [lease_id = ... AND status = 'pending' AND lease_until > clock_timestamp()] *)
Definition held (lease : bytes) (now : Z) (row : EnvelopeRow) : bool :=
  beq (evLease row) lease && beq (evStatus row) pending && alive (evLeaseUntil row) now.

Definition renewed_envelope (now : Z) (row : EnvelopeRow) : EnvelopeRow := {|
  evListener := evListener row; evKey := evKey row; evPayload := evPayload row; evStatus := evStatus row;
  evCreated := evCreated row; evNextAttempt := evNextAttempt row; evAttempts := evAttempts row; evLease := evLease row;
  evLeaseUntil := Some (now + 90 * second); evFailure := evFailure row; evPrepared := evPrepared row |}.

Definition RenewNotificationLease (id : Z) (lease : bytes) (now : Z) : NotifyDB -> NotifyDB * Z :=
  update_envelope id (held lease now) (renewed_envelope now).

Definition finished_envelope (status failureClass : bytes) (delaySeconds now : Z) (row : EnvelopeRow) : EnvelopeRow := {|
  evListener := evListener row; evKey := evKey row;
  evPayload := if beq status pending then evPayload row else []; evStatus := status;
  evCreated := evCreated row; evNextAttempt := now + delaySeconds * second; evAttempts := evAttempts row; evLease := [];
  evLeaseUntil := None; evFailure := failureClass; evPrepared := evPrepared row |}.

Definition FinishNotificationEnvelope (id : Z) (lease status failureClass : bytes) (delaySeconds now : Z)
  : NotifyDB -> NotifyDB * Z :=
  update_envelope id (held lease now) (finished_envelope status failureClass delaySeconds now).

Definition prepared_envelope (row : EnvelopeRow) : EnvelopeRow := {|
  evListener := evListener row; evKey := evKey row; evPayload := evPayload row; evStatus := evStatus row;
  evCreated := evCreated row; evNextAttempt := evNextAttempt row; evAttempts := evAttempts row; evLease := evLease row;
  evLeaseUntil := evLeaseUntil row; evFailure := evFailure row; evPrepared := true |}.

Definition new_receipt : RecipientRow := {| rrStatus := pending; rrLease := []; rrLeaseUntil := None; rrFailure := [] |}.

(** [ON CONFLICT DO NOTHING], which also takes care of repeated ids. *)
Definition add_receipt (id : Z) (m : gmap (Z * bytes) RecipientRow) (installation : bytes) : gmap (Z * bytes) RecipientRow :=
  match m !! (id, installation) with Some _ => m | None => <[(id, installation) := new_receipt]> m end.

Definition PrepareNotificationRecipients (id : Z) (lease : bytes) (installations : list bytes) (now : Z)
    (db : NotifyDB) : NotifyDB :=
  match update_envelope id (fun row => held lease now row && negb (evPrepared row)) prepared_envelope db with
  | (db, rows) => if rows =? 1 then with_receipts (foldl (add_receipt id) (nqReceipts db) installations) db else db
  end.

(** The receipt belongs to an envelope held under the lease. *)
Definition envelope_held (id : Z) (lease : bytes) (now : Z) (db : NotifyDB) : bool :=
  match nqEnvelopes db !! id with Some row => held lease now row | None => false end.

Definition ClaimNotificationRecipient (id : Z) (installation ticket lease : bytes) (now : Z) (db : NotifyDB)
  : NotifyDB * option bytes :=
  match nqReceipts db !! (id, installation) with
  | Some row =>
      if beq (rrStatus row) pending && lapsed (rrLeaseUntil row) now && envelope_held id lease now db
      then (with_receipts (<[(id, installation) := {| rrStatus := rrStatus row; rrLease := ticket;
                                                      rrLeaseUntil := Some (now + 30 * second); rrFailure := rrFailure row |}]>
              (nqReceipts db)) db, Some ticket)
      else (db, None)
  | None => (db, None)
  end.

Definition GetNotificationRecipientStatus (id : Z) (installation : bytes) (db : NotifyDB) : option bytes :=
  rrStatus <$> nqReceipts db !! (id, installation).

Definition FinishNotificationRecipient (id : Z) (installation ticket lease status failureClass : bytes) (now : Z)
    (db : NotifyDB) : NotifyDB * Z :=
  match nqReceipts db !! (id, installation) with
  | Some row =>
      if beq (rrLease row) ticket && beq (rrStatus row) pending && alive (rrLeaseUntil row) now && envelope_held id lease now db
      then (with_receipts (<[(id, installation) := {| rrStatus := status; rrLease := rrLease row; rrLeaseUntil := None;
                                                      rrFailure := failureClass |}]> (nqReceipts db)) db, 1)
      else (db, 0)
  | None => (db, 0)
  end.

Definition expired_envelope (row : EnvelopeRow) : EnvelopeRow := {|
  evListener := evListener row; evKey := evKey row; evPayload := []; evStatus := str "dead"; evCreated := evCreated row;
  evNextAttempt := evNextAttempt row; evAttempts := evAttempts row; evLease := []; evLeaseUntil := None;
  evFailure := str "expired"; evPrepared := evPrepared row |}.

Definition expires (now : Z) (row : EnvelopeRow) : bool :=
  beq (evStatus row) pending && lapsed (evLeaseUntil row) now &&
  ((evCreated row <? now - 24 * hour) || (12 <=? evAttempts row)).

Definition ExpireNotificationEnvelopes (now : Z) (db : NotifyDB) : NotifyDB :=
  with_envelopes ((fun row => if expires now row then expired_envelope row else row) <$> nqEnvelopes db) db.

Definition is_purged (now : Z) (row : EnvelopeRow) : bool :=
  negb (beq (evStatus row) pending) && (evCreated row <? now - 7 * 24 * hour).

(** The receipts go with their envelope. *)
Definition PurgeNotificationReceipts (now : Z) (db : NotifyDB) : NotifyDB := {|
  nqEnvelopes := filter (fun kv => is_purged now kv.2 = false) (nqEnvelopes db);
  nqReceipts := filter (fun kv => match nqEnvelopes db !! kv.1.1 with Some row => is_purged now row | None => false end = false)
                  (nqReceipts db);
  nqNext := nqNext db |}.

(** ** The store *)

Definition MaxAttempts : Z := 12.
Definition MaxEnvelopeBytes : Z := 2 * 1024 * 1024.
Definition MaxRecipients : Z := 10000.
Definition rejectedEnvelopeMetadataBytes : Z := 512.

Record NotificationEnvelope := {
  neID : Z; neListener : bytes; neMessageKey : bytes; nePayload : bytes; neAttempts : Z; neLeaseID : bytes;
  neRecipientsPrepared : bool;
}.

(** The transaction of [Enqueue]; an error rolls it back. *)
Definition admission_tx (listener key payload : bytes) (now : Z) (db : NotifyDB) : result notify_error NotifyDB :=
  let oversized := MaxEnvelopeBytes <? Z.of_nat (length payload) in
  if envelope_exists listener key db then Ok db else
  let '(count, size) := NotificationPendingCapacity db in
  let chargedBytes := if oversized then rejectedEnvelopeMetadataBytes else Z.of_nat (length payload) in
  reject (100000 <=? count) || (512 * 1024 * 1024 <? size + chargedBytes) with AtCapacity;;
  Ok (if oversized then RecordRejectedNotificationEnvelope listener key (str "oversized") now db
      else EnqueueNotificationEnvelope listener key payload now db).

Definition Enqueue (sm : Statement) (listener key payload : bytes) (db : NotifyDB) : NotifyDB * result notify_error () :=
  if (negb (beq listener (str "v3")) && negb (beq listener (str "v4"))) || beq key [] || (128 <? Z.of_nat (length key)) ||
     beq payload []
  then (db, Err ErrInvalidNotificationEnvelope) else
  match smFault sm, admission_tx listener key payload (smNow sm) db with
  | None, Ok db' =>
      (db', if MaxEnvelopeBytes <? Z.of_nat (length payload) then Err ErrNotificationEnvelopeTooLarge else Ok tt)
  | Some true, Ok db' => (db', Err DatabaseError)
  | Some false, Ok _ => (db, Err DatabaseError)
  | None, Err e => (db, Err e)
  | Some _, Err _ => (db, Err DatabaseError)
  end.

(** The lease is a fresh UUID. *)
Definition Claim (sm : Statement) (lease : bytes) (locked : Z -> bool) (listener : bytes) (db : NotifyDB)
  : NotifyDB * result notify_error (option NotificationEnvelope) :=
  match perform_statement sm (ClaimNotificationEnvelope listener lease locked (smNow sm)) db with
  | (db', Ok None) => (db', Ok None)
  | (db', Ok (Some (id, row))) =>
      (db', Ok (Some {| neID := id; neListener := evListener row; neMessageKey := evKey row; nePayload := evPayload row;
                        neAttempts := evAttempts row; neLeaseID := evLease row; neRecipientsPrepared := evPrepared row |}))
  | (db', Err e) => (db', Err e)
  end.

Definition checkLease (r : NotifyDB * result notify_error Z) : NotifyDB * result notify_error () :=
  match r with
  | (db, Ok rows) => (db, if rows =? 1 then Ok tt else Err ErrLeaseLost)
  | (db, Err e) => (db, Err e)
  end.

Definition Renew (sm : Statement) (env : NotificationEnvelope) (db : NotifyDB) : NotifyDB * result notify_error () :=
  checkLease (perform_statement sm (RenewNotificationLease (neID env) (neLeaseID env) (smNow sm)) db).

(** The attempt is clamped, so the shift does not overflow. *)
Definition retryDelay (attempt : Z) : Z :=
  let attempt := if attempt <? 1 then 1 else attempt in
  let attempt := if MaxAttempts <? attempt then MaxAttempts else attempt in
  let delay := Z.shiftl 5 (attempt - 1) in
  if 3600 <? delay then 3600 else delay.

Definition validFailureClass (value : bytes) : bool :=
  bool_decide (value ∈ [] :: (str <$> ["provider_transient"; "provider_permanent"; "token_cleanup"; "processing";
    "invalid_envelope"; "suppressed"; "no_provider"; "recipient_limit"; "processing_panic"]%string)).

Definition Finish (sm : Statement) (env : NotificationEnvelope) (outcome failureClass : bytes) (db : NotifyDB)
  : NotifyDB * result notify_error () :=
  if negb (beq outcome pending) && negb (beq outcome (str "complete")) && negb (beq outcome (str "dead"))
  then (db, Err InvalidOutcome) else
  let status := if beq outcome (str "complete") then str "complete"
                else if beq outcome (str "dead") || (MaxAttempts <=? neAttempts env) then str "dead" else pending in
  let failureClass := if beq outcome (str "complete") then [] else failureClass in
  if negb (validFailureClass failureClass) then (db, Err InvalidFailureClass) else
  checkLease (perform_statement sm (FinishNotificationEnvelope (neID env) (neLeaseID env) status failureClass
                            (retryDelay (neAttempts env)) (smNow sm)) db).

(** The snapshot of an earlier attempt stays. *)
Definition PrepareRecipients (sm : Statement) (env : NotificationEnvelope) (ids : list bytes) (db : NotifyDB)
  : NotifyDB * result notify_error () :=
  if neRecipientsPrepared env then (db, Ok tt) else
  if MaxRecipients <? Z.of_nat (length ids) then (db, Err ErrNotificationRecipientLimit) else
  perform_statement sm (fun db => (PrepareNotificationRecipients (neID env) (neLeaseID env) ids (smNow sm) db, tt)) db.

(** The ticket, or that the recipient needs no delivery. Others may run between the two
    statements. *)
Definition ClaimRecipient (sm1 sm2 : Statement) (ticket : bytes) (others : NotifyDB -> NotifyDB)
    (env : NotificationEnvelope) (installation : bytes) (db : NotifyDB) : NotifyDB * result notify_error (bytes * bool) :=
  if beq installation [] then (db, Err MissingInstallation) else
  match perform_statement sm1 (ClaimNotificationRecipient (neID env) installation ticket (neLeaseID env) (smNow sm1)) db with
  | (db, Ok (Some _)) => (db, Ok (ticket, false))
  | (db, Err e) => (db, Err e)
  | (db, Ok None) =>
      match perform_statement sm2 (fun db => (db, GetNotificationRecipientStatus (neID env) installation db)) (others db) with
      | (db, Err e) => (db, Err e)
      | (db, Ok None) => (db, Ok ([], true))
      | (db, Ok (Some status)) =>
          (db, if beq status (str "accepted") || beq status (str "rejected") then Ok ([], true) else Err ErrRecipientBusy)
      end
  end.

Definition FinishRecipient (sm : Statement) (env : NotificationEnvelope) (installation ticket status failureClass : bytes)
    (db : NotifyDB) : NotifyDB * result notify_error () :=
  if negb (beq status pending) && negb (beq status (str "accepted")) && negb (beq status (str "rejected"))
  then (db, Err InvalidReceiptStatus) else
  if negb (validFailureClass failureClass) then (db, Err InvalidFailureClass) else
  checkLease (perform_statement sm (FinishNotificationRecipient (neID env) installation ticket (neLeaseID env) status failureClass
                            (smNow sm)) db).

(** The health query only reads. *)
Definition Maintain (sm1 sm2 : Statement) (others : NotifyDB -> NotifyDB) (health : bool) (db : NotifyDB)
  : NotifyDB * result notify_error () :=
  match perform_statement sm1 (fun db => (ExpireNotificationEnvelopes (smNow sm1) db, tt)) db with
  | (db, Err e) => (db, Err e)
  | (db, Ok _) =>
      match perform_statement sm2 (fun db => (PurgeNotificationReceipts (smNow sm2) db, tt)) (others db) with
      | (db, Err e) => (db, Err e)
      | (db, Ok _) => (db, if health then Ok tt else Err DatabaseError)
      end
  end.

(** ** Delivering one recipient (xmtp/common.go) *)

(** What [send] and [dispatch] look at in the error of a provider. *)
Record SendError := {
  seInvalidToken : bool; seUnregisteredAt : Z; (** of an APNs rejection; [false] without one *)
  sePermanent : bool; seCleanup : bool;
}.

(** A provider: whether it takes the request, and what its [Send] answers. *)
Record Provider := { pvCanDeliver : bool; pvAnswer : option SendError }.

Definition cleanup_failed (e : SendError) : SendError :=
  {| seInvalidToken := seInvalidToken e; seUnregisteredAt := seUnregisteredAt e; sePermanent := sePermanent e;
     seCleanup := true |}.

(** The first provider that takes the request; [invalidate] retires a token. *)
Fixpoint send (services : list Provider) (invalidate : option (Z -> bool)) : bool * option SendError :=
  match services with
  | [] => (false, None)
  | service :: services =>
      if negb (pvCanDeliver service) then send services invalidate else
      (true,
       sendErr ← pvAnswer service;
       match invalidate with
       | Some invalidated =>
           if seInvalidToken sendErr && negb (is_zero (seUnregisteredAt sendErr)) &&
              negb (invalidated (seUnregisteredAt sendErr))
           then Some (cleanup_failed sendErr) else Some sendErr
       | None => Some sendErr
       end)
  end.

(** The joined errors; both absent is [nil]. *)
Definition dispatch_error : Type := option SendError * option notify_error.

Definition finishRecipient (sm : Statement) (env : NotificationEnvelope) (installation ticket : bytes)
    (sendErr : option SendError) (status failureClass : bytes) (db : NotifyDB) : NotifyDB * dispatch_error :=
  match FinishRecipient sm env installation ticket status failureClass db with
  | (db, Err e) => (db, (sendErr, Some e))
  | (db, Ok _) => (db, (if beq status pending then sendErr else None, None))
  end.

(** Status and failure class for the answer of [send]. *)
Definition send_outcome (sent : bool * option SendError) : bytes * bytes :=
  let '(matched, sendErr) := sent in
  if negb matched then (str "rejected", str "no_provider") else
  match sendErr with
  | None => (str "accepted", [])
  | Some e =>
      if seCleanup e then (pending, str "token_cleanup")
      else if sePermanent e then (str "rejected", str "provider_permanent")
      else (pending, str "provider_transient")
  end.

(** What one dispatch meets: its statements, its fresh ticket, the others' transactions while
    it claims and while it sends, the answer of the push policy, the providers. *)
Record Dispatch := {
  dsClaim : Statement; dsStatus : Statement; dsFinish : Statement; dsTicket : bytes;
  dsWhileClaiming : NotifyDB -> NotifyDB; dsWhileSending : NotifyDB -> NotifyDB;
  dsAllowed : bool; dsServices : list Provider; dsInvalidate : option (Z -> bool);
}.

(** With the queue and a captured envelope; the flag says that a provider was called. *)
Definition dispatchContext (d : Dispatch) (env : NotificationEnvelope) (installation : bytes) (db : NotifyDB)
  : NotifyDB * bool * dispatch_error :=
  match ClaimRecipient (dsClaim d) (dsStatus d) (dsTicket d) (dsWhileClaiming d) env installation db with
  | (db, Err e) => (db, false, (None, Some e))
  | (db, Ok (_, true)) => (db, false, (None, None))
  | (db, Ok (ticket, false)) =>
      if negb (dsAllowed d) then
        let '(db, answer) := finishRecipient (dsFinish d) env installation ticket None (str "rejected") (str "suppressed")
                               (dsWhileSending d db) in (db, false, answer)
      else
      let sent := send (dsServices d) (dsInvalidate d) in
      let '(status, failureClass) := send_outcome sent in
      let '(db, answer) := finishRecipient (dsFinish d) env installation ticket sent.2 status failureClass
                             (dsWhileSending d db) in (db, sent.1, answer)
  end.

(** The requests the policy allows. *)
Definition prepareRecipients (sm : Statement) (env : NotificationEnvelope) (requests : list (bytes * bool)) (db : NotifyDB)
  : NotifyDB * result notify_error () :=
  PrepareRecipients sm env (fst <$> List.filter snd requests) db.

(** ** The end of a processed envelope (xmtp/durable_worker.go) *)

Inductive processing_error := InvalidEnvelope | RecipientLimit | ProcessingFailed.

Inductive processed := Processed (err : option processing_error) | Panicked.

Definition processing_outcome (err : option processing_error) : bytes * bytes :=
  match err with
  | None => (str "complete", [])
  | Some InvalidEnvelope => (str "dead", str "invalid_envelope")
  | Some RecipientLimit => (str "dead", str "recipient_limit")
  | Some ProcessingFailed => (pending, str "processing")
  end.

(** The worker goes on ([true]) except after a panic. *)
Definition processDurableEnvelope (sm : Statement) (env : NotificationEnvelope) (stopping leaseHealthy : bool)
    (p : processed) (db : NotifyDB) : NotifyDB * bool :=
  let goes_on := match p with Processed _ => true | Panicked => false end in
  if stopping || negb leaseHealthy then (db, goes_on) else
  let '(outcome, class) := match p with
                           | Processed err => processing_outcome err
                           | Panicked => (str "dead", str "processing_panic")
                           end in
  ((Finish sm env outcome class db).1, goes_on).

(** ** Admitting a frame (xmtp/durable_worker.go) *)

Record PersistTurn := {
  ptStopping : bool; ptStatement : Statement; ptOthers : NotifyDB -> NotifyDB;
  ptWaited : bool; (** the pause after a failure was not cut short *)
}.

(** The readiness flag and, once the loop ends, whether the listener goes on. *)
Fixpoint persistEnvelope (turns : list PersistTurn) (version key payload : bytes) (ready : bool) (db : NotifyDB)
  : NotifyDB * bool * option bool :=
  match turns with
  | [] => (db, ready, None)
  | turn :: turns =>
      if ptStopping turn then (db, ready, Some false) else
      match Enqueue (ptStatement turn) version key payload (ptOthers turn db) with
      | (db, Ok _) | (db, Err ErrInvalidNotificationEnvelope) | (db, Err ErrNotificationEnvelopeTooLarge) =>
          (db, true, Some true)
      | (db, Err _) =>
          if ptWaited turn then persistEnvelope turns version key payload false db else (db, false, Some false)
      end
  end.
