(* ===== verification/NotificationProps.v ===== *)
(** * What the notification queue guarantees

    Calls as steps of the tables, interleaved in any order with any clocks and failures: the
    queue stays within its quota, a decided recipient is never sent to again, and a worker
    that lost its lease changes nothing. *)

From S2P Require Import Prelude GoBytes GoTime NotificationQueue.
Local Open Scope Z_scope.
Local Open Scope go_scope.

(** ** Calls *)

Inductive notify_call :=
| DoEnqueue (sm : Statement) (listener key payload : bytes)
| DoClaim (sm : Statement) (lease : bytes) (locked : Z -> bool) (listener : bytes)
| DoRenew (sm : Statement) (env : NotificationEnvelope)
| DoFinish (sm : Statement) (env : NotificationEnvelope) (outcome failureClass : bytes)
| DoPrepare (sm : Statement) (env : NotificationEnvelope) (ids : list bytes)
| DoClaimRecipient (sm : Statement) (ticket : bytes) (env : NotificationEnvelope) (installation : bytes)
| DoFinishRecipient (sm : Statement) (env : NotificationEnvelope) (installation ticket status failureClass : bytes)
| DoExpire (sm : Statement)
| DoPurge (sm : Statement).

(** The first statement of [ClaimRecipient], and the two of [Maintain], are calls of their own:
    others may run in between. *)
Definition run_call (c : notify_call) (db : NotifyDB) : NotifyDB :=
  match c with
  | DoEnqueue sm listener key payload => (Enqueue sm listener key payload db).1
  | DoClaim sm lease locked listener => (Claim sm lease locked listener db).1
  | DoRenew sm env => (Renew sm env db).1
  | DoFinish sm env outcome failureClass => (Finish sm env outcome failureClass db).1
  | DoPrepare sm env ids => (PrepareRecipients sm env ids db).1
  | DoClaimRecipient sm ticket env installation =>
      (perform_statement sm (ClaimNotificationRecipient (neID env) installation ticket (neLeaseID env) (smNow sm)) db).1
  | DoFinishRecipient sm env installation ticket status failureClass =>
      (FinishRecipient sm env installation ticket status failureClass db).1
  | DoExpire sm => (perform_statement sm (fun db => (ExpireNotificationEnvelopes (smNow sm) db, tt)) db).1
  | DoPurge sm => (perform_statement sm (fun db => (PurgeNotificationReceipts (smNow sm) db, tt)) db).1
  end.

Definition run_calls (cs : list notify_call) (db : NotifyDB) : NotifyDB := foldl (fun db c => run_call c db) db cs.

(** ** What calls do to a row *)

Definition known_status (status : bytes) : Prop := status = pending \/ status = str "complete" \/ status = str "dead".

(** Every way a row changes; the claim is the only one that writes a lease. *)
Inductive row_step (row : EnvelopeRow) : option bytes -> EnvelopeRow -> Prop :=
| row_same : row_step row None row
| row_claimed lease now : evStatus row = pending -> evAttempts row < 12 ->
    row_step row (Some lease) (claimed_envelope lease now row)
| row_renewed now : row_step row None (renewed_envelope now row)
| row_finished status failureClass delay now : evStatus row = pending -> known_status status -> validFailureClass failureClass = true ->
    row_step row None (finished_envelope status failureClass delay now row)
| row_prepared : row_step row None (prepared_envelope row)
| row_expired : evStatus row = pending -> row_step row None (expired_envelope row).

(** The lease a call may write. *)
Definition lease_of (c : notify_call) : option bytes :=
  match c with DoClaim _ lease _ _ => Some lease | _ => None end.

Definition envelopes_step (lease : option bytes) (db db' : NotifyDB) : Prop :=
  nqNext db' = nqNext db /\
  forall id row', nqEnvelopes db' !! id = Some row' ->
    exists row l, nqEnvelopes db !! id = Some row /\ row_step row l row' /\ (l = None \/ l = lease).

(** A row an enqueue admits. *)
Definition admitted_row (row : EnvelopeRow) : Prop :=
  exists listener key payload now,
    row = new_row listener key payload pending [] now /\ Z.of_nat (length payload) <= MaxEnvelopeBytes \/
    row = new_row listener key [] (str "dead") (str "oversized") now.

Definition admits (db db' : NotifyDB) : Prop :=
  exists row, admitted_row row /\ nqEnvelopes db' = <[nqNext db := row]> (nqEnvelopes db) /\
    nqReceipts db' = nqReceipts db /\ nqNext db' = nqNext db + 1 /\
    envelope_exists (evListener row) (evKey row) db = false /\
    total charged_count (nqEnvelopes db) < 100000 /\ total charged_bytes (nqEnvelopes db) + charged_bytes row <= 512 * 1024 * 1024.

Lemma envelopes_same lease db db' : nqEnvelopes db' = nqEnvelopes db -> nqNext db' = nqNext db ->
  envelopes_step lease db db'.
Proof.
  intros E N. split; [done|]. intros id row E'. rewrite E in E'. exists row, None.
  split; [done|]. split; [constructor|by left].
Qed.

(** The effect of a failing statement is all or nothing. *)
Lemma perform_cases {A : Type} sm (f : NotifyDB -> NotifyDB * A) db :
  (perform_statement sm f db).1 = db \/ (perform_statement sm f db).1 = (f db).1.
Proof. unfold perform_statement. destruct (f db) as [db' a]. destruct (smFault sm) as [[]|]; auto. Qed.

(** Either of the two databases a statement may leave. *)
Ltac performs :=
  match goal with |- context [perform_statement ?sm ?f ?db] => destruct (perform_cases sm f db) as [->| ->] end.

Lemma perform_ok {A : Type} sm (f : NotifyDB -> NotifyDB * A) db db' a :
  perform_statement sm f db = (db', Ok a) -> f db = (db', a).
Proof. unfold perform_statement. destruct (f db) as [d b]. destruct (smFault sm) as [[]|]; intros; by simplify_eq. Qed.

Lemma checkLease_fst r : (checkLease r).1 = r.1.
Proof. by destruct r as [db [rows|e]]. Qed.

Lemma checkLease_ok r db : checkLease r = (db, Ok tt) -> exists rows, r = (db, Ok rows) /\ rows = 1.
Proof.
  destruct r as [d [rows|e]]; simpl; [|done]. destruct (rows =? 1) eqn:E; [|done]. intros [= <-]. apply Z.eqb_eq in E.
  by exists rows.
Qed.

Lemma update_envelope_cases id p f db :
  update_envelope id p f db = (db, 0) \/
  exists row, nqEnvelopes db !! id = Some row /\ p row = true /\
    update_envelope id p f db = (with_envelopes (<[id := f row]> (nqEnvelopes db)) db, 1).
Proof.
  unfold update_envelope. destruct (nqEnvelopes db !! id) as [row|]; [|by left].
  destruct (p row) eqn:P; [|by left]. right. by exists row.
Qed.

Lemma set_envelope_step lease id row row' l db : nqEnvelopes db !! id = Some row -> row_step row l row' ->
  l = None \/ l = lease -> envelopes_step lease db (with_envelopes (<[id := row']> (nqEnvelopes db)) db).
Proof.
  intros E S L. split; [done|]. intros k r E'. simpl in E'.
  apply lookup_insert_Some in E' as [[<- <-]|[_ E']]; [by exists row, l|].
  exists r, None. split; [done|]. split; [constructor|by left].
Qed.

Lemma update_envelope_step lease id p f db :
  (forall row, p row = true -> row_step row None (f row)) -> envelopes_step lease db (update_envelope id p f db).1.
Proof.
  intros F. destruct (update_envelope_cases id p f db) as [->|(row & E & P & ->)].
  - by apply envelopes_same.
  - apply (set_envelope_step lease id row (f row) None); [done|by apply F|by left].
Qed.

Lemma rejected_bytes listener key now :
  charged_bytes (new_row listener key [] (str "dead") (str "oversized") now) = rejectedEnvelopeMetadataBytes.
Proof. reflexivity. Qed.

Lemma admitted_bytes listener key payload now :
  charged_bytes (new_row listener key payload pending [] now) = Z.of_nat (length payload).
Proof. unfold charged_bytes. apply Z.add_0_r. Qed.

Lemma insert_admits row db : envelope_exists (evListener row) (evKey row) db = false -> admitted_row row ->
  total charged_count (nqEnvelopes db) < 100000 -> total charged_bytes (nqEnvelopes db) + charged_bytes row <= 512 * 1024 * 1024 ->
  admits db (insert_envelope row db).
Proof. intros N A C B. unfold insert_envelope. rewrite N. by exists row. Qed.

Lemma enqueue_tx_step listener key payload now db db' :
  admission_tx listener key payload now db = Ok db' -> db' = db \/ admits db db'.
Proof.
  unfold admission_tx. destruct (envelope_exists _ _ _) eqn:N; [intros [= <-]; by left|].
  unfold NotificationPendingCapacity. intros E. apply reject_ok in E as [B E]. injection E as <-. boolprop. right.
  destruct (MaxEnvelopeBytes <? _) eqn:O; apply insert_admits; rewrite ?rejected_bytes, ?admitted_bytes; try done;
    exists listener, key, payload, now; [by right|left]. split; [done|by apply Z.ltb_ge in O].
Qed.

Lemma Enqueue_cases sm listener key payload db :
  (Enqueue sm listener key payload db).1 = db \/
  admission_tx listener key payload (smNow sm) db = Ok (Enqueue sm listener key payload db).1.
Proof.
  unfold Enqueue. destruct (_ || beq payload []); [by left|].
  destruct (smFault sm) as [[]|], (admission_tx listener key payload (smNow sm) db); auto.
Qed.

Lemma held_pending lease now row : held lease now row = true -> evStatus row = pending.
Proof. unfold held. intros E. boolprop. by beqs. Qed.

Lemma soonest_in l kv : soonest l = Some kv -> kv ∈ l.
Proof.
  revert kv. induction l as [|a l IH]; intros kv; [done|]. simpl. destruct (soonest l) as [b|].
  - destruct (sooner a b); intros [= <-]; [by left|right; by apply IH].
  - intros [= <-]. by left.
Qed.

Lemma claim_candidate_some listener now locked db id row : claim_candidate listener now locked db = Some (id, row) ->
  nqEnvelopes db !! id = Some row /\ claimable_envelope listener now row = true /\ locked id = false.
Proof.
  intros E. apply soonest_in, list_elem_of_In, filter_In in E as [I F]. apply list_elem_of_In, elem_of_map_to_list in I.
  simpl in F. boolprop. done.
Qed.

Lemma claim_step sm lease locked listener db : envelopes_step (Some lease) db (Claim sm lease locked listener db).1.
Proof.
  unfold Claim. set (f := ClaimNotificationEnvelope _ _ _ _). assert (F : envelopes_step (Some lease) db (f db).1).
  { unfold f, ClaimNotificationEnvelope. destruct (claim_candidate _ _ _ _) as [[id row]|] eqn:C; [|by apply envelopes_same].
    apply claim_candidate_some in C as (E & P & _). unfold claimable_envelope in P. boolprop. beqs.
    apply (set_envelope_step _ id row _ (Some lease)); [done| |by right]. constructor; [done|lia]. }
  destruct (perform_cases sm f db) as [P|P]; destruct (perform_statement sm f db) as [db' [[[id row]|]|e]]; simpl in *; subst;
    try done; by apply envelopes_same.
Qed.

(** Every call moves the rows this way, or admits one. *)
Lemma call_envelopes c db : envelopes_step (lease_of c) db (run_call c db) \/ admits db (run_call c db).
Proof.
  destruct c as [sm listener key payload|sm lease locked listener|sm env|sm env outcome fc|sm env ids|sm ticket env inst
    |sm env inst ticket status fc|sm|sm]; simpl run_call.
  1: destruct (Enqueue_cases sm listener key payload db) as [->|E]; [by left; apply envelopes_same|].
  1: destruct (enqueue_tx_step _ _ _ _ _ _ E) as [->|A]; [by left; apply envelopes_same|by right].
  all: left.
  - apply claim_step.
  - unfold Renew. rewrite checkLease_fst. performs; [by apply envelopes_same|]. apply update_envelope_step. intros row _. constructor.
  - unfold Finish. destruct (negb (beq outcome pending) && _ && _); [by apply envelopes_same|].
    destruct (negb (validFailureClass _)) eqn:V; [by apply envelopes_same|]. apply negb_false_iff in V. rewrite checkLease_fst.
    performs; [by apply envelopes_same|].
    apply update_envelope_step. intros row Hh. constructor; [by eapply held_pending| |done]. unfold known_status.
    destruct (beq outcome _); [by right; left|]. destruct (_ || _); [by right; right|by left].
  - unfold PrepareRecipients. destruct (neRecipientsPrepared env); [by apply envelopes_same|].
    destruct (_ <? _); [by apply envelopes_same|].
    performs; [by apply envelopes_same|].
    simpl. unfold PrepareNotificationRecipients.
    pose proof (update_envelope_step (@None bytes) (neID env) (fun row => held (neLeaseID env) (smNow sm) row && negb (evPrepared row))
      prepared_envelope db (fun row _ => row_prepared row)) as U.
    destruct (update_envelope _ _ _ db) as [db' rows]. destruct (rows =? 1); exact U.
  - performs; [by apply envelopes_same|].
    unfold ClaimNotificationRecipient. destruct (nqReceipts db !! _); [|by apply envelopes_same].
    destruct (_ && _ && _); by apply envelopes_same.
  - unfold FinishRecipient. destruct (_ && _ && _); [by apply envelopes_same|]. destruct (negb _); [by apply envelopes_same|].
    rewrite checkLease_fst. performs; [by apply envelopes_same|].
    unfold FinishNotificationRecipient. destruct (nqReceipts db !! _); [|by apply envelopes_same].
    destruct (_ && _); by apply envelopes_same.
  - performs; [by apply envelopes_same|].
    split; [done|]. intros id row E. simpl in E. rewrite lookup_fmap in E. apply fmap_Some in E as (r & E & ->).
    exists r, None. split; [done|]. split; [|by left]. destruct (expires _ r) eqn:X; [|constructor].
    constructor. unfold expires in X. boolprop. by beqs.
  - performs; [by apply envelopes_same|].
    split; [done|]. intros id row E. simpl in E. apply map_lookup_filter_Some in E as [E _].
    exists row, None. split; [done|]. split; [constructor|by left].
Qed.

(** ** Totals *)

Lemma total_insert f m id row : m !! id = None -> total f (<[id := row]> m) = f row + total f m.
Proof. intros N. unfold total. rewrite map_fold_insert_L; [done|intros; lia|done]. Qed.

Lemma total_nonneg f m : (forall row, 0 <= f row) -> 0 <= total f m.
Proof.
  intros F. induction m as [|id row m N IH] using map_ind; [done|]. rewrite total_insert by done. specialize (F row). lia.
Qed.

(** Row by row below, below in total. *)
Lemma total_mono f m m' : (forall row, 0 <= f row) ->
  (forall id row', m' !! id = Some row' -> exists row, m !! id = Some row /\ f row' <= f row) -> total f m' <= total f m.
Proof.
  intros F. revert m. induction m' as [|id row' m' N IH] using map_ind; intros m P; [by apply total_nonneg|].
  destruct (P id row') as (row & E & L); [by rewrite lookup_insert_eq|].
  rewrite total_insert by done. rewrite <- (insert_delete_id m id row E), total_insert by apply lookup_delete_eq.
  assert (total f m' <= total f (delete id m)); [|lia]. apply IH. intros k r E'.
  assert (k <> id) by (intros ->; by rewrite N in E'). destruct (P k r) as (r0 & E0 & L0); [by rewrite lookup_insert_ne|].
  exists r0. by rewrite lookup_delete_ne.
Qed.

Lemma count_nonneg row : 0 <= charged_count row.
Proof. unfold charged_count. destruct (is_counted row); lia. Qed.

Lemma bytes_nonneg row : 0 <= charged_bytes row.
Proof. unfold charged_bytes. destruct (is_counted row), (beq (evFailure row) (str "oversized")); lia. Qed.

(** ** The invariant *)

(** A known status; at most twelve attempts; a payload within the limit, and none left once
    the envelope is over. *)
Definition row_ok (row : EnvelopeRow) : Prop :=
  known_status (evStatus row) /\ 0 <= evAttempts row <= 12 /\ Z.of_nat (length (evPayload row)) <= MaxEnvelopeBytes /\
  (evStatus row <> pending -> evPayload row = []).

Definition within_quota (db : NotifyDB) : Prop :=
  total charged_count (nqEnvelopes db) <= 100000 /\ total charged_bytes (nqEnvelopes db) <= 512 * 1024 * 1024.

Record queue_ok (db : NotifyDB) : Prop := {
  qo_ids : forall id row, nqEnvelopes db !! id = Some row -> id < nqNext db;
  qo_rows : forall id row, nqEnvelopes db !! id = Some row -> row_ok row;
  qo_once : forall id id' row row', nqEnvelopes db !! id = Some row -> nqEnvelopes db !! id' = Some row' ->
    evListener row = evListener row' -> evKey row = evKey row' -> id = id';
  qo_quota : within_quota db;
}.

Definition empty_queue : NotifyDB := {| nqEnvelopes := ∅; nqReceipts := ∅; nqNext := 1 |}.

Lemma empty_queue_ok : queue_ok empty_queue.
Proof. by split. Qed.

Lemma step_row_ok row l row' : row_step row l row' -> row_ok row -> row_ok row'.
Proof.
  intros S (K & A & B & P). destruct S as [|lease now Q L|now|status fc delay now Q K' V| |Q]; try done.
  - split; [done|]. split; [simpl; lia|]. by split.
  - split; [done|]. split; [done|]. simpl. destruct (beq status pending) eqn:E; [|by split].
    split; [done|]. intros N. apply beq_true in E. by subst.
  - split; [by right; right|]. by split.
Qed.

Lemma step_identity row l row' : row_step row l row' -> evListener row' = evListener row /\ evKey row' = evKey row.
Proof. by destruct 1. Qed.

Lemma oversized_invalid fc : validFailureClass fc = true -> beq fc (str "oversized") = false.
Proof.
  intros V. destruct (beq fc (str "oversized")) eqn:E; [|done]. apply beq_true in E. subst. vm_compute in V. discriminate.
Qed.

(** No step of a row raises what it is charged. *)
Lemma step_charges row l row' : row_step row l row' -> charged_count row' <= charged_count row /\ charged_bytes row' <= charged_bytes row.
Proof.
  intros S. pose proof (count_nonneg row). pose proof (bytes_nonneg row).
  destruct S as [|lease now Q L|now|status fc delay now Q K' V| |Q]; try (split; reflexivity).
  - apply oversized_invalid in V. unfold charged_count, charged_bytes, is_counted. simpl. rewrite V, Q, orb_false_r.
    destruct (beq status pending); simpl; split; try lia; destruct (beq (evFailure row) _); lia.
  - split; [exact H|exact H0].
Qed.

Lemma step_quota lease db db' : envelopes_step lease db db' -> within_quota db -> within_quota db'.
Proof.
  intros [_ S] [C B]. split; (eapply Z.le_trans; [apply total_mono|eassumption]); try apply count_nonneg; try apply bytes_nonneg;
    intros id row' E; destruct (S id row' E) as (row & l & E0 & R & _); exists row; (split; [done|]); by destruct (step_charges _ _ _ R).
Qed.

Lemma exists_row listener key db id row : envelope_exists listener key db = false -> nqEnvelopes db !! id = Some row ->
  ~ (evListener row = listener /\ evKey row = key).
Proof.
  intros N E [<- <-]. apply (f_equal negb) in N. simpl in N. apply negb_true_iff in N. apply not_true_iff_false in N. apply N.
  apply existsb_exists. exists (id, row). split; [by apply list_elem_of_In, elem_of_map_to_list|]. simpl. by rewrite !beq_refl.
Qed.

Lemma admitted_row_ok row : admitted_row row -> row_ok row /\ charged_count row <= 1.
Proof.
  intros (listener & key & payload & now & [[-> L]| ->]).
  - split; [|reflexivity]. split; [by left|]. split; [simpl; lia|]. split; [done|]. intros N. by destruct N.
  - split; [|reflexivity]. split; [by right; right|]. split; [simpl; lia|]. by split.
Qed.

Lemma step_queue_ok lease db db' : envelopes_step lease db db' -> queue_ok db -> queue_ok db'.
Proof.
  intros S C. pose proof S as [N R]. split.
  - intros id row' E. destruct (R id row' E) as (row & l & E0 & _). rewrite N. by apply (qo_ids _ C id row).
  - intros id row' E. destruct (R id row' E) as (row & l & E0 & T & _). apply (step_row_ok _ _ _ T), (qo_rows _ C id row E0).
  - intros id id' r r' E E' L K. destruct (R id r E) as (r0 & l & E0 & T & _). destruct (R id' r' E') as (r0' & l' & E0' & T' & _).
    apply step_identity in T as [L1 K1]. apply step_identity in T' as [L2 K2].
    apply (qo_once _ C id id' r0 r0'); congruence.
  - by apply (step_quota lease db), C.
Qed.

Lemma admit_queue_ok db db' : admits db db' -> queue_ok db -> queue_ok db'.
Proof.
  intros (row & A & E & _ & N & X & Q & B) C. apply admitted_row_ok in A as [A A1].
  assert (F : nqEnvelopes db !! nqNext db = None).
  { destruct (nqEnvelopes db !! nqNext db) as [r|] eqn:F; [|done]. apply (qo_ids _ C) in F. lia. }
  split; rewrite ?E, ?N.
  - intros id r L. apply lookup_insert_Some in L as [[<- _]|[_ L]]; [lia|]. apply (qo_ids _ C) in L. lia.
  - intros id r L. apply lookup_insert_Some in L as [[_ <-]|[_ L]]; [done|]. by apply (qo_rows _ C id).
  - intros id id' r r' L L' Hl Hk.
    apply lookup_insert_Some in L as [[<- <-]|[_ L]]; apply lookup_insert_Some in L' as [[<- <-]|[_ L']]; try done.
    + by destruct (exists_row _ _ _ _ _ X L').
    + by destruct (exists_row _ _ _ _ _ X L).
    + by apply (qo_once _ C id id' r r').
  - unfold within_quota. rewrite E, !total_insert by done. split; lia.
Qed.

Lemma call_queue_ok c db : queue_ok db -> queue_ok (run_call c db).
Proof.
  destruct (call_envelopes c db) as [S|A]; [by apply (step_queue_ok (lease_of c))|by apply admit_queue_ok].
Qed.

Lemma calls_queue_ok cs db : queue_ok db -> queue_ok (run_calls cs db).
Proof. revert db. induction cs as [|c cs IH]; intros db C; [done|]. by apply IH, call_queue_ok. Qed.

(** C19: the queue stays bounded and clean. Whatever calls run in whatever order, with whatever
    clocks, failures and leases: at most 100000 envelopes and 512 MiB are pending (rejected ones
    counted with their 512 bytes), a message is admitted under one id only, no envelope passes
    twelve attempts or 2 MiB, and an envelope that is over keeps no payload. *)
Theorem notification_queue_is_bounded cs :
  let db := run_calls cs empty_queue in
  total charged_count (nqEnvelopes db) <= 100000 /\ total charged_bytes (nqEnvelopes db) <= 512 * 1024 * 1024 /\
  (forall id row, nqEnvelopes db !! id = Some row ->
     evAttempts row <= MaxAttempts /\ Z.of_nat (length (evPayload row)) <= MaxEnvelopeBytes /\
     (evStatus row <> pending -> evPayload row = [])) /\
  (forall id id' row row', nqEnvelopes db !! id = Some row -> nqEnvelopes db !! id' = Some row' ->
     evListener row = evListener row' -> evKey row = evKey row' -> id = id').
Proof.
  intros db. destruct (calls_queue_ok cs empty_queue empty_queue_ok) as [_ R O [C B]].
  split; [done|]. split; [done|]. split; [|done].
  intros id row E. destruct (R id row E) as (_ & [_ A] & L & P). by split.
Qed.

(** ** A lost lease *)

(** No row is under this lease. *)
Definition lease_gone (id : Z) (lease : bytes) (db : NotifyDB) : Prop :=
  forall row, nqEnvelopes db !! id = Some row -> evLease row <> lease.

Lemma step_lease row l row' : row_step row l row' -> evLease row' = evLease row \/ evLease row' = [] \/ l = Some (evLease row').
Proof. destruct 1; auto. Qed.

Lemma call_lease_gone c db id lease : lease <> [] -> lease_of c <> Some lease -> lease_gone id lease db ->
  lease_gone id lease (run_call c db).
Proof.
  intros N F G row' E. destruct (call_envelopes c db) as [[_ S]|(row & A & X & _)].
  - destruct (S id row' E) as (row & l & E0 & R & L). specialize (G row E0).
    destruct (step_lease _ _ _ R) as [->|[->|K]]; [done|by apply not_eq_sym|]. intros <-. destruct L as [->| ->]; congruence.
  - rewrite X in E. apply lookup_insert_Some in E as [[_ <-]|[_ E]]; [|by apply G].
    destruct A as (listener & key & payload & now & [[-> _]| ->]); by apply not_eq_sym.
Qed.

Lemma calls_lease_gone cs db id lease : lease <> [] -> Forall (fun c => lease_of c <> Some lease) cs ->
  lease_gone id lease db -> lease_gone id lease (run_calls cs db).
Proof.
  intros N F. revert db. induction F as [|c cs Fc _ IH]; intros db G; [done|]. by apply IH, call_lease_gone.
Qed.

Lemma gone_held id lease now row db : lease_gone id lease db -> nqEnvelopes db !! id = Some row -> held lease now row = false.
Proof. intros G E. unfold held. rewrite (proj2 (beq_false _ _) (G row E)). done. Qed.

Lemma gone_not_held id lease now db : lease_gone id lease db -> envelope_held id lease now db = false.
Proof.
  intros G. unfold envelope_held. destruct (nqEnvelopes db !! id) as [row|] eqn:E; [|done]. by apply (gone_held id _ _ _ db).
Qed.

(** A write under the lost lease finds no row. *)
Lemma gone_update id lease (p : EnvelopeRow -> bool) f now db : lease_gone id lease db ->
  (forall row, p row = true -> held lease now row = true) -> update_envelope id p f db = (db, 0).
Proof.
  intros G P. destruct (update_envelope_cases id p f db) as [E|(row & E & Q & _)]; [done|].
  apply P in Q. by rewrite (gone_held id lease now row db) in Q.
Qed.

(** Nothing changes, and the call does not succeed. *)
Definition refused {A : Type} (db : NotifyDB) (r : NotifyDB * result notify_error A) : Prop :=
  r.1 = db /\ is_ok r.2 = false.

Lemma checkLease_refused sm f db : f db = (db, 0) -> refused db (checkLease (perform_statement sm f db)).
Proof. unfold perform_statement. intros ->. by destruct (smFault sm) as [[]|]. Qed.

Lemma gone_finish sm env outcome fc db : lease_gone (neID env) (neLeaseID env) db ->
  refused db (Finish sm env outcome fc db).
Proof.
  intros G. unfold Finish. destruct (_ && _ && _); [done|]. destruct (negb _); [done|]. apply checkLease_refused.
  by apply (gone_update _ (neLeaseID env) _ _ (smNow sm)).
Qed.

Lemma gone_prepare sm env ids db : lease_gone (neID env) (neLeaseID env) db -> (PrepareRecipients sm env ids db).1 = db.
Proof.
  intros G. unfold PrepareRecipients. destruct (neRecipientsPrepared env); [done|]. destruct (_ <? _); [done|]. performs; [done|].
  simpl. unfold PrepareNotificationRecipients. rewrite (gone_update _ (neLeaseID env) _ _ (smNow sm)); [done|done|].
  intros row P. by apply andb_true_iff in P as [P _].
Qed.

Lemma gone_finish_recipient sm env installation ticket status fc db : lease_gone (neID env) (neLeaseID env) db ->
  refused db (FinishRecipient sm env installation ticket status fc db).
Proof.
  intros G. unfold FinishRecipient. destruct (_ && _ && _); [done|]. destruct (negb _); [done|]. apply checkLease_refused.
  unfold FinishNotificationRecipient. destruct (nqReceipts db !! _) as [row|]; [|done]. by rewrite gone_not_held, andb_false_r.
Qed.

(** ** Dispatches that call no provider *)

(** No ticket for the recipient. *)
Definition not_granted (env : NotificationEnvelope) (installation : bytes) (db : NotifyDB) : Prop :=
  forall ticket now, ClaimNotificationRecipient (neID env) installation ticket (neLeaseID env) now db = (db, None).

(** Without a ticket, the only changes are those of the others. *)
Lemma not_granted_claim sm1 sm2 ticket others env installation db : not_granted env installation db ->
  let r := ClaimRecipient sm1 sm2 ticket others env installation db in
  (r.1 = db \/ r.1 = others db) /\ forall t, r.2 <> Ok (t, false).
Proof.
  intros N. cbv zeta. unfold ClaimRecipient, perform_statement. rewrite !N.
  destruct (beq installation []); [split; [by left|done]|].
  destruct (smFault sm1) as [[]|]; [split; [by left|done]..|].
  destruct (smFault sm2) as [[]|]; [split; [by right|done]..|].
  destruct (GetNotificationRecipientStatus _ _ _) as [status|]; [|split; [by right|done]].
  split; [by right|]. simpl. by destruct (_ || _).
Qed.

Lemma not_granted_dispatch d env installation db : not_granted env installation db ->
  let r := dispatchContext d env installation db in
  (r.1.1 = db \/ r.1.1 = dsWhileClaiming d db) /\ r.1.2 = false.
Proof.
  intros N. pose proof (not_granted_claim (dsClaim d) (dsStatus d) (dsTicket d) (dsWhileClaiming d) env installation db N) as [S T].
  unfold dispatchContext. destruct (ClaimRecipient _ _ _ _ _ _ _) as [db1 [[ticket []]|e]]; [done| |done]. by destruct (T ticket).
Qed.

Lemma not_granted_sends_nothing d env installation db : not_granted env installation db ->
  (dispatchContext d env installation db).1.2 = false.
Proof. intros N. by apply not_granted_dispatch. Qed.

Lemma gone_not_granted env installation db : lease_gone (neID env) (neLeaseID env) db -> not_granted env installation db.
Proof.
  intros G ticket now. unfold ClaimNotificationRecipient. destruct (nqReceipts db !! _) as [row|]; [|done].
  by rewrite gone_not_held, andb_false_r.
Qed.

Lemma claimed_lease sm lease locked listener db db' env : Claim sm lease locked listener db = (db', Ok (Some env)) ->
  exists row, nqEnvelopes db' !! neID env = Some row /\ evLease row = neLeaseID env.
Proof.
  unfold Claim. pose proof (perform_ok sm (ClaimNotificationEnvelope listener lease locked (smNow sm)) db) as P.
  destruct (perform_statement sm _ db) as [d [[[id row]|]|e]]; [|done..]. intros E. simplify_eq. specialize (P _ _ eq_refl).
  unfold ClaimNotificationEnvelope in P. destruct (claim_candidate _ _ _ _) as [[i r]|]; [|done]. simplify_eq. simpl.
  exists (claimed_envelope lease (smNow sm) r). by rewrite lookup_insert_eq.
Qed.

(** A lost lease is not reported: the preparation of a snapshot has no answer to tell it. *)
Lemma gone_prepare_answers sm env ids db : smFault sm = None -> Z.of_nat (length ids) <= MaxRecipients ->
  (PrepareRecipients sm env ids db).2 = Ok tt.
Proof.
  intros F L. unfold PrepareRecipients, perform_statement. destruct (neRecipientsPrepared env); [done|].
  destruct (Z.ltb_spec MaxRecipients (Z.of_nat (length ids))); [lia|]. by rewrite F.
Qed.

(** C18: a worker whose envelope was claimed by another can do no harm. Once some claim returned
    the envelope under another lease, and whatever calls follow (whose leases are fresh), the
    first worker's renewal, completion and receipts change nothing and fail. Its preparation of
    the recipients changes nothing either, but is not told: unless the statement fails or the
    recipients are too many it answers without error. It is granted no recipient, and its
    dispatches call no provider and write nothing: what they leave is the state they found, or
    what others made of it between their two statements. *)
Theorem stale_worker_changes_nothing sm lease locked listener db0 db1 env env' cs :
  Claim sm lease locked listener db0 = (db1, Ok (Some env')) -> neID env' = neID env ->
  neLeaseID env <> neLeaseID env' -> neLeaseID env <> [] ->
  Forall (fun c => lease_of c <> Some (neLeaseID env)) cs ->
  let db := run_calls cs db1 in
  (forall sm, refused db (Renew sm env db)) /\
  (forall sm outcome fc, refused db (Finish sm env outcome fc db)) /\
  (forall sm installation ticket status fc, refused db (FinishRecipient sm env installation ticket status fc db)) /\
  (forall sm ids, let r := PrepareRecipients sm env ids db in
     r.1 = db /\ (smFault sm = None -> Z.of_nat (length ids) <= MaxRecipients -> r.2 = Ok tt)) /\
  (forall sm1 sm2 ticket others installation, let r := ClaimRecipient sm1 sm2 ticket others env installation db in
     (r.1 = db \/ r.1 = others db) /\ forall t, r.2 <> Ok (t, false)) /\
  (forall d installation, let r := dispatchContext d env installation db in
     (r.1.1 = db \/ r.1.1 = dsWhileClaiming d db) /\ r.1.2 = false).
Proof.
  intros C I L N F db. assert (G : lease_gone (neID env) (neLeaseID env) db).
  { apply calls_lease_gone; [done..|]. intros row E. apply claimed_lease in C as (row' & E' & L').
    rewrite I, E in E'. injection E' as <-. congruence. }
  split; [|split; [|split; [|split; [|split]]]].
  - intros s. apply checkLease_refused. by apply (gone_update _ (neLeaseID env) _ _ (smNow s)).
  - intros s outcome fc. by apply gone_finish.
  - intros s installation ticket status fc. by apply gone_finish_recipient.
  - intros s ids. split; [by apply gone_prepare|]. by apply gone_prepare_answers.
  - intros s1 s2 ticket others installation. by apply not_granted_claim, gone_not_granted.
  - intros d installation. by apply not_granted_dispatch, gone_not_granted.
Qed.

(** ** A decided recipient *)

Definition decided (row : RecipientRow) : Prop := rrStatus row <> pending.

(** A receipt in another status is never written again; only the purge of its envelope removes it. *)
Definition receipts_kept (db db' : NotifyDB) : Prop :=
  (forall k row, nqReceipts db !! k = Some row -> decided row ->
     nqReceipts db' !! k = Some row \/ (nqReceipts db' !! k = None /\ nqEnvelopes db' !! k.1 = None)) /\
  (forall k, nqReceipts db !! k = None -> nqEnvelopes db !! k.1 = None -> nqReceipts db' !! k = None).

Lemma receipts_same db db' : nqReceipts db' = nqReceipts db -> receipts_kept db db'.
Proof. intros E. split; rewrite E; [by left|done]. Qed.

Lemma update_envelope_receipts id p f db : nqReceipts (update_envelope id p f db).1 = nqReceipts db.
Proof. unfold update_envelope. destruct (nqEnvelopes db !! id) as [row|]; [|done]. by destruct (p row). Qed.

Lemma set_receipt_kept k row row' db : nqReceipts db !! k = Some row -> rrStatus row = pending ->
  receipts_kept db (with_receipts (<[k := row']> (nqReceipts db)) db).
Proof.
  intros E P. split; simpl.
  - intros k' r E' D. left. rewrite lookup_insert_ne; [done|]. intros <-. rewrite E in E'. by simplify_eq.
  - intros k' N _. rewrite lookup_insert_ne; [done|]. intros <-. by rewrite E in N.
Qed.

Lemma add_receipts_kept id ids m k : (forall row, m !! k = Some row -> foldl (add_receipt id) m ids !! k = Some row) /\
  (k.1 <> id -> foldl (add_receipt id) m ids !! k = m !! k).
Proof.
  revert m. induction ids as [|i ids IH]; intros m; [done|]. simpl. destruct (IH (add_receipt id m i)) as [I1 I2].
  unfold add_receipt in *. destruct (m !! (id, i)) as [r|] eqn:E; [done|]. split.
  - intros row R. apply I1. rewrite lookup_insert_ne; [done|]. intros <-. by rewrite E in R.
  - intros N. rewrite I2 by done. apply lookup_insert_ne. by intros <-.
Qed.

Lemma prepare_receipts id lease ids now db : receipts_kept db (PrepareNotificationRecipients id lease ids now db).
Proof.
  unfold PrepareNotificationRecipients.
  destruct (update_envelope_cases id (fun row => held lease now row && negb (evPrepared row)) prepared_envelope db)
    as [->|(row & E & _ & ->)]; simpl; [by apply receipts_same|]. split; simpl.
  - intros k r R _. left. by apply add_receipts_kept.
  - intros k N X. destruct (add_receipts_kept id ids (nqReceipts db) k) as [_ A]. rewrite A; [done|]. intros <-. by rewrite E in X.
Qed.

Lemma claim_receipts id installation ticket lease now db :
  receipts_kept db (ClaimNotificationRecipient id installation ticket lease now db).1.
Proof.
  unfold ClaimNotificationRecipient. destruct (nqReceipts db !! _) as [row|] eqn:E; [|by apply receipts_same].
  destruct (_ && _ && _) eqn:C; [|by apply receipts_same]. boolprop. beqs. by apply (set_receipt_kept _ row).
Qed.

Lemma finish_receipts id installation ticket lease status fc now db :
  receipts_kept db (FinishNotificationRecipient id installation ticket lease status fc now db).1.
Proof.
  unfold FinishNotificationRecipient. destruct (nqReceipts db !! _) as [row|] eqn:E; [|by apply receipts_same].
  destruct (_ && envelope_held _ _ _ _) eqn:C; [|by apply receipts_same]. boolprop. beqs. by apply (set_receipt_kept _ row).
Qed.

Lemma purge_receipts now db : receipts_kept db (PurgeNotificationReceipts now db).
Proof.
  split; simpl.
  - intros k r E _. destruct (nqEnvelopes db !! k.1) as [row|] eqn:F.
    + destruct (is_purged now row) eqn:P; [right|left].
      * split; apply map_lookup_filter_None; right; intros x X; simpl; [by rewrite F, P|]. rewrite F in X. simplify_eq. by rewrite P.
      * apply map_lookup_filter_Some. split; [done|]. simpl. by rewrite F.
    + left. apply map_lookup_filter_Some. split; [done|]. simpl. by rewrite F.
  - intros k N _. apply map_lookup_filter_None. by left.
Qed.

Lemma call_receipts c db : receipts_kept db (run_call c db).
Proof.
  destruct c as [sm listener key payload|sm lease locked listener|sm env|sm env outcome fc|sm env ids|sm ticket env inst
    |sm env inst ticket status fc|sm|sm]; simpl run_call.
  - destruct (Enqueue_cases sm listener key payload db) as [->|E]; [by apply receipts_same|].
    destruct (enqueue_tx_step _ _ _ _ _ _ E) as [->|(row & _ & _ & R & _)]; by apply receipts_same.
  - unfold Claim. set (f := ClaimNotificationEnvelope _ _ _ _). assert (F : nqReceipts (f db).1 = nqReceipts db).
    { unfold f, ClaimNotificationEnvelope. by destruct (claim_candidate _ _ _ _) as [[]|]. }
    destruct (perform_cases sm f db) as [P|P]; destruct (perform_statement sm f db) as [db' [[[id row]|]|e]]; simpl in *; subst;
      by apply receipts_same.
  - unfold Renew. rewrite checkLease_fst. performs; [by apply receipts_same|]. by apply receipts_same, update_envelope_receipts.
  - unfold Finish. destruct (negb (beq outcome pending) && _ && _); [by apply receipts_same|].
    destruct (negb (validFailureClass _)); [by apply receipts_same|]. rewrite checkLease_fst.
    performs; [by apply receipts_same|]. by apply receipts_same, update_envelope_receipts.
  - unfold PrepareRecipients. destruct (neRecipientsPrepared env); [by apply receipts_same|].
    destruct (_ <? _); [by apply receipts_same|]. performs; [by apply receipts_same|apply prepare_receipts].
  - performs; [by apply receipts_same|apply claim_receipts].
  - unfold FinishRecipient. destruct (_ && _ && _); [by apply receipts_same|]. destruct (negb _); [by apply receipts_same|].
    rewrite checkLease_fst. performs; [by apply receipts_same|apply finish_receipts].
  - performs; by apply receipts_same.
  - performs; [by apply receipts_same|apply purge_receipts].
Qed.

(** Decided, or gone with an envelope whose id never comes back. *)
Definition recipient_closed (k : Z * bytes) (db : NotifyDB) : Prop :=
  k.1 < nqNext db /\
  ((exists row, nqReceipts db !! k = Some row /\ decided row) \/ (nqReceipts db !! k = None /\ nqEnvelopes db !! k.1 = None)).

Lemma call_envelope_gone c db id : id < nqNext db ->
  id < nqNext (run_call c db) /\ (nqEnvelopes db !! id = None -> nqEnvelopes (run_call c db) !! id = None).
Proof.
  intros L. destruct (call_envelopes c db) as [[N S]|(row & _ & X & _ & N & _)]; rewrite N; (split; [lia|intros E]).
  - destruct (nqEnvelopes (run_call c db) !! id) as [row'|] eqn:E'; [|done]. destruct (S id row' E') as (row & _ & E0 & _).
    by rewrite E in E0.
  - rewrite X, lookup_insert_ne; [done|lia].
Qed.

Lemma calls_closed cs k db : recipient_closed k db -> recipient_closed k (run_calls cs db).
Proof.
  revert db. induction cs as [|c cs IH]; intros db [L C]; [done|]. apply IH. destruct (call_envelope_gone c db k.1 L) as [L' G].
  destruct (call_receipts c db) as [K1 K2]. split; [done|]. destruct C as [(row & E & D)|[E F]].
  - destruct (K1 k row E D) as [E'|[E' F']]; [left; by exists row|by right].
  - right. split; [by apply K2|by apply G].
Qed.

Lemma closed_not_granted env installation db : recipient_closed (neID env, installation) db -> not_granted env installation db.
Proof.
  intros [_ C] ticket now. unfold ClaimNotificationRecipient.
  destruct C as [(row & -> & D)|[-> _]]; [|done]. by rewrite (proj2 (beq_false _ _) D).
Qed.

Lemma finished_closed sm env installation ticket status fc db db' : queue_ok db -> status <> pending ->
  FinishRecipient sm env installation ticket status fc db = (db', Ok tt) -> recipient_closed (neID env, installation) db'.
Proof.
  intros C N. unfold FinishRecipient. destruct (_ && _ && _); [done|]. destruct (negb _); [done|]. intros E.
  apply checkLease_ok in E as (rows & E & ->). apply perform_ok in E. unfold FinishNotificationRecipient in E.
  destruct (nqReceipts db !! _) as [row|]; [|by simplify_eq]. destruct (_ && _) eqn:P; [|by simplify_eq].
  apply andb_true_iff in P as [_ P]. unfold envelope_held in P. destruct (nqEnvelopes db !! neID env) as [r|] eqn:F; [|done].
  injection E as <-. split; [by apply (qo_ids _ C _ r)|]. left. simpl. rewrite lookup_insert_eq. by eexists.
Qed.

(** C17: a recipient whose delivery is decided is not sent to again. Once [FinishRecipient]
    recorded an acceptance or a rejection, then whatever calls follow, with any clocks, failures
    and leases, also past the purge of the envelope, no dispatch of that recipient for that
    envelope, by any worker, calls a provider. *)
Theorem decided_recipient_is_not_sent_again sm env installation ticket status fc db db' cs d env' :
  queue_ok db -> FinishRecipient sm env installation ticket status fc db = (db', Ok tt) -> status <> pending ->
  neID env' = neID env -> (dispatchContext d env' installation (run_calls cs db')).1.2 = false.
Proof.
  intros C F N I. apply not_granted_sends_nothing, closed_not_granted, calls_closed. rewrite I.
  by apply (finished_closed sm env installation ticket status fc db).
Qed.

(** ** Admission *)

(** What the queue can never admit. *)
Definition inadmissible (listener key payload : bytes) : bool :=
  (negb (beq listener (str "v3")) && negb (beq listener (str "v4"))) || beq key [] || (128 <? Z.of_nat (length key)) ||
  beq payload [].

Lemma insert_present row db : envelope_exists (evListener row) (evKey row) (insert_envelope row db) = true.
Proof.
  unfold insert_envelope. destruct (envelope_exists _ _ db) eqn:E; [done|]. apply existsb_exists. exists (nqNext db, row).
  split; [|simpl; by rewrite !beq_refl]. apply list_elem_of_In, elem_of_map_to_list. simpl. apply lookup_insert_eq.
Qed.

Lemma admission_present listener key payload now db db' : admission_tx listener key payload now db = Ok db' ->
  envelope_exists listener key db' = true.
Proof.
  unfold admission_tx. destruct (envelope_exists _ _ _) eqn:N; [by intros [= <-]|].
  destruct (NotificationPendingCapacity db). intros E. apply reject_ok in E as [_ E]. injection E as <-.
  destruct (_ <? _); [apply (insert_present (new_row listener key [] _ _ now))|apply (insert_present (new_row listener key payload _ _ now))].
Qed.

Lemma admission_error listener key payload now db e : admission_tx listener key payload now db = Err e -> e = AtCapacity.
Proof.
  unfold admission_tx. destruct (envelope_exists _ _ _); [done|]. destruct (NotificationPendingCapacity db).
  destruct (_ || _); [by intros [= <-]|done].
Qed.

Lemma Enqueue_answers sm listener key payload db db' r : Enqueue sm listener key payload db = (db', r) ->
  r = Ok tt \/ r = Err ErrNotificationEnvelopeTooLarge \/ r = Err ErrInvalidNotificationEnvelope ->
  envelope_exists listener key db' = true \/ inadmissible listener key payload = true.
Proof.
  unfold Enqueue. destruct (_ || beq payload []) eqn:I; [by right|]. clear I.
  destruct (smFault sm) as [[]|]; destruct (admission_tx listener key payload (smNow sm) db) as [d|e] eqn:A; intros E R;
    simplify_eq; try by destruct R as [|[|]].
  - left. by apply (admission_present _ _ _ _ _ _ A).
  - apply admission_error in A as ->. by destruct R as [|[|]].
Qed.

(** A frame the listener goes past is on record, or can never be admitted. *)
Theorem persisted_frame_is_queued turns version key payload ready db db' ready' :
  persistEnvelope turns version key payload ready db = (db', ready', Some true) ->
  envelope_exists version key db' = true \/ inadmissible version key payload = true.
Proof.
  revert ready db. induction turns as [|turn turns IH]; intros ready db; simpl; [done|]. destruct (ptStopping turn); [done|].
  destruct (Enqueue _ _ _ _ _) as [d [[]|e]] eqn:E; [intros; simplify_eq; by apply Enqueue_answers in E; [|left]|].
  destruct e; try (intros; simplify_eq; by apply Enqueue_answers in E; auto);
    (destruct (ptWaited turn); [by apply IH|done]).
Qed.
