(* ===== verification/NotificationSample.v ===== *)
(** * A concrete run of the notification queue

    One message is admitted, claimed and delivered to one device; a worker that stalls loses
    its lease to another. *)

From S2P Require Import Prelude GoBytes GoTime NotificationQueue NotificationProps.
Local Open Scope Z_scope.
Local Open Scope go_scope.

Definition at_second (s : Z) : Statement := {| smNow := s * second; smFault := None |}.

Definition no_lock (_ : Z) : bool := false.
Definition nobody (db : NotifyDB) : NotifyDB := db.

Definition device : bytes := str "device-a".
Definition lease_one : bytes := str "lease-1".
Definition lease_two : bytes := str "lease-2".

Definition envelope_under (lease : bytes) (attempts : Z) : NotificationEnvelope := {|
  neID := 1; neListener := str "v4"; neMessageKey := str "message-one"; nePayload := str "encrypted";
  neAttempts := attempts; neLeaseID := lease; neRecipientsPrepared := false |}.

Definition first : NotificationEnvelope := envelope_under lease_one 1.
Definition second_ : NotificationEnvelope := envelope_under lease_two 2.

Definition queued : NotifyDB := (Enqueue (at_second 0) (str "v4") (str "message-one") (str "encrypted") empty_queue).1.
Definition claimed : NotifyDB := (Claim (at_second 1) lease_one no_lock (str "v4") queued).1.

(** The lease of ninety seconds is over. *)
Definition reclaimed : NotifyDB := (Claim (at_second 100) lease_two no_lock (str "v4") claimed).1.

Definition prepared : NotifyDB := (PrepareRecipients (at_second 2) first [device; device] claimed).1.
Definition granted : NotifyDB :=
  run_call (DoClaimRecipient (at_second 3) (str "ticket-1") first device) prepared.
Definition accepted : NotifyDB :=
  (FinishRecipient (at_second 4) first device (str "ticket-1") (str "accepted") [] granted).1.

Lemma granted_ok : queue_ok granted.
Proof. apply (calls_queue_ok [DoEnqueue (at_second 0) (str "v4") (str "message-one") (str "encrypted");
  DoClaim (at_second 1) lease_one no_lock (str "v4"); DoPrepare (at_second 2) first [device; device];
  DoClaimRecipient (at_second 3) (str "ticket-1") first device] empty_queue empty_queue_ok). Qed.

(** A second claim before the lease is over finds nothing, a second enqueue adds nothing. *)
Example one_owner : (Claim (at_second 50) lease_two no_lock (str "v4") claimed).2 = Ok None.
Proof. vm_compute. reflexivity. Qed.
Example enqueued_once :
  nqNext (Enqueue (at_second 5) (str "v4") (str "message-one") (str "encrypted") claimed).1 = nqNext claimed.
Proof. vm_compute. reflexivity. Qed.

(** A dispatch with one willing provider. *)
Definition try_again : Dispatch := {|
  dsClaim := at_second 120; dsStatus := at_second 121; dsFinish := at_second 122; dsTicket := str "ticket-2";
  dsWhileClaiming := nobody; dsWhileSending := nobody; dsAllowed := true;
  dsServices := [{| pvCanDeliver := true; pvAnswer := None |}]; dsInvalidate := None |}.

(** Before the acceptance it would have called the provider. *)
Example undecided_is_sent : (dispatchContext try_again second_ device
  (Claim (at_second 100) lease_two no_lock (str "v4") granted).1).1.2 = true.
Proof. vm_compute. reflexivity. Qed.

Lemma stale_worker_changes_nothing_witness :
  (Finish (at_second 101) first (str "complete") [] reclaimed).2 = Err ErrLeaseLost /\
  refused reclaimed (Finish (at_second 101) first (str "complete") [] reclaimed) /\
  (PrepareRecipients (at_second 101) first [device] reclaimed).1 = reclaimed /\
  (dispatchContext try_again first device reclaimed).1.2 = false.
Proof.
  split; [vm_compute; reflexivity|].
  destruct (stale_worker_changes_nothing (at_second 100) lease_two no_lock (str "v4") claimed reclaimed first second_ []
    ltac:(vm_compute; reflexivity) eq_refl ltac:(discriminate) ltac:(discriminate) (Forall_nil_2 _))
    as (_ & F & _ & P & _ & D).
  exact (conj (F (at_second 101) (str "complete") []) (conj (proj1 (P (at_second 101) [device]))
    (proj2 (D try_again device)))).
Defined.

Lemma decided_recipient_is_not_sent_again_witness :
  (dispatchContext try_again second_ device (run_calls [DoClaim (at_second 100) lease_two no_lock (str "v4")] accepted)).1.2
  = false.
Proof.
  apply (decided_recipient_is_not_sent_again (at_second 4) first device (str "ticket-1") (str "accepted") [] granted accepted
    [DoClaim (at_second 100) lease_two no_lock (str "v4")] try_again second_ granted_ok);
    [vm_compute; reflexivity|discriminate|reflexivity].
Defined.
